(* ===== verification/_CoqProject ===== *)
-Q . S2P
Prelude.v
Checked.v
Ring.v
Wire.v
QuackCore.v
Util.v
Transport.v
Registry.v
Peers.v
Session.v
Admission.v
Pipes.v
Dispatch.v
HttpRoute.v
HttpHeaders.v
HttpStream.v
EventRelay.v
HttpServe.v
Runtime.v
HttpProfile.v
Threads.v
Control.v
Methods.v
Upload.v
SessionThreads.v
MethodRuns.v
UploadRuns.v
Exec.v
Builtins.v
Manifest.v
QuackTypes.v
QuackVectors.v
QuackChecks.v
QuackBatch.v
QuackAppend.v
BodyCsv.v
Body.v
WsFrame.v
ClientAio.v
