(* ===== verification/Prelude.v ===== *)
(** * Verification of the ducknng core

    ducknng is a DuckDB extension, in C, that turns a database process into a
    service: peers send framed requests over NNG sockets, HTTP or WebSockets,
    a dispatcher checks them against the policies of the service and hands
    them to registered methods, and results travel back as frames, as rows
    fetched through sessions, or as HTTP replies.  This library models the
    parts of that program that carry its own logic, as executable functions
    translated from the sources under [src/src/], and proves what makes them
    correct.

    ** The program and the files that model it

    - [Prelude]: machine widths, bytes and C strings ([bytes] is the text
      before the NUL, [option bytes] a pointer that may be NULL), the [result]
      type of fallible functions with its [let!] notation, tactics and shared
      lemmas.
    - [Checked] ([ducknng_checked.c]): overflow-checked sums and products.
    - [Wire] ([ducknng_wire_core.c], [ducknng_wire.c]): the RPC frame: validation,
      encoding into a buffer, encoding of a prefix in place, decoding, the
      upload-append prefix, reply and error messages.
    - [QuackCore] ([ducknng_quack_core.c]): the cursor reader and the writer of
      the quack format with its measuring mode, LEB128 integers, counted
      strings, logical-type descriptors.
    - [Util] ([ducknng_util.c]): scanners for JSON, header arrays, query strings
      and cookies.
    - [Transport] ([ducknng_transport.c]): classification of URLs.
    - [Registry] ([ducknng_registry.c]): the method registry and method replies.
    - [Peers] ([ducknng_service.c]): in-flight requests and session opens,
      accounted per peer identity.
    - [Session] ([ducknng_session.c], [ducknng_service.c]): sessions as heap objects
      with reference counts, and the table of a service.
    - [Admission] ([ducknng_nng_compat.c], [ducknng_service.c]): peer and IP
      allowlists and the checks that use them.
    - [Pipes] ([ducknng_service.c]): the monitor of connections: event ring,
      active pipes, admission callback.
    - [Dispatch] ([ducknng_service.c]): the SQL authorizer's verdict, the
      dispatcher and the request entry points; it composes [Wire], [Registry],
      [Peers], [Session] and [Admission].
    - [HttpRoute] ([ducknng_service.c], [ducknng_http_compat.c]): the table of HTTP
      routes: patterns, registration, lookup.
    - [Ring] ([ducknng_runtime.c]): the ring arithmetic that the log and the
      monitors share.
    - [HttpHeaders] ([ducknng_http_compat.c]): header blocks and header JSON in
      both directions, TLS settings, media types.
    - [HttpStream] ([ducknng_http_client_stream.c]): the incremental parser of
      streamed HTTP responses.
    - [EventRelay] ([ducknng_http_compat.c]): event relays: handler threads, relay
      threads, reaping and stopping, as a step relation over program points.
    - [HttpServe] ([ducknng_service.c], [ducknng_http_compat.c]): rows as HTTP
      replies, static files, chunked and event streams, the HTTP handlers.
    - [Runtime] ([ducknng_runtime.c]): the tables of a runtime, the pool of
      execution connections, client sockets and their monitors.
    - [HttpProfile] ([ducknng_http_profile.c]): credential profiles.
    - [Threads]: programs whose steps interleave: a program is a tree of atomic
      steps (one critical section each), a pool of programs runs one step of any
      of them at a time, and a proof rule lifts an invariant of the steps to
      every interleaving.
    - [Control] ([ducknng_methods.c]): the JSON control messages of sessions and
      the handshake.
    - [Methods], [Upload] ([ducknng_methods.c], [ducknng_session.c]): the handlers of
      query and upload sessions, the idle sweep and the stop of a service, as
      programs of [Threads] over the session table of [Session] and the pool of
      [Runtime], with a log of the calls made to DuckDB.
    - [SessionThreads]: the invariant of that world over every interleaving.
    - [MethodRuns], [UploadRuns]: what a client of a query or of an upload session
      sees from open to close.
    - [Exec] ([ducknng_methods.c], [ducknng_service.c]): the request SQL scope
      (locks, connection, execution subject) and the handlers of exec and
      query_prepare.
    - [Builtins] ([ducknng_methods.c]): the descriptors of the built-in methods,
      their registration with its roll-back, and that replies keep to the flags
      the descriptors declare.
    - [Manifest] ([ducknng_registry.c], [ducknng_methods.c]): the manifest JSON.
    - [QuackTypes] ([ducknng_quack.c]): column types of quack batches: written,
      parsed into schema nodes, turned back into DuckDB's types.
    - [QuackVectors] ([ducknng_quack.c]): the vectors of a column: encoded,
      skipped and decoded, nested types included.
    - [QuackChecks] ([ducknng_quack.c]): the same readers on untrusted bytes, and
      that skipping a vector reads what decoding it reads.
    - [QuackBatch] ([ducknng_quack.c]): whole batches: the two passes of the
      encoder, the parse of the schema, the validation of the results, the scan
      by a table function, the append to a table.
    - [QuackAppend] ([ducknng_quack.c]): the validation of an uploaded batch
      against its later decoding and appending.
    - [BodyCsv], [Body] ([ducknng_sql_body.c]): the bodies of HTTP messages as
      tables: media types and codecs, CSV and TSV, NDJSON, forms, frames, the
      readers that run SQL, user codecs.
    - [WsFrame] ([ducknng_ws_frame.c]): the WebSocket endpoint: its accept thread,
      the threads of its connections, starting and stopping, as a step relation
      over program points; the answer to a message by the dispatcher of
      [Dispatch].

    A definition has the name of the C function it translates; its helpers (the
    body of a loop, a switch) are mapped to the same function.  A struct is a
    record with the fields the modelled functions use.  State is passed
    explicitly: an operation returns the new state beside its result.  Code
    that runs under a mutex is one step; [Peers], [Session], [EventRelay] and
    [WsFrame] put these steps into relations and prove invariants over every interleaving of
    them, and the handlers are programs of [Threads].

    ** What the theorems show

    - Round trips: frames ([frame_roundtrip]), quack scripts of any length
      ([quack_script_roundtrip]), column types ([types_roundtrip]), whole quack
      batches, scanned chunk by chunk ([batch_roundtrip]), control requests ([control_roundtrip]), CSV
      and form bodies ([csv_body_roundtrip], [form_body_roundtrip]), stream
      routes read by the client parser ([stream_route_roundtrip]), header JSON,
      query parameters, cookies, server-sent events.
    - Memory and bounds: a reader never passes its buffer, a measured size is
      what the writer then needs ([quack_measure_then_write]), a schema accepted
      from the wire is within its limits ([accepted_types_wellformed]), vectors
      decoded from any bytes have their declared rows, data and list entries in
      bounds ([decoded_vectors_sound]), stream buffers
      stay in bounds ([stream_buffers_in_bounds]), a session, a relay or a client
      socket is never used after it is freed nor freed twice
      ([session_lifetime], [relay_memory_safe], [socket_lifetime],
      [sessions_threads_safe]), nor is a stream or a connection of the WebSocket
      endpoint ([endpoint_memory_safe]); CSV bodies of any content become tables
      whose cells fit their columns ([csv_tables]).
    - Concurrency: for any number of handlers, sweeps and a stop in any order,
      every DuckDB connection is used by its session alone, calls on it follow
      DuckDB's protocol and it returns to the pool once
      ([sessions_threads_safe]); every handler runs to its end
      ([handlers_complete]), and so do the stops of the
      relays and of the WebSocket endpoint ([relay_stop_completes],
      [endpoint_stop_completes]).
    - Sessions end to end: the fetches of a session deliver the chunks of the
      result in order and each once ([query_session_rows]); an upload is stored
      whole or not at all ([upload_atomic]).
    - Refinement: the registry and the runtime's tables are finite maps
      ([registry_refines_map], [runtime_tables_refine]); the pipe monitor is a
      history and a map of active pipes ([pipe_monitor_exact]).
    - Equivalence: parsing a response does not depend on how its bytes are split
      into reads ([stream_split_independent]); the manifest is the rendering of
      a JSON value ([manifest_renders]).
    - Admission and authorization: who passes is stated bit by bit for IP
      blocks and exactly for identities; the authorizer fails closed; no handler
      runs before every gate has passed ([dispatch_gates], [route_gates]); only
      the owner reaches a session ([controls_need_owner]); a credential leaves
      only within its scope and never through a listing ([profile_scope],
      [profile_secret_hidden]); the text of a body reaches SQL only inside a
      string literal ([body_sql_safe]).
    - Accounting: a request ends whatever it began on every path
      ([request_balanced]), and the SQL scope of a request is given back whole
      ([exec_scoped]).
    - Errors: setters change nothing when they fail, a failed registration is
      undone ([upload_registration_atomic]), a quack upload touches the
      table only after its whole payload was validated and then fails for one
      of four causes only ([uploads_validated]; [upload_left_behind] shows what
      stays behind), [header_error_double_free] exhibits
      a double free and [route_header_errors] a lost message.
    - Termination: the scanners never exhaust their fuel ([scanners_terminate]).

    ** Bounds and fuel

    Loops whose recursion is not structural carry fuel.  A scanner consumes a
    character in every round, so the length of its input is enough; running dry
    is a distinct error that the theorems exclude.  Capacity loops double, so 64
    or 65 rounds exhaust a [size_t]; the recursion over nested column types has
    [nesting_levels] = 66 levels, two more than the nesting the code accepts, and
    the last one is proved out of reach; twenty digits print any [uint64_t].  The
    idle sweep ([prune]) has one round per session and theorems quantify over its
    fuel.  A [uint64_t] that can wrap is reduced with [u64]; where a theorem needs
    a counter not to wrap it says so.

    ** Parameters

    Code outside the repository is a parameter of the definitions that use it:
    [nng_msg_alloc], [nng_url_parse], [inet_pton], [inet_ntop], the randomness of
    tokens, the clock, the file system, the HTTP connection, UTF-8 validation,
    and DuckDB's answers (rows of an authorizer or route query, errors of the
    calls of a handler, the chunks of a result, new connections, the logical
    types it creates, the rows an appender accepts, its vector size, the results
    of the queries a body codec runs), and [strtod].  The Arrow decoders of
    payloads are parameters of the handlers and of the codecs.  What NNG's
    streams and aios answer is an argument of the steps of [WsFrame].
    Method handlers are function pointers of the registry, and the dispatcher is
    proved for every handler.

    ** What is not modelled, and the plan

    Failing heap allocations are modelled for messages, for the registration of
    methods and for the buffer of a quack batch, nowhere else; DuckDB's own
    vector allocations succeed.
    Not modelled: the slots of asynchronous operations; the start
    and stop of a service with its workers, which are threads around NNG
    sockets; the SQL functions that bind arguments and call the modelled
    operations; the Arrow conversions, which are nanoarrow's; and the glue
    around NNG and the browser. *)

From Stdlib Require Import Ascii String.
From Stdlib Require Export ZArith Lia.
From stdpp Require Export base list numbers strings.

#[global] Open Scope Z_scope.

(** ** Machine integers

    The target is LP64: [size_t] and [uint64_t] are 64 bits wide. *)

Definition UINT8_MAX : Z := 255.
Definition UINT16_MAX : Z := 65535.
Definition UINT32_MAX : Z := 4294967295.
Definition UINT64_MAX : Z := 18446744073709551615.
Definition SIZE_MAX : Z := UINT64_MAX.
Definition INT64_MIN : Z := -9223372036854775808.
Definition INT64_MAX : Z := 9223372036854775807.

Definition u8 (z : Z) : Z := z mod 256.
Definition u16 (z : Z) : Z := z mod 65536.
Definition u32 (z : Z) : Z := z mod 4294967296.
Definition u64 (z : Z) : Z := z mod 18446744073709551616.

(** ** Bytes and C strings

    A byte is a [Z] in [[0,256)]; a buffer is a list of bytes; a C string is
    the list of its characters before the terminating NUL, so a valid one
    holds no zero byte.  A possibly-NULL pointer is an [option]. *)

Abbreviation bytes := (list Z).

Definition is_byte (b : Z) : Prop := 0 <= b < 256.
Definition is_char (b : Z) : Prop := 1 <= b < 256.
Abbreviation all_bytes := (Forall is_byte).
Abbreviation cstr := (Forall is_char).

#[export] Instance is_byte_dec b : Decision (is_byte b).
Proof. unfold is_byte. apply _. Defined.
#[export] Instance is_char_dec b : Decision (is_char b).
Proof. unfold is_char. apply _. Defined.

Definition ascii_code (a : Ascii.ascii) : Z := Z.of_N (N_of_ascii a).

(** String literals of the source as byte lists. *)
Definition lit (s : string) : bytes := ascii_code <$> list_ascii_of_string s.

Declare Scope duck_scope.
Delimit Scope duck_scope with duck.
#[global] Open Scope duck_scope.

Definition zlen {A} (l : list A) : Z := Z.of_nat (length l).

(** [p[i]], reading past the end as zero; the decoders prove their reads in
    bounds. *)
Definition byte_at (p : bytes) (i : Z) : Z := default 0 (p !! Z.to_nat i).

(** [p + n] and the first [n] bytes at [p]. *)
Definition zdrop {A} (n : Z) (l : list A) : list A := drop (Z.to_nat n) l.
Definition ztake {A} (n : Z) (l : list A) : list A := take (Z.to_nat n) l.

(** [memcpy(dest + off, src, len src)] inside a buffer. *)
Definition write_at (dest : bytes) (off : Z) (src : bytes) : bytes :=
  ztake off dest ++ src ++ zdrop (off + zlen src) dest.

(** [s && s[0]]: a non-NULL, non-empty C string. *)
Definition nonempty (s : option bytes) : bool :=
  match s with Some (_ :: _) => true | _ => false end.

(** [strcmp(a, b) == 0] and [memcmp] on equal lengths. *)
Definition str_eq (a b : bytes) : bool := bool_decide (a = b).

(** [%llu] and [%u]: 20 digits hold any [uint64_t]. *)
Fixpoint llu_loop (fuel : nat) (n : Z) : bytes :=
  match fuel with
  | O => []
  | S fuel => if n <? 10 then [48 + n] else llu_loop fuel (n / 10) ++ [48 + n mod 10]
  end.
Definition print_llu (n : Z) : bytes := llu_loop 20 n.

(** ** Results of fallible calls

    [Err e] carries what the C call reports next to its non-zero return:
    an error kind or the text stored through [errmsg]. *)

Inductive result (E A : Type) : Type :=
| Ok (a : A)
| Err (e : E).
Arguments Ok {E A} a.
Arguments Err {E A} e.

Definition res_bind {E A C} (m : result E A) (f : A -> result E C) : result E C :=
  match m with Ok a => f a | Err e => Err e end.

Notation "'let!' x ':=' m 'in' k" := (res_bind m (fun x => k))
  (at level 10, x pattern, m at level 100, k at level 200) : duck_scope.

#[export] Instance result_eq_dec {E A} `{EqDecision E, EqDecision A} :
  EqDecision (result E A).
Proof. solve_decision. Defined.

(** ** Automation *)

Create HintDb duck.
Create Rewrite HintDb duck.

Ltac simpl_zlen :=
  repeat rewrite ?length_app, ?length_take, ?length_drop, ?length_cons,
    ?length_nil, ?length_fmap, ?length_replicate in *.

Ltac zlen_lia := unfold zlen, ztake, zdrop in *; simpl_zlen; try lia.

(** Splits the boolean tests of a definition. *)
Ltac btests :=
  repeat match goal with
  | H : (_ && _)%bool = true |- _ => apply andb_true_iff in H; destruct H
  | H : (_ || _)%bool = false |- _ => apply orb_false_iff in H; destruct H
  | H : negb _ = true |- _ => apply negb_true_iff in H
  | H : negb _ = false |- _ => apply negb_false_iff in H
  | H : Z.ltb _ _ = true |- _ => apply Z.ltb_lt in H
  | H : Z.ltb _ _ = false |- _ => apply Z.ltb_ge in H
  | H : Z.leb _ _ = true |- _ => apply Z.leb_le in H
  | H : Z.leb _ _ = false |- _ => apply Z.leb_gt in H
  | H : Z.eqb _ _ = true |- _ => apply Z.eqb_eq in H
  | H : Z.eqb _ _ = false |- _ => apply Z.eqb_neq in H
  | H : bool_decide _ = true |- _ => apply bool_decide_eq_true in H
  | H : bool_decide _ = false |- _ => apply bool_decide_eq_false in H
  end.

(** Case analysis on every test a hypothesis or the goal branches on. *)
Ltac cases_in H :=
  repeat match type of H with
  | context [if ?b then _ else _] => destruct b eqn:?; try discriminate H
  end.
Ltac cases_goal :=
  repeat match goal with
  | |- context [if ?b then _ else _] => destruct b eqn:?
  end.

(** ** Arithmetic lemmas *)

Lemma u8_small z : is_byte z -> u8 z = z.
Proof. unfold u8, is_byte. intros. by apply Z.mod_small. Qed.

Lemma u32_small z : 0 <= z <= UINT32_MAX -> u32 z = z.
Proof. unfold u32, UINT32_MAX. intros. apply Z.mod_small. lia. Qed.

Lemma u64_small z : 0 <= z <= UINT64_MAX -> u64 z = z.
Proof. unfold u64, UINT64_MAX. intros. apply Z.mod_small. lia. Qed.

Lemma u8_range z : is_byte (u8 z).
Proof. apply Z.mod_pos_bound. lia. Qed.

Lemma lor_shiftl_add a b n :
  0 <= n -> 0 <= a < 2 ^ n -> Z.lor a (Z.shiftl b n) = a + b * 2 ^ n.
Proof.
  intros Hn Ha.
  assert (Z.land a (Z.shiftl b n) = 0) as H0.
  { apply Z.bits_inj'. intros i Hi.
    rewrite Z.land_spec, Z.bits_0.
    destruct (Z.lt_ge_cases i n).
    - rewrite (Z.shiftl_spec_low _ _ _) by lia. apply andb_false_r.
    - rewrite <- (Z.mod_small a (2 ^ n)) by lia.
      by rewrite Z.mod_pow2_bits_high by lia. }
  pose proof (Z.add_lor_land a (Z.shiftl b n)) as H.
  rewrite H0, Z.shiftl_mul_pow2 in H by lia. rewrite Z.shiftl_mul_pow2 by lia. lia.
Qed.

Lemma land_255 z : Z.land z 255 = z mod 256.
Proof. change 255 with (Z.ones 8). by rewrite Z.land_ones by lia. Qed.

Lemma land_127 z : Z.land z 127 = z mod 128.
Proof. change 127 with (Z.ones 7). by rewrite Z.land_ones by lia. Qed.

(** ** List lemmas *)

Lemma zlen_nonneg {A} (l : list A) : 0 <= zlen l.
Proof. unfold zlen. lia. Qed.

Lemma zlen_app {A} (l k : list A) : zlen (l ++ k) = zlen l + zlen k.
Proof. zlen_lia. Qed.

Lemma zlen_cons {A} (x : A) l : zlen (x :: l) = 1 + zlen l.
Proof. zlen_lia. Qed.

Lemma zlen_nil {A} : zlen (@nil A) = 0.
Proof. done. Qed.

Lemma zlen_ztake {A} n (l : list A) : 0 <= n <= zlen l -> zlen (ztake n l) = n.
Proof. intros. zlen_lia. Qed.

Lemma zlen_zdrop {A} n (l : list A) : 0 <= n <= zlen l -> zlen (zdrop n l) = zlen l - n.
Proof. intros. zlen_lia. Qed.

Lemma ztake_all {A} (l : list A) : ztake (zlen l) l = l.
Proof. unfold ztake, zlen. rewrite Nat2Z.id. by apply take_ge. Qed.

Lemma ztake_app {A} (l k : list A) : ztake (zlen l) (l ++ k) = l.
Proof. unfold ztake, zlen. rewrite Nat2Z.id. apply take_app_length. Qed.

Lemma zdrop_app {A} (l k : list A) : zdrop (zlen l) (l ++ k) = k.
Proof. unfold zdrop, zlen. rewrite Nat2Z.id. apply drop_app_length. Qed.

Lemma ztake_app_len {A} n (l k : list A) : n = zlen l -> ztake n (l ++ k) = l.
Proof. intros ->. apply ztake_app. Qed.

Lemma zdrop_app_len {A} n (l k : list A) : n = zlen l -> zdrop n (l ++ k) = k.
Proof. intros ->. apply zdrop_app. Qed.

Lemma zdrop_zdrop {A} a b (l : list A) :
  0 <= a -> 0 <= b -> zdrop a (zdrop b l) = zdrop (b + a) l.
Proof. intros. unfold zdrop. rewrite drop_drop. f_equal. lia. Qed.

Lemma ztake_zdrop {A} n (l : list A) : ztake n l ++ zdrop n l = l.
Proof. apply take_drop. Qed.

Lemma zlen_write_at dest off src :
  0 <= off -> off + zlen src <= zlen dest -> zlen (write_at dest off src) = zlen dest.
Proof. intros. unfold write_at. zlen_lia. Qed.

(** Filling a window of a buffer that starts where [pre] ends. *)
Lemma write_at_app pre old post src off :
  off = zlen pre -> zlen src = zlen old ->
  write_at (pre ++ old ++ post) off src = pre ++ src ++ post.
Proof.
  intros -> H. unfold write_at. rewrite ztake_app. do 2 f_equal.
  rewrite app_assoc, H. apply zdrop_app_len. by rewrite zlen_app.
Qed.

Lemma byte_at_app_l p q i : 0 <= i < zlen p -> byte_at (p ++ q) i = byte_at p i.
Proof.
  intros. unfold byte_at. rewrite lookup_app_l; [done|]. unfold zlen in *. lia.
Qed.

Lemma byte_at_app_r p q i : zlen p <= i -> byte_at (p ++ q) i = byte_at q (i - zlen p).
Proof.
  intros. unfold byte_at. rewrite lookup_app_r by (unfold zlen in *; lia).
  do 2 f_equal. unfold zlen in *. lia.
Qed.

Lemma byte_at_byte p i : all_bytes p -> is_byte (byte_at p i).
Proof.
  intros H. unfold byte_at. destruct (p !! Z.to_nat i) eqn:E; simpl.
  - by eapply Forall_lookup_1.
  - unfold is_byte. lia.
Qed.

Lemma str_eq_true a b : str_eq a b = true <-> a = b.
Proof. apply bool_decide_eq_true. Qed.

Lemma str_eq_refl a : str_eq a a = true.
Proof. by apply str_eq_true. Qed.

Lemma str_eq_false a b : str_eq a b = false <-> a <> b.
Proof. apply bool_decide_eq_false. Qed.

#[export] Hint Rewrite @zlen_app @zlen_cons @zlen_nil : duck.
#[export] Hint Resolve zlen_nonneg u8_range byte_at_byte str_eq_refl : duck.

(** A decidable fact on bytes, checked on all 256 of them. *)
Lemma byte_forall (P : Z -> bool) b :
  forallb P (Z.of_nat <$> seq 0 256) = true -> is_byte b -> P b = true.
Proof.
  intros H Hb. rewrite forallb_forall in H. apply H.
  apply list_elem_of_In, list_elem_of_fmap. exists (Z.to_nat b).
  unfold is_byte in Hb. split; [lia|]. apply elem_of_seq. lia.
Qed.

(** The index of the first element that passes a test: the shape of the
    source's search loops. *)
Fixpoint find_index {A} (P : A -> bool) (l : list A) : option nat :=
  match l with
  | [] => None
  | x :: l => if P x then Some O else S <$> find_index P l
  end.

Lemma find_index_Some {A} (P : A -> bool) l i :
  find_index P l = Some i -> exists x, l !! i = Some x /\ P x = true.
Proof.
  revert i. induction l as [|x l IH]; intros i; [done|]. cbn [find_index].
  destruct (P x) eqn:E; [intros [= <-]; by exists x|].
  destruct (find_index P l) as [j|]; [|done]. intros [= <-]. by apply IH.
Qed.

Lemma find_index_None {A} (P : A -> bool) l :
  find_index P l = None <-> Forall (fun x => P x = false) l.
Proof.
  induction l as [|x l IH]; [by split; [constructor|]|]. cbn [find_index]. rewrite Forall_cons.
  destruct (P x) eqn:E; [split; [done|by intros [? _]]|].
  destruct (find_index P l); rewrite <- IH; simpl; [split; [done|by intros [_ ?]]|by split].
Qed.

(** Elements of a list with one entry rewritten. *)
Lemma elem_of_alter {A} (f : A -> A) (i : nat) (l : list A) (x : A) :
  x ∈ alter f i l -> (exists y, l !! i = Some y /\ x = f y) \/ (exists j, j <> i /\ l !! j = Some x).
Proof.
  intros (j & Hj)%list_elem_of_lookup. destruct (decide (j = i)) as [->|Hne].
  - left. rewrite list_lookup_alter_eq in Hj. destruct (l !! i) as [y|]; [|done].
    injection Hj as <-. by exists y.
  - right. exists j. by rewrite list_lookup_alter_ne in Hj.
Qed.

Lemma fmap_alter_same {A C} (g : A -> C) (f : A -> A) (i : nat) (l : list A) :
  (forall x, g (f x) = g x) -> g <$> alter f i l = g <$> l.
Proof.
  intros H. revert i. induction l as [|x l IH]; intros [|i]; try done.
  - change (alter f O (x :: l)) with (f x :: l). by rewrite !fmap_cons, H.
  - change (alter f (S i) (x :: l)) with (x :: alter f i l). rewrite !fmap_cons. f_equal. apply IH.
Qed.

(** Two positions of a list with the same key are the same. *)
Lemma NoDup_fmap_lookup_inj {A C} (g : A -> C) (l : list A) (i j : nat) x y :
  NoDup (g <$> l) -> l !! i = Some x -> l !! j = Some y -> g x = g y -> i = j.
Proof.
  intros Hn Hi Hj E. eapply (NoDup_lookup (g <$> l)); [done|..]; rewrite list_lookup_fmap.
  - by rewrite Hi.
  - rewrite Hj. simpl. by rewrite E.
Qed.
