(* ===== verification/Checked.v ===== *)
(** Checked size arithmetic: [src/src/ducknng_checked.c].

    A call that overflows returns -1 and leaves the output untouched ([None]);
    otherwise the output receives the exact sum or product. *)

From S2P Require Import Prelude.

Definition ducknng_size_add (a b : Z) : option Z :=
  if (SIZE_MAX - a <? b) then None else Some (u64 (a + b)).

Definition ducknng_size_mul (a b : Z) : option Z :=
  if (negb (a =? 0) && (SIZE_MAX / a <? b))%bool then None else Some (u64 (a * b)).

Definition ducknng_u64_add (a b : Z) : option Z :=
  if (UINT64_MAX - a <? b) then None else Some (u64 (a + b)).

Definition ducknng_u64_mul (a b : Z) : option Z :=
  if (negb (a =? 0) && (UINT64_MAX / a <? b))%bool then None else Some (u64 (a * b)).

Definition size_ok (z : Z) : Prop := 0 <= z <= SIZE_MAX.

Lemma size_add_spec a b r :
  size_ok a -> size_ok b ->
  ducknng_size_add a b = Some r <-> (a + b <= SIZE_MAX /\ r = a + b).
Proof.
  unfold ducknng_size_add, size_ok. intros Ha Hb.
  destruct (SIZE_MAX - a <? b) eqn:E; btests.
  - split; [discriminate | lia].
  - rewrite u64_small by (unfold SIZE_MAX in *; lia).
    split; [intros [= <-]; lia | intros [? ->]; done].
Qed.

Lemma size_add_ok a b : 0 <= a -> 0 <= b -> a + b <= SIZE_MAX ->
  ducknng_size_add a b = Some (a + b).
Proof. intros. by apply size_add_spec; unfold size_ok; lia. Qed.

Lemma size_add_none a b :
  size_ok a -> size_ok b ->
  ducknng_size_add a b = None <-> SIZE_MAX < a + b.
Proof.
  unfold ducknng_size_add, size_ok. intros Ha Hb.
  destruct (SIZE_MAX - a <? b) eqn:E; btests; split; first [discriminate | lia | done].
Qed.

(** The four checked operations are exact: each succeeds precisely when
    the mathematical sum or product of two 64-bit operands fits in 64 bits,
    and then returns it without wrap-around. *)
Theorem checked_arithmetic_exact (a b : Z) (Ha : size_ok a) (Hb : size_ok b) :
  ducknng_size_add a b = (if a + b <=? SIZE_MAX then Some (a + b) else None) /\
  ducknng_u64_add a b = (if a + b <=? UINT64_MAX then Some (a + b) else None) /\
  ducknng_size_mul a b = (if a * b <=? SIZE_MAX then Some (a * b) else None) /\
  ducknng_u64_mul a b = (if a * b <=? UINT64_MAX then Some (a * b) else None).
Proof.
  assert (Hadd : ducknng_size_add a b = (if a + b <=? SIZE_MAX then Some (a + b) else None)).
  { destruct (a + b <=? SIZE_MAX) eqn:E; btests.
    - apply size_add_spec; auto.
    - apply size_add_none; auto. }
  assert (Hmul : ducknng_size_mul a b = (if a * b <=? SIZE_MAX then Some (a * b) else None)).
  { unfold ducknng_size_mul, size_ok in *.
    destruct (Z.eqb_spec a 0) as [->|Hn]; simpl; [done|].
    assert ((SIZE_MAX / a <? b) = negb (a * b <=? SIZE_MAX)) as ->.
    { rewrite Z.leb_antisym, negb_involutive. apply Bool.eq_iff_eq_true.
      rewrite !Z.ltb_lt. split; intros H.
      - pose proof (Z.mul_succ_div_gt SIZE_MAX a). nia.
      - apply Z.div_lt_upper_bound; lia. }
    destruct (a * b <=? SIZE_MAX) eqn:E; simpl; [|done]. btests.
    f_equal. apply u64_small. unfold SIZE_MAX in *. nia. }
  repeat split; assumption.
Qed.

Lemma checked_arithmetic_exact_witness :
  ducknng_size_mul 4294967296 4294967296 = None /\ ducknng_size_add 1 2 = Some 3.
Proof.
  destruct (checked_arithmetic_exact 4294967296 4294967296) as (_ & _ & H & _);
    [vm_compute; split; discriminate .. |].
  destruct (checked_arithmetic_exact 1 2) as (H2 & _);
    [vm_compute; split; discriminate .. |].
  split; [exact H | exact H2].
Defined.
