(* ===== verification/Ring.v ===== *)
(** Ring buffers: an array, the index of the oldest entry and the number of
    live ones, as the monitor of a service ([Pipes]), the monitor of a client
    socket and the log of the runtime ([Runtime]) keep them. *)

From S2P Require Import Prelude.

Section ring.
Context {A : Type} (z : A).

(** The live entries, oldest first; [z] stands for a slot never written. *)
Definition ring_view (slots : list A) (start count : Z) : list A :=
  (fun i => default z (slots !! Z.to_nat ((start + Z.of_nat i) mod zlen slots))) <$> seq 0 (Z.to_nat count).

(** The slot of the next entry, the new start and count, and whether the
    oldest entry gives way. *)
Definition ring_next (cap start count : Z) : Z * Z * Z * bool :=
  if count <? cap then ((start + count) mod cap, start, count + 1, false)
  else (start, (start + 1) mod cap, count, true).

(** The last [n] entries of a history. *)
Definition last_n (n : Z) (l : list A) : list A := drop (length l - Z.to_nat n) l.

Lemma ring_lookup slots s c i : (i < Z.to_nat c)%nat ->
  ring_view slots s c !! i = Some (default z (slots !! Z.to_nat ((s + Z.of_nat i) mod zlen slots))).
Proof. intros Hi. unfold ring_view. by rewrite list_lookup_fmap, lookup_seq_lt. Qed.

Lemma ring_length slots s c : length (ring_view slots s c) = Z.to_nat c.
Proof. unfold ring_view. by rewrite length_fmap, length_seq. Qed.

Lemma shift_inj s a b cap : 0 <= a < cap -> 0 <= b < cap -> (s + a) mod cap = (s + b) mod cap -> a = b.
Proof.
  intros Ha Hb H. assert ((a - b) mod cap = 0) as Hm.
  { replace (a - b) with ((s + a) - (s + b)) by lia. rewrite Zminus_mod, H, Z.sub_diag. apply Z.mod_0_l. lia. }
  apply Z.mod_divide in Hm as [q Hq]; [|lia]. assert (q = 0) by nia. lia.
Qed.

Lemma insert_at (l : list A) i e j : 0 <= i < zlen l -> 0 <= j < zlen l ->
  default z (<[Z.to_nat i := e]> l !! Z.to_nat j) = if i =? j then e else default z (l !! Z.to_nat j).
Proof.
  intros Hi Hj. unfold zlen in *. destruct (Z.eqb_spec i j) as [->|Hne].
  - rewrite list_lookup_insert_eq; [done|lia].
  - rewrite list_lookup_insert_ne; [done|lia].
Qed.

Lemma zlen_insert (l : list A) i e : zlen (<[i := e]> l) = zlen l.
Proof. unfold zlen. by rewrite length_insert. Qed.

(** A ring with room grows at its end. *)
Lemma ring_extend slots s c e cap : zlen slots = cap -> 0 <= c < cap ->
  ring_view (<[Z.to_nat ((s + c) mod cap) := e]> slots) s (c + 1) = ring_view slots s c ++ [e].
Proof.
  intros He Hc. apply list_eq_same_length with (n := Z.to_nat (c + 1));
    [rewrite length_app, ring_length; cbn; lia|by rewrite ring_length|].
  intros i x y Hi. rewrite ring_lookup, zlen_insert, He by lia.
  pose proof (Z.mod_pos_bound (s + Z.of_nat i) cap ltac:(lia)). pose proof (Z.mod_pos_bound (s + c) cap ltac:(lia)).
  rewrite insert_at by lia. destruct (decide (i < Z.to_nat c)%nat) as [Hlt|Hge].
  - rewrite lookup_app_l, ring_lookup, He by (rewrite ?ring_length; lia).
    destruct (Z.eqb_spec ((s + c) mod cap) ((s + Z.of_nat i) mod cap)) as [E|]; [|congruence].
    apply shift_inj in E; lia.
  - replace (Z.of_nat i) with c by lia. rewrite Z.eqb_refl. replace i with (length (ring_view slots s c) + 0)%nat
      by (rewrite ring_length; lia). rewrite lookup_app_r by lia.
    replace (length (ring_view slots s c) + 0 - length (ring_view slots s c))%nat with 0%nat by lia. cbn. congruence.
Qed.

(** A full ring drops its oldest entry. *)
Lemma ring_slide slots s e cap : zlen slots = cap -> 0 <= s < cap ->
  ring_view (<[Z.to_nat s := e]> slots) ((s + 1) mod cap) cap = tail (ring_view slots s cap) ++ [e].
Proof.
  intros He Hs. assert (length (tail (ring_view slots s cap)) = Z.to_nat (cap - 1)) as Ht
    by (rewrite length_tl, ring_length; lia).
  apply list_eq_same_length with (n := Z.to_nat cap); [rewrite length_app, Ht; cbn; lia|by rewrite ring_length|].
  intros i x y Hi. rewrite ring_lookup, !zlen_insert, He by lia. rewrite Zplus_mod_idemp_l.
  pose proof (Z.mod_pos_bound (s + 1 + Z.of_nat i) cap ltac:(lia)).
  rewrite !insert_at by (rewrite ?zlen_insert; lia). destruct (decide (i < Z.to_nat (cap - 1))%nat) as [Hlt|Hge].
  - rewrite lookup_app_l, lookup_tail, ring_lookup, He by (rewrite ?Ht; lia).
    replace (s + Z.of_nat (S i)) with (s + 1 + Z.of_nat i) by lia.
    destruct (Z.eqb_spec s ((s + 1 + Z.of_nat i) mod cap)) as [E|]; [|congruence].
    rewrite <- (Z.mod_small s cap) in E at 1 by lia.
    replace s with (s + 0) in E at 1 by lia. replace (s + 1 + Z.of_nat i) with (s + (1 + Z.of_nat i)) in E by lia.
    apply shift_inj in E; lia.
  - replace (s + 1 + Z.of_nat i) with (s + 1 * cap) by lia.
    rewrite Z.mod_add, Z.mod_small, Z.eqb_refl, lookup_app_r, Ht by (rewrite ?Ht; lia).
    replace (i - Z.to_nat (cap - 1))%nat with 0%nat by lia. cbn. congruence.
Qed.

Lemma last_n_all n l : zlen l <= n -> last_n n l = l.
Proof. intros H. unfold last_n, zlen in *. by replace (length l - Z.to_nat n)%nat with 0%nat by lia. Qed.

Lemma last_n_push n l e : 0 < n -> last_n n (l ++ [e]) =
  if zlen l <? n then last_n n l ++ [e] else tail (last_n n l) ++ [e].
Proof.
  intros Hn. unfold last_n, zlen. rewrite length_app. cbn [length].
  destruct (Z.ltb_spec (Z.of_nat (length l)) n).
  - replace (length l + 1 - Z.to_nat n)%nat with 0%nat by lia.
    by replace (length l - Z.to_nat n)%nat with 0%nat by lia.
  - rewrite drop_app_le by lia. f_equal.
    assert (forall l' : list A, tail l' = drop 1 l') as -> by by destruct l'. rewrite drop_drop. f_equal. lia.
Qed.

(** What a ring holds of the history that was pushed into it. *)
Record ring_rep (cap : Z) (slots : list A) (start count : Z) (h : list A) : Prop := {
  rr_cap : zlen slots = cap; rr_start : 0 <= start < cap; rr_count : count = Z.min (zlen h) cap;
  rr_view : ring_view slots start count = last_n cap h }.

Lemma ring_rep_nil cap slots : 0 < cap -> zlen slots = cap -> ring_rep cap slots 0 0 [].
Proof. intros Hc Hs. split; [done|lia|change (zlen []) with 0; lia|done]. Qed.

Lemma ring_rep_push cap slots start count h e : ring_rep cap slots start count h ->
  let '(slot, start', count', full) := ring_next cap start count in
  0 <= slot < cap /\ ring_rep cap (<[Z.to_nat slot := e]> slots) start' count' (h ++ [e]) /\
  full = negb (zlen h <? cap).
Proof.
  intros [Hc Hs Hn Hv]. unfold ring_next. rewrite Hn. pose proof (zlen_nonneg h).
  assert ((Z.min (zlen h) cap <? cap) = (zlen h <? cap)) as -> by lia.
  pose proof (last_n_push cap h e ltac:(lia)) as Hp. destruct (Z.ltb_spec (zlen h) cap).
  - split; [apply Z.mod_pos_bound; lia|]. split; [|done].
    split; [by rewrite zlen_insert|done|rewrite zlen_app; change (zlen [e]) with 1; lia|].
    rewrite ring_extend by (done || lia). rewrite Hp. congruence.
  - split; [done|]. split; [|done]. rewrite Z.min_r in * by lia.
    split; [by rewrite zlen_insert|apply Z.mod_pos_bound; lia|rewrite zlen_app; change (zlen [e]) with 1; lia|].
    rewrite ring_slide by done. rewrite Hp. subst count. congruence.
Qed.
End ring.
