(* ===== verification/Wire.v ===== *)
(** The framed RPC envelope: [src/src/ducknng_wire_core.c] and the message
    builders of [src/src/ducknng_wire.c].

    [ducknng_frame_parts] is the counted encoder input, [ducknng_frame] the
    decoded view.  Slices of a decoded frame are the bytes they point at. *)

From S2P Require Import Prelude Checked.

(** ** Constants and records ([include/ducknng_wire_core.h]) *)

Definition DUCKNNG_WIRE_VERSION : Z := 1.
Definition DUCKNNG_MAX_METHOD_NAME_LEN : Z := 128.
Definition DUCKNNG_WIRE_HEADER_LEN : Z := 22.
Definition DUCKNNG_RPC_STATUS_SHIFT : Z := 24.
Definition DUCKNNG_RPC_STATUS_MASK : Z := 0xff000000.
Definition DUCKNNG_RPC_FLAGS_MASK : Z := 0x00ffffff.
Definition DUCKNNG_UPLOAD_TOKEN_MAX : Z := 256.

Definition DUCKNNG_RPC_MANIFEST : Z := 0.
Definition DUCKNNG_RPC_CALL : Z := 1.
Definition DUCKNNG_RPC_RESULT : Z := 2.
Definition DUCKNNG_RPC_ERROR : Z := 3.
Definition DUCKNNG_RPC_EVENT : Z := 4.

Definition DUCKNNG_STATUS_OK : Z := 0.
Definition DUCKNNG_STATUS_INVALID : Z := 1.
Definition DUCKNNG_STATUS_NOT_FOUND : Z := 2.
Definition DUCKNNG_STATUS_BUSY : Z := 3.
Definition DUCKNNG_STATUS_SQL_ERROR : Z := 4.
Definition DUCKNNG_STATUS_ARROW_ERROR : Z := 5.
Definition DUCKNNG_STATUS_INTERNAL : Z := 6.
Definition DUCKNNG_STATUS_CANCELLED : Z := 7.
Definition DUCKNNG_STATUS_TLS_ERROR : Z := 8.
Definition DUCKNNG_STATUS_UNAUTHORIZED : Z := 9.
Definition DUCKNNG_STATUS_DISABLED : Z := 10.
Definition DUCKNNG_STATUS_UNSPECIFIED : Z := 255.

Record ducknng_frame := mk_frame {
  f_version : Z; f_type : Z; f_status : Z; f_flags : Z;
  f_name : bytes; f_name_len : Z;
  f_error : bytes; f_error_len : Z;
  f_payload : bytes; f_payload_len : Z }.

Record ducknng_frame_parts := mk_parts {
  p_type : Z; p_status : Z; p_flags : Z;
  p_name : option bytes; p_name_len : Z;
  p_error : option bytes; p_error_len : Z;
  p_payload : option bytes; p_payload_len : Z }.

(** ** Little-endian fields *)

Definition ducknng_wire_le16_read (p : bytes) : Z :=
  Z.lor (byte_at p 0) (u16 (Z.shiftl (byte_at p 1) 8)).

Definition ducknng_wire_le32_read (p : bytes) : Z :=
  Z.lor (Z.lor (Z.lor (byte_at p 0) (Z.shiftl (byte_at p 1) 8))
    (Z.shiftl (byte_at p 2) 16)) (Z.shiftl (byte_at p 3) 24).

Definition ducknng_wire_le64_read (p : bytes) : Z :=
  Z.lor (ducknng_wire_le32_read p)
    (Z.shiftl (ducknng_wire_le32_read (zdrop 4 p)) 32).

(** The four bytes stored at [p]. *)
Definition le32_bytes (value : Z) : bytes :=
  [ Z.land value 0xff; Z.land (Z.shiftr value 8) 0xff;
    Z.land (Z.shiftr value 16) 0xff; Z.land (Z.shiftr value 24) 0xff ].

#[global] Arguments le32_bytes : simpl never.

Definition ducknng_wire_le32_write (dest : bytes) (off value : Z) : bytes :=
  write_at dest off (le32_bytes value).

Definition ducknng_wire_le64_write (dest : bytes) (off value : Z) : bytes :=
  ducknng_wire_le32_write
    (ducknng_wire_le32_write dest off (u32 value)) (off + 4) (u32 (Z.shiftr value 32)).

(** ** Encoder *)

(** [None] is the -1 return, which leaves [*required] at zero. *)
Definition ducknng_frame_parts_validate (parts : ducknng_frame_parts)
    (require_payload_pointer : bool) : option Z :=
  if (DUCKNNG_RPC_EVENT <? p_type parts) then None else
  if (DUCKNNG_MAX_METHOD_NAME_LEN <? p_name_len parts) then None else
  if (UINT32_MAX <? p_error_len parts) then None else
  if negb (Z.land (p_flags parts) (u32 (Z.lnot DUCKNNG_RPC_FLAGS_MASK)) =? 0) then None else
  if ((0 <? p_name_len parts) && bool_decide (p_name parts = None))%bool then None else
  if ((0 <? p_error_len parts) && bool_decide (p_error parts = None))%bool then None else
  if (require_payload_pointer && (0 <? p_payload_len parts) &&
      bool_decide (p_payload parts = None))%bool then None else
  if (if (p_type parts =? DUCKNNG_RPC_ERROR)
      then (p_status parts <=? DUCKNNG_STATUS_OK) || (DUCKNNG_STATUS_DISABLED <? p_status parts) ||
           (p_error_len parts =? 0)
      else negb (p_status parts =? DUCKNNG_STATUS_OK) || negb (p_error_len parts =? 0))%bool
  then None else
  match ducknng_size_add DUCKNNG_WIRE_HEADER_LEN (p_name_len parts) with
  | None => None
  | Some total =>
    match ducknng_size_add total (p_error_len parts) with
    | None => None
    | Some total => ducknng_size_add total (p_payload_len parts)
    end
  end.

Definition ducknng_frame_measure (parts : ducknng_frame_parts) : option Z :=
  ducknng_frame_parts_validate parts true.

(** The bytes a [memcpy] of [len] bytes reads from a pointer. *)
Definition slice (p : option bytes) (len : Z) : bytes := ztake len (default [] p).

(** Returns the written destination and the offset just past the prefix. *)
Definition ducknng_wire_write_prefix (parts : ducknng_frame_parts) (destination : bytes)
    : bytes * Z :=
  let offset := DUCKNNG_WIRE_HEADER_LEN in
  let d := write_at destination 0 (replicate (Z.to_nat DUCKNNG_WIRE_HEADER_LEN) 0) in
  let d := write_at d 0 [DUCKNNG_WIRE_VERSION] in
  let d := write_at d 1 [p_type parts] in
  let wire_flags := Z.lor (p_flags parts)
    (u32 (Z.shiftl (u32 (p_status parts)) DUCKNNG_RPC_STATUS_SHIFT)) in
  let d := ducknng_wire_le32_write d 2 wire_flags in
  let d := ducknng_wire_le32_write d 6 (u32 (p_name_len parts)) in
  let d := ducknng_wire_le32_write d 10 (u32 (p_error_len parts)) in
  let d := ducknng_wire_le64_write d 14 (p_payload_len parts) in
  let '(d, offset) := if 0 <? p_name_len parts
    then (write_at d offset (slice (p_name parts) (p_name_len parts)), offset + p_name_len parts)
    else (d, offset) in
  if 0 <? p_error_len parts
  then (write_at d offset (slice (p_error parts) (p_error_len parts)), offset + p_error_len parts)
  else (d, offset).

(** What an encoder call leaves behind: its return code, [*written] and the
    destination buffer. *)
Record encode_out := mk_out { e_rc : Z; e_written : Z; e_dest : option bytes }.

Definition ducknng_encode_frame_prefix (parts : ducknng_frame_parts)
    (destination : option bytes) (capacity : Z) : encode_out :=
  match ducknng_frame_parts_validate parts false with
  | None => mk_out (-1) 0 destination
  | Some required =>
    let prefix_size := required - p_payload_len parts in
    match destination with
    | None => mk_out (-1) prefix_size None
    | Some d =>
      if capacity <? prefix_size then mk_out (-1) prefix_size destination else
      mk_out 0 prefix_size (Some (ducknng_wire_write_prefix parts d).1)
    end
  end.

Definition ducknng_encode_frame_bytes (parts : ducknng_frame_parts)
    (destination : option bytes) (capacity : Z) : encode_out :=
  match ducknng_frame_parts_validate parts true with
  | None => mk_out (-1) 0 destination
  | Some required =>
    match destination with
    | None => mk_out (-1) required None
    | Some d =>
      if capacity <? required then mk_out (-1) required destination else
      let '(d, offset) := ducknng_wire_write_prefix parts d in
      mk_out 0 required (Some (if 0 <? p_payload_len parts
        then write_at d offset (slice (p_payload parts) (p_payload_len parts)) else d))
    end
  end.

(** ** Decoder *)

Definition ducknng_decode_frame_bytes (data : option bytes) (len : Z) : option ducknng_frame :=
  match data with
  | None => None
  | Some data =>
  if len <? DUCKNNG_WIRE_HEADER_LEN then None else
  let version := byte_at data 0 in
  let type := byte_at data 1 in
  if (negb (version =? DUCKNNG_WIRE_VERSION) || (DUCKNNG_RPC_EVENT <? type))%bool then None else
  let wire_flags := ducknng_wire_le32_read (zdrop 2 data) in
  let name_len := ducknng_wire_le32_read (zdrop 6 data) in
  let error_len := ducknng_wire_le32_read (zdrop 10 data) in
  let payload_len := ducknng_wire_le64_read (zdrop 14 data) in
  let status := Z.shiftr (Z.land wire_flags DUCKNNG_RPC_STATUS_MASK) DUCKNNG_RPC_STATUS_SHIFT in
  if DUCKNNG_MAX_METHOD_NAME_LEN <? name_len then None else
  match ducknng_size_add DUCKNNG_WIRE_HEADER_LEN name_len with
  | None => None
  | Some fixed_len =>
  match ducknng_size_add fixed_len error_len with
  | None => None
  | Some fixed_len =>
  if len <? fixed_len then None else
  let body_len := len - fixed_len in
  if negb (payload_len =? body_len) then None else
  match (if type =? DUCKNNG_RPC_ERROR then
           if ((DUCKNNG_STATUS_DISABLED <? status) || (error_len =? 0))%bool then None
           else Some (if status =? 0 then DUCKNNG_STATUS_UNSPECIFIED else u8 status)
         else
           if (negb (status =? DUCKNNG_STATUS_OK) || negb (error_len =? 0))%bool then None
           else Some DUCKNNG_STATUS_OK) with
  | None => None
  | Some out_status =>
    Some {| f_version := version; f_type := type; f_status := out_status;
            f_flags := Z.land wire_flags DUCKNNG_RPC_FLAGS_MASK;
            f_name := ztake name_len (zdrop 22 data); f_name_len := name_len;
            f_error := ztake error_len (zdrop (22 + name_len) data); f_error_len := error_len;
            f_payload := ztake payload_len (zdrop (22 + name_len + error_len) data);
            f_payload_len := payload_len |}
  end end end
  end.

Definition ducknng_frame_name_equals (frame : ducknng_frame) (name : option bytes) : bool :=
  match name with
  | None => false
  | Some name => ((f_name_len frame =? u32 (zlen name)) && str_eq (f_name frame) name)%bool
  end.

(** ** Upload-append prefix *)

Definition ducknng_upload_append_parse_prefix (payload : option bytes) (payload_len : Z)
    : option (Z * bytes * Z * Z) :=
  match payload with
  | None => None
  | Some payload =>
  if payload_len <? 10 then None else
  let token_len := ducknng_wire_le16_read (zdrop 8 payload) in
  if ((token_len =? 0) || (DUCKNNG_UPLOAD_TOKEN_MAX <? token_len) ||
      (payload_len - 10 <? token_len))%bool then None else
  Some (ducknng_wire_le64_read payload, ztake token_len (zdrop 10 payload),
        token_len, 10 + token_len)
  end.

(** ** Message builders ([ducknng_wire.c]); [alloc] stands for [nng_msg_alloc],
    which hands out a fresh body of the requested size or fails. *)

Section Builders.
Context (alloc : Z -> option bytes).

Definition ducknng_build_reply_status (type : Z) (name : option bytes) (flags status : Z)
    (error payload : option bytes) (payload_len : Z) : option bytes :=
  if SIZE_MAX <? payload_len then None else
  let parts := {| p_type := type; p_status := status; p_flags := flags;
    p_name := name; p_name_len := from_option zlen 0 name;
    p_error := error; p_error_len := from_option zlen 0 error;
    p_payload := payload; p_payload_len := payload_len |} in
  match ducknng_frame_measure parts with
  | None => None
  | Some required =>
    match alloc required with
    | None => None
    | Some body =>
      let out := ducknng_encode_frame_bytes parts (Some body) (zlen body) in
      if (negb (e_rc out =? 0) || negb (e_written out =? required))%bool then None
      else e_dest out
    end
  end.

Definition ducknng_build_reply (type : Z) (name : option bytes) (flags : Z)
    (error payload : option bytes) (payload_len : Z) : option bytes :=
  ducknng_build_reply_status type name flags DUCKNNG_STATUS_OK error payload payload_len.

Definition ducknng_error_msg (name : option bytes) (code : Z) (message : option bytes)
    : option bytes :=
  let code := if ((code <=? DUCKNNG_STATUS_OK) || (DUCKNNG_STATUS_DISABLED <? code))%bool
    then DUCKNNG_STATUS_INTERNAL else code in
  ducknng_build_reply_status DUCKNNG_RPC_ERROR name 0 code
    (Some (default (lit "ducknng: unspecified error") message)) None 0.
End Builders.

(** [msg] is the body of the received message. *)
Definition ducknng_decode_request (msg : option bytes) : option ducknng_frame :=
  match msg with
  | None => None
  | Some body => ducknng_decode_frame_bytes (Some body) (zlen body)
  end.

(** ** Field lemmas *)

Lemma land_ff_byte z : is_byte (Z.land z 255).
Proof. rewrite land_255. apply Z.mod_pos_bound. lia. Qed.

Lemma le32_bytes_ok v : all_bytes (le32_bytes v).
Proof. unfold le32_bytes. repeat constructor; apply land_ff_byte. Qed.

Lemma le32_read_sum a b c d q :
  is_byte a -> is_byte b -> is_byte c -> is_byte d ->
  ducknng_wire_le32_read (a :: b :: c :: d :: q)
    = a + b * 256 + c * 65536 + d * 16777216.
Proof.
  unfold is_byte. intros. unfold ducknng_wire_le32_read, byte_at; simpl.
  change (Pos.to_nat 1) with 1%nat; change (Pos.to_nat 2) with 2%nat;
    change (Pos.to_nat 3) with 3%nat; simpl.
  rewrite (lor_shiftl_add a b 8), (lor_shiftl_add _ c 16), (lor_shiftl_add _ d 24) by lia.
  lia.
Qed.

Lemma le32_roundtrip v q :
  0 <= v <= UINT32_MAX -> ducknng_wire_le32_read (le32_bytes v ++ q) = v.
Proof.
  intros Hv. unfold le32_bytes. simpl. rewrite le32_read_sum by apply land_ff_byte.
  rewrite !land_255, !Z.shiftr_div_pow2 by lia. unfold UINT32_MAX in Hv.
  change (2 ^ 8) with 256; change (2 ^ 16) with (256 * 256);
    change (2 ^ 24) with (256 * 256 * 256).
  rewrite <- !Z.div_div by lia. Z.div_mod_to_equations. lia.
Qed.

Lemma le32_bytes_read a b c d q :
  is_byte a -> is_byte b -> is_byte c -> is_byte d ->
  le32_bytes (ducknng_wire_le32_read (a :: b :: c :: d :: q)) = [a; b; c; d].
Proof.
  intros. rewrite le32_read_sum by done. unfold le32_bytes, is_byte in *.
  rewrite !land_255, !Z.shiftr_div_pow2 by lia.
  change (2 ^ 8) with 256; change (2 ^ 16) with (256 * 256);
    change (2 ^ 24) with (256 * 256 * 256).
  rewrite <- !Z.div_div by lia.
  repeat f_equal; Z.div_mod_to_equations; lia.
Qed.

Lemma le32_read_range p :
  all_bytes p -> 0 <= ducknng_wire_le32_read p <= UINT32_MAX.
Proof.
  intros H. unfold ducknng_wire_le32_read, UINT32_MAX.
  pose proof (byte_at_byte p 0 H). pose proof (byte_at_byte p 1 H).
  pose proof (byte_at_byte p 2 H). pose proof (byte_at_byte p 3 H).
  unfold is_byte in *.
  rewrite (lor_shiftl_add _ _ 8), (lor_shiftl_add _ _ 16), (lor_shiftl_add _ _ 24) by lia.
  lia.
Qed.

Lemma le64_roundtrip v q :
  0 <= v <= UINT64_MAX ->
  ducknng_wire_le64_read (le32_bytes (u32 v) ++ le32_bytes (u32 (Z.shiftr v 32)) ++ q) = v.
Proof.
  intros Hv. unfold ducknng_wire_le64_read.
  assert (Hr : forall z, 0 <= u32 z <= UINT32_MAX).
  { intros z. unfold u32, UINT32_MAX.
    pose proof (Z.mod_pos_bound z 4294967296 ltac:(lia)). lia. }
  rewrite le32_roundtrip by apply Hr.
  rewrite zdrop_app_len by reflexivity.
  rewrite le32_roundtrip by apply Hr.
  pose proof (Hr v) as Hlo. unfold UINT32_MAX in Hlo.
  rewrite lor_shiftl_add by lia.
  unfold u32, UINT64_MAX in *. rewrite Z.shiftr_div_pow2 by lia.
  change (2 ^ 32) with 4294967296. Z.div_mod_to_equations. lia.
Qed.

(** ** The written prefix *)

Definition wire_flags_of (p : ducknng_frame_parts) : Z :=
  Z.lor (p_flags p) (u32 (Z.shiftl (u32 (p_status p)) DUCKNNG_RPC_STATUS_SHIFT)).

Definition header_of (p : ducknng_frame_parts) : bytes :=
  [DUCKNNG_WIRE_VERSION; p_type p] ++ le32_bytes (wire_flags_of p) ++
  le32_bytes (u32 (p_name_len p)) ++ le32_bytes (u32 (p_error_len p)) ++
  le32_bytes (u32 (p_payload_len p)) ++ le32_bytes (u32 (Z.shiftr (p_payload_len p) 32)).

#[global] Arguments header_of : simpl never.

(** Pointers cover the lengths they are paired with, fields have C types. *)
Record parts_wf (p : ducknng_frame_parts) : Prop := {
  wf_type : is_byte (p_type p);
  wf_flags : 0 <= p_flags p <= UINT32_MAX;
  wf_name_len : size_ok (p_name_len p);
  wf_error_len : size_ok (p_error_len p);
  wf_payload_len : size_ok (p_payload_len p);
  wf_name : from_option (fun b => p_name_len p <= zlen b) True (p_name p);
  wf_error : from_option (fun b => p_error_len p <= zlen b) True (p_error p);
  wf_payload : from_option (fun b => p_payload_len p <= zlen b) True (p_payload p) }.

Lemma list_length_S {A} n (l : list A) :
  (S n <= length l)%nat -> exists x k, l = x :: k /\ (n <= length k)%nat.
Proof. destruct l as [|x k]; simpl; [lia|]. intros. exists x, k. split; [done|lia]. Qed.

Lemma header_stores p d :
  DUCKNNG_WIRE_HEADER_LEN <= zlen d ->
  ducknng_wire_le64_write (ducknng_wire_le32_write (ducknng_wire_le32_write
    (ducknng_wire_le32_write (write_at (write_at
       (write_at d 0 (replicate (Z.to_nat DUCKNNG_WIRE_HEADER_LEN) 0))
       0 [DUCKNNG_WIRE_VERSION]) 1 [p_type p]) 2 (wire_flags_of p))
     6 (u32 (p_name_len p))) 10 (u32 (p_error_len p))) 14 (p_payload_len p)
  = header_of p ++ zdrop DUCKNNG_WIRE_HEADER_LEN d.
Proof.
  intros H. unfold zlen, DUCKNNG_WIRE_HEADER_LEN in *.
  assert (22 <= length d)%nat as Hl by lia. clear H.
  do 22 (apply list_length_S in Hl; destruct Hl as (? & ? & -> & Hl)).
  reflexivity.
Qed.

Lemma slice_len q n :
  0 <= n -> from_option (fun b => n <= zlen b) (n = 0) q -> zlen (slice q n) = n.
Proof.
  unfold slice. destruct q as [b|]; simpl; intros.
  - apply zlen_ztake. lia.
  - subst. done.
Qed.

Lemma header_of_len p : zlen (header_of p) = DUCKNNG_WIRE_HEADER_LEN.
Proof. reflexivity. Qed.

Lemma write_prefix_spec p d :
  0 <= p_name_len p -> 0 <= p_error_len p ->
  zlen (slice (p_name p) (p_name_len p)) = p_name_len p ->
  zlen (slice (p_error p) (p_error_len p)) = p_error_len p ->
  DUCKNNG_WIRE_HEADER_LEN + p_name_len p + p_error_len p <= zlen d ->
  ducknng_wire_write_prefix p d =
    (header_of p ++ slice (p_name p) (p_name_len p) ++ slice (p_error p) (p_error_len p) ++
       zdrop (DUCKNNG_WIRE_HEADER_LEN + p_name_len p + p_error_len p) d,
     DUCKNNG_WIRE_HEADER_LEN + p_name_len p + p_error_len p).
Proof.
  intros Hn He Hsn Hse Hd.
  unfold ducknng_wire_write_prefix. fold (wire_flags_of p).
  rewrite header_stores by lia.
  set (N := p_name_len p) in *. set (E := p_error_len p) in *.
  set (nm := slice (p_name p) N) in *. set (er := slice (p_error p) E) in *.
  assert (Hsplit : zdrop 22 d = ztake N (zdrop 22 d) ++ ztake E (zdrop (22 + N) d)
      ++ zdrop (22 + N + E) d).
  { rewrite <- (zdrop_zdrop N 22), <- (zdrop_zdrop E (22 + N)) by lia.
    rewrite <- (zdrop_zdrop N 22) by lia. by rewrite !ztake_zdrop. }
  unfold DUCKNNG_WIRE_HEADER_LEN in *. rewrite Hsplit.
  assert (zlen (ztake N (zdrop 22 d)) = N) as HlN
    by (rewrite zlen_ztake; rewrite ?zlen_zdrop; lia).
  assert (zlen (ztake E (zdrop (22 + N) d)) = E) as HlE
    by (rewrite zlen_ztake; rewrite ?zlen_zdrop; lia).
  assert (HN : (if 0 <? N then (write_at (header_of p ++ ztake N (zdrop 22 d) ++
       ztake E (zdrop (22 + N) d) ++ zdrop (22 + N + E) d) 22 nm, 22 + N)
     else (header_of p ++ ztake N (zdrop 22 d) ++
       ztake E (zdrop (22 + N) d) ++ zdrop (22 + N + E) d, 22)) =
     (header_of p ++ nm ++ ztake E (zdrop (22 + N) d) ++ zdrop (22 + N + E) d, 22 + N)).
  { destruct (0 <? N) eqn:EN; btests.
    - rewrite write_at_app; [done| reflexivity | lia].
    - assert (N = 0) as -> by lia.
      destruct nm as [|]; [|exfalso; pose proof (zlen_nonneg nm); rewrite zlen_cons in Hsn; lia].
      done. }
  rewrite HN. destruct (0 <? E) eqn:EE; btests.
  - f_equal. rewrite (app_assoc (header_of p) nm). rewrite write_at_app.
    + by rewrite <- app_assoc.
    + rewrite zlen_app, header_of_len. unfold DUCKNNG_WIRE_HEADER_LEN. lia.
    + lia.
  - assert (E = 0) as HE0 by lia. rewrite HE0 in *.
    destruct er as [|]; [|exfalso; pose proof (zlen_nonneg er); rewrite zlen_cons in Hse; lia].
    f_equal. lia.
Qed.

(** ** Flags and status share the control word *)

Lemma land_status_mask f :
  Z.land f DUCKNNG_RPC_STATUS_MASK = Z.shiftl ((f / 2 ^ 24) mod 256) 24.
Proof.
  unfold DUCKNNG_RPC_STATUS_MASK. change 0xff000000 with (Z.shiftl 255 24).
  rewrite <- land_255, <- Z.shiftr_div_pow2 by lia. rewrite Z.shiftl_land.
  apply Z.bits_inj'. intros i Hi. rewrite !Z.land_spec.
  destruct (Z.lt_ge_cases i 24).
  - rewrite (Z.shiftl_spec_low 255) by lia. by rewrite !andb_false_r.
  - rewrite (Z.shiftl_spec (Z.shiftr f 24)) by lia. rewrite Z.shiftr_spec by lia.
    by replace (i - 24 + 24) with i by lia.
Qed.

Lemma status_field f :
  Z.shiftr (Z.land f DUCKNNG_RPC_STATUS_MASK) DUCKNNG_RPC_STATUS_SHIFT = (f / 2 ^ 24) mod 256.
Proof.
  rewrite land_status_mask. unfold DUCKNNG_RPC_STATUS_SHIFT.
  rewrite Z.shiftr_shiftl_l by lia. by rewrite Z.shiftl_0_r.
Qed.

Lemma flags_field f : Z.land f DUCKNNG_RPC_FLAGS_MASK = f mod 2 ^ 24.
Proof.
  unfold DUCKNNG_RPC_FLAGS_MASK. change 0x00ffffff with (Z.ones 24).
  by rewrite Z.land_ones by lia.
Qed.

Lemma flags_test f :
  0 <= f <= UINT32_MAX ->
  Z.land f (u32 (Z.lnot DUCKNNG_RPC_FLAGS_MASK)) = 0 <-> f <= DUCKNNG_RPC_FLAGS_MASK.
Proof.
  intros Hf. change (u32 (Z.lnot DUCKNNG_RPC_FLAGS_MASK)) with DUCKNNG_RPC_STATUS_MASK.
  rewrite land_status_mask, Z.shiftl_mul_pow2 by lia.
  unfold UINT32_MAX, DUCKNNG_RPC_FLAGS_MASK in *.
  change (2 ^ 24) with 16777216. Z.div_mod_to_equations. lia.
Qed.

Lemma wire_flags_sum p :
  0 <= p_flags p <= DUCKNNG_RPC_FLAGS_MASK -> 0 <= p_status p <= 255 ->
  wire_flags_of p = p_flags p + p_status p * 16777216.
Proof.
  unfold wire_flags_of, DUCKNNG_RPC_FLAGS_MASK, DUCKNNG_RPC_STATUS_SHIFT. intros.
  rewrite (u32_small (p_status p)) by (unfold UINT32_MAX; lia).
  rewrite u32_small by (rewrite Z.shiftl_mul_pow2 by lia; unfold UINT32_MAX; lia).
  rewrite lor_shiftl_add by lia. lia.
Qed.

(** ** The encoder's contract *)

Definition parts_total (p : ducknng_frame_parts) : Z :=
  DUCKNNG_WIRE_HEADER_LEN + p_name_len p + p_error_len p + p_payload_len p.

(** What the header comment of [ducknng_frame_parts] asks of a caller. *)
Record parts_valid (need_payload : bool) (p : ducknng_frame_parts) : Prop := {
  pv_type : p_type p <= DUCKNNG_RPC_EVENT;
  pv_name_len : p_name_len p <= DUCKNNG_MAX_METHOD_NAME_LEN;
  pv_error_len : p_error_len p <= UINT32_MAX;
  pv_flags : p_flags p <= DUCKNNG_RPC_FLAGS_MASK;
  pv_name : 0 < p_name_len p -> p_name p <> None;
  pv_error : 0 < p_error_len p -> p_error p <> None;
  pv_payload : need_payload = true -> 0 < p_payload_len p -> p_payload p <> None;
  pv_status : if p_type p =? DUCKNNG_RPC_ERROR
    then DUCKNNG_STATUS_INVALID <= p_status p <= DUCKNNG_STATUS_DISABLED /\ 0 < p_error_len p
    else p_status p = DUCKNNG_STATUS_OK /\ p_error_len p = 0;
  pv_total : parts_total p <= SIZE_MAX }.

Lemma ptr_test (n : Z) (q : option bytes) :
  ((0 <? n) && bool_decide (q = None))%bool = false <-> (0 < n -> q <> None).
Proof.
  destruct (0 <? n) eqn:E; simpl; btests.
  - rewrite bool_decide_eq_false. naive_solver lia.
  - naive_solver lia.
Qed.

Lemma status_test p :
  0 <= p_error_len p ->
  (if (p_type p =? DUCKNNG_RPC_ERROR)
   then (p_status p <=? DUCKNNG_STATUS_OK) || (DUCKNNG_STATUS_DISABLED <? p_status p) ||
        (p_error_len p =? 0)
   else negb (p_status p =? DUCKNNG_STATUS_OK) || negb (p_error_len p =? 0))%bool = false
  <-> (if p_type p =? DUCKNNG_RPC_ERROR
    then DUCKNNG_STATUS_INVALID <= p_status p <= DUCKNNG_STATUS_DISABLED /\ 0 < p_error_len p
    else p_status p = DUCKNNG_STATUS_OK /\ p_error_len p = 0).
Proof.
  unfold DUCKNNG_STATUS_OK, DUCKNNG_STATUS_INVALID, DUCKNNG_STATUS_DISABLED.
  intros He. destruct (p_type p =? DUCKNNG_RPC_ERROR).
  - rewrite !orb_false_iff, Z.leb_gt, Z.ltb_ge, Z.eqb_neq. lia.
  - rewrite orb_false_iff, !negb_false_iff, !Z.eqb_eq. done.
Qed.

Lemma validate_spec p np n :
  parts_wf p ->
  ducknng_frame_parts_validate p np = Some n <-> parts_valid np p /\ n = parts_total p.
Proof.
  intros Hwf. destruct Hwf as [Ht Hf Hn He Hp _ _ _]. unfold size_ok in *.
  unfold ducknng_frame_parts_validate, parts_total.
  assert (Hpay : forall q, (np && (0 <? p_payload_len p) && q)%bool
     = (np && ((0 <? p_payload_len p) && q))%bool) by (intros; by rewrite andb_assoc).
  rewrite Hpay. clear Hpay. split.
  - intros H.
    destruct (DUCKNNG_RPC_EVENT <? p_type p) eqn:E1; [done|].
    destruct (DUCKNNG_MAX_METHOD_NAME_LEN <? p_name_len p) eqn:E2; [done|].
    destruct (UINT32_MAX <? p_error_len p) eqn:E3; [done|].
    destruct (negb _) eqn:E4 in H; [done|].
    destruct ((0 <? p_name_len p) && _)%bool eqn:E5; [done|].
    destruct ((0 <? p_error_len p) && _)%bool eqn:E6; [done|].
    destruct (np && _)%bool eqn:E7; [done|].
    match type of H with (if ?b then _ else _) = _ => destruct b eqn:E8; [done|] end.
    apply status_test in E8; [|lia].
    rewrite ptr_test in E5, E6. btests. apply flags_test in E4; [|done].
    unfold DUCKNNG_WIRE_HEADER_LEN, DUCKNNG_MAX_METHOD_NAME_LEN, UINT32_MAX in *.
    destruct (ducknng_size_add 22 (p_name_len p)) as [t1|] eqn:S1; [|done].
    apply size_add_spec in S1 as [S1 ->]; [|unfold size_ok, SIZE_MAX, UINT64_MAX; lia ..].
    destruct (ducknng_size_add _ (p_error_len p)) as [t2|] eqn:S2; [|done].
    apply size_add_spec in S2 as [S2 ->]; [|unfold size_ok; lia ..].
    apply size_add_spec in H as [S3 ->]; [|unfold size_ok; lia ..].
    split; [|done]. split; try done.
    intros ->. apply andb_false_iff in E7 as [|E7]; [done|]. by apply ptr_test.
  - intros [Hv ->]. destruct Hv as [V1 V2 V3 V4 V5 V6 V7 V8 V9].
    apply Z.ltb_ge in V1, V2 as V2b, V3. rewrite V1, V2b, V3.
    apply flags_test in V4; [|done]. apply Z.eqb_eq in V4. rewrite V4. simpl.
    rewrite <- ptr_test in V5, V6. rewrite V5, V6.
    assert (np && ((0 <? p_payload_len p) && bool_decide (p_payload p = None)) = false)%bool as ->.
    { destruct np; [|done]. simpl. apply ptr_test. auto. }
    apply status_test in V8; [|lia]. rewrite V8.
    unfold parts_total, DUCKNNG_WIRE_HEADER_LEN in *.
    erewrite (proj2 (size_add_spec 22 _ _ _ _));
      [|split; [|reflexivity]; lia]. Unshelve.
    2,3: unfold size_ok, SIZE_MAX, UINT64_MAX in *; lia.
    erewrite (proj2 (size_add_spec _ _ _ _ _));
      [|split; [|reflexivity]; lia]. Unshelve.
    2,3: unfold size_ok; lia.
    apply size_add_spec; [unfold size_ok; lia .. |]. split; lia.
Qed.

Definition image_of (p : ducknng_frame_parts) : bytes :=
  header_of p ++ slice (p_name p) (p_name_len p) ++ slice (p_error p) (p_error_len p) ++
  slice (p_payload p) (p_payload_len p).

#[global] Arguments image_of : simpl never.

Lemma image_app p q :
  image_of p ++ q = header_of p ++ slice (p_name p) (p_name_len p) ++
    slice (p_error p) (p_error_len p) ++ slice (p_payload p) (p_payload_len p) ++ q.
Proof. unfold image_of. generalize (header_of p). intros. by rewrite <- !app_assoc. Qed.

(** The decoded view of valid parts. *)
Definition frame_of (p : ducknng_frame_parts) : ducknng_frame :=
  {| f_version := DUCKNNG_WIRE_VERSION; f_type := p_type p; f_status := p_status p;
     f_flags := p_flags p;
     f_name := slice (p_name p) (p_name_len p); f_name_len := p_name_len p;
     f_error := slice (p_error p) (p_error_len p); f_error_len := p_error_len p;
     f_payload := slice (p_payload p) (p_payload_len p); f_payload_len := p_payload_len p |}.

Lemma slice_len_valid q n :
  0 <= n -> from_option (fun b => n <= zlen b) True q -> (0 < n -> q <> None) ->
  zlen (slice q n) = n.
Proof.
  intros Hn Hwf Hv. apply slice_len; [done|]. destruct q; simpl in *; [done|].
  destruct (Z.eq_dec n 0); [done|]. exfalso. apply Hv; [lia|done].
Qed.

Section ValidParts.
Context (p : ducknng_frame_parts) (Hwf : parts_wf p).

Lemma valid_slices np (Hv : parts_valid np p) :
  zlen (slice (p_name p) (p_name_len p)) = p_name_len p /\
  zlen (slice (p_error p) (p_error_len p)) = p_error_len p.
Proof using Hwf.
  destruct Hwf as [_ _ [Hn _] [He _] _ Wn We _]. destruct Hv.
  split; apply slice_len_valid; auto.
Qed.

Lemma valid_payload_slice (Hv : parts_valid true p) :
  zlen (slice (p_payload p) (p_payload_len p)) = p_payload_len p.
Proof using Hwf. destruct Hwf as [_ _ _ _ [Hp _] _ _ Wp]. destruct Hv. apply slice_len_valid; auto. Qed.

Lemma image_len (Hv : parts_valid true p) : zlen (image_of p) = parts_total p.
Proof using Hwf.
  unfold image_of, parts_total. destruct (valid_slices true Hv) as [Hn He].
  rewrite !zlen_app, header_of_len, Hn, He, (valid_payload_slice Hv). lia.
Qed.

Lemma encode_bytes_spec d cap (Hv : parts_valid true p) :
  parts_total p <= cap <= zlen d ->
  ducknng_encode_frame_bytes p (Some d) cap =
    mk_out 0 (parts_total p) (Some (image_of p ++ zdrop (parts_total p) d)).
Proof using Hwf.
  intros Hc. unfold ducknng_encode_frame_bytes.
  rewrite (proj2 (validate_spec p true (parts_total p) Hwf)) by (split; done).
  destruct (cap <? parts_total p) eqn:Ec; btests; [lia|].
  destruct (valid_slices true Hv) as [Hn He]. pose proof (valid_payload_slice Hv) as Hp.
  destruct Hwf as [_ _ [Wn _] [We _] [Wp _] _ _ _]. unfold parts_total in *.
  rewrite write_prefix_spec by (auto; lia). do 2 f_equal.
  unfold image_of. rewrite <- !app_assoc.
  destruct (0 <? p_payload_len p) eqn:Ep; btests.
  - rewrite <- (ztake_zdrop (p_payload_len p) (zdrop (DUCKNNG_WIRE_HEADER_LEN + _ + _) d)).
    rewrite !app_assoc. rewrite <- (app_assoc _ (ztake _ _)).
    rewrite write_at_app.
    + rewrite zdrop_zdrop by (unfold DUCKNNG_WIRE_HEADER_LEN; lia). by rewrite <- !app_assoc.
    + rewrite !zlen_app, header_of_len. lia.
    + rewrite Hp, zlen_ztake; [done|].
      rewrite zlen_zdrop; unfold DUCKNNG_WIRE_HEADER_LEN in *; lia.
  - assert (p_payload_len p = 0) as Hz by lia. rewrite Hz in *.
    destruct (slice (p_payload p) 0); [|rewrite zlen_cons in Hp; pose proof (zlen_nonneg l); lia].
    by rewrite Z.add_0_r.
Qed.

Lemma encode_prefix_spec d cap (Hv : parts_valid false p) :
  parts_total p - p_payload_len p <= cap <= zlen d ->
  ducknng_encode_frame_prefix p (Some d) cap =
    mk_out 0 (parts_total p - p_payload_len p)
      (Some (header_of p ++ slice (p_name p) (p_name_len p) ++
             slice (p_error p) (p_error_len p) ++ zdrop (parts_total p - p_payload_len p) d)).
Proof using Hwf.
  intros Hc. unfold ducknng_encode_frame_prefix.
  rewrite (proj2 (validate_spec p false (parts_total p) Hwf)) by (split; done).
  destruct (cap <? _) eqn:Ec; btests; [lia|].
  destruct (valid_slices false Hv) as [Hn He].
  destruct Hwf as [_ _ [Wn _] [We _] [Wp _] _ _ _]. unfold parts_total in *.
  rewrite write_prefix_spec by (auto; lia). simpl. by rewrite Z.add_simpl_r.
Qed.

(** What the decoder reads back from an encoder image. *)
Lemma image_fields q (Hv : parts_valid true p) :
  byte_at (image_of p ++ q) 0 = DUCKNNG_WIRE_VERSION /\
  byte_at (image_of p ++ q) 1 = p_type p /\
  ducknng_wire_le32_read (zdrop 2 (image_of p ++ q)) = p_flags p + p_status p * 16777216 /\
  ducknng_wire_le32_read (zdrop 6 (image_of p ++ q)) = p_name_len p /\
  ducknng_wire_le32_read (zdrop 10 (image_of p ++ q)) = p_error_len p /\
  ducknng_wire_le64_read (zdrop 14 (image_of p ++ q)) = p_payload_len p.
Proof using Hwf.
  destruct Hv as [Vt Vn Ve Vf _ _ _ Vs _]. destruct Hwf as [Wt [Wf _] [Wn _] [We _] Wp _ _ _].
  assert (0 <= p_status p <= 10) as Hs.
  { destruct (p_type p =? DUCKNNG_RPC_ERROR);
      unfold DUCKNNG_STATUS_INVALID, DUCKNNG_STATUS_DISABLED, DUCKNNG_STATUS_OK in Vs; lia. }
  unfold image_of, header_of. rewrite <- !app_assoc.
  unfold DUCKNNG_MAX_METHOD_NAME_LEN in *.
  assert (forall z, u32 z = u32 z mod 4294967296) as Hu.
  { intros. unfold u32. by rewrite Z.mod_mod by lia. }
  split; [reflexivity|]. split; [reflexivity|].
  repeat split.
  - rewrite zdrop_app_len by reflexivity. rewrite wire_flags_sum by (split; lia).
    apply le32_roundtrip. unfold DUCKNNG_RPC_FLAGS_MASK, UINT32_MAX in *. lia.
  - rewrite (app_assoc [_; _]). rewrite zdrop_app_len by reflexivity.
    rewrite le32_roundtrip by (rewrite u32_small; unfold UINT32_MAX; lia).
    apply u32_small. unfold UINT32_MAX. lia.
  - rewrite 2 app_assoc. rewrite zdrop_app_len by reflexivity.
    rewrite le32_roundtrip by (rewrite u32_small; lia). apply u32_small. lia.
  - rewrite 3 app_assoc. rewrite zdrop_app_len by reflexivity.
    apply le64_roundtrip. unfold size_ok, SIZE_MAX in Wp. lia.
Qed.

Lemma decode_image q (Hv : parts_valid true p) :
  ducknng_decode_frame_bytes (Some (image_of p ++ q)) (parts_total p) = Some (frame_of p).
Proof using Hwf.
  destruct (image_fields q Hv) as (F0 & F1 & F2 & F3 & F4 & F5).
  destruct (valid_slices true Hv) as [Hn He]. pose proof (valid_payload_slice Hv) as Hp.
  destruct Hv as [Vt Vn Ve Vf _ _ _ Vs Vtot]. destruct Hwf as [Wt [Wf _] [Wn _] [We _] [Wp _] _ _ _].
  unfold parts_total, DUCKNNG_WIRE_HEADER_LEN, DUCKNNG_MAX_METHOD_NAME_LEN in *.
  unfold ducknng_decode_frame_bytes. rewrite F0, F1, F2, F3, F4, F5. clear F0 F1 F2 F3 F4 F5.
  rewrite status_field, flags_field. unfold DUCKNNG_WIRE_HEADER_LEN, DUCKNNG_MAX_METHOD_NAME_LEN.
  destruct (_ <? 22) eqn:E; btests; [lia|]. clear E.
  apply Z.ltb_ge in Vt. rewrite Vt. change (DUCKNNG_WIRE_VERSION =? DUCKNNG_WIRE_VERSION) with true. cbn [negb orb]. apply Z.ltb_ge in Vn as Vnb. rewrite Vnb.
  rewrite (proj2 (size_add_spec 22 (p_name_len p) (22 + p_name_len p)
     ltac:(by unfold size_ok) ltac:(unfold size_ok; lia))) by (split; lia).
  rewrite (proj2 (size_add_spec (22 + p_name_len p) (p_error_len p) (22 + p_name_len p + p_error_len p)
     ltac:(unfold size_ok; lia) ltac:(unfold size_ok; lia))) by (split; lia).
  rewrite (proj2 (Z.ltb_ge (22 + p_name_len p + p_error_len p + p_payload_len p)
    (22 + p_name_len p + p_error_len p))) by lia.
  rewrite (proj2 (Z.eqb_eq (p_payload_len p) _)) by lia. cbn [negb].
  unfold DUCKNNG_RPC_FLAGS_MASK in Vf. change (2 ^ 24) with 16777216.
  assert (0 <= p_status p <= 10) as Hs.
  { destruct (p_type p =? DUCKNNG_RPC_ERROR);
      unfold DUCKNNG_STATUS_INVALID, DUCKNNG_STATUS_DISABLED, DUCKNNG_STATUS_OK in Vs; lia. }
  rewrite Z.div_add, (Z.div_small (p_flags p)) by lia.
  rewrite Z.add_0_l, (Z.mod_small (p_status p) 256) by lia.
  rewrite Z.mod_add, (Z.mod_small (p_flags p)) by lia.
  assert (Hst : (if p_type p =? DUCKNNG_RPC_ERROR then
      if ((DUCKNNG_STATUS_DISABLED <? p_status p) || (p_error_len p =? 0))%bool then None
      else Some (if p_status p =? 0 then DUCKNNG_STATUS_UNSPECIFIED else u8 (p_status p))
    else if (negb (p_status p =? DUCKNNG_STATUS_OK) || negb (p_error_len p =? 0))%bool then None
      else Some DUCKNNG_STATUS_OK) = Some (p_status p)).
  { unfold DUCKNNG_STATUS_OK, DUCKNNG_STATUS_DISABLED, DUCKNNG_STATUS_INVALID in *.
    destruct (p_type p =? DUCKNNG_RPC_ERROR).
    - destruct Vs as [Vs1 Vs2].
      rewrite (proj2 (Z.ltb_ge 10 (p_status p))), (proj2 (Z.eqb_neq (p_error_len p) 0)),
        (proj2 (Z.eqb_neq (p_status p) 0)) by lia. simpl.
      by rewrite u8_small by (unfold is_byte; lia).
    - destruct Vs as [-> ->]. done. }
  rewrite Hst, image_app. unfold frame_of. do 2 f_equal.
  - rewrite zdrop_app_len by reflexivity. rewrite ztake_app_len by lia. done.
  - rewrite (app_assoc (header_of p)). rewrite zdrop_app_len
      by (rewrite zlen_app, header_of_len; unfold DUCKNNG_WIRE_HEADER_LEN; lia).
    rewrite ztake_app_len by lia. done.
  - rewrite 2 app_assoc. rewrite zdrop_app_len
      by (rewrite !zlen_app, header_of_len; unfold DUCKNNG_WIRE_HEADER_LEN; lia).
    rewrite ztake_app_len by lia. done.
Qed.
End ValidParts.

(** ** Decoding then re-encoding *)

Definition parts_of (f : ducknng_frame) : ducknng_frame_parts :=
  {| p_type := f_type f; p_status := f_status f; p_flags := f_flags f;
     p_name := Some (f_name f); p_name_len := f_name_len f;
     p_error := Some (f_error f); p_error_len := f_error_len f;
     p_payload := Some (f_payload f); p_payload_len := f_payload_len f |}.

(** The decoder's success conditions, in the order it tests them. *)
Record decode_inv (data : bytes) (len : Z) (f : ducknng_frame) : Prop := {
  di_len : len = 22 + f_name_len f + f_error_len f + f_payload_len f;
  di_version : byte_at data 0 = DUCKNNG_WIRE_VERSION;
  di_type : byte_at data 1 = f_type f /\ f_type f <= DUCKNNG_RPC_EVENT;
  di_name_len : f_name_len f = ducknng_wire_le32_read (zdrop 6 data);
  di_name_max : f_name_len f <= DUCKNNG_MAX_METHOD_NAME_LEN;
  di_error_len : f_error_len f = ducknng_wire_le32_read (zdrop 10 data);
  di_payload_len : f_payload_len f = ducknng_wire_le64_read (zdrop 14 data);
  di_flags : f_flags f = ducknng_wire_le32_read (zdrop 2 data) mod 16777216;
  di_status : if f_type f =? DUCKNNG_RPC_ERROR
    then 0 < f_error_len f /\
         (ducknng_wire_le32_read (zdrop 2 data) / 16777216 = f_status f /\
            DUCKNNG_STATUS_INVALID <= f_status f <= DUCKNNG_STATUS_DISABLED \/
          ducknng_wire_le32_read (zdrop 2 data) / 16777216 = 0 /\
            f_status f = DUCKNNG_STATUS_UNSPECIFIED)
    else f_error_len f = 0 /\ f_status f = DUCKNNG_STATUS_OK /\
         ducknng_wire_le32_read (zdrop 2 data) / 16777216 = 0;
  di_name : f_name f = ztake (f_name_len f) (zdrop 22 data);
  di_error : f_error f = ztake (f_error_len f) (zdrop (22 + f_name_len f) data);
  di_payload : f_payload f =
    ztake (f_payload_len f) (zdrop (22 + f_name_len f + f_error_len f) data) }.

Lemma decode_success data len f :
  all_bytes data -> size_ok len ->
  ducknng_decode_frame_bytes (Some data) len = Some f -> decode_inv data len f.
Proof.
  intros Hb Hlen H. unfold ducknng_decode_frame_bytes in H.
  assert (Hr : forall n, 0 <= ducknng_wire_le32_read (zdrop n data) <= UINT32_MAX).
  { intros n. apply le32_read_range. by apply Forall_drop. }
  pose proof (Hr 2) as Hw. pose proof (Hr 6) as Hn. pose proof (Hr 10) as He.
  rewrite status_field, flags_field in H. unfold UINT32_MAX in Hw, Hn, He.
  rewrite Z.mod_small in H by (change (2 ^ 24) with 16777216; Z.div_mod_to_equations; lia).
  change (2 ^ 24) with 16777216 in H.
  destruct (len <? _) eqn:E1; [done|].
  destruct (_ || _)%bool eqn:E2 in H; [done|].
  destruct (_ <? _) eqn:E3 in H; [done|]. btests.
  unfold DUCKNNG_WIRE_HEADER_LEN, DUCKNNG_MAX_METHOD_NAME_LEN in *.
  destruct (ducknng_size_add _ _) as [t1|] eqn:S1 in H; [|done].
  apply size_add_spec in S1 as [S1 ->]; [|unfold size_ok, SIZE_MAX, UINT64_MAX in *; lia ..].
  destruct (ducknng_size_add _ _) as [t2|] eqn:S2 in H; [|done].
  apply size_add_spec in S2 as [S2 ->]; [|unfold size_ok, SIZE_MAX, UINT64_MAX in *; lia ..].
  destruct (len <? _) eqn:E4 in H; [done|].
  destruct (negb _) eqn:E5 in H; [done|]. btests.
  set (st := ducknng_wire_le32_read (zdrop 2 data) / 16777216) in *.
  destruct (byte_at data 1 =? DUCKNNG_RPC_ERROR) eqn:E6.
  - destruct (_ || _)%bool eqn:E7 in H; [done|]. injection H as <-. btests.
    split; simpl; try done; try lia. rewrite (proj2 (Z.eqb_eq _ _) E6).
    assert (0 <= st) by (apply Z.div_pos; lia). split; [lia|].
    destruct (Z.eqb_spec st 0) as [|Hs]; [right; done|left].
    unfold DUCKNNG_STATUS_INVALID, DUCKNNG_STATUS_DISABLED in *.
    rewrite u8_small by (unfold is_byte; lia). lia.
  - destruct (_ || _)%bool eqn:E7 in H; [done|]. injection H as <-. btests.
    split; simpl; try done; try lia. rewrite (proj2 (Z.eqb_neq _ _) E6). done.
Qed.

Lemma le64_split v q :
  all_bytes q -> (8 <= length q)%nat -> v = ducknng_wire_le64_read q ->
  le32_bytes (u32 v) ++ le32_bytes (u32 (Z.shiftr v 32)) = take 8 q.
Proof.
  intros Hq Hl ->. do 8 (apply list_length_S in Hl; destruct Hl as (? & ? & -> & Hl)).
  repeat match goal with H : all_bytes (_ :: _) |- _ => apply Forall_cons in H as [? H] end.
  unfold ducknng_wire_le64_read.
  match goal with |- context [zdrop 4 (?a :: ?b :: ?c :: ?d :: ?r)] =>
    change (zdrop 4 (a :: b :: c :: d :: r)) with r end.
  match goal with |- context [ducknng_wire_le32_read (?a :: ?b :: ?c :: ?d :: ?r)] =>
    set (lo := ducknng_wire_le32_read (a :: b :: c :: d :: r)) end.
  match goal with |- context [Z.shiftl (ducknng_wire_le32_read (?a :: ?b :: ?c :: ?d :: ?r)) 32] =>
    set (hi := ducknng_wire_le32_read (a :: b :: c :: d :: r)) end.
  assert (0 <= lo <= UINT32_MAX) as Hlo by (apply le32_read_range; by repeat (apply Forall_cons_2; [done|])).
  assert (0 <= hi <= UINT32_MAX) as Hhi by (apply le32_read_range; by repeat (apply Forall_cons_2; [done|])).
  unfold UINT32_MAX in Hlo, Hhi. rewrite lor_shiftl_add by lia.
  change (2 ^ 32) with 4294967296.
  assert (u32 (lo + hi * 4294967296) = lo) as ->
    by (unfold u32; rewrite Z.mod_add, Z.mod_small by lia; done).
  rewrite Z.shiftr_div_pow2 by lia. change (2 ^ 32) with 4294967296.
  rewrite Z.div_add, Z.div_small, Z.add_0_l by lia.
  rewrite (u32_small hi) by (unfold UINT32_MAX; lia).
  unfold lo, hi. by rewrite !le32_bytes_read.
Qed.

Lemma decode_header data len f :
  all_bytes data -> (22 <= length data)%nat -> decode_inv data len f ->
  f_status f <> DUCKNNG_STATUS_UNSPECIFIED ->
  header_of (parts_of f) = take 22 data.
Proof.
  intros Hb Hl D Hs. pose proof (di_payload_len _ _ _ D) as Hpl.
  assert (Hr : forall n, 0 <= ducknng_wire_le32_read (zdrop n data) <= UINT32_MAX).
  { intros n. apply le32_read_range. by apply Forall_drop. }
  pose proof (Hr 2) as Hw. pose proof (Hr 6) as Hn. pose proof (Hr 10) as He.
  unfold header_of. cbn [parts_of p_type p_name_len p_error_len p_payload_len].
  rewrite (le64_split _ (zdrop 14 data));
    [|by apply Forall_drop| unfold zdrop; rewrite length_drop; lia|done].
  rewrite (di_name_len _ _ _ D), (di_error_len _ _ _ D).
  rewrite !u32_small by done.
  assert (wire_flags_of (parts_of f) = ducknng_wire_le32_read (zdrop 2 data)) as ->.
  { destruct D as [_ _ _ _ _ _ _ Df Ds _ _ _]. unfold UINT32_MAX in Hw.
    assert (0 <= f_status f <= 255).
    { destruct (f_type f =? DUCKNNG_RPC_ERROR);
        unfold DUCKNNG_STATUS_OK, DUCKNNG_STATUS_INVALID, DUCKNNG_STATUS_DISABLED in *; lia. }
    rewrite wire_flags_sum; simpl; [|rewrite Df; unfold DUCKNNG_RPC_FLAGS_MASK;
      pose proof (Z.mod_pos_bound (ducknng_wire_le32_read (zdrop 2 data)) 16777216); lia|done].
    rewrite Df. rewrite (Z.div_mod (ducknng_wire_le32_read (zdrop 2 data)) 16777216) at 2 by lia.
    destruct (f_type f =? DUCKNNG_RPC_ERROR);
        unfold DUCKNNG_STATUS_OK, DUCKNNG_STATUS_UNSPECIFIED in *; lia. }
  destruct D as [_ Dv [Dt _] _ _ _ _ _ _ _ _ _]. rewrite <- Dv, <- Dt. clear -Hb Hl.
  do 22 (apply list_length_S in Hl; destruct Hl as (? & ? & -> & Hl)).
  repeat match goal with H : all_bytes (_ :: _) |- _ => apply Forall_cons in H as [? H] end.
  unfold zdrop. change (Z.to_nat 2) with 2%nat; change (Z.to_nat 6) with 6%nat;
    change (Z.to_nat 10) with 10%nat; change (Z.to_nat 14) with 14%nat. cbn [drop].
  by rewrite !le32_bytes_read by done.
Qed.

Lemma decode_image_eq data len f :
  all_bytes data -> len = zlen data -> size_ok len ->
  ducknng_decode_frame_bytes (Some data) len = Some f ->
  f_status f <> DUCKNNG_STATUS_UNSPECIFIED ->
  parts_wf (parts_of f) /\ parts_valid true (parts_of f) /\ image_of (parts_of f) = data.
Proof.
  intros Hb -> Hlen H Hs. apply decode_success in H as D; [|done..].
  assert (Hr : forall n, 0 <= ducknng_wire_le32_read (zdrop n data) <= UINT32_MAX).
  { intros n. apply le32_read_range. by apply Forall_drop. }
  pose proof (Hr 2) as Hw. pose proof (Hr 6) as Hn. pose proof (Hr 10) as He.
  pose proof (byte_at_byte data 1 Hb) as Ht.
  assert (0 <= f_payload_len f) as Hp0.
  { rewrite (di_payload_len _ _ _ D). apply Z.lor_nonneg.
    split; [apply le32_read_range; by apply Forall_drop|]. apply Z.shiftl_nonneg.
    apply le32_read_range. by repeat apply Forall_drop. }
  pose proof (fun H22 => decode_header data (zlen data) f Hb H22 D Hs) as Hh.
  destruct D as [D0 D1 [D2 D2b] D3 D4 D5 D6 D7 D8 D9 D10 D11].
  rewrite <- D3 in Hn. rewrite <- D5 in He. rewrite D2 in Ht.
  assert (22 <= length data)%nat as H22 by (unfold zlen in D0; lia).
  assert (zlen (f_name f) = f_name_len f) as Ln
    by (rewrite D9, zlen_ztake; rewrite ?zlen_zdrop; lia).
  assert (zlen (f_error f) = f_error_len f) as Le
    by (rewrite D10, zlen_ztake; rewrite ?zlen_zdrop; lia).
  assert (zlen (f_payload f) = f_payload_len f) as Lp
    by (rewrite D11, zlen_ztake; rewrite ?zlen_zdrop; lia).
  unfold size_ok in *. split; [|split].
  - split; simpl; unfold size_ok; try lia; try done.
    rewrite D7. pose proof (Z.mod_pos_bound (ducknng_wire_le32_read (zdrop 2 data)) 16777216).
    unfold UINT32_MAX. lia.
  - split; simpl; try done; try lia.
    + rewrite D7. pose proof (Z.mod_pos_bound (ducknng_wire_le32_read (zdrop 2 data)) 16777216).
      unfold DUCKNNG_RPC_FLAGS_MASK. lia.
    + destruct (f_type f =? DUCKNNG_RPC_ERROR); [|tauto].
      destruct D8 as [? [[??]|[? ?]]]; [done|congruence].
    + unfold parts_total, DUCKNNG_WIRE_HEADER_LEN. simpl. lia.
  - unfold image_of. rewrite Hh by done. simpl. unfold slice. simpl.
    rewrite <- Ln at 1. rewrite <- Le at 1. rewrite <- Lp at 1. rewrite !ztake_all.
    rewrite D9, D10, D11.
    assert (ztake (f_payload_len f) (zdrop (22 + f_name_len f + f_error_len f) data)
      = zdrop (22 + f_name_len f + f_error_len f) data) as ->.
    { apply take_ge. unfold zdrop, zlen in *. rewrite length_drop. lia. }
    rewrite <- (zdrop_zdrop (f_error_len f) (22 + f_name_len f)), ztake_zdrop by lia.
    rewrite <- (zdrop_zdrop (f_name_len f) 22), ztake_zdrop by lia.
    apply (ztake_zdrop 22).
Qed.

Lemma le16_read_sum a b q :
  is_byte a -> is_byte b -> ducknng_wire_le16_read (a :: b :: q) = a + b * 256.
Proof.
  unfold is_byte. intros. unfold ducknng_wire_le16_read, byte_at; simpl.
  change (Pos.to_nat 1) with 1%nat; simpl.
  unfold u16. rewrite Z.mod_small by (rewrite Z.shiftl_mul_pow2 by lia; lia).
  rewrite lor_shiftl_add by lia. lia.
Qed.

Lemma le64_read_range p : all_bytes p -> 0 <= ducknng_wire_le64_read p <= UINT64_MAX.
Proof.
  intros H. unfold ducknng_wire_le64_read.
  pose proof (le32_read_range p H). pose proof (le32_read_range (zdrop 4 p) ltac:(by apply Forall_drop)).
  unfold UINT32_MAX, UINT64_MAX in *. rewrite lor_shiftl_add by lia. lia.
Qed.

Lemma le16_split v q :
  all_bytes q -> (2 <= length q)%nat -> v = ducknng_wire_le16_read q ->
  0 <= v /\ [v mod 256; v / 256] = take 2 q.
Proof.
  intros Hq Hl ->. do 2 (apply list_length_S in Hl; destruct Hl as (? & ? & -> & Hl)).
  apply Forall_cons in Hq as [? Hq]. apply Forall_cons in Hq as [? Hq].
  rewrite le16_read_sum by done. unfold is_byte in *. split; [lia|]. simpl.
  repeat f_equal; Z.div_mod_to_equations; lia.
Qed.

(** The layout [session_id u64][token_len u16][token][quack batch]. *)
Definition upload_image (session_id : Z) (token quack : bytes) : bytes :=
  le32_bytes (u32 session_id) ++ le32_bytes (u32 (Z.shiftr session_id 32)) ++
  [zlen token mod 256; zlen token / 256] ++ token ++ quack.

(** The message builder succeeds on valid parts and returns their image. *)
Lemma build_reply_status_image alloc type name flags status error payload plen body :
  let p := mk_parts type status flags name (from_option zlen 0 name)
             error (from_option zlen 0 error) payload plen in
  parts_wf p -> parts_valid true p ->
  alloc (parts_total p) = Some body -> zlen body = parts_total p ->
  ducknng_build_reply_status alloc type name flags status error payload plen
    = Some (image_of p).
Proof.
  intros p Hwf Hv Ha Hb. unfold ducknng_build_reply_status. fold p.
  assert ((SIZE_MAX <? plen) = false) as ->.
  { destruct Hwf as [_ _ _ _ [_ Hp] _ _ _]. simpl in Hp. lia. }
  unfold ducknng_frame_measure.
  rewrite (proj2 (validate_spec p true (parts_total p) Hwf)) by (split; done).
  rewrite Ha, (encode_bytes_spec p Hwf) by (done || lia). cbn [e_rc e_written e_dest].
  rewrite !Z.eqb_refl. cbn [negb orb]. f_equal.
  assert (zdrop (parts_total p) body = []) as ->.
  { unfold zdrop. apply drop_ge. unfold zlen in Hb. lia. }
  apply app_nil_r.
Qed.

(** An error message is built whenever the allocator works, and it decodes. *)
Lemma error_msg_frame (alloc : Z -> option bytes) name code message
  (Halloc : forall n, 0 <= n -> exists b, alloc n = Some b /\ zlen b = n)
  (Hname : zlen (default [] name) <= DUCKNNG_MAX_METHOD_NAME_LEN)
  (Hmsg : message <> Some []) (Hlen : zlen (default [] message) <= UINT32_MAX) :
  exists m f, ducknng_error_msg alloc name code message = Some m /\
    ducknng_decode_request (Some m) = Some f /\
    f_type f = DUCKNNG_RPC_ERROR /\
    f_status f = (if (1 <=? code) && (code <=? 10) then code else DUCKNNG_STATUS_INTERNAL)%bool /\
    f_name f = default [] name /\
    f_error f = default (lit "ducknng: unspecified error") message /\ f_payload f = [].
Proof.
  unfold ducknng_error_msg.
  set (c := if ((code <=? DUCKNNG_STATUS_OK) || (DUCKNNG_STATUS_DISABLED <? code))%bool
    then DUCKNNG_STATUS_INTERNAL else code).
  assert (Hc : 1 <= c <= 10 /\
    c = (if (1 <=? code) && (code <=? 10) then code else DUCKNNG_STATUS_INTERNAL)%bool).
  { unfold c, DUCKNNG_STATUS_OK, DUCKNNG_STATUS_DISABLED, DUCKNNG_STATUS_INTERNAL.
    destruct (Z.leb_spec code 0), (Z.ltb_spec 10 code), (Z.leb_spec 1 code), (Z.leb_spec code 10);
      simpl; lia. }
  destruct Hc as [Hc Heq]. clearbody c.
  set (msg := default (lit "ducknng: unspecified error") message).
  assert (Hm : 0 < zlen msg <= UINT32_MAX).
  { unfold msg. destruct message as [[|? l]|]; simpl in *; [done| |vm_compute; split; congruence].
    rewrite zlen_cons in *. pose proof (zlen_nonneg l). lia. }
  clearbody msg.
  set (p := mk_parts DUCKNNG_RPC_ERROR c 0 name (from_option zlen 0 name) (Some msg)
    (from_option zlen 0 (Some msg)) None 0).
  unfold UINT32_MAX, DUCKNNG_MAX_METHOD_NAME_LEN in *.
  assert (Hnl : from_option zlen 0 name = zlen (default [] name)) by by destruct name.
  pose proof (zlen_nonneg (default [] name)).
  assert (Hwf : parts_wf p).
  { split; simpl; rewrite ?Hnl; unfold size_ok, SIZE_MAX, UINT64_MAX, UINT32_MAX, is_byte,
      DUCKNNG_RPC_ERROR; try lia; try done. destruct name; simpl in *; lia. }
  assert (Hv : parts_valid true p).
  { split; simpl; rewrite ?Hnl; unfold DUCKNNG_RPC_ERROR, DUCKNNG_RPC_EVENT,
      DUCKNNG_MAX_METHOD_NAME_LEN, UINT32_MAX, DUCKNNG_RPC_FLAGS_MASK; try lia; try done.
    - destruct name; [done|]. intros Hpos. exfalso. vm_compute in Hpos. congruence.
    - unfold DUCKNNG_STATUS_INVALID, DUCKNNG_STATUS_DISABLED. lia.
    - unfold parts_total. simpl. rewrite Hnl.
      unfold DUCKNNG_WIRE_HEADER_LEN, SIZE_MAX, UINT64_MAX. lia. }
  assert (Ht : 0 <= parts_total p).
  { rewrite <- (image_len p Hwf Hv). apply zlen_nonneg. }
  destruct (Halloc (parts_total p) Ht) as (b & Ha & Hb).
  exists (image_of p), (frame_of p).
  split; [by apply (build_reply_status_image alloc DUCKNNG_RPC_ERROR name 0 c (Some msg) None 0 b)|].
  split.
  { unfold ducknng_decode_request. rewrite (image_len p Hwf Hv).
    rewrite <- (app_nil_r (image_of p)). by apply decode_image. }
  simpl. unfold slice. simpl. rewrite Hnl, !ztake_all. done.
Qed.

(** ** Properties *)

(** C1.  Frame round trip: encoding valid parts into any buffer that is large
    enough returns 0 with the measured size, touches only the first [n] bytes,
    and decoding those [n] bytes yields exactly the type, status, flags, name,
    error and payload that were encoded. *)
Theorem frame_roundtrip p n d cap
  (Hwf : parts_wf p) (Hm : ducknng_frame_measure p = Some n) (Hc : n <= cap <= zlen d) :
  exists d', ducknng_encode_frame_bytes p (Some d) cap = mk_out 0 n (Some d') /\
    zlen d' = zlen d /\ zdrop n d' = zdrop n d /\
    ducknng_decode_frame_bytes (Some d') n = Some (frame_of p).
Proof.
  apply (validate_spec p true n Hwf) in Hm as [Hv ->].
  exists (image_of p ++ zdrop (parts_total p) d).
  pose proof (image_len p Hwf Hv) as Hl.
  split; [by apply encode_bytes_spec|]. split.
  { rewrite zlen_app, zlen_zdrop; [lia|]. pose proof (zlen_nonneg (image_of p)). lia. }
  split; [by apply zdrop_app_len|]. by apply decode_image.
Qed.

(** The ["manifest"] request of the README's quick tour, and an error reply. *)
Definition demo_error_parts : ducknng_frame_parts :=
  mk_parts DUCKNNG_RPC_ERROR DUCKNNG_STATUS_BUSY 0 (Some (lit "exec")) 4
    (Some (lit "busy")) 4 (Some (lit "xyz")) 3.

Lemma frame_roundtrip_witness :
  ducknng_frame_measure demo_error_parts = Some 33 /\
  exists d', ducknng_encode_frame_bytes demo_error_parts (Some (replicate 40 7)) 40
    = mk_out 0 33 (Some d') /\ zlen d' = 40 /\
    ducknng_decode_frame_bytes (Some d') 33 = Some (frame_of demo_error_parts).
Proof.
  split; [reflexivity|].
  destruct (frame_roundtrip demo_error_parts 33 (replicate 40 7) 40) as (d' & H1 & H2 & _ & H3);
    [split; vm_compute; (split; congruence) || congruence | reflexivity | vm_compute; split; congruence |].
  exists d'. split; [exact H1|]. split; [exact H2 | exact H3].
Defined.

(** Decoding is injective up to the legacy error status: a byte string the
    decoder accepts, other than an error frame with a zero status byte, is
    reproduced byte for byte by re-encoding the decoded view. *)
Theorem frame_decode_reencode data f d
  (Hb : all_bytes data) (Hlen : size_ok (zlen data))
  (Hdec : ducknng_decode_frame_bytes (Some data) (zlen data) = Some f)
  (Hst : f_status f <> DUCKNNG_STATUS_UNSPECIFIED) (Hd : zlen d = zlen data) :
  ducknng_encode_frame_bytes (parts_of f) (Some d) (zlen d)
    = mk_out 0 (zlen data) (Some data).
Proof.
  destruct (decode_image_eq _ _ _ Hb eq_refl Hlen Hdec Hst) as (Hwf & Hv & Himg).
  pose proof (image_len _ Hwf Hv) as Hl. rewrite Himg in Hl.
  rewrite (encode_bytes_spec _ Hwf) by (done || lia). rewrite <- Hl, Himg.
  rewrite <- Hd. unfold zdrop, zlen. rewrite Nat2Z.id, drop_all, app_nil_r. done.
Qed.

(** The 22-byte manifest request of the README. *)
Definition manifest_request : bytes := 1 :: replicate 21 0.

Lemma frame_decode_reencode_witness :
  ducknng_encode_frame_bytes
    (parts_of (mk_frame 1 0 0 0 [] 0 [] 0 [] 0)) (Some (replicate 22 9)) 22
  = mk_out 0 22 (Some manifest_request).
Proof.
  apply (frame_decode_reencode manifest_request (mk_frame 1 0 0 0 [] 0 [] 0 [] 0)
    (replicate 22 9)); [| vm_compute; split; congruence | reflexivity | vm_compute; congruence
    | reflexivity].
  apply (bool_decide_unpack _). vm_compute. exact I.
Defined.

(** The encoder's contract on every branch: an invalid request (unknown
    type, over-long name, stray flag bits, missing pointer, status/error text
    discipline broken, or a size that overflows) writes nothing and reports
    size zero; a valid one with too small a destination writes nothing and
    reports the exact required size; otherwise it succeeds. *)
Theorem frame_encode_branches p d cap (Hwf : parts_wf p) :
  (parts_valid true p ->
     (cap < parts_total p ->
        ducknng_encode_frame_bytes p d cap = mk_out (-1) (parts_total p) d) /\
     (d = None -> ducknng_encode_frame_bytes p d cap = mk_out (-1) (parts_total p) d) /\
     (forall b, d = Some b -> parts_total p <= cap ->
        exists b', ducknng_encode_frame_bytes p d cap = mk_out 0 (parts_total p) (Some b'))) /\
  (~ parts_valid true p -> ducknng_encode_frame_bytes p d cap = mk_out (-1) 0 d).
Proof.
  unfold ducknng_encode_frame_bytes.
  destruct (ducknng_frame_parts_validate p true) as [n|] eqn:E.
  - apply (validate_spec p true n Hwf) in E as [Hv ->].
    split; [intros _ | done]. split; [|split].
    + intros Hc. destruct d; [|done]. rewrite (proj2 (Z.ltb_lt _ _) Hc). done.
    + by intros ->.
    + intros b -> Hc. rewrite (proj2 (Z.ltb_ge _ _) Hc).
      destruct (ducknng_wire_write_prefix p b) as [b1 off]. eexists. reflexivity.
  - split; [|done]. intros Hv. exfalso.
    rewrite (proj2 (validate_spec p true (parts_total p) Hwf)) in E by (split; done). done.
Qed.

Lemma frame_encode_branches_witness :
  ducknng_encode_frame_bytes demo_error_parts (Some [1; 2; 3]) 3 = mk_out (-1) 33 (Some [1; 2; 3]).
Proof.
  assert (Hwf : parts_wf demo_error_parts).
  { split; vm_compute; (split; congruence) || congruence. }
  destruct (frame_encode_branches demo_error_parts (Some [1; 2; 3]) 3 Hwf) as [H _].
  assert (Hv : parts_valid true demo_error_parts).
  { apply (validate_spec _ true 33 Hwf). reflexivity. }
  destruct (H Hv) as [H1 _]. apply H1. reflexivity.
Defined.

(** Encoding a reply prefix in place is equivalent to encoding the whole
    frame: if the message body already holds the payload after the prefix
    region, [ducknng_encode_frame_prefix] (which never sees the payload bytes)
    leaves exactly the bytes [ducknng_encode_frame_bytes] would have written. *)
Theorem frame_prefix_in_place p body pay
  (Hwf : parts_wf p) (Hv : parts_valid true p)
  (Hpay : p_payload p = Some pay) (Hlen : zlen pay = p_payload_len p)
  (Hb : zlen body = parts_total p - p_payload_len p) :
  let q := mk_parts (p_type p) (p_status p) (p_flags p) (p_name p) (p_name_len p)
             (p_error p) (p_error_len p) None (p_payload_len p) in
  forall d, zlen d = parts_total p ->
  e_dest (ducknng_encode_frame_prefix q (Some (body ++ pay)) (zlen body))
    = e_dest (ducknng_encode_frame_bytes p (Some d) (zlen d)).
Proof.
  intros q d Hd.
  assert (Hq : parts_wf q) by (destruct Hwf; split; done).
  assert (Hqv : parts_valid false q) by (destruct Hv; split; done).
  rewrite (encode_bytes_spec p Hwf) by (done || lia).
  rewrite (encode_prefix_spec q Hq);
    [|done| change (parts_total q) with (parts_total p); simpl; rewrite zlen_app;
       pose proof (zlen_nonneg pay); lia].
  change (parts_total q) with (parts_total p). simpl p_payload_len. simpl e_dest. f_equal.
  rewrite zdrop_app_len by done.
  assert (zdrop (parts_total p) d = []) as ->.
  { unfold zdrop. apply drop_ge. unfold zlen in Hd. lia. }
  rewrite app_nil_r. unfold image_of. change (header_of q) with (header_of p).
  do 3 f_equal. unfold slice. rewrite Hpay. simpl. rewrite <- Hlen. by rewrite ztake_all.
Qed.

Lemma frame_prefix_in_place_witness :
  e_dest (ducknng_encode_frame_prefix
    (mk_parts 3 3 0 (Some (lit "exec")) 4 (Some (lit "busy")) 4 None 3)
    (Some (replicate 30 0 ++ lit "xyz")) 30)
  = e_dest (ducknng_encode_frame_bytes demo_error_parts (Some (replicate 33 0)) 33).
Proof.
  assert (Hwf : parts_wf demo_error_parts).
  { split; vm_compute; (split; congruence) || congruence. }
  apply (frame_prefix_in_place demo_error_parts (replicate 30 0) (lit "xyz") Hwf);
    [apply (validate_spec _ true 33 Hwf); reflexivity | reflexivity ..].
Defined.

(** The upload-append prefix parser accepts exactly the documented layout:
    it returns [(sid, token, token_len, offset)] if and only if the payload is
    [session_id u64 LE][token_len u16 LE][token][batch] with a token of 1 to
    256 bytes, and the offset is where the batch starts. *)
Theorem upload_prefix_exact payload sid token tl off
  (Hb : all_bytes payload) :
  ducknng_upload_append_parse_prefix (Some payload) (zlen payload) = Some (sid, token, tl, off) <->
  exists quack, payload = upload_image sid token quack /\
    tl = zlen token /\ 1 <= tl <= DUCKNNG_UPLOAD_TOKEN_MAX /\ off = 10 + tl /\
    0 <= sid <= UINT64_MAX.
Proof.
  unfold ducknng_upload_append_parse_prefix, DUCKNNG_UPLOAD_TOKEN_MAX. split.
  - destruct (zlen payload <? 10) eqn:E1; [done|].
    destruct (_ || _)%bool eqn:E2; [done|]. intros [= <- <- <- <-]. btests.
    set (tl := ducknng_wire_le16_read (zdrop 8 payload)) in *.
    assert (Hl : (10 <= length payload)%nat) by (unfold zlen in *; lia).
    pose proof (le16_split tl (zdrop 8 payload) ltac:(by apply Forall_drop)
      ltac:(unfold zdrop; rewrite length_drop; lia) eq_refl) as [Htl0 H16].
    assert (Htl : zlen (ztake tl (zdrop 10 payload)) = tl)
      by (apply zlen_ztake; rewrite zlen_zdrop; lia).
    exists (zdrop (10 + tl) payload). split.
    { unfold upload_image. rewrite Htl, (app_assoc (le32_bytes _)).
      rewrite (le64_split _ payload) by (done || lia).
      rewrite <- (zdrop_zdrop tl 10), ztake_zdrop by lia. rewrite H16.
      rewrite <- (zdrop_zdrop 2 8) by lia.
      change (take 2 (zdrop 8 payload)) with (ztake 2 (zdrop 8 payload)).
      change (take 8 payload) with (ztake 8 payload). by rewrite !ztake_zdrop. }
    split; [done|]. split; [lia|]. split; [done|]. by apply le64_read_range.
  - intros (quack & -> & -> & Ht & -> & Hs).
    pose proof (zlen_nonneg quack).
    assert (zlen (upload_image sid token quack) = 10 + zlen token + zlen quack) as Hl.
    { unfold upload_image. rewrite !zlen_app.
      assert (Hw : forall v, zlen (le32_bytes v) = 4) by reflexivity.
      rewrite !Hw, !zlen_cons, zlen_nil. lia. }
    rewrite Hl. rewrite (proj2 (Z.ltb_ge _ _)) by lia.
    assert (ducknng_wire_le16_read (zdrop 8 (upload_image sid token quack)) = zlen token) as ->.
    { unfold upload_image. rewrite app_assoc, zdrop_app_len by reflexivity.
      simpl. rewrite le16_read_sum; unfold is_byte; Z.div_mod_to_equations; lia. }
    rewrite (proj2 (Z.eqb_neq _ _)), !(proj2 (Z.ltb_ge _ _)) by lia. simpl.
    unfold upload_image. rewrite le64_roundtrip by done.
    rewrite app_assoc, (app_assoc _ [_; _]), zdrop_app_len by reflexivity.
    by rewrite ztake_app_len.
Qed.

Lemma upload_prefix_exact_witness :
  ducknng_upload_append_parse_prefix (Some (upload_image 300 (lit "tok") [1; 2])) 15
  = Some (300, lit "tok", 3, 13).
Proof.
  apply (upload_prefix_exact (upload_image 300 (lit "tok") [1; 2])).
  - apply (bool_decide_unpack _). vm_compute. exact I.
  - exists [1; 2]. vm_compute. repeat split; congruence.
Defined.

(** [ducknng_error_msg] always produces a decodable error frame: for any
    status code (one outside the assigned range becomes "internal"), a method
    name of at most 128 bytes and a message that is absent or non-empty, the
    reply decodes to an error frame with that status, name and text; only a
    failing allocator makes it return NULL. *)
Theorem error_msg_decodes (alloc : Z -> option bytes) name code message
  (Halloc : forall n, 0 <= n -> exists b, alloc n = Some b /\ zlen b = n)
  (Hname : zlen (default [] name) <= DUCKNNG_MAX_METHOD_NAME_LEN)
  (Hmsg : message <> Some []) (Hlen : zlen (default [] message) <= UINT32_MAX) :
  exists m f, ducknng_error_msg alloc name code message = Some m /\
    ducknng_decode_request (Some m) = Some f /\
    f_type f = DUCKNNG_RPC_ERROR /\
    f_status f = (if (1 <=? code) && (code <=? 10) then code else DUCKNNG_STATUS_INTERNAL)%bool /\
    f_name f = default [] name /\
    f_error f = default (lit "ducknng: unspecified error") message /\ f_payload f = [].
Proof. by apply error_msg_frame. Qed.

Lemma error_msg_decodes_witness :
  exists m f, ducknng_error_msg (fun n => Some (replicate (Z.to_nat n) 0)) (Some (lit "exec")) 77
      (Some (lit "boom")) = Some m /\
    ducknng_decode_request (Some m) = Some f /\ f_status f = DUCKNNG_STATUS_INTERNAL.
Proof.
  destruct (error_msg_decodes (fun n => Some (replicate (Z.to_nat n) 0)) (Some (lit "exec")) 77
      (Some (lit "boom"))) as (m & f & H1 & H2 & _ & H3 & _).
  - intros n Hn. exists (replicate (Z.to_nat n) 0).
    split; [done|]. unfold zlen. rewrite length_replicate. lia.
  - vm_compute. congruence.
  - vm_compute. congruence.
  - vm_compute. congruence.
  - exists m, f. split; [exact H1|]. split; [exact H2|]. rewrite H3. reflexivity.
Defined.
