(* ===== verification/QuackCore.v ===== *)
(** The Quack batch byte kernel: [src/src/ducknng_quack_core.c].

    Writers and readers are states; an operation returns the new state and
    [Some] result, or [None] for the -1 return.  Errors are sticky: they stay
    in the state's [status].  Loops over a 64-bit value carry fuel: ten 7-bit
    groups cover 64 bits, and an eleventh round of a reader always fails. *)

From S2P Require Import Prelude Checked.

(** ** Data ([include/ducknng_quack_core.h]) *)

Inductive ducknng_qk_status :=
| DUCKNNG_QK_OK | DUCKNNG_QK_INVALID | DUCKNNG_QK_OVERFLOW
| DUCKNNG_QK_NO_SPACE | DUCKNNG_QK_TRUNCATED.

(** [DUCKNNG_QK_WRITER_NONE] is the zero of a cleared struct. *)
Inductive ducknng_qk_writer_mode :=
| DUCKNNG_QK_WRITER_NONE | DUCKNNG_QK_WRITER_MEASURE | DUCKNNG_QK_WRITER_FIXED.

#[export] Instance qk_status_eq_dec : EqDecision ducknng_qk_status.
Proof. solve_decision. Defined.
#[export] Instance qk_mode_eq_dec : EqDecision ducknng_qk_writer_mode.
Proof. solve_decision. Defined.

Record ducknng_qk_writer := mk_writer {
  w_data : option bytes; w_capacity : Z; w_position : Z;
  w_mode : ducknng_qk_writer_mode; w_status : ducknng_qk_status }.

Record ducknng_qk_reader := mk_reader {
  r_data : option bytes; r_len : Z; r_off : Z;
  r_materialized_values : Z; r_status : ducknng_qk_status }.

(** ** A state monad with failure *)

Definition qk (S A : Type) : Type := S -> S * option A.

Definition qk_bind {S A C} (m : qk S A) (f : A -> qk S C) : qk S C :=
  fun s => match m s with
  | (s', Some a) => f a s'
  | (s', None) => (s', None)
  end.

Definition qk_ret {S A} (a : A) : qk S A := fun s => (s, Some a).

Notation "'bind!' x ':=' m 'in' k" := (qk_bind m (fun x => k))
  (at level 10, x pattern, m at level 100, k at level 200) : duck_scope.

(** ** Writer *)

Definition ducknng_qk_writer_fail {A} (status : ducknng_qk_status) : qk ducknng_qk_writer A :=
  fun w => (mk_writer (w_data w) (w_capacity w) (w_position w) (w_mode w) status, None).

Definition ducknng_qk_writer_init_measure : ducknng_qk_writer :=
  mk_writer None 0 0 DUCKNNG_QK_WRITER_MEASURE DUCKNNG_QK_OK.

Definition ducknng_qk_writer_init_fixed (destination : option bytes) (capacity : Z)
    : ducknng_qk_writer :=
  mk_writer destination capacity 0 DUCKNNG_QK_WRITER_FIXED
    (if ((0 <? capacity) && bool_decide (destination = None))%bool
     then DUCKNNG_QK_INVALID else DUCKNNG_QK_OK).

Definition ducknng_qk_writer_size (w : ducknng_qk_writer) : Z := w_position w.

Definition ducknng_qk_write_bytes (source : option bytes) (size : Z)
    : qk ducknng_qk_writer unit := fun w =>
  if negb (bool_decide (w_status w = DUCKNNG_QK_OK)) then (w, None) else
  if ((0 <? size) && bool_decide (source = None))%bool
  then ducknng_qk_writer_fail DUCKNNG_QK_INVALID w else
  match ducknng_size_add (w_position w) size with
  | None => ducknng_qk_writer_fail DUCKNNG_QK_OVERFLOW w
  | Some next =>
    match w_mode w with
    | DUCKNNG_QK_WRITER_FIXED =>
      if w_capacity w <? next then ducknng_qk_writer_fail DUCKNNG_QK_NO_SPACE w else
      (mk_writer
         (if 0 <? size
          then (fun d => write_at d (w_position w) (ztake size (default [] source))) <$> w_data w
          else w_data w)
         (w_capacity w) next (w_mode w) (w_status w), Some tt)
    | DUCKNNG_QK_WRITER_MEASURE =>
      (mk_writer (w_data w) (w_capacity w) next (w_mode w) (w_status w), Some tt)
    | DUCKNNG_QK_WRITER_NONE => ducknng_qk_writer_fail DUCKNNG_QK_INVALID w
    end
  end.

Definition ducknng_qk_write_u8 (value : Z) : qk ducknng_qk_writer unit :=
  ducknng_qk_write_bytes (Some [value]) 1.

Definition ducknng_qk_write_u16le (value : Z) : qk ducknng_qk_writer unit :=
  ducknng_qk_write_bytes (Some [Z.land value 0xff; u8 (Z.shiftr value 8)]) 2.

Definition ducknng_qk_write_field (field : Z) : qk ducknng_qk_writer unit :=
  ducknng_qk_write_u16le field.

Fixpoint qk_write_uleb128_loop (fuel : nat) (value : Z) : qk ducknng_qk_writer unit :=
  match fuel with
  | O => fun w => (w, None)
  | S fuel =>
    let byte := Z.land value 0x7f in
    let value := Z.shiftr value 7 in
    let byte := if negb (value =? 0) then Z.lor byte 0x80 else byte in
    bind! _ := ducknng_qk_write_u8 byte in
    if negb (value =? 0) then qk_write_uleb128_loop fuel value else qk_ret tt
  end.

Definition ducknng_qk_write_uleb128 (value : Z) : qk ducknng_qk_writer unit :=
  qk_write_uleb128_loop 10 value.

(** [value / 128] truncates toward zero in C, then the code corrects it. *)
Fixpoint qk_write_sleb128_loop (fuel : nat) (value : Z) : qk ducknng_qk_writer unit :=
  match fuel with
  | O => fun w => (w, None)
  | S fuel =>
    let next := Z.quot value 128 in
    let next := if ((value <? 0) && negb (Z.rem value 128 =? 0))%bool then next - 1 else next in
    let byte := u8 (value - next * 128) in
    let sign := negb (Z.land byte 0x40 =? 0) in
    let more := negb (((next =? 0) && negb sign) || ((next =? -1) && sign))%bool in
    let byte := if more then Z.lor byte 0x80 else byte in
    bind! _ := ducknng_qk_write_u8 byte in
    if more then qk_write_sleb128_loop fuel next else qk_ret tt
  end.

Definition ducknng_qk_write_sleb128 (value : Z) : qk ducknng_qk_writer unit :=
  qk_write_sleb128_loop 10 value.

Definition ducknng_qk_write_counted (source : option bytes) (size : Z)
    : qk ducknng_qk_writer unit :=
  bind! _ := ducknng_qk_write_uleb128 size in ducknng_qk_write_bytes source size.

(** ** Reader *)

Definition ducknng_qk_reader_fail {A} (status : ducknng_qk_status) : qk ducknng_qk_reader A :=
  fun r => (mk_reader (r_data r) (r_len r) (r_off r) (r_materialized_values r) status, None).

Definition ducknng_qk_reader_init (data : option bytes) (size : Z) : ducknng_qk_reader :=
  mk_reader data size 0 0
    (if ((0 <? size) && bool_decide (data = None))%bool
     then DUCKNNG_QK_INVALID else DUCKNNG_QK_OK).

Definition ducknng_qk_reader_remaining (r : ducknng_qk_reader) : Z :=
  if r_len r <? r_off r then 0 else r_len r - r_off r.

Definition ducknng_qk_reader_need (size : Z) : qk ducknng_qk_reader unit := fun r =>
  if negb (bool_decide (r_status r = DUCKNNG_QK_OK)) then (r, None) else
  if ((r_len r <? r_off r) || (r_len r - r_off r <? size))%bool
  then ducknng_qk_reader_fail DUCKNNG_QK_TRUNCATED r
  else (r, Some tt).

Definition r_at (r : ducknng_qk_reader) (i : Z) : Z := byte_at (default [] (r_data r)) i.
Definition r_advance (n : Z) (r : ducknng_qk_reader) : ducknng_qk_reader :=
  mk_reader (r_data r) (r_len r) (r_off r + n) (r_materialized_values r) (r_status r).

Definition ducknng_qk_read_u8 : qk ducknng_qk_reader Z :=
  bind! _ := ducknng_qk_reader_need 1 in
  fun r => (r_advance 1 r, Some (r_at r (r_off r))).

Definition ducknng_qk_read_boolean : qk ducknng_qk_reader Z :=
  bind! value := ducknng_qk_read_u8 in
  if 1 <? value then ducknng_qk_reader_fail DUCKNNG_QK_INVALID else qk_ret value.

Definition ducknng_qk_peek_u16le : qk ducknng_qk_reader Z :=
  bind! _ := ducknng_qk_reader_need 2 in
  fun r => (r, Some (Z.lor (r_at r (r_off r)) (u16 (Z.shiftl (r_at r (r_off r + 1)) 8)))).

Definition ducknng_qk_read_u16le : qk ducknng_qk_reader Z :=
  bind! v := ducknng_qk_peek_u16le in fun r => (r_advance 2 r, Some v).

Fixpoint qk_read_uleb128_loop (fuel : nat) (value shift : Z) : qk ducknng_qk_reader Z :=
  match fuel with
  | O => fun r => (r, None)
  | S fuel =>
    if 64 <=? shift then ducknng_qk_reader_fail DUCKNNG_QK_OVERFLOW else
    bind! byte := ducknng_qk_read_u8 in
    if ((shift =? 63) && negb (Z.land byte 0x7e =? 0))%bool
    then ducknng_qk_reader_fail DUCKNNG_QK_OVERFLOW else
    let value := Z.lor value (u64 (Z.shiftl (Z.land byte 0x7f) shift)) in
    if Z.land byte 0x80 =? 0 then qk_ret value
    else qk_read_uleb128_loop fuel value (shift + 7)
  end.

Definition ducknng_qk_read_uleb128 : qk ducknng_qk_reader Z := qk_read_uleb128_loop 11 0 0.

(** The loop of the signed reader yields the accumulated bits, the shift and
    the last byte. *)
Fixpoint qk_read_sleb128_loop (fuel : nat) (bits shift : Z) : qk ducknng_qk_reader (Z * Z * Z) :=
  match fuel with
  | O => fun r => (r, None)
  | S fuel =>
    if 64 <=? shift then ducknng_qk_reader_fail DUCKNNG_QK_OVERFLOW else
    bind! byte := ducknng_qk_read_u8 in
    let payload := Z.land byte 0x7f in
    if ((shift =? 63) && negb (payload =? 0) && negb (payload =? 0x7f))%bool
    then ducknng_qk_reader_fail DUCKNNG_QK_OVERFLOW else
    let bits := Z.lor bits (u64 (Z.shiftl payload shift)) in
    if Z.land byte 0x80 =? 0 then qk_ret (bits, shift, byte)
    else qk_read_sleb128_loop fuel bits (shift + 7)
  end.

(** [memcpy] of the unsigned bits into an [int64_t]. *)
Definition to_int64 (bits : Z) : Z :=
  if bits <=? INT64_MAX then bits else bits - 2 ^ 64.

Definition ducknng_qk_read_sleb128 : qk ducknng_qk_reader Z :=
  bind! (bits, shift, byte) := qk_read_sleb128_loop 11 0 0 in
  let bits := if ((shift <? 63) && negb (Z.land byte 0x40 =? 0))%bool
    then Z.lor bits (u64 (Z.shiftl UINT64_MAX (shift + 7))) else bits in
  qk_ret (to_int64 bits).

Definition ducknng_qk_read_counted : qk ducknng_qk_reader bytes :=
  bind! length := ducknng_qk_read_uleb128 in
  if SIZE_MAX <? length then ducknng_qk_reader_fail DUCKNNG_QK_OVERFLOW else
  bind! _ := ducknng_qk_reader_need length in
  fun r => (r_advance length r, Some (ztake length (zdrop (r_off r) (default [] (r_data r))))).

Definition ducknng_qk_skip (size : Z) : qk ducknng_qk_reader unit :=
  bind! _ := ducknng_qk_reader_need size in fun r => (r_advance size r, Some tt).

(** ** Type trees *)

Definition DUCKNNG_QUACK_LOGICAL_BOOLEAN : Z := 10.
Definition DUCKNNG_QUACK_LOGICAL_TINYINT : Z := 11.
Definition DUCKNNG_QUACK_LOGICAL_SMALLINT : Z := 12.
Definition DUCKNNG_QUACK_LOGICAL_INTEGER : Z := 13.
Definition DUCKNNG_QUACK_LOGICAL_BIGINT : Z := 14.
Definition DUCKNNG_QUACK_LOGICAL_DATE : Z := 15.
Definition DUCKNNG_QUACK_LOGICAL_TIME : Z := 16.
Definition DUCKNNG_QUACK_LOGICAL_TIMESTAMP_SEC : Z := 17.
Definition DUCKNNG_QUACK_LOGICAL_TIMESTAMP_MS : Z := 18.
Definition DUCKNNG_QUACK_LOGICAL_TIMESTAMP : Z := 19.
Definition DUCKNNG_QUACK_LOGICAL_TIMESTAMP_NS : Z := 20.
Definition DUCKNNG_QUACK_LOGICAL_DECIMAL : Z := 21.
Definition DUCKNNG_QUACK_LOGICAL_FLOAT : Z := 22.
Definition DUCKNNG_QUACK_LOGICAL_DOUBLE : Z := 23.
Definition DUCKNNG_QUACK_LOGICAL_CHAR : Z := 24.
Definition DUCKNNG_QUACK_LOGICAL_VARCHAR : Z := 25.
Definition DUCKNNG_QUACK_LOGICAL_BLOB : Z := 26.
Definition DUCKNNG_QUACK_LOGICAL_INTERVAL : Z := 27.
Definition DUCKNNG_QUACK_LOGICAL_UTINYINT : Z := 28.
Definition DUCKNNG_QUACK_LOGICAL_USMALLINT : Z := 29.
Definition DUCKNNG_QUACK_LOGICAL_UINTEGER : Z := 30.
Definition DUCKNNG_QUACK_LOGICAL_UBIGINT : Z := 31.
Definition DUCKNNG_QUACK_LOGICAL_TIMESTAMP_TZ : Z := 32.
Definition DUCKNNG_QUACK_LOGICAL_TIME_TZ : Z := 34.
Definition DUCKNNG_QUACK_LOGICAL_TIME_NS : Z := 35.
Definition DUCKNNG_QUACK_LOGICAL_UHUGEINT : Z := 49.
Definition DUCKNNG_QUACK_LOGICAL_HUGEINT : Z := 50.
Definition DUCKNNG_QUACK_LOGICAL_UUID : Z := 54.
Definition DUCKNNG_QUACK_LOGICAL_STRUCT : Z := 100.
Definition DUCKNNG_QUACK_LOGICAL_LIST : Z := 101.
Definition DUCKNNG_QUACK_LOGICAL_MAP : Z := 102.
Definition DUCKNNG_QUACK_LOGICAL_ENUM : Z := 104.
Definition DUCKNNG_QUACK_LOGICAL_UNION : Z := 107.
Definition DUCKNNG_QUACK_LOGICAL_ARRAY : Z := 108.
Definition DUCKNNG_QUACK_MAX_ENUM_VALUES : Z := 16777216.

(** [switch] on a logical type id. *)
Definition id_in (id : Z) (l : list Z) : bool := existsb (Z.eqb id) l.

(** Pointer arrays are [option (list _)]; their entries may be NULL too. *)
Inductive ducknng_quack_column_schema := mk_schema {
  sc_name : option bytes;
  logical_type_id : Z;
  decimal_width : Z;
  decimal_scale : Z;
  array_size : Z;
  enum_count : Z;
  enum_labels : option (list (option bytes));
  nchildren : Z;
  children : option (list (option ducknng_quack_column_schema));
  child_names : option (list (option bytes)) }.

Abbreviation schema := ducknng_quack_column_schema.

Definition ducknng_qk_validity_bytes (rows : Z) : Z :=
  if UINT64_MAX - 63 <? rows then SIZE_MAX else u64 (u64 (rows + 63) / 64 * 8).

Definition ducknng_qk_type_is_nested (node : schema) : bool :=
  id_in (logical_type_id node)
    [DUCKNNG_QUACK_LOGICAL_LIST; DUCKNNG_QUACK_LOGICAL_MAP; DUCKNNG_QUACK_LOGICAL_STRUCT; DUCKNNG_QUACK_LOGICAL_UNION; DUCKNNG_QUACK_LOGICAL_ARRAY].

Definition ducknng_qk_type_is_varlen (node : schema) : bool :=
  ((logical_type_id node =? DUCKNNG_QUACK_LOGICAL_VARCHAR) || (logical_type_id node =? DUCKNNG_QUACK_LOGICAL_CHAR) ||
   (logical_type_id node =? DUCKNNG_QUACK_LOGICAL_BLOB))%bool.

Definition ducknng_qk_type_fixed_width (node : schema) : Z :=
  let id := logical_type_id node in
  if id =? DUCKNNG_QUACK_LOGICAL_ENUM then
    if enum_count node <=? 0xff then 1 else
    if enum_count node <=? 0xffff then 2 else 4
  else if id_in id [DUCKNNG_QUACK_LOGICAL_BOOLEAN; DUCKNNG_QUACK_LOGICAL_TINYINT; DUCKNNG_QUACK_LOGICAL_UTINYINT] then 1
  else if id_in id [DUCKNNG_QUACK_LOGICAL_SMALLINT; DUCKNNG_QUACK_LOGICAL_USMALLINT] then 2
  else if id_in id [DUCKNNG_QUACK_LOGICAL_INTEGER; DUCKNNG_QUACK_LOGICAL_UINTEGER; DUCKNNG_QUACK_LOGICAL_DATE; DUCKNNG_QUACK_LOGICAL_FLOAT] then 4
  else if id_in id [DUCKNNG_QUACK_LOGICAL_BIGINT; DUCKNNG_QUACK_LOGICAL_UBIGINT; DUCKNNG_QUACK_LOGICAL_TIME; DUCKNNG_QUACK_LOGICAL_TIMESTAMP_SEC;
      DUCKNNG_QUACK_LOGICAL_TIMESTAMP_MS; DUCKNNG_QUACK_LOGICAL_TIMESTAMP; DUCKNNG_QUACK_LOGICAL_TIMESTAMP_NS; DUCKNNG_QUACK_LOGICAL_TIMESTAMP_TZ;
      DUCKNNG_QUACK_LOGICAL_TIME_TZ; DUCKNNG_QUACK_LOGICAL_TIME_NS; DUCKNNG_QUACK_LOGICAL_DOUBLE] then 8
  else if id_in id [DUCKNNG_QUACK_LOGICAL_INTERVAL; DUCKNNG_QUACK_LOGICAL_HUGEINT; DUCKNNG_QUACK_LOGICAL_UHUGEINT; DUCKNNG_QUACK_LOGICAL_UUID] then 16
  else if id =? DUCKNNG_QUACK_LOGICAL_DECIMAL then
    if decimal_width node <=? 4 then 2 else
    if decimal_width node <=? 9 then 4 else
    if decimal_width node <=? 18 then 8 else
    if decimal_width node <=? 38 then 16 else 0
  else 0.

Definition ducknng_qk_type_is_sequence_integer (node : schema) : bool :=
  id_in (logical_type_id node)
    [DUCKNNG_QUACK_LOGICAL_TINYINT; DUCKNNG_QUACK_LOGICAL_SMALLINT; DUCKNNG_QUACK_LOGICAL_INTEGER; DUCKNNG_QUACK_LOGICAL_BIGINT; DUCKNNG_QUACK_LOGICAL_UTINYINT;
     DUCKNNG_QUACK_LOGICAL_USMALLINT; DUCKNNG_QUACK_LOGICAL_UINTEGER; DUCKNNG_QUACK_LOGICAL_UBIGINT].

(** [p && p[i] ? p[i] : ""]. *)
Definition name_at (names : option (list (option bytes))) (i : nat) : bytes :=
  default [] (mjoin (default [] names !! i)).

(** The label loop, [i] counting up to [enum_count]. *)
Definition labels_equal (n : nat) (a b : option (list (option bytes))) : bool :=
  forallb (fun i => str_eq (name_at a i) (name_at b i)) (seq 0 n).

(** The child loop: names first, then the children themselves. *)
Section children_loop.
Context (type_equal : schema -> schema -> bool).
Context (names_a names_b : option (list (option bytes))).

Fixpoint children_equal (n i : nat) (ca cb : list (option schema)) {struct ca} : bool :=
  match n with
  | O => true
  | S n =>
    match ca, cb with
    | x :: ca, y :: cb =>
      if negb (str_eq (name_at names_a i) (name_at names_b i)) then false else
      match x, y with
      | Some x, Some y => if type_equal x y then children_equal n (S i) ca cb else false
      | _, _ => false
      end
    | _, _ => false
    end
  end.
End children_loop.

Fixpoint ducknng_qk_type_equal (a b : schema) {struct a} : bool :=
  if negb (logical_type_id a =? logical_type_id b) then false else
  if negb (decimal_width a =? decimal_width b) then false else
  if negb (decimal_scale a =? decimal_scale b) then false else
  if negb (array_size a =? array_size b) then false else
  if negb (enum_count a =? enum_count b) then false else
  if negb (nchildren a =? nchildren b) then false else
  if ((0 <? enum_count a) && bool_decide (enum_labels a = None))%bool then false else
  if ((0 <? enum_count b) && bool_decide (enum_labels b = None))%bool then false else
  if negb (labels_equal (Z.to_nat (enum_count a)) (enum_labels a) (enum_labels b)) then false else
  match children a, children b with
  | Some ca, Some cb =>
    children_equal ducknng_qk_type_equal (child_names a) (child_names b)
      (Z.to_nat (nchildren a)) O ca cb
  | _, _ => negb (0 <? nchildren a)
  end.

Definition ducknng_qk_type_expected_info_kind (id : Z) : Z :=
  if id =? DUCKNNG_QUACK_LOGICAL_DECIMAL then 2
  else if id_in id [DUCKNNG_QUACK_LOGICAL_LIST; DUCKNNG_QUACK_LOGICAL_MAP] then 4
  else if id_in id [DUCKNNG_QUACK_LOGICAL_STRUCT; DUCKNNG_QUACK_LOGICAL_UNION] then 5
  else if id =? DUCKNNG_QUACK_LOGICAL_ENUM then 6
  else if id =? DUCKNNG_QUACK_LOGICAL_ARRAY then 9
  else UINT64_MAX.

Definition ducknng_qk_type_needs_info (node : schema) : bool :=
  negb (ducknng_qk_type_expected_info_kind (logical_type_id node) =? UINT64_MAX).

(** [children[i]], NULL when the array is NULL. *)
Definition child_at (node : schema) (i : nat) : option schema :=
  mjoin (default [] (children node) !! i).

(** [None] is the 0 return, [Some m] the -1 return with message [m]. *)
Definition ducknng_qk_type_shape_validate (node : schema) : option string :=
  let id := logical_type_id node in
  let members :=
    if forallb (fun i => (bool_decide (child_at node i <> None) &&
         bool_decide (mjoin (default [] (child_names node) !! i) <> None))%bool)
         (seq 0 (Z.to_nat (nchildren node)))
    then None
    else Some "ducknng: quack struct/union type has an incomplete member" in
  if id =? DUCKNNG_QUACK_LOGICAL_DECIMAL then
    if ((decimal_width node =? 0) || (38 <? decimal_width node) ||
        (decimal_width node <? decimal_scale node))%bool
    then Some "ducknng: quack decimal type has invalid width or scale" else None
  else if id =? DUCKNNG_QUACK_LOGICAL_LIST then
    if (negb (nchildren node =? 1) || bool_decide (children node = None) ||
        bool_decide (child_at node 0 = None))%bool
    then Some "ducknng: quack list type is missing its child" else None
  else if id =? DUCKNNG_QUACK_LOGICAL_MAP then
    match child_at node 0 with
    | Some c =>
      if (negb (nchildren node =? 1) || bool_decide (children node = None) ||
          negb (logical_type_id c =? DUCKNNG_QUACK_LOGICAL_STRUCT) || negb (nchildren c =? 2) ||
          bool_decide (children c = None) || bool_decide (child_at c 0 = None) ||
          bool_decide (child_at c 1 = None))%bool
      then Some "ducknng: malformed quack map type" else None
    | None => Some "ducknng: malformed quack map type"
    end
  else if id =? DUCKNNG_QUACK_LOGICAL_STRUCT then
    if ((nchildren node =? 0) || bool_decide (children node = None) ||
        bool_decide (child_names node = None))%bool
    then Some "ducknng: quack struct type is missing its members" else members
  else if id =? DUCKNNG_QUACK_LOGICAL_UNION then
    match child_at node 0 with
    | Some c =>
      if ((nchildren node <? 2) || bool_decide (children node = None) ||
          bool_decide (child_names node = None) ||
          negb (logical_type_id c =? DUCKNNG_QUACK_LOGICAL_UTINYINT))%bool
      then Some "ducknng: quack union type is missing its tag or members" else members
    | None => Some "ducknng: quack union type is missing its tag or members"
    end
  else if id =? DUCKNNG_QUACK_LOGICAL_ENUM then
    if ((DUCKNNG_QUACK_MAX_ENUM_VALUES <? enum_count node) ||
        ((0 <? enum_count node) && bool_decide (enum_labels node = None)))%bool
    then Some "ducknng: quack enum type is missing its dictionary" else
    if forallb (fun i => bool_decide (mjoin (default [] (enum_labels node) !! i) <> None))
         (seq 0 (Z.to_nat (enum_count node)))
    then None else Some "ducknng: quack enum type has a missing label"
  else if id =? DUCKNNG_QUACK_LOGICAL_ARRAY then
    if ((array_size node =? 0) || negb (nchildren node =? 1) ||
        bool_decide (children node = None) || bool_decide (child_at node 0 = None))%bool
    then Some "ducknng: quack array type is missing its child or size" else None
  else if (negb (ducknng_qk_type_is_varlen node) && (ducknng_qk_type_fixed_width node =? 0))%bool
  then Some "ducknng: quack payload uses an unsupported logical type" else None.

(** ** Scripts of writes and reads

    The encoders of the Quack batch format are sequences of these primitive
    writes; the decoders mirror them. *)

Inductive qk_value :=
| QU8 (v : Z) | QBool (v : Z) | QU16 (v : Z) | QUleb (v : Z) | QSleb (v : Z)
| QCounted (b : bytes).

Inductive qk_kind := KU8 | KBool | KU16 | KUleb | KSleb | KCounted.

Definition kind_of (x : qk_value) : qk_kind :=
  match x with
  | QU8 _ => KU8 | QBool _ => KBool | QU16 _ => KU16
  | QUleb _ => KUleb | QSleb _ => KSleb | QCounted _ => KCounted
  end.

Definition value_wf (x : qk_value) : Prop :=
  match x with
  | QU8 v => is_byte v
  | QBool v => 0 <= v <= 1
  | QU16 v => 0 <= v <= UINT16_MAX
  | QUleb v => 0 <= v <= UINT64_MAX
  | QSleb v => INT64_MIN <= v <= INT64_MAX
  | QCounted b => zlen b <= SIZE_MAX
  end.

#[export] Instance value_wf_dec x : Decision (value_wf x).
Proof. destruct x; simpl; apply _. Defined.

Definition qk_write (x : qk_value) : qk ducknng_qk_writer unit :=
  match x with
  | QU8 v | QBool v => ducknng_qk_write_u8 v
  | QU16 v => ducknng_qk_write_field v
  | QUleb v => ducknng_qk_write_uleb128 v
  | QSleb v => ducknng_qk_write_sleb128 v
  | QCounted b => ducknng_qk_write_counted (Some b) (zlen b)
  end.

Definition qk_read (k : qk_kind) : qk ducknng_qk_reader qk_value :=
  match k with
  | KU8 => bind! v := ducknng_qk_read_u8 in qk_ret (QU8 v)
  | KBool => bind! v := ducknng_qk_read_boolean in qk_ret (QBool v)
  | KU16 => bind! v := ducknng_qk_read_u16le in qk_ret (QU16 v)
  | KUleb => bind! v := ducknng_qk_read_uleb128 in qk_ret (QUleb v)
  | KSleb => bind! v := ducknng_qk_read_sleb128 in qk_ret (QSleb v)
  | KCounted => bind! v := ducknng_qk_read_counted in qk_ret (QCounted v)
  end.

Fixpoint write_script (xs : list qk_value) : qk ducknng_qk_writer unit :=
  match xs with
  | [] => qk_ret tt
  | x :: xs => bind! _ := qk_write x in write_script xs
  end.

Fixpoint read_script (ks : list qk_kind) : qk ducknng_qk_reader (list qk_value) :=
  match ks with
  | [] => qk_ret []
  | k :: ks => bind! x := qk_read k in bind! xs := read_script ks in qk_ret (x :: xs)
  end.

(** *** Reference encodings *)

Fixpoint uleb_bytes (fuel : nat) (v : Z) : bytes :=
  match fuel with
  | O => []
  | S fuel => if v / 128 =? 0 then [v mod 128] else (v mod 128 + 128) :: uleb_bytes fuel (v / 128)
  end.

(** The last group of a signed value is the one whose 7 bits, sign-extended,
    are the whole remaining value. *)
Fixpoint sleb_bytes (fuel : nat) (v : Z) : bytes :=
  match fuel with
  | O => []
  | S fuel =>
    if ((-64 <=? v) && (v <? 64))%bool then [v mod 128]
    else (v mod 128 + 128) :: sleb_bytes fuel (v / 128)
  end.

Definition value_image (x : qk_value) : bytes :=
  match x with
  | QU8 v | QBool v => [v]
  | QU16 v => [v mod 256; v / 256]
  | QUleb v => uleb_bytes 10 v
  | QSleb v => sleb_bytes 10 v
  | QCounted b => uleb_bytes 10 (zlen b) ++ b
  end.

Definition script_image (xs : list qk_value) : bytes := xs ≫= value_image.

(** *** Writers emit chunks *)

Fixpoint run_chunks (cs : list bytes) : qk ducknng_qk_writer unit :=
  match cs with
  | [] => qk_ret tt
  | c :: cs => bind! _ := ducknng_qk_write_bytes (Some c) (zlen c) in run_chunks cs
  end.

Definition emits (m : qk ducknng_qk_writer unit) (out : bytes) : Prop :=
  exists cs, concat cs = out /\ forall w, m w = run_chunks cs w.

Lemma qk_bind_assoc {S A C D} (m : qk S A) (f : A -> qk S C) (g : C -> qk S D) s :
  qk_bind (qk_bind m f) g s = qk_bind m (fun a => qk_bind (f a) g) s.
Proof. unfold qk_bind. by destruct (m s) as [s' [a|]]. Qed.

Lemma qk_bind_ext {S A C} (m m' : qk S A) (f g : A -> qk S C) s :
  m s = m' s -> (forall a s', f a s' = g a s') -> qk_bind m f s = qk_bind m' g s.
Proof. unfold qk_bind. intros -> H. by destruct (m' s) as [s' [a|]]. Qed.

Lemma run_chunks_app cs ds w :
  run_chunks (cs ++ ds) w = qk_bind (run_chunks cs) (fun _ => run_chunks ds) w.
Proof.
  revert w. induction cs as [|c cs IH]; intros w; [done|].
  cbn [run_chunks app]. rewrite qk_bind_assoc. by apply qk_bind_ext.
Qed.

Lemma emits_bytes b : emits (ducknng_qk_write_bytes (Some b) (zlen b)) b.
Proof.
  exists [b]. split; [by rewrite concat_cons, concat_nil, app_nil_r|].
  intros w. cbn [run_chunks]. unfold qk_bind, qk_ret.
  by destruct (ducknng_qk_write_bytes (Some b) (zlen b) w) as [? [[]|]].
Qed.

Lemma emits_ret : emits (qk_ret tt) [].
Proof. by exists []. Qed.

Lemma emits_bind m n a b : emits m a -> emits n b -> emits (bind! _ := m in n) (a ++ b).
Proof.
  intros (cs & <- & Hm) (ds & <- & Hn). exists (cs ++ ds). split; [apply concat_app|].
  intros w. rewrite run_chunks_app. by apply qk_bind_ext.
Qed.

Lemma emits_u8 v : emits (ducknng_qk_write_u8 v) [v].
Proof. exact (emits_bytes [v]). Qed.

Lemma lor_128 b : 0 <= b < 128 -> Z.lor b 128 = b + 128.
Proof.
  intros. change 128 with (Z.shiftl 1 7) at 1. rewrite lor_shiftl_add by (lia || (simpl; lia)).
  simpl. lia.
Qed.

Lemma emits_uleb fuel v :
  0 <= v < 2 ^ (7 * Z.of_nat fuel) -> fuel <> O ->
  emits (qk_write_uleb128_loop fuel v) (uleb_bytes fuel v).
Proof.
  revert v. induction fuel as [|fuel IH]; intros v Hv Hf; [done|]. clear Hf.
  cbn [qk_write_uleb128_loop uleb_bytes].
  rewrite land_127, Z.shiftr_div_pow2 by lia. change (2 ^ 7) with 128.
  pose proof (Z.mod_pos_bound v 128).
  destruct (v / 128 =? 0) eqn:E; cbn [negb].
  - exact (emits_bind _ _ [_] [] (emits_u8 _) emits_ret).
  - rewrite lor_128 by lia.
    apply (emits_bind _ _ [_] (uleb_bytes fuel (v / 128)) (emits_u8 _)), IH.
    replace (7 * Z.of_nat (S fuel)) with (7 + 7 * Z.of_nat fuel) in Hv by lia.
    rewrite Z.pow_add_r in Hv by lia. change (2 ^ 7) with 128 in Hv.
    + split; [apply Z.div_pos; lia|apply Z.div_lt_upper_bound; lia].
    + intros ->. btests. simpl in Hv. Z.div_mod_to_equations; lia.
Qed.

Lemma quot_floor v :
  (if ((v <? 0) && negb (Z.rem v 128 =? 0))%bool then Z.quot v 128 - 1 else Z.quot v 128)
  = v / 128.
Proof.
  pose proof (Z.quot_rem v 128). pose proof (Z.rem_bound_abs v 128).
  pose proof (Z.rem_sign_mul v 128).
  destruct (v <? 0) eqn:E1; destruct (Z.rem v 128 =? 0) eqn:E2; simpl; btests;
    Z.div_mod_to_equations; nia.
Qed.

Lemma sleb_more b :
  is_byte b -> b < 128 -> negb (Z.land b 0x40 =? 0) = (64 <=? b).
Proof.
  intros Hb Hl. apply (byte_forall (fun b => implb (b <? 128)
    (Bool.eqb (negb (Z.land b 0x40 =? 0)) (64 <=? b)))) in Hb; [|by vm_compute].
  apply Z.ltb_lt in Hl. rewrite Hl in Hb. simpl in Hb. by apply Bool.eqb_prop.
Qed.

Lemma emits_sleb fuel v :
  - 2 ^ (7 * Z.of_nat fuel) <= 2 * v < 2 ^ (7 * Z.of_nat fuel) -> fuel <> O ->
  emits (qk_write_sleb128_loop fuel v) (sleb_bytes fuel v).
Proof.
  revert v. induction fuel as [|fuel IH]; intros v Hv Hf; [done|]. clear Hf.
  cbn [qk_write_sleb128_loop sleb_bytes]. rewrite quot_floor.
  pose proof (Z.mod_pos_bound v 128).
  assert (v - v / 128 * 128 = v mod 128) as -> by (Z.div_mod_to_equations; lia).
  rewrite u8_small by (unfold is_byte; lia).
  rewrite sleb_more by (unfold is_byte; lia).
  assert (negb (((v / 128 =? 0) && negb (64 <=? v mod 128)) ||
                ((v / 128 =? -1) && (64 <=? v mod 128)))%bool
          = negb ((-64 <=? v) && (v <? 64))%bool) as ->.
  { f_equal. apply Bool.eq_iff_eq_true.
    rewrite orb_true_iff, !andb_true_iff, negb_true_iff, !Z.eqb_eq, Z.leb_gt, !Z.leb_le, Z.ltb_lt.
    Z.div_mod_to_equations; lia. }
  destruct ((-64 <=? v) && (v <? 64))%bool eqn:E; cbn [negb].
  - exact (emits_bind _ _ [_] [] (emits_u8 _) emits_ret).
  - rewrite lor_128 by lia.
    apply (emits_bind _ _ [_] (sleb_bytes fuel (v / 128)) (emits_u8 _)), IH.
    + replace (7 * Z.of_nat (S fuel)) with (7 + 7 * Z.of_nat fuel) in Hv by lia.
      rewrite Z.pow_add_r in Hv by lia. change (2 ^ 7) with 128 in Hv.
      destruct fuel as [|fuel].
      * simpl in Hv. apply andb_false_iff in E. rewrite Z.leb_gt, Z.ltb_ge in E. lia.
      * replace (7 * Z.of_nat (S fuel)) with (1 + (6 + 7 * Z.of_nat fuel)) in * by lia.
        rewrite Z.pow_add_r in * by lia. change (2 ^ 1) with 2 in *.
        Z.div_mod_to_equations; lia.
    + intros ->. simpl in Hv. apply andb_false_iff in E. rewrite Z.leb_gt, Z.ltb_ge in E. lia.
Qed.

Lemma emits_value x : value_wf x -> emits (qk_write x) (value_image x).
Proof.
  destruct x; cbn [value_wf qk_write value_image]; intros H.
  - apply emits_u8.
  - apply emits_u8.
  - unfold ducknng_qk_write_field, ducknng_qk_write_u16le. rewrite land_255.
    rewrite Z.shiftr_div_pow2 by lia. change (2 ^ 8) with 256.
    rewrite u8_small by (unfold is_byte, UINT16_MAX in *; Z.div_mod_to_equations; lia).
    exact (emits_bytes [_; _]).
  - apply emits_uleb; [|done]. unfold UINT64_MAX in H. change (2 ^ (7 * Z.of_nat 10)) with (2 ^ 70). lia.
  - apply emits_sleb; [|done]. unfold INT64_MIN, INT64_MAX in H.
    change (2 ^ (7 * Z.of_nat 10)) with (2 ^ 70). lia.
  - apply emits_bind, emits_bytes. apply emits_uleb; [|done]. pose proof (zlen_nonneg b).
    unfold SIZE_MAX, UINT64_MAX in H. change (2 ^ (7 * Z.of_nat 10)) with (2 ^ 70). lia.
Qed.

Lemma emits_script xs : Forall value_wf xs -> emits (write_script xs) (script_image xs).
Proof.
  induction 1; [apply emits_ret|]. unfold script_image. rewrite bind_cons.
  by apply emits_bind; [apply emits_value|].
Qed.

(** *** What a sequence of chunks does to a writer *)

Definition advance (n : Z) (d : option bytes) (w : ducknng_qk_writer) : ducknng_qk_writer :=
  mk_writer d (w_capacity w) (w_position w + n) (w_mode w) (w_status w).

Lemma write_bytes_measure b w :
  w_status w = DUCKNNG_QK_OK -> w_mode w = DUCKNNG_QK_WRITER_MEASURE ->
  0 <= w_position w -> w_position w + zlen b <= SIZE_MAX ->
  ducknng_qk_write_bytes (Some b) (zlen b) w = (advance (zlen b) (w_data w) w, Some tt).
Proof.
  intros Hs Hm Hp Hb. unfold ducknng_qk_write_bytes. pose proof (zlen_nonneg b).
  rewrite Hs, (bool_decide_eq_true_2 (_ = _)), bool_decide_eq_false_2, andb_false_r by done.
  cbn [negb]. rewrite size_add_ok by lia. rewrite Hm. unfold advance. by rewrite Hm, Hs.
Qed.

Lemma run_chunks_measure cs w :
  w_status w = DUCKNNG_QK_OK -> w_mode w = DUCKNNG_QK_WRITER_MEASURE ->
  0 <= w_position w -> w_position w + zlen (concat cs) <= SIZE_MAX ->
  run_chunks cs w = (advance (zlen (concat cs)) (w_data w) w, Some tt).
Proof.
  revert w. induction cs as [|c cs IH]; intros w Hs Hm Hp Hb; cbn [run_chunks].
  - unfold qk_ret, advance. rewrite concat_nil, zlen_nil, Z.add_0_r. by destruct w.
  - rewrite concat_cons, zlen_app in *. pose proof (zlen_nonneg c). pose proof (zlen_nonneg (concat cs)).
    unfold qk_bind. rewrite write_bytes_measure by (done || lia).
    rewrite IH by (cbn [advance w_status w_mode w_position w_data w_capacity]; done || lia).
    unfold advance. cbn [w_status w_mode w_position w_data w_capacity]. by rewrite Z.add_assoc.
Qed.

Lemma write_bytes_fixed b w pre old :
  w_status w = DUCKNNG_QK_OK -> w_mode w = DUCKNNG_QK_WRITER_FIXED ->
  w_data w = Some (pre ++ old) -> w_position w = zlen pre ->
  w_capacity w = zlen (pre ++ old) -> w_capacity w <= SIZE_MAX ->
  ducknng_qk_write_bytes (Some b) (zlen b) w =
    if zlen b <=? zlen old
    then (advance (zlen b) (Some (pre ++ b ++ zdrop (zlen b) old)) w, Some tt)
    else ducknng_qk_write_bytes (Some b) (zlen b) w.
Proof.
  intros Hs Hm Hd Hp Hc Hcap. destruct (zlen b <=? zlen old) eqn:E; [|done]. btests.
  unfold ducknng_qk_write_bytes. pose proof (zlen_nonneg b). pose proof (zlen_nonneg pre).
  rewrite Hs, (bool_decide_eq_true_2 (_ = _)), bool_decide_eq_false_2, andb_false_r by done.
  rewrite zlen_app in Hc.
  cbn [negb]. rewrite size_add_ok by lia. rewrite Hm.
  destruct (Z.ltb_spec (w_capacity w) (w_position w + zlen b)); [lia|].
  unfold advance. rewrite Hm, Hs. do 2 f_equal. rewrite Hd.
  destruct (Z.ltb_spec 0 (zlen b)) as [Hl|Hl].
  - simpl. f_equal. rewrite ztake_all, <- (ztake_zdrop (zlen b) old) at 1.
    apply write_at_app; [done|]. by rewrite zlen_ztake by lia.
  - destruct b; [|rewrite zlen_cons in Hl; pose proof (zlen_nonneg b); lia]. done.
Qed.

Lemma run_chunks_fixed cs w pre old :
  w_status w = DUCKNNG_QK_OK -> w_mode w = DUCKNNG_QK_WRITER_FIXED ->
  w_data w = Some (pre ++ old) -> w_position w = zlen pre ->
  w_capacity w = zlen (pre ++ old) -> w_capacity w <= SIZE_MAX ->
  zlen (concat cs) <= zlen old ->
  run_chunks cs w =
    (advance (zlen (concat cs)) (Some (pre ++ concat cs ++ zdrop (zlen (concat cs)) old)) w, Some tt).
Proof.
  revert w pre old. induction cs as [|c cs IH]; intros w pre old Hs Hm Hd Hp Hc Hcap Hl; cbn [run_chunks].
  - unfold qk_ret, advance. rewrite concat_nil, zlen_nil, Z.add_0_r, app_nil_l.
    change (zdrop 0 old) with old. rewrite <- Hd. by destruct w.
  - rewrite concat_cons, zlen_app in *. pose proof (zlen_nonneg c). pose proof (zlen_nonneg (concat cs)).
    unfold qk_bind. rewrite (write_bytes_fixed _ _ pre old) by (done || rewrite ?zlen_app; lia).
    destruct (Z.leb_spec (zlen c) (zlen old)); [|lia].
    rewrite (IH _ (pre ++ c) (zdrop (zlen c) old)); cbn [advance w_status w_mode w_data w_position w_capacity];
      try done; rewrite ?zlen_app, ?zlen_zdrop in * by lia; try lia; [|by rewrite app_assoc].
    unfold advance. cbn [w_capacity w_position w_mode w_status]. do 2 f_equal; [f_equal|lia].
    rewrite zdrop_zdrop by lia. by rewrite <- !app_assoc.
Qed.

Lemma write_bytes_no_space b w :
  w_status w = DUCKNNG_QK_OK -> w_mode w = DUCKNNG_QK_WRITER_FIXED ->
  0 <= w_position w -> w_position w + zlen b <= SIZE_MAX ->
  w_capacity w < w_position w + zlen b ->
  ducknng_qk_write_bytes (Some b) (zlen b) w = ducknng_qk_writer_fail DUCKNNG_QK_NO_SPACE w.
Proof.
  intros Hs Hm Hp Hb Hc. unfold ducknng_qk_write_bytes. pose proof (zlen_nonneg b).
  rewrite Hs, (bool_decide_eq_true_2 (_ = _)), bool_decide_eq_false_2, andb_false_r by done.
  cbn [negb]. rewrite size_add_ok by lia. rewrite Hm.
  by destruct (Z.ltb_spec (w_capacity w) (w_position w + zlen b)); [|lia].
Qed.

Lemma run_chunks_no_space cs w pre old :
  w_status w = DUCKNNG_QK_OK -> w_mode w = DUCKNNG_QK_WRITER_FIXED ->
  w_data w = Some (pre ++ old) -> w_position w = zlen pre ->
  w_capacity w = zlen (pre ++ old) -> w_capacity w <= SIZE_MAX ->
  zlen pre + zlen (concat cs) <= SIZE_MAX ->
  zlen old < zlen (concat cs) ->
  exists w', run_chunks cs w = (w', None) /\ w_status w' = DUCKNNG_QK_NO_SPACE.
Proof.
  revert w pre old. induction cs as [|c cs IH]; intros w pre old Hs Hm Hd Hp Hc Hcap Hb Hl; cbn [run_chunks].
  - rewrite concat_nil, zlen_nil in Hl. pose proof (zlen_nonneg old). lia.
  - rewrite concat_cons, zlen_app in *. pose proof (zlen_nonneg c). pose proof (zlen_nonneg (concat cs)).
    pose proof (zlen_nonneg pre). unfold qk_bind.
    destruct (Z.leb_spec (zlen c) (zlen old)) as [Hle|Hgt].
    + rewrite (write_bytes_fixed _ _ pre old) by (done || rewrite ?zlen_app; lia).
      rewrite (proj2 (Z.leb_le _ _) Hle).
      apply (IH _ (pre ++ c) (zdrop (zlen c) old)); cbn [advance w_status w_mode w_data w_position w_capacity];
        try done; rewrite ?zlen_app, ?zlen_zdrop in * by lia; try lia. by rewrite app_assoc.
    + rewrite write_bytes_no_space by (done || lia). by eexists.
Qed.

(** *** Readers consume images *)

(** [m] reads exactly [img] at the cursor, whatever surrounds it. *)
Definition reads {A} (m : qk ducknng_qk_reader A) (img : bytes) (a : A) : Prop :=
  forall pre post k,
    m (mk_reader (Some (pre ++ img ++ post)) (zlen (pre ++ img ++ post)) (zlen pre) k DUCKNNG_QK_OK)
    = (mk_reader (Some (pre ++ img ++ post)) (zlen (pre ++ img ++ post)) (zlen pre + zlen img) k
         DUCKNNG_QK_OK, Some a).

Lemma reads_bind {A C} (m : qk ducknng_qk_reader A) (f : A -> qk ducknng_qk_reader C) i j a c :
  reads m i a -> reads (f a) j c -> reads (qk_bind m f) (i ++ j) c.
Proof.
  intros Hm Hf pre post k. unfold qk_bind. rewrite <- app_assoc. rewrite Hm.
  specialize (Hf (pre ++ i) post k).
  rewrite <- !app_assoc, (zlen_app pre i) in Hf.
  rewrite (zlen_app i j), Z.add_assoc. exact Hf.
Qed.

Lemma reads_ret {A} (a : A) : reads (qk_ret a) [] a.
Proof. intros pre post k. unfold qk_ret. by rewrite zlen_nil, Z.add_0_r. Qed.

Lemma reads_bind_ret {A C} (m : qk ducknng_qk_reader A) (f : A -> C) i a :
  reads m i a -> reads (bind! x := m in qk_ret (f x)) i (f a).
Proof. intros H. rewrite <- (app_nil_r i). eapply reads_bind; [done|]. apply reads_ret. Qed.

Lemma need_ok n data len off k :
  off <= len -> n <= len - off ->
  ducknng_qk_reader_need n (mk_reader data len off k DUCKNNG_QK_OK)
  = (mk_reader data len off k DUCKNNG_QK_OK, Some tt).
Proof.
  intros. unfold ducknng_qk_reader_need. cbn [r_status r_len r_off].
  rewrite bool_decide_eq_true_2 by done. cbn [negb].
  destruct (Z.ltb_spec len off), (Z.ltb_spec (len - off) n); simpl; lia || done.
Qed.

Lemma reads_u8 b : reads ducknng_qk_read_u8 [b] b.
Proof.
  intros pre post k. unfold ducknng_qk_read_u8, qk_bind.
  assert (zlen (pre ++ [b] ++ post) = zlen pre + 1 + zlen post) as Hl
    by (rewrite !zlen_app, zlen_cons, zlen_nil; lia).
  pose proof (zlen_nonneg post).
  rewrite need_ok by lia. unfold r_advance, r_at. simpl r_data. do 2 f_equal.
  unfold default, id. rewrite byte_at_app_r, Z.sub_diag by (simpl; lia). done.
Qed.

Lemma reads_boolean b : 0 <= b <= 1 -> reads ducknng_qk_read_boolean [b] b.
Proof.
  intros H. change [b] with ([b] ++ []). eapply reads_bind; [apply reads_u8|].
  destruct (Z.ltb_spec 1 b); [lia|apply reads_ret].
Qed.

Lemma reads_u16 v : 0 <= v <= UINT16_MAX -> reads ducknng_qk_read_u16le [v mod 256; v / 256] v.
Proof.
  intros Hv pre post k. unfold UINT16_MAX in Hv.
  unfold ducknng_qk_read_u16le, ducknng_qk_peek_u16le. rewrite qk_bind_assoc. unfold qk_bind.
  set (img := [v mod 256; v / 256]).
  assert (zlen img = 2) as Hi by done.
  assert (zlen (pre ++ img ++ post) = zlen pre + 2 + zlen post) as Hl
    by (rewrite !zlen_app; lia).
  pose proof (zlen_nonneg post). pose proof (zlen_nonneg pre).
  rewrite need_ok by lia. unfold r_advance, r_at. cbn [r_data r_off r_len r_materialized_values r_status].
  unfold default, id. rewrite (byte_at_app_r _ _ (zlen pre)), (byte_at_app_r _ _ (zlen pre + 1)), Z.sub_diag by lia.
  replace (zlen pre + 1 - zlen pre) with 1 by lia. do 2 f_equal.
  change (byte_at (img ++ post) 0) with (v mod 256).
  change (byte_at (img ++ post) 1) with (v / 256).
  assert (u16 (Z.shiftl (v / 256) 8) = Z.shiftl (v / 256) 8) as ->.
  { unfold u16. rewrite Z.shiftl_mul_pow2 by lia. apply Z.mod_small.
    change (2 ^ 8) with 256. Z.div_mod_to_equations; lia. }
  rewrite lor_shiftl_add by (Z.div_mod_to_equations; lia). change (2 ^ 8) with 256.
  Z.div_mod_to_equations; lia.
Qed.

(** The continuation bit of a group byte. *)
Lemma group_last g : 0 <= g < 128 -> Z.land g 0x80 = 0 /\ Z.land g 0x7f = g.
Proof.
  intros H. assert (is_byte g) as Hb by (unfold is_byte; lia).
  apply (byte_forall (fun g => implb (g <? 128) ((Z.land g 0x80 =? 0) && (Z.land g 0x7f =? g))%bool))
    in Hb; [|by vm_compute].
  destruct (Z.ltb_spec g 128); [|lia]. simpl in Hb. by btests.
Qed.

Lemma group_more g : 0 <= g < 128 -> Z.land (g + 128) 0x80 = 128 /\ Z.land (g + 128) 0x7f = g.
Proof.
  intros H. assert (is_byte g) as Hb by (unfold is_byte; lia).
  apply (byte_forall (fun g => implb (g <? 128)
    ((Z.land (g + 128) 0x80 =? 128) && (Z.land (g + 128) 0x7f =? g))%bool))
    in Hb; [|by vm_compute].
  destruct (Z.ltb_spec g 128); [|lia]. simpl in Hb. by btests.
Qed.

(** At shift 63 only the payload's low bit may be set. *)
Lemma group_top g : 0 <= g < 2 -> Z.land g 0x7e = 0 /\ Z.land (g + 128) 0x7e = 0.
Proof. intros H. assert (g = 0 \/ g = 1) as [-> | ->] by lia; done. Qed.

Lemma accumulate acc g shift :
  0 <= shift <= 63 -> 0 <= acc < 2 ^ shift -> 0 <= g -> g < 2 ^ (64 - shift) ->
  Z.lor acc (u64 (Z.shiftl g shift)) = acc + g * 2 ^ shift.
Proof.
  intros Hs Ha Hg Hl.
  assert (u64 (Z.shiftl g shift) = Z.shiftl g shift) as ->; [|by apply lor_shiftl_add; lia].
  rewrite Z.shiftl_mul_pow2 by lia. apply u64_small.
  assert (2 ^ 64 = 2 ^ (64 - shift) * 2 ^ shift) as E by (rewrite <- Z.pow_add_r by lia; f_equal; lia).
  assert (0 < 2 ^ shift) by (apply Z.pow_pos_nonneg; lia).
  unfold UINT64_MAX. change (2 ^ 64) with 18446744073709551616 in E. nia.
Qed.

Lemma reads_uleb n fuel acc v shift :
  0 <= shift <= 63 -> shift + 7 * Z.of_nat fuel = 77 -> (shift <= 63 -> 64 <= shift + 7 * Z.of_nat n) ->
  0 <= acc < 2 ^ shift -> 0 <= v < 2 ^ (64 - shift) ->
  reads (qk_read_uleb128_loop fuel acc shift) (uleb_bytes n v) (acc + v * 2 ^ shift).
Proof.
  revert fuel acc v shift. induction n as [|n IH]; intros fuel acc v shift Hs Hf Hn Ha Hv; [lia|].
  destruct fuel as [|fuel]; [lia|]. cbn [qk_read_uleb128_loop uleb_bytes].
  destruct (Z.leb_spec 64 shift); [lia|]. pose proof (Z.mod_pos_bound v 128 eq_refl) as Hm.
  pose proof (Z.mod_le v 128) as Hmle.
  assert (shift = 63 -> v < 2) as Htop by (intros ->; lia).
  destruct (Z.eqb_spec (v / 128) 0) as [Hz|Hz].
  - change ([v mod 128]) with ([v mod 128] ++ []). eapply reads_bind; [apply reads_u8|].
    destruct (group_last (v mod 128)) as [E1 E2]; [lia|].
    assert (((shift =? 63) && negb (Z.land (v mod 128) 0x7e =? 0))%bool = false) as ->.
    { destruct (Z.eqb_spec shift 63); [|done]. destruct (group_top (v mod 128)) as [-> _]; [lia|done]. }
    rewrite E1, E2, Z.eqb_refl, accumulate by lia.
    assert (v mod 128 = v) as -> by (Z.div_mod_to_equations; lia). apply reads_ret.
  - change (?x :: ?l) with ([x] ++ l). eapply reads_bind; [apply reads_u8|].
    assert (128 <= v) as Hge by (Z.div_mod_to_equations; lia).
    assert (shift <= 56) as Hs'.
    { destruct (Z.le_gt_cases shift 56); [done|].
      assert (2 ^ (64 - shift) <= 2 ^ 7) by (apply Z.pow_le_mono_r; lia). lia. }
    destruct (group_more (v mod 128)) as [E1 E2]; [lia|].
    destruct (Z.eqb_spec shift 63); [lia|]. cbn [andb].
    rewrite E1, E2, accumulate by lia. change (128 =? 0) with false. cbv iota.
    assert (2 ^ (64 - shift) = 2 ^ (64 - (shift + 7)) * 128) as Ep.
    { change 128 with (2 ^ 7). rewrite <- Z.pow_add_r by lia. f_equal. lia. }
    assert (2 ^ (shift + 7) = 2 ^ shift * 128) as Eq by (by rewrite Z.pow_add_r by lia).
    replace (acc + v * 2 ^ shift) with ((acc + v mod 128 * 2 ^ shift) + v / 128 * 2 ^ (shift + 7)).
    2:{ rewrite Eq. pose proof (Z.div_mod v 128). nia. }
    apply IH; try lia.
    + rewrite Eq. nia.
    + rewrite Ep in Hv. Z.div_mod_to_equations; lia.
Qed.

Lemma reads_uleb128 v :
  0 <= v <= UINT64_MAX -> reads ducknng_qk_read_uleb128 (uleb_bytes 10 v) v.
Proof.
  intros Hv. unfold UINT64_MAX in Hv.
  replace v with (0 + v * 2 ^ 0) at 2 by lia. apply reads_uleb; simpl; lia.
Qed.

Lemma reads_counted b : zlen b <= SIZE_MAX ->
  reads ducknng_qk_read_counted (uleb_bytes 10 (zlen b) ++ b) b.
Proof.
  intros Hb. pose proof (zlen_nonneg b).
  eapply reads_bind; [by apply reads_uleb128|]. destruct (Z.ltb_spec SIZE_MAX (zlen b)); [lia|].
  intros pre post k. unfold qk_bind.
  rewrite need_ok by (rewrite !zlen_app; pose proof (zlen_nonneg post); lia).
  unfold r_advance. cbn [r_data r_off r_len r_materialized_values r_status default]. unfold id.
  by rewrite zdrop_app, ztake_app.
Qed.

(** *** Signed groups *)

Lemma shift_cases (shift : Z) (fuel : nat) :
  0 <= shift <= 63 -> shift + 7 * Z.of_nat fuel = 77 ->
  In (shift, fuel) [(0, 11%nat); (7, 10%nat); (14, 9%nat); (21, 8%nat); (28, 7%nat);
                    (35, 6%nat); (42, 5%nat); (49, 4%nat); (56, 3%nat); (63, 2%nat)].
Proof.
  intros H1 H2. assert (fuel = Z.to_nat ((77 - shift) / 7)) as -> by (Z.div_mod_to_equations; lia).
  assert (shift = 0 \/ shift = 7 \/ shift = 14 \/ shift = 21 \/ shift = 28 \/ shift = 35 \/
          shift = 42 \/ shift = 49 \/ shift = 56 \/ shift = 63) as Hs by lia.
  intuition subst; simpl; auto 20.
Qed.

Definition sign_extend (t : Z * Z * Z) : Z :=
  let '(bits, shift, byte) := t in
  if ((shift <? 63) && negb (Z.land byte 0x40 =? 0))%bool
  then Z.lor bits (u64 (Z.shiftl UINT64_MAX (shift + 7))) else bits.

(** The last group carries the value's sign. *)
Lemma sign_extend_last acc v shift fuel :
  0 <= shift <= 63 -> shift + 7 * Z.of_nat fuel = 77 ->
  0 <= acc < 2 ^ shift -> - 2 ^ (63 - shift) <= v < 2 ^ (63 - shift) -> -64 <= v < 64 ->
  to_int64 (sign_extend (Z.lor acc (u64 (Z.shiftl (v mod 128) shift)), shift, v mod 128))
  = acc + v * 2 ^ shift.
Proof.
  intros Hs Hf Ha Hv Hr. unfold sign_extend. pose proof (Z.mod_pos_bound v 128 eq_refl).
  rewrite sleb_more by (unfold is_byte; lia).
  destruct (Z.leb_spec 64 (v mod 128)) as [Hm|Hm].
  - assert (v mod 128 = v + 128) as Em by (Z.div_mod_to_equations; lia). rewrite Em in *.
    assert (v < 0) by (Z.div_mod_to_equations; lia). rewrite andb_true_r.
    destruct (Z.ltb_spec shift 63) as [Hlt|Hge].
    + destruct (shift_cases shift fuel Hs Hf) as [E|[E|[E|[E|[E|[E|[E|[E|[E|[E|[]]]]]]]]]]];
        injection E as <- <-; try lia;
        (rewrite (accumulate acc (v + 128)) by (simpl in *; lia);
         match goal with |- context [u64 ?x] => let y := eval vm_compute in (u64 x) in change (u64 x) with y end;
         match goal with |- context [Z.lor ?a ?c] =>
           match goal with |- context [_ * 2 ^ ?s] =>
             let k := eval vm_compute in (Z.shiftr c (s + 7)) in
             change c with (Z.shiftl k (s + 7)); rewrite (lor_shiftl_add a k (s + 7)) by (simpl in *; lia)
           end end; simpl in *; unfold to_int64, INT64_MAX; destruct (_ <=? _) eqn:?; btests; lia).
    + assert (shift = 63) as -> by lia. assert (v = -1) as -> by (simpl in *; lia).
      change (u64 (Z.shiftl (-1 + 128) 63)) with (Z.shiftl 1 63).
      rewrite lor_shiftl_add by (simpl in *; lia). simpl in *.
      unfold to_int64, INT64_MAX. destruct (_ <=? _) eqn:?; btests; lia.
  - assert (0 <= v) by (Z.div_mod_to_equations; lia).
    assert (v mod 128 = v) as -> by (Z.div_mod_to_equations; lia). rewrite andb_false_r.
    assert (2 ^ (64 - shift) = 2 ^ (63 - shift) * 2) as Ep.
    { change 2 with (2 ^ 1) at 3. rewrite <- Z.pow_add_r by lia. f_equal. lia. }
    rewrite accumulate by lia.
    assert (2 ^ 63 = 2 ^ (63 - shift) * 2 ^ shift) as E by (rewrite <- Z.pow_add_r by lia; f_equal; lia).
    unfold to_int64, INT64_MAX. change (2 ^ 63) with 9223372036854775808 in E.
    destruct (_ <=? _) eqn:?; btests; nia.
Qed.

Lemma reads_sleb n fuel acc v shift :
  0 <= shift <= 63 -> shift + 7 * Z.of_nat fuel = 77 -> 64 <= shift + 7 * Z.of_nat n ->
  0 <= acc < 2 ^ shift -> - 2 ^ (63 - shift) <= v < 2 ^ (63 - shift) ->
  exists t, reads (qk_read_sleb128_loop fuel acc shift) (sleb_bytes n v) t /\
    to_int64 (sign_extend t) = acc + v * 2 ^ shift.
Proof.
  revert fuel acc v shift. induction n as [|n IH]; intros fuel acc v shift Hs Hf Hn Ha Hv; [lia|].
  destruct fuel as [|fuel]; [lia|]. cbn [qk_read_sleb128_loop sleb_bytes].
  destruct (Z.leb_spec 64 shift); [lia|]. pose proof (Z.mod_pos_bound v 128 eq_refl) as Hm.
  destruct ((-64 <=? v) && (v <? 64))%bool eqn:Hlast.
  - btests. eexists. split; [|by eapply (sign_extend_last acc v shift (S fuel))].
    change ([v mod 128]) with ([v mod 128] ++ []). eapply reads_bind; [apply reads_u8|].
    destruct (group_last (v mod 128)) as [E1 E2]; [lia|]. rewrite E1, E2.
    assert (((shift =? 63) && negb (v mod 128 =? 0) && negb (v mod 128 =? 0x7f))%bool = false) as ->.
    { destruct (Z.eqb_spec shift 63) as [->|]; [|done].
      assert (v = 0 \/ v = -1) as [-> | ->] by (simpl in Hv; lia); done. }
    rewrite Z.eqb_refl. apply reads_ret.
  - assert (v < -64 \/ 64 <= v) as Hbig.
    { apply andb_false_iff in Hlast. rewrite Z.leb_gt, Z.ltb_ge in Hlast. lia. }
    assert (shift <= 56) as Hs'.
    { destruct (Z.le_gt_cases shift 56); [done|].
      assert (2 ^ (63 - shift) <= 2 ^ 6) by (apply Z.pow_le_mono_r; lia). lia. }
    assert (2 ^ (63 - shift) = 2 ^ (63 - (shift + 7)) * 128) as Ep.
    { change 128 with (2 ^ 7). rewrite <- Z.pow_add_r by lia. f_equal. lia. }
    assert (2 ^ (shift + 7) = 2 ^ shift * 128) as Eq by (by rewrite Z.pow_add_r by lia).
    assert (2 ^ 7 < 2 ^ (64 - shift)) by (apply Z.pow_lt_mono_r; lia).
    destruct (group_more (v mod 128)) as [E1 E2]; [lia|].
    destruct (IH fuel (acc + v mod 128 * 2 ^ shift) (v / 128) (shift + 7)) as (t & Ht & Et);
      [lia|lia|lia|rewrite Eq; nia|rewrite Ep in Hv; Z.div_mod_to_equations; lia|].
    exists t. split.
    + change (?x :: ?l) with ([x] ++ l). eapply reads_bind; [apply reads_u8|].
      destruct (Z.eqb_spec shift 63); [lia|]. cbn [andb].
      rewrite E1, E2, accumulate by (simpl in *; lia). exact Ht.
    + rewrite Et, Eq. pose proof (Z.div_mod v 128). nia.
Qed.

Lemma reads_sleb128 v :
  INT64_MIN <= v <= INT64_MAX -> reads ducknng_qk_read_sleb128 (sleb_bytes 10 v) v.
Proof.
  intros Hv. unfold INT64_MIN, INT64_MAX in Hv.
  destruct (reads_sleb 10 11 0 v 0) as ([[bits shift] byte] & Ht & Et); try (simpl; lia).
  replace (0 + v * 2 ^ 0) with v in Et by lia. rewrite <- Et at 2. rewrite <- (app_nil_r (sleb_bytes 10 v)).
  eapply reads_bind; [exact Ht|]. apply reads_ret.
Qed.

Lemma reads_value x : value_wf x -> reads (qk_read (kind_of x)) (value_image x) x.
Proof.
  destruct x; cbn [value_wf kind_of qk_read value_image]; intros H;
    apply (reads_bind_ret _ _ _ _);
    auto using reads_u8, reads_boolean, reads_u16, reads_uleb128, reads_sleb128, reads_counted.
Qed.

Lemma reads_script xs :
  Forall value_wf xs -> reads (read_script (kind_of <$> xs)) (script_image xs) xs.
Proof.
  induction 1 as [|x xs Hx Hxs IH]; [apply reads_ret|].
  unfold script_image. rewrite bind_cons. cbn [fmap list_fmap read_script].
  eapply reads_bind; [by apply reads_value|]. by apply (reads_bind_ret _ (cons x)).
Qed.

(** ** Readers never leave the buffer *)

(** From a healthy reader, [m] keeps the buffer, moves the cursor forward
    within it, and fails exactly by recording an error status. *)
Definition reader_safe {A} (m : qk ducknng_qk_reader A) (P : A -> Prop) : Prop :=
  forall r, r_status r = DUCKNNG_QK_OK -> 0 <= r_off r <= r_len r ->
    all_bytes (default [] (r_data r)) ->
    let (r', o) := m r in
    r_data r' = r_data r /\ r_len r' = r_len r /\ r_off r <= r_off r' <= r_len r /\
    match o with
    | Some a => r_status r' = DUCKNNG_QK_OK /\ P a
    | None => r_status r' <> DUCKNNG_QK_OK
    end.

Lemma safe_bind {A C} (m : qk ducknng_qk_reader A) (f : A -> qk ducknng_qk_reader C) P Q :
  reader_safe m P -> (forall a, P a -> reader_safe (f a) Q) -> reader_safe (qk_bind m f) Q.
Proof.
  intros Hm Hf r Hs Ho Hb. specialize (Hm r Hs Ho Hb). unfold qk_bind.
  destruct (m r) as [r1 [a|]]; [|done]. destruct Hm as (Hd & Hl & Ho1 & Hs1 & HP).
  rewrite <- Hd in Hb. specialize (Hf a HP r1 Hs1 ltac:(lia) Hb).
  destruct (f a r1) as [r2 o]. rewrite Hd, Hl in Hf.
  destruct Hf as (? & ? & ? & ?). repeat (split; [done || lia|]). done.
Qed.

Lemma safe_ret {A} (a : A) (P : A -> Prop) : P a -> reader_safe (qk_ret a) P.
Proof. intros HP r Hs Ho Hb. simpl. repeat (split; [done || lia|]). done. Qed.

Lemma safe_fail {A} st (P : A -> Prop) :
  st <> DUCKNNG_QK_OK -> reader_safe (ducknng_qk_reader_fail st) P.
Proof. intros HP r Hs Ho Hb. simpl. repeat (split; [done || lia|]). done. Qed.

Lemma safe_need_then {A} n (f : ducknng_qk_reader -> A) (P : A -> Prop) :
  0 <= n -> (forall r, all_bytes (default [] (r_data r)) -> P (f r)) ->
  reader_safe (bind! _ := ducknng_qk_reader_need n in fun r => (r_advance n r, Some (f r))) P.
Proof.
  intros Hn HP r Hs Ho Hb. unfold qk_bind, ducknng_qk_reader_need.
  rewrite Hs, bool_decide_eq_true_2 by done. cbn [negb].
  destruct (Z.ltb_spec (r_len r) (r_off r)); [lia|]. cbn [orb].
  destruct (Z.ltb_spec (r_len r - r_off r) n); simpl.
  - repeat (split; [done || lia|]). done.
  - repeat (split; [done || lia|]). auto.
Qed.

Lemma safe_u8 : reader_safe ducknng_qk_read_u8 is_byte.
Proof. apply safe_need_then; [lia|]. intros r Hb. unfold r_at. auto with duck. Qed.

Lemma lor_lt a b n : 0 <= n -> 0 <= a < 2 ^ n -> 0 <= b < 2 ^ n -> 0 <= Z.lor a b < 2 ^ n.
Proof.
  intros Hn Ha Hb. rewrite <- (Z.mod_small a (2 ^ n)), <- (Z.mod_small b (2 ^ n)) by lia.
  rewrite <- !Z.land_ones, <- Z.land_lor_distr_l, Z.land_ones by lia.
  apply Z.mod_pos_bound. lia.
Qed.

Lemma u64_range z : 0 <= u64 z <= UINT64_MAX.
Proof. unfold u64, UINT64_MAX. pose proof (Z.mod_pos_bound z 18446744073709551616). lia. Qed.

Lemma lor_u64 a z : 0 <= a <= UINT64_MAX -> 0 <= Z.lor a (u64 z) <= UINT64_MAX.
Proof.
  intros Ha. pose proof (u64_range z). pose proof (lor_lt a (u64 z) 64) as H0.
  unfold UINT64_MAX in *. change (2 ^ 64) with 18446744073709551616 in H0. lia.
Qed.

Lemma safe_uleb fuel acc shift :
  0 <= acc <= UINT64_MAX -> 70 < shift + 7 * Z.of_nat fuel -> 0 < Z.of_nat fuel ->
  reader_safe (qk_read_uleb128_loop fuel acc shift) (fun v => 0 <= v <= UINT64_MAX).
Proof.
  revert acc shift. induction fuel as [|fuel IH]; intros acc shift Ha Hf Hp; [lia|].
  cbn [qk_read_uleb128_loop]. destruct (Z.leb_spec 64 shift); [by apply safe_fail|].
  eapply safe_bind; [apply safe_u8|]. intros b Hb.
  destruct (_ && _)%bool eqn:E; [by apply safe_fail|].
  pose proof (lor_u64 acc (Z.shiftl (Z.land b 0x7f) shift) Ha).
  destruct (Z.land b 0x80 =? 0); [by apply safe_ret|].
  apply IH; lia.
Qed.

Lemma safe_sleb fuel acc shift :
  0 <= acc <= UINT64_MAX -> 70 < shift + 7 * Z.of_nat fuel -> 0 < Z.of_nat fuel ->
  reader_safe (qk_read_sleb128_loop fuel acc shift) (fun t => 0 <= t.1.1 <= UINT64_MAX).
Proof.
  revert acc shift. induction fuel as [|fuel IH]; intros acc shift Ha Hf Hp; [lia|].
  cbn [qk_read_sleb128_loop]. destruct (Z.leb_spec 64 shift); [by apply safe_fail|].
  eapply safe_bind; [apply safe_u8|]. intros b Hb.
  destruct (_ && _)%bool eqn:E; [by apply safe_fail|].
  pose proof (lor_u64 acc (Z.shiftl (Z.land b 0x7f) shift) Ha).
  destruct (Z.land b 0x80 =? 0); [by apply safe_ret|].
  apply IH; lia.
Qed.

Lemma safe_uleb128 : reader_safe ducknng_qk_read_uleb128 (fun v => 0 <= v <= UINT64_MAX).
Proof. apply safe_uleb; unfold UINT64_MAX; lia. Qed.

Lemma to_int64_range z : 0 <= z <= UINT64_MAX -> INT64_MIN <= to_int64 z <= INT64_MAX.
Proof.
  unfold to_int64, UINT64_MAX, INT64_MAX, INT64_MIN. intros.
  destruct (Z.leb_spec z 9223372036854775807); lia.
Qed.

Lemma reader_safe_weaken {A} (m : qk ducknng_qk_reader A) (P Q : A -> Prop) :
  reader_safe m P -> (forall a, P a -> Q a) -> reader_safe m Q.
Proof.
  intros Hm HPQ r Hs Ho Hb. specialize (Hm r Hs Ho Hb). destruct (m r) as [r' [a|]]; [|done].
  destruct Hm as (? & ? & ? & ? & ?). auto 10.
Qed.

Lemma safe_read k : reader_safe (qk_read k) (fun x => value_wf x /\ kind_of x = k).
Proof.
  destruct k; cbn [qk_read].
  - eapply safe_bind; [apply safe_u8|]. intros. by apply safe_ret.
  - eapply safe_bind with (P := fun v => 0 <= v <= 1); [|intros; by apply safe_ret].
    eapply safe_bind; [apply safe_u8|]. intros v Hv.
    destruct (Z.ltb_spec 1 v); [by apply safe_fail|]. apply safe_ret. unfold is_byte in Hv. lia.
  - eapply safe_bind with (P := fun v => 0 <= v <= UINT16_MAX); [|intros; by apply safe_ret].
    unfold ducknng_qk_read_u16le. intros r. unfold ducknng_qk_peek_u16le. rewrite qk_bind_assoc. revert r.
    apply (safe_need_then 2 (fun r => Z.lor (r_at r (r_off r)) (u16 (Z.shiftl (r_at r (r_off r + 1)) 8)))).
    { lia. }
    intros r Hb. unfold r_at.
    pose proof (byte_at_byte _ (r_off r) Hb) as H0. unfold is_byte in H0.
    set (x := Z.shiftl _ 8). pose proof (lor_lt (byte_at (default [] (r_data r)) (r_off r)) (u16 x) 16) as H1.
    pose proof (Z.mod_pos_bound x 65536). unfold UINT16_MAX, u16 in *.
    change (2 ^ 16) with 65536 in H1. lia.
  - eapply safe_bind; [apply safe_uleb128|]. intros. by apply safe_ret.
  - eapply safe_bind with (P := fun v => INT64_MIN <= v <= INT64_MAX); [|intros; by apply safe_ret].
    eapply safe_bind; [apply safe_sleb; unfold UINT64_MAX; lia|]. intros [[bits shift] byte] Hb. simpl in Hb.
    apply safe_ret, to_int64_range. cases_goal; [by apply lor_u64|done].
  - eapply safe_bind with (P := fun b => zlen b <= SIZE_MAX); [|intros; by apply safe_ret].
    eapply safe_bind; [apply safe_uleb128|]. intros n Hn. cbv beta in Hn.
    destruct (Z.ltb_spec SIZE_MAX n); [by apply safe_fail|].
    apply (safe_need_then n (fun r => ztake n (zdrop (r_off r) (default [] (r_data r))))); [lia|].
    intros r Hb. zlen_lia.
Qed.

Lemma safe_script ks :
  reader_safe (read_script ks) (fun xs => Forall value_wf xs /\ kind_of <$> xs = ks).
Proof.
  induction ks as [|k ks IH]; [by apply safe_ret|]. cbn [read_script].
  eapply safe_bind; [apply safe_read|]. intros x [Hx Hk].
  eapply safe_bind; [apply IH|]. intros xs [Hxs Hks]. apply safe_ret.
  split; [by constructor|]. by rewrite fmap_cons, Hk, Hks.
Qed.

(** Once an error is recorded every read fails and changes nothing. *)
Lemma need_sticky n r : r_status r <> DUCKNNG_QK_OK -> ducknng_qk_reader_need n r = (r, None).
Proof.
  intros H. unfold ducknng_qk_reader_need. by rewrite bool_decide_eq_false_2.
Qed.

Lemma read_sticky k r : r_status r <> DUCKNNG_QK_OK -> qk_read k r = (r, None).
Proof.
  intros H. destruct k; cbn [qk_read];
  unfold ducknng_qk_read_boolean, ducknng_qk_read_u16le, ducknng_qk_peek_u16le,
    ducknng_qk_read_counted, ducknng_qk_read_uleb128, ducknng_qk_read_sleb128;
  cbn [qk_read_uleb128_loop qk_read_sleb128_loop Z.leb Z.compare];
  unfold ducknng_qk_read_u8, qk_bind; by rewrite need_sticky.
Qed.

(** ** Claims *)

Ltac fresh_writer :=
  cbn [ducknng_qk_writer_init_measure ducknng_qk_writer_init_fixed
    w_position w_status w_capacity w_mode w_data app];
  rewrite ?zlen_nil, ?andb_false_r; done || lia.

(** The writer's two passes agree.  For every script of well-formed
    values whose encoding fits a [size_t]: a measuring pass succeeds and
    reports exactly the encoding's length; a pass into a fixed buffer at least
    that large succeeds, stores exactly the encoding at the front and leaves
    the rest of the buffer as it was; and a pass into a smaller buffer fails
    with [DUCKNNG_QK_NO_SPACE]. *)
Theorem quack_measure_then_write xs dest :
  Forall value_wf xs -> zlen (script_image xs) <= SIZE_MAX -> zlen dest <= SIZE_MAX ->
  let measured := write_script xs ducknng_qk_writer_init_measure in
  let written := write_script xs (ducknng_qk_writer_init_fixed (Some dest) (zlen dest)) in
  measured.2 = Some tt /\
  ducknng_qk_writer_size measured.1 = zlen (script_image xs) /\
  (zlen (script_image xs) <= zlen dest ->
     written.2 = Some tt /\
     w_data written.1 = Some (script_image xs ++ zdrop (zlen (script_image xs)) dest) /\
     ducknng_qk_writer_size written.1 = ducknng_qk_writer_size measured.1) /\
  (zlen dest < zlen (script_image xs) ->
     written.2 = None /\ w_status written.1 = DUCKNNG_QK_NO_SPACE).
Proof.
  intros Hw. destruct (emits_script xs Hw) as (cs & <- & Hcs). intros Hl Hd.
  cbv zeta. rewrite !Hcs.
  rewrite run_chunks_measure by fresh_writer.
  split; [done|]. split; [done|]. split; intros Hc.
  - by rewrite (run_chunks_fixed _ _ [] dest) by fresh_writer.
  - destruct (run_chunks_no_space cs (ducknng_qk_writer_init_fixed (Some dest) (zlen dest)) [] dest)
      as (w' & -> & Hw'); fresh_writer.
Qed.

Lemma quack_measure_then_write_witness :
  Forall value_wf [QUleb 300; QSleb (-70000); QCounted [1; 2]] /\
  w_data (write_script [QUleb 300; QSleb (-70000); QCounted [1; 2]]
    (ducknng_qk_writer_init_fixed (Some (replicate 9 7)) 9)).1
  = Some (script_image [QUleb 300; QSleb (-70000); QCounted [1; 2]] ++ [7]).
Proof.
  assert (Forall value_wf [QUleb 300; QSleb (-70000); QCounted [1; 2]]) as H
    by (apply (bool_decide_unpack _); vm_compute; exact I).
  split; [exact H|].
  apply (quack_measure_then_write _ (replicate 9 7) H); vm_compute; discriminate.
Defined.

(** What the writer wrote the reader reads: any script of values, written
    into a buffer of the measured size and read back with the matching reads,
    gives the same values and leaves nothing unread.  It covers booleans,
    bytes, 16-bit fields, every [uint64_t] in ULEB128, every [int64_t] in
    SLEB128 and counted byte strings. *)
Theorem quack_script_roundtrip xs dest :
  Forall value_wf xs -> zlen (script_image xs) <= SIZE_MAX ->
  zlen dest = ducknng_qk_writer_size (write_script xs ducknng_qk_writer_init_measure).1 ->
  let w := (write_script xs (ducknng_qk_writer_init_fixed (Some dest) (zlen dest))).1 in
  let r := read_script (kind_of <$> xs) (ducknng_qk_reader_init (w_data w) (zlen dest)) in
  r.2 = Some xs /\ ducknng_qk_reader_remaining r.1 = 0 /\ r_status r.1 = DUCKNNG_QK_OK.
Proof.
  intros Hw Hl Hd. cbv zeta. destruct (emits_script xs Hw) as (cs & Ecs & Hcs).
  rewrite <- Ecs in Hl. rewrite Hcs, run_chunks_measure in Hd by fresh_writer.
  cbn in Hd. rewrite Z.add_0_l in Hd. rewrite Hcs, (run_chunks_fixed _ _ [] dest) by fresh_writer.
  cbn [fst advance w_data app]. rewrite <- Hd.
  assert (zdrop (zlen dest) dest = []) as -> by (unfold zdrop; apply drop_ge; unfold zlen; lia).
  rewrite Ecs in *. unfold ducknng_qk_reader_init. rewrite (bool_decide_eq_false_2 (Some _ = None)), andb_false_r by done.
  pose proof (reads_script xs Hw [] [] 0) as H. cbn [app] in H. rewrite app_nil_r in *.
  rewrite <- Hd in H. change (zlen []) with 0 in H.
  rewrite H. unfold ducknng_qk_reader_remaining. cbn [fst snd r_len r_off r_status].
  split; [done|]. split; [|done]. cases_goal; lia.
Qed.

Lemma quack_script_roundtrip_witness :
  Forall value_wf [QUleb UINT64_MAX; QSleb INT64_MIN; QU16 513] /\
  (read_script [KUleb; KSleb; KU16]
     (ducknng_qk_reader_init
       (w_data (write_script [QUleb UINT64_MAX; QSleb INT64_MIN; QU16 513]
          (ducknng_qk_writer_init_fixed (Some (replicate 22 0)) 22)).1) 22)).2
  = Some [QUleb UINT64_MAX; QSleb INT64_MIN; QU16 513].
Proof.
  assert (Forall value_wf [QUleb UINT64_MAX; QSleb INT64_MIN; QU16 513]) as H
    by (apply (bool_decide_unpack _); vm_compute; exact I).
  split; [exact H|].
  apply (quack_script_roundtrip _ (replicate 22 0) H); vm_compute; [discriminate|reflexivity].
Defined.

(** Reading arbitrary bytes is safe.  Any sequence of reads over any
    buffer keeps the cursor inside the buffer and moving forward, and either
    succeeds with values of the requested kinds and in their ranges, or fails
    with an error status recorded in the reader, after which every further
    read fails without changing the reader. *)
Theorem quack_reads_safe ks data k :
  all_bytes data ->
  let (r, o) := read_script ks (ducknng_qk_reader_init (Some data) (zlen data)) in
  r_data r = Some data /\ 0 <= r_off r <= zlen data /\
  match o with
  | Some xs => Forall value_wf xs /\ kind_of <$> xs = ks /\ r_status r = DUCKNNG_QK_OK
  | None => r_status r <> DUCKNNG_QK_OK /\ qk_read k r = (r, None)
  end.
Proof.
  intros Hb. pose proof (zlen_nonneg data).
  assert (ducknng_qk_reader_init (Some data) (zlen data)
          = mk_reader (Some data) (zlen data) 0 0 DUCKNNG_QK_OK) as ->
    by (unfold ducknng_qk_reader_init; by rewrite andb_false_r).
  set (r0 := mk_reader _ _ _ _ _).
  pose proof (safe_script ks r0 eq_refl ltac:(simpl; lia) Hb) as H0.
  destruct (read_script ks r0) as [r [xs|]]; destruct H0 as (? & ? & ? & H0);
    cbn [r_len r_off r_data r0] in *.
  - destruct H0 as (? & ? & ?). by repeat (split; [done || lia|]).
  - repeat (split; [done || lia|]). by apply read_sticky.
Qed.

Lemma quack_reads_safe_witness :
  all_bytes [0x85; 0x80] /\
  (let (r, o) := read_script [KUleb; KU8] (ducknng_qk_reader_init (Some [0x85; 0x80]) 2) in
   o = None /\ r_status r = DUCKNNG_QK_TRUNCATED /\ 0 <= r_off r <= 2).
Proof.
  assert (all_bytes [0x85; 0x80]) as H by (apply (bool_decide_unpack _); vm_compute; exact I).
  split; [exact H|].
  pose proof (quack_reads_safe [KUleb; KU8] [0x85; 0x80] KU8 H) as (_ & Ho & _).
  vm_compute. split; [reflexivity|]. split; [reflexivity|]. exact Ho.
Defined.

(** ** Type equality decides structural identity *)

(** What a type tree denotes: ids and parameters, the labels of an enum and
    the named children, with NULL names read as empty ones and the column's own
    name left out. *)
Inductive type_key :=
  TKey (id width scale size count : Z) (labels : list bytes) (kids : list (bytes * type_key)).

Section kids.
Context (key : schema -> type_key) (names : option (list (option bytes))).

Fixpoint kids_of (n i : nat) (l : list (option schema)) {struct l} : list (bytes * type_key) :=
  match n, l with
  | S n, Some x :: l => (name_at names i, key x) :: kids_of n (S i) l
  | _, _ => []
  end.
End kids.

Definition labels_of (t : schema) : list bytes :=
  name_at (enum_labels t) <$> seq 0 (Z.to_nat (enum_count t)).

Fixpoint key_of (t : schema) : type_key :=
  TKey (logical_type_id t) (decimal_width t) (decimal_scale t) (array_size t) (enum_count t)
    (labels_of t)
    (match children t with
     | Some l => kids_of key_of (child_names t) (Z.to_nat (nchildren t)) O l
     | None => []
     end).

(** The pointer arrays hold what their counts announce. *)
Inductive schema_wf : schema -> Prop :=
| schema_wf_node t cs :
    0 <= enum_count t -> (0 < enum_count t -> enum_labels t <> None) ->
    nchildren t = zlen cs ->
    (children t = Some (Some <$> cs) \/ (children t = None /\ cs = [])) ->
    Forall schema_wf cs -> schema_wf t.

Lemma schema_wf_strong (P : schema -> Prop) :
  (forall t cs, 0 <= enum_count t -> (0 < enum_count t -> enum_labels t <> None) ->
    nchildren t = zlen cs ->
    (children t = Some (Some <$> cs) \/ (children t = None /\ cs = [])) ->
    Forall schema_wf cs -> Forall P cs -> P t) ->
  forall t, schema_wf t -> P t.
Proof.
  intros Hstep. fix IH 2. intros t Ht. destruct Ht as [t cs H1 H2 H3 H4 H5].
  eapply Hstep; eauto. clear -IH H5. induction H5; constructor; auto.
Qed.

Lemma labels_equal_spec n a b :
  labels_equal n a b = true <-> name_at a <$> seq 0 n = name_at b <$> seq 0 n.
Proof.
  unfold labels_equal. rewrite forallb_forall. generalize (seq 0 n) as l. clear n.
  induction l as [|x l IH]; [done|]. rewrite !fmap_cons. split.
  - intros H. f_equal; [by apply str_eq_true, H; left|apply IH; intros; apply H; by right].
  - intros [= H1 H2] y [<-|Hy]; [by apply str_eq_true|by apply IH].
Qed.

Lemma children_equal_spec na nb cs ds i :
  Forall (fun c => forall d, schema_wf d -> ducknng_qk_type_equal c d = true <-> key_of c = key_of d) cs ->
  Forall schema_wf ds -> length cs = length ds ->
  children_equal ducknng_qk_type_equal na nb (length cs) i (Some <$> cs) (Some <$> ds) = true <->
  kids_of key_of na (length cs) i (Some <$> cs) = kids_of key_of nb (length ds) i (Some <$> ds).
Proof.
  intros Hc. revert i ds. induction Hc as [|c cs Hc Hcs IH]; intros i [|d ds] Hd Hlen; try done.
  apply Forall_cons in Hd as [Hd Hds]. simpl in Hlen.
  rewrite !length_cons, !fmap_cons. cbn [children_equal kids_of].
  destruct (str_eq _ _) eqn:E; cbn [negb].
  - apply str_eq_true in E. rewrite E.
    specialize (Hc d Hd). specialize (IH (S i) ds Hds ltac:(lia)).
    destruct (ducknng_qk_type_equal c d) eqn:Et.
    + rewrite IH. assert (key_of c = key_of d) as -> by tauto. split; [by intros ->|by intros [=]].
    + split; [done|]. intros [= Hk _]. by apply Hc in Hk.
  - apply str_eq_false in E. split; [done|]. by intros [= Hk _ _].
Qed.

Lemma key_of_unfold t :
  key_of t = TKey (logical_type_id t) (decimal_width t) (decimal_scale t)
    (array_size t) (enum_count t) (labels_of t)
    (match children t with
     | Some l => kids_of key_of (child_names t) (Z.to_nat (nchildren t)) O l
     | None => [] end).
Proof. by destruct t. Qed.

Lemma kids_length nm l i : length (kids_of key_of nm (length l) i (Some <$> l)) = length l.
Proof.
  revert i. induction l as [|x l IH]; intros; [done|].
  rewrite fmap_cons, length_cons. cbn [kids_of]. by rewrite length_cons, IH.
Qed.

Lemma labels_present_test (n : Z) (l : option (list (option bytes))) :
  (0 < n -> l <> None) -> ((0 <? n) && bool_decide (l = None))%bool = false.
Proof. intros H. destruct (Z.ltb_spec 0 n); [|done]. by apply bool_decide_eq_false, H. Qed.

(** The tests of [ducknng_qk_type_equal] as a conjunction. *)
Lemma type_equal_unfold a b :
  (0 < enum_count a -> enum_labels a <> None) -> (0 < enum_count b -> enum_labels b <> None) ->
  ducknng_qk_type_equal a b = true <->
    logical_type_id a = logical_type_id b /\ decimal_width a = decimal_width b /\
    decimal_scale a = decimal_scale b /\ array_size a = array_size b /\
    enum_count a = enum_count b /\ nchildren a = nchildren b /\ labels_of a = labels_of b /\
    match children a, children b with
    | Some ca, Some cb => children_equal ducknng_qk_type_equal (child_names a) (child_names b)
        (Z.to_nat (nchildren a)) O ca cb
    | _, _ => negb (0 <? nchildren a)
    end = true.
Proof.
  intros Hx%labels_present_test Hy%labels_present_test.
  assert (forall ec, ec = enum_count a -> ec = enum_count b -> labels_of a = labels_of b <->
    labels_equal (Z.to_nat ec) (enum_labels a) (enum_labels b) = true) as Hlab.
  { intros ec Ea Eb. unfold labels_of. by rewrite <- Ea, <- Eb, labels_equal_spec. }
  destruct a, b; cbn [ducknng_qk_type_equal logical_type_id decimal_width decimal_scale array_size
    enum_count nchildren enum_labels children child_names] in *.
  rewrite Hx, Hy. specialize (Hlab enum_count0 eq_refl).
  repeat match goal with |- context [Z.eqb ?x ?y] =>
    destruct (Z.eqb_spec x y); cbn [negb]; [subst|by split; [done|intuition congruence]] end.
  rewrite (Hlab eq_refl).
  destruct (labels_equal _ _ _); cbn [negb]; [|by split; [done|intuition congruence]].
  tauto.
Qed.

Lemma type_equal_key a b :
  schema_wf a -> schema_wf b -> ducknng_qk_type_equal a b = true <-> key_of a = key_of b.
Proof.
  intros Ha. revert b. induction Ha as [a cs Hec Hl Hn Hc Hwf IH] using schema_wf_strong.
  intros b Hb. destruct Hb as [b ds Hec' Hl' Hn' Hd Hwf'].
  rewrite !key_of_unfold, type_equal_unfold by done. clear Hl Hl'.
  destruct Hc as [Hc|[Hc ->]], Hd as [Hd|[Hd ->]]; rewrite Hc, Hd, Hn, Hn';
    unfold zlen; rewrite ?Nat2Z.id.
  - split.
    + intros (-> & -> & -> & -> & -> & Hk & -> & H). f_equal. apply children_equal_spec; auto. lia.
    + intros [= -> -> -> -> -> -> Hk].
      assert (length cs = length ds) as Hlen by (by rewrite <- (kids_length (child_names a) cs O), Hk, kids_length).
      repeat (split; [done || lia|]). by apply children_equal_spec.
  - destruct cs; simpl; split; intros H; (done || (destruct H as (_&_&_&_&_& H &_); lia) || idtac);
      [by destruct H as (-> & -> & -> & -> & -> & _ & -> & _)|by injection H as -> -> -> -> -> ->].
  - destruct ds; simpl; split; intros H; (done || (destruct H as (_&_&_&_&_& H &_); lia) || idtac);
      [by destruct H as (-> & -> & -> & -> & -> & _ & -> & _)|by injection H as -> -> -> -> -> ->].
  - simpl. split; intros H;
      [by destruct H as (-> & -> & -> & -> & -> & _ & -> & _)|by injection H as -> -> -> -> -> ->].
Qed.

(** Type equality of Quack column trees is structural identity: on
    well-formed trees [ducknng_qk_type_equal] answers true exactly when the
    two trees denote the same type (same ids, decimal parameters, array sizes,
    enum labels and named children, recursively), so it is an equivalence. *)
Theorem type_equal_is_identity a b c :
  schema_wf a -> schema_wf b -> schema_wf c ->
  (ducknng_qk_type_equal a b = true <-> key_of a = key_of b) /\
  ducknng_qk_type_equal a a = true /\
  ducknng_qk_type_equal a b = ducknng_qk_type_equal b a /\
  (ducknng_qk_type_equal a b = true -> ducknng_qk_type_equal b c = true ->
   ducknng_qk_type_equal a c = true).
Proof.
  intros Ha Hb Hc. split; [by apply type_equal_key|]. split; [by apply type_equal_key|].
  split.
  - apply Bool.eq_iff_eq_true. rewrite !type_equal_key by done. naive_solver.
  - rewrite !type_equal_key by done. congruence.
Qed.

Definition int_leaf (name : bytes) : schema :=
  mk_schema (Some name) DUCKNNG_QUACK_LOGICAL_INTEGER 0 0 0 0 None 0 None None.
Definition pair_struct (name x y : bytes) : schema :=
  mk_schema (Some name) DUCKNNG_QUACK_LOGICAL_STRUCT 0 0 0 0 None 2
    (Some [Some (int_leaf []); Some (int_leaf [])]) (Some [Some x; Some y]).

Lemma type_equal_is_identity_witness :
  schema_wf (pair_struct (lit "c1") (lit "x") (lit "y")) /\
  ducknng_qk_type_equal (pair_struct (lit "c1") (lit "x") (lit "y"))
    (pair_struct (lit "c2") (lit "x") (lit "y")) =
  ducknng_qk_type_equal (pair_struct (lit "c2") (lit "x") (lit "y"))
    (pair_struct (lit "c1") (lit "x") (lit "y")).
Proof.
  assert (forall nm, schema_wf (int_leaf nm)) as Hi.
  { intros nm. apply schema_wf_node with []; simpl; auto; lia. }
  assert (forall nm x y, schema_wf (pair_struct nm x y)) as Hp.
  { intros nm x y. apply schema_wf_node with [int_leaf []; int_leaf []]; simpl; auto; lia. }
  split; [apply Hp|].
  apply (type_equal_is_identity _ _ (int_leaf []) (Hp _ _ _) (Hp _ _ _) (Hi _)).
Defined.

(** ** Accepted shapes can be laid out *)

Lemma forallb_seq_Some {A} (f : nat -> option A) n :
  forallb (fun i => bool_decide (f i <> None)) (seq 0 n) = true ->
  forall i, (i < n)%nat -> f i <> None.
Proof.
  rewrite forallb_forall. intros H i Hi. apply (bool_decide_eq_true_1 (f i <> None)), H.
  apply in_seq. lia.
Qed.

Ltac shape_tests H :=
  repeat match type of H with
  | (match ?x with Some _ => _ | None => _ end) = _ => destruct x eqn:?; [|discriminate H]
  | (if ?b then _ else _) = _ => destruct b eqn:?; try discriminate H
  end.

Lemma fixed_width_cases t : In (ducknng_qk_type_fixed_width t) [0; 1; 2; 4; 8; 16].
Proof. unfold ducknng_qk_type_fixed_width. cases_goal; simpl; auto 10. Qed.

(** The members of a validated struct or union. *)
Lemma members_present t m :
  (if forallb (fun i => (bool_decide (child_at t i <> None) &&
       bool_decide (mjoin (default [] (child_names t) !! i) <> None))%bool)
       (seq 0 (Z.to_nat (nchildren t))) then None else Some m) = None :> option string ->
  forall i, (i < Z.to_nat (nchildren t))%nat ->
    child_at t i <> None /\ mjoin (default [] (child_names t) !! i) <> None.
Proof.
  destruct (forallb _ _) eqn:E; [|done]. intros _ i Hi. rewrite forallb_forall in E.
  specialize (E i ltac:(apply in_seq; lia)). by btests.
Qed.

Lemma only_child t : nchildren t = 1 -> child_at t 0 <> None ->
  0 < nchildren t /\ forall i, (i < Z.to_nat (nchildren t))%nat -> child_at t i <> None.
Proof. intros E H. split; [lia|]. intros [|i] Hi; [done|lia]. Qed.

(** The id tests of the classifiers, at a known id. *)
Ltac known_id E :=
  unfold ducknng_qk_type_is_nested, ducknng_qk_type_is_varlen, ducknng_qk_type_fixed_width;
  rewrite ?E; cbn [id_in existsb].

(** A column type that passes shape validation can be encoded and
    decoded: a scalar is variable-length or has a width of 1, 2, 4, 8 or 16
    bytes; a nested type has at least one child and none of its children is
    missing; a struct or union also has every member name; an enum has every
    label of its dictionary, which has at most 2^24 entries. *)
Theorem shape_validated_is_usable t :
  0 <= nchildren t -> ducknng_qk_type_shape_validate t = None ->
  (ducknng_qk_type_is_nested t = false ->
     ducknng_qk_type_is_varlen t = true \/
     In (ducknng_qk_type_fixed_width t) [1; 2; 4; 8; 16]) /\
  (ducknng_qk_type_is_nested t = true ->
     0 < nchildren t /\
     forall i, (i < Z.to_nat (nchildren t))%nat -> child_at t i <> None) /\
  (id_in (logical_type_id t) [DUCKNNG_QUACK_LOGICAL_STRUCT; DUCKNNG_QUACK_LOGICAL_UNION] = true ->
     forall i, (i < Z.to_nat (nchildren t))%nat ->
       mjoin (default [] (child_names t) !! i) <> None) /\
  (logical_type_id t = DUCKNNG_QUACK_LOGICAL_ENUM ->
     enum_count t <= DUCKNNG_QUACK_MAX_ENUM_VALUES /\
     forall i, (i < Z.to_nat (enum_count t))%nat ->
       mjoin (default [] (enum_labels t) !! i) <> None).
Proof.
  intros Hn H. unfold ducknng_qk_type_shape_validate in H. cbv zeta in H.
  destruct (Z.eqb_spec (logical_type_id t) DUCKNNG_QUACK_LOGICAL_DECIMAL) as [E|N1].
  { known_id E. split; [|done]. intros _. right. cases_in H. btests.
    cbn. cases_goal; simpl; auto 10; btests; lia. }
  destruct (Z.eqb_spec (logical_type_id t) DUCKNNG_QUACK_LOGICAL_LIST) as [E|N2].
  { known_id E. split; [done|]. split; [|done]. intros _. cases_in H. btests. by apply only_child. }
  destruct (Z.eqb_spec (logical_type_id t) DUCKNNG_QUACK_LOGICAL_MAP) as [E|N3].
  { known_id E. split; [done|]. split; [|done]. intros _. shape_tests H. btests.
    apply only_child; [done|congruence]. }
  destruct (Z.eqb_spec (logical_type_id t) DUCKNNG_QUACK_LOGICAL_STRUCT) as [E|N4].
  { known_id E. destruct (_ || _)%bool eqn:T in H; [done|]. btests.
    pose proof (members_present t _ H) as Hm. split; [done|]. split; [|split; [|done]].
    - intros _. split; [lia|]. intros i Hi. by apply Hm.
    - intros _ i Hi. by apply Hm. }
  destruct (Z.eqb_spec (logical_type_id t) DUCKNNG_QUACK_LOGICAL_UNION) as [E|N5].
  { known_id E. destruct (child_at t 0) in H; [|done].
    destruct (_ || _)%bool eqn:T in H; [done|]. btests.
    pose proof (members_present t _ H) as Hm. split; [done|]. split; [|split; [|done]].
    - intros _. split; [lia|]. intros i Hi. by apply Hm.
    - intros _ i Hi. by apply Hm. }
  destruct (Z.eqb_spec (logical_type_id t) DUCKNNG_QUACK_LOGICAL_ENUM) as [E|N6].
  { known_id E. destruct (_ || _)%bool eqn:T in H; [done|]. btests.
    destruct (forallb _ _) eqn:F in H; [|done]. split; [|split; [done|split; [done|]]].
    - intros _. right. cbn. cases_goal; simpl; auto 10.
    - intros _. split; [lia|]. by apply forallb_seq_Some. }
  destruct (Z.eqb_spec (logical_type_id t) DUCKNNG_QUACK_LOGICAL_ARRAY) as [E|N7].
  { known_id E. split; [done|]. split; [|done]. intros _. cases_in H. btests. by apply only_child. }
  apply Z.eqb_neq in N2, N3, N4, N5, N7.
  unfold ducknng_qk_type_is_nested, id_in. cbn [existsb]. rewrite N2, N3, N4, N5, N7.
  split; [intros _|done].
  destruct (ducknng_qk_type_is_varlen t); [by left|right]. cbn in H.
  pose proof (fixed_width_cases t) as [F|F]; [|done]. by rewrite <- F in H.
Qed.

Lemma shape_validated_is_usable_witness :
  ducknng_qk_type_shape_validate (pair_struct (lit "c1") (lit "x") (lit "y")) = None /\
  0 < nchildren (pair_struct (lit "c1") (lit "x") (lit "y")).
Proof.
  split; [reflexivity|].
  apply (shape_validated_is_usable (pair_struct (lit "c1") (lit "x") (lit "y")));
    [discriminate|reflexivity|reflexivity].
Defined.
