(* ===== verification/Util.v ===== *)
(** ASCII, JSON, query-string and cookie helpers: [src/src/ducknng_util.c].

    A cursor [const char **p] is the list of characters left before the NUL.
    Scanners that return 1, 0 or -1 give [Ok (Some v)], [Ok None] and
    [Err message].  Allocation failures are not modelled.  The scanning loops
    carry fuel: every round consumes a character, so the length of the input
    is enough; [out_of_fuel] marks its exhaustion and is proved unreachable. *)

From S2P Require Import Prelude Checked.

(** ** Characters *)

(** A character constant; the double quote is [QUOTE]. *)
Definition chr (s : string) : Z := match lit s with c :: _ => c | [] => 0 end.
Definition QUOTE : Z := 34.
Definition BACKSLASH : Z := 92.

(** [*p]: the current character, NUL at the end. *)
Definition cur (p : bytes) : Z := match p with c :: _ => c | [] => 0 end.

Definition ducknng_ascii_tolower_int (c : Z) : Z :=
  if ((65 <=? c) && (c <=? 90))%bool then c + 32 else c.

Fixpoint ascii_ieq_loop (a b : bytes) : bool :=
  match a, b with
  | x :: a, y :: b =>
    if negb (ducknng_ascii_tolower_int x =? ducknng_ascii_tolower_int y) then false
    else ascii_ieq_loop a b
  | [], [] => true
  | _, _ => false
  end.

Definition ducknng_ascii_ieq (a b : option bytes) : bool :=
  match a, b with Some a, Some b => ascii_ieq_loop a b | _, _ => false end.

Fixpoint istarts_with_loop (s prefix : bytes) : bool :=
  match prefix with
  | [] => true
  | y :: prefix =>
    match s with
    | [] => false
    | x :: s =>
      if negb (ducknng_ascii_tolower_int x =? ducknng_ascii_tolower_int y) then false
      else istarts_with_loop s prefix
    end
  end.

Definition ducknng_ascii_istarts_with (s prefix : option bytes) : bool :=
  match s, prefix with Some s, Some prefix => istarts_with_loop s prefix | _, _ => false end.

Definition ducknng_ascii_iends_with (s suffix : option bytes) : bool :=
  match s, suffix with
  | Some s, Some suffix =>
    if zlen s <? zlen suffix then false
    else ducknng_ascii_ieq (Some (zdrop (zlen s - zlen suffix) s)) (Some suffix)
  | _, _ => false
  end.

Definition http_token_char (ch : Z) : bool :=
  (((65 <=? ch) && (ch <=? 90)) || ((97 <=? ch) && (ch <=? 122)) ||
   ((48 <=? ch) && (ch <=? 57)) || existsb (Z.eqb ch) (lit "!#$%&'*+-.^_`|~"))%bool.

Definition ducknng_http_token_is_valid (s : option bytes) : bool :=
  match s with
  | None | Some [] => false
  | Some s => forallb http_token_char s
  end.

Definition ducknng_http_header_value_is_valid (s : option bytes) : bool :=
  match s with
  | None => false
  | Some s => forallb (fun ch => negb ((ch <? 0x20) || (ch =? 0x7f)))%bool s
  end.

Fixpoint ducknng_json_skip_ws (p : bytes) : bytes :=
  match p with
  | c :: rest =>
    if ((c =? 32) || (c =? 9) || (c =? 13) || (c =? 10))%bool
    then ducknng_json_skip_ws rest else p
  | [] => []
  end.

Definition ducknng_hex_value (c : Z) : Z :=
  if ((48 <=? c) && (c <=? 57))%bool then c - 48 else
  let c := ducknng_ascii_tolower_int c in
  if ((97 <=? c) && (c <=? 102))%bool then 10 + (c - 97) else -1.

(** The doubling loop; 65 rounds exhaust a [size_t]. *)
Fixpoint grow_loop (fuel : nat) (need cap : Z) : Z :=
  match fuel with
  | O => cap
  | S fuel =>
    if cap <? need then
      if SIZE_MAX / 2 <? cap then need else grow_loop fuel need (cap * 2)
    else cap
  end.

Definition ducknng_grow_capacity (need current_cap min_cap : Z) : Z :=
  grow_loop 65 need
    (if negb (current_cap =? 0) then current_cap
     else if negb (min_cap =? 0) then min_cap else 1).

(** [None] is the NULL of a length overflow. *)
Definition ducknng_join_dotted_path (prefix name : option bytes) : option bytes :=
  let plen := zlen (default [] prefix) in
  let nlen := zlen (default [] name) in
  if plen =? 0 then Some (default [] name) else
  match ducknng_size_add plen nlen with
  | None => None
  | Some need =>
    match ducknng_size_add need 2 with
    | None => None
    | Some _ => Some (default [] prefix ++ lit "." ++ default [] name)
    end
  end.

Definition ducknng_format_name_error (before : string) (name : bytes) (after : string) : bytes :=
  lit before ++ name ++ lit after.

(** ** JSON strings *)

Definition hex4 (a b c d : Z) : option Z :=
  let a := ducknng_hex_value a in let b := ducknng_hex_value b in
  let c := ducknng_hex_value c in let d := ducknng_hex_value d in
  if ((a <? 0) || (b <? 0) || (c <? 0) || (d <? 0))%bool then None else
  let value := Z.lor (Z.shiftl 0 4) a in
  let value := Z.lor (Z.shiftl value 4) b in
  let value := Z.lor (Z.shiftl value 4) c in
  Some (Z.lor (Z.shiftl value 4) d).

(** The one-letter escapes of the [switch]. *)
Definition simple_escape (esc : Z) : option Z :=
  if esc =? QUOTE then Some QUOTE else
  if esc =? BACKSLASH then Some BACKSLASH else
  if esc =? chr "/" then Some (chr "/") else
  if esc =? chr "b" then Some 8 else
  if esc =? chr "f" then Some 12 else
  if esc =? chr "n" then Some 10 else
  if esc =? chr "r" then Some 13 else
  if esc =? chr "t" then Some 9 else None.

(** The body of the string, the opening quote consumed; yields the string and
    the cursor behind the closing quote. *)
Fixpoint json_string_loop (p buf : bytes) {struct p} : result bytes (bytes * bytes) :=
  match p with
  | [] => Err (lit "ducknng: unterminated JSON string")
  | c :: p =>
    if c =? QUOTE then Ok (buf, p) else
    if c <? 0x20 then Err (lit "ducknng: invalid control character in JSON string") else
    if c =? BACKSLASH then
      match p with
      | [] => Err (lit "ducknng: unterminated JSON escape")
      | esc :: p =>
        match simple_escape esc with
        | Some c => json_string_loop p (buf ++ [c])
        | None =>
          if esc =? chr "u" then
            match p with
            | h1 :: h2 :: h3 :: h4 :: p =>
              match hex4 h1 h2 h3 h4 with
              | None => Err (lit "ducknng: invalid JSON unicode escape")
              | Some value =>
                if value =? 0 then Err (lit "ducknng: JSON strings may not contain NUL") else
                if 0x7f <? value
                then Err (lit "ducknng: only ASCII JSON unicode escapes are supported")
                else json_string_loop p (buf ++ [value])
              end
            | _ => Err (lit "ducknng: invalid JSON unicode escape")
            end
          else Err (lit "ducknng: unsupported JSON escape")
        end
      end
    else json_string_loop p (buf ++ [c])
  end.

Definition ducknng_json_parse_string_dup (p : bytes) : result bytes (bytes * bytes) :=
  match p with
  | c :: p =>
    if c =? QUOTE then json_string_loop p [] else Err (lit "ducknng: expected JSON string")
  | [] => Err (lit "ducknng: expected JSON string")
  end.

Definition out_of_fuel : bytes := lit "out of fuel".

(** The update of [found] by a field that may match. *)
Definition note_match (is_match reject_duplicates : bool) (found : option bytes)
    (value duplicate : bytes) : result bytes (option bytes) :=
  if is_match then
    if (bool_decide (found <> None) && reject_duplicates)%bool then Err duplicate
    else Ok (Some value)
  else Ok found.

(** ** JSON objects of strings *)

Section json_object.
Context (wanted_name : bytes) (ascii_case_insensitive reject_duplicates : bool).

Fixpoint json_object_loop (fuel : nat) (p : bytes) (found : option bytes)
    : result bytes (option bytes * bytes) :=
  match fuel with
  | O => Err out_of_fuel
  | S fuel =>
    let! (key, p) := ducknng_json_parse_string_dup p in
    let p := ducknng_json_skip_ws p in
    if negb (cur p =? chr ":") then Err (lit "ducknng: expected ':' in JSON object") else
    let p := ducknng_json_skip_ws (zdrop 1 p) in
    let! (value, p) := ducknng_json_parse_string_dup p in
    let is_match := if ascii_case_insensitive
      then ducknng_ascii_ieq (Some key) (Some wanted_name) else str_eq key wanted_name in
    let! found := note_match is_match reject_duplicates found value
      (ducknng_format_name_error "ducknng: duplicate JSON field '" wanted_name "'") in
    let p := ducknng_json_skip_ws p in
    if cur p =? chr "," then json_object_loop fuel (ducknng_json_skip_ws (zdrop 1 p)) found else
    if cur p =? chr "}" then Ok (found, zdrop 1 p) else
    Err (lit "ducknng: expected ',' or '}' in JSON object")
  end.
End json_object.

Definition ducknng_json_object_get_string (json wanted_name : option bytes)
    (ascii_case_insensitive reject_duplicates : bool) : result bytes (option bytes) :=
  match json, wanted_name with
  | Some json, Some (c :: w) =>
    let wanted_name := c :: w in
    let p := ducknng_json_skip_ws json in
    if negb (cur p =? chr "{") then Err (lit "ducknng: expected JSON object") else
    let p := ducknng_json_skip_ws (zdrop 1 p) in
    if cur p =? chr "}" then
      let p := ducknng_json_skip_ws (zdrop 1 p) in
      match p with
      | [] => Ok None
      | _ => Err (lit "ducknng: trailing characters after JSON object")
      end
    else
      let! (found, p) := json_object_loop wanted_name ascii_case_insensitive reject_duplicates
        (S (length p)) p None in
      match ducknng_json_skip_ws p with
      | [] => Ok found
      | _ => Err (lit "ducknng: trailing characters after JSON object")
      end
  | _, _ => Ok None
  end.

(** ** JSON arrays of strings *)

Fixpoint json_array_loop (fuel : nat) (wanted : option bytes) (p : bytes) (count : Z) (found : bool)
    : result bytes (bool * Z * bytes) :=
  match fuel with
  | O => Err out_of_fuel
  | S fuel =>
    let! (entry, p) := ducknng_json_parse_string_dup p in
    let count := count + 1 in
    let found := match wanted with
      | Some w => if str_eq entry w then true else found
      | None => found end in
    let p := ducknng_json_skip_ws p in
    if cur p =? chr ","
    then json_array_loop fuel wanted (ducknng_json_skip_ws (zdrop 1 p)) count found else
    if cur p =? chr "]" then Ok (found, count, p) else
    Err (lit "ducknng: expected ',' or ']' in JSON array")
  end.

(** The return value and [*out_count]. *)
Definition ducknng_json_string_array_contains (json wanted : option bytes)
    : result bytes (bool * Z) :=
  match json with
  | None => Ok (false, 0)
  | Some json =>
    let p := ducknng_json_skip_ws json in
    if negb (cur p =? chr "[") then Err (lit "ducknng: expected JSON array of strings") else
    let p := ducknng_json_skip_ws (zdrop 1 p) in
    let! (found, count, p) :=
      (if negb (cur p =? chr "]") then json_array_loop (S (length p)) wanted p 0 false
       else Ok (false, 0, p)) in
    match ducknng_json_skip_ws (zdrop 1 p) with
    | [] => Ok (found, count)
    | _ => Err (lit "ducknng: trailing characters after JSON array")
    end
  end.

(** ** HTTP header arrays

    The four work pointers live across the function's [goto fail], which
    frees each that is not NULL; the model keeps them, numbers the
    allocations and records every [duckdb_free]. *)

Abbreviation heap_string := (option (nat * bytes)).

Record hdr := mk_hdr {
  h_next : nat; h_freed : list nat;
  h_key : heap_string; h_value : heap_string;
  h_name : heap_string; h_header_value : heap_string;
  h_found : heap_string }.

Definition hdr_init : hdr := mk_hdr 0 [] None None None None None.

Definition set_key (q : heap_string) (h : hdr) : hdr :=
  mk_hdr (h_next h) (h_freed h) q (h_value h) (h_name h) (h_header_value h) (h_found h).
Definition set_value (q : heap_string) (h : hdr) : hdr :=
  mk_hdr (h_next h) (h_freed h) (h_key h) q (h_name h) (h_header_value h) (h_found h).
Definition set_name (q : heap_string) (h : hdr) : hdr :=
  mk_hdr (h_next h) (h_freed h) (h_key h) (h_value h) q (h_header_value h) (h_found h).
Definition set_header_value (q : heap_string) (h : hdr) : hdr :=
  mk_hdr (h_next h) (h_freed h) (h_key h) (h_value h) (h_name h) q (h_found h).
Definition set_found (q : heap_string) (h : hdr) : hdr :=
  mk_hdr (h_next h) (h_freed h) (h_key h) (h_value h) (h_name h) (h_header_value h) q.

(** [if (q) duckdb_free(q)]. *)
Definition h_free (q : heap_string) (h : hdr) : hdr :=
  match q with
  | None => h
  | Some (i, _) =>
    mk_hdr (h_next h) (h_freed h ++ [i]) (h_key h) (h_value h) (h_name h) (h_header_value h) (h_found h)
  end.

(** A fresh allocation holding [s]. *)
Definition h_alloc (s : bytes) (h : hdr) : heap_string * hdr :=
  (Some (h_next h, s),
   mk_hdr (S (h_next h)) (h_freed h) (h_key h) (h_value h) (h_name h) (h_header_value h) (h_found h)).

Definition text (q : heap_string) : option bytes := snd <$> q.

(** The fields of one header object, up to its closing brace. *)
Fixpoint header_fields_loop (fuel : nat) (p : bytes) (h : hdr) : hdr * result bytes bytes :=
  match fuel with
  | O => (h, Err out_of_fuel)
  | S fuel =>
    let p := ducknng_json_skip_ws p in
    match ducknng_json_parse_string_dup p with
    | Err e => (set_key None h, Err e)
    | Ok (k, p) =>
      let (q, h) := h_alloc k h in
      let h := set_key q h in
      let p := ducknng_json_skip_ws p in
      if negb (cur p =? chr ":")
      then (h_free (h_key h) h, Err (lit "ducknng: expected ':' in headers_json")) else
      let p := ducknng_json_skip_ws (zdrop 1 p) in
      match ducknng_json_parse_string_dup p with
      | Err e => (h_free (h_key h) (set_value None h), Err e)
      | Ok (v, p) =>
        let (q, h) := h_alloc v h in
        let h := set_value q h in
        let stored : hdr + hdr * bytes :=
          if str_eq k (lit "name") then
            if bool_decide (h_name h <> None)
            then inr (h_free (h_value h) (h_free (h_key h) h),
                      lit "ducknng: duplicate header name field in headers_json")
            else inl (set_value None (set_name (h_value h) h))
          else if str_eq k (lit "value") then
            if bool_decide (h_header_value h <> None)
            then inr (h_free (h_value h) (h_free (h_key h) h),
                      lit "ducknng: duplicate header value field in headers_json")
            else inl (set_value None (set_header_value (h_value h) h))
          else inr (h_free (h_value h) (h_free (h_key h) h),
                    lit "ducknng: headers_json objects may contain only name and value fields") in
        match stored with
        | inr (h, e) => (h, Err e)
        | inl h =>
          let h := set_key None (h_free (h_key h) h) in
          let h := set_value None (h_free (h_value h) h) in
          let p := ducknng_json_skip_ws p in
          if cur p =? chr "," then header_fields_loop fuel (zdrop 1 p) h else
          if cur p =? chr "}" then (h, Ok (zdrop 1 p)) else
          (h, Err (lit "ducknng: expected ',' or '}' in headers_json"))
        end
      end
    end
  end.

Fixpoint headers_loop (fuel : nat) (wanted_name : bytes) (reject_duplicates : bool)
    (p : bytes) (h : hdr) : hdr * result bytes bytes :=
  match fuel with
  | O => (h, Err out_of_fuel)
  | S fuel =>
    let h := set_key None (set_value None (set_name None (set_header_value None h))) in
    let p := ducknng_json_skip_ws p in
    if negb (cur p =? chr "{")
    then (h, Err (lit "ducknng: expected header object in headers_json")) else
    let p := zdrop 1 p in
    match header_fields_loop (S (length p)) p h with
    | (h, Err e) => (h, Err e)
    | (h, Ok p) =>
      if (negb (nonempty (text (h_name h))) || bool_decide (h_header_value h = None))%bool
      then (h, Err (lit "ducknng: each headers_json object must contain non-empty name and a string value")) else
      if negb (ducknng_http_header_value_is_valid (text (h_header_value h)))
      then (h, Err (lit "ducknng: HTTP header value must not contain control characters")) else
      let noted : hdr + hdr * bytes :=
        if ducknng_ascii_ieq (text (h_name h)) (Some wanted_name) then
          if (bool_decide (h_found h <> None) && reject_duplicates)%bool
          then inr (h, ducknng_format_name_error "ducknng: duplicate HTTP header '" wanted_name "'")
          else
            let h := h_free (h_found h) h in
            let (q, h) := h_alloc (default [] (text (h_header_value h))) h in
            inl (set_found q h)
        else inl h in
      match noted with
      | inr (h, e) => (h, Err e)
      | inl h =>
        let h := h_free (h_header_value h) (h_free (h_name h) h) in
        let h := set_header_value None (set_name None h) in
        let p := ducknng_json_skip_ws p in
        if cur p =? chr "," then headers_loop fuel wanted_name reject_duplicates (zdrop 1 p) h else
        if cur p =? chr "]" then (h, Ok (zdrop 1 p)) else
        (h, Err (lit "ducknng: expected ',' or ']' in headers_json"))
      end
    end
  end.

(** The [fail:] label. *)
Definition headers_fail (h : hdr) : hdr :=
  h_free (h_found h) (h_free (h_header_value h) (h_free (h_name h)
    (h_free (h_value h) (h_free (h_key h) h)))).

(** The final heap and the return value with [*out_value]. *)
Definition ducknng_http_headers_json_get_header (headers_json wanted_name : option bytes)
    (reject_duplicates : bool) : hdr * result bytes (option bytes) :=
  match headers_json, wanted_name with
  | Some headers_json, Some (c :: w) =>
    let wanted_name := c :: w in
    let p := ducknng_json_skip_ws headers_json in
    if negb (cur p =? chr "[")
    then (hdr_init, Err (lit "ducknng: headers_json must be a JSON array of {name,value} objects")) else
    let p := ducknng_json_skip_ws (zdrop 1 p) in
    if cur p =? chr "]" then
      match ducknng_json_skip_ws (zdrop 1 p) with
      | [] => (hdr_init, Ok None)
      | _ => (hdr_init, Err (lit "ducknng: trailing characters after headers_json"))
      end
    else
      match headers_loop (S (length p)) wanted_name reject_duplicates p hdr_init with
      | (h, Err e) => (headers_fail h, Err e)
      | (h, Ok p) =>
        match ducknng_json_skip_ws p with
        | [] => (h, Ok (text (h_found h)))
        | _ => (headers_fail h, Err (lit "ducknng: trailing characters after headers_json"))
        end
      end
  | _, _ => (hdr_init, Ok None)
  end.

(** ** Percent decoding and query strings *)

Fixpoint percent_decode_loop (src : bytes) (plus_as_space : bool) (label : string) (out : bytes)
    : result bytes bytes :=
  match src with
  | [] => Ok out
  | c :: src =>
    if c =? chr "%" then
      match src with
      | h :: l :: src =>
        let hi := ducknng_hex_value h in
        let lo := ducknng_hex_value l in
        if ((hi <? 0) || (lo <? 0))%bool
        then Err (ducknng_format_name_error "ducknng: invalid percent escape in " (lit label) EmptyString) else
        let c := u8 (Z.lor (Z.shiftl hi 4) lo) in
        if c =? 0
        then Err (ducknng_format_name_error "ducknng: " (lit label) " contains NUL after percent decoding")
        else percent_decode_loop src plus_as_space label (out ++ [c])
      | _ => Err (ducknng_format_name_error "ducknng: invalid percent escape in " (lit label) EmptyString)
      end
    else if (plus_as_space && (c =? chr "+"))%bool
    then percent_decode_loop src plus_as_space label (out ++ [32])
    else percent_decode_loop src plus_as_space label (out ++ [c])
  end.

Definition ducknng_percent_decode_dup (src : bytes) (plus_as_space : bool) (label : string)
    : result bytes bytes := percent_decode_loop src plus_as_space label [].

(** [strchr] and [memchr]: the text before the first [c] and, when there is
    one, the text behind it. *)
Fixpoint break_at (c : Z) (s : bytes) : bytes * option bytes :=
  match s with
  | [] => ([], None)
  | x :: s =>
    if x =? c then ([], Some s)
    else let (a, b) := break_at c s in (x :: a, b)
  end.

Fixpoint query_loop (fuel : nat) (wanted_name : bytes) (reject_duplicates : bool)
    (p : bytes) (found : option bytes) : result bytes (option bytes) :=
  match p with
  | [] => Ok found
  | _ =>
    match fuel with
    | O => Err out_of_fuel
    | S fuel =>
      let (segment, rest) := break_at (chr "&") p in
      let (raw_name, raw_value) := break_at (chr "=") segment in
      let! name := ducknng_percent_decode_dup raw_name true "query parameter name" in
      let! found :=
        (if str_eq name wanted_name then
           if (bool_decide (found <> None) && reject_duplicates)%bool
           then Err (ducknng_format_name_error "ducknng: duplicate query parameter '" wanted_name "'")
           else
             let! value := ducknng_percent_decode_dup (default [] raw_value) true
               "query parameter value" in
             Ok (Some value)
         else Ok found) in
      query_loop fuel wanted_name reject_duplicates (default [] rest) found
    end
  end.

Definition ducknng_query_string_get_param (query_string wanted_name : option bytes)
    (reject_duplicates : bool) : result bytes (option bytes) :=
  match query_string, wanted_name with
  | Some q, Some (c :: w) => query_loop (length q) (c :: w) reject_duplicates q None
  | _, _ => Ok None
  end.

(** ** Cookies *)

Definition is_blank (c : Z) : bool := ((c =? 32) || (c =? 9))%bool.
Fixpoint trim_left (s : bytes) : bytes :=
  match s with
  | c :: r => if is_blank c then trim_left r else s
  | [] => []
  end.
Definition trim_right (s : bytes) : bytes := rev (trim_left (rev s)).

(** One level of double quotes around the value. *)
Definition unquote (v : bytes) : bytes :=
  if ((2 <=? zlen v) && (cur v =? QUOTE) && (cur (rev v) =? QUOTE))%bool
  then ztake (zlen v - 2) (zdrop 1 v) else v.

Fixpoint cookie_loop (fuel : nat) (wanted_name : bytes) (reject_duplicates : bool)
    (p : bytes) (found : option bytes) : result bytes (option bytes) :=
  match p with
  | [] => Ok found
  | _ =>
    match fuel with
    | O => Err out_of_fuel
    | S fuel =>
      let (segment, rest) := break_at (chr ";") p in
      let segment := trim_left segment in
      match break_at (chr "=") segment with
      | (_, None) => cookie_loop fuel wanted_name reject_duplicates (default [] rest) found
      | (name, Some value) =>
        let name := trim_right name in
        let value := unquote (trim_right (trim_left value)) in
        let! found := note_match (str_eq name wanted_name) reject_duplicates found value
          (ducknng_format_name_error "ducknng: duplicate cookie '" wanted_name "'") in
        cookie_loop fuel wanted_name reject_duplicates (default [] rest) found
      end
    end
  end.

Definition ducknng_cookie_header_get_value (cookie_header wanted_name : option bytes)
    (reject_duplicates : bool) : result bytes (option bytes) :=
  match cookie_header, wanted_name with
  | Some h, Some (c :: w) => cookie_loop (length h) (c :: w) reject_duplicates h None
  | _, _ => Ok None
  end.

(** ** Case-insensitive comparison *)

Lemma ascii_ieq_spec a b :
  ducknng_ascii_ieq (Some a) (Some b) = true <->
  ducknng_ascii_tolower_int <$> a = ducknng_ascii_tolower_int <$> b.
Proof.
  cbn [ducknng_ascii_ieq]. revert b. induction a as [|x a IH]; intros [|y b]; try done.
  rewrite !fmap_cons. cbn [ascii_ieq_loop]. destruct (Z.eqb_spec (ducknng_ascii_tolower_int x) (ducknng_ascii_tolower_int y)) as [->|Hn]; cbn [negb].
  - rewrite IH. split; [by intros ->|by intros [=]].
  - split; [done|]. by intros [= H _].
Qed.

(** ** Capacity growth *)

Lemma grow_loop_spec fuel need cap :
  0 < cap -> need <= SIZE_MAX -> cap <= SIZE_MAX -> 2 ^ 64 <= cap * 2 ^ Z.of_nat fuel ->
  let r := grow_loop fuel need cap in
  need <= r <= SIZE_MAX /\ cap <= r /\ (need <= cap -> r = cap).
Proof.
  revert cap. induction fuel as [|fuel IH]; intros cap Hc Hn Hs Hf; cbn [grow_loop].
  - simpl in Hf. unfold SIZE_MAX, UINT64_MAX in *. lia.
  - destruct (Z.ltb_spec cap need); [|lia].
    destruct (Z.ltb_spec (SIZE_MAX / 2) cap) as [|Hle]; [lia|].
    assert (SIZE_MAX / 2 * 2 <= SIZE_MAX) by (pose proof (Z.mul_div_le SIZE_MAX 2); lia).
    rewrite Nat2Z.inj_succ, Z.pow_succ_r in Hf by lia.
    destruct (IH (cap * 2)) as (? & ? & ?); lia.
Qed.

Lemma grow_capacity_enough need cap min :
  0 <= cap <= SIZE_MAX -> 0 <= min <= SIZE_MAX -> need <= SIZE_MAX ->
  need <= ducknng_grow_capacity need cap min <= SIZE_MAX /\ cap <= ducknng_grow_capacity need cap min.
Proof.
  intros Hc Hm Hn. unfold ducknng_grow_capacity.
  set (c := if negb (cap =? 0) then _ else _).
  assert (0 < c <= SIZE_MAX /\ cap <= c) as [Hc' Hle].
  { subst c. destruct (Z.eqb_spec cap 0), (Z.eqb_spec min 0); cbn [negb]; unfold SIZE_MAX, UINT64_MAX in *; lia. }
  pose proof (grow_loop_spec 65 need c) as H. cbv zeta in H.
  change (2 ^ Z.of_nat 65) with (2 * 2 ^ 64) in H. lia.
Qed.

(** ** Escaped JSON strings

    The interface between the JSON writers of the program and this parser: a
    way to escape a character is correct when the string scanner turns it back
    into the character. *)

Class JsonEscape (esc : Z -> bytes) := {
  escape_scans c rest buf : is_char c ->
    json_string_loop (esc c ++ rest) buf = json_string_loop rest (buf ++ [c]) }.

Definition json_quote (esc : Z -> bytes) (s : bytes) : bytes :=
  QUOTE :: (s ≫= esc) ++ [QUOTE].

(** [%x] of one digit and the [\u%04x] of a character below 256. *)
Definition hex_digit (d : Z) : Z := if d <? 10 then 48 + d else 87 + d.
Definition unicode_escape (c : Z) : bytes :=
  [BACKSLASH; chr "u"; 48; 48; hex_digit (c / 16); hex_digit (c mod 16)].

Lemma string_loop_escape c rest buf :
  is_char c -> c < 0x20 ->
  json_string_loop (unicode_escape c ++ rest) buf = json_string_loop rest (buf ++ [c]).
Proof.
  intros Hc Hl. unfold unicode_escape. cbn [app json_string_loop].
  assert (hex4 48 48 (hex_digit (c / 16)) (hex_digit (c mod 16)) = Some c) as Hh.
  { assert (is_byte c) as Hb by (unfold is_char, is_byte in *; lia).
    apply (byte_forall (fun c => bool_decide (hex4 48 48 (hex_digit (c / 16)) (hex_digit (c mod 16)) = Some c)))
      in Hb; [by apply bool_decide_eq_true in Hb|by vm_compute]. }
  change (simple_escape (chr "u")) with (@None Z). cbv iota beta.
  change (BACKSLASH =? QUOTE) with false. change (BACKSLASH <? 0x20) with false.
  change (BACKSLASH =? BACKSLASH) with true. change (chr "u" =? chr "u") with true. cbv iota beta.
  rewrite Hh. unfold is_char in Hc.
  destruct (Z.eqb_spec c 0); [lia|]. destruct (Z.ltb_spec 0x7f c); [lia|done].
Qed.

Lemma string_loop_plain c rest buf :
  0x20 <= c -> c <> QUOTE -> c <> BACKSLASH ->
  json_string_loop (c :: rest) buf = json_string_loop rest (buf ++ [c]).
Proof.
  intros H1 H2 H3. cbn [json_string_loop].
  destruct (Z.eqb_spec c QUOTE); [done|]. destruct (Z.ltb_spec c 0x20); [lia|].
  by destruct (Z.eqb_spec c BACKSLASH).
Qed.

Lemma string_loop_simple esc c rest buf :
  simple_escape esc = Some c ->
  json_string_loop (BACKSLASH :: esc :: rest) buf = json_string_loop rest (buf ++ [c]).
Proof. intros H. cbn [json_string_loop]. by rewrite H. Qed.

Lemma parse_quote esc `{JsonEscape esc} s rest :
  cstr s -> ducknng_json_parse_string_dup (json_quote esc s ++ rest) = Ok (s, rest).
Proof.
  intros Hs. unfold json_quote. cbn [app ducknng_json_parse_string_dup]. rewrite Z.eqb_refl.
  assert (forall buf, json_string_loop (((s ≫= esc) ++ [QUOTE]) ++ rest) buf = Ok (buf ++ s, rest)) as Hl;
    [|apply Hl].
  induction Hs as [|c s Hc Hs IH]; intros buf.
  - by rewrite app_nil_r.
  - rewrite bind_cons, <- !app_assoc, escape_scans by done.
    rewrite app_assoc, IH. by rewrite <- app_assoc.
Qed.

(** The scanner consumes at least the opening quote, and its errors are its
    own. *)
Definition own_error (e : bytes) : Prop := cur e = chr "d".

Lemma string_loop_shrinks p buf :
  match json_string_loop p buf with
  | Ok (_, rest) => (length rest <= length p)%nat
  | Err e => own_error e
  end.
Proof.
  remember (length p) as n eqn:Hn. assert (length p <= n)%nat as Hle by lia. clear Hn.
  revert p buf Hle. induction n as [n IH] using lt_wf_ind. intros p buf Hle.
  assert (forall q b, (length q < length p)%nat ->
    match json_string_loop q b with
    | Ok (_, rest) => (length rest <= n)%nat
    | Err e => own_error e end) as Hrec.
  { intros q b Hq. specialize (IH (length q) ltac:(lia) q b ltac:(lia)).
    destruct (json_string_loop q b) as [[? rest]|]; [lia|done]. }
  clear IH. destruct p as [|c p]; [done|]. cbn [json_string_loop].
  rewrite length_cons in *.
  destruct (c =? QUOTE); [simpl; lia|]. destruct (c <? 0x20); [done|].
  destruct (c =? BACKSLASH); [|apply Hrec; lia].
  destruct p as [|esc p]; [done|]. rewrite length_cons in *.
  destruct (simple_escape esc); [apply Hrec; lia|].
  destruct (esc =? chr "u"); [|done].
  destruct p as [|h1 [|h2 [|h3 [|h4 p]]]]; try done. rewrite !length_cons in *.
  destruct (hex4 h1 h2 h3 h4); [|done]. destruct (_ =? 0); [done|].
  destruct (0x7f <? _); [done|]. apply Hrec; lia.
Qed.

Lemma parse_string_shrinks p :
  match ducknng_json_parse_string_dup p with
  | Ok (_, rest) => (length rest < length p)%nat
  | Err e => own_error e
  end.
Proof.
  destruct p as [|c p]; [done|]. cbn [ducknng_json_parse_string_dup].
  destruct (c =? QUOTE); [|done]. pose proof (string_loop_shrinks p []) as H.
  destruct (json_string_loop p []) as [[? rest]|]; [simpl; lia|done].
Qed.

Lemma skip_ws_shrinks p : (length (ducknng_json_skip_ws p) <= length p)%nat.
Proof. induction p as [|c p IH]; [done|]. cbn [ducknng_json_skip_ws]. cases_goal; simpl; lia. Qed.

Lemma zdrop1_shrinks (p : bytes) : (length (zdrop 1 p) <= length p)%nat.
Proof. unfold zdrop. rewrite length_drop. lia. Qed.

(** ** What a lookup finds

    The values of the matching fields, in order; the last one wins unless
    duplicates are rejected. *)

Definition lookup_spec (reject_duplicates : bool) (duplicate : bytes) (hits : list bytes)
    : result bytes (option bytes) :=
  if (reject_duplicates && (2 <=? length hits)%nat)%bool then Err duplicate else Ok (last hits).

Definition hits_of (matches : bytes -> bool) (kvs : list (bytes * bytes)) : list bytes :=
  snd <$> filter (fun kv => matches kv.1 = true) kvs.

(** The loop the scanners run over the fields. *)
Fixpoint pick (matches : bytes -> bool) (reject : bool) (dup : bytes) (found : option bytes)
    (kvs : list (bytes * bytes)) : result bytes (option bytes) :=
  match kvs with
  | [] => Ok found
  | (k, v) :: kvs =>
    let! found := note_match (matches k) reject found v dup in pick matches reject dup found kvs
  end.

Lemma hits_cons m k v kvs :
  hits_of m ((k, v) :: kvs) = if m k then v :: hits_of m kvs else hits_of m kvs.
Proof.
  unfold hits_of. destruct (m k) eqn:E.
  - by rewrite filter_cons_True.
  - by rewrite filter_cons_False by (simpl; congruence).
Qed.

Lemma pick_spec_from m reject dup found kvs :
  pick m reject dup found kvs = lookup_spec reject dup (option_list found ++ hits_of m kvs).
Proof.
  revert found. induction kvs as [|[k v] kvs IH]; intros found.
  - unfold lookup_spec. destruct found; simpl; by rewrite andb_false_r.
  - cbn [pick]. rewrite hits_cons. unfold note_match. destruct (m k); [|apply IH].
    destruct found as [w|]; cbn [option_list app].
    + rewrite bool_decide_eq_true_2 by done. cbn [andb]. destruct reject; [done|].
      cbn [res_bind]. rewrite IH. unfold lookup_spec. by rewrite !andb_false_l.
    + rewrite bool_decide_eq_false_2 by auto. cbn [andb res_bind]. apply IH.
Qed.

Lemma pick_spec m reject dup kvs :
  pick m reject dup None kvs = lookup_spec reject dup (hits_of m kvs).
Proof. apply pick_spec_from. Qed.

(** ** Rendered text *)

Fixpoint join (sep : bytes) (parts : list bytes) : bytes :=
  match parts with
  | [] => []
  | [x] => x
  | x :: parts => x ++ sep ++ join sep parts
  end.

Lemma skip_ws_stop c p :
  ((c =? 32) || (c =? 9) || (c =? 13) || (c =? 10))%bool = false ->
  ducknng_json_skip_ws (c :: p) = c :: p.
Proof. intros H. cbn [ducknng_json_skip_ws]. by rewrite H. Qed.

Lemma zdrop_1 {A} (c : A) p : zdrop 1 (c :: p) = p.
Proof. done. Qed.

Lemma join_head sep x l rest : exists tl, join sep (x :: l) ++ rest = x ++ tl.
Proof. destruct l; cbn [join]; [by eexists|]. rewrite <- !app_assoc. by eexists. Qed.

Section rendered.
Context (esc : Z -> bytes) `{JsonEscape esc}.

Lemma skip_ws_quote s rest :
  ducknng_json_skip_ws (json_quote esc s ++ rest) = json_quote esc s ++ rest.
Proof. by apply skip_ws_stop. Qed.

Definition render_field (kv : bytes * bytes) : bytes :=
  json_quote esc kv.1 ++ lit ":" ++ json_quote esc kv.2.
Definition render_object (kvs : list (bytes * bytes)) : bytes :=
  lit "{" ++ join (lit ",") (render_field <$> kvs) ++ lit "}".
Definition render_array (l : list bytes) : bytes :=
  lit "[" ++ join (lit ",") (json_quote esc <$> l) ++ lit "]".

Definition fields_ok (kvs : list (bytes * bytes)) : Prop :=
  Forall (fun kv => cstr kv.1 /\ cstr kv.2) kvs.

Lemma object_loop_rendered wanted ci rej kvs fuel found rest :
  fields_ok kvs -> kvs <> [] -> (length kvs <= fuel)%nat ->
  json_object_loop wanted ci rej fuel (join (lit ",") (render_field <$> kvs) ++ lit "}" ++ rest) found =
  let! found := pick (fun key => if ci then ducknng_ascii_ieq (Some key) (Some wanted) else str_eq key wanted)
    rej (ducknng_format_name_error "ducknng: duplicate JSON field '" wanted "'") found kvs in
  Ok (found, rest).
Proof.
  intros Hok. revert fuel found. induction Hok as [|[k v] kvs [Hk Hv] Hok IH]; [done|].
  intros [|fuel] found _ Hf; [simpl in Hf; lia|]. simpl in Hk, Hv. cbn [pick].
  set (m := fun key : bytes => if ci then _ else _) in *. rewrite fmap_cons.
  assert (forall tl, tl <> [] -> cur tl = chr "," \/ cur tl = chr "}" ->
    json_object_loop wanted ci rej (S fuel) (render_field (k, v) ++ tl) found =
    let! found := note_match (m k) rej found v
      (ducknng_format_name_error "ducknng: duplicate JSON field '" wanted "'") in
    if cur tl =? chr "," then
      json_object_loop wanted ci rej fuel (ducknng_json_skip_ws (zdrop 1 tl)) found
    else Ok (found, zdrop 1 tl)) as Hstep.
  { intros tl Hn Ht. destruct tl as [|t tl]; [done|]. cbn [cur] in Ht.
    unfold render_field. cbn [fst snd json_object_loop].
    rewrite <- !app_assoc, parse_quote by done. cbn [res_bind].
    change (ducknng_json_skip_ws (lit ":" ++ ?x)) with (chr ":" :: x).
    cbn [cur]. rewrite Z.eqb_refl. cbn [negb]. rewrite zdrop_1, skip_ws_quote, parse_quote by done.
    cbn [res_bind]. change (if ci then _ else _) with (m k).
    destruct (note_match _ _ _ _ _) as [f|e]; [|done]. cbn [res_bind].
    destruct Ht as [-> | ->]; rewrite skip_ws_stop by done; cbn [cur]; by rewrite ?Z.eqb_refl. }
  destruct kvs as [|kv' kvs].
  - cbn [fmap list_fmap join]. rewrite Hstep; [|done|by right].
    destruct (note_match _ _ _ _ _) as [f|e]; [|done]. done.
  - change (join (lit ",") (render_field (k, v) :: (render_field <$> kv' :: kvs)))
      with (render_field (k, v) ++ lit "," ++ join (lit ",") (render_field <$> kv' :: kvs)).
    rewrite <- !app_assoc. rewrite Hstep; [|done|by left].
    destruct (note_match _ _ _ _ _) as [f|e]; [|done]. cbn [res_bind].
    change (cur (lit "," ++ ?x)) with (chr ","). rewrite Z.eqb_refl.
    change (zdrop 1 (lit "," ++ ?x)) with x.
    rewrite fmap_cons at 1.
    destruct (join_head (lit ",") (render_field kv') (render_field <$> kvs) (lit "}" ++ rest)) as (tl & Etl).
    assert (ducknng_json_skip_ws (join (lit ",") (render_field <$> kv' :: kvs) ++ lit "}" ++ rest)
      = join (lit ",") (render_field <$> kv' :: kvs) ++ lit "}" ++ rest) as Hws.
    { rewrite fmap_cons, Etl. unfold render_field. rewrite <- app_assoc. apply skip_ws_quote. }
    rewrite fmap_cons in Hws. rewrite Hws. apply IH; [done|simpl in *; lia].
Qed.
End rendered.

Section lookups.
Context (esc : Z -> bytes) `{JsonEscape esc}.

Lemma join_length sep (l : list bytes) :
  Forall (fun x => x <> []) l -> (length l <= length (join sep l))%nat.
Proof.
  induction 1 as [|x l Hx Hl IH]; [done|]. destruct x; [done|].
  destruct l; [simpl; lia|]. cbn [join] in *. rewrite !length_app. simpl in *. lia.
Qed.

Lemma object_get_rendered kvs wanted ci rej :
  fields_ok kvs -> wanted <> [] ->
  ducknng_json_object_get_string (Some (render_object esc kvs)) (Some wanted) ci rej =
  lookup_spec rej (ducknng_format_name_error "ducknng: duplicate JSON field '" wanted "'")
    (hits_of (fun key => if ci then ducknng_ascii_ieq (Some key) (Some wanted) else str_eq key wanted) kvs).
Proof.
  intros Hok Hw. destruct wanted as [|c w]; [done|]. unfold ducknng_json_object_get_string, render_object.
  change (ducknng_json_skip_ws (lit "{" ++ ?x)) with (chr "{" :: x). cbn [cur].
  rewrite Z.eqb_refl. cbn [negb]. rewrite zdrop_1.
  destruct kvs as [|kv kvs].
  - cbn [fmap list_fmap join]. change (ducknng_json_skip_ws ([] ++ lit "}")) with [chr "}"].
    cbn. unfold lookup_spec. by rewrite andb_false_r.
  - set (kvs' := kv :: kvs) in *.
    assert (ducknng_json_skip_ws (join (lit ",") (render_field esc <$> kvs') ++ lit "}")
      = join (lit ",") (render_field esc <$> kvs') ++ lit "}") as Hws.
    { subst kvs'. rewrite fmap_cons.
      destruct (join_head (lit ",") (render_field esc kv) (render_field esc <$> kvs) (lit "}")) as (tl & ->).
      unfold render_field. rewrite <- app_assoc. apply skip_ws_quote. }
    rewrite Hws.
    assert (cur (join (lit ",") (render_field esc <$> kvs') ++ lit "}") =? chr "}" = false) as ->.
    { subst kvs'. rewrite fmap_cons.
      by destruct (join_head (lit ",") (render_field esc kv) (render_field esc <$> kvs) (lit "}")) as (tl & ->). }
    rewrite <- (app_nil_r (lit "}")), (object_loop_rendered esc); try done.
    + rewrite pick_spec. set (m := fun key : bytes => _). unfold lookup_spec.
      by destruct (_ && _)%bool.
    + rewrite length_app. transitivity (length (join (lit ",") (render_field esc <$> kvs'))); [|lia].
      rewrite <- (length_fmap (render_field esc)). apply join_length.
      apply Forall_fmap, Forall_true. intros ? ?. done.
Qed.

(** *** Arrays *)

Lemma array_loop_rendered wanted l fuel count found rest :
  Forall cstr l -> l <> [] -> (length l <= fuel)%nat ->
  json_array_loop fuel wanted (join (lit ",") (json_quote esc <$> l) ++ lit "]" ++ rest) count found =
  Ok ((found || match wanted with Some w => bool_decide (w ∈ l) | None => false end)%bool,
      count + zlen l, lit "]" ++ rest).
Proof.
  intros Hok. revert fuel count found. induction Hok as [|s l Hs Hok IH]; [done|].
  intros [|fuel] count found _ Hf; [simpl in Hf; lia|].
  set (found1 := match wanted with Some w => if str_eq s w then true else found | None => found end).
  assert (forall tl, cur tl = chr "," \/ cur tl = chr "]" ->
    json_array_loop (S fuel) wanted (json_quote esc s ++ tl) count found =
    if cur tl =? chr "," then
      json_array_loop fuel wanted (ducknng_json_skip_ws (zdrop 1 tl)) (count + 1) found1
    else Ok (found1, count + 1, tl)) as Hstep.
  { intros tl Ht. destruct tl as [|t tl]; [by destruct Ht|]. cbn [cur] in Ht. cbn [json_array_loop].
    rewrite parse_quote by done. cbn [res_bind].
    destruct Ht as [-> | ->]; rewrite skip_ws_stop by done; cbn [cur]; by rewrite ?Z.eqb_refl. }
  assert ((found1 || match wanted with Some w => bool_decide (w ∈ l) | None => false end)%bool =
    (found || match wanted with Some w => bool_decide (w ∈ s :: l) | None => false end)%bool) as Hfound.
  { subst found1. destruct wanted as [w|]; [|done]. unfold str_eq.
    apply Bool.eq_iff_eq_true. destruct (bool_decide_reflect (s = w)) as [->|Hn];
      rewrite !orb_true_iff, !bool_decide_eq_true, elem_of_cons; naive_solver. }
  rewrite fmap_cons. destruct l as [|s' l].
  - cbn [fmap list_fmap join]. rewrite Hstep by (by right). rewrite <- Hfound.
    change (cur (lit "]" ++ rest)) with (chr "]"). simpl.
    destruct wanted; by rewrite ?bool_decide_eq_false_2, orb_false_r by apply not_elem_of_nil.
  - change (join (lit ",") (json_quote esc s :: (json_quote esc <$> s' :: l)))
      with (json_quote esc s ++ lit "," ++ join (lit ",") (json_quote esc <$> s' :: l)).
    rewrite <- !app_assoc. rewrite Hstep by (by left).
    change (cur (lit "," ++ ?x)) with (chr ","). rewrite Z.eqb_refl.
    change (zdrop 1 (lit "," ++ ?x)) with x.
    assert (ducknng_json_skip_ws (join (lit ",") (json_quote esc <$> s' :: l) ++ lit "]" ++ rest)
      = join (lit ",") (json_quote esc <$> s' :: l) ++ lit "]" ++ rest) as ->.
    { rewrite fmap_cons.
      destruct (join_head (lit ",") (json_quote esc s') (json_quote esc <$> l) (lit "]" ++ rest)) as (tl & ->).
      apply skip_ws_quote. }
    rewrite IH by (done || simpl in *; lia). rewrite <- Hfound. do 3 f_equal. rewrite (zlen_cons s). lia.
Qed.

Lemma array_contains_rendered l wanted :
  Forall cstr l ->
  ducknng_json_string_array_contains (Some (render_array esc l)) wanted =
  Ok (match wanted with Some w => bool_decide (w ∈ l) | None => false end, zlen l).
Proof.
  intros Hok. unfold ducknng_json_string_array_contains, render_array.
  change (ducknng_json_skip_ws (lit "[" ++ ?x)) with (chr "[" :: x). cbn [cur].
  rewrite Z.eqb_refl. cbn [negb]. rewrite zdrop_1.
  destruct l as [|s l].
  - destruct wanted; cbn; by rewrite ?bool_decide_eq_false_2 by apply not_elem_of_nil.
  - set (l' := s :: l) in *.
    assert (ducknng_json_skip_ws (join (lit ",") (json_quote esc <$> l') ++ lit "]")
      = join (lit ",") (json_quote esc <$> l') ++ lit "]") as Hws.
    { subst l'. rewrite fmap_cons.
      destruct (join_head (lit ",") (json_quote esc s) (json_quote esc <$> l) (lit "]")) as (tl & ->).
      apply skip_ws_quote. }
    rewrite Hws.
    assert (cur (join (lit ",") (json_quote esc <$> l') ++ lit "]") =? chr "]" = false) as ->.
    { subst l'. rewrite fmap_cons.
      by destruct (join_head (lit ",") (json_quote esc s) (json_quote esc <$> l) (lit "]")) as (tl & ->). }
    cbn [negb]. rewrite <- (app_nil_r (lit "]")), array_loop_rendered; try done.
    rewrite length_app. transitivity (length (join (lit ",") (json_quote esc <$> l'))); [|lia].
    rewrite <- (length_fmap (json_quote esc)). apply join_length.
    apply Forall_fmap, Forall_true. intros ? ?. done.
Qed.
End lookups.

(** ** Header arrays *)

Lemma h_free_found q h : h_found (h_free q h) = h_found h.
Proof. by destruct q as [[]|]. Qed.

Lemma h_free_text q h : h_header_value (h_free q h) = h_header_value h.
Proof. by destruct q as [[]|]. Qed.

Section headers.
Context (esc : Z -> bytes) `{JsonEscape esc}.

Definition render_header (kv : bytes * bytes) : bytes :=
  lit "{" ++ render_field esc (lit "name", kv.1) ++ lit "," ++
  render_field esc (lit "value", kv.2) ++ lit "}".
Definition render_headers (kvs : list (bytes * bytes)) : bytes :=
  lit "[" ++ join (lit ",") (render_header <$> kvs) ++ lit "]".

Definition headers_ok (kvs : list (bytes * bytes)) : Prop :=
  Forall (fun kv => cstr kv.1 /\ kv.1 <> [] /\ cstr kv.2 /\
    ducknng_http_header_value_is_valid (Some kv.2) = true) kvs.

Lemma lit_cstr_name : cstr (lit "name").
Proof. apply (bool_decide_unpack _). by vm_compute. Qed.
Lemma lit_cstr_value : cstr (lit "value").
Proof. apply (bool_decide_unpack _). by vm_compute. Qed.

(** One field of a header object, scanned up to the separator behind it. *)
Lemma header_field_step fuel k v tl h :
  cstr k -> cstr v -> cur tl = chr "," \/ cur tl = chr "}" ->
  (k = lit "name" /\ h_name h = None) \/ (k = lit "value" /\ h_header_value h = None) ->
  exists h', h_found h' = h_found h /\
    (k = lit "name" -> text (h_name h') = Some v /\ h_header_value h' = h_header_value h) /\
    (k = lit "value" -> text (h_header_value h') = Some v /\ h_name h' = h_name h) /\
    header_fields_loop (S fuel) (render_field esc (k, v) ++ tl) h =
      if cur tl =? chr "," then header_fields_loop fuel (zdrop 1 tl) h' else (h', Ok (zdrop 1 tl)).
Proof.
  intros Hk Hv Ht Hfree. destruct tl as [|t tl]; [by destruct Ht|]. cbn [cur] in Ht.
  cbn [header_fields_loop]. unfold render_field. cbn [fst snd].
  rewrite <- !app_assoc, skip_ws_quote, parse_quote by done. cbn [h_alloc].
  change (ducknng_json_skip_ws (lit ":" ++ ?x)) with (chr ":" :: x).
  cbn [cur]. rewrite Z.eqb_refl. cbn [negb]. rewrite zdrop_1, skip_ws_quote, parse_quote by done.
  rewrite skip_ws_stop by (by destruct Ht as [-> | ->]). cbn [cur].
  destruct Hfree as [[-> Hn]|[-> Hn]].
  - rewrite str_eq_refl. cbn [h_name set_value set_key h_alloc]. rewrite Hn, bool_decide_eq_false_2 by auto. eexists.
    repeat match goal with |- _ /\ _ => split end; cycle 3.
    { destruct Ht as [-> | ->]; reflexivity. }
    all: done.
  - change (str_eq (lit "value") (lit "name")) with false. rewrite str_eq_refl.
    cbn [h_header_value set_value set_key h_alloc]. rewrite Hn, bool_decide_eq_false_2 by auto. eexists.
    repeat match goal with |- _ /\ _ => split end; cycle 3.
    { destruct Ht as [-> | ->]; reflexivity. }
    all: done.
Qed.

Lemma header_object_rendered n v rest h fuel :
  cstr n -> cstr v -> h_name h = None -> h_header_value h = None -> (2 <= fuel)%nat ->
  exists h', h_found h' = h_found h /\ text (h_name h') = Some n /\
    text (h_header_value h') = Some v /\
    header_fields_loop fuel (render_field esc (lit "name", n) ++ lit "," ++
      render_field esc (lit "value", v) ++ lit "}" ++ rest) h = (h', Ok rest).
Proof.
  intros Hn Hv Hhn Hhv Hf. destruct fuel as [|[|fuel]]; [lia..|].
  destruct (header_field_step (S fuel) (lit "name") n
    (lit "," ++ render_field esc (lit "value", v) ++ lit "}" ++ rest) h lit_cstr_name Hn)
    as (h1 & Hf1 & Hn1 & _ & E1); [by left|by left|].
  destruct (Hn1 eq_refl) as [Hn1' Hv1'].
  destruct (header_field_step fuel (lit "value") v (lit "}" ++ rest) h1 lit_cstr_value Hv)
    as (h2 & Hf2 & _ & Hv2 & E2); [by right|right; by rewrite Hv1'|].
  destruct (Hv2 eq_refl) as [Hv2' Hn2'].
  exists h2. split; [congruence|]. split; [congruence|]. split; [done|].
  rewrite E1. change (cur (lit "," ++ ?x) =? chr ",") with true. cbv iota.
  change (zdrop 1 (lit "," ++ ?x)) with x. rewrite E2. done.
Qed.

Lemma headers_loop_rendered wanted rej kvs fuel h rest :
  headers_ok kvs -> kvs <> [] -> (length kvs <= fuel)%nat ->
  exists h', headers_loop fuel wanted rej (join (lit ",") (render_header <$> kvs) ++ lit "]" ++ rest) h
   = (h', match pick (fun n => ducknng_ascii_ieq (Some n) (Some wanted)) rej
       (ducknng_format_name_error "ducknng: duplicate HTTP header '" wanted "'")
       (text (h_found h)) kvs with
     | Ok _ => Ok rest | Err e => Err e end) /\
   (forall f, pick (fun n => ducknng_ascii_ieq (Some n) (Some wanted)) rej
       (ducknng_format_name_error "ducknng: duplicate HTTP header '" wanted "'")
       (text (h_found h)) kvs = Ok f -> text (h_found h') = f).
Proof.
  intros Hok. revert fuel h. induction Hok as [|[n v] kvs (Hn & Hne & Hv & Hvv) Hok IH]; [done|].
  intros [|fuel] h _ Hf; [simpl in Hf; lia|]. cbn [fst snd] in *. cbn [pick].
  set (dup := ducknng_format_name_error _ _ _) in *.
  set (m := fun n => ducknng_ascii_ieq (Some n) (Some wanted)) in *.
  assert (forall tl, cur tl = chr "," \/ cur tl = chr "]" ->
    exists h', (forall f, note_match (m n) rej (text (h_found h)) v dup = Ok f -> text (h_found h') = f) /\
    headers_loop (S fuel) wanted rej (render_header (n, v) ++ tl) h =
    match note_match (m n) rej (text (h_found h)) v dup with
    | Err e => (h', Err e)
    | Ok _ => if cur tl =? chr "," then headers_loop fuel wanted rej (zdrop 1 tl) h' else (h', Ok (zdrop 1 tl))
    end) as Hstep.
  { intros tl Ht. destruct tl as [|t tl]; [by destruct Ht|]. cbn [cur] in Ht.
    cbn [headers_loop]. unfold render_header. cbn [fst snd]. rewrite <- !app_assoc.
    change (ducknng_json_skip_ws (lit "{" ++ ?x)) with (chr "{" :: x). cbn [cur].
    rewrite Z.eqb_refl. cbn [negb]. rewrite zdrop_1.
    set (h0 := set_key None _).
    edestruct (header_object_rendered n v (t :: tl) h0) as (h1 & Hf1 & Hn1 & Hv1 & E1);
      [done|done|done|done| |rewrite E1].
    { rewrite !length_app. simpl. lia. }
    rewrite Hn1, Hv1, Hvv. cbn [negb]. rewrite bool_decide_eq_false_2 by (by destruct (h_header_value h1)).
    destruct n as [|c n]; [done|]. cbn [nonempty negb orb]. set (nm := c :: n) in *.
    rewrite skip_ws_stop by (by destruct Ht as [-> | ->]). cbn [cur]. rewrite zdrop_1.
    unfold note_match. change (m nm) with (ducknng_ascii_ieq (Some nm) (Some wanted)).
    assert (bool_decide (h_found h1 <> None) = bool_decide (text (h_found h) <> None)) as Hbd.
    { rewrite Hf1. simpl. destruct (h_found h); [by rewrite !bool_decide_eq_true_2|].
      by rewrite !bool_decide_eq_false_2 by auto. }
    rewrite Hbd. destruct (ducknng_ascii_ieq _ _).
    - destruct (_ && _)%bool; [by exists h1|].
      eexists. split; [|destruct Ht as [-> | ->]; reflexivity]. intros f [= <-].
      cbn [set_header_value set_name h_found]. rewrite !h_free_found. cbn. by rewrite h_free_text, Hv1.
    - eexists. split; [|destruct Ht as [-> | ->]; reflexivity]. intros f [= <-].
      cbn [set_header_value set_name h_found]. by rewrite !h_free_found, Hf1. }
  rewrite fmap_cons. destruct kvs as [|kv' kvs].
  - cbn [fmap list_fmap join]. destruct (Hstep (lit "]" ++ rest)) as (h' & Hf' & ->); [by right|].
    exists h'. destruct (note_match _ _ _ _ _) as [f|e]; cbn [res_bind pick]; [|done].
    split; [done|]. intros f' [= <-]. by apply Hf'.
  - change (join (lit ",") (render_header (n, v) :: (render_header <$> kv' :: kvs)))
      with (render_header (n, v) ++ lit "," ++ join (lit ",") (render_header <$> kv' :: kvs)).
    rewrite <- !app_assoc.
    destruct (Hstep (lit "," ++ join (lit ",") (render_header <$> kv' :: kvs) ++ lit "]" ++ rest))
      as (h' & Hf' & ->); [by left|].
    change (cur (lit "," ++ ?x) =? chr ",") with true. cbv iota. change (zdrop 1 (lit "," ++ ?x)) with x.
    destruct (note_match _ _ _ _ _) as [f|e]; cbn [res_bind]; [|by exists h'].
    rewrite <- (Hf' f eq_refl). apply IH; [done|simpl in *; lia].
Qed.
End headers.

Lemma headers_get_rendered esc `{JsonEscape esc} kvs wanted rej :
  headers_ok kvs -> wanted <> [] ->
  (ducknng_http_headers_json_get_header (Some (render_headers esc kvs)) (Some wanted) rej).2 =
  lookup_spec rej (ducknng_format_name_error "ducknng: duplicate HTTP header '" wanted "'")
    (hits_of (fun n => ducknng_ascii_ieq (Some n) (Some wanted)) kvs).
Proof.
  intros Hok Hw. destruct wanted as [|c w]; [done|].
  unfold ducknng_http_headers_json_get_header, render_headers.
  change (ducknng_json_skip_ws (lit "[" ++ ?x)) with (chr "[" :: x). cbn [cur].
  rewrite Z.eqb_refl. cbn [negb]. rewrite zdrop_1.
  destruct kvs as [|kv kvs].
  - cbn. unfold lookup_spec. by rewrite andb_false_r.
  - set (kvs' := kv :: kvs) in *.
    destruct (join_head (lit ",") (render_header esc kv) (render_header esc <$> kvs) (lit "]")) as (tl & Etl).
    assert (ducknng_json_skip_ws (join (lit ",") (render_header esc <$> kvs') ++ lit "]")
      = join (lit ",") (render_header esc <$> kvs') ++ lit "]") as ->.
    { subst kvs'. rewrite fmap_cons, Etl. by apply skip_ws_stop. }
    assert (cur (join (lit ",") (render_header esc <$> kvs') ++ lit "]") =? chr "]" = false) as ->.
    { subst kvs'. by rewrite fmap_cons, Etl. }
    rewrite <- (app_nil_r (lit "]")).
    destruct (headers_loop_rendered esc (c :: w) rej kvs'
      (S (length (join (lit ",") (render_header esc <$> kvs') ++ lit "]" ++ []))) hdr_init []) as (h' & -> & Hf).
    { done. } { done. }
    { rewrite length_app. transitivity (length (join (lit ",") (render_header esc <$> kvs'))); [|lia].
      rewrite <- (length_fmap (render_header esc)). apply join_length.
      apply Forall_fmap, Forall_true. intros ? ?. done. }
    cbn [text h_found hdr_init fmap option_fmap option_map] in *. rewrite pick_spec in *.
    destruct (lookup_spec _ _ _) as [f|e] eqn:E; [|done]. simpl. f_equal. by apply Hf.
Qed.

(** *** Ownership of the work strings *)

Definition ids (q : heap_string) : list nat := option_list (fst <$> q).
Definition live (h : hdr) : list nat :=
  ids (h_key h) ++ ids (h_value h) ++ ids (h_name h) ++ ids (h_header_value h) ++ ids (h_found h).

(** Every allocation made so far is freed once or held by exactly one pointer. *)
Definition owned (h : hdr) : Prop := Permutation (h_freed h ++ live h) (seq 0 (h_next h)).

Lemma ids_Some i s : ids (Some (i, s)) = [i].
Proof. done. Qed.
Lemma ids_None : ids None = [].
Proof. done. Qed.

(** Permutations of concatenations, by counting. *)
Ltac perm_count :=
  rewrite !(Permutation_count_occ Nat.eq_dec) in *;
  let x := fresh "x" in intros x;
  repeat match goal with
  | Hp : forall y : nat, count_occ _ _ y = count_occ _ _ y |- _ => specialize (Hp x)
  end;
  repeat rewrite ?seq_S, ?count_occ_app, ?count_occ_nil, ?app_nil_r in *;
  rewrite ?ids_Some, ?ids_None in *; cbn [Nat.add] in *;
  repeat rewrite ?count_occ_app, ?count_occ_nil, ?Nat.add_0_l in *; lia.

Lemma fields_loop_owned fuel p h :
  owned h -> h_key h = None -> h_value h = None ->
  match header_fields_loop fuel p h with
  | (h', Ok _) => owned h' /\ h_key h' = None /\ h_value h' = None
  | (_, Err _) => True
  end.
Proof.
  revert p h. induction fuel as [|fuel IH]; intros p h Ho Hk Hv; [done|]. cbn [header_fields_loop].
  destruct (ducknng_json_parse_string_dup _) as [[k p1]|e]; [|done]. cbn [h_alloc].
  destruct (negb _); [done|].
  destruct (ducknng_json_parse_string_dup _) as [[v p2]|e]; [|done]. cbn [h_alloc].
  unfold owned, live in *. destruct h as [n fr key val nm hv fd]. cbn [h_key h_value] in Hk, Hv. subst.
  cbn -[ids seq count_occ cur lit chr header_fields_loop] in Ho |- *.
  destruct (str_eq k (lit "name")).
  - destruct nm; [by rewrite bool_decide_eq_true_2|]. rewrite bool_decide_eq_false_2 by auto.
    cbn -[ids seq cur header_fields_loop lit chr].
    destruct (cur _ =? chr ","); [|destruct (cur _ =? chr "}"); [|done]].
    + apply IH; [|done|done]. cbn -[ids seq]. perm_count.
    + cbn -[ids seq]. split; [|done]. perm_count.
  - destruct (str_eq k (lit "value")); [|done].
    destruct hv; [by rewrite bool_decide_eq_true_2|]. rewrite bool_decide_eq_false_2 by auto.
    cbn -[ids seq cur header_fields_loop lit chr].
    destruct (cur _ =? chr ","); [|destruct (cur _ =? chr "}"); [|done]].
    + apply IH; [|done|done]. cbn -[ids seq]. perm_count.
    + cbn -[ids seq]. split; [|done]. perm_count.
Qed.

Lemma headers_loop_owned fuel wanted rej p h :
  owned h -> h_key h = None -> h_value h = None -> h_name h = None -> h_header_value h = None ->
  match headers_loop fuel wanted rej p h with
  | (h', Ok _) => Permutation (h_freed h' ++ ids (h_found h')) (seq 0 (h_next h'))
  | (_, Err _) => True
  end.
Proof.
  revert p h. induction fuel as [|fuel IH]; intros p h Ho Hk Hv Hn Hhv; [done|]. cbn [headers_loop].
  destruct (negb _); [done|].
  set (h0 := set_key None _). assert (h0 = h) as -> by (destruct h; cbn in *; by subst).
  pose proof (fields_loop_owned (S (length (zdrop 1 (ducknng_json_skip_ws p))))
    (zdrop 1 (ducknng_json_skip_ws p)) h Ho Hk Hv) as Hf.
  destruct (header_fields_loop _ _ _) as [h1 [p1|e]]; [|done]. destruct Hf as (Ho1 & Hk1 & Hv1).
  clear Ho Hk Hv Hn Hhv h. destruct (_ || _)%bool; [done|]. destruct (negb _); [done|].
  unfold owned, live in *. destruct h1 as [n fr key val nm hv fd].
  cbn [h_key h_value h_name h_header_value h_found h_freed h_next] in *. subst.
  destruct (ducknng_ascii_ieq _ _); [destruct (_ && _)%bool; [done|]|];
    destruct nm as [[]|], hv as [[]|], fd as [[]|]; cbn -[ids seq cur headers_loop lit chr];
    (destruct (cur _ =? chr ",");
      [apply IH; [|done..]; cbn -[ids seq]; perm_count|
       destruct (cur _ =? chr "]"); [|done]; cbn -[ids seq]; perm_count]).
Qed.

(** ** Percent decoding *)

(** [%XX] for a reserved character, the character itself otherwise. *)
Definition percent_char (keep : Z -> bool) (c : Z) : bytes :=
  if keep c then [c] else [chr "%"; hex_digit (c / 16); hex_digit (c mod 16)].
Definition percent_encode (keep : Z -> bool) (s : bytes) : bytes := s ≫= percent_char keep.

(** A choice of unescaped characters that the query grammar leaves alone. *)
Definition keeps_plain (keep : Z -> bool) : Prop :=
  forall c, keep c = true ->
    c <> chr "%" /\ c <> chr "+" /\ c <> chr "&" /\ c <> chr "=".

Lemma hex_byte c : is_char c ->
  ducknng_hex_value (hex_digit (c / 16)) = c / 16 /\
  ducknng_hex_value (hex_digit (c mod 16)) = c mod 16 /\
  u8 (Z.lor (Z.shiftl (c / 16) 4) (c mod 16)) = c.
Proof.
  intros Hc. assert (is_byte c) as Hb by (unfold is_char, is_byte in *; lia).
  apply (byte_forall (fun c => (ducknng_hex_value (hex_digit (c / 16)) =? c / 16) &&
    (ducknng_hex_value (hex_digit (c mod 16)) =? c mod 16) &&
    (u8 (Z.lor (Z.shiftl (c / 16) 4) (c mod 16)) =? c))%bool) in Hb; [|by vm_compute].
  by btests.
Qed.

Lemma percent_encode_cons keep c s :
  percent_encode keep (c :: s) = percent_char keep c ++ percent_encode keep s.
Proof. done. Qed.

Lemma percent_roundtrip keep label s out :
  keeps_plain keep -> cstr s ->
  percent_decode_loop (percent_encode keep s) true label out = Ok (out ++ s).
Proof.
  intros Hkeep Hs. revert out. induction Hs as [|c s Hc Hs IH]; intros out.
  - by rewrite app_nil_r.
  - rewrite percent_encode_cons. unfold percent_char. destruct (keep c) eqn:Ek.
    + destruct (Hkeep c Ek) as (H1 & H2 & _). cbn [app percent_decode_loop andb].
      destruct (Z.eqb_spec c (chr "%")); [done|]. destruct (Z.eqb_spec c (chr "+")); [done|].
      rewrite (IH (out ++ [c])). by rewrite <- app_assoc.
    + cbn [app percent_decode_loop]. rewrite Z.eqb_refl.
      destruct (hex_byte c Hc) as (-> & -> & ->). unfold is_char in Hc.
      destruct (Z.ltb_spec (c / 16) 0); [Z.div_mod_to_equations; lia|].
      destruct (Z.ltb_spec (c mod 16) 0); [Z.div_mod_to_equations; lia|]. cbn [orb].
      destruct (Z.eqb_spec c 0); [lia|]. rewrite (IH (out ++ [c])). by rewrite <- app_assoc.
Qed.

Lemma break_at_skip c s rest : c ∉ s -> break_at c (s ++ c :: rest) = (s, Some rest).
Proof.
  intros H. induction s as [|x s IH]; cbn [app break_at]; [by rewrite Z.eqb_refl|].
  apply not_elem_of_cons in H as [H1 H2]. destruct (Z.eqb_spec x c); [by subst|]. by rewrite (IH H2).
Qed.

Lemma break_at_none c s : c ∉ s -> break_at c s = (s, None).
Proof.
  intros H. induction s as [|x s IH]; cbn [break_at]; [done|].
  apply not_elem_of_cons in H as [H1 H2]. destruct (Z.eqb_spec x c); [by subst|]. by rewrite (IH H2).
Qed.

Lemma percent_encode_plain keep s d :
  keeps_plain keep -> cstr s -> d = chr "&" \/ d = chr "=" -> d ∉ percent_encode keep s.
Proof.
  intros Hk Hs Hd. induction Hs as [|c s Hc Hs IH]; [apply not_elem_of_nil|].
  rewrite percent_encode_cons, not_elem_of_app. split; [|apply IH].
  unfold percent_char. destruct (keep c) eqn:Ek.
  - destruct (Hk c Ek) as (_ & _ & H1 & H2). rewrite list_elem_of_singleton. by destruct Hd as [-> | ->].
  - assert (forall x, 0 <= x < 16 -> hex_digit x <> chr "&" /\ hex_digit x <> chr "=") as Hx.
    { intros x Hx. unfold hex_digit. change (chr "&") with 38. change (chr "=") with 61. cases_goal; btests; lia. }
    unfold is_char in Hc. pose proof (Hx (c / 16)). pose proof (Hx (c mod 16)).
    assert (0 <= c / 16 < 16) by (Z.div_mod_to_equations; lia).
    assert (0 <= c mod 16 < 16) by (Z.div_mod_to_equations; lia).
    rewrite !not_elem_of_cons. change (chr "%") with 37.
    destruct Hd as [-> | ->]; change (chr "&") with 38 in *; change (chr "=") with 61 in *;
      repeat split; try (apply not_elem_of_nil); lia.
Qed.

Definition render_pair (keep : Z -> bool) (kv : bytes * bytes) : bytes :=
  percent_encode keep kv.1 ++ lit "=" ++ percent_encode keep kv.2.
Definition render_query (keep : Z -> bool) (kvs : list (bytes * bytes)) : bytes :=
  join (lit "&") (render_pair keep <$> kvs).

Lemma query_loop_rendered keep kvs wanted rej found fuel :
  keeps_plain keep -> fields_ok kvs -> (length kvs <= fuel)%nat ->
  query_loop fuel wanted rej (render_query keep kvs) found =
  pick (fun n => str_eq n wanted) rej
    (ducknng_format_name_error "ducknng: duplicate query parameter '" wanted "'") found kvs.
Proof.
  intros Hkeep Hok. revert found fuel. induction Hok as [|[k v] kvs [Hk Hv] Hok IH]; intros found fuel Hf; [by destruct fuel|].
  cbn [fst snd] in *. destruct fuel as [|fuel]; [simpl in Hf; lia|].
  assert (break_at (chr "&") (render_query keep ((k, v) :: kvs)) =
    (render_pair keep (k, v), match kvs with [] => None | _ => Some (render_query keep kvs) end)) as Hb.
  { assert (chr "&" ∉ render_pair keep (k, v)) as Hp.
    { unfold render_pair. cbn [fst snd]. rewrite !not_elem_of_app.
      split; [by apply percent_encode_plain; auto|]. split; [|by apply percent_encode_plain; auto].
      apply (bool_decide_unpack _). by vm_compute. }
    unfold render_query. rewrite fmap_cons. destruct kvs as [|kv' kvs]; [by apply break_at_none|].
    by apply break_at_skip. }
  assert (break_at (chr "=") (render_pair keep (k, v)) =
    (percent_encode keep k, Some (percent_encode keep v))) as He.
  { unfold render_pair. apply break_at_skip. by apply percent_encode_plain; auto. }
  assert (exists c q, render_query keep ((k, v) :: kvs) = c :: q) as (c & q & Eq).
  { unfold render_query. rewrite fmap_cons.
    destruct (join_head (lit "&") (render_pair keep (k, v)) (render_pair keep <$> kvs) []) as (tl & Etl).
    rewrite app_nil_r in Etl. rewrite Etl. unfold render_pair. cbn [fst snd].
    destruct (percent_encode keep k); by do 2 eexists. }
  cbn [query_loop pick]. rewrite Eq. rewrite <- Eq, Hb, He. unfold ducknng_percent_decode_dup.
  rewrite !percent_roundtrip by done. cbn [res_bind app default]. unfold id.
  rewrite percent_roundtrip by done. cbn [res_bind app].
  unfold note_match. destruct (str_eq k wanted); [destruct (_ && _)%bool; [done|]|];
    cbn [res_bind]; (rewrite <- (IH _ fuel) by (simpl in Hf; lia); f_equal; by destruct kvs).
Qed.

(** ** Cookies *)

Lemma join_cons sep x y l : join sep (x :: y :: l) = x ++ sep ++ join sep (y :: l).
Proof. done. Qed.

Section cookies.
Context (quoted : bytes -> bool).

Definition render_cookie (kv : bytes * bytes) : bytes :=
  kv.1 ++ lit "=" ++ (if quoted kv.2 then QUOTE :: kv.2 ++ [QUOTE] else kv.2).
Definition render_cookies (kvs : list (bytes * bytes)) : bytes :=
  join (lit "; ") (render_cookie <$> kvs).

Definition cookie_ok (kv : bytes * bytes) : Prop :=
  Forall (fun c => c <> chr ";" /\ c <> chr "=" /\ is_blank c = false) kv.1 /\
  chr ";" ∉ kv.2 /\
  (quoted kv.2 = false -> Forall (fun c => is_blank c = false /\ c <> QUOTE) kv.2).

Lemma trim_left_id s : is_blank (cur s) = false -> trim_left s = s.
Proof. destruct s as [|c s]; [done|]. cbn [cur trim_left]. by intros ->. Qed.

Lemma trim_right_id s : is_blank (cur (rev s)) = false -> trim_right s = s.
Proof. intros H. unfold trim_right. rewrite trim_left_id by done. apply rev_involutive. Qed.

Lemma cur_unblank s : Forall (fun c => is_blank c = false) s -> is_blank (cur s) = false.
Proof. by intros []. Qed.

Lemma cookie_value_scanned kv :
  cookie_ok kv ->
  unquote (trim_right (trim_left (if quoted kv.2 then QUOTE :: kv.2 ++ [QUOTE] else kv.2))) = kv.2.
Proof.
  intros (_ & _ & Hv). destruct (quoted kv.2).
  - rewrite trim_left_id, trim_right_id; [|cbn [rev]; by rewrite rev_app_distr|done].
    unfold unquote. rewrite zlen_cons, zlen_app, zlen_cons, zlen_nil. pose proof (zlen_nonneg kv.2).
    destruct (Z.leb_spec 2 (1 + (zlen kv.2 + (1 + 0)))); [|lia].
    change (cur (rev (QUOTE :: kv.2 ++ [QUOTE]))) with (cur (rev (kv.2 ++ [QUOTE]) ++ [QUOTE])).
    rewrite rev_app_distr. cbn [cur app rev]. rewrite Z.eqb_refl. cbn [andb]. rewrite zdrop_1.
    apply ztake_app_len. lia.
  - specialize (Hv eq_refl).
    assert (Forall (fun c => is_blank c = false) kv.2) as Hb by (eapply Forall_impl; [exact Hv|]; naive_solver).
    rewrite trim_left_id, trim_right_id by (apply cur_unblank; auto using Forall_rev).
    unfold unquote. destruct kv.2 as [|c v]; [done|]. apply Forall_cons in Hv as [[_ Hq] _].
    cbn [cur]. destruct (Z.eqb_spec c QUOTE); [done|]. by rewrite andb_false_r.
Qed.

Lemma cookie_loop_rendered kvs wanted rej found fuel pad :
  Forall cookie_ok kvs -> (length kvs <= fuel)%nat -> pad = [] \/ (pad = [32] /\ kvs <> []) ->
  cookie_loop fuel wanted rej (pad ++ render_cookies kvs) found =
  pick (fun n => str_eq n wanted) rej
    (ducknng_format_name_error "ducknng: duplicate cookie '" wanted "'") found kvs.
Proof.
  intros Hok. revert found fuel pad. induction Hok as [|[k v] kvs Hkv Hok IH]; intros found fuel pad Hf Hp.
  { destruct Hp as [-> |[_ ?]]; [by destruct fuel|done]. }
  destruct fuel as [|fuel]; [simpl in Hf; lia|].
  pose proof Hkv as (Hk & Hsemi & _). cbn [fst snd] in Hk, Hsemi.
  assert (chr ";" ∉ pad ++ render_cookie (k, v)) as Hp'.
  { rewrite not_elem_of_app. split.
    { destruct Hp as [-> |[-> _]]; apply (bool_decide_unpack _); by vm_compute. }
    unfold render_cookie. cbn [fst snd]. rewrite !not_elem_of_app. split; [|split].
    - intros Hin. rewrite Forall_forall in Hk. by destruct (Hk _ Hin).
    - apply (bool_decide_unpack _); by vm_compute.
    - destruct (quoted v); [|done]. rewrite not_elem_of_cons, not_elem_of_app. split; [done|].
      split; [done|]. apply (bool_decide_unpack _); by vm_compute. }
  assert (break_at (chr ";") (pad ++ render_cookies ((k, v) :: kvs)) =
    (pad ++ render_cookie (k, v), match kvs with [] => None | _ => Some ([32] ++ render_cookies kvs) end)) as Hb.
  { unfold render_cookies. rewrite fmap_cons. destruct kvs as [|kv' kvs]; [by apply break_at_none|].
    rewrite fmap_cons, join_cons, app_assoc. by apply break_at_skip. }
  assert (trim_left (pad ++ render_cookie (k, v)) = render_cookie (k, v)) as Ht.
  { assert (trim_left (render_cookie (k, v)) = render_cookie (k, v)) as Hr.
    { apply trim_left_id. destruct k as [|c k]; [done|]. apply Forall_cons in Hk as [(_ & _ & ?) _]. done. }
    destruct Hp as [-> |[-> _]]; done. }
  assert (exists c q, pad ++ render_cookies ((k, v) :: kvs) = c :: q) as (c & q & Eq).
  { unfold render_cookies. rewrite fmap_cons.
    destruct (join_head (lit "; ") (render_cookie (k, v)) (render_cookie <$> kvs) []) as (tl & Etl).
    rewrite app_nil_r in Etl. rewrite Etl. unfold render_cookie. cbn [fst snd].
    destruct pad, k; by do 2 eexists. }
  cbn [cookie_loop pick]. rewrite Eq. rewrite <- Eq, Hb, Ht.
  assert (break_at (chr "=") (render_cookie (k, v)) =
    (k, Some (if quoted v then QUOTE :: v ++ [QUOTE] else v))) as ->.
  { apply break_at_skip. intros Hin. rewrite Forall_forall in Hk. by destruct (Hk _ Hin) as (_ & ? & _). }
  pose proof (cookie_value_scanned (k, v) Hkv) as Hscan. cbn [fst snd] in Hscan. rewrite Hscan.
  assert (trim_right k = k) as ->.
  { apply trim_right_id, cur_unblank, Forall_rev. eapply Forall_impl; [exact Hk|]. naive_solver. }
  destruct (note_match _ _ _ _ _) as [f|e]; [|done]. cbn [res_bind].
  destruct kvs as [|kv' kvs]; [by destruct fuel|].
  apply IH; [simpl in *; lia|by right].
Qed.
End cookies.

(** ** No scanner runs out of fuel *)

(** [r] is an answer of the scanner itself, not an exhausted loop. *)
Definition answered {A} (r : result bytes A) : Prop :=
  match r with Ok _ => True | Err e => own_error e end.

Lemma answered_bind {A C} (m : result bytes A) (f : A -> result bytes C) :
  answered m -> (forall a, m = Ok a -> answered (f a)) -> answered (let! a := m in f a).
Proof. destruct m; cbn; auto. Qed.

Lemma answered_parse p : answered (ducknng_json_parse_string_dup p).
Proof. pose proof (parse_string_shrinks p). by destruct (ducknng_json_parse_string_dup p) as [[]|]. Qed.

Lemma parse_shrinks p s q : ducknng_json_parse_string_dup p = Ok (s, q) -> (length q < length p)%nat.
Proof. intros E. pose proof (parse_string_shrinks p) as H. by rewrite E in H. Qed.

Ltac shrink :=
  repeat match goal with
  | H : ducknng_json_parse_string_dup _ = Ok (_, _) |- _ => apply parse_shrinks in H
  end;
  repeat match goal with
  | |- context [length (ducknng_json_skip_ws ?p)] =>
    lazymatch goal with H : (length (ducknng_json_skip_ws p) <= length p)%nat |- _ => fail
    | _ => pose proof (skip_ws_shrinks p) end
  | H : context [length (ducknng_json_skip_ws ?p)] |- _ =>
    lazymatch goal with H : (length (ducknng_json_skip_ws p) <= length p)%nat |- _ => fail
    | _ => pose proof (skip_ws_shrinks p) end
  | |- context [length (zdrop 1 ?p)] =>
    lazymatch goal with H : (length (zdrop 1 p) <= length p)%nat |- _ => fail
    | _ => pose proof (zdrop1_shrinks p) end
  | H : context [length (zdrop 1 ?p)] |- _ =>
    lazymatch goal with H : (length (zdrop 1 p) <= length p)%nat |- _ => fail
    | _ => pose proof (zdrop1_shrinks p) end
  end; lia.

Lemma answered_note m rej found v w before after :
  cur (lit before) = chr "d" ->
  answered (note_match m rej found v (ducknng_format_name_error before w after)).
Proof.
  intros H. unfold note_match. destruct m; [|done]. destruct (_ && _)%bool; [|done].
  cbn. unfold own_error, ducknng_format_name_error. by destruct (lit before).
Qed.

Lemma object_loop_answers w ci rej fuel p found :
  (length p < fuel)%nat -> answered (json_object_loop w ci rej fuel p found).
Proof.
  revert p found. induction fuel as [|fuel IH]; intros p found Hf; [lia|]. cbn [json_object_loop].
  apply answered_bind; [apply answered_parse|]. intros [k p1] E1. destruct (negb _); [done|].
  apply answered_bind; [apply answered_parse|]. intros [v p2] E2.
  apply answered_bind; [by apply answered_note|]. intros f _.
  destruct (_ =? _); [apply IH; shrink|]. by destruct (_ =? _).
Qed.

Lemma array_loop_answers w fuel p count found :
  (length p < fuel)%nat -> answered (json_array_loop fuel w p count found).
Proof.
  revert p count found. induction fuel as [|fuel IH]; intros p count found Hf; [lia|]. cbn [json_array_loop].
  apply answered_bind; [apply answered_parse|]. intros [k p1] E1.
  destruct (_ =? _); [apply IH; shrink|]. by destruct (_ =? _).
Qed.

(** The field loop answers, and consumes its input. *)
Lemma fields_loop_answers fuel p h :
  (length p < fuel)%nat ->
  match (header_fields_loop fuel p h).2 with
  | Ok q => (length q < length p)%nat
  | Err e => own_error e
  end.
Proof.
  revert p h. induction fuel as [|fuel IH]; intros p h Hf; [lia|]. cbn [header_fields_loop].
  pose proof (answered_parse (ducknng_json_skip_ws p)) as A1.
  destruct (ducknng_json_parse_string_dup (ducknng_json_skip_ws p)) as [[k p1]|e] eqn:E1; [|done].
  cbn [h_alloc]. destruct (negb _); [done|].
  set (p2 := ducknng_json_skip_ws (zdrop 1 (ducknng_json_skip_ws p1))).
  pose proof (answered_parse p2) as A2.
  destruct (ducknng_json_parse_string_dup p2) as [[v p3]|e] eqn:E2; [|done]. cbn [h_alloc].
  destruct (if str_eq k (lit "name") then _ else _) as [h'|[h' e]] eqn:Es.
  - apply parse_shrinks in E1, E2. subst p2.
    pose proof (skip_ws_shrinks p). pose proof (skip_ws_shrinks p1). pose proof (skip_ws_shrinks p3).
    pose proof (zdrop1_shrinks (ducknng_json_skip_ws p1)).
    pose proof (zdrop1_shrinks (ducknng_json_skip_ws p3)).
    pose proof (skip_ws_shrinks (zdrop 1 (ducknng_json_skip_ws p1))).
    destruct (_ =? _).
    + match goal with |- context [header_fields_loop fuel ?q ?h1] =>
        pose proof (IH q h1 ltac:(lia)) as Hrec; destruct (header_fields_loop fuel q h1) as [? [?|?]] end;
        cbn [snd] in *; [lia|done].
    + destruct (_ =? _); cbn [snd]; [lia|done].
  - cbn [snd]. cases_in Es; by injection Es as <- <-.
Qed.

Lemma headers_loop_answers fuel w rej p h :
  (length p < fuel)%nat -> answered (headers_loop fuel w rej p h).2.
Proof.
  revert p h. induction fuel as [|fuel IH]; intros p h Hf; [lia|]. cbn [headers_loop].
  destruct (negb _); [done|].
  match goal with |- context [header_fields_loop ?n ?q ?h1] =>
    pose proof (fields_loop_answers n q h1 ltac:(lia)) as Hfl;
    destruct (header_fields_loop n q h1) as [h2 [p1|e]] end; cbn [snd] in Hfl; [|done].
  destruct (_ || _)%bool; [done|]. destruct (negb _); [done|].
  match goal with |- context [match ?x with inl _ => _ | inr _ => _ end] => destruct x as [h3|[h3 e]] eqn:Es end.
  - pose proof (skip_ws_shrinks p). pose proof (zdrop1_shrinks (ducknng_json_skip_ws p)).
    pose proof (skip_ws_shrinks p1). pose proof (zdrop1_shrinks (ducknng_json_skip_ws p1)).
    destruct (_ =? _); [apply IH; lia|]. by destruct (_ =? _).
  - cases_in Es; cbn in Es; try done; by injection Es as <- <-.
Qed.

Lemma answered_decode src plus label : answered (ducknng_percent_decode_dup src plus label).
Proof.
  unfold ducknng_percent_decode_dup. generalize (@nil Z). remember (length src) as n eqn:Hn.
  assert (length src <= n)%nat as Hle by lia. clear Hn. revert src Hle.
  induction n as [|n IH]; intros [|c src] Hle out; try done; [simpl in Hle; lia|]. simpl in Hle.
  cbn [percent_decode_loop]. destruct (c =? chr "%"); [|destruct (_ && _)%bool; apply IH; lia].
  destruct src as [|h [|l src]]; try done. simpl in Hle.
  destruct (_ || _)%bool; [done|]. destruct (_ =? 0); [done|]. apply IH. lia.
Qed.

Lemma break_at_shrinks c s : (length (default [] (break_at c s).2) <= length s - 1)%nat.
Proof.
  induction s as [|x s IH]; [done|]. cbn [break_at]. destruct (x =? c); [simpl; lia|].
  destruct (break_at c s) as [a b]. simpl in *. lia.
Qed.

Lemma query_loop_answers w rej fuel p found :
  (length p <= fuel)%nat -> answered (query_loop fuel w rej p found).
Proof.
  revert p found. induction fuel as [|fuel IH]; intros [|c p] found Hf; try done; [simpl in Hf; lia|].
  cbn [query_loop]. pose proof (break_at_shrinks (chr "&") (c :: p)) as Hb.
  destruct (break_at (chr "&") (c :: p)) as [seg rest]. destruct (break_at (chr "=") seg) as [n v].
  apply answered_bind; [apply answered_decode|]. intros name _.
  apply answered_bind.
  - destruct (str_eq _ _); [|done]. destruct (_ && _)%bool; [done|].
    apply answered_bind; [apply answered_decode|done].
  - intros f _. apply IH. simpl in *. lia.
Qed.

Lemma cookie_loop_answers w rej fuel p found :
  (length p <= fuel)%nat -> answered (cookie_loop fuel w rej p found).
Proof.
  revert p found. induction fuel as [|fuel IH]; intros [|c p] found Hf; try done; [simpl in Hf; lia|].
  cbn [cookie_loop]. pose proof (break_at_shrinks (chr ";") (c :: p)) as Hb.
  destruct (break_at (chr ";") (c :: p)) as [seg rest].
  destruct (break_at (chr "=") (trim_left seg)) as [n [v|]].
  - apply answered_bind; [by apply answered_note|]. intros f _. apply IH. simpl in *. lia.
  - apply IH. simpl in *. lia.
Qed.

Lemma answered_fuel {A} (r : result bytes A) : answered r -> r <> Err out_of_fuel.
Proof. intros H ->. cbv in H. lia. Qed.

(** ** Claims *)

(** JSON field lookup.  On any object of string fields, written by any
    correct JSON string encoder, [ducknng_json_object_get_string] returns the
    value of the wanted field: absent, it reports 0; present several times,
    the last value wins, or the call fails with the duplicate-field message
    when duplicates are rejected.  Field names compare exactly or ignoring
    ASCII case, as asked. *)
Theorem json_field_lookup esc `{JsonEscape esc} kvs wanted ci rej :
  fields_ok kvs -> wanted <> [] ->
  ducknng_json_object_get_string (Some (render_object esc kvs)) (Some wanted) ci rej =
  lookup_spec rej (ducknng_format_name_error "ducknng: duplicate JSON field '" wanted "'")
    (hits_of (fun key => if ci then ducknng_ascii_ieq (Some key) (Some wanted) else str_eq key wanted) kvs).
Proof. apply object_get_rendered. apply _. Qed.

(** The registry's escaper, an instance for the examples. *)
Definition plain_escape (c : Z) : bytes :=
  if ((c =? BACKSLASH) || (c =? QUOTE))%bool then [BACKSLASH; c]
  else if c <? 0x20 then unicode_escape c else [c].

#[export] Instance plain_escape_ok : JsonEscape plain_escape.
Proof.
  constructor. intros c rest buf Hc. unfold plain_escape.
  destruct (Z.eqb_spec c BACKSLASH) as [-> |]; [by apply string_loop_simple|].
  destruct (Z.eqb_spec c QUOTE) as [-> |]; [by apply string_loop_simple|]. cbn [orb].
  destruct (Z.ltb_spec c 0x20); [by apply string_loop_escape|]. by apply string_loop_plain.
Qed.

Lemma json_field_lookup_witness :
  fields_ok [(lit "a", lit "1"); (lit "B", lit "2")] /\
  ducknng_json_object_get_string
    (Some (render_object plain_escape [(lit "a", lit "1"); (lit "B", lit "2")]))
    (Some (lit "b")) true true = Ok (Some (lit "2")).
Proof.
  assert (fields_ok [(lit "a", lit "1"); (lit "B", lit "2")]) as H
    by (apply (bool_decide_unpack _); vm_compute; exact I).
  split; [exact H|].
  refine (eq_trans (json_field_lookup plain_escape _ (lit "b") true true H _) _);
    [discriminate|vm_compute; reflexivity].
Defined.

(** Header lookup.  On any array of [{name, value}] objects with non-empty
    names and control-free values, [ducknng_http_headers_json_get_header]
    returns the value of the header whose name matches ignoring ASCII case,
    the last one or the duplicate error as asked; and whenever the call
    succeeds, on any input at all, each string it allocated was freed exactly
    once, except the one it returns, which was not freed. *)
Theorem header_lookup esc `{JsonEscape esc} kvs json wanted rej :
  headers_ok kvs -> wanted <> [] ->
  (ducknng_http_headers_json_get_header (Some (render_headers esc kvs)) (Some wanted) rej).2 =
    lookup_spec rej (ducknng_format_name_error "ducknng: duplicate HTTP header '" wanted "'")
      (hits_of (fun n => ducknng_ascii_ieq (Some n) (Some wanted)) kvs) /\
  (let (h, r) := ducknng_http_headers_json_get_header json (Some wanted) rej in
   match r with
   | Ok out => Permutation (h_freed h ++ ids (h_found h)) (seq 0 (h_next h)) /\
               text (h_found h) = out
   | Err _ => True
   end).
Proof.
  intros Hok Hw. split; [by apply headers_get_rendered|]. destruct wanted as [|c w]; [done|].
  unfold ducknng_http_headers_json_get_header. destruct json as [json|]; [|by split].
  destruct (negb _); [done|]. destruct (_ =? _).
  { destruct (ducknng_json_skip_ws (zdrop 1 _)); [by split|done]. }
  match goal with |- context [headers_loop ?n ?w ?r ?p ?h] =>
    pose proof (headers_loop_owned n w r p h) as Ho; destruct (headers_loop n w r p h) as [h' [q|e]] end; [|done].
  destruct (ducknng_json_skip_ws q); [|done]. split; [|done].
  apply Ho; [apply perm_nil|done..].
Qed.

Lemma header_lookup_witness :
  headers_ok [(lit "Host", lit "h"); (lit "Accept", lit "x")] /\
  (ducknng_http_headers_json_get_header
    (Some (render_headers plain_escape [(lit "Host", lit "h"); (lit "Accept", lit "x")]))
    (Some (lit "accept")) true).2 = Ok (Some (lit "x")).
Proof.
  assert (headers_ok [(lit "Host", lit "h"); (lit "Accept", lit "x")]) as H
    by (apply (bool_decide_unpack _); vm_compute; exact I).
  split; [exact H|].
  refine (eq_trans (proj1 (header_lookup plain_escape _ None (lit "accept") true H _)) _);
    [discriminate|vm_compute; reflexivity].
Defined.

(** A malformed header object is freed twice.  When a header object holds a
    field other than [name] and [value], the scanner frees the field's key and
    value and then reaches the [fail] label with both pointers still set, which
    frees them again. *)
Theorem header_error_double_free :
  let (h, r) := ducknng_http_headers_json_get_header
    (Some (lit "[" ++ render_object plain_escape [(lit "nome", lit "x")] ++ lit "]"))
    (Some (lit "host")) true in
  r = Err (lit "ducknng: headers_json objects may contain only name and value fields") /\
  h_freed h = [0; 1; 0; 1]%nat /\ h_next h = 2%nat.
Proof. vm_compute. auto. Qed.

(** Query parameters.  On any query string built from percent-encoded
    name/value pairs, [ducknng_query_string_get_param] returns the decoded
    value of the wanted parameter: the last one, or the duplicate error when
    duplicates are rejected; every byte of a value other than NUL survives. *)
Theorem query_param_lookup keep kvs wanted rej :
  keeps_plain keep -> fields_ok kvs -> wanted <> [] ->
  ducknng_query_string_get_param (Some (render_query keep kvs)) (Some wanted) rej =
  lookup_spec rej (ducknng_format_name_error "ducknng: duplicate query parameter '" wanted "'")
    (hits_of (fun n => str_eq n wanted) kvs).
Proof.
  intros Hk Hok Hw. destruct wanted as [|c w]; [done|]. unfold ducknng_query_string_get_param.
  rewrite <- pick_spec. apply query_loop_rendered; [done|done|].
  unfold render_query. rewrite <- (length_fmap (render_pair keep)). apply join_length.
  apply Forall_fmap, Forall_true. intros kv E. unfold render_pair in E.
  by destruct (percent_encode keep kv.1).
Qed.

Lemma query_param_lookup_witness :
  keeps_plain (fun c => (97 <=? c) && (c <=? 122))%bool /\
  ducknng_query_string_get_param
    (Some (render_query (fun c => (97 <=? c) && (c <=? 122))%bool
       [(lit "q", lit "a b&c"); (lit "r", lit "1")])) (Some (lit "q")) true
  = Ok (Some (lit "a b&c")).
Proof.
  assert (keeps_plain (fun c => (97 <=? c) && (c <=? 122))%bool) as Hk.
  { intros c Hc. apply andb_true_iff in Hc as [H1 H2]. apply Z.leb_le in H1, H2.
    change (chr "%") with 37. change (chr "+") with 43. change (chr "&") with 38. change (chr "=") with 61. lia. }
  split; [exact Hk|].
  refine (eq_trans (query_param_lookup _ _ (lit "q") true Hk _ _) _);
    [apply (bool_decide_unpack _); vm_compute; exact I|discriminate|vm_compute; reflexivity].
Defined.

(** Cookies.  On any [Cookie] header of the usual form, with values raw or in
    double quotes, [ducknng_cookie_header_get_value] returns the wanted
    cookie's value without its quotes: the last one, or the duplicate error
    when duplicates are rejected. *)
Theorem cookie_lookup quoted kvs wanted rej :
  Forall (cookie_ok quoted) kvs -> wanted <> [] ->
  ducknng_cookie_header_get_value (Some (render_cookies quoted kvs)) (Some wanted) rej =
  lookup_spec rej (ducknng_format_name_error "ducknng: duplicate cookie '" wanted "'")
    (hits_of (fun n => str_eq n wanted) kvs).
Proof.
  intros Hok Hw. destruct wanted as [|c w]; [done|]. unfold ducknng_cookie_header_get_value.
  rewrite <- pick_spec. apply (cookie_loop_rendered quoted kvs (c :: w) rej None _ []); [done| |by left].
  unfold render_cookies. rewrite <- (length_fmap (render_cookie quoted)). apply join_length.
  apply Forall_fmap, Forall_true. intros kv E. unfold render_cookie in E. by destruct kv.1.
Qed.

Lemma cookie_lookup_witness :
  ducknng_cookie_header_get_value
    (Some (render_cookies (fun v => bool_decide (32 ∈ v)) [(lit "a", lit "1"); (lit "sid", lit "x y")]))
    (Some (lit "sid")) false = Ok (Some (lit "x y")).
Proof.
  refine (eq_trans (cookie_lookup _ _ (lit "sid") false _ _) _);
    [|discriminate|vm_compute; reflexivity].
  repeat (apply Forall_cons_2; [|]); [| |apply Forall_nil_2];
    (split; [|split]; [apply (bool_decide_unpack _); vm_compute; exact I|
      apply (bool_decide_unpack _); vm_compute; exact I|]).
  - intros _. apply (bool_decide_unpack _); vm_compute; exact I.
  - intros E. vm_compute in E. discriminate E.
Defined.

(** C40.  The scanners terminate: on every input, each of the five lookup
    functions returns an answer of its own; the fuel the model gives their
    loops is never exhausted. *)
Theorem scanners_terminate text_in wanted ci rej :
  ducknng_json_object_get_string text_in wanted ci rej <> Err out_of_fuel /\
  ducknng_json_string_array_contains text_in wanted <> Err out_of_fuel /\
  (ducknng_http_headers_json_get_header text_in wanted rej).2 <> Err out_of_fuel /\
  ducknng_query_string_get_param text_in wanted rej <> Err out_of_fuel /\
  ducknng_cookie_header_get_value text_in wanted rej <> Err out_of_fuel.
Proof.
  destruct text_in as [t|]; [|by destruct wanted as [[]|]].
  repeat split; apply answered_fuel.
  - destruct wanted as [[|c w]|]; try done. cbn [ducknng_json_object_get_string].
    destruct (negb _); [done|]. destruct (_ =? _); [by destruct (ducknng_json_skip_ws (zdrop 1 _))|].
    apply answered_bind; [apply object_loop_answers; lia|]. intros [f p] _. by destruct (ducknng_json_skip_ws p).
  - cbn [ducknng_json_string_array_contains]. destruct (negb _); [done|].
    apply answered_bind; [|intros [[f n] p] _; by destruct (ducknng_json_skip_ws (zdrop 1 p))].
    destruct (negb _); [apply array_loop_answers; lia|done].
  - destruct wanted as [[|c w]|]; try done. cbn [ducknng_http_headers_json_get_header].
    destruct (negb _); [done|]. destruct (_ =? _); [by destruct (ducknng_json_skip_ws (zdrop 1 _))|].
    match goal with |- context [headers_loop ?n ?w ?r ?p ?h] =>
      pose proof (headers_loop_answers n w r p h ltac:(lia)) as Ho;
      destruct (headers_loop n w r p h) as [h' [q|e]] end; [|done].
    by destruct (ducknng_json_skip_ws q).
  - destruct wanted as [[|c w]|]; try done. by apply query_loop_answers.
  - destruct wanted as [[|c w]|]; try done. by apply cookie_loop_answers.
Qed.
