(* ===== verification/Transport.v ===== *)
(** Transport URLs: [src/src/ducknng_transport.c].

    [tolower] is the C locale's. *)

From S2P Require Import Prelude Util.

Inductive ducknng_transport_family :=
| DUCKNNG_TRANSPORT_FAMILY_UNKNOWN | DUCKNNG_TRANSPORT_FAMILY_NNG | DUCKNNG_TRANSPORT_FAMILY_HTTP.

Inductive ducknng_transport_scheme :=
| DUCKNNG_TRANSPORT_SCHEME_UNKNOWN | DUCKNNG_TRANSPORT_SCHEME_INPROC
| DUCKNNG_TRANSPORT_SCHEME_IPC | DUCKNNG_TRANSPORT_SCHEME_TCP
| DUCKNNG_TRANSPORT_SCHEME_TLS_TCP | DUCKNNG_TRANSPORT_SCHEME_WS
| DUCKNNG_TRANSPORT_SCHEME_WSS | DUCKNNG_TRANSPORT_SCHEME_HTTP
| DUCKNNG_TRANSPORT_SCHEME_HTTPS.

#[export] Instance family_eq_dec : EqDecision ducknng_transport_family.
Proof. solve_decision. Defined.
#[export] Instance scheme_eq_dec : EqDecision ducknng_transport_scheme.
Proof. solve_decision. Defined.

Record ducknng_transport_url := mk_url {
  family : ducknng_transport_family;
  scheme : ducknng_transport_scheme;
  uses_tls : bool }.

Definition ducknng_transport_url_init : ducknng_transport_url :=
  mk_url DUCKNNG_TRANSPORT_FAMILY_UNKNOWN DUCKNNG_TRANSPORT_SCHEME_UNKNOWN false.

Fixpoint scheme_chars (url want : bytes) : bool :=
  match url, want with
  | c :: url, w :: want =>
    if negb (ducknng_ascii_tolower_int c =? w) then false else scheme_chars url want
  | _, _ => true
  end.

(** The first [len] characters of [url] against [want]. *)
Definition ducknng_scheme_matches (url : bytes) (len : Z) (want : bytes) : bool :=
  if negb (len =? zlen want) then false else scheme_chars (ztake len url) want.

(** [strstr]: the text before the first occurrence of [pat]. *)
Fixpoint starts_with (pat s : bytes) : bool :=
  match pat, s with
  | [], _ => true
  | p :: pat, c :: s => if p =? c then starts_with pat s else false
  | _, [] => false
  end.
Fixpoint strstr (s pat : bytes) : option Z :=
  if starts_with pat s then Some 0 else
  match s with
  | [] => None
  | _ :: s => (fun i => 1 + i) <$> strstr s pat
  end.

Definition ducknng_transport_url_parse (url : option bytes) : result bytes ducknng_transport_url :=
  match url with
  | None | Some [] => Err (lit "ducknng: transport URL is required")
  | Some url =>
    match strstr url (lit "://") with
    | None => Err (lit "ducknng: transport URL must include a scheme such as ipc:// or https://")
    | Some scheme_len =>
      if scheme_len =? 0
      then Err (lit "ducknng: transport URL must include a scheme such as ipc:// or https://") else
      let nng s tls := Ok (mk_url DUCKNNG_TRANSPORT_FAMILY_NNG s tls) in
      let http s tls := Ok (mk_url DUCKNNG_TRANSPORT_FAMILY_HTTP s tls) in
      if ducknng_scheme_matches url scheme_len (lit "inproc")
      then nng DUCKNNG_TRANSPORT_SCHEME_INPROC false
      else if ducknng_scheme_matches url scheme_len (lit "ipc")
      then nng DUCKNNG_TRANSPORT_SCHEME_IPC false
      else if ducknng_scheme_matches url scheme_len (lit "tcp")
      then nng DUCKNNG_TRANSPORT_SCHEME_TCP false
      else if ducknng_scheme_matches url scheme_len (lit "tls+tcp")
      then nng DUCKNNG_TRANSPORT_SCHEME_TLS_TCP true
      else if ducknng_scheme_matches url scheme_len (lit "ws")
      then nng DUCKNNG_TRANSPORT_SCHEME_WS false
      else if ducknng_scheme_matches url scheme_len (lit "wss")
      then nng DUCKNNG_TRANSPORT_SCHEME_WSS true
      else if ducknng_scheme_matches url scheme_len (lit "http")
      then http DUCKNNG_TRANSPORT_SCHEME_HTTP false
      else if ducknng_scheme_matches url scheme_len (lit "https")
      then http DUCKNNG_TRANSPORT_SCHEME_HTTPS true
      else Err (lit "ducknng: unsupported transport URL scheme")
    end
  end.

Definition ducknng_transport_url_is_nng (url : option ducknng_transport_url) : bool :=
  match url with Some u => bool_decide (family u = DUCKNNG_TRANSPORT_FAMILY_NNG) | None => false end.

Definition ducknng_transport_url_is_http (url : option ducknng_transport_url) : bool :=
  match url with Some u => bool_decide (family u = DUCKNNG_TRANSPORT_FAMILY_HTTP) | None => false end.

Definition ducknng_transport_family_name (f : ducknng_transport_family) : bytes :=
  match f with
  | DUCKNNG_TRANSPORT_FAMILY_NNG => lit "nng"
  | DUCKNNG_TRANSPORT_FAMILY_HTTP => lit "http"
  | DUCKNNG_TRANSPORT_FAMILY_UNKNOWN => lit "unknown"
  end.

Definition ducknng_transport_scheme_name (s : ducknng_transport_scheme) : bytes :=
  match s with
  | DUCKNNG_TRANSPORT_SCHEME_INPROC => lit "inproc"
  | DUCKNNG_TRANSPORT_SCHEME_IPC => lit "ipc"
  | DUCKNNG_TRANSPORT_SCHEME_TCP => lit "tcp"
  | DUCKNNG_TRANSPORT_SCHEME_TLS_TCP => lit "tls+tcp"
  | DUCKNNG_TRANSPORT_SCHEME_WS => lit "ws"
  | DUCKNNG_TRANSPORT_SCHEME_WSS => lit "wss"
  | DUCKNNG_TRANSPORT_SCHEME_HTTP => lit "http"
  | DUCKNNG_TRANSPORT_SCHEME_HTTPS => lit "https"
  | DUCKNNG_TRANSPORT_SCHEME_UNKNOWN => lit "unknown"
  end.

(** ** Lemmas *)

Lemma scheme_chars_spec a w :
  length a = length w -> scheme_chars a w = bool_decide (ducknng_ascii_tolower_int <$> a = w).
Proof.
  revert w. induction a as [|c a IH]; intros [|x w] Hl; try done. simpl in Hl. rewrite fmap_cons.
  cbn [scheme_chars]. destruct (Z.eqb_spec (ducknng_ascii_tolower_int c) x) as [<-|Hn]; cbn [negb].
  - rewrite IH by lia. apply bool_decide_ext. split; [by intros ->|by intros [=]].
  - symmetry. apply bool_decide_eq_false. by intros [= H].
Qed.

Lemma scheme_matches_spec s rest want :
  ducknng_scheme_matches (s ++ rest) (zlen s) want = bool_decide (ducknng_ascii_tolower_int <$> s = want).
Proof.
  unfold ducknng_scheme_matches. rewrite ztake_app.
  destruct (Z.eqb_spec (zlen s) (zlen want)) as [E|E]; cbn [negb].
  - apply scheme_chars_spec. unfold zlen in E. lia.
  - symmetry. apply bool_decide_eq_false. intros <-. unfold zlen in E. by rewrite length_fmap in E.
Qed.

(** A scheme without a colon is what stands before the first separator. *)
Lemma strstr_scheme s rest :
  chr ":" ∉ s -> strstr (s ++ lit "://" ++ rest) (lit "://") = Some (zlen s).
Proof.
  induction s as [|c s IH]; intros Hn; [by destruct rest|].
  apply not_elem_of_cons in Hn as [Hc Hn]. cbn [app strstr].
  change (starts_with (lit "://") (c :: ?x)) with (if chr ":" =? c then starts_with (lit "//") x else false).
  destruct (Z.eqb_spec (chr ":") c); [by subst|]. rewrite IH by done. simpl. by rewrite zlen_cons.
Qed.

Definition all_schemes : list ducknng_transport_scheme :=
  [DUCKNNG_TRANSPORT_SCHEME_INPROC; DUCKNNG_TRANSPORT_SCHEME_IPC; DUCKNNG_TRANSPORT_SCHEME_TCP;
   DUCKNNG_TRANSPORT_SCHEME_TLS_TCP; DUCKNNG_TRANSPORT_SCHEME_WS; DUCKNNG_TRANSPORT_SCHEME_WSS;
   DUCKNNG_TRANSPORT_SCHEME_HTTP; DUCKNNG_TRANSPORT_SCHEME_HTTPS].

Definition family_of (t : ducknng_transport_scheme) : ducknng_transport_family :=
  match t with
  | DUCKNNG_TRANSPORT_SCHEME_UNKNOWN => DUCKNNG_TRANSPORT_FAMILY_UNKNOWN
  | DUCKNNG_TRANSPORT_SCHEME_HTTP | DUCKNNG_TRANSPORT_SCHEME_HTTPS => DUCKNNG_TRANSPORT_FAMILY_HTTP
  | _ => DUCKNNG_TRANSPORT_FAMILY_NNG
  end.

Definition tls_schemes : list ducknng_transport_scheme :=
  [DUCKNNG_TRANSPORT_SCHEME_TLS_TCP; DUCKNNG_TRANSPORT_SCHEME_WSS; DUCKNNG_TRANSPORT_SCHEME_HTTPS].

(** The parser reduces to comparisons with the lower-cased scheme. *)
Lemma parse_scheme s rest :
  s <> [] -> chr ":" ∉ s ->
  let is_scheme t := bool_decide (ducknng_ascii_tolower_int <$> s = ducknng_transport_scheme_name t) in
  ducknng_transport_url_parse (Some (s ++ lit "://" ++ rest)) =
  foldr (fun t k => if is_scheme t
           then Ok (mk_url (family_of t) t (bool_decide (t ∈ tls_schemes))) else k)
    (Err (lit "ducknng: unsupported transport URL scheme")) all_schemes.
Proof.
  intros Hs Hc. unfold ducknng_transport_url_parse. destruct s as [|c s]; [done|].
  set (s' := c :: s) in *.
  change (Some (s' ++ ?x)) with (Some (c :: (s ++ x))). cbv iota beta.
  change (c :: (s ++ ?x)) with (s' ++ x). rewrite strstr_scheme by done.
  destruct (Z.eqb_spec (zlen s') 0) as [E|_].
  { unfold s' in E. rewrite zlen_cons in E. pose proof (zlen_nonneg s). lia. }
  by rewrite !scheme_matches_spec.
Qed.

(** No separator, or one at the very start, is refused. *)
Lemma strstr_none s : chr ":" ∉ s -> strstr s (lit "://") = None.
Proof.
  induction s as [|c s IH]; intros Hn; [done|]. apply not_elem_of_cons in Hn as [Hc Hn]. cbn [strstr].
  change (starts_with (lit "://") (c :: ?x)) with (if chr ":" =? c then starts_with (lit "//") x else false).
  destruct (Z.eqb_spec (chr ":") c); [by subst|]. by rewrite IH.
Qed.

(** Transport URLs are classified exactly.  [scheme://rest] parses to the
    scheme whose name equals the text before the separator ignoring ASCII
    case, in the HTTP family for http and https and in the NNG family
    otherwise, with TLS exactly for tls+tcp, wss and https; any other scheme,
    a text with no separator and a text starting with one are refused. *)
Theorem transport_url_exact s rest t :
  s <> [] -> chr ":" ∉ s ->
  (ducknng_transport_url_parse (Some (s ++ lit "://" ++ rest))
     = Ok (mk_url (family_of t) t (bool_decide (t ∈ tls_schemes))) <->
   t <> DUCKNNG_TRANSPORT_SCHEME_UNKNOWN /\
   ducknng_ascii_tolower_int <$> s = ducknng_transport_scheme_name t) /\
  ((forall u, ducknng_transport_url_parse (Some (s ++ lit "://" ++ rest)) <> Ok u) <->
   Forall (fun t => ducknng_ascii_tolower_int <$> s <> ducknng_transport_scheme_name t) all_schemes) /\
  (forall u, ducknng_transport_url_parse (Some s) <> Ok u) /\
  (forall u, ducknng_transport_url_parse (Some (lit "://" ++ rest)) <> Ok u).
Proof.
  intros Hs Hc. rewrite parse_scheme by done. cbv zeta.
  assert (forall x, Forall (fun t => x <> ducknng_transport_scheme_name t) all_schemes <->
    forall t, t <> DUCKNNG_TRANSPORT_SCHEME_UNKNOWN -> x <> ducknng_transport_scheme_name t) as Hall.
  { intros x. rewrite Forall_forall. split; [|intros H u Hu; apply H; intros ->].
    - intros H u Hu. apply H. destruct u; [done|..]; apply (bool_decide_unpack _); by vm_compute.
    - revert Hu. apply (bool_decide_unpack _). by vm_compute. }
  split; [|split; [|split]].
  - cbn [foldr all_schemes]. split.
    + repeat case_bool_decide; intros E; try discriminate E;
      (injection E; intros; subst t; split; done).
    + intros [Hu E]. rewrite E. destruct t; [done|reflexivity..].
  - rewrite Hall. split.
    + intros H u Hu E. rewrite E in H. destruct u; [done|..]; by eapply H.
    + intros H u. cbn [foldr all_schemes].
      repeat (rewrite bool_decide_eq_false_2 by (by apply H)). done.
  - intros u. unfold ducknng_transport_url_parse. destruct s as [|c s]; [done|]. by rewrite strstr_none.
  - by intros u.
Qed.

Lemma transport_url_exact_witness :
  ducknng_transport_url_parse (Some (lit "TLS+tcp" ++ lit "://" ++ lit "host:1")) =
  Ok (mk_url DUCKNNG_TRANSPORT_FAMILY_NNG DUCKNNG_TRANSPORT_SCHEME_TLS_TCP true).
Proof.
  apply (transport_url_exact (lit "TLS+tcp") (lit "host:1") DUCKNNG_TRANSPORT_SCHEME_TLS_TCP).
  - discriminate.
  - apply (bool_decide_unpack _). vm_compute. exact I.
  - split; [discriminate|vm_compute; reflexivity].
Defined.
