(* ===== verification/Registry.v ===== *)
(** The method registry and method replies: [src/src/ducknng_registry.c].

    The parallel arrays [methods] and [owned] are one list of slots; a slot of
    a heap copy is [owned].  Operations that return 1 or 0 give [Ok] with the
    new registry or [Err] with the message.  Allocation failures are not
    modelled.  A handler is known by a number; what it does is a parameter of
    the dispatcher. *)

From stdpp Require Import gmap.
From S2P Require Import Prelude Wire Util.

(** ** Data *)

Inductive ducknng_transport_pattern := DUCKNNG_TRANSPORT_REQREP | DUCKNNG_TRANSPORT_PUBSUB.

Inductive ducknng_payload_format :=
| DUCKNNG_PAYLOAD_NONE | DUCKNNG_PAYLOAD_JSON | DUCKNNG_PAYLOAD_ARROW_IPC_STREAM
| DUCKNNG_PAYLOAD_DUCKNNG_QUACK_BATCH | DUCKNNG_PAYLOAD_UPLOAD_APPEND.

Inductive ducknng_response_mode :=
| DUCKNNG_RESPONSE_NONE | DUCKNNG_RESPONSE_METADATA_ONLY | DUCKNNG_RESPONSE_ROWS
| DUCKNNG_RESPONSE_METADATA_OR_ROWS | DUCKNNG_RESPONSE_SESSION_OPEN | DUCKNNG_RESPONSE_EVENT.

Inductive ducknng_session_behavior :=
| DUCKNNG_SESSION_STATELESS | DUCKNNG_SESSION_OPENS | DUCKNNG_SESSION_REQUIRES
| DUCKNNG_SESSION_CLOSES | DUCKNNG_SESSION_CANCELS.

Record ducknng_method_descriptor := mk_method {
  m_name : option bytes;
  m_family : option bytes;
  m_summary : option bytes;
  transport_pattern : ducknng_transport_pattern;
  request_payload_format : ducknng_payload_format;
  response_payload_format : ducknng_payload_format;
  response_mode : ducknng_response_mode;
  session_behavior : ducknng_session_behavior;
  accepted_request_flags : Z;
  emitted_reply_flags : Z;
  max_request_bytes : Z;
  max_reply_bytes : Z;
  requires_auth : Z;
  requires_session : Z;
  opens_session : Z;
  closes_session : Z;
  mutates_state : Z;
  idempotent : Z;
  deprecated : Z;
  disabled : Z;
  version_introduced : Z;
  request_schema_json : option bytes;
  response_schema_json : option bytes;
  handler : option Z }.

Record slot := mk_slot { slot_method : ducknng_method_descriptor; slot_owned : bool }.

Record ducknng_method_registry := mk_registry { methods : list slot; method_cap : Z }.

Definition method_count (r : ducknng_method_registry) : Z := zlen (methods r).

(** [copy->requires_auth = v] on a copy of the descriptor. *)
Definition with_requires_auth (v : Z) (d : ducknng_method_descriptor) : ducknng_method_descriptor :=
  mk_method (m_name d) (m_family d) (m_summary d) (transport_pattern d) (request_payload_format d)
    (response_payload_format d) (response_mode d) (session_behavior d) (accepted_request_flags d)
    (emitted_reply_flags d) (max_request_bytes d) (max_reply_bytes d) v (requires_session d)
    (opens_session d) (closes_session d) (mutates_state d) (idempotent d) (deprecated d)
    (disabled d) (version_introduced d) (request_schema_json d) (response_schema_json d) (handler d).

(** ** Operations *)

(** Doubling until [want] fits; 64 rounds pass any [size_t]. *)
Fixpoint reserve_loop (fuel : nat) (next_cap want : Z) : Z :=
  match fuel with
  | O => next_cap
  | S fuel => if next_cap <? want then reserve_loop fuel (next_cap * 2) want else next_cap
  end.

Definition ducknng_registry_reserve (r : ducknng_method_registry) (want : Z) : ducknng_method_registry :=
  let next_cap := if negb (method_cap r =? 0) then method_cap r * 2 else 8 in
  if want <=? method_cap r then r else mk_registry (methods r) (reserve_loop 64 next_cap want).

Definition has_name (name : bytes) (d : ducknng_method_descriptor) : bool :=
  match m_name d with Some n => str_eq n name | None => false end.

Definition ducknng_method_name_exists (r : ducknng_method_registry) (name : bytes) : bool :=
  existsb (fun s => has_name name (slot_method s)) (methods r).

Definition ducknng_method_descriptor_valid (d : option ducknng_method_descriptor) : bool :=
  match d with
  | Some d => (nonempty (m_name d) && bool_decide (handler d <> None))%bool
  | None => false
  end.

Definition ducknng_method_name_exists_in_batch (ms : list (option ducknng_method_descriptor))
    (upto : nat) (name : bytes) : bool :=
  existsb (fun d => match d with Some d => has_name name d | None => false end) (take upto ms).

Definition ducknng_registry_remove_at (r : ducknng_method_registry) (idx : nat)
    : ducknng_method_registry :=
  if (length (methods r) <=? idx)%nat then r
  else mk_registry (take idx (methods r) ++ drop (S idx) (methods r)) (method_cap r).

Definition ducknng_method_registry_init : ducknng_method_registry := mk_registry [] 0.

Definition ducknng_method_registry_destroy (r : ducknng_method_registry) : ducknng_method_registry :=
  mk_registry [] 0.

Definition append_slot (d : ducknng_method_descriptor) (r : ducknng_method_registry)
    : ducknng_method_registry :=
  mk_registry (methods r ++ [mk_slot d false]) (method_cap r).

Definition ducknng_method_registry_register (r : ducknng_method_registry)
    (d : option ducknng_method_descriptor) : result bytes ducknng_method_registry :=
  match d with
  | Some d =>
    if negb (ducknng_method_descriptor_valid (Some d))
    then Err (lit "ducknng: invalid method descriptor") else
    if ducknng_method_name_exists r (default [] (m_name d))
    then Err (lit "ducknng: method already registered")
    else Ok (append_slot d (ducknng_registry_reserve r (method_count r + 1)))
  | None => Err (lit "ducknng: invalid method descriptor")
  end.

(** The validation loop over [i], then the insertions. *)
Fixpoint register_many_check (r : ducknng_method_registry)
    (ms : list (option ducknng_method_descriptor)) (i n : nat) : option bytes :=
  match n with
  | O => None
  | S n =>
    match mjoin (ms !! i) with
    | Some d =>
      if negb (ducknng_method_descriptor_valid (Some d))
      then Some (lit "ducknng: invalid method descriptor in bulk registration") else
      if (ducknng_method_name_exists r (default [] (m_name d)) ||
          ducknng_method_name_exists_in_batch ms i (default [] (m_name d)))%bool
      then Some (lit "ducknng: duplicate method name in bulk registration")
      else register_many_check r ms (S i) n
    | None => Some (lit "ducknng: invalid method descriptor in bulk registration")
    end
  end.

Definition ducknng_method_registry_register_many (r : ducknng_method_registry)
    (ms : list (option ducknng_method_descriptor)) : result bytes ducknng_method_registry :=
  match register_many_check r ms 0 (length ms) with
  | Some e => Err e
  | None =>
    Ok (foldl (fun r d => match d with Some d => append_slot d r | None => r end)
          (ducknng_registry_reserve r (method_count r + zlen ms)) ms)
  end.

(** The index of the first slot whose method has the name. *)
Fixpoint slot_index (name : bytes) (l : list slot) : option nat :=
  match l with
  | [] => None
  | s :: l => if has_name name (slot_method s) then Some O else S <$> slot_index name l
  end.

(** The registry after the call, and whether a method was removed. *)
Definition ducknng_method_registry_unregister (r : ducknng_method_registry) (name : option bytes)
    : ducknng_method_registry * bool :=
  match name with
  | None | Some [] => (r, false)
  | Some name =>
    match slot_index name (methods r) with
    | Some i => (ducknng_registry_remove_at r i, true)
    | None => (r, false)
    end
  end.

Definition in_family (family : bytes) (d : ducknng_method_descriptor) : bool :=
  match m_family d with Some f => str_eq f family | None => false end.

(** A removed slot keeps [i] in place; fuel is the number of slots. *)
Fixpoint unregister_family_loop (fuel : nat) (family : bytes) (i : nat) (removed : Z)
    (r : ducknng_method_registry) : ducknng_method_registry * Z :=
  match fuel with
  | O => (r, removed)
  | S fuel =>
    match methods r !! i with
    | None => (r, removed)
    | Some s =>
      if in_family family (slot_method s)
      then unregister_family_loop fuel family i (removed + 1) (ducknng_registry_remove_at r i)
      else unregister_family_loop fuel family (S i) removed r
    end
  end.

Definition ducknng_method_registry_unregister_family (r : ducknng_method_registry)
    (family : option bytes) : ducknng_method_registry * Z :=
  match family with
  | None | Some [] => (r, 0)
  | Some family => unregister_family_loop (length (methods r)) family 0 0 r
  end.

Definition int_bool (v : Z) : Z := if v =? 0 then 0 else 1.

Definition ducknng_method_registry_set_requires_auth (r : ducknng_method_registry)
    (name : option bytes) (v : Z) : result bytes ducknng_method_registry :=
  match name with
  | None | Some [] => Err (lit "ducknng: method name is required")
  | Some name =>
    match slot_index name (methods r) with
    | None => Err (lit "ducknng: method not found")
    | Some i =>
      let v := int_bool v in
      match methods r !! i with
      | None => Ok r
      | Some s =>
        if requires_auth (slot_method s) =? v then Ok r
        else Ok (mk_registry (<[i := mk_slot (with_requires_auth v (slot_method s)) true]> (methods r))
                   (method_cap r))
      end
    end
  end.

Definition ducknng_method_registry_restore_auth_inplace (r : ducknng_method_registry)
    (name : option bytes) (v : Z) : ducknng_method_registry * bool :=
  match name with
  | None | Some [] => (r, false)
  | Some name =>
    let v := int_bool v in
    match slot_index name (methods r) with
    | None => (r, false)
    | Some i =>
      match methods r !! i with
      | None => (r, false)
      | Some s =>
        if requires_auth (slot_method s) =? v then (r, true) else
        if slot_owned s
        then (mk_registry (<[i := mk_slot (with_requires_auth v (slot_method s)) true]> (methods r))
                (method_cap r), true)
        else (r, false)
      end
    end
  end.

Fixpoint registry_find_loop (l : list slot) (name : bytes) (name_len : Z)
    : option ducknng_method_descriptor :=
  match l with
  | [] => None
  | s :: l =>
    match m_name (slot_method s) with
    | None => registry_find_loop l name name_len
    | Some n =>
      if ((u32 (zlen n) =? name_len) && str_eq n (ztake (zlen n) name))%bool
      then Some (slot_method s) else registry_find_loop l name name_len
    end
  end.

Definition ducknng_method_registry_find (r : ducknng_method_registry) (name : option bytes)
    (name_len : Z) : option ducknng_method_descriptor :=
  match name with
  | None => None
  | Some name => registry_find_loop (methods r) name name_len
  end.

(** ** Replies *)

Record ducknng_method_reply := mk_reply {
  reply_type : Z; reply_flags : Z;
  reply_payload : option bytes; prebuilt_msg : option bytes;
  reply_payload_len : Z; prefix_size : Z;
  reply_error : option bytes; reply_status : Z }.

Definition ducknng_method_reply_init : ducknng_method_reply :=
  mk_reply DUCKNNG_RPC_RESULT 0 None None 0 0 None DUCKNNG_STATUS_OK.

Definition ducknng_method_reply_release_body (reply : ducknng_method_reply) : ducknng_method_reply :=
  mk_reply (reply_type reply) (reply_flags reply) None None 0 0 (reply_error reply) (reply_status reply).

Definition ducknng_method_reply_reset (reply : ducknng_method_reply) : ducknng_method_reply :=
  ducknng_method_reply_init.

Definition ducknng_method_reply_set_payload (reply : ducknng_method_reply) (type flags : Z)
    (payload : option bytes) (payload_len : Z) : ducknng_method_reply :=
  let reply := ducknng_method_reply_release_body reply in
  mk_reply type flags payload (prebuilt_msg reply) payload_len (prefix_size reply)
    (reply_error reply) DUCKNNG_STATUS_OK.

Definition ducknng_method_reply_set_prebuilt_message (reply : ducknng_method_reply) (type flags : Z)
    (msg : option bytes) (prefix payload_len : Z) : ducknng_method_reply * bool :=
  match msg with
  | None => (reply, false)
  | Some msg =>
    let reply := ducknng_method_reply_release_body reply in
    (mk_reply type flags (reply_payload reply) (Some msg) payload_len prefix
       (reply_error reply) DUCKNNG_STATUS_OK, true)
  end.

Definition ducknng_method_reply_set_error (reply : ducknng_method_reply) (status : Z)
    (message : option bytes) : ducknng_method_reply :=
  let reply := ducknng_method_reply_release_body reply in
  mk_reply DUCKNNG_RPC_ERROR 0 (reply_payload reply) (prebuilt_msg reply) (reply_payload_len reply)
    (prefix_size reply)
    (Some (default (lit "ducknng: unspecified error") message)) status.

(** ** Projection for the manifest *)

Definition ducknng_transport_pattern_name (v : ducknng_transport_pattern) : bytes :=
  match v with
  | DUCKNNG_TRANSPORT_REQREP => lit "reqrep"
  | DUCKNNG_TRANSPORT_PUBSUB => lit "pubsub"
  end.

Definition ducknng_payload_format_name (v : ducknng_payload_format) : bytes :=
  match v with
  | DUCKNNG_PAYLOAD_NONE => lit "none"
  | DUCKNNG_PAYLOAD_JSON => lit "json"
  | DUCKNNG_PAYLOAD_ARROW_IPC_STREAM => lit "arrow_ipc_stream"
  | DUCKNNG_PAYLOAD_DUCKNNG_QUACK_BATCH => lit "ducknng_quack_batch"
  | DUCKNNG_PAYLOAD_UPLOAD_APPEND => lit "ducknng_upload_append"
  end.

Definition ducknng_response_mode_name (v : ducknng_response_mode) : bytes :=
  match v with
  | DUCKNNG_RESPONSE_NONE => lit "none"
  | DUCKNNG_RESPONSE_METADATA_ONLY => lit "metadata_only"
  | DUCKNNG_RESPONSE_ROWS => lit "rows"
  | DUCKNNG_RESPONSE_METADATA_OR_ROWS => lit "metadata_or_rows"
  | DUCKNNG_RESPONSE_SESSION_OPEN => lit "session_open"
  | DUCKNNG_RESPONSE_EVENT => lit "event"
  end.

Definition ducknng_session_behavior_name (v : ducknng_session_behavior) : bytes :=
  match v with
  | DUCKNNG_SESSION_STATELESS => lit "stateless"
  | DUCKNNG_SESSION_OPENS => lit "opens_session"
  | DUCKNNG_SESSION_REQUIRES => lit "requires_session"
  | DUCKNNG_SESSION_CLOSES => lit "closes_session"
  | DUCKNNG_SESSION_CANCELS => lit "cancels_session"
  end.

(** ** JSON text of the manifest *)

(** The text appended for one character. *)
Definition registry_escape (c : Z) : bytes :=
  if ((c =? BACKSLASH) || (c =? QUOTE))%bool then [BACKSLASH; c]
  else if c <? 0x20 then unicode_escape c else [c].

Definition append_json_string (buf : bytes) (text : option bytes) : bytes :=
  buf ++ [QUOTE] ++ (default [] text ≫= registry_escape) ++ [QUOTE].

#[export] Instance registry_escape_ok : JsonEscape registry_escape := plain_escape_ok.

(** ** Invariant and abstraction *)

Definition slot_name (s : slot) : bytes := default [] (m_name (slot_method s)).

(** Every slot holds a valid method, names are unique and fit the wire's
    32-bit name length, and the slots fit the capacity. *)
Record registry_wf (r : ducknng_method_registry) : Prop := {
  wf_valid : Forall (fun s => ducknng_method_descriptor_valid (Some (slot_method s)) = true /\
                             zlen (slot_name s) <= UINT32_MAX) (methods r);
  wf_nodup : NoDup (slot_name <$> methods r);
  wf_cap : method_count r <= method_cap r }.

(** The registry as a finite map from names to methods. *)
Definition contents (r : ducknng_method_registry) : gmap bytes ducknng_method_descriptor :=
  list_to_map ((fun s => (slot_name s, slot_method s)) <$> methods r).

Lemma valid_name d : ducknng_method_descriptor_valid (Some d) = true ->
  exists n, m_name d = Some n /\ n <> [] /\ handler d <> None.
Proof.
  simpl. intros H. btests. destruct (m_name d) as [[|c n]|]; try done. by exists (c :: n).
Qed.

Lemma has_name_spec s n : ducknng_method_descriptor_valid (Some (slot_method s)) = true ->
  has_name n (slot_method s) = true <-> slot_name s = n.
Proof.
  intros (m & E & _)%valid_name. unfold has_name, slot_name. rewrite E. simpl. apply str_eq_true.
Qed.

Lemma contents_spec r n d : registry_wf r ->
  contents r !! n = Some d <-> exists s, s ∈ methods r /\ slot_name s = n /\ slot_method s = d.
Proof.
  intros [Hv Hd Hc]. unfold contents. rewrite <- elem_of_list_to_map.
  - rewrite list_elem_of_fmap. split.
    + intros (s & [= -> ->] & Hs). eauto.
    + intros (s & Hs & <- & <-). eauto.
  - by rewrite <- list_fmap_compose.
Qed.

Lemma contents_none r n : registry_wf r ->
  contents r !! n = None <-> n ∉ slot_name <$> methods r.
Proof.
  intros Hwf. rewrite eq_None_not_Some, list_elem_of_fmap. split.
  - intros H (s & -> & Hs). apply H. exists (slot_method s). apply contents_spec; eauto.
  - intros H (d & (s & Hs & <- & _)%contents_spec); [|done]. apply H. eauto.
Qed.

Lemma name_exists_spec r n : registry_wf r ->
  ducknng_method_name_exists r n = true <-> n ∈ slot_name <$> methods r.
Proof.
  intros [Hv _ _]. unfold ducknng_method_name_exists. rewrite existsb_exists, list_elem_of_fmap.
  rewrite Forall_forall in Hv.
  split; intros (s & Hs & H).
  - exists s. rewrite <- list_elem_of_In in Hs. split; [|done]. symmetry. apply has_name_spec; [|done].
    by apply Hv.
  - subst. exists s. rewrite <- list_elem_of_In. split; [done|]. apply has_name_spec; [|done]. by apply Hv.
Qed.

Lemma slot_index_Some n l i : slot_index n l = Some i ->
  exists s, l = take i l ++ s :: drop (S i) l /\ l !! i = Some s /\ has_name n (slot_method s) = true.
Proof.
  revert i. induction l as [|s l IH]; intros i; [done|]. cbn [slot_index].
  destruct (has_name n (slot_method s)) eqn:E; [by intros [= <-]; exists s|].
  destruct (slot_index n l) as [j|]; [|done]. intros [= <-].
  destruct (IH j eq_refl) as (t & H1 & H2 & H3). exists t. split; [|done]. simpl. by f_equal.
Qed.

Lemma slot_index_None n l : slot_index n l = None -> Forall (fun s => has_name n (slot_method s) = false) l.
Proof.
  induction l as [|s l IH]; [by constructor|]. cbn [slot_index].
  destruct (has_name n (slot_method s)) eqn:E; [done|].
  destruct (slot_index n l); [done|]. intros _. constructor; auto.
Qed.

Lemma slot_index_absent r n : registry_wf r -> slot_index n (methods r) = None -> contents r !! n = None.
Proof.
  intros Hwf H%slot_index_None. apply contents_none; [done|]. intros (s & -> & Hs)%list_elem_of_fmap.
  rewrite Forall_forall in H. specialize (H s Hs). destruct Hwf as [Hv _ _]. rewrite Forall_forall in Hv.
  rewrite (proj2 (has_name_spec s (slot_name s) (proj1 (Hv s Hs)))) in H; done.
Qed.

(** *** Capacity *)

Lemma reserve_loop_enough fuel cap want :
  0 < cap -> want <= cap * 2 ^ Z.of_nat fuel -> want <= reserve_loop fuel cap want.
Proof.
  revert cap. induction fuel as [|fuel IH]; intros cap Hc Hw; cbn [reserve_loop]; [simpl in Hw; lia|].
  destruct (Z.ltb_spec cap want); [|lia]. apply IH; [lia|].
  rewrite Nat2Z.inj_succ, Z.pow_succ_r in Hw by lia. lia.
Qed.

Lemma reserve_methods r want : methods (ducknng_registry_reserve r want) = methods r.
Proof. unfold ducknng_registry_reserve. by destruct (_ <=? _). Qed.

Lemma reserve_cap r want : 0 <= method_cap r -> want <= SIZE_MAX ->
  want <= method_cap (ducknng_registry_reserve r want).
Proof.
  intros Hc Hw. unfold ducknng_registry_reserve. destruct (Z.leb_spec want (method_cap r)); [done|].
  cbn [method_cap]. apply reserve_loop_enough; [destruct (Z.eqb_spec (method_cap r) 0); simpl; lia|].
  change (2 ^ Z.of_nat 64) with 18446744073709551616. unfold SIZE_MAX, UINT64_MAX in Hw.
  destruct (Z.eqb_spec (method_cap r) 0); simpl; lia.
Qed.

(** *** Appending *)

Lemma wf_append r d :
  registry_wf r -> ducknng_method_descriptor_valid (Some d) = true ->
  zlen (default [] (m_name d)) <= UINT32_MAX ->
  contents r !! default [] (m_name d) = None -> method_count r + 1 <= method_cap r ->
  registry_wf (append_slot d r) /\ contents (append_slot d r) = <[default [] (m_name d) := d]> (contents r).
Proof.
  intros Hwf Hd Hl Hn Hc. assert (registry_wf (append_slot d r)) as Hwf'.
  { pose proof Hwf as [Hv Hnd _]. apply contents_none in Hn; [|done]. split; cbn.
    - apply Forall_app. split; [done|]. by constructor.
    - rewrite fmap_app. apply NoDup_app. split; [done|]. split; [|apply NoDup_singleton].
      intros x Hx Hx'. apply list_elem_of_singleton in Hx'. by subst.
    - unfold method_count in *. cbn. rewrite zlen_app. done. }
  split; [done|]. apply map_eq. intros n. apply option_eq. intros e.
  rewrite contents_spec by done. cbn [append_slot methods].
  rewrite lookup_insert_Some, contents_spec by done. split.
  - intros (s & [Hs|Hs]%elem_of_app & <- & <-).
    + right. split; [|eauto]. intros E. apply contents_none in Hn; [|done]. apply Hn.
      apply list_elem_of_fmap. exists s. done.
    + apply list_elem_of_singleton in Hs as ->. by left.
  - intros [[<- <-]|[_ (s & Hs & <- & <-)]].
    + exists (mk_slot d false). split; [|done]. apply elem_of_app. right. by apply list_elem_of_singleton.
    + exists s. split; [|done]. apply elem_of_app. by left.
Qed.

Lemma wf_reserve r want : registry_wf r -> want <= SIZE_MAX -> method_count r <= want ->
  registry_wf (ducknng_registry_reserve r want) /\ contents (ducknng_registry_reserve r want) = contents r.
Proof.
  intros [Hv Hn Hc] Hw Hle. split; [|by unfold contents; rewrite reserve_methods].
  split; rewrite ?reserve_methods; try done. unfold method_count in *. rewrite reserve_methods.
  pose proof (zlen_nonneg (methods r)). pose proof (reserve_cap r want). lia.
Qed.

(** *** Removing *)

Lemma wf_remove r i s :
  registry_wf r -> methods r !! i = Some s ->
  registry_wf (ducknng_registry_remove_at r i) /\
  methods (ducknng_registry_remove_at r i) = take i (methods r) ++ drop (S i) (methods r) /\
  contents (ducknng_registry_remove_at r i) = delete (slot_name s) (contents r).
Proof.
  intros Hwf Hi. pose proof (lookup_lt_Some _ _ _ Hi) as Hlt. pose proof Hwf as [Hv Hn Hc].
  unfold ducknng_registry_remove_at. destruct (Nat.leb_spec (length (methods r)) i); [lia|].
  pose proof (take_drop_middle (methods r) i s Hi) as Hl.
  set (l1 := take i (methods r)) in *. set (l2 := drop (S i) (methods r)) in *.
  assert (registry_wf (mk_registry (l1 ++ l2) (method_cap r))) as Hwf'.
  { rewrite <- Hl in Hv, Hn. unfold method_count in Hc. rewrite <- Hl in Hc. split; cbn.
    - apply Forall_app in Hv as [? [_ ?]%Forall_cons]. by apply Forall_app.
    - rewrite fmap_app, fmap_cons in Hn. rewrite fmap_app.
      apply NoDup_app in Hn as (H1 & H2 & [_ H3]%NoDup_cons). apply NoDup_app. split; [done|].
      split; [|done]. intros x Hx Hx'. apply (H2 x Hx). by right.
    - unfold method_count. cbn. rewrite zlen_app in *. rewrite zlen_cons in Hc. lia. }
  split; [done|]. split; [done|]. apply map_eq. intros n. apply option_eq. intros e.
  rewrite lookup_delete_Some, !contents_spec by done. cbn [methods].
  rewrite <- Hl in Hn. rewrite fmap_app, fmap_cons in Hn.
  apply NoDup_app in Hn as (H1 & H2 & [H3 H4]%NoDup_cons). split.
  - intros (t & Ht & <- & <-). split.
    + intros E. apply elem_of_app in Ht as [Ht|Ht].
      * apply (H2 (slot_name t)); [by apply list_elem_of_fmap_2|]. rewrite <- E. by left.
      * apply H3. rewrite E. by apply list_elem_of_fmap_2.
    + exists t. split; [|done]. rewrite <- Hl. apply elem_of_app in Ht as [Ht|Ht]; apply elem_of_app; [by left|].
      right. by right.
  - intros [Hne (t & Ht & <- & <-)]. exists t. split; [|done]. rewrite <- Hl in Ht.
    apply elem_of_app in Ht as [Ht|[->|Ht]%elem_of_cons]; [apply elem_of_app; by left|done|].
    apply elem_of_app. by right.
Qed.

Lemma family_loop_spec fuel fam i removed r :
  (length (methods r) <= i + fuel)%nat -> (i <= length (methods r))%nat ->
  let keep := fun s => in_family fam (slot_method s) = false in
  unregister_family_loop fuel fam i removed r =
  (mk_registry (take i (methods r) ++ filter keep (drop i (methods r))) (method_cap r),
   removed + zlen (filter (fun s => in_family fam (slot_method s) = true) (drop i (methods r)))).
Proof.
  cbv zeta. revert i removed r. induction fuel as [|fuel IH]; intros i removed r Hf Hi; cbn [unregister_family_loop].
  - assert (i = length (methods r)) as -> by lia. rewrite drop_ge, firstn_all by lia.
    rewrite !filter_nil, app_nil_r, zlen_nil, Z.add_0_r. by destruct r.
  - destruct (methods r !! i) as [s|] eqn:E.
    + pose proof (lookup_lt_Some _ _ _ E) as Hlt. rewrite (drop_S _ _ _ E).
      destruct (in_family fam (slot_method s)) eqn:Ef.
      * rewrite filter_cons_False by congruence. rewrite filter_cons_True by done.
        unfold ducknng_registry_remove_at. destruct (Nat.leb_spec (length (methods r)) i); [lia|].
        rewrite IH; cbn [methods method_cap].
        2:{ rewrite length_app, length_take, length_drop. lia. }
        2:{ rewrite length_app, length_take, length_drop. lia. }
        rewrite take_app_le, take_take by (rewrite length_take; lia).
        rewrite Nat.min_id, drop_app_ge, length_take by (rewrite length_take; lia).
        replace (i - i `min` length (methods r))%nat with O by lia. rewrite drop_0, zlen_cons.
        f_equal. lia.
      * rewrite filter_cons_True by done. rewrite filter_cons_False by congruence.
        rewrite IH by lia. rewrite (take_S_r _ _ _ E), <- app_assoc. done.
    + apply lookup_ge_None in E. assert (i = length (methods r)) as -> by lia.
      rewrite drop_ge, firstn_all by lia. rewrite !filter_nil, app_nil_r, zlen_nil, Z.add_0_r. by destruct r.
Qed.

Lemma wf_filter r (P : slot -> Prop) `{!forall s, Decision (P s)} :
  registry_wf r -> registry_wf (mk_registry (filter P (methods r)) (method_cap r)).
Proof.
  intros [Hv Hn Hc]. split; cbn.
  - rewrite Forall_forall in Hv |- *. intros s [_ Hs]%list_elem_of_filter. by apply Hv.
  - eapply sublist_NoDup; [exact Hn|]. apply fmap_sublist, sublist_filter.
  - unfold method_count in *. cbn. unfold zlen in *. pose proof (length_filter P (methods r)). lia.
Qed.

(** *** Updating in place *)

Lemma wf_update r i s v :
  registry_wf r -> methods r !! i = Some s ->
  let r' := mk_registry (<[i := mk_slot (with_requires_auth v (slot_method s)) true]> (methods r)) (method_cap r) in
  registry_wf r' /\ contents r' = <[slot_name s := with_requires_auth v (slot_method s)]> (contents r).
Proof.
  intros Hwf Hi. cbv zeta. pose proof Hwf as [Hv Hn Hc].
  set (s' := mk_slot (with_requires_auth v (slot_method s)) true).
  assert (slot_name s' = slot_name s) as Es by done.
  assert (slot_name <$> <[i := s']> (methods r) = slot_name <$> methods r) as Hnames.
  { rewrite list_fmap_insert, Es. apply list_insert_id. rewrite list_lookup_fmap, Hi. done. }
  assert (registry_wf (mk_registry (<[i := s']> (methods r)) (method_cap r))) as Hwf'.
  { split; cbn.
    - apply Forall_insert; [done|]. rewrite Forall_lookup in Hv. apply (Hv _ _ Hi).
    - by rewrite Hnames.
    - unfold method_count, zlen in *. cbn. by rewrite length_insert. }
  split; [done|]. apply map_eq. intros n. apply option_eq. intros e.
  rewrite lookup_insert_Some, !contents_spec by done. cbn [methods]. split.
  - intros (t & Ht & <- & <-). apply list_elem_of_lookup in Ht as (j & Hj).
    destruct (decide (i = j)) as [<-|Hne].
    + rewrite list_lookup_insert_eq in Hj by (by eapply lookup_lt_Some). injection Hj as <-. by left.
    + rewrite list_lookup_insert_ne in Hj by done. right. split.
      * intros E. apply Hne. eapply (NoDup_lookup (slot_name <$> methods r)); [done|..];
          rewrite list_lookup_fmap; [by rewrite Hi|rewrite Hj; simpl; by rewrite <- E].
      * exists t. split; [by eapply list_elem_of_lookup_2|done].
  - intros [[<- <-]|[Hne (t & Ht & <- & <-)]].
    + exists s'. split; [|done]. apply list_elem_of_lookup. exists i.
      apply list_lookup_insert_eq. by eapply lookup_lt_Some.
    + exists t. split; [|done]. apply list_elem_of_lookup in Ht as (j & Hj). apply list_elem_of_lookup. exists j.
      rewrite list_lookup_insert_ne; [done|]. intros <-. rewrite Hi in Hj. by injection Hj as <-.
Qed.

(** *** Lookup *)

Lemma find_spec r name : registry_wf r ->
  ducknng_method_registry_find r (Some name) (u32 (zlen name)) = contents r !! name \/ UINT32_MAX < zlen name.
Proof.
  intros Hwf. destruct (Z.lt_ge_cases UINT32_MAX (zlen name)); [by right|]. left.
  pose proof (zlen_nonneg name). rewrite u32_small by lia.
  destruct Hwf as [Hv Hn Hc]. unfold contents. cbn [ducknng_method_registry_find].
  revert Hv Hn. generalize (methods r) as l. clear r Hc. intros l Hv Hn.
  induction Hv as [|s l [Hs Hl] Hv IH]; [done|]. cbn [registry_find_loop].
  rewrite fmap_cons in Hn. apply NoDup_cons in Hn as [Hn1 Hn2]. rewrite fmap_cons, list_to_map_cons.
  destruct (valid_name _ Hs) as (n & En & _). unfold slot_name in Hl |- *. rewrite En in Hl |- *. simpl in Hl |- *.
  pose proof (zlen_nonneg n). rewrite u32_small by lia.
  destruct (decide (n = name)) as [->|Hne].
  - rewrite Z.eqb_refl, ztake_all, str_eq_refl. simpl. by rewrite lookup_insert_eq.
  - rewrite lookup_insert_ne by done.
    destruct (Z.eqb_spec (zlen n) (zlen name)) as [E|E]; [|by apply IH].
    rewrite E, ztake_all. rewrite (proj2 (str_eq_false _ _)) by done. by apply IH.
Qed.

(** *** Bulk registration *)

Lemma batch_name_exists ms i n d :
  ms !! i = Some (Some d) -> has_name n d = true ->
  forall j, (i < j)%nat -> ducknng_method_name_exists_in_batch ms j n = true.
Proof.
  intros Hi Hn j Hj. unfold ducknng_method_name_exists_in_batch. apply existsb_exists.
  exists (Some d). split; [|done]. apply list_elem_of_In, list_elem_of_lookup. exists i.
  by rewrite lookup_take_lt.
Qed.

(** What the checking loop establishes for the descriptors from [i] on. *)
Lemma register_check_ok r ms n i :
  register_many_check r ms i n = None -> (i + n = length ms)%nat ->
  forall j, (i <= j < length ms)%nat -> exists d, ms !! j = Some (Some d) /\
    ducknng_method_descriptor_valid (Some d) = true /\
    ducknng_method_name_exists r (default [] (m_name d)) = false /\
    ducknng_method_name_exists_in_batch ms j (default [] (m_name d)) = false.
Proof.
  revert i. induction n as [|n IH]; intros i Hc Hl j Hj; [lia|]. cbn [register_many_check] in Hc.
  destruct (mjoin (ms !! i)) as [d|] eqn:Em; [|done].
  destruct (ducknng_method_descriptor_valid (Some d)) eqn:Ev; [|done]. cbn [negb] in Hc.
  destruct (_ || _)%bool eqn:Eo; [done|]. apply orb_false_iff in Eo as [E1 E2].
  destruct (decide (i = j)) as [<-|]; [|apply (IH (S i)); [done|lia|lia]].
  exists d. destruct (ms !! i) as [[d'|]|]; try done. simpl in Em. injection Em as ->. done.
Qed.

(** ** Refinement: the registry implements a finite map *)

Inductive registry_op :=
| OpRegister (d : option ducknng_method_descriptor)
| OpRegisterMany (ms : list (option ducknng_method_descriptor))
| OpUnregister (name : option bytes)
| OpUnregisterFamily (family : option bytes)
| OpSetAuth (name : option bytes) (v : Z).

(** A failed call leaves the registry as it is. *)
Definition run_op (r : ducknng_method_registry) (op : registry_op) : ducknng_method_registry :=
  let keep x := match x with Ok r' => r' | Err _ => r end in
  match op with
  | OpRegister d => keep (ducknng_method_registry_register r d)
  | OpRegisterMany ms => keep (ducknng_method_registry_register_many r ms)
  | OpUnregister name => (ducknng_method_registry_unregister r name).1
  | OpUnregisterFamily family => (ducknng_method_registry_unregister_family r family).1
  | OpSetAuth name v => keep (ducknng_method_registry_set_requires_auth r name v)
  end.

Abbreviation method_map := (gmap bytes ducknng_method_descriptor).

(** Registration of one method into the map, refused when the descriptor is
    invalid or the name is taken. *)
Definition spec_register (m : method_map) (d : option ducknng_method_descriptor) : option method_map :=
  match d with
  | Some d =>
    if (ducknng_method_descriptor_valid (Some d) && bool_decide (m !! default [] (m_name d) = None))%bool
    then Some (<[default [] (m_name d) := d]> m) else None
  | None => None
  end.

Fixpoint spec_register_all (m : method_map) (ms : list (option ducknng_method_descriptor))
    : option method_map :=
  match ms with
  | [] => Some m
  | d :: ms => m' ← spec_register m d; spec_register_all m' ms
  end.

Definition spec_op (m : method_map) (op : registry_op) : method_map :=
  match op with
  | OpRegister d => default m (spec_register m d)
  | OpRegisterMany ms => default m (spec_register_all m ms)
  | OpUnregister name => delete (default [] name) m
  | OpUnregisterFamily None | OpUnregisterFamily (Some []) => m
  | OpUnregisterFamily (Some f) => filter (fun nd => in_family f nd.2 = false) m
  | OpSetAuth name v => alter (with_requires_auth (int_bool v)) (default [] name) m
  end.

(** Names fit the wire, and the slots of the call fit a [size_t]. *)
Definition name_fits (d : option ducknng_method_descriptor) : Prop :=
  match d with Some d => zlen (default [] (m_name d)) <= UINT32_MAX | None => True end.
Definition op_fits (r : ducknng_method_registry) (op : registry_op) : Prop :=
  match op with
  | OpRegister d => name_fits d /\ method_count r + 1 <= SIZE_MAX
  | OpRegisterMany ms => Forall name_fits ms /\ method_count r + zlen ms <= SIZE_MAX
  | _ => True
  end.

Lemma name_exists_map r n : registry_wf r ->
  ducknng_method_name_exists r n = negb (bool_decide (contents r !! n = None)).
Proof.
  intros Hwf. apply Bool.eq_iff_eq_true.
  rewrite name_exists_spec, negb_true_iff, bool_decide_eq_false, contents_none by done.
  destruct (decide (n ∈ slot_name <$> methods r)); tauto.
Qed.

Lemma register_refines r d :
  registry_wf r -> op_fits r (OpRegister d) ->
  match ducknng_method_registry_register r d with
  | Ok r' => registry_wf r' /\ spec_register (contents r) d = Some (contents r')
  | Err _ => spec_register (contents r) d = None
  end.
Proof.
  intros Hwf [Hn Hs]. destruct d as [d|]; [|done].
  cbn [ducknng_method_registry_register spec_register name_fits] in *.
  destruct (ducknng_method_descriptor_valid (Some d)) eqn:Ev; [|done]. cbn [negb andb].
  rewrite name_exists_map by done. case_bool_decide as Hf; cbn [negb]; [|done].
  destruct (wf_reserve r (method_count r + 1)) as [Hwf' Hc']; [done|done|lia|].
  destruct (wf_append (ducknng_registry_reserve r (method_count r + 1)) d) as [H1 H2]; try done.
  - by rewrite Hc'.
  - unfold method_count at 1. rewrite reserve_methods. fold (method_count r).
    apply reserve_cap; [|done]. destruct Hwf as [_ _ Hcap]. unfold method_count in Hcap.
    pose proof (zlen_nonneg (methods r)). lia.
  - split; [done|]. by rewrite H2, Hc'.
Qed.

Definition append_all (r : ducknng_method_registry) (ms : list (option ducknng_method_descriptor)) :=
  foldl (fun r d => match d with Some d => append_slot d r | None => r end) r ms.

Lemma append_all_refines r ms m' :
  registry_wf r -> Forall name_fits ms -> method_count r + zlen ms <= method_cap r ->
  spec_register_all (contents r) ms = Some m' ->
  registry_wf (append_all r ms) /\ contents (append_all r ms) = m'.
Proof.
  intros Hwf Hn. revert r Hwf. induction Hn as [|d ms Hd Hn IH]; intros r Hwf Hc Hs.
  { simpl in Hs. by injection Hs as <-. }
  cbn [spec_register_all] in Hs. destruct d as [d|]; [|done]. cbn [spec_register name_fits] in *.
  destruct (_ && _)%bool eqn:E; [|done]. btests. simpl in Hs.
  rewrite zlen_cons in Hc. pose proof (zlen_nonneg ms).
  destruct (wf_append r d) as [Hw1 Hw2]; [done|done|done|done|lia|].
  apply (IH (append_slot d r)); [done| |by rewrite Hw2].
  unfold method_count in *. cbn. rewrite zlen_app, zlen_cons, zlen_nil. lia.
Qed.

Lemma exists_in_batch_S ms i n d :
  ms !! i = Some d ->
  ducknng_method_name_exists_in_batch ms (S i) n =
  (ducknng_method_name_exists_in_batch ms i n || match d with Some d => has_name n d | None => false end)%bool.
Proof.
  intros Hi. unfold ducknng_method_name_exists_in_batch. rewrite (take_S_r _ _ _ Hi), existsb_app. simpl.
  by rewrite orb_false_r.
Qed.

(** The validation loop decides whether registering one by one succeeds. *)
Lemma check_refines r ms n i m :
  registry_wf r -> (i + n = length ms)%nat ->
  (forall x, m !! x = None <-> ducknng_method_name_exists r x = false /\
                             ducknng_method_name_exists_in_batch ms i x = false) ->
  register_many_check r ms i n = None <-> spec_register_all m (drop i ms) <> None.
Proof.
  intros Hwf. revert i m. induction n as [|n IH]; intros i m Hl Hm.
  { rewrite drop_ge by lia. done. }
  destruct (lookup_lt_is_Some_2 ms i ltac:(lia)) as [d Hd]. rewrite (drop_S _ _ _ Hd).
  cbn [register_many_check spec_register_all]. rewrite Hd. simpl mjoin. destruct d as [d|]; [|done].
  cbn [spec_register]. destruct (ducknng_method_descriptor_valid (Some d)) eqn:Ev; [|done]. cbn [negb andb].
  case_bool_decide as Hf.
  - apply Hm in Hf as [-> ->]. cbn [orb]. simpl mbind. apply IH; [lia|].
    intros x. rewrite lookup_insert_None, Hm, (exists_in_batch_S _ _ _ _ Hd), orb_false_iff.
    destruct (valid_name _ Ev) as (nm & En & _). rewrite En. unfold has_name. rewrite En.
    rewrite str_eq_false. simpl. tauto.
  - assert ((ducknng_method_name_exists r (default [] (m_name d)) ||
      ducknng_method_name_exists_in_batch ms i (default [] (m_name d)))%bool = true) as ->.
    { apply not_false_iff_true. rewrite orb_false_iff, <- Hm. done. }
    simpl. split; [done|]. by intros H.
Qed.

Lemma register_many_refines r ms :
  registry_wf r -> op_fits r (OpRegisterMany ms) ->
  match ducknng_method_registry_register_many r ms with
  | Ok r' => registry_wf r' /\ spec_register_all (contents r) ms = Some (contents r')
  | Err _ => spec_register_all (contents r) ms = None
  end.
Proof.
  intros Hwf [Hn Hs]. unfold ducknng_method_registry_register_many.
  pose proof (check_refines r ms (length ms) 0 (contents r) Hwf eq_refl) as Hc. rewrite drop_0 in Hc.
  assert (forall x, contents r !! x = None <-> ducknng_method_name_exists r x = false /\
    ducknng_method_name_exists_in_batch ms 0 x = false) as Hx.
  { intros x. rewrite name_exists_map, negb_false_iff, bool_decide_eq_true by done. naive_solver. }
  specialize (Hc Hx). destruct (register_many_check r ms 0 (length ms)) as [e|].
  - destruct (spec_register_all (contents r) ms); [|done]. by assert (Some e = None) by by apply Hc.
  - destruct (spec_register_all (contents r) ms) as [m'|] eqn:Em; [|by destruct Hc as [Hc _]; destruct (Hc eq_refl)].
    pose proof (zlen_nonneg ms).
    destruct (wf_reserve r (method_count r + zlen ms)) as [Hwf' Hc']; [done|done|lia|].
    destruct (append_all_refines (ducknng_registry_reserve r (method_count r + zlen ms)) ms m') as [H1 H2];
      [done|done| |by rewrite Hc'|].
    + unfold method_count at 1. rewrite reserve_methods. fold (method_count r).
      apply reserve_cap; [|done]. destruct Hwf as [_ _ Hcap]. unfold method_count in Hcap.
      pose proof (zlen_nonneg (methods r)). lia.
    + split; [done|]. by rewrite <- H2.
Qed.

Lemma contents_empty_name r : registry_wf r -> contents r !! [] = None.
Proof.
  intros Hwf. apply contents_none; [done|]. intros (s & E & Hs)%list_elem_of_fmap.
  destruct Hwf as [Hv _ _]. rewrite Forall_forall in Hv. destruct (Hv s Hs) as [Hd _].
  destruct (valid_name _ Hd) as (n & En & Hne & _). unfold slot_name in E. rewrite En in E. simpl in E. by subst.
Qed.

Lemma unregister_refines r name :
  registry_wf r ->
  let (r', b) := ducknng_method_registry_unregister r name in
  registry_wf r' /\ contents r' = delete (default [] name) (contents r) /\
  b = negb (bool_decide (contents r !! default [] name = None)).
Proof.
  intros Hwf. destruct name as [[|c n]|]; cbn [ducknng_method_registry_unregister default]; unfold id.
  1,3: rewrite delete_id, bool_decide_eq_true_2 by (by apply contents_empty_name); done.
  set (nm := c :: n). destruct (slot_index nm (methods r)) as [i|] eqn:E.
  - apply slot_index_Some in E as (s & _ & Hi & Hn). destruct (wf_remove r i s Hwf Hi) as (H1 & _ & H3).
    assert (slot_name s = nm) as Es.
    { destruct Hwf as [Hv _ _]. rewrite Forall_lookup in Hv. by apply has_name_spec; [apply (Hv _ _ Hi)|]. }
    split; [done|]. rewrite H3, Es. split; [done|]. rewrite bool_decide_eq_false_2; [done|].
    rewrite contents_none by done. intros H. apply H, list_elem_of_fmap. exists s. split; [done|].
    by eapply list_elem_of_lookup_2.
  - apply slot_index_absent in E; [|done]. by rewrite delete_id, bool_decide_eq_true_2.
Qed.

Lemma family_refines r family :
  registry_wf r ->
  let (r', n) := ducknng_method_registry_unregister_family r family in
  registry_wf r' /\ contents r' = spec_op (contents r) (OpUnregisterFamily family) /\
  n = method_count r - method_count r'.
Proof.
  intros Hwf. destruct family as [[|c f]|]; cbn [ducknng_method_registry_unregister_family spec_op].
  1,3: split; [done|]; split; [done|lia].
  set (fam := c :: f). rewrite family_loop_spec by lia. rewrite take_0, drop_0. cbn [app].
  set (r' := mk_registry _ _). assert (registry_wf r') as Hwf' by (by apply wf_filter).
  split; [done|]. split.
  - apply map_eq. intros n. apply option_eq. intros d.
    rewrite map_lookup_filter_Some, !contents_spec by done. cbn [methods r' snd].
    setoid_rewrite list_elem_of_filter. naive_solver.
  - subst r'. unfold method_count. cbn [methods]. generalize (methods r). intros l.
    induction l as [|s l IH]; [done|]. destruct (in_family fam (slot_method s)) eqn:E.
    + rewrite filter_cons_True by done. rewrite filter_cons_False by congruence.
      rewrite !zlen_cons. lia.
    + rewrite filter_cons_False by congruence. rewrite filter_cons_True by done.
      rewrite !zlen_cons. lia.
Qed.

Lemma with_requires_auth_same d : with_requires_auth (requires_auth d) d = d.
Proof. by destruct d. Qed.

Lemma set_auth_refines r name v :
  registry_wf r ->
  match ducknng_method_registry_set_requires_auth r name v with
  | Ok r' => registry_wf r' /\ contents r !! default [] name <> None /\
             contents r' = alter (with_requires_auth (int_bool v)) (default [] name) (contents r)
  | Err _ => contents r !! default [] name = None
  end.
Proof.
  intros Hwf. destruct name as [[|c n]|]; cbn [ducknng_method_registry_set_requires_auth default]; unfold id.
  1,3: by apply contents_empty_name.
  set (nm := c :: n). destruct (slot_index nm (methods r)) as [i|] eqn:E; [|by apply slot_index_absent].
  apply slot_index_Some in E as (s & _ & Hi & Hn). rewrite Hi.
  assert (slot_name s = nm) as Es.
  { destruct Hwf as [Hv _ _]. rewrite Forall_lookup in Hv. by apply has_name_spec; [apply (Hv _ _ Hi)|]. }
  assert (contents r !! nm = Some (slot_method s)) as Hc.
  { apply contents_spec; [done|]. exists s. split; [by eapply list_elem_of_lookup_2|done]. }
  destruct (Z.eqb_spec (requires_auth (slot_method s)) (int_bool v)) as [Ea|Ea].
  - split; [done|]. split; [congruence|]. apply map_eq. intros x. destruct (decide (x = nm)) as [->|].
    + rewrite lookup_alter_eq, Hc. simpl. by rewrite <- Ea, with_requires_auth_same.
    + by rewrite lookup_alter_ne.
  - destruct (wf_update r i s (int_bool v) Hwf Hi) as [H1 H2]. split; [done|]. split; [congruence|].
    rewrite H2, Es. apply map_eq. intros x. destruct (decide (x = nm)) as [->|].
    + by rewrite lookup_insert_eq, lookup_alter_eq, Hc.
    + by rewrite lookup_insert_ne, lookup_alter_ne.
Qed.

Lemma slot_index_update nm l i s s' :
  slot_index nm l = Some i -> l !! i = Some s -> m_name (slot_method s') = m_name (slot_method s) ->
  slot_index nm (<[i := s']> l) = Some i.
Proof.
  intros Ei Hi Hn. revert i Ei Hi. induction l as [|t l IH]; intros i Ei Hi; [done|]. cbn [slot_index] in Ei.
  destruct (has_name nm (slot_method t)) eqn:E.
  - injection Ei as <-. simpl in Hi. injection Hi as ->. simpl. unfold has_name in *. by rewrite Hn, E.
  - destruct (slot_index nm l) as [j|] eqn:Ej; [|done]. injection Ei as <-. simpl in Hi |- *.
    by rewrite E, (IH j).
Qed.

(** ** Claims *)

(** C23.  The method registry implements a finite map from names to methods.
    From a well-formed registry every operation (registering one method or a
    batch, unregistering by name or by family, changing a method's auth
    requirement) leaves a well-formed registry whose contents are the map
    operation's result; a refused call changes nothing, so a bulk registration
    takes effect for all its methods or for none; and looking a name up on the
    wire finds exactly what the map holds. *)
Theorem registry_refines_map r op name :
  registry_wf r -> op_fits r op -> zlen name <= UINT32_MAX ->
  registry_wf (run_op r op) /\
  contents (run_op r op) = spec_op (contents r) op /\
  ducknng_method_registry_find (run_op r op) (Some name) (zlen name) = spec_op (contents r) op !! name.
Proof.
  intros Hwf Hf Hn.
  assert (registry_wf (run_op r op) /\ contents (run_op r op) = spec_op (contents r) op) as [H1 H2].
  { destruct op as [d|ms|nm|fam|nm v]; cbn [run_op spec_op].
    - pose proof (register_refines r d Hwf Hf) as H.
      destruct (ducknng_method_registry_register r d); [|by rewrite H]. destruct H as [? ->]. done.
    - pose proof (register_many_refines r ms Hwf Hf) as H.
      destruct (ducknng_method_registry_register_many r ms); [|by rewrite H]. destruct H as [? ->]. done.
    - pose proof (unregister_refines r nm Hwf) as H.
      destruct (ducknng_method_registry_unregister r nm). by destruct H as (? & ? & _).
    - pose proof (family_refines r fam Hwf) as H.
      destruct (ducknng_method_registry_unregister_family r fam). by destruct H as (? & ? & _).
    - pose proof (set_auth_refines r nm v Hwf) as H.
      destruct (ducknng_method_registry_set_requires_auth r nm v); [by destruct H as (? & _ & ?)|].
      split; [done|]. apply map_eq. intros x. destruct (decide (x = default [] nm)) as [->|].
      + by rewrite lookup_alter_eq, H.
      + by rewrite lookup_alter_ne. }
  split; [done|]. split; [done|]. rewrite <- H2.
  destruct (find_spec (run_op r op) name H1) as [<-|]; [|lia].
  pose proof (zlen_nonneg name). by rewrite u32_small by lia.
Qed.

Definition demo_method (name : string) : ducknng_method_descriptor :=
  mk_method (Some (lit name)) (Some (lit "demo")) None DUCKNNG_TRANSPORT_REQREP DUCKNNG_PAYLOAD_NONE
    DUCKNNG_PAYLOAD_JSON DUCKNNG_RESPONSE_ROWS DUCKNNG_SESSION_STATELESS 0 0 0 0 0 0 0 0 0 1 0 0 1
    None None (Some 1).

Lemma registry_wf_init : registry_wf ducknng_method_registry_init.
Proof. split; cbn; [constructor|constructor|done]. Qed.

Lemma registry_refines_map_witness :
  ducknng_method_registry_find
    (run_op ducknng_method_registry_init
       (OpRegisterMany [Some (demo_method "echo"); Some (demo_method "ping")]))
    (Some (lit "ping")) (zlen (lit "ping")) = Some (demo_method "ping").
Proof.
  refine (eq_trans (proj2 (proj2 (registry_refines_map ducknng_method_registry_init
    (OpRegisterMany [Some (demo_method "echo"); Some (demo_method "ping")]) (lit "ping")
    registry_wf_init _ _))) _).
  - split; [|vm_compute; discriminate].
    apply Forall_cons_2; [vm_compute; discriminate|]. apply Forall_cons_2; [vm_compute; discriminate|].
    apply Forall_nil_2.
  - vm_compute. discriminate.
  - vm_compute. reflexivity.
Defined.

(** Restoring an auth requirement undoes a change.  After
    [set_requires_auth] changed a method's flag from a 0/1 value, the
    allocation-free [restore_auth_inplace] with the old value succeeds and
    gives back the contents from before the change. *)
Theorem restore_auth_undoes r r' name v d :
  registry_wf r -> contents r !! default [] name = Some d ->
  int_bool (requires_auth d) = requires_auth d -> requires_auth d <> int_bool v ->
  ducknng_method_registry_set_requires_auth r name v = Ok r' ->
  let (r'', ok) := ducknng_method_registry_restore_auth_inplace r' name (requires_auth d) in
  ok = true /\ registry_wf r'' /\ contents r'' = contents r.
Proof.
  intros Hwf Hd Hb Hne Hset.
  destruct name as [[|c n]|]; cbn [ducknng_method_registry_set_requires_auth] in Hset; try done.
  cbn [ducknng_method_registry_restore_auth_inplace]. cbn [default] in Hd. unfold id in Hd. set (nm := c :: n) in *.
  destruct (slot_index nm (methods r)) as [i|] eqn:Ei; [|done].
  destruct (slot_index_Some _ _ _ Ei) as (s & _ & Hi & Hn). rewrite Hi in Hset.
  assert (slot_name s = nm) as Es.
  { destruct Hwf as [Hv _ _]. rewrite Forall_lookup in Hv. by apply has_name_spec; [apply (Hv _ _ Hi)|]. }
  assert (slot_method s = d) as <-.
  { assert (contents r !! nm = Some (slot_method s)) as Hc; [|congruence].
    apply contents_spec; [done|]. exists s. split; [by eapply list_elem_of_lookup_2|done]. }
  destruct (Z.eqb_spec (requires_auth (slot_method s)) (int_bool v)); [done|]. injection Hset as <-.
  destruct (wf_update r i s (int_bool v) Hwf Hi) as [Hwf1 Hc1].
  set (s' := mk_slot (with_requires_auth (int_bool v) (slot_method s)) true) in *.
  set (r1 := mk_registry _ _) in *.
  assert (methods r1 !! i = Some s') as Hi1 by (apply list_lookup_insert_eq; by eapply lookup_lt_Some).
  assert (slot_index nm (methods r1) = Some i) as Ei1.
  { by apply (slot_index_update _ _ _ s). }
  rewrite Ei1, Hi1, Hb. cbn [slot_method s' requires_auth with_requires_auth slot_owned].
  destruct (Z.eqb_spec (int_bool v) (requires_auth (slot_method s))); [done|].
  destruct (wf_update r1 i s' (requires_auth (slot_method s)) Hwf1 Hi1) as [Hwf2 Hc2].
  split; [done|]. split; [exact Hwf2|]. etransitivity; [exact Hc2|].
  change (slot_name s') with (slot_name s). rewrite Hc1, insert_insert_eq.
  change (with_requires_auth (requires_auth (slot_method s)) (slot_method s')) with
    (with_requires_auth (requires_auth (slot_method s)) (slot_method s)).
  rewrite with_requires_auth_same, Es. by apply insert_id.
Qed.

Lemma restore_auth_undoes_witness :
  (ducknng_method_registry_restore_auth_inplace
    (run_op (mk_registry [mk_slot (demo_method "exec") false] 8) (OpSetAuth (Some (lit "exec")) 1))
    (Some (lit "exec")) 0).2 = true.
Proof.
  assert (registry_wf (mk_registry [mk_slot (demo_method "exec") false] 8)) as Hwf.
  { split; [|cbn; apply NoDup_singleton|vm_compute; discriminate].
    apply Forall_cons_2; [|apply Forall_nil_2]. split; [reflexivity|vm_compute; discriminate]. }
  pose proof (restore_auth_undoes _ _ (Some (lit "exec")) 1 (demo_method "exec") Hwf
    eq_refl eq_refl ltac:(discriminate) eq_refl) as H.
  exact (proj1 H).
Defined.

(** *** Replies *)

Inductive reply_op :=
| SetPayload (type flags : Z) (payload : option bytes) (len : Z)
| SetPrebuilt (type flags : Z) (msg : option bytes) (prefix len : Z)
| SetError (status : Z) (message : option bytes)
| ResetReply.

Definition run_reply_op (r : ducknng_method_reply) (op : reply_op) : ducknng_method_reply :=
  match op with
  | SetPayload t f p n => ducknng_method_reply_set_payload r t f p n
  | SetPrebuilt t f m p n => (ducknng_method_reply_set_prebuilt_message r t f m p n).1
  | SetError s m => ducknng_method_reply_set_error r s m
  | ResetReply => ducknng_method_reply_reset r
  end.

(** A reply carries one body.  After any sequence of reply operations a
    reply holds a payload or a prebuilt message but never both, a prefix size
    only with a prebuilt message, and after [set_error] it is an ERROR reply
    with no body, no flags, the given status and a message. *)
Theorem reply_single_body ops :
  let r := foldl run_reply_op ducknng_method_reply_init ops in
  (reply_payload r = None \/ prebuilt_msg r = None) /\
  (prebuilt_msg r = None -> prefix_size r = 0) /\
  forall status message, last ops = Some (SetError status message) ->
    reply_type r = DUCKNNG_RPC_ERROR /\ reply_flags r = 0 /\ reply_payload r = None /\
    prebuilt_msg r = None /\ reply_payload_len r = 0 /\ reply_status r = status /\
    reply_error r = Some (default (lit "ducknng: unspecified error") message).
Proof.
  cbv zeta. induction ops as [|op ops IH] using rev_ind; [by split; [left|split]|].
  rewrite foldl_app. cbn [foldl]. set (r := foldl run_reply_op _ ops) in *. destruct IH as (H1 & H2 & _).
  split; [|split].
  - destruct op as [? ? ? ?|? ? [m|] ? ?|? ?|]; cbn; auto.
  - destruct op as [? ? ? ?|? ? [m|] ? ?|? ?|]; cbn; auto. done.
  - intros s m. rewrite last_snoc. intros [= ->]. cbn. auto 10.
Qed.
