(* ===== verification/Peers.v ===== *)
(** Request and session-open accounting per peer identity: the last part of
    [src/src/ducknng_service.c].

    Every function here runs under the service mutex, so it is one atomic
    step.  Allocation failures are not modelled.  The array of peer states is
    a list; the sliding window of session opens keeps the array, its capacity
    and the indices of the source. *)

From Stdlib Require Import Sorted.
From stdpp Require Import relations.
From S2P Require Import Prelude.

(** ** Data *)

Record ducknng_peer_identity_state := mk_peer {
  p_identity : bytes;
  inflight_count : Z;
  cumulative_reply_bytes : Z;
  session_open_times : list Z;   (* session_open_cap entries *)
  session_open_head : Z;
  session_open_count : Z }.

Definition session_open_cap (p : ducknng_peer_identity_state) : Z := zlen (session_open_times p).

(** The limits of a service; 0 means unlimited. *)
Record service_limits := mk_limits {
  max_open_sessions : Z;
  max_active_pipes : Z;
  max_inflight_requests : Z;
  max_sessions_per_peer_identity : Z;
  max_inflight_per_peer_identity : Z;
  max_reply_bytes_per_peer_identity : Z;
  max_session_open_rate_per_peer_identity : Z }.

(** The counters of a service the accounting works on. *)
Record service_load := mk_load {
  peer_identity_states : list ducknng_peer_identity_state;
  peer_identity_state_cap : Z;
  inflight_request_count : Z;
  inflight_request_count_visible : Z }.

Definition ducknng_service_set_limits (a b c d e f g : Z) : service_limits := mk_limits a b c d e f g.

(** ** Operations *)

Definition peer_index (identity : bytes) (l : list ducknng_peer_identity_state) : option nat :=
  find_index (fun p => str_eq (p_identity p) identity) l.

Definition fresh_peer (identity : bytes) : ducknng_peer_identity_state := mk_peer identity 0 0 [] 0 0.

(** The load with the peer's slot present, and the slot's index. *)
Definition ducknng_service_find_or_create_peer_identity_locked (load : service_load)
    (identity : option bytes) : option (service_load * nat) :=
  match identity with
  | None | Some [] => None
  | Some identity =>
    let peers := peer_identity_states load in
    match peer_index identity peers with
    | Some i => Some (load, i)
    | None =>
      let cap := if zlen peers =? peer_identity_state_cap load
        then (if negb (peer_identity_state_cap load =? 0) then peer_identity_state_cap load * 2 else 8)
        else peer_identity_state_cap load in
      Some (mk_load (peers ++ [fresh_peer identity]) cap (inflight_request_count load)
              (inflight_request_count_visible load), length peers)
    end
  end.

Definition update_peer (i : nat) (f : ducknng_peer_identity_state -> ducknng_peer_identity_state)
    (load : service_load) : service_load :=
  mk_load (alter f i (peer_identity_states load)) (peer_identity_state_cap load)
    (inflight_request_count load) (inflight_request_count_visible load).

(** The expiry loop: entries still in the window move to the front. *)
Fixpoint expire_loop (n : nat) (i valid : Z) (head cap now_ms : Z) (times : list Z) : Z * list Z :=
  match n with
  | O => (valid, times)
  | S n =>
    let idx := (head + i) mod (if cap =? 0 then 1 else cap) in
    let t := default 0 (times !! Z.to_nat idx) in
    if now_ms <? t + 1000
    then expire_loop n (i + 1) (valid + 1) head cap now_ms (<[Z.to_nat valid := t]> times)
    else expire_loop n (i + 1) valid head cap now_ms times
  end.

Definition expire_opens (now_ms : Z) (p : ducknng_peer_identity_state) : ducknng_peer_identity_state :=
  let (valid, times) := expire_loop (Z.to_nat (session_open_count p)) 0 0 (session_open_head p)
    (session_open_cap p) now_ms (session_open_times p) in
  mk_peer (p_identity p) (inflight_count p) (cumulative_reply_bytes p) times 0 valid.

Definition record_open (now_ms : Z) (p : ducknng_peer_identity_state) : ducknng_peer_identity_state :=
  let times := if session_open_count p =? session_open_cap p
    then session_open_times p ++
         replicate (Z.to_nat (if session_open_cap p =? 0 then 8 else session_open_cap p)) 0
    else session_open_times p in
  mk_peer (p_identity p) (inflight_count p) (cumulative_reply_bytes p)
    (<[Z.to_nat (session_open_count p) := now_ms]> times) (session_open_head p)
    (session_open_count p + 1).

(** The load after the call, and the message of a refusal. *)
Definition ducknng_service_check_and_record_session_open_locked (lim : service_limits)
    (load : service_load) (identity : option bytes) (now_ms : Z) : service_load * option bytes :=
  if negb (nonempty identity) then (load, None) else
  if max_session_open_rate_per_peer_identity lim =? 0 then (load, None) else
  match ducknng_service_find_or_create_peer_identity_locked load identity with
  | None => (load, None)
  | Some (load, i) =>
    let load := update_peer i (expire_opens now_ms) load in
    match peer_identity_states load !! i with
    | None => (load, None)
    | Some ps =>
      if max_session_open_rate_per_peer_identity lim <=? session_open_count ps
      then (load, Some (lit "ducknng: session open rate per peer identity exceeded"))
      else (update_peer i (record_open now_ms) load, None)
    end
  end.

Definition set_inflight (n : Z) (load : service_load) : service_load :=
  mk_load (peer_identity_states load) (peer_identity_state_cap load) n n.

Definition add_inflight (d : Z) (p : ducknng_peer_identity_state) : ducknng_peer_identity_state :=
  mk_peer (p_identity p) (inflight_count p + d) (cumulative_reply_bytes p) (session_open_times p)
    (session_open_head p) (session_open_count p).

Definition ducknng_service_begin_request (lim : service_limits) (shutting_down : bool)
    (load : service_load) (caller_identity : option bytes) : service_load * option bytes :=
  if shutting_down then (load, Some (lit "ducknng: service is shutting down")) else
  if ((0 <? max_inflight_requests lim) && (max_inflight_requests lim <=? inflight_request_count load))%bool
  then (load, Some (lit "ducknng: max inflight requests exceeded")) else
  let accept load := (set_inflight (inflight_request_count load + 1) load, None) in
  if nonempty caller_identity then
    match ducknng_service_find_or_create_peer_identity_locked load caller_identity with
    | None => accept load
    | Some (load, i) =>
      match peer_identity_states load !! i with
      | None => accept load
      | Some ps =>
        if ((0 <? max_inflight_per_peer_identity lim) &&
            (max_inflight_per_peer_identity lim <=? inflight_count ps))%bool
        then (load, Some (lit "ducknng: max inflight requests per peer identity exceeded")) else
        if ((0 <? max_reply_bytes_per_peer_identity lim) &&
            (max_reply_bytes_per_peer_identity lim <=? cumulative_reply_bytes ps))%bool
        then (load, Some (lit "ducknng: reply byte quota for peer identity exceeded"))
        else accept (update_peer i (add_inflight 1) load)
      end
    end
  else accept load.

Definition account_reply (reply_bytes : Z) (p : ducknng_peer_identity_state) : ducknng_peer_identity_state :=
  mk_peer (p_identity p) (if 0 <? inflight_count p then inflight_count p - 1 else inflight_count p)
    (u64 (cumulative_reply_bytes p + reply_bytes)) (session_open_times p)
    (session_open_head p) (session_open_count p).

Definition ducknng_service_end_request (load : service_load) (caller_identity : option bytes)
    (reply_bytes : Z) : service_load :=
  let load := set_inflight (if 0 <? inflight_request_count load
    then inflight_request_count load - 1 else inflight_request_count load) load in
  match caller_identity with
  | None | Some [] => load
  | Some identity =>
    match peer_index identity (peer_identity_states load) with
    | Some i => update_peer i (account_reply reply_bytes) load
    | None => load
    end
  end.

(** ** Requests in flight

    The service together with the callers whose requests are outstanding; a
    request begins, is refused, or ends, in any order. *)

Record inflight_state := mk_inflight { if_load : service_load; outstanding : list (option bytes) }.

Inductive inflight_step (lim : service_limits) : inflight_state -> inflight_state -> Prop :=
| step_begin load load' out sd caller :
    ducknng_service_begin_request lim sd load caller = (load', None) ->
    inflight_step lim (mk_inflight load out) (mk_inflight load' (caller :: out))
| step_refused load load' out sd caller e :
    ducknng_service_begin_request lim sd load caller = (load', Some e) ->
    inflight_step lim (mk_inflight load out) (mk_inflight load' out)
| step_end load out out' caller reply_bytes :
    Permutation out (caller :: out') ->
    inflight_step lim (mk_inflight load out)
      (mk_inflight (ducknng_service_end_request load caller reply_bytes) out')
| step_open load load' out identity now r :
    ducknng_service_check_and_record_session_open_locked lim load identity now = (load', r) ->
    inflight_step lim (mk_inflight load out) (mk_inflight load' out).

Definition empty_load : service_load := mk_load [] 0 0 0.

(** How many outstanding requests come from an identity. *)
Definition count_of (identity : bytes) (out : list (option bytes)) : Z :=
  zlen (filter (fun c => c = Some identity) out).

Record inflight_inv (lim : service_limits) (s : inflight_state) : Prop := {
  inv_total : inflight_request_count (if_load s) = zlen (outstanding s);
  inv_visible : inflight_request_count_visible (if_load s) = inflight_request_count (if_load s);
  inv_names : NoDup (p_identity <$> peer_identity_states (if_load s));
  inv_peers : forall p, p ∈ peer_identity_states (if_load s) ->
    inflight_count p = count_of (p_identity p) (outstanding s) /\
    (0 < max_inflight_per_peer_identity lim -> inflight_count p <= max_inflight_per_peer_identity lim);
  inv_known : forall id, Some id ∈ outstanding s -> id <> [] ->
    id ∈ p_identity <$> peer_identity_states (if_load s);
  inv_named : Forall (fun p => p_identity p <> []) (peer_identity_states (if_load s));
  inv_limit : 0 < max_inflight_requests lim ->
    inflight_request_count (if_load s) <= max_inflight_requests lim }.

(** ** Lemmas *)

Lemma count_of_cons id c out :
  count_of id (c :: out) = (if decide (c = Some id) then 1 else 0) + count_of id out.
Proof.
  unfold count_of. rewrite filter_cons. destruct (decide (c = Some id)); [by rewrite zlen_cons|lia].
Qed.

Lemma count_of_perm id out out' : Permutation out out' -> count_of id out = count_of id out'.
Proof. intros H. unfold count_of, zlen. by rewrite H. Qed.

Lemma count_of_zero id out : Some id ∉ out -> count_of id out = 0.
Proof.
  induction out as [|c out IH]; intros H; [done|]. apply not_elem_of_cons in H as [H1 H2].
  rewrite count_of_cons, decide_False by congruence. rewrite IH by done. lia.
Qed.

Lemma count_of_nonneg id out : 0 <= count_of id out.
Proof. apply zlen_nonneg. Qed.

Lemma find_or_create_spec load id load' i :
  ducknng_service_find_or_create_peer_identity_locked load (Some id) = Some (load', i) ->
  id <> [] /\ exists p, peer_identity_states load' !! i = Some p /\ p_identity p = id /\
    inflight_request_count load' = inflight_request_count load /\
    inflight_request_count_visible load' = inflight_request_count_visible load /\
    (load' = load \/
     (id ∉ p_identity <$> peer_identity_states load /\
      peer_identity_states load' = peer_identity_states load ++ [fresh_peer id])).
Proof.
  cbn [ducknng_service_find_or_create_peer_identity_locked]. destruct id as [|c id]; [done|]. set (nm := c :: id).
  destruct (peer_index nm _) as [j|] eqn:E; intros [= <- <-]; (split; [done|]).
  - apply find_index_Some in E as (p & Hp & Hn). apply str_eq_true in Hn. exists p. auto 10.
  - exists (fresh_peer nm). cbn. split; [by apply list_lookup_middle|].
    repeat (split; [done|]). right. split; [|done]. apply find_index_None in E.
    intros (p & Ep & Hp)%list_elem_of_fmap. rewrite Forall_forall in E. specialize (E p Hp).
    rewrite Ep in E. simpl in E. by rewrite str_eq_refl in E.
Qed.

Lemma find_or_create_total load id :
  id <> [] -> exists load' i, ducknng_service_find_or_create_peer_identity_locked load (Some id) = Some (load', i).
Proof.
  intros H. destruct id as [|c id]; [done|]. cbn. destruct (peer_index _ _); eauto.
Qed.

Lemma inv_find_or_create lim load load' out id i :
  inflight_inv lim (mk_inflight load out) ->
  ducknng_service_find_or_create_peer_identity_locked load (Some id) = Some (load', i) ->
  inflight_inv lim (mk_inflight load' out).
Proof.
  intros [H1 H2 H3 H4 H5 H6 H7] (Hne & p & Hp & Hid & Ht & Hv & [->|[Hfresh Hl]])%find_or_create_spec;
    [by split|]. cbn in *.
  split; cbn; rewrite ?Ht, ?Hv; try done; rewrite ?Hl.
  - rewrite fmap_app. apply NoDup_app. split; [done|]. split; [|apply NoDup_singleton].
    intros x Hx Hx'. apply list_elem_of_singleton in Hx'. by subst.
  - intros q [Hq|Hq]%elem_of_app; [by apply H4|]. apply list_elem_of_singleton in Hq as ->. cbn.
    assert (Some id ∉ out) as Hout by (intros Hin; by apply Hfresh, H5).
    rewrite (count_of_zero _ _ Hout). lia.
  - intros x Hx Hxn. rewrite fmap_app. apply elem_of_app. left. by apply H5.
  - apply Forall_app. split; [done|]. by constructor.
Qed.

(** Rewriting a peer without touching its identity or its in-flight count. *)
Lemma inv_update_quiet lim load out i f :
  (forall p, p_identity (f p) = p_identity p) -> (forall p, inflight_count (f p) = inflight_count p) ->
  inflight_inv lim (mk_inflight load out) -> inflight_inv lim (mk_inflight (update_peer i f load) out).
Proof.
  intros Hid Hc [H1 H2 H3 H4 H5 H6 H7]. cbn in *.
  split; cbn; rewrite ?(fmap_alter_same p_identity) by done; try done.
  - intros p [(q & Hq & ->)|(j & _ & Hj)]%elem_of_alter.
    + rewrite Hid, Hc. apply H4. by eapply list_elem_of_lookup_2.
    + apply H4. by eapply list_elem_of_lookup_2.
  - rewrite Forall_forall in H6 |- *. intros p [(q & Hq & ->)|(j & _ & Hj)]%elem_of_alter.
    + rewrite Hid. apply H6. by eapply list_elem_of_lookup_2.
    + apply H6. by eapply list_elem_of_lookup_2.
Qed.

Lemma expire_identity now p : p_identity (expire_opens now p) = p_identity p.
Proof. unfold expire_opens. by destruct (expire_loop _ _ _ _ _ _ _). Qed.

Lemma expire_inflight now p : inflight_count (expire_opens now p) = inflight_count p.
Proof. unfold expire_opens. by destruct (expire_loop _ _ _ _ _ _ _). Qed.

Lemma inv_session_open lim load load' out identity now r :
  inflight_inv lim (mk_inflight load out) ->
  ducknng_service_check_and_record_session_open_locked lim load identity now = (load', r) ->
  inflight_inv lim (mk_inflight load' out).
Proof.
  intros Hinv. unfold ducknng_service_check_and_record_session_open_locked.
  destruct (negb (nonempty identity)) eqn:En; [by intros [= <- _]|].
  destruct identity as [id|]; [|done].
  destruct (_ =? 0); [by intros [= <- _]|].
  destruct (ducknng_service_find_or_create_peer_identity_locked load (Some id)) as [[l1 i]|] eqn:E;
    [|by intros [= <- _]].
  pose proof (inv_find_or_create _ _ _ _ _ _ Hinv E) as Hinv1.
  assert (inflight_inv lim (mk_inflight (update_peer i (expire_opens now) l1) out)) as Hinv2
    by (apply inv_update_quiet; auto using expire_identity, expire_inflight).
  destruct (peer_identity_states _ !! i) as [ps|]; [|by intros [= <- _]].
  destruct (_ <=? _); intros [= <- _]; [done|]. by apply inv_update_quiet.
Qed.

Lemma inv_begin_counted lim load out i id p :
  inflight_inv lim (mk_inflight load out) -> id <> [] ->
  peer_identity_states load !! i = Some p -> p_identity p = id ->
  (0 < max_inflight_per_peer_identity lim -> inflight_count p < max_inflight_per_peer_identity lim) ->
  (0 < max_inflight_requests lim -> inflight_request_count load < max_inflight_requests lim) ->
  inflight_inv lim (mk_inflight
    (set_inflight (inflight_request_count load + 1) (update_peer i (add_inflight 1) load)) (Some id :: out)).
Proof.
  intros [H1 H2 H3 H4 H5 H6 H7] Hne Hp Hid Hmax Htot. cbn in *.
  split; cbn; rewrite ?(fmap_alter_same p_identity) by done; try done.
  - rewrite zlen_cons. lia.
  - intros q [(x & Hx & ->)|(j & Hj & Hq)]%elem_of_alter; rewrite count_of_cons.
    + rewrite Hp in Hx. injection Hx as <-. cbn. rewrite Hid, decide_True by done.
      destruct (H4 p ltac:(by eapply list_elem_of_lookup_2)) as [Hc _]. rewrite Hid in Hc. lia.
    + rewrite decide_False; [apply H4; by eapply list_elem_of_lookup_2|].
      intros [= E]. apply Hj. eapply (NoDup_fmap_lookup_inj p_identity); [done|exact Hq|exact Hp|congruence].
  - intros x [[= ->]|Hx]%elem_of_cons Hxn; [|by apply H5].
    apply list_elem_of_fmap. exists p. split; [done|by eapply list_elem_of_lookup_2].
  - rewrite Forall_forall in H6 |- *. intros q [(x & Hx & ->)|(j & _ & Hj)]%elem_of_alter.
    + apply (H6 x). by eapply list_elem_of_lookup_2.
    + apply H6. by eapply list_elem_of_lookup_2.
  - intros Hpos. specialize (Htot Hpos). lia.
Qed.

Lemma inv_begin_anonymous lim load out caller :
  inflight_inv lim (mk_inflight load out) -> nonempty caller = false ->
  (0 < max_inflight_requests lim -> inflight_request_count load < max_inflight_requests lim) ->
  inflight_inv lim (mk_inflight (set_inflight (inflight_request_count load + 1) load) (caller :: out)).
Proof.
  intros [H1 H2 H3 H4 H5 H6 H7] Hc Htot. cbn in *.
  assert (forall x, caller = Some x -> x = []) as Hx by (intros x ->; by destruct x).
  split; cbn; try done.
  - rewrite zlen_cons. lia.
  - intros p Hp. rewrite count_of_cons. rewrite Forall_forall in H6. specialize (H6 p Hp).
    rewrite decide_False by (intros E; by apply H6, Hx). rewrite Z.add_0_l. by apply H4.
  - intros x [E|Hin]%elem_of_cons Hxn; [|by apply H5]. by destruct Hxn; apply Hx.
  - intros Hpos. specialize (Htot Hpos). lia.
Qed.

Lemma inv_begin lim load load' out sd caller :
  inflight_inv lim (mk_inflight load out) ->
  ducknng_service_begin_request lim sd load caller = (load', None) ->
  inflight_inv lim (mk_inflight load' (caller :: out)).
Proof.
  intros Hinv. unfold ducknng_service_begin_request. destruct sd; [done|].
  destruct (_ && _)%bool eqn:Et; [done|].
  assert (0 < max_inflight_requests lim -> inflight_request_count load < max_inflight_requests lim) as Htot.
  { intros Hpos. apply andb_false_iff in Et as [E|E]; btests; lia. }
  destruct (nonempty caller) eqn:En; [|intros [= <-]; by apply inv_begin_anonymous].
  destruct caller as [id|]; [|done]. assert (id <> []) as Hid by (by destruct id).
  destruct (find_or_create_total load id Hid) as (l1 & i & E). rewrite E.
  pose proof (inv_find_or_create _ _ _ _ _ _ Hinv E) as Hinv1.
  destruct (find_or_create_spec _ _ _ _ E) as (_ & p & Hp & Hpid & Ht & _ & _). rewrite Hp.
  destruct ((0 <? max_inflight_per_peer_identity lim) && _)%bool eqn:Em; [done|].
  destruct ((0 <? max_reply_bytes_per_peer_identity lim) && _)%bool; [done|].
  intros [= <-]. apply (inv_begin_counted lim l1 out i id p); try done; [|by rewrite Ht].
  intros Hpos. apply andb_false_iff in Em as [X|X]; btests; lia.
Qed.

Lemma inv_refused lim load load' out sd caller e :
  inflight_inv lim (mk_inflight load out) ->
  ducknng_service_begin_request lim sd load caller = (load', Some e) ->
  inflight_inv lim (mk_inflight load' out).
Proof.
  intros Hinv. unfold ducknng_service_begin_request. destruct sd; [by intros [= <- _]|].
  destruct (_ && _)%bool eqn:Et; [by intros [= <- _]|].
  destruct (nonempty caller) eqn:En; [|done].
  destruct caller as [id|]; [|done]. assert (id <> []) as Hid by (by destruct id).
  destruct (find_or_create_total load id Hid) as (l1 & i & E). rewrite E.
  pose proof (inv_find_or_create _ _ _ _ _ _ Hinv E) as Hinv1.
  destruct (peer_identity_states l1 !! i); [|done].
  destruct ((0 <? max_inflight_per_peer_identity lim) && _)%bool; [by intros [= <- _]|].
  by destruct ((0 <? max_reply_bytes_per_peer_identity lim) && _)%bool; [intros [= <- _]|].
Qed.

Lemma inv_end lim load out out' caller n :
  inflight_inv lim (mk_inflight load out) -> Permutation out (caller :: out') ->
  inflight_inv lim (mk_inflight (ducknng_service_end_request load caller n) out').
Proof.
  intros Hinv Hperm. destruct Hinv as [H1 H2 H3 H4 H5 H6 H7]. cbn in *.
  assert (zlen out = 1 + zlen out') as Hlen by (unfold zlen; rewrite Hperm; simpl; lia).
  pose proof (zlen_nonneg out').
  assert (forall id, count_of id out = (if decide (caller = Some id) then 1 else 0) + count_of id out') as Hcount.
  { intros id. by rewrite (count_of_perm _ _ _ Hperm), count_of_cons. }
  assert (forall id, Some id ∈ out' -> Some id ∈ out) as Hsub.
  { intros id Hin. rewrite Hperm. by right. }
  unfold ducknng_service_end_request. destruct (Z.ltb_spec 0 (inflight_request_count load)); [|lia].
  assert (forall l, peer_identity_states l = peer_identity_states load -> nonempty caller = false ->
    inflight_request_count l = inflight_request_count load - 1 ->
    inflight_request_count_visible l = inflight_request_count load - 1 ->
    inflight_inv lim (mk_inflight l out')) as Hanon.
  { intros l El Hc Et Ev. split; cbn; rewrite ?El, ?Et, ?Ev; try done; try lia.
    - intros p Hp. destruct (H4 p Hp) as [Hp1 Hp2]. rewrite Hcount in Hp1. rewrite Forall_forall in H6.
      specialize (H6 p Hp). rewrite decide_False in Hp1; [split; [lia|done]|].
      intros ->. by destruct (p_identity p).
    - intros id Hin. apply H5. by apply Hsub. }
  destruct caller as [[|c id]|]; [by apply Hanon| |by apply Hanon]. set (nm := c :: id) in *.
  assert (nm ∈ p_identity <$> peer_identity_states load) as Hin by (apply H5; [rewrite Hperm; by left|done]).
  cbn [set_inflight peer_identity_states]. destruct (peer_index nm (peer_identity_states load)) as [i|] eqn:Ei.
  2:{ apply find_index_None in Ei. apply list_elem_of_fmap in Hin as (p & Ep & Hp).
      rewrite Forall_forall in Ei. specialize (Ei p Hp). cbn in Ei. rewrite Ep, str_eq_refl in Ei. done. }
  apply find_index_Some in Ei as (p & Hp & Hpid). apply str_eq_true in Hpid.
  split; cbn; rewrite ?(fmap_alter_same p_identity) by done; try done; try lia.
  - intros q [(x & Hx & ->)|(j & Hj & Hq)]%elem_of_alter.
    + rewrite Hp in Hx. injection Hx as <-. destruct (H4 p ltac:(by eapply list_elem_of_lookup_2)) as [Hc Hm].
      rewrite Hcount, Hpid, decide_True in Hc by done. pose proof (count_of_nonneg nm out'). cbn. rewrite Hpid.
      destruct (Z.ltb_spec 0 (inflight_count p)); lia.
    + destruct (H4 q ltac:(by eapply list_elem_of_lookup_2)) as [Hc Hm].
      rewrite Hcount, decide_False in Hc; [split; [lia|done]|].
      intros [= E]. apply Hj. eapply (NoDup_fmap_lookup_inj p_identity); [done|exact Hq|exact Hp|congruence].
  - intros x Hx. apply H5. by apply Hsub.
  - rewrite Forall_forall in H6 |- *. intros q [(x & Hx & ->)|(j & _ & Hj)]%elem_of_alter.
    + apply (H6 x). by eapply list_elem_of_lookup_2.
    + apply H6. by eapply list_elem_of_lookup_2.
Qed.

(** ** The session-open window *)

Definition in_window (now a : Z) : Prop := now < a + 1000.
#[export] Instance in_window_dec now a : Decision (in_window now a).
Proof. unfold in_window. apply _. Defined.

(** The ring stays compacted: entries occupy the front of the array. *)
Definition ring_ok (p : ducknng_peer_identity_state) : Prop :=
  session_open_head p = 0 /\ 0 <= session_open_count p <= session_open_cap p.

Definition window (p : ducknng_peer_identity_state) : list Z :=
  ztake (session_open_count p) (session_open_times p).

Lemma expire_loop_spec n (i valid : nat) now times :
  (valid <= i)%nat -> (i + n <= length times)%nat ->
  let kept := filter (in_window now) (take n (drop i times)) in
  let (v', t') := expire_loop n (Z.of_nat i) (Z.of_nat valid) 0 (zlen times) now times in
  v' = Z.of_nat (valid + length kept) /\ length t' = length times /\
  take (valid + length kept) t' = take valid times ++ kept.
Proof.
  revert i valid times. induction n as [|n IH]; intros i valid times Hv Hi; cbv zeta; cbn [expire_loop].
  { rewrite take_0, filter_nil, app_nil_r, Nat.add_0_r. done. }
  assert ((0 + Z.of_nat i) mod (if zlen times =? 0 then 1 else zlen times) = Z.of_nat i) as ->.
  { unfold zlen. destruct (Z.eqb_spec (Z.of_nat (length times)) 0); [lia|]. rewrite Z.add_0_l. apply Z.mod_small. lia. }
  rewrite Nat2Z.id. destruct (lookup_lt_is_Some_2 times i ltac:(lia)) as [t Ht]. rewrite Ht. cbn [default]. unfold id.
  rewrite (drop_S _ _ _ Ht), firstn_cons.
  replace (Z.of_nat i + 1) with (Z.of_nat (S i)) by lia. rewrite Nat2Z.id.
  destruct (Z.ltb_spec now (t + 1000)) as [Hw|Hw].
  - rewrite filter_cons_True by done. replace (Z.of_nat valid + 1) with (Z.of_nat (S valid)) by lia.
    specialize (IH (S i) (S valid) (<[valid := t]> times) ltac:(lia) ltac:(rewrite length_insert; lia)).
    cbv zeta in IH. rewrite drop_insert_lt in IH by lia. unfold zlen in IH |- *. rewrite length_insert in IH.
    destruct (expire_loop _ _ _ _ _ _ _) as [v' t']. destruct IH as (-> & Hl & Htake).
    rewrite length_cons. split; [lia|]. split; [done|].
    rewrite Nat.add_succ_r, <- Nat.add_succ_l, Htake.
    rewrite (take_S_r _ _ t) by (apply list_lookup_insert_eq; lia).
    rewrite take_insert_ge by lia. by rewrite <- app_assoc.
  - rewrite filter_cons_False by (unfold in_window; lia).
    apply (IH (S i) valid times ltac:(lia) ltac:(lia)).
Qed.

Lemma expire_opens_spec now p : ring_ok p ->
  ring_ok (expire_opens now p) /\ window (expire_opens now p) = filter (in_window now) (window p) /\
  session_open_count (expire_opens now p) = zlen (filter (in_window now) (window p)).
Proof.
  intros [Hh Hc]. unfold session_open_cap, zlen in Hc.
  pose proof (expire_loop_spec (Z.to_nat (session_open_count p)) 0 0 now (session_open_times p)) as H.
  cbv zeta in H. rewrite drop_0, take_0 in H. unfold expire_opens, window, ztake, session_open_cap.
  rewrite Hh. destruct (expire_loop _ _ _ _ _ _ _) as [v t]. cbn.
  destruct (H ltac:(lia) ltac:(lia)) as (-> & Hl & Ht). clear H. rewrite Nat.add_0_l in *.
  rewrite Nat2Z.id, Ht. split; [|done]. split; [done|]. unfold session_open_cap, zlen. cbn.
  pose proof (length_filter (in_window now) (take (Z.to_nat (session_open_count p)) (session_open_times p))) as Hf.
  rewrite length_take in Hf. lia.
Qed.

Lemma record_open_spec now p : ring_ok p ->
  ring_ok (record_open now p) /\ window (record_open now p) = window p ++ [now].
Proof.
  intros [Hh Hc]. unfold ring_ok, window, record_open, ztake, session_open_cap, zlen in *. cbn.
  set (times := if _ =? _ then _ else _).
  assert (exists extra, times = session_open_times p ++ extra /\
    (Z.to_nat (session_open_count p) < length times)%nat) as (extra & Et & Hlt).
  { subst times. destruct (Z.eqb_spec (session_open_count p) (Z.of_nat (length (session_open_times p)))).
    - eexists. split; [done|]. rewrite length_app, length_replicate.
      destruct (Z.eqb_spec (Z.of_nat (length (session_open_times p))) 0); lia.
    - exists []. rewrite app_nil_r. split; [done|]. lia. }
  rewrite length_insert. split; [split; [done|lia]|].
  replace (Z.to_nat (session_open_count p + 1)) with (S (Z.to_nat (session_open_count p))) by lia.
  rewrite (take_S_r _ _ now) by (by apply list_lookup_insert_eq). rewrite take_insert_ge by lia.
  rewrite Et, take_app_le by lia. done.
Qed.

Lemma ring_ok_fresh id : ring_ok (fresh_peer id).
Proof. split; [done|]. unfold session_open_cap, zlen. simpl. lia. Qed.

(** The opens recorded for an identity. *)
Definition opens (load : service_load) (id : bytes) : list Z :=
  match peer_index id (peer_identity_states load) with
  | Some i => match peer_identity_states load !! i with Some p => window p | None => [] end
  | None => []
  end.

Definition rings_ok (load : service_load) : Prop := Forall ring_ok (peer_identity_states load).

Lemma peer_index_update id i f l :
  (forall p, p_identity (f p) = p_identity p) -> peer_index id (alter f i l) = peer_index id l.
Proof.
  intros Hf. unfold peer_index. revert i. induction l as [|x l IH]; intros [|i]; try done.
  - change (alter f O (x :: l)) with (f x :: l). cbn [find_index]. by rewrite Hf.
  - change (alter f (S i) (x :: l)) with (x :: alter f i l). cbn [find_index]. by rewrite IH.
Qed.

Lemma peer_index_app_fresh id l : peer_index id l = None -> peer_index id (l ++ [fresh_peer id]) = Some (length l).
Proof.
  unfold peer_index. induction l as [|x l IH]; cbn; [by rewrite str_eq_refl|].
  destruct (str_eq _ _); [done|]. destruct (find_index _ l); [done|]. intros _. by rewrite IH.
Qed.

(** The slot that find-or-create yields holds the identity's opens. *)
Lemma find_or_create_opens load id load' i :
  rings_ok load ->
  ducknng_service_find_or_create_peer_identity_locked load (Some id) = Some (load', i) ->
  rings_ok load' /\ peer_index id (peer_identity_states load') = Some i /\
  exists p, peer_identity_states load' !! i = Some p /\ ring_ok p /\ window p = opens load id.
Proof.
  intros Hr. cbn [ducknng_service_find_or_create_peer_identity_locked].
  destruct id as [|c id]; [done|]. set (nm := c :: id). unfold opens.
  destruct (peer_index nm (peer_identity_states load)) as [j|] eqn:E; intros [= <- <-].
  - split; [done|]. split; [done|]. destruct (find_index_Some _ _ _ E) as (p & Hp & _).
    rewrite Hp. exists p. split; [done|]. split; [|done]. unfold rings_ok in Hr. rewrite Forall_lookup in Hr. eauto.
  - cbn. split; [apply Forall_app; split; [done|constructor; [apply ring_ok_fresh|constructor]]|].
    split; [by apply peer_index_app_fresh|]. exists (fresh_peer nm).
    split; [by apply list_lookup_middle|]. split; [apply ring_ok_fresh|done].
Qed.

Lemma alter_twice {A} (f g : A -> A) (i : nat) (l : list A) :
  alter f i (alter g i l) = alter (fun x => f (g x)) i l.
Proof.
  apply list_eq. intros j. destruct (decide (i = j)) as [<-|Hne].
  - rewrite !list_lookup_alter_eq. by destruct (l !! i).
  - by rewrite !list_lookup_alter_ne.
Qed.

Lemma update_twice i f g load :
  update_peer i f (update_peer i g load) = update_peer i (fun x => f (g x)) load.
Proof. unfold update_peer. cbn. f_equal. apply alter_twice. Qed.

Lemma open_step lim load load' id now r :
  rings_ok load -> id <> [] -> 0 < max_session_open_rate_per_peer_identity lim ->
  ducknng_service_check_and_record_session_open_locked lim load (Some id) now = (load', r) ->
  let fresh := filter (in_window now) (opens load id) in
  rings_ok load' /\
  (if decide (zlen fresh < max_session_open_rate_per_peer_identity lim)
   then r = None /\ opens load' id = fresh ++ [now]
   else r = Some (lit "ducknng: session open rate per peer identity exceeded") /\ opens load' id = fresh).
Proof.
  intros Hr Hid Hrate. cbv zeta. unfold ducknng_service_check_and_record_session_open_locked.
  assert (negb (nonempty (Some id)) = false) as -> by (by destruct id).
  destruct (Z.eqb_spec (max_session_open_rate_per_peer_identity lim) 0); [lia|].
  destruct (find_or_create_total load id Hid) as (l1 & i & E). rewrite E.
  destruct (find_or_create_opens load id l1 i Hr E) as (Hr1 & Hi & p & Hp & Hring & Hw).
  destruct (expire_opens_spec now p Hring) as (Hring1 & Hw1 & Hc1). rewrite Hw in Hw1, Hc1.
  change (peer_identity_states (update_peer i (expire_opens now) l1)) with
    (alter (expire_opens now) i (peer_identity_states l1)).
  rewrite list_lookup_alter_eq, Hp. cbn [fmap option_fmap option_map].
  rewrite Hc1.
  assert (forall f q, (forall x, p_identity (f x) = p_identity x) -> (forall x, x = p -> ring_ok (f x)) -> f p = q ->
    rings_ok (update_peer i f l1) /\ opens (update_peer i f l1) id = window q) as Hupd.
  { intros f q Hf Hfr Hq. split.
    - unfold rings_ok in *. cbn. rewrite Forall_lookup in Hr1 |- *. intros j x Hx.
      rewrite list_lookup_alter in Hx. case_decide; [|by eapply Hr1]. subst.
      rewrite Hp in Hx. injection Hx as <-. by apply Hfr.
    - unfold opens. cbn [update_peer peer_identity_states]. rewrite peer_index_update, Hi by done. rewrite list_lookup_alter_eq, Hp. simpl. by rewrite Hq. }
  destruct (Z.leb_spec (max_session_open_rate_per_peer_identity lim)
    (zlen (filter (in_window now) (opens load id)))); intros [= <- <-].
  - rewrite decide_False by lia.
    destruct (Hupd (expire_opens now) (expire_opens now p) (expire_identity now)) as [Hu1 Hu2]; [by intros x ->|done|].
    split; [exact Hu1|]. split; [done|]. etransitivity; [exact Hu2|done].
  - rewrite decide_True by lia.
    destruct (record_open_spec now _ Hring1) as [Hring2 Hw2].
    destruct (Hupd (fun x => record_open now (expire_opens now x)) (record_open now (expire_opens now p))) as [Hu1 Hu2];
      [intros; apply expire_identity|by intros x ->|done|].
    rewrite update_twice. split; [done|]. split; [done|]. by rewrite Hu2, Hw2, Hw1.
Qed.

(** A client opening sessions at the given times; the admitted times in order. *)
Fixpoint run_opens (lim : service_limits) (load : service_load) (id : bytes) (times : list Z)
    : service_load * list Z :=
  match times with
  | [] => (load, [])
  | now :: times =>
    let (load, r) := ducknng_service_check_and_record_session_open_locked lim load (Some id) now in
    let (load, admitted) := run_opens lim load id times in
    (load, match r with None => now :: admitted | Some _ => admitted end)
  end.

Lemma filter_window_mono now now' (l : list Z) :
  now <= now' -> filter (in_window now') (filter (in_window now) l) = filter (in_window now') l.
Proof.
  intros Hle. rewrite list_filter_filter. apply list_filter_iff. unfold in_window. intros. lia.
Qed.

Definition in_second (t a : Z) : Prop := t - 1000 < a <= t.
#[export] Instance in_second_dec t a : Decision (in_second t a).
Proof. unfold in_second. apply _. Defined.

Lemma run_opens_rate lim id times : forall load past last,
  rings_ok load -> id <> [] -> 0 < max_session_open_rate_per_peer_identity lim ->
  Sorted Z.le (last :: times) -> Forall (fun a => a <= last) past ->
  (forall now, last <= now -> filter (in_window now) (opens load id) = filter (in_window now) past) ->
  (forall t, zlen (filter (in_second t) past) <= max_session_open_rate_per_peer_identity lim) ->
  forall t, zlen (filter (in_second t) (past ++ (run_opens lim load id times).2))
    <= max_session_open_rate_per_peer_identity lim.
Proof.
  induction times as [|now times IH]; intros load past last0 Hr Hid Hrate Hs Hpast Hw Hb t; cbn [run_opens].
  { cbn. rewrite app_nil_r. apply Hb. }
  apply Sorted_inv in Hs as [Hs Hle]. apply HdRel_inv in Hle.
  destruct (ducknng_service_check_and_record_session_open_locked lim load (Some id) now) as [load1 r] eqn:E.
  destruct (open_step _ _ _ _ _ _ Hr Hid Hrate E) as [Hr1 Hstep]. rewrite (Hw now Hle) in Hstep.
  assert (Forall (fun a => a <= now) past) as Hpast' by (eapply Forall_impl; [exact Hpast|]; cbn; lia).
  case_decide as Hd; destruct Hstep as [-> Hop].
  - specialize (IH load1 (past ++ [now]) now Hr1 Hid Hrate Hs).
    destruct (run_opens lim load1 id times) as [l2 adm]. cbn [snd] in *.
    change (now :: adm) with ([now] ++ adm). rewrite app_assoc. apply IH; clear IH.
    + apply Forall_app. split; [done|]. by constructor.
    + intros n Hn. rewrite Hop, !filter_app, filter_window_mono by lia. done.
    + intros t'. rewrite filter_app, zlen_app. destruct (decide (in_second t' now)) as [Hin|Hout].
      * rewrite filter_cons_True by done. rewrite filter_nil, zlen_cons, zlen_nil.
        assert (zlen (filter (in_second t') past) <= zlen (filter (in_window now) past)); [|lia].
        unfold zlen. apply inj_le. clear -Hin. induction past as [|a past IH]; [done|].
        rewrite !filter_cons. unfold in_second, in_window in *.
        destruct (decide (t' - 1000 < a <= t')); destruct (decide (now < a + 1000)); simpl; lia.
      * rewrite filter_cons_False by done. rewrite filter_nil, zlen_nil. specialize (Hb t'). lia.
  - specialize (IH load1 past now Hr1 Hid Hrate Hs).
    destruct (run_opens lim load1 id times) as [l2 adm]. cbn [snd] in *. apply IH; clear IH; [done| |done].
    intros n Hn. by rewrite Hop, filter_window_mono.
Qed.

(** ** Claims *)

Lemma empty_load_inv lim : inflight_inv lim (mk_inflight empty_load []).
Proof. split; cbn; try done; try lia; try constructor; intros; try lia; by apply not_elem_of_nil in H. Qed.

(** In-flight accounting.  Starting from a service with no requests, after
    any interleaving of requests beginning, being refused and ending, and of
    session opens: the request counter and its published copy equal the number
    of outstanding requests and never exceed the configured maximum, and each
    peer identity's counter equals that identity's outstanding requests and
    never exceeds the per-identity maximum. *)
Theorem inflight_accounting lim s :
  rtc (inflight_step lim) (mk_inflight empty_load []) s -> inflight_inv lim s.
Proof.
  intros Hsteps. pose proof (empty_load_inv lim) as H0. revert H0. induction Hsteps as [|x y z Hxy _ IH]; [done|]. intros Hx. apply IH. clear IH.
  destruct Hxy; eauto using inv_begin, inv_refused, inv_end, inv_session_open.
Qed.

Lemma inflight_accounting_witness :
  inflight_inv (mk_limits 0 0 2 0 1 0 0)
    (mk_inflight (ducknng_service_begin_request (mk_limits 0 0 2 0 1 0 0) false empty_load (Some (lit "p"))).1
       [Some (lit "p")]).
Proof.
  apply (inflight_accounting (mk_limits 0 0 2 0 1 0 0)).
  apply rtc_once. apply (step_begin _ _ _ _ false). reflexivity.
Defined.

(** The session-open rate limit holds in every second.  For any sequence of
    opens of one identity at non-decreasing times, starting from a service
    that knows no opens, at most [max_session_open_rate_per_peer_identity] of
    the admitted ones fall in any period of 1000 ms. *)
Theorem session_open_rate lim id times t :
  id <> [] -> 0 < max_session_open_rate_per_peer_identity lim -> Sorted Z.le times ->
  zlen (filter (in_second t) (run_opens lim empty_load id times).2)
    <= max_session_open_rate_per_peer_identity lim.
Proof.
  intros Hid Hrate Hs. destruct times as [|now times]; [cbn [run_opens snd]; rewrite filter_nil, zlen_nil; lia|].
  apply (run_opens_rate lim id (now :: times) empty_load [] now); try done.
  - apply Forall_nil_2.
  - constructor; [done|]. constructor. lia.
  - intros. rewrite filter_nil, zlen_nil. lia.
Qed.

Lemma session_open_rate_witness :
  (run_opens (mk_limits 0 0 0 0 0 0 2) empty_load (lit "p") [10; 20; 30; 1015]).2 = [10; 20; 1015] /\
  zlen (filter (in_second 500)
    (run_opens (mk_limits 0 0 0 0 0 0 2) empty_load (lit "p") [10; 20; 30; 1015]).2) <= 2.
Proof.
  split; [vm_compute; reflexivity|].
  apply (session_open_rate (mk_limits 0 0 0 0 0 0 2)); [discriminate|reflexivity|].
  repeat constructor; discriminate.
Defined.
