(* ===== verification/Session.v ===== *)
(** Sessions: [src/src/ducknng_session.c].

    Sessions are heap objects shared by pointer, so the model keeps a heap of
    live session objects, addressed by their session id, and the service's
    table as a list of addresses.  A function that holds [svc->mu] or
    [session->mu] throughout is one atomic step; [ducknng_session_destroy]
    waits for the reference count, so it is a step that is enabled when the
    count is zero.  The words of [nng_random] and the clock are arguments.
    Allocation and mutex-initialisation failures are not modelled. *)

From stdpp Require Import gmap relations.
From S2P Require Import Prelude Util Peers.

(** ** Data *)

Definition DUCKNNG_DEFAULT_FETCH_BATCH_CHUNKS : Z := 12.
Definition DUCKNNG_MAX_FETCH_BATCH_CHUNKS : Z := 256.
Definition DUCKNNG_SESSION_AUTH_OK : Z := 0.
Definition DUCKNNG_SESSION_AUTH_TOKEN_MISMATCH : Z := 1.
Definition DUCKNNG_SESSION_AUTH_IDENTITY_MISMATCH : Z := 2.

(** How far a session has got: the fields its handlers alone touch. *)
Record session_progress := mk_progress {
  batch_no : Z; pending_ready : bool; row_schema_sent : bool; upload_rows : Z }.

Definition no_progress : session_progress := mk_progress 0 false false 0.

(** [session_svc] tells whether the back pointer is set; [session_con] is the
    connection pointer; [SIZE_MAX] as pool index means none. *)
Record ducknng_session := mk_session {
  session_id : Z;
  owner_token : option bytes;
  owner_identity : option bytes;
  result_handle : option bytes;
  row_payload_format : Z;
  fetch_batch_chunks : Z;
  result_open : bool;
  eos : bool;
  cancelled : bool;
  last_touch_ms : Z;
  refcount : Z;
  closing : bool;
  session_svc : bool;
  session_con : option Z;
  session_pool_index : Z;
  stmt_open : bool;
  pending_open : bool;
  is_upload : bool;
  upload_appender_open : bool;
  upload_txn_open : bool;
  upload_target : option bytes;
  upload_col_names : option (list bytes);
  progress : session_progress }.

Definition set_closing (s : ducknng_session) : ducknng_session :=
  mk_session (session_id s) (owner_token s) (owner_identity s) (result_handle s) (row_payload_format s)
    (fetch_batch_chunks s) (result_open s) (eos s) (cancelled s) (last_touch_ms s) (refcount s) true
    (session_svc s) (session_con s) (session_pool_index s) (stmt_open s) (pending_open s) (is_upload s)
    (upload_appender_open s) (upload_txn_open s) (upload_target s) (upload_col_names s)
    (progress s).

Definition set_refcount (n : Z) (s : ducknng_session) : ducknng_session :=
  mk_session (session_id s) (owner_token s) (owner_identity s) (result_handle s) (row_payload_format s)
    (fetch_batch_chunks s) (result_open s) (eos s) (cancelled s) (last_touch_ms s) n (closing s)
    (session_svc s) (session_con s) (session_pool_index s) (stmt_open s) (pending_open s) (is_upload s)
    (upload_appender_open s) (upload_txn_open s) (upload_target s) (upload_col_names s)
    (progress s).

(** The session part of a service and the live session objects. *)
Record session_table := mk_table {
  st_heap : gmap Z ducknng_session;
  sessions : list Z;
  session_cap : Z;
  session_count_visible : Z;
  next_session_id : Z }.

Definition session_count (t : session_table) : Z := zlen (sessions t).

Definition with_heap (h : gmap Z ducknng_session) (t : session_table) : session_table :=
  mk_table h (sessions t) (session_cap t) (session_count_visible t) (next_session_id t).

(** ** Tokens *)

Definition nibbles (value : Z) : bytes :=
  (fun shift => hex_digit (Z.land (Z.shiftr value shift) 0x0f)) <$> [28; 24; 20; 16; 12; 8; 4; 0].

(** Four random words. *)
Definition ducknng_session_generate_hex_token (words : Z * Z * Z * Z) : bytes :=
  let '(a, b, c, d) := words in nibbles a ++ nibbles b ++ nibbles c ++ nibbles d.

Definition ducknng_session_generate_owner_token (words : Z * Z * Z * Z) : bytes :=
  ducknng_session_generate_hex_token words.
Definition ducknng_session_generate_result_handle (words : Z * Z * Z * Z) : bytes :=
  ducknng_session_generate_hex_token words.

(** The constant-time comparison loop. *)
Fixpoint token_diff (n : nat) (i : Z) (a b : bytes) (diff : Z) : Z :=
  match n with
  | O => diff
  | S n =>
    let ca := if i <? zlen a then byte_at a i else 0 in
    let cb := if i <? zlen b then byte_at b i else 0 in
    token_diff n (i + 1) a b (Z.lor diff (u8 (Z.lxor ca cb)))
  end.

Definition ducknng_session_token_equal (a b : option bytes) : bool :=
  match a, b with
  | Some a, Some b =>
    let la := zlen a in
    let lb := zlen b in
    let max_len := if lb <? la then la else lb in
    token_diff (Z.to_nat max_len) 0 a b (u8 (Z.lxor la lb)) =? 0
  | _, _ => false
  end.

Definition ducknng_session_owner_auth (s : ducknng_session) (token caller_identity : option bytes) : Z :=
  if (bool_decide (owner_token s = None) || negb (nonempty token) ||
      negb (ducknng_session_token_equal (owner_token s) token))%bool
  then DUCKNNG_SESSION_AUTH_TOKEN_MISMATCH else
  if (nonempty (owner_identity s) &&
      negb (bool_decide (owner_identity s = caller_identity)))%bool
  then DUCKNNG_SESSION_AUTH_IDENTITY_MISMATCH
  else DUCKNNG_SESSION_AUTH_OK.

(** ** One session *)

Definition ducknng_session_mark_closing (s : ducknng_session) : ducknng_session := set_closing s.

Definition ducknng_session_try_acquire (s : ducknng_session) : option ducknng_session :=
  if negb (closing s) then Some (set_refcount (refcount s + 1) s) else None.

Definition ducknng_session_release (s : ducknng_session) : ducknng_session :=
  if 0 <? refcount s then set_refcount (refcount s - 1) s else s.

Definition ducknng_session_create (has_result : bool) (id : Z) (token identity : option bytes) (now_ms : Z)
    : result bytes ducknng_session :=
  if negb (nonempty token) then Err (lit "ducknng: missing session owner token") else
  Ok (mk_session id token (if nonempty identity then identity else None) None 0
        DUCKNNG_DEFAULT_FETCH_BATCH_CHUNKS has_result false false now_ms 0 false
        false None 0 false false false false false None None no_progress).

Definition ducknng_session_create_streaming (con : option Z) (pool_index : Z) (stmt pending : bool)
    (id : Z) (token identity : option bytes) (now_ms : Z) : result bytes ducknng_session :=
  if negb (nonempty token) then Err (lit "ducknng: missing session owner token") else
  Ok (mk_session id token (if nonempty identity then identity else None) None 0
        DUCKNNG_DEFAULT_FETCH_BATCH_CHUNKS false false false now_ms 0 false
        true con pool_index stmt pending false false false None None no_progress).

(** What destroying a session does to the outside, in order. *)
Inductive teardown :=
| DestroyResult | DestroyPending | DestroyPrepare | DestroyAppender
| Rollback (con : Z) | ReleaseConnection (pool_index : Z).

(** The body of [ducknng_session_destroy] once the references are gone. *)
Definition ducknng_session_destroy (s : ducknng_session) : list teardown :=
  (if result_open s then [DestroyResult] else []) ++
  (if pending_open s then [DestroyPending] else []) ++
  (if stmt_open s then [DestroyPrepare] else []) ++
  (if upload_appender_open s then [DestroyAppender] else []) ++
  (match session_con s with
   | Some con => if upload_txn_open s then [Rollback con] else []
   | None => []
   end) ++
  (if (session_svc s && negb (session_pool_index s =? SIZE_MAX))%bool
   then [ReleaseConnection (session_pool_index s)] else []).

(** ** The table *)

Definition ducknng_service_publish_session_count (t : session_table) : session_table :=
  mk_table (st_heap t) (sessions t) (session_cap t) (session_count t) (next_session_id t).

(** The table without entry [idx], the session marked closing. *)
Definition ducknng_service_detach_session_locked (t : session_table) (idx : nat)
    : session_table * option Z :=
  match sessions t !! idx with
  | None => (t, None)
  | Some p =>
    let t := mk_table (st_heap t) (take idx (sessions t) ++ drop (S idx) (sessions t))
      (session_cap t) (session_count_visible t) (next_session_id t) in
    let t := ducknng_service_publish_session_count t in
    (with_heap (alter ducknng_session_mark_closing p (st_heap t)) t, Some p)
  end.

(** [svc->sessions[i]->session_id == id] on a live object. *)
Definition points_to (t : session_table) (id : Z) (p : Z) : bool :=
  match st_heap t !! p with Some s => session_id s =? id | None => false end.

(** The table, the session acquired and [*out_unauthorized]. *)
Definition ducknng_service_acquire_session (t : session_table) (id : Z)
    (token caller_identity : option bytes) : session_table * option Z * Z :=
  if id =? 0 then (t, None, DUCKNNG_SESSION_AUTH_OK) else
  match find_index (points_to t id) (sessions t) with
  | None => (t, None, DUCKNNG_SESSION_AUTH_OK)
  | Some i =>
    match sessions t !! i with
    | None => (t, None, DUCKNNG_SESSION_AUTH_OK)
    | Some p =>
      match st_heap t !! p with
      | None => (t, None, DUCKNNG_SESSION_AUTH_OK)
      | Some s =>
        let auth := ducknng_session_owner_auth s token caller_identity in
        if negb (auth =? DUCKNNG_SESSION_AUTH_OK) then (t, None, auth) else
        match ducknng_session_try_acquire s with
        | Some s' => (with_heap (<[p := s']> (st_heap t)) t, Some p, DUCKNNG_SESSION_AUTH_OK)
        | None => (t, None, DUCKNNG_SESSION_AUTH_OK)
        end
      end
    end
  end.

Definition ducknng_service_remove_session (t : session_table) (id : Z)
    (token caller_identity : option bytes) : session_table * option Z * Z :=
  if id =? 0 then (t, None, DUCKNNG_SESSION_AUTH_OK) else
  match find_index (points_to t id) (sessions t) with
  | None => (t, None, DUCKNNG_SESSION_AUTH_OK)
  | Some i =>
    match sessions t !! i ≫= (fun p => st_heap t !! p) with
    | None => (t, None, DUCKNNG_SESSION_AUTH_OK)
    | Some s =>
      let auth := ducknng_session_owner_auth s token caller_identity in
      if negb (auth =? DUCKNNG_SESSION_AUTH_OK) then (t, None, auth) else
      let (t, p) := ducknng_service_detach_session_locked t i in
      (t, p, DUCKNNG_SESSION_AUTH_OK)
    end
  end.

Definition ducknng_service_detach_all_sessions (t : session_table) : session_table * list Z :=
  let all := sessions t in
  (mk_table (foldr (alter ducknng_session_mark_closing) (st_heap t) all) [] 0 0 (next_session_id t), all).

Definition should_prune (idle_ms now_ms : Z) (s : ducknng_session) : bool :=
  (negb (closing s) && (refcount s =? 0) && negb (cancelled s) && negb (eos s) &&
   (last_touch_ms s <=? now_ms) && (idle_ms <? now_ms - last_touch_ms s))%bool.

(** The pruning loop; a pruned session is destroyed and its object freed.
    Fuel is the number of entries. *)
Fixpoint prune_loop (fuel : nat) (idle_ms now_ms : Z) (i : nat) (t : session_table)
    (removed : list (Z * list teardown)) : session_table * list (Z * list teardown) :=
  match fuel with
  | O => (t, removed)
  | S fuel =>
    match sessions t !! i with
    | None => (t, removed)
    | Some p =>
      match st_heap t !! p with
      | Some s =>
        if should_prune idle_ms now_ms s then
          let (t, _) := ducknng_service_detach_session_locked t i in
          prune_loop fuel idle_ms now_ms i (with_heap (delete p (st_heap t)) t)
            (removed ++ [(p, ducknng_session_destroy s)])
        else prune_loop fuel idle_ms now_ms (S i) t removed
      | None => prune_loop fuel idle_ms now_ms (S i) t removed
      end
    end
  end.

Definition ducknng_service_prune_idle_sessions (idle_ms now_ms : Z) (t : session_table)
    : session_table * list (Z * list teardown) :=
  if idle_ms =? 0 then (t, []) else prune_loop (length (sessions t)) idle_ms now_ms 0 t [].

(** ** Opening sessions *)

(** The sessions of one identity. *)
Definition owned_by (t : session_table) (identity : bytes) (p : Z) : bool :=
  match st_heap t !! p with
  | Some s => bool_decide (owner_identity s = Some identity)
  | None => false
  end.

(** The checks both registrars make before they build the session. *)
Definition session_admission (lim : service_limits) (shutting_down : bool) (t : session_table)
    (load : service_load) (identity : option bytes) (now_ms : Z) : service_load * option bytes :=
  if shutting_down then (load, Some (lit "ducknng: service is stopping")) else
  if ((0 <? max_open_sessions lim) && (max_open_sessions lim <=? session_count t))%bool
  then (load, Some (lit "ducknng: max open sessions exceeded")) else
  if ((0 <? max_sessions_per_peer_identity lim) && nonempty identity &&
      (max_sessions_per_peer_identity lim <=?
       zlen (filter (fun p => owned_by t (default [] identity) p = true) (sessions t))))%bool
  then (load, Some (lit "ducknng: max sessions per peer identity exceeded"))
  else ducknng_service_check_and_record_session_open_locked lim load identity now_ms.

Definition grown_cap (t : session_table) : Z :=
  if session_count t =? session_cap t
  then (if negb (session_cap t =? 0) then session_cap t * 2 else 4) else session_cap t.

(** [svc->sessions[svc->session_count++] = session] and the publication. *)
Definition insert_session (s : ducknng_session) (t : session_table) : session_table :=
  ducknng_service_publish_session_count
    (mk_table (<[session_id s := s]> (st_heap t)) (sessions t ++ [session_id s]) (grown_cap t)
       (session_count_visible t) (u64 (next_session_id t + 1))).

Definition set_handle_format (handle : bytes) (format chunks : Z) (s : ducknng_session) : ducknng_session :=
  mk_session (session_id s) (owner_token s) (owner_identity s) (Some handle) format
    chunks (result_open s) (eos s) (cancelled s) (last_touch_ms s) (refcount s) (closing s)
    (session_svc s) (session_con s) (session_pool_index s) (stmt_open s) (pending_open s) (is_upload s)
    (upload_appender_open s) (upload_txn_open s) (upload_target s) (upload_col_names s)
    (progress s).

(** What a successful open hands out: the id, the owner token and the handle. *)
Definition opened : Type := Z * bytes * bytes.

(** An [Err] carries the return code, 1 for a refusal and -1 for a failure. *)
Definition ducknng_service_add_session (lim : service_limits) (shutting_down : bool)
    (t : session_table) (load : service_load) (has_result : bool) (identity : option bytes)
    (format : Z) (token_words handle_words : Z * Z * Z * Z) (now_ms : Z)
    : session_table * service_load * result (Z * bytes) opened :=
  match session_admission lim shutting_down t load identity now_ms with
  | (load, Some e) => (t, load, Err (1, e))
  | (load, None) =>
    let id := next_session_id t in
    let token := ducknng_session_generate_owner_token token_words in
    let handle := ducknng_session_generate_result_handle handle_words in
    match ducknng_session_create has_result id (Some token) identity now_ms with
    | Err e => (t, load, Err (-1, e))
    | Ok s =>
      (insert_session (set_handle_format handle format (fetch_batch_chunks s) s) t, load,
       Ok (id, token, handle))
    end
  end.

Definition install_upload (target : option bytes) (col_names : option (list bytes))
    (s : ducknng_session) : ducknng_session :=
  mk_session (session_id s) (owner_token s) (owner_identity s) (result_handle s) (row_payload_format s)
    (fetch_batch_chunks s) (result_open s) (eos s) (cancelled s) (last_touch_ms s) (refcount s) (closing s)
    (session_svc s) (session_con s) (session_pool_index s) (stmt_open s) (pending_open s) true
    true true (if nonempty target then target else None) col_names (progress s).

Definition ducknng_service_add_session_full (lim : service_limits) (shutting_down : bool)
    (t : session_table) (load : service_load) (con : option Z) (pool_index : Z) (stmt pending : bool)
    (upload : option (option bytes * option (list bytes))) (identity : option bytes) (format chunks : Z)
    (token_words handle_words : Z * Z * Z * Z) (now_ms : Z)
    : session_table * service_load * result (Z * bytes) opened :=
  match session_admission lim shutting_down t load identity now_ms with
  | (load, Some e) => (t, load, Err (1, e))
  | (load, None) =>
    let id := next_session_id t in
    let token := ducknng_session_generate_owner_token token_words in
    let handle := ducknng_session_generate_result_handle handle_words in
    match ducknng_session_create_streaming con pool_index stmt pending id (Some token) identity now_ms with
    | Err e => (t, load, Err (-1, e))
    | Ok s =>
      let chunks := if chunks =? 0 then DUCKNNG_DEFAULT_FETCH_BATCH_CHUNKS else chunks in
      let chunks := if DUCKNNG_MAX_FETCH_BATCH_CHUNKS <? chunks
        then DUCKNNG_MAX_FETCH_BATCH_CHUNKS else chunks in
      let s := set_handle_format handle format chunks s in
      let s := match upload with
        | Some (target, cols) => install_upload target cols s
        | None => s end in
      (insert_session s t, load, Ok (id, token, handle))
    end
  end.

Definition ducknng_service_add_session_streaming (lim : service_limits) (shutting_down : bool)
    (t : session_table) (load : service_load) (con : option Z) (pool_index : Z) (stmt pending : bool)
    (identity : option bytes) (format chunks : Z) (token_words handle_words : Z * Z * Z * Z) (now_ms : Z)
    : session_table * service_load * result (Z * bytes) opened :=
  ducknng_service_add_session_full lim shutting_down t load con pool_index stmt pending None
    identity format chunks token_words handle_words now_ms.

Definition ducknng_service_add_upload_session (lim : service_limits) (shutting_down : bool)
    (t : session_table) (load : service_load) (con : option Z) (pool_index : Z) (appender : bool)
    (target : option bytes) (col_names : option (list bytes)) (identity : option bytes)
    (token_words handle_words : Z * Z * Z * Z) (now_ms : Z)
    : session_table * service_load * result (Z * bytes) opened :=
  if negb appender then (t, load, Err (-1, lit "ducknng: missing upload session appender")) else
  ducknng_service_add_session_full lim shutting_down t load con pool_index false false
    (Some (target, col_names)) identity 0 0 token_words handle_words now_ms.

(** ** Tokens *)

Lemma lor_eq_0 a b : Z.lor a b = 0 <-> a = 0 /\ b = 0.
Proof. apply Z.lor_eq_0_iff. Qed.

Lemma token_diff_zero n i a b diff :
  all_bytes a -> all_bytes b ->
  token_diff n i a b diff = 0 <->
  diff = 0 /\ forall j, i <= j < i + Z.of_nat n ->
    (if j <? zlen a then byte_at a j else 0) = (if j <? zlen b then byte_at b j else 0).
Proof.
  intros Ha Hb. revert i diff. induction n as [|n IH]; intros i diff; cbn [token_diff].
  { split; [intros ->; split; [done|lia]|by intros [? _]]. }
  rewrite IH, lor_eq_0. set (ca := if i <? zlen a then _ else _). set (cb := if i <? zlen b then _ else _).
  assert (u8 (Z.lxor ca cb) = 0 <-> ca = cb) as ->.
  { assert (is_byte ca /\ is_byte cb) as [Hca Hcb].
    { subst ca cb. split; cases_goal; auto using byte_at_byte; unfold is_byte; lia. }
    unfold is_byte in *. assert (0 <= Z.lxor ca cb < 2 ^ 8) as Hx.
    { assert (0 <= Z.lxor ca cb) by (apply Z.lxor_nonneg; lia). split; [done|].
      destruct (Z.eq_dec (Z.lxor ca cb) 0) as [->|]; [lia|]. apply Z.log2_lt_pow2; [lia|].
      pose proof (Z.log2_lxor ca cb ltac:(lia) ltac:(lia)).
      assert (Z.log2 ca <= 7) by (apply (Z.log2_le_mono ca 255); lia).
      assert (Z.log2 cb <= 7) by (apply (Z.log2_le_mono cb 255); lia). lia. }
    rewrite u8_small by (unfold is_byte; lia). apply Z.lxor_eq_0_iff. }
  split.
  - intros [[-> E] H]. split; [done|]. intros j Hj. destruct (Z.eq_dec j i) as [->|]; [done|]. apply H. lia.
  - intros [-> H]. split; [split; [done|]|]; [apply H; lia|]. intros j Hj. apply H. lia.
Qed.

Lemma byte_at_cstr a i : cstr a -> 0 <= i < zlen a -> 1 <= byte_at a i.
Proof.
  intros Ha Hi. unfold byte_at, zlen in *. destruct (lookup_lt_is_Some_2 a (Z.to_nat i) ltac:(lia)) as [x Hx].
  rewrite Hx. simpl. rewrite Forall_lookup in Ha. by destruct (Ha _ _ Hx).
Qed.

Lemma cstr_bytes a : cstr a -> all_bytes a.
Proof. intros H. eapply Forall_impl; [exact H|]. unfold is_char, is_byte. intros. lia. Qed.

Lemma token_equal_spec a b : cstr a -> cstr b ->
  ducknng_session_token_equal (Some a) (Some b) = true <-> a = b.
Proof.
  intros Ha Hb. cbn [ducknng_session_token_equal]. rewrite Z.eqb_eq.
  rewrite token_diff_zero by (by apply cstr_bytes).
  pose proof (zlen_nonneg a). pose proof (zlen_nonneg b). split.
  - intros [_ H']. assert (forall j, 0 <= j < Z.max (zlen a) (zlen b) ->
      (if j <? zlen a then byte_at a j else 0) = (if j <? zlen b then byte_at b j else 0)) as He.
    { intros j Hj. apply H'. destruct (Z.ltb_spec (zlen b) (zlen a)); lia. }
    assert (zlen a = zlen b) as Hl.
    { destruct (Z.lt_trichotomy (zlen a) (zlen b)) as [Hlt|[Heq|Hlt]]; [|done|].
      - specialize (He (zlen a) ltac:(lia)). rewrite Z.ltb_irrefl in He.
        destruct (Z.ltb_spec (zlen a) (zlen b)); [|lia]. pose proof (byte_at_cstr b (zlen a) Hb). lia.
      - specialize (He (zlen b) ltac:(lia)). rewrite Z.ltb_irrefl in He.
        destruct (Z.ltb_spec (zlen b) (zlen a)); [|lia]. pose proof (byte_at_cstr a (zlen b) Ha). lia. }
    apply (list_eq_same_length a b (length a)); [unfold zlen in Hl; lia|done|].
    intros i x y Hi Hx Hy. specialize (He (Z.of_nat i) ltac:(unfold zlen in *; lia)).
    rewrite Hl in He. destruct (Z.ltb_spec (Z.of_nat i) (zlen b)); [|unfold zlen in *; lia].
    unfold byte_at in He. rewrite Nat2Z.id, Hx, Hy in He. done.
  - intros ->. by rewrite Z.lxor_nilpotent.
Qed.

Lemma hex_digit_inj x y : 0 <= x < 16 -> 0 <= y < 16 -> hex_digit x = hex_digit y -> x = y.
Proof. unfold hex_digit. intros Hx Hy. destruct (Z.ltb_spec x 10), (Z.ltb_spec y 10); lia. Qed.

Lemma land_15 z : Z.land z 0x0f = z mod 16.
Proof. change 0x0f with (Z.ones 4). by rewrite Z.land_ones by lia. Qed.

Lemma nibble_step a b k : 0 <= k ->
  a / 2 ^ (k + 4) = b / 2 ^ (k + 4) -> (a / 2 ^ k) mod 16 = (b / 2 ^ k) mod 16 -> a / 2 ^ k = b / 2 ^ k.
Proof.
  intros Hk. rewrite Z.pow_add_r by lia. change (2 ^ 4) with 16.
  assert (0 < 2 ^ k) by (apply Z.pow_pos_nonneg; lia). rewrite <- !Z.div_div by lia.
  intros E1 E2. rewrite (Z.div_mod (a / 2 ^ k) 16), (Z.div_mod (b / 2 ^ k) 16) by lia. by rewrite E1, E2.
Qed.

Lemma nibbles_inj a b : 0 <= a <= UINT32_MAX -> 0 <= b <= UINT32_MAX -> nibbles a = nibbles b -> a = b.
Proof.
  unfold UINT32_MAX, nibbles. intros Ha Hb. cbn [fmap list_fmap].
  rewrite !land_15, !Z.shiftr_div_pow2 by lia. intros E.
  injection E as E1 E2 E3 E4 E5 E6 E7 E8.
  apply hex_digit_inj in E1, E2, E3, E4, E5, E6, E7, E8; try (apply Z.mod_pos_bound; lia).
  assert (a / 2 ^ 32 = b / 2 ^ 32) as E0 by (rewrite !Z.div_small by lia; done).
  apply (nibble_step a b 28) in E0; [|lia|done]. apply (nibble_step a b 24) in E0; [|lia|done].
  apply (nibble_step a b 20) in E0; [|lia|done]. apply (nibble_step a b 16) in E0; [|lia|done].
  apply (nibble_step a b 12) in E0; [|lia|done]. apply (nibble_step a b 8) in E0; [|lia|done].
  apply (nibble_step a b 4) in E0; [|lia|done]. apply (nibble_step a b 0) in E0; [|lia|done].
  by rewrite !Z.div_1_r in E0.
Qed.

Definition word_ok (w : Z) : Prop := 0 <= w <= UINT32_MAX.
Definition words_ok (w : Z * Z * Z * Z) : Prop :=
  let '(a, b, c, d) := w in word_ok a /\ word_ok b /\ word_ok c /\ word_ok d.
Definition lower_hex (c : Z) : Prop := 48 <= c <= 57 \/ 97 <= c <= 102.

Lemma hex_digit_lower x : 0 <= x < 16 -> lower_hex (hex_digit x).
Proof. unfold hex_digit, lower_hex. intros. destruct (Z.ltb_spec x 10); lia. Qed.

Lemma nibbles_lower w : Forall lower_hex (nibbles w) /\ length (nibbles w) = 8%nat.
Proof.
  unfold nibbles. cbn [fmap list_fmap]. split; [|done].
  repeat (apply Forall_cons_2; [apply hex_digit_lower; rewrite land_15; apply Z.mod_pos_bound; lia|]).
  apply Forall_nil_2.
Qed.

Lemma hex_token_shape w : let t := ducknng_session_generate_hex_token w in
  Forall lower_hex t /\ zlen t = 32 /\ t <> [].
Proof.
  destruct w as [[[a b] c] d]. cbn [ducknng_session_generate_hex_token]. cbv zeta.
  destruct (nibbles_lower a), (nibbles_lower b), (nibbles_lower c), (nibbles_lower d).
  split; [by rewrite !Forall_app|]. split; [|by destruct (nibbles a)].
  unfold zlen. rewrite !length_app. lia.
Qed.

Lemma lower_hex_cstr t : Forall lower_hex t -> cstr t.
Proof. intros H. eapply Forall_impl; [exact H|]. unfold lower_hex, is_char. intros. lia. Qed.

Lemma hex_token_inj w w' : words_ok w -> words_ok w' ->
  ducknng_session_generate_hex_token w = ducknng_session_generate_hex_token w' -> w = w'.
Proof.
  destruct w as [[[a b] c] d], w' as [[[a' b'] c'] d']. intros (? & ? & ? & ?) (? & ? & ? & ?) E.
  cbn [ducknng_session_generate_hex_token] in E.
  apply app_inj_1 in E as [Ea E]; [|by rewrite !(proj2 (nibbles_lower _))].
  apply app_inj_1 in E as [Eb E]; [|by rewrite !(proj2 (nibbles_lower _))].
  apply app_inj_1 in E as [Ec Ed]; [|by rewrite !(proj2 (nibbles_lower _))].
  apply nibbles_inj in Ea, Eb, Ec, Ed; try done. by subst.
Qed.

(** ** Lifecycle

    Workers hold references they acquired; a session removed from the table is
    [detached] until the worker that removed it has destroyed it. *)

Record world := mk_world {
  w_table : session_table; w_load : service_load; held : list Z; detached : list Z }.

Definition refs (held : list Z) (p : Z) : Z := zlen (filter (fun q => q = p) held).

Record sessions_inv (lim : service_limits) (t : session_table) (held detached : list Z) : Prop := {
  si_nodup : NoDup (sessions t ++ detached);
  si_live p : p ∈ sessions t ++ detached <-> is_Some (st_heap t !! p);
  si_object p s : st_heap t !! p = Some s ->
    session_id s = p /\ 0 < p < next_session_id t /\ refcount s = refs held p /\
    (closing s = true <-> p ∈ detached);
  si_held p : p ∈ held -> is_Some (st_heap t !! p);
  si_visible : session_count_visible t = session_count t;
  si_next : 0 < next_session_id t;
  si_quota : 0 < max_open_sessions lim -> session_count t <= max_open_sessions lim }.

Inductive world_step (lim : service_limits) (idle_ms : Z) : world -> world -> Prop :=
| ws_add t load h d t' load' sd res ident fmt w1 w2 now r :
    next_session_id t < UINT64_MAX ->
    ducknng_service_add_session lim sd t load res ident fmt w1 w2 now = (t', load', r) ->
    world_step lim idle_ms (mk_world t load h d) (mk_world t' load' h d)
| ws_add_streaming t load h d t' load' sd con idx stmt pend ident fmt ch w1 w2 now r :
    next_session_id t < UINT64_MAX ->
    ducknng_service_add_session_streaming lim sd t load con idx stmt pend ident fmt ch w1 w2 now
      = (t', load', r) ->
    world_step lim idle_ms (mk_world t load h d) (mk_world t' load' h d)
| ws_add_upload t load h d t' load' sd con idx app target cols ident w1 w2 now r :
    next_session_id t < UINT64_MAX ->
    ducknng_service_add_upload_session lim sd t load con idx app target cols ident w1 w2 now
      = (t', load', r) ->
    world_step lim idle_ms (mk_world t load h d) (mk_world t' load' h d)
| ws_acquire t load h d t' id token ident p auth :
    ducknng_service_acquire_session t id token ident = (t', p, auth) ->
    world_step lim idle_ms (mk_world t load h d) (mk_world t' load (option_list p ++ h) d)
| ws_release t load h h' d p :
    Permutation h (p :: h') ->
    world_step lim idle_ms (mk_world t load h d)
      (mk_world (with_heap (alter ducknng_session_release p (st_heap t)) t) load h' d)
| ws_remove t load h d t' id token ident p auth :
    ducknng_service_remove_session t id token ident = (t', p, auth) ->
    world_step lim idle_ms (mk_world t load h d) (mk_world t' load h (d ++ option_list p))
| ws_detach_all t load h d t' all :
    ducknng_service_detach_all_sessions t = (t', all) ->
    world_step lim idle_ms (mk_world t load h d) (mk_world t' load h (d ++ all))
| ws_destroy t load h d d' p s :
    Permutation d (p :: d') -> st_heap t !! p = Some s -> refcount s = 0 ->
    world_step lim idle_ms (mk_world t load h d)
      (mk_world (with_heap (delete p (st_heap t)) t) load h d')
| ws_work t load h d p s s' :
    p ∈ h ++ d -> st_heap t !! p = Some s ->
    session_id s' = session_id s /\ refcount s' = refcount s /\ closing s' = closing s ->
    world_step lim idle_ms (mk_world t load h d)
      (mk_world (with_heap (<[p := s']> (st_heap t)) t) load h d)
| ws_prune t load h d t' now removed :
    ducknng_service_prune_idle_sessions idle_ms now t = (t', removed) ->
    world_step lim idle_ms (mk_world t load h d) (mk_world t' load h d).

Definition empty_table : session_table := mk_table ∅ [] 0 0 1.

Lemma refs_cons h q p : refs (q :: h) p = (if decide (q = p) then 1 else 0) + refs h p.
Proof. unfold refs. rewrite filter_cons. destruct (decide (q = p)); [by rewrite zlen_cons|lia]. Qed.

Lemma refs_perm h h' p : Permutation h h' -> refs h p = refs h' p.
Proof. intros H. unfold refs, zlen. by rewrite H. Qed.

Lemma refs_nonneg h p : 0 <= refs h p.
Proof. apply zlen_nonneg. Qed.

Lemma refs_zero h p : refs h p = 0 -> p ∉ h.
Proof.
  intros H Hin. unfold refs in H. apply list_elem_of_split in Hin as (l1 & l2 & ->).
  rewrite filter_app, filter_cons_True, zlen_app, zlen_cons in H by done.
  pose proof (zlen_nonneg (filter (fun q => q = p) l1)). pose proof (zlen_nonneg (filter (fun q => q = p) l2)). lia.
Qed.

Lemma refs_absent h p : p ∉ h -> refs h p = 0.
Proof.
  induction h as [|q h IH]; intros H; [done|]. apply not_elem_of_cons in H as [H1 H2].
  rewrite refs_cons, decide_False, IH by congruence. lia.
Qed.

(** A new session takes a fresh address. *)
Lemma inv_insert lim t h d s :
  sessions_inv lim t h d -> session_id s = next_session_id t -> next_session_id t < UINT64_MAX ->
  refcount s = 0 -> closing s = false ->
  (0 < max_open_sessions lim -> session_count t < max_open_sessions lim) ->
  sessions_inv lim (insert_session s t) h d.
Proof.
  intros [H1 H2 H3 H4 H5 H6 H7] Hid Hmax Hr Hc Hq.
  assert (st_heap t !! session_id s = None) as Hfresh.
  { destruct (st_heap t !! session_id s) as [x|] eqn:E; [|done]. destruct (H3 _ _ E) as (_ & ? & _). lia. }
  assert (session_id s ∉ sessions t ++ d) as Hnot by (rewrite H2, Hfresh; by intros []).
  assert (session_id s ∉ h) as Hnoth by (intros Hin; apply H4 in Hin; rewrite Hfresh in Hin; by destruct Hin).
  assert (u64 (next_session_id t + 1) = next_session_id t + 1) as Hu.
  { apply u64_small. unfold UINT64_MAX in *. lia. }
  split; cbn.
  - rewrite <- app_assoc. apply NoDup_app in H1 as (? & ? & ?). rewrite not_elem_of_app in Hnot.
    destruct Hnot as [Hn1 Hn2]. apply NoDup_app. split; [done|]. split; [|by constructor].
    intros x Hx [->|Hx']%elem_of_cons; naive_solver.
  - intros p. rewrite lookup_insert_is_Some, <- H2. rewrite !elem_of_app, list_elem_of_singleton.
    destruct (decide (session_id s = p)); naive_solver.
  - intros p x Hx. rewrite Hu. apply lookup_insert_Some in Hx as [[<- <-]|[Hne Hx]].
    + split; [done|]. split; [lia|]. rewrite Hr, refs_absent by done. split; [done|].
      rewrite Hc. split; [done|]. intros Hd. exfalso. apply Hnot. apply elem_of_app. by right.
    + destruct (H3 _ _ Hx) as (? & ? & ? & ?). split; [done|]. split; [lia|done].
  - intros p Hp. apply lookup_insert_is_Some. destruct (decide (session_id s = p)); [by left|right; split; [done|by apply H4]].
  - unfold session_count. cbn. done.
  - rewrite Hu. lia.
  - intros Hpos. specialize (Hq Hpos). unfold session_count in *. cbn. rewrite zlen_app, zlen_cons, zlen_nil. lia.
Qed.

(** The invariant does not depend on the order of references. *)
Lemma inv_perm lim t h h' d d' :
  Permutation h h' -> Permutation d d' -> sessions_inv lim t h d -> sessions_inv lim t h' d'.
Proof.
  intros Hh Hd [H1 H2 H3 H4 H5 H6 H7]. split; try done.
  - by rewrite <- Hd.
  - intros p. by rewrite <- Hd.
  - intros p s Hs. destruct (H3 p s Hs) as (? & ? & ? & Hc). rewrite <- (refs_perm _ _ p Hh), <- Hd. done.
  - intros p Hp. apply H4. by rewrite Hh.
Qed.

(** Rewriting a live object without touching what the invariant reads. *)
Definition same_handle (s s' : ducknng_session) : Prop :=
  session_id s' = session_id s /\ refcount s' = refcount s /\ closing s' = closing s.

Lemma inv_update lim t h d p s s' :
  sessions_inv lim t h d -> st_heap t !! p = Some s -> same_handle s s' ->
  sessions_inv lim (with_heap (<[p := s']> (st_heap t)) t) h d.
Proof.
  intros [H1 H2 H3 H4 H5 H6 H7] Hp (E1 & E2 & E3). split; cbn; try done.
  - intros q. rewrite lookup_insert_is_Some, H2. destruct (decide (p = q)) as [<-|]; naive_solver.
  - intros q x Hx. apply lookup_insert_Some in Hx as [[<- <-]|[Hne Hx]]; [|by apply H3].
    rewrite E1, E2, E3. by apply H3.
  - intros q Hq. rewrite lookup_insert_is_Some. destruct (decide (p = q)); [by left|right]. split; [done|by apply H4].
Qed.

(** Detaching one entry. *)
Lemma inv_detach lim t h d i p :
  sessions_inv lim t h d -> sessions t !! i = Some p ->
  exists t', ducknng_service_detach_session_locked t i = (t', Some p) /\
    sessions t' = take i (sessions t) ++ drop (S i) (sessions t) /\
    st_heap t' = alter set_closing p (st_heap t) /\
    sessions_inv lim t' h (d ++ [p]).
Proof.
  intros [H1 H2 H3 H4 H5 H6 H7] Hi. unfold ducknng_service_detach_session_locked. rewrite Hi.
  eexists. split; [reflexivity|]. split; [done|]. split; [done|].
  pose proof (take_drop_middle _ _ _ Hi) as Hl. set (l1 := take i (sessions t)) in *.
  set (l2 := drop (S i) (sessions t)) in *.
  assert (Permutation (sessions t ++ d) ((l1 ++ l2) ++ d ++ [p])) as Hperm.
  { rewrite <- Hl. rewrite <- !app_assoc. apply Permutation_app_head. cbn.
    rewrite (Permutation_app_comm d [p]). apply Permutation_middle. }
  split; cbn.
  - by rewrite <- Hperm.
  - intros q. rewrite <- Hperm, H2. rewrite lookup_alter_is_Some. done.
  - intros q x Hx. rewrite lookup_alter_Some in Hx. destruct Hx as [(-> & y & Hy & ->)|[Hne Hx]].
    + destruct (H3 _ _ Hy) as (? & ? & ? & ?). cbn. split; [done|]. split; [done|]. split; [done|].
      split; [|done]. intros _. apply elem_of_app. right. by apply list_elem_of_singleton.
    + destruct (H3 _ _ Hx) as (? & ? & ? & Hcl). split; [done|]. split; [done|]. split; [done|].
      rewrite Hcl, elem_of_app, list_elem_of_singleton. naive_solver.
  - intros q Hq. rewrite lookup_alter_is_Some. by apply H4.
  - done.
  - done.
  - intros Hpos. specialize (H7 Hpos). unfold session_count in *. cbn. rewrite <- Hl in H7.
    rewrite zlen_app in *. rewrite zlen_cons in H7. lia.
Qed.

(** Freeing a detached object nobody refers to. *)
Lemma inv_free lim t h d d' p s :
  sessions_inv lim t h d -> Permutation d (p :: d') -> st_heap t !! p = Some s -> refcount s = 0 ->
  sessions_inv lim (with_heap (delete p (st_heap t)) t) h d'.
Proof.
  intros [H1 H2 H3 H4 H5 H6 H7] Hd Hp Hr.
  assert (NoDup (p :: sessions t ++ d')) as Hnd.
  { rewrite Permutation_middle, <- Hd. done. }
  apply NoDup_cons in Hnd as [Hnp Hnd].
  assert (p ∉ h) as Hnh. { apply refs_zero. destruct (H3 _ _ Hp) as (_ & _ & <- & _). done. }
  split; cbn; try done.
  - intros q. rewrite lookup_delete_is_Some, <- H2. rewrite !elem_of_app, Hd, elem_of_cons.
    rewrite elem_of_app in Hnp. destruct (decide (p = q)) as [<-|]; naive_solver.
  - intros q x Hx. apply lookup_delete_Some in Hx as [Hne Hx]. destruct (H3 _ _ Hx) as (? & ? & ? & Hcl).
    split; [done|]. split; [done|]. split; [done|]. rewrite Hcl, Hd, elem_of_cons. naive_solver.
  - intros q Hq. rewrite lookup_delete_is_Some. split; [|by apply H4]. by intros <-.
Qed.

(** Only the reference count of one live object changes. *)
Lemma inv_refcount lim t h h' d p s n :
  sessions_inv lim t h d -> st_heap t !! p = Some s ->
  (forall q, refs h' q = if decide (q = p) then n else refs h q) ->
  (forall q, q ∈ h' -> q ∈ h \/ q = p) ->
  sessions_inv lim (with_heap (<[p := set_refcount n s]> (st_heap t)) t) h' d.
Proof.
  intros [H1 H2 H3 H4 H5 H6 H7] Hp Hr Hh. split; cbn; try done.
  - intros q. rewrite lookup_insert_is_Some, H2. destruct (decide (p = q)) as [<-|]; naive_solver.
  - intros q x Hx. rewrite Hr. apply lookup_insert_Some in Hx as [[<- <-]|[Hne Hx]].
    + rewrite decide_True by done. destruct (H3 _ _ Hp) as (? & ? & ? & ?). done.
    + rewrite decide_False by done. by apply H3.
  - intros q Hq. rewrite lookup_insert_is_Some. destruct (decide (p = q)); [by left|right].
    split; [done|]. destruct (Hh q Hq) as [?| ->]; [by apply H4|done].
Qed.

(** Where the table finds a session id. *)
Lemma find_session lim t h d id i :
  sessions_inv lim t h d -> find_index (points_to t id) (sessions t) = Some i ->
  sessions t !! i = Some id /\ exists s, st_heap t !! id = Some s /\ closing s = false.
Proof.
  intros Hinv (p & Hp & Hpt)%find_index_Some. unfold points_to in Hpt.
  destruct (st_heap t !! p) as [s|] eqn:Es; [|done]. apply Z.eqb_eq in Hpt.
  destruct (si_object _ _ _ _ Hinv p s Es) as (Hid & _ & _ & Hcl). assert (p = id) as -> by congruence.
  split; [done|]. exists s. split; [done|]. apply not_true_iff_false. rewrite Hcl. intros Hd.
  pose proof (si_nodup _ _ _ _ Hinv) as Hn. apply NoDup_app in Hn as (_ & Hn & _).
  apply (Hn id); [by eapply list_elem_of_lookup_2|done].
Qed.

Lemma find_session_none lim t h d id :
  sessions_inv lim t h d -> find_index (points_to t id) (sessions t) = None -> id ∉ sessions t.
Proof.
  intros Hinv Hf Hin. apply find_index_None in Hf. rewrite Forall_forall in Hf. specialize (Hf id Hin).
  unfold points_to in Hf. destruct (proj1 (si_live _ _ _ _ Hinv id)) as [s Hs].
  { apply elem_of_app. by left. }
  rewrite Hs in Hf. destruct (si_object _ _ _ _ Hinv id s Hs) as (Hid & _).
  by rewrite Hid, Z.eqb_refl in Hf.
Qed.

(** [acquire_session] by cases. *)
Lemma acquire_cases lim t h d id token ident :
  sessions_inv lim t h d ->
  match st_heap t !! id with
  | Some s =>
    if (bool_decide (id ∈ sessions t) &&
        (ducknng_session_owner_auth s token ident =? DUCKNNG_SESSION_AUTH_OK))%bool
    then ducknng_service_acquire_session t id token ident =
           (with_heap (<[id := set_refcount (refcount s + 1) s]> (st_heap t)) t, Some id, DUCKNNG_SESSION_AUTH_OK)
    else ducknng_service_acquire_session t id token ident =
           (t, None, if bool_decide (id ∈ sessions t) then ducknng_session_owner_auth s token ident
                     else DUCKNNG_SESSION_AUTH_OK)
  | None => ducknng_service_acquire_session t id token ident = (t, None, DUCKNNG_SESSION_AUTH_OK)
  end.
Proof.
  intros Hinv. unfold ducknng_service_acquire_session.
  destruct (Z.eqb_spec id 0) as [->|Hnz].
  { destruct (st_heap t !! 0) as [s|] eqn:E; [|done].
    destruct (si_object _ _ _ _ Hinv 0 s E) as (_ & ? & _). lia. }
  destruct (find_index (points_to t id) (sessions t)) as [i|] eqn:Ef.
  - destruct (find_session _ _ _ _ _ _ Hinv Ef) as (Hi & s & Hs & Hcl). rewrite Hi, Hs.
    assert (id ∈ sessions t) as Hin by (by eapply list_elem_of_lookup_2).
    rewrite bool_decide_eq_true_2 by done. cbn [andb]. destruct (_ =? DUCKNNG_SESSION_AUTH_OK); cbn [negb]; [|done].
    unfold ducknng_session_try_acquire. by rewrite Hcl.
  - pose proof (find_session_none _ _ _ _ _ Hinv Ef) as Hnot.
    destruct (st_heap t !! id); [|done]. by rewrite bool_decide_eq_false_2.
Qed.

Lemma inv_acquire lim t h d id token ident t' p auth :
  sessions_inv lim t h d -> ducknng_service_acquire_session t id token ident = (t', p, auth) ->
  sessions_inv lim t' (option_list p ++ h) d.
Proof.
  intros Hinv E. pose proof (acquire_cases lim t h d id token ident Hinv) as Hc.
  destruct (st_heap t !! id) as [s|] eqn:Es; [|rewrite E in Hc; by injection Hc as -> -> ->].
  destruct (_ && _)%bool; rewrite E in Hc; injection Hc as -> -> ->; [|done].
  change (option_list (Some id) ++ h) with (id :: h). apply (inv_refcount lim t h); [done|done| |].
  - intros q. rewrite refs_cons. destruct (si_object _ _ _ _ Hinv id s Es) as (_ & _ & -> & _).
    destruct (decide (id = q)) as [<-|]; [rewrite decide_True by done; lia|rewrite decide_False by done; lia].
  - intros q [->|Hq]%elem_of_cons; auto.
Qed.

Lemma inv_release lim t h h' d p :
  sessions_inv lim t h d -> Permutation h (p :: h') ->
  sessions_inv lim (with_heap (alter ducknng_session_release p (st_heap t)) t) h' d.
Proof.
  intros Hinv Hperm. assert (p ∈ h) as Hp by (rewrite Hperm; by left).
  destruct (si_held _ _ _ _ Hinv p Hp) as [s Hs].
  destruct (si_object _ _ _ _ Hinv p s Hs) as (_ & _ & Hr & _).
  rewrite (refs_perm _ _ _ Hperm), refs_cons, decide_True in Hr by done. pose proof (refs_nonneg h' p).
  assert (alter ducknng_session_release p (st_heap t) = <[p := set_refcount (refs h' p) s]> (st_heap t)) as ->.
  { apply map_eq. intros q. destruct (decide (p = q)) as [<-|].
    - rewrite lookup_alter_eq, lookup_insert_eq, Hs. simpl. unfold ducknng_session_release.
      destruct (Z.ltb_spec 0 (refcount s)); [|lia]. do 2 f_equal. lia.
    - by rewrite lookup_alter_ne, lookup_insert_ne. }
  apply (inv_refcount lim t h); [done|done| |].
  - intros q. rewrite (refs_perm _ _ _ Hperm), refs_cons.
    destruct (decide (q = p)) as [->|Hne]; [done|]. rewrite decide_False by congruence. lia.
  - intros q Hq. left. rewrite Hperm. by right.
Qed.

Lemma remove_cases lim t h d id token ident t' p auth :
  sessions_inv lim t h d -> ducknng_service_remove_session t id token ident = (t', p, auth) ->
  (p = None /\ t' = t) \/
  (p = Some id /\ exists i s, sessions t !! i = Some id /\ st_heap t !! id = Some s /\
     ducknng_session_owner_auth s token ident = DUCKNNG_SESSION_AUTH_OK /\
     ducknng_service_detach_session_locked t i = (t', Some id)).
Proof.
  intros Hinv. unfold ducknng_service_remove_session. destruct (id =? 0); [intros [= <- <- <-]; by left|].
  destruct (find_index _ _) as [i|] eqn:Ef; [|intros [= <- <- <-]; by left].
  destruct (find_session _ _ _ _ _ _ Hinv Ef) as (Hi & s & Hs & Hcl). rewrite Hi. cbn [mbind option_bind].
  rewrite Hs. destruct (Z.eqb_spec (ducknng_session_owner_auth s token ident) DUCKNNG_SESSION_AUTH_OK) as [Ea|Ea];
    cbn [negb]; [|intros [= <- <- <-]; by left].
  destruct (inv_detach lim t h d i id Hinv Hi) as (t1 & Ed & _). rewrite Ed. intros [= <- <- <-].
  right. eauto 10.
Qed.

Lemma inv_remove lim t h d id token ident t' p auth :
  sessions_inv lim t h d -> ducknng_service_remove_session t id token ident = (t', p, auth) ->
  sessions_inv lim t' h (d ++ option_list p).
Proof.
  intros Hinv E. destruct (remove_cases _ _ _ _ _ _ _ _ _ _ Hinv E) as [[-> ->]|(-> & i & s & Hi & _ & _ & Ed)].
  - by rewrite app_nil_r.
  - destruct (inv_detach lim t h d i id Hinv Hi) as (t1 & Ed1 & _ & _ & Hinv1). rewrite Ed in Ed1.
    by injection Ed1 as ->.
Qed.

Lemma lookup_mark_all (l : list Z) (h : gmap Z ducknng_session) p :
  foldr (alter ducknng_session_mark_closing) h l !! p =
  if decide (p ∈ l) then set_closing <$> h !! p else h !! p.
Proof.
  induction l as [|q l IH]; cbn [foldr]; [by rewrite decide_False by apply not_elem_of_nil|].
  destruct (decide (p = q)) as [->|Hne].
  - rewrite lookup_alter_eq, IH, (decide_True (P := q ∈ q :: l)) by (by left).
    destruct (decide (q ∈ l)); [|done]. by destruct (h !! q).
  - rewrite lookup_alter_ne by done. rewrite IH.
    destruct (decide (p ∈ l)); [rewrite decide_True by (by right); done|].
    rewrite decide_False by (rewrite elem_of_cons; tauto). done.
Qed.

Lemma inv_detach_all lim t h d t' all :
  sessions_inv lim t h d -> ducknng_service_detach_all_sessions t = (t', all) ->
  sessions_inv lim t' h (d ++ all).
Proof.
  intros [H1 H2 H3 H4 H5 H6 H7] [= <- <-].
  assert (Permutation (sessions t ++ d) (d ++ sessions t)) as Hperm by apply Permutation_app_comm.
  assert (forall p, is_Some (foldr (alter ducknng_session_mark_closing) (st_heap t) (sessions t) !! p) <->
    is_Some (st_heap t !! p)) as Hsome.
  { intros p. rewrite lookup_mark_all. destruct (decide _); [|done]. apply fmap_is_Some. }
  split; cbn; try done.
  - by rewrite <- Hperm.
  - intros p. by rewrite Hsome, <- Hperm, H2.
  - intros p s. rewrite lookup_mark_all. destruct (decide (p ∈ sessions t)) as [Hin|Hin].
    + intros (x & Hx & ->)%fmap_Some. destruct (H3 _ _ Hx) as (? & ? & ? & ?). cbn.
      split; [done|]. split; [done|]. split; [done|]. split; [|done]. intros _. apply elem_of_app. by right.
    + intros Hx. destruct (H3 _ _ Hx) as (? & ? & ? & Hcl). split; [done|]. split; [done|]. split; [done|].
      rewrite Hcl, elem_of_app. tauto.
  - intros p Hp. rewrite Hsome. by apply H4.
  - intros Hpos. unfold session_count. cbn. rewrite zlen_nil. lia.
Qed.

Definition prunable (idle now : Z) (t : session_table) (p : Z) : bool :=
  match st_heap t !! p with Some s => should_prune idle now s | None => false end.

Lemma filter_prunable_ext idle now t t2 (b : bool) (l : list Z) :
  (forall q, q ∈ l -> st_heap t2 !! q = st_heap t !! q) ->
  filter (fun q => prunable idle now t2 q = b) l = filter (fun q => prunable idle now t q = b) l.
Proof.
  induction l as [|q l IH]; intros H; [done|]. rewrite !filter_cons, IH by (intros; apply H; by right).
  assert (prunable idle now t2 q = prunable idle now t q) as E by (unfold prunable; by rewrite (H q) by (by left)).
  by rewrite E.
Qed.

(** One pruned entry: detached, destroyed and freed in one go. *)
Lemma prune_entry lim t h d i p s idle now :
  sessions_inv lim t h d -> sessions t !! i = Some p -> st_heap t !! p = Some s ->
  should_prune idle now s = true ->
  exists t1, ducknng_service_detach_session_locked t i = (t1, Some p) /\
    let t2 := with_heap (delete p (st_heap t1)) t1 in
    sessions_inv lim t2 h d /\ sessions t2 = take i (sessions t) ++ drop (S i) (sessions t) /\
    p ∉ sessions t2 ++ d /\ (forall q, q <> p -> st_heap t2 !! q = st_heap t !! q).
Proof.
  intros Hinv Hp Hs Esp. destruct (inv_detach lim t h d i p Hinv Hp) as (t1 & Ed & Hs1 & Hh1 & Hinv1).
  exists t1. split; [done|]. cbv zeta.
  assert (refcount s = 0) as Hr0. { unfold should_prune in Esp. by btests. }
  assert (sessions_inv lim (with_heap (delete p (st_heap t1)) t1) h d) as Hinv2.
  { apply (inv_free lim t1 h (d ++ [p]) d p (set_closing s)); [done| | |done].
    - symmetry. apply Permutation_cons_append.
    - rewrite Hh1, lookup_alter_eq, Hs. done. }
  split; [done|]. split; [done|]. split.
  - intros Hin. destruct (proj1 (si_live _ _ _ _ Hinv2 p) Hin) as [x Hx]. cbn in Hx. by rewrite lookup_delete_eq in Hx.
  - intros q Hq. cbn. rewrite lookup_delete_ne by done. by rewrite Hh1, lookup_alter_ne.
Qed.

(** The pruning loop destroys exactly the idle sessions behind [i]. *)
Lemma prune_loop_spec lim fuel idle now h d : forall i t removed,
  sessions_inv lim t h d -> (length (sessions t) <= i + fuel)%nat -> (i <= length (sessions t))%nat ->
  let (t', removed') := prune_loop fuel idle now i t removed in
  sessions_inv lim t' h d /\
  sessions t' = take i (sessions t) ++ filter (fun p => prunable idle now t p = false) (drop i (sessions t)) /\
  (fst <$> removed') = (fst <$> removed) ++ filter (fun p => prunable idle now t p = true) (drop i (sessions t)) /\
  (forall p, p ∈ sessions t' ++ d -> st_heap t' !! p = st_heap t !! p).
Proof.
  induction fuel as [|fuel IH]; intros i t removed Hinv Hf Hi; cbn [prune_loop].
  { assert (i = length (sessions t)) as -> by lia. rewrite drop_ge, firstn_all, !filter_nil, !app_nil_r by lia. done. }
  destruct (sessions t !! i) as [p|] eqn:Hp.
  2:{ apply lookup_ge_None in Hp. assert (i = length (sessions t)) as -> by lia.
      rewrite drop_ge, firstn_all, !filter_nil, !app_nil_r by lia. done. }
  pose proof (lookup_lt_Some _ _ _ Hp) as Hlt.
  assert (is_Some (st_heap t !! p)) as [s Hs].
  { apply (si_live _ _ _ _ Hinv). apply elem_of_app. left. by eapply list_elem_of_lookup_2. }
  assert (prunable idle now t p = should_prune idle now s) as Hpr by (unfold prunable; by rewrite Hs).
  rewrite Hs, (drop_S _ _ _ Hp). destruct (should_prune idle now s) eqn:Esp.
  - destruct (prune_entry lim t h d i p s idle now Hinv Hp Hs Esp) as (t1 & -> & Hinv2 & Hs2 & Hnotin & Hother).
    set (t2 := with_heap (delete p (st_heap t1)) t1) in *.
    specialize (IH i t2 (removed ++ [(p, ducknng_session_destroy s)]) Hinv2).
    rewrite Hs2, length_app, length_take, length_drop in IH. specialize (IH ltac:(lia) ltac:(lia)).
    destruct (prune_loop fuel idle now i t2 _) as [t' removed']. destruct IH as (Hi1 & Hi2 & Hi3 & Hi4).
    rewrite take_app_le, take_take, Nat.min_id in Hi2 by (rewrite length_take; lia).
    rewrite drop_app_ge, length_take in Hi2, Hi3 by (rewrite length_take; lia).
    replace (i - i `min` length (sessions t))%nat with O in Hi2, Hi3 by lia. rewrite drop_0 in Hi2, Hi3.
    rewrite fmap_app, <- app_assoc in Hi3. cbn [fmap list_fmap fst app] in Hi3.
    assert (forall q, q ∈ drop (S i) (sessions t) -> st_heap t2 !! q = st_heap t !! q) as Hsame.
    { intros q Hq. apply Hother. intros ->. apply Hnotin. rewrite Hs2. apply elem_of_app. left.
      apply elem_of_app. by right. }
    rewrite (filter_prunable_ext idle now t t2) in Hi2, Hi3 by done.
    rewrite filter_cons_False by (by rewrite Hpr). rewrite filter_cons_True by done.
    split; [done|]. split; [done|]. split; [done|].
    intros q Hq. rewrite Hi4 by done. apply Hother. intros ->.
    destruct (proj1 (si_live _ _ _ _ Hi1 p) Hq) as [x Hx]. rewrite Hi4 in Hx by done. subst t2. cbn in Hx.
    by rewrite lookup_delete_eq in Hx.
  - specialize (IH (S i) t removed Hinv ltac:(lia) ltac:(lia)).
    destruct (prune_loop fuel idle now (S i) t removed) as [t' removed'].
    rewrite filter_cons_True by done. rewrite filter_cons_False by (by rewrite Hpr).
    rewrite (take_S_r _ _ _ Hp), <- app_assoc in IH. done.
Qed.

Lemma inv_prune lim t h d idle now t' removed :
  sessions_inv lim t h d -> ducknng_service_prune_idle_sessions idle now t = (t', removed) ->
  sessions_inv lim t' h d.
Proof.
  intros Hinv. unfold ducknng_service_prune_idle_sessions. destruct (idle =? 0); [by intros [= <- _]|].
  pose proof (prune_loop_spec lim (length (sessions t)) idle now h d 0 t [] Hinv ltac:(lia) ltac:(lia)) as H.
  destruct (prune_loop _ _ _ _ _ _). intros [= <- _]. by destruct H.
Qed.

Lemma admission_quota lim sd t load ident now load' :
  session_admission lim sd t load ident now = (load', None) ->
  0 < max_open_sessions lim -> session_count t < max_open_sessions lim.
Proof.
  unfold session_admission. destruct sd; [done|].
  destruct ((0 <? max_open_sessions lim) && _)%bool eqn:E; [done|].
  intros _ Hpos. apply andb_false_iff in E as [E|E]; btests; lia.
Qed.

Lemma token_nonempty w : nonempty (Some (ducknng_session_generate_owner_token w)) = true.
Proof.
  destruct (hex_token_shape w) as (_ & _ & H). unfold ducknng_session_generate_owner_token.
  by destruct (ducknng_session_generate_hex_token w).
Qed.

Lemma inv_add lim t load h d t' load' sd res ident fmt w1 w2 now r :
  sessions_inv lim t h d -> next_session_id t < UINT64_MAX ->
  ducknng_service_add_session lim sd t load res ident fmt w1 w2 now = (t', load', r) ->
  sessions_inv lim t' h d.
Proof.
  intros Hinv Hmax. unfold ducknng_service_add_session.
  destruct (session_admission lim sd t load ident now) as [l1 [e|]] eqn:Ea; [by intros [= <- _ _]|].
  unfold ducknng_session_create. rewrite token_nonempty. cbn [negb]. intros [= <- _ _].
  apply inv_insert; try done. by eapply admission_quota.
Qed.

Lemma inv_add_full lim t load h d t' load' sd con idx stmt pend up ident fmt ch w1 w2 now r :
  sessions_inv lim t h d -> next_session_id t < UINT64_MAX ->
  ducknng_service_add_session_full lim sd t load con idx stmt pend up ident fmt ch w1 w2 now = (t', load', r) ->
  sessions_inv lim t' h d.
Proof.
  intros Hinv Hmax. unfold ducknng_service_add_session_full.
  destruct (session_admission lim sd t load ident now) as [l1 [e|]] eqn:Ea; [by intros [= <- _ _]|].
  unfold ducknng_session_create_streaming. rewrite token_nonempty. cbn [negb]. intros [= <- _ _].
  destruct up as [[target cols]|]; (apply inv_insert; try done; by eapply admission_quota).
Qed.

Lemma inv_add_upload lim t load h d t' load' sd con idx ok target cols ident w1 w2 now r :
  sessions_inv lim t h d -> next_session_id t < UINT64_MAX ->
  ducknng_service_add_upload_session lim sd t load con idx ok target cols ident w1 w2 now = (t', load', r) ->
  sessions_inv lim t' h d.
Proof.
  unfold ducknng_service_add_upload_session. destruct ok; cbn [negb]; [apply inv_add_full|].
  by intros ? _ [= <- _ _].
Qed.

Lemma inv_empty lim : sessions_inv lim empty_table [] [].
Proof.
  split.
  - apply NoDup_nil_2.
  - intros p. cbn. split; [by intros ?%not_elem_of_nil|]. intros [x Hx]. by rewrite lookup_empty in Hx.
  - intros p s Hx. cbn in Hx. by rewrite lookup_empty in Hx.
  - by intros p ?%not_elem_of_nil.
  - done.
  - cbn. lia.
  - intros. unfold session_count. cbn [sessions empty_table]. rewrite zlen_nil. lia.
Qed.

(** ** Claims *)

(** C3.  Session lifetimes are safe.  Starting from an empty table, after any
    interleaving of opening (buffered, streaming and upload sessions),
    acquiring, releasing, work on a held session, removing, detaching all,
    destroying and pruning:
    every address in the table or waiting for destruction is a live object
    and no other is; session ids are unique; a reference count equals the
    references workers hold; every held reference is to a live object, so a
    session is never freed while in use; a session is closing exactly when it
    left the table; the published count is the table's length and respects
    the configured maximum. *)
Theorem session_lifetime lim idle load w :
  rtc (world_step lim idle) (mk_world empty_table load [] []) w ->
  sessions_inv lim (w_table w) (held w) (detached w).
Proof.
  intros Hsteps.
  pose proof (inv_empty lim) as H0.
  remember (mk_world empty_table load [] []) as w0 eqn:E.
  assert (sessions_inv lim (w_table w0) (held w0) (detached w0)) as Hw0 by (by subst).
  clear E H0. induction Hsteps as [|x y z Hxy _ IH]; [done|]. apply IH. clear IH.
  destruct Hxy; cbn in *;
    eauto using inv_add, inv_acquire, inv_release, inv_remove, inv_detach_all, inv_free, inv_update, inv_prune.
  - unfold ducknng_service_add_session_streaming in *. eauto using inv_add_full.
  - eauto using inv_add_upload.
Qed.

Lemma session_lifetime_witness :
  sessions_inv (mk_limits 2 0 0 0 0 0 0)
    (ducknng_service_acquire_session
       (ducknng_service_add_session (mk_limits 2 0 0 0 0 0 0) false empty_table empty_load true None 0
          (1, 2, 3, 4) (5, 6, 7, 8) 100).1.1 1
       (Some (ducknng_session_generate_owner_token (1, 2, 3, 4))) None).1.1 [1] [].
Proof.
  refine (session_lifetime (mk_limits 2 0 0 0 0 0 0) 0 empty_load
    (mk_world _ empty_load [1] []) _).
  eapply rtc_l; [eapply (ws_add _ _ _ _ _ _ _ _ false true None 0 (1, 2, 3, 4) (5, 6, 7, 8) 100);
    [vm_compute; reflexivity|vm_compute; reflexivity]|].
  apply rtc_once.
  change [1] with (option_list (Some 1) ++ []).
  eapply (ws_acquire _ _ _ _ _ _ _ 1 (Some (ducknng_session_generate_owner_token (1, 2, 3, 4))) None).
  vm_compute. reflexivity.
Defined.

(** Only the owner gets a session.  In a well-formed table,
    [acquire_session] succeeds exactly when the id is in the table, the
    presented token is the session's owner token, and the caller's identity is
    the owner's when the session has one; it then adds one reference to that
    session and changes nothing else.  A refusal changes nothing and reports a
    wrong token before a wrong identity. *)
Theorem acquire_only_owner lim t h d id token ident :
  sessions_inv lim t h d ->
  (forall s, st_heap t !! id = Some s -> exists tok, owner_token s = Some tok /\ cstr tok /\ tok <> []) ->
  cstr token ->
  let '(t', got, auth) := ducknng_service_acquire_session t id (Some token) ident in
  (got = Some id <->
     exists s, id ∈ sessions t /\ st_heap t !! id = Some s /\ owner_token s = Some token /\
       (nonempty (owner_identity s) = true -> owner_identity s = ident)) /\
  (forall s, got = Some id -> st_heap t !! id = Some s ->
     t' = with_heap (<[id := set_refcount (refcount s + 1) s]> (st_heap t)) t) /\
  (got <> Some id -> got = None /\ t' = t) /\
  (forall s, id ∈ sessions t -> st_heap t !! id = Some s ->
     auth = if bool_decide (owner_token s = Some token)
            then (if (nonempty (owner_identity s) && negb (bool_decide (owner_identity s = ident)))%bool
                  then DUCKNNG_SESSION_AUTH_IDENTITY_MISMATCH else DUCKNNG_SESSION_AUTH_OK)
            else DUCKNNG_SESSION_AUTH_TOKEN_MISMATCH).
Proof.
  intros Hinv Htok Hc. pose proof (acquire_cases lim t h d id (Some token) ident Hinv) as Ha.
  destruct (st_heap t !! id) as [s|] eqn:Es.
  2:{ rewrite Ha. split; [split; [done|by intros (s & _ & ? & _)]|]. split; [done|]. split; [done|done]. }
  destruct (Htok s eq_refl) as (tok & Et & Htc & Htn).
  assert (ducknng_session_owner_auth s (Some token) ident =
    if bool_decide (owner_token s = Some token)
    then (if (nonempty (owner_identity s) && negb (bool_decide (owner_identity s = ident)))%bool
          then DUCKNNG_SESSION_AUTH_IDENTITY_MISMATCH else DUCKNNG_SESSION_AUTH_OK)
    else DUCKNNG_SESSION_AUTH_TOKEN_MISMATCH) as Hauth.
  { unfold ducknng_session_owner_auth. rewrite Et. rewrite (bool_decide_eq_false_2 (Some tok = None)) by done.
    cbn [orb]. destruct (decide (tok = token)) as [->|Hne].
    - rewrite (proj2 (token_equal_spec token token Hc Hc) eq_refl), (bool_decide_eq_true_2 (Some token = Some token)) by done.
      by destruct token.
    - rewrite (bool_decide_eq_false_2 (Some tok = Some token)) by congruence.
      destruct (ducknng_session_token_equal (Some tok) (Some token)) eqn:E.
      + by apply token_equal_spec in E.
      + by rewrite orb_true_r. }
  rewrite Hauth in Ha. clear Htok. destruct (bool_decide (id ∈ sessions t)) eqn:Ein; btests; cbn [andb] in Ha.
  - destruct (bool_decide (owner_token s = Some token)) eqn:Eto; btests.
    + destruct (nonempty (owner_identity s) && _)%bool eqn:Ei; cbn in Ha; rewrite Ha.
      * btests. split; [|split; [done|split; [done|]]].
        -- split; [done|]. intros (x & _ & [= <-] & _ & Hid). by destruct (Hid ltac:(done)).
        -- intros x _ [= <-]. rewrite bool_decide_eq_true_2 by done.
           rewrite (bool_decide_eq_false_2 (owner_identity s = ident)) by done. by rewrite H.
      * split; [|split; [by intros x _ [= <-]|split; [done|]]].
        -- split; [|done]. intros _. exists s. split; [done|]. split; [done|]. split; [done|]. intros Hne.
           rewrite Hne in Ei. cbn in Ei. by btests.
        -- intros x _ [= <-]. rewrite bool_decide_eq_true_2 by done. by rewrite Ei.
    + cbn in Ha. rewrite Ha. split; [|split; [done|split; [done|]]].
      * split; [done|]. by intros (x & _ & [= <-] & ? & _).
      * intros x _ [= <-]. by rewrite bool_decide_eq_false_2.
  - rewrite Ha. split; [|split; [done|split; [done|done]]]. split; [done|]. by intros (x & ? & _).
Qed.

(** A table with one open session, for the examples. *)
Definition demo_token : bytes := ducknng_session_generate_owner_token (1, 2, 3, 4).
Definition demo_table : session_table :=
  (ducknng_service_add_session (mk_limits 2 0 0 0 0 0 0) false empty_table empty_load true
     (Some (lit "alice")) 0 (1, 2, 3, 4) (5, 6, 7, 8) 100).1.1.

Lemma demo_table_inv : sessions_inv (mk_limits 2 0 0 0 0 0 0) demo_table [] [].
Proof.
  apply (inv_add (mk_limits 2 0 0 0 0 0 0) empty_table empty_load [] [] demo_table empty_load false true
    (Some (lit "alice")) 0 (1, 2, 3, 4) (5, 6, 7, 8) 100 (Ok (1, demo_token,
    ducknng_session_generate_result_handle (5, 6, 7, 8)))); [apply inv_empty|by vm_compute|by vm_compute].
Qed.

Lemma demo_token_cstr : cstr demo_token.
Proof. apply lower_hex_cstr. apply (hex_token_shape (1, 2, 3, 4)). Qed.

Lemma demo_table_tokens s : st_heap demo_table !! 1 = Some s ->
  exists tok, owner_token s = Some tok /\ cstr tok /\ tok <> [].
Proof.
  intros Hs. exists demo_token. assert (owner_token s = Some demo_token) as ->.
  { assert (owner_token <$> st_heap demo_table !! 1 = Some (Some demo_token)) as H by (by vm_compute).
    rewrite Hs in H. simpl in H. congruence. }
  split; [done|]. split; [apply demo_token_cstr|]. by vm_compute.
Qed.

Lemma acquire_only_owner_witness :
  let '(_, got, _) := ducknng_service_acquire_session demo_table 1 (Some demo_token) (Some (lit "alice")) in
  got = Some 1.
Proof.
  refine (proj2 (proj1 (acquire_only_owner (mk_limits 2 0 0 0 0 0 0) demo_table [] [] 1 demo_token
    (Some (lit "alice")) demo_table_inv demo_table_tokens demo_token_cstr)) _).
  eexists. split; [apply list_elem_of_In; left; reflexivity|]. split; [vm_compute; reflexivity|].
  split; [vm_compute; reflexivity|]. intros _. vm_compute. reflexivity.
Defined.

(** Session tokens.  A generated owner token or result handle is 32
    lower-case hexadecimal digits and different random words give different
    tokens; the constant-time comparison accepts a presented token exactly
    when it is the stored one, whatever the lengths. *)
Theorem session_tokens w w' a b :
  words_ok w -> words_ok w' -> cstr a -> cstr b ->
  Forall lower_hex (ducknng_session_generate_hex_token w) /\
  zlen (ducknng_session_generate_hex_token w) = 32 /\
  (ducknng_session_generate_hex_token w = ducknng_session_generate_hex_token w' -> w = w') /\
  (ducknng_session_token_equal (Some a) (Some b) = true <-> a = b).
Proof.
  intros Hw Hw' Ha Hb. destruct (hex_token_shape w) as (? & ? & _). split; [done|]. split; [done|].
  split; [by apply hex_token_inj|by apply token_equal_spec].
Qed.

Lemma session_tokens_witness :
  zlen (ducknng_session_generate_hex_token (0, UINT32_MAX, 7, 0x12ab)) = 32 /\
  (ducknng_session_token_equal (Some (lit "ab")) (Some (lit "ab")) = true <-> lit "ab" = lit "ab").
Proof.
  assert (words_ok (0, UINT32_MAX, 7, 0x12ab)) as Hw by (unfold words_ok, word_ok, UINT32_MAX; lia).
  assert (cstr (lit "ab")) as Hc by (apply (bool_decide_unpack _); vm_compute; exact I).
  destruct (session_tokens _ _ _ _ Hw Hw Hc Hc) as (_ & H1 & _ & H2). split; [exact H1|exact H2].
Defined.

(** Pruning removes exactly the idle sessions.  Run without interference
    on a well-formed table, [prune_idle_sessions] keeps, in order, the
    sessions that are in use, closing, cancelled, at their end or touched
    within the idle period, and destroys and frees all others, each once, none
    of them referenced by a worker; sessions that stay are untouched, and an
    idle period of 0 disables pruning. *)
Theorem prune_exact lim t h d idle now :
  sessions_inv lim t h d ->
  let (t', removed) := ducknng_service_prune_idle_sessions idle now t in
  sessions_inv lim t' h d /\
  (idle = 0 -> t' = t /\ removed = []) /\
  (idle <> 0 ->
     sessions t' = filter (fun p => prunable idle now t p = false) (sessions t) /\
     fst <$> removed = filter (fun p => prunable idle now t p = true) (sessions t) /\
     (forall p, p ∈ fst <$> removed -> p ∉ h /\ st_heap t' !! p = None) /\
     (forall p, p ∈ sessions t' -> st_heap t' !! p = st_heap t !! p)).
Proof.
  intros Hinv. unfold ducknng_service_prune_idle_sessions. destruct (Z.eqb_spec idle 0) as [->|Hne]; [done|].
  pose proof (prune_loop_spec lim (length (sessions t)) idle now h d 0 t [] Hinv ltac:(lia) ltac:(lia)) as H.
  destruct (prune_loop _ _ _ _ _ _) as [t' removed]. rewrite take_0, drop_0 in H. cbn [app fmap list_fmap] in H.
  destruct H as (H1 & H2 & H3 & H4). split; [done|]. split; [done|]. intros _. split; [done|]. split; [done|].
  split; [|intros p Hp; apply H4, elem_of_app; by left].
  intros p Hp. rewrite H3 in Hp. apply list_elem_of_filter in Hp as [Hpr Hin].
  assert (st_heap t' !! p = None) as Hnone.
  { destruct (st_heap t' !! p) as [x|] eqn:Ex; [|done]. exfalso.
    assert (p ∈ sessions t' ++ d) as Hp' by (apply (si_live _ _ _ _ H1); by rewrite Ex).
    apply elem_of_app in Hp' as [Hp'|Hp'].
    - rewrite H2 in Hp'. apply list_elem_of_filter in Hp' as [? _]. congruence.
    - pose proof (si_nodup _ _ _ _ Hinv) as Hn. apply NoDup_app in Hn as (_ & Hn & _). by apply (Hn p). }
  split; [|done]. intros Hh. destruct (si_held _ _ _ _ H1 p Hh) as [x Hx]. congruence.
Qed.

Lemma prune_exact_witness :
  let (t', removed) := ducknng_service_prune_idle_sessions 50 200 demo_table in
  sessions t' = filter (fun p => prunable 50 200 demo_table p = false) (sessions demo_table) /\
  fst <$> removed = [1].
Proof.
  pose proof (prune_exact _ demo_table [] [] 50 200 demo_table_inv) as H.
  destruct (ducknng_service_prune_idle_sessions 50 200 demo_table) as [t' removed].
  destruct H as (_ & _ & H). destruct (H ltac:(discriminate)) as (H1 & H2 & _). split; [exact H1|].
  rewrite H2. vm_compute. reflexivity.
Defined.

(** An event that must come before another. *)
Definition before (a b : teardown) (l : list teardown) : Prop :=
  forall l1 l2, l = l1 ++ a :: l2 -> b ∉ l1.

(** Tearing a session down never persists a partial upload.  Destroying a
    session with an open upload transaction destroys the appender (which
    flushes its rows) before it rolls the transaction back, and rolls back
    before the connection returns to the pool; a session whose transaction was
    committed, or that is no upload, issues no ROLLBACK; and each resource is
    released at most once. *)
Theorem destroy_order s con :
  session_con s = Some con ->
  (upload_txn_open s = true -> upload_appender_open s = true ->
     Rollback con ∈ ducknng_session_destroy s /\ DestroyAppender ∈ ducknng_session_destroy s /\
     before DestroyAppender (Rollback con) (ducknng_session_destroy s) /\
     before (Rollback con) (ReleaseConnection (session_pool_index s)) (ducknng_session_destroy s)) /\
  (upload_txn_open s = false -> forall c, Rollback c ∉ ducknng_session_destroy s) /\
  (session_svc s = true -> session_pool_index s <> SIZE_MAX ->
     last (ducknng_session_destroy s) = Some (ReleaseConnection (session_pool_index s))) /\
  NoDup (ducknng_session_destroy s).
Proof.
  intros Hc. unfold ducknng_session_destroy, before. rewrite Hc.
  destruct (Z.eqb_spec (session_pool_index s) SIZE_MAX) as [Ei|Ei];
    destruct (result_open s), (pending_open s), (stmt_open s), (upload_appender_open s),
      (upload_txn_open s), (session_svc s); cbn [app andb negb].
  all: split; [|split; [|split]].
  all: try (intros; discriminate).
  all: try (intros ? ?; first [contradiction|reflexivity]).
  all: try (repeat (apply NoDup_cons_2; [rewrite ?not_elem_of_cons; repeat split; try discriminate; apply not_elem_of_nil|]); apply NoDup_nil_2).
  all: try (intros _ c; rewrite ?not_elem_of_cons; repeat split; try discriminate; apply not_elem_of_nil).
  all: intros _ _; split; [rewrite ?elem_of_cons; tauto|]; split; [rewrite ?elem_of_cons; tauto|];
    split; intros l1 l2 E Hin; repeat (destruct l1 as [|? l1]; cbn in E; [injection E; intros; subst|]; try discriminate E);
    simplify_eq; rewrite ?elem_of_cons, ?elem_of_nil in Hin; naive_solver.
Qed.

Definition demo_upload : ducknng_session :=
  mk_session 5 (Some demo_token) None None 0 12 false false false 100 0 true true (Some 7) 3
    false false true true true None None no_progress.

Lemma destroy_order_witness :
  ducknng_session_destroy demo_upload = [DestroyAppender; Rollback 7; ReleaseConnection 3] /\
  before DestroyAppender (Rollback 7) (ducknng_session_destroy demo_upload).
Proof.
  split; [reflexivity|].
  apply (destroy_order demo_upload 7 eq_refl); reflexivity.
Defined.
