(* ===== verification/Admission.v ===== *)
(** Who may talk to a service: the peer allowlist of [src/src/ducknng_nng_compat.c]
    and the IP allowlist and admission checks of [src/src/ducknng_service.c].

    [inet_pton] belongs to the C library: it is a parameter, known to write
    4 or 16 bytes when it accepts an address.  Every operation runs under the
    service mutex.  Allocation failures are not modelled. *)

From S2P Require Import Prelude Util.

(** ** Data *)

Inductive ip_family := NNG_AF_INET | NNG_AF_INET6.
#[export] Instance ip_family_eq_dec : EqDecision ip_family.
Proof. solve_decision. Defined.

(** An [nng_sockaddr]: the address bytes are in network order, the port is
    the number [ntohs] gives. *)
Inductive nng_sockaddr :=
| s_in (sa_addr : bytes) (sa_port : Z)
| s_in6 (sa_addr : bytes) (sa_port : Z)
| s_ipc (sa_path : bytes)
| s_inproc (sa_name : bytes)
| s_other (s_family : Z).

Record ducknng_ip_allow_rule := mk_rule { family : ip_family; addr : bytes; prefix_bits : Z }.

Record ducknng_tls_opts := mk_tls_opts {
  auth_mode : Z;
  peer_allowlist_active : bool;
  peer_allowlist : list bytes;
  peer_allowlist_json : option bytes }.

(** The fields of a service the admission checks read. *)
Record service_policy := mk_policy {
  tls_enabled : bool;
  tls_opts : ducknng_tls_opts;
  ip_allowlist_active : bool;
  ip_allowlist : list ducknng_ip_allow_rule;
  ip_allowlist_json : option bytes;
  authorizer_active : bool;
  authorizer_sql : option bytes }.

(** ** JSON arrays of allowlist entries

    The two scanners differ in the words of their messages and in [\u], which
    only the peer allowlist accepts. *)

Definition ducknng_json_hex_value (c : Z) : Z :=
  if ((48 <=? c) && (c <=? 57))%bool then c - 48 else
  if ((97 <=? c) && (c <=? 102))%bool then c - 97 + 10 else
  if ((65 <=? c) && (c <=? 70))%bool then c - 65 + 10 else -1.

Section allow_strings.
Context (unicode : bool) (what : bytes).

Definition unsupported_escape : bytes := lit "ducknng: unsupported JSON escape in " ++ what.

Fixpoint allow_string_loop (s out : bytes) {struct s} : result bytes (bytes * bytes) :=
  match s with
  | [] => Err (lit "ducknng: unterminated JSON string in " ++ what)
  | ch :: s =>
    if ch =? QUOTE then Ok (out, s) else
    if ch =? BACKSLASH then
      match s with
      | [] => Err (lit "ducknng: unterminated JSON string in " ++ what)
      | esc :: s =>
        match simple_escape esc with
        | Some ch => allow_string_loop s (out ++ [ch])
        | None =>
          if (unicode && (esc =? chr "u"))%bool then
            match s with
            | c0 :: c1 :: c2 :: c3 :: s =>
              let h2 := ducknng_json_hex_value c2 in
              let h3 := ducknng_json_hex_value c3 in
              if (negb (ducknng_json_hex_value c0 =? 0) || negb (ducknng_json_hex_value c1 =? 0) ||
                  (h2 <? 0) || (h3 <? 0))%bool then Err unsupported_escape else
              let ch := u8 (Z.lor (Z.shiftl h2 4) h3) in
              if ch =? 0 then Err unsupported_escape
              else allow_string_loop s (out ++ [ch])
            | _ => Err unsupported_escape
            end
          else Err unsupported_escape
        end
      end
    else if ch <? 0x20 then Err (lit "ducknng: invalid control character in " ++ what)
    else allow_string_loop s (out ++ [ch])
  end.

Definition allow_string (p : bytes) : result bytes (bytes * bytes) :=
  match p with
  | c :: s =>
    if c =? QUOTE then allow_string_loop s []
    else Err (lit "ducknng: " ++ what ++ lit " must be a JSON array of strings")
  | [] => Err (lit "ducknng: " ++ what ++ lit " must be a JSON array of strings")
  end.

Context {A : Type} (item : bytes -> result bytes A).

Fixpoint allow_array_loop (fuel : nat) (p : bytes) (acc : list A) : result bytes (list A * bytes) :=
  match fuel with
  | O => Err out_of_fuel
  | S fuel =>
    let p := ducknng_json_skip_ws p in
    let! (text, p) := allow_string p in
    let! entry := item text in
    let p := ducknng_json_skip_ws p in
    if cur p =? chr "," then allow_array_loop fuel (zdrop 1 p) (acc ++ [entry]) else
    if cur p =? chr "]" then Ok (acc ++ [entry], zdrop 1 p) else
    Err (lit "ducknng: expected ',' or ']' in " ++ what ++ lit " JSON")
  end.

(** The entries and the copy of the JSON text. *)
Definition allow_array (json : bytes) : result bytes (list A * bytes) :=
  let p := ducknng_json_skip_ws json in
  if negb (cur p =? chr "[")
  then Err (lit "ducknng: " ++ what ++ lit " must be a JSON array of strings") else
  let p := ducknng_json_skip_ws (zdrop 1 p) in
  let! (entries, p) :=
    (if cur p =? chr "]" then Ok ([], zdrop 1 p) else allow_array_loop (S (length p)) p []) in
  match ducknng_json_skip_ws p with
  | [] => Ok (entries, json)
  | _ => Err (lit "ducknng: trailing characters after " ++ what ++ lit " JSON")
  end.
End allow_strings.

(** ** The peer allowlist *)

Definition ducknng_json_parse_string : bytes -> result bytes (bytes * bytes) :=
  allow_string true (lit "peer allowlist").

Definition peer_item (item : bytes) : result bytes bytes :=
  match item with
  | [] => Err (lit "ducknng: peer allowlist identities must be non-empty strings")
  | _ => Ok item
  end.

Definition ducknng_peer_allowlist_parse (json : bytes) : result bytes (list bytes * bytes) :=
  allow_array true (lit "peer allowlist") peer_item json.

Definition ducknng_tls_opts_clear_peer_allowlist (opts : ducknng_tls_opts) : ducknng_tls_opts :=
  mk_tls_opts (auth_mode opts) false [] None.

(** The options after the call, and the message of a failure. *)
Definition ducknng_tls_opts_set_peer_allowlist (opts : ducknng_tls_opts)
    (identities_json : option bytes) : ducknng_tls_opts * option bytes :=
  match identities_json with
  | None | Some [] => (ducknng_tls_opts_clear_peer_allowlist opts, None)
  | Some json =>
    match ducknng_peer_allowlist_parse json with
    | Err e => (opts, Some e)
    | Ok (items, copy) => (mk_tls_opts (auth_mode opts) true items (Some copy), None)
    end
  end.

Definition ducknng_tls_opts_peer_allowed (opts : ducknng_tls_opts) (identity : option bytes) : bool :=
  if negb (peer_allowlist_active opts) then true else
  match identity with
  | None | Some [] => false
  | Some identity => existsb (fun item => str_eq item identity) (peer_allowlist opts)
  end.

(** ** The IP allowlist *)

Definition ducknng_json_parse_ascii_string : bytes -> result bytes (bytes * bytes) :=
  allow_string false (lit "IP allowlist").

Fixpoint u8_decimal_loop (s : bytes) (max_value v : Z) : option Z :=
  match s with
  | [] => Some v
  | c :: s =>
    if ((c <? 48) || (57 <? c))%bool then None else
    let v := v * 10 + (c - 48) in
    if max_value <? v then None else u8_decimal_loop s max_value v
  end.

Definition ducknng_parse_u8_decimal (s : bytes) (max_value : Z) : option Z :=
  match s with [] => None | _ => u8_decimal_loop s max_value 0 end.

(** [strchr(text, '/')]: the part before the slash and the part after it. *)
Definition split_slash (text : bytes) : bytes * option bytes := break_at (chr "/") text.

Section ip_rules.
(** [inet_pton(family, host, dst) == 1], with the bytes written to [dst]. *)
Context (inet_pton : ip_family -> bytes -> option bytes).

(** The prefix length of an entry, the whole address without a slash. *)
Definition rule_prefix (slash : option bytes) (width : Z) : option Z :=
  match slash with None => Some width | Some digits => ducknng_parse_u8_decimal digits width end.

Definition ducknng_parse_ip_rule (text : bytes) : result bytes ducknng_ip_allow_rule :=
  match text with
  | [] => Err (lit "ducknng: IP allowlist entries must be non-empty strings")
  | _ =>
    let (host, slash) := split_slash text in
    let host_len := zlen host in
    if ((host_len =? 0) || (128 <=? host_len))%bool
    then Err (lit "ducknng: invalid IP allowlist address") else
    match inet_pton NNG_AF_INET host with
    | Some b =>
      match rule_prefix slash 32 with
      | None => Err (lit "ducknng: invalid IPv4 CIDR prefix in IP allowlist")
      | Some prefix => Ok (mk_rule NNG_AF_INET (write_at (replicate 16 0) 0 b) (u8 prefix))
      end
    | None =>
      match inet_pton NNG_AF_INET6 host with
      | Some b =>
        match rule_prefix slash 128 with
        | None => Err (lit "ducknng: invalid IPv6 CIDR prefix in IP allowlist")
        | Some prefix => Ok (mk_rule NNG_AF_INET6 (write_at (replicate 16 0) 0 b) (u8 prefix))
        end
      | None =>
        Err (lit "ducknng: IP allowlist entries must be IPv4/IPv6 literals or CIDR blocks")
      end
    end
  end.

Definition ducknng_parse_ip_allowlist_json (json : bytes)
    : result bytes (list ducknng_ip_allow_rule * bytes) :=
  allow_array false (lit "IP allowlist") ducknng_parse_ip_rule json.

Definition ducknng_service_clear_ip_allowlist (svc : service_policy) : service_policy :=
  mk_policy (tls_enabled svc) (tls_opts svc) false [] None (authorizer_active svc) (authorizer_sql svc).

(** The service after the call, and the message of a failure. *)
Definition ducknng_service_set_ip_allowlist (svc : service_policy) (cidrs_json : option bytes)
    : service_policy * option bytes :=
  match cidrs_json with
  | None | Some [] => (ducknng_service_clear_ip_allowlist svc, None)
  | Some json =>
    match ducknng_parse_ip_allowlist_json json with
    | Err e => (svc, Some e)
    | Ok (rules, copy) =>
      let svc := ducknng_service_clear_ip_allowlist svc in
      (mk_policy (tls_enabled svc) (tls_opts svc) true rules (Some copy)
         (authorizer_active svc) (authorizer_sql svc), None)
    end
  end.
End ip_rules.

Definition ducknng_ip_rule_matches_bytes (rule : ducknng_ip_allow_rule) (ip : bytes) : bool :=
  let full := prefix_bits rule / 8 in
  let rem := prefix_bits rule mod 8 in
  if ((0 <? full) && negb (str_eq (ztake full (addr rule)) (ztake full ip)))%bool then false else
  if rem =? 0 then true else
  let mask := u8 (Z.shiftl 0xff (8 - rem)) in
  Z.land (byte_at (addr rule) full) mask =? Z.land (byte_at ip full) mask.

Definition ducknng_remote_addr_matches_ip_allowlist (svc : service_policy)
    (remote : option nng_sockaddr) : bool :=
  if negb (ip_allowlist_active svc) then true else
  let any fam ip := existsb (fun rule => bool_decide (family rule = fam) &&
    ducknng_ip_rule_matches_bytes rule ip)%bool (ip_allowlist svc) in
  match remote with
  | Some (s_in a _) => any NNG_AF_INET (write_at (replicate 16 0) 0 (ztake 4 a))
  | Some (s_in6 a _) => any NNG_AF_INET6 (write_at (replicate 16 0) 0 (ztake 16 a))
  | Some _ | None => false
  end.

(** ** The checks; [None] admits, [Some] is the message of the refusal *)

Definition ducknng_service_requires_peer_identity (svc : service_policy) : bool :=
  (tls_enabled svc && (auth_mode (tls_opts svc) =? 2))%bool.

Definition ducknng_service_peer_admission_check (svc : service_policy)
    (caller_identity : option bytes) : option bytes :=
  if (ducknng_service_requires_peer_identity svc && negb (nonempty caller_identity))%bool
  then Some (lit "ducknng: mTLS peer identity is required") else
  if (peer_allowlist_active (tls_opts svc) &&
      negb (ducknng_tls_opts_peer_allowed (tls_opts svc) caller_identity))%bool
  then Some (lit "ducknng: peer identity is not admitted") else None.

Definition ducknng_service_network_admission_check (svc : service_policy)
    (caller_identity : option bytes) (remote_addr : option nng_sockaddr) : option bytes :=
  match ducknng_service_peer_admission_check svc caller_identity with
  | Some e => Some e
  | None =>
    if (ip_allowlist_active svc && negb (ducknng_remote_addr_matches_ip_allowlist svc remote_addr))%bool
    then Some (lit "ducknng: remote address is not admitted") else None
  end.

(** ** The remaining setters *)

Definition ducknng_service_set_peer_allowlist (svc : service_policy) (identities_json : option bytes)
    : service_policy * option bytes :=
  let (opts, e) := ducknng_tls_opts_set_peer_allowlist (tls_opts svc) identities_json in
  (mk_policy (tls_enabled svc) opts (ip_allowlist_active svc) (ip_allowlist svc)
     (ip_allowlist_json svc) (authorizer_active svc) (authorizer_sql svc), e).

Definition ducknng_service_clear_authorizer (svc : service_policy) : service_policy :=
  mk_policy (tls_enabled svc) (tls_opts svc) (ip_allowlist_active svc) (ip_allowlist svc)
    (ip_allowlist_json svc) false None.

Definition ducknng_service_set_authorizer (svc : service_policy) (sql : option bytes) : service_policy :=
  match sql with
  | None | Some [] => ducknng_service_clear_authorizer svc
  | Some sql =>
    mk_policy (tls_enabled svc) (tls_opts svc) (ip_allowlist_active svc) (ip_allowlist svc)
      (ip_allowlist_json svc) true (Some sql)
  end.

(** ** Prefix bits *)

(** Bit [i] of an address, the most significant bit of the first byte first. *)
Definition addr_bit (a : bytes) (i : Z) : bool := Z.testbit (byte_at a (i / 8)) (7 - i mod 8).

Definition same_prefix (n : Z) (a b : bytes) : Prop :=
  forall i, 0 <= i < n -> addr_bit a i = addr_bit b i.

Lemma byte_bits_eq x y : is_byte x -> is_byte y ->
  x = y <-> forall k, 0 <= k < 8 -> Z.testbit x k = Z.testbit y k.
Proof.
  intros Hx Hy. split; [by intros -> |]. intros H. apply Z.bits_inj'. intros k Hk.
  destruct (Z.lt_ge_cases k 8) as [?|Hge]; [by apply H|].
  assert (forall z, is_byte z -> Z.testbit z k = false) as Hz; [|by rewrite !Hz].
  intros z [Hz1 Hz2]. destruct (Z.eq_dec z 0) as [->|]; [apply Z.bits_0|].
  apply Z.bits_above_log2; [done|]. apply Z.log2_lt_pow2; [lia|].
  apply Z.lt_le_trans with (2 ^ 8); [lia|]. apply Z.pow_le_mono_r; lia.
Qed.

Lemma mask_bit rem k : 0 < rem < 8 -> 0 <= k < 8 ->
  Z.testbit (u8 (Z.shiftl 0xff (8 - rem))) k = (8 - rem <=? k).
Proof.
  intros Hr Hk. unfold u8. change 256 with (2 ^ 8).
  rewrite Z.mod_pow2_bits_low by lia. rewrite Z.shiftl_spec by lia.
  change 255 with (Z.ones 8). destruct (Z.leb_spec (8 - rem) k).
  - apply Z.ones_spec_low. lia.
  - apply Z.testbit_neg_r. lia.
Qed.

Lemma land_byte x m : is_byte x -> is_byte (Z.land x m).
Proof.
  intros [H1 H2]. split; [apply Z.land_nonneg; by left|].
  destruct (Z.eq_dec (Z.land x m) 0) as [->|Hne]; [lia|].
  assert (0 <= Z.land x m) by (apply Z.land_nonneg; by left).
  apply (Z.log2_lt_pow2 _ 8); [lia|].
  destruct (Z.eq_dec x 0) as [->|]; [by rewrite Z.land_0_l in Hne|].
  destruct (Z.lt_ge_cases (Z.log2 (Z.land x m)) 8) as [?|Hge]; [done|]. exfalso.
  assert (Z.testbit (Z.land x m) (Z.log2 (Z.land x m)) = true) as Hb by (apply Z.bit_log2; lia).
  rewrite Z.land_spec, andb_true_iff in Hb. destruct Hb as [Hb _].
  rewrite Z.bits_above_log2 in Hb; [done|lia|].
  apply Z.lt_le_trans with 8; [|done]. apply Z.log2_lt_pow2; lia.
Qed.

Lemma masked_eq x y rem : is_byte x -> is_byte y -> 0 < rem < 8 ->
  let mask := u8 (Z.shiftl 0xff (8 - rem)) in
  Z.land x mask = Z.land y mask <->
  forall j, 0 <= j < rem -> Z.testbit x (7 - j) = Z.testbit y (7 - j).
Proof.
  intros Hx Hy Hr mask. rewrite byte_bits_eq by by apply land_byte. split.
  - intros H j Hj. specialize (H (7 - j) ltac:(lia)). unfold mask in H.
    rewrite !Z.land_spec, !mask_bit in H by lia.
    destruct (Z.leb_spec (8 - rem) (7 - j)); [|lia]. by rewrite !andb_true_r in H.
  - intros H k Hk. unfold mask. rewrite !Z.land_spec, !mask_bit by lia.
    destruct (Z.leb_spec (8 - rem) k); [|by rewrite !andb_false_r].
    rewrite !andb_true_r. specialize (H (7 - k) ltac:(lia)). by replace (7 - (7 - k)) with k in H by lia.
Qed.

Lemma ztake_eq_bytes n (a b : bytes) : 0 <= n <= zlen a -> zlen a = zlen b ->
  ztake n a = ztake n b <-> forall j, 0 <= j < n -> byte_at a j = byte_at b j.
Proof.
  intros Hn Hl. unfold byte_at, ztake. split.
  - intros H j Hj. rewrite <- (lookup_take_lt a (Z.to_nat n)) by lia.
    rewrite <- (lookup_take_lt b (Z.to_nat n)) by lia. by rewrite H.
  - intros H. apply list_eq. intros i. destruct (decide (i < Z.to_nat n)%nat) as [Hi|Hi].
    + rewrite !lookup_take_lt by done. specialize (H (Z.of_nat i) ltac:(lia)). rewrite Nat2Z.id in H.
      unfold zlen in *. destruct (lookup_lt_is_Some_2 a i) as [x Hx]; [lia|].
      destruct (lookup_lt_is_Some_2 b i) as [y Hy]; [lia|]. rewrite Hx, Hy in *. simpl in H. by subst.
    + by rewrite !lookup_take_ge by lia.
Qed.

Lemma same_prefix_split n a b : 0 <= n -> all_bytes a -> all_bytes b ->
  same_prefix n a b <->
  (forall j, 0 <= j < n / 8 -> byte_at a j = byte_at b j) /\
  (forall j, 0 <= j < n mod 8 -> Z.testbit (byte_at a (n / 8)) (7 - j) = Z.testbit (byte_at b (n / 8)) (7 - j)).
Proof.
  intros Hn Ha Hb. pose proof (Z.mod_pos_bound n 8 eq_refl) as Hm. pose proof (Z.div_mod n 8 ltac:(lia)) as Hd.
  assert (forall j k, 0 <= k < 8 -> (8 * j + k) / 8 = j /\ (8 * j + k) mod 8 = k) as Hjk.
  { intros j k Hk. split; [symmetry; apply (Z.div_unique _ _ _ k); lia|symmetry; apply (Z.mod_unique _ _ j); lia]. }
  split.
  - intros H. split.
    + intros j Hj. apply byte_bits_eq; [by apply byte_at_byte..|]. intros k Hk.
      specialize (H (8 * j + (7 - k)) ltac:(lia)). unfold addr_bit in H.
      destruct (Hjk j (7 - k) ltac:(lia)) as [E1 E2]. rewrite E1, E2 in H. by replace (7 - (7 - k)) with k in H by lia.
    + intros j Hj. specialize (H (8 * (n / 8) + j) ltac:(lia)). unfold addr_bit in H.
      destruct (Hjk (n / 8) j ltac:(lia)) as [E1 E2]. by rewrite E1, E2 in H.
  - intros [H1 H2] i Hi. unfold addr_bit. pose proof (Z.mod_pos_bound i 8 eq_refl).
    pose proof (Z.div_mod i 8 ltac:(lia)).
    destruct (Z.lt_ge_cases (i / 8) (n / 8)) as [Hlt|Hge].
    + rewrite H1; [done|]. split; [apply Z.div_pos; lia|done].
    + replace (i / 8) with (n / 8) by lia. apply H2. lia.
Qed.

Lemma ip_rule_matches_spec rule ip :
  zlen (addr rule) = 16 -> zlen ip = 16 -> all_bytes (addr rule) -> all_bytes ip ->
  0 <= prefix_bits rule <= 128 ->
  ducknng_ip_rule_matches_bytes rule ip = true <-> same_prefix (prefix_bits rule) (addr rule) ip.
Proof.
  intros Hl1 Hl2 Hb1 Hb2 Hp. rewrite same_prefix_split by (done || lia).
  unfold ducknng_ip_rule_matches_bytes. set (full := prefix_bits rule / 8). set (rem := prefix_bits rule mod 8).
  assert (0 <= full <= 16) as Hf.
  { unfold full. split; [apply Z.div_pos; lia|]. apply Z.div_le_upper_bound; lia. }
  pose proof (Z.mod_pos_bound (prefix_bits rule) 8 eq_refl) as Hr. fold rem in Hr.
  rewrite <- ztake_eq_bytes by lia.
  assert (((0 <? full) && negb (str_eq (ztake full (addr rule)) (ztake full ip)))%bool = false <->
    ztake full (addr rule) = ztake full ip) as Ht.
  { rewrite andb_false_iff, negb_false_iff, str_eq_true, Z.ltb_ge. split; [|auto].
    intros [H|H]; [|done]. by replace full with 0 by lia. }
  destruct (_ && _)%bool eqn:E1.
  { split; [done|]. intros [H _]. apply Ht in H. congruence. }
  pose proof (proj1 Ht eq_refl) as Heq. destruct (Z.eqb_spec rem 0) as [E0|Hne].
  { split; [|done]. intros _. split; [done|]. lia. }
  rewrite Z.eqb_eq, masked_eq by (by apply byte_at_byte || lia). naive_solver.
Qed.

(** ** Rendered allowlists *)

Definition blank (c : Z) : Prop := c = 32 \/ c = 9 \/ c = 13 \/ c = 10.

Lemma skip_ws_pad pad c rest : Forall blank pad -> ~ blank c ->
  ducknng_json_skip_ws (pad ++ c :: rest) = c :: rest.
Proof.
  intros Hp Hc. induction Hp as [|d pad Hd Hp IH]; cbn [app ducknng_json_skip_ws].
  - unfold blank in Hc. by rewrite !(proj2 (Z.eqb_neq _ _)) by tauto.
  - by destruct Hd as [->|[->|[->| ->]]].
Qed.

Lemma skip_ws_pad_end pad : Forall blank pad -> ducknng_json_skip_ws pad = [].
Proof.
  induction 1 as [|d pad Hd Hp IH]; [done|]. cbn [ducknng_json_skip_ws].
  by destruct Hd as [->|[->|[->| ->]]].
Qed.

Section rendered.
Context (esc : Z -> bytes) (pad : bytes).

(** Text both scanners can be given: every character is written as itself or
    with a one-letter escape. *)
Definition entry_ok (s : bytes) : Prop :=
  Forall (fun c => (esc c = [c] /\ 0x20 <= c /\ c <> QUOTE /\ c <> BACKSLASH) \/
    (exists e, esc c = [BACKSLASH; e] /\ simple_escape e = Some c)) s.

(** An array with [pad] around every token. *)
Definition padded (t : bytes) : bytes := pad ++ json_quote esc t ++ pad.
Definition render_allowlist (texts : list bytes) : bytes :=
  pad ++ lit "[" ++ (match texts with [] => pad | _ => join (lit ",") (padded <$> texts) end) ++ lit "]" ++ pad.

Context (unicode : bool) (what : bytes) (Hpad : Forall blank pad).

Lemma allow_string_quote s rest : entry_ok s ->
  allow_string unicode what (json_quote esc s ++ rest) = Ok (s, rest).
Proof.
  intros Hs. unfold json_quote. cbn [app allow_string]. rewrite Z.eqb_refl.
  assert (forall out, allow_string_loop unicode what (((s ≫= esc) ++ [QUOTE]) ++ rest) out = Ok (out ++ s, rest))
    as Hl; [|by rewrite Hl].
  induction Hs as [|c s Hc Hs IH]; intros out.
  { cbn [mbind list_bind app allow_string_loop]. by rewrite Z.eqb_refl, app_nil_r. }
  rewrite bind_cons, <- !app_assoc. rewrite <- !app_assoc in IH.
  destruct Hc as [(-> & H1 & H2 & H3)|(e & -> & He)]; cbn [app allow_string_loop].
  - rewrite (proj2 (Z.eqb_neq _ _) H2), (proj2 (Z.eqb_neq _ _) H3), (proj2 (Z.ltb_ge _ _) H1).
    rewrite IH. by rewrite <- app_assoc.
  - change (BACKSLASH =? QUOTE) with false. rewrite Z.eqb_refl, He, IH. by rewrite <- app_assoc.
Qed.

Lemma quote_head s rest : exists tl, json_quote esc s ++ rest = QUOTE :: tl.
Proof. unfold json_quote. by eexists. Qed.

Context {A : Type} (item : bytes -> result bytes A).

Lemma allow_loop_rendered texts entries fuel acc rest :
  Forall2 (fun t e => entry_ok t /\ item t = Ok e) texts entries -> texts <> [] ->
  (length texts <= fuel)%nat ->
  allow_array_loop unicode what item fuel (join (lit ",") (padded <$> texts) ++ lit "]" ++ rest) acc =
  Ok (acc ++ entries, rest).
Proof.
  intros Hf. revert fuel acc. induction Hf as [|t e texts entries [Ht He] Hf IH]; [done|].
  intros fuel acc _ Hfuel. destruct fuel as [|fuel]; [simpl in Hfuel; lia|].
  assert (exists d tl, (d = chr "," /\ texts <> [] /\ tl = join (lit ",") (padded <$> texts) ++ lit "]" ++ rest \/
      d = chr "]" /\ texts = [] /\ tl = rest) /\
    join (lit ",") (padded <$> t :: texts) ++ lit "]" ++ rest = pad ++ json_quote esc t ++ pad ++ d :: tl)
    as (d & tl & Hd & ->).
  { destruct texts as [|t2 texts].
    - exists (chr "]"), rest. split; [by right|]. cbn [fmap list_fmap join]. unfold padded. by rewrite <- !app_assoc.
    - exists (chr ","), (join (lit ",") (padded <$> t2 :: texts) ++ lit "]" ++ rest). split; [by left|].
      rewrite !fmap_cons, join_cons. unfold padded at 1. by rewrite <- !app_assoc. }
  cbn [allow_array_loop]. destruct (quote_head t (pad ++ d :: tl)) as [q Hq].
  rewrite Hq, skip_ws_pad, <- Hq by (done || (unfold blank, QUOTE; lia)).
  rewrite allow_string_quote by done. cbn [res_bind]. rewrite He. cbn [res_bind].
  rewrite skip_ws_pad; [|done|destruct Hd as [[-> _]|[-> _]]; vm_compute; lia].
  cbn [cur]. rewrite zdrop_1. destruct Hd as [(-> & Hne & ->)|(-> & -> & ->)].
  - rewrite Z.eqb_refl, IH by (done || (simpl in Hfuel; lia)). by rewrite <- app_assoc.
  - change (chr "]" =? chr ",") with false. rewrite Z.eqb_refl. inversion Hf; subst. by rewrite <- ?app_assoc.
Qed.

Lemma padded_length texts : texts <> [] ->
  (length texts + length pad <= length (join (lit ",") (padded <$> texts)))%nat.
Proof.
  induction texts as [|t texts IH]; [done|]. intros _.
  assert (2 + length pad + length pad <= length (padded t))%nat as Ht.
  { unfold padded, json_quote. rewrite !length_app. simpl. rewrite length_app. simpl. lia. }
  destruct texts as [|t2 texts]; [cbn [fmap list_fmap join]; simpl; lia|].
  rewrite !fmap_cons, join_cons, !length_app. specialize (IH ltac:(done)). rewrite fmap_cons in IH.
  simpl length at 1. simpl length at 1 in IH. lia.
Qed.

Lemma allow_array_rendered texts entries :
  Forall2 (fun t e => entry_ok t /\ item t = Ok e) texts entries ->
  allow_array unicode what item (render_allowlist texts) = Ok (entries, render_allowlist texts).
Proof.
  intros Hf. unfold allow_array. set (json := render_allowlist texts).
  assert (ducknng_json_skip_ws json = chr "[" :: (match texts with [] => pad | _ => join (lit ",") (padded <$> texts) end)
    ++ lit "]" ++ pad) as ->.
  { apply skip_ws_pad; [done|]. vm_compute. lia. }
  cbn [cur]. rewrite Z.eqb_refl. cbn [negb]. rewrite zdrop_1. destruct texts as [|t texts].
  - change (lit "]" ++ pad) with (chr "]" :: pad). rewrite (skip_ws_pad pad (chr "]") pad) by (done || (vm_compute; lia)). cbn [cur].
    rewrite Z.eqb_refl, zdrop_1. cbn [res_bind]. rewrite skip_ws_pad_end by done. by inversion Hf.
  - set (p := ducknng_json_skip_ws _).
    assert (exists q, p = QUOTE :: q /\ p = ducknng_json_skip_ws p /\
      pad ++ p = join (lit ",") (padded <$> t :: texts) ++ lit "]" ++ pad) as (q & Hq & Hp & Hj).
    { destruct (join_head (lit ",") (padded t) (padded <$> texts) (lit "]" ++ pad)) as [tl Htl].
      change (padded t :: (padded <$> texts)) with (padded <$> t :: texts) in Htl.
      unfold p. rewrite Htl. unfold padded. rewrite <- !app_assoc. destruct (quote_head t (pad ++ tl)) as [q Hq].
      exists q. rewrite Hq, skip_ws_pad by (done || (unfold blank, QUOTE; lia)). split; [done|].
      split; [by rewrite skip_ws_stop|done]. }
    rewrite Hq at 1. change (cur (QUOTE :: q) =? chr "]") with false. cbv iota.
    assert (forall fuel acc, allow_array_loop unicode what item fuel p acc =
      allow_array_loop unicode what item fuel (pad ++ p) acc) as Hpp.
    { intros [|fuel] acc; [done|]. cbn [allow_array_loop]. rewrite <- Hp.
      rewrite Hq, skip_ws_pad by (done || (unfold blank, QUOTE; lia)). done. }
    rewrite Hpp, Hj, (allow_loop_rendered _ entries); [|done|done|].
    + cbn [res_bind]. by rewrite skip_ws_pad_end.
    + pose proof (padded_length (t :: texts) ltac:(done)) as Hl.
      apply (f_equal length) in Hj. rewrite !length_app in Hj.
      change (length (lit "]")) with 1%nat in Hj. lia.
Qed.
End rendered.

(** ** CIDR entries *)

Definition width (fam : ip_family) : Z := match fam with NNG_AF_INET => 32 | NNG_AF_INET6 => 128 end.

(** The decimal spelling of a prefix length. *)
Definition decimal (n : Z) : bytes :=
  (if 100 <=? n then [48 + n / 100] else []) ++ (if 10 <=? n then [48 + n / 10 mod 10] else []) ++ [48 + n mod 10].

Lemma decimal_parses n fam : 0 <= n <= width fam ->
  ducknng_parse_u8_decimal (decimal n) (width fam) = Some n.
Proof.
  intros Hn. assert (is_byte n) as Hb by (destruct fam; simpl in Hn; unfold is_byte; lia).
  pose (ok := fun fam n => implb (n <=? width fam)
    (bool_decide (ducknng_parse_u8_decimal (decimal n) (width fam) = Some n))).
  assert (forall fam, ok fam n = true) as H.
  { intros fam'. apply (byte_forall (ok fam')); [destruct fam'; by vm_compute|done]. }
  specialize (H fam). unfold ok in H. rewrite (proj2 (Z.leb_le _ _)) in H by lia. by apply bool_decide_eq_true in H.
Qed.

(** A block: its address as text and as bytes, and the length after the slash. *)
Record cidr := mk_cidr { c_family : ip_family; c_host : bytes; c_addr : bytes; c_slash : option Z }.

Definition c_prefix (c : cidr) : Z := default (width (c_family c)) (c_slash c).
Definition cidr_text (c : cidr) : bytes :=
  c_host c ++ match c_slash c with Some n => lit "/" ++ decimal n | None => [] end.

(** What an address of a family looks like on the socket. *)
Definition remote_of (fam : ip_family) (a : bytes) (port : Z) : nng_sockaddr :=
  match fam with NNG_AF_INET => s_in a port | NNG_AF_INET6 => s_in6 a port end.
Definition remote_ok (r : nng_sockaddr) : Prop :=
  match r with
  | s_in a _ => zlen a = 4 /\ all_bytes a
  | s_in6 a _ => zlen a = 16 /\ all_bytes a
  | _ => True
  end.

Section cidrs.
Context (inet_pton : ip_family -> bytes -> option bytes).

(** [inet_pton] fills an [in_addr] or an [in6_addr]. *)
Definition pton_fills : Prop := forall fam host b,
  inet_pton fam host = Some b -> zlen b = width fam / 8 /\ all_bytes b.

Record cidr_ok (c : cidr) : Prop := {
  ok_host : 0 < zlen (c_host c) < 128;
  ok_slash : chr "/" ∉ c_host c;
  ok_addr : inet_pton (c_family c) (c_host c) = Some (c_addr c);
  ok_v4 : c_family c = NNG_AF_INET6 -> inet_pton NNG_AF_INET (c_host c) = None;
  ok_prefix : 0 <= c_prefix c <= width (c_family c) }.

Definition padded_addr (a : bytes) : bytes := write_at (replicate 16 0) 0 a.
Definition rule_of (c : cidr) : ducknng_ip_allow_rule :=
  mk_rule (c_family c) (padded_addr (c_addr c)) (c_prefix c).

Lemma parse_ip_rule_cidr c : cidr_ok c ->
  ducknng_parse_ip_rule inet_pton (cidr_text c) = Ok (rule_of c).
Proof.
  intros [Hh Hs Ha H4 Hp]. unfold ducknng_parse_ip_rule.
  destruct (cidr_text c) as [|x text] eqn:Et.
  { apply (f_equal zlen) in Et. unfold cidr_text in Et. rewrite zlen_app, zlen_nil in Et.
    pose proof (zlen_nonneg (match c_slash c with Some n => lit "/" ++ decimal n | None => [] end)). lia. }
  rewrite <- Et. clear x text Et.
  assert (split_slash (cidr_text c) = (c_host c, decimal <$> c_slash c)) as ->.
  { unfold split_slash, cidr_text. destruct (c_slash c); cbn [fmap option_fmap option_map].
    - by apply break_at_skip.
    - rewrite app_nil_r. by apply break_at_none. }
  rewrite (proj2 (Z.eqb_neq _ _)), (proj2 (Z.leb_gt _ _)) by lia. cbn [orb].
  assert (forall fam, fam = c_family c -> rule_prefix (decimal <$> c_slash c) (width fam) = Some (c_prefix c)) as Hr.
  { intros fam ->. unfold rule_prefix, c_prefix in *. destruct (c_slash c); [|done]. cbn. by apply decimal_parses. }
  assert (u8 (c_prefix c) = c_prefix c) as Hu.
  { apply u8_small. destruct (c_family c); simpl in Hp; unfold is_byte; lia. }
  unfold rule_of. destruct (c_family c).
  - rewrite Ha. change 32 with (width NNG_AF_INET). by rewrite Hr, Hu.
  - rewrite (H4 eq_refl), Ha. change 128 with (width NNG_AF_INET6). by rewrite Hr, Hu.
Qed.

Lemma padded_addr_ok a : all_bytes a -> zlen a <= 16 -> zlen (padded_addr a) = 16 /\ all_bytes (padded_addr a).
Proof.
  intros Ha Hl. unfold padded_addr. split.
  - by rewrite zlen_write_at.
  - unfold write_at. rewrite !Forall_app. repeat split; [done|done|].
    apply Forall_drop, Forall_replicate. unfold is_byte. lia.
Qed.

Lemma padded_addr_prefix n a b : n <= 8 * zlen a -> zlen a = zlen b -> zlen a <= 16 ->
  same_prefix n (padded_addr a) (padded_addr b) <-> same_prefix n a b.
Proof.
  intros Hn Hl H16.
  assert (forall c i, zlen c = zlen a -> 0 <= i < n -> addr_bit (padded_addr c) i = addr_bit c i) as Hc.
  { intros c i Hz Hi. unfold addr_bit. f_equal. unfold padded_addr, write_at.
    change (ztake 0 (replicate 16 0)) with (@nil Z). cbn [app]. apply byte_at_app_l.
    split; [apply Z.div_pos; lia|]. apply Z.div_lt_upper_bound; lia. }
  split; intros H i Hi; specialize (H i Hi); by rewrite ?Hc in * by done.
Qed.

Context (Hpton : pton_fills).

Lemma rule_matches_cidr c a : cidr_ok c -> zlen a = width (c_family c) / 8 -> all_bytes a ->
  ducknng_ip_rule_matches_bytes (rule_of c) (padded_addr a) = true <-> same_prefix (c_prefix c) (c_addr c) a.
Proof.
  intros Hc Hl Hb. destruct (Hpton _ _ _ (ok_addr _ Hc)) as [Hl' Hb'].
  pose proof (ok_prefix _ Hc) as Hp.
  assert (width (c_family c) / 8 <= 16 /\ width (c_family c) = 8 * (width (c_family c) / 8) /\
    width (c_family c) <= 128) as (H1 & H2 & H3) by (destruct (c_family c); vm_compute; intuition congruence).
  rewrite ip_rule_matches_spec; simpl; [|by apply padded_addr_ok; [|lia]..|lia].
  apply padded_addr_prefix; lia.
Qed.

Lemma remote_matches cidrs svc remote :
  Forall cidr_ok cidrs -> from_option remote_ok True remote ->
  ip_allowlist_active svc = true -> ip_allowlist svc = rule_of <$> cidrs ->
  ducknng_remote_addr_matches_ip_allowlist svc remote = true <->
  exists c a port, c ∈ cidrs /\ remote = Some (remote_of (c_family c) a port) /\ same_prefix (c_prefix c) (c_addr c) a.
Proof.
  intros Hc Hr Ha Hl. unfold ducknng_remote_addr_matches_ip_allowlist. rewrite Ha, Hl. cbn [negb].
  assert (forall fam a, zlen a = width fam / 8 -> all_bytes a ->
    existsb (fun rule => bool_decide (family rule = fam) && ducknng_ip_rule_matches_bytes rule (padded_addr a))%bool
      (rule_of <$> cidrs) = true <->
    exists c, c ∈ cidrs /\ fam = c_family c /\ same_prefix (c_prefix c) (c_addr c) a) as Hany.
  { intros fam a Hz Hb. rewrite existsb_exists. setoid_rewrite <- list_elem_of_In.
    setoid_rewrite list_elem_of_fmap. setoid_rewrite andb_true_iff. setoid_rewrite bool_decide_eq_true. split.
    - intros (? & (c & -> & Hin) & Hf & Hm). cbn in Hf. subst fam. exists c. split; [done|]. split; [done|].
      rewrite Forall_forall in Hc. by apply rule_matches_cidr; [apply Hc|..].
    - intros (c & Hin & -> & Hs). exists (rule_of c). split; [by exists c|]. split; [done|].
      rewrite Forall_forall in Hc. by apply rule_matches_cidr; [apply Hc|..]. }
  destruct remote as [[a port|a port| | | ]|]; cbn in Hr.
  - destruct Hr as [Hz Hb]. rewrite <- Hz, ztake_all. fold (padded_addr a). rewrite Hany by done.
    split; [intros (c & Hi & Hf & Hs); exists c, a, port; by rewrite <- Hf|].
    intros (c & a' & port' & Hi & He & Hs). exists c. destruct (c_family c); by inversion He; subst.
  - destruct Hr as [Hz Hb]. rewrite <- Hz, ztake_all. fold (padded_addr a). rewrite Hany by done.
    split; [intros (c & Hi & Hf & Hs); exists c, a, port; by rewrite <- Hf|].
    intros (c & a' & port' & Hi & He & Hs). exists c. destruct (c_family c); by inversion He; subst.
  - split; [done|]. intros (c & a & port & _ & He & _). by destruct (c_family c).
  - split; [done|]. intros (c & a & port & _ & He & _). by destruct (c_family c).
  - split; [done|]. intros (c & a & port & _ & He & _). by destruct (c_family c).
  - split; [done|]. by intros (c & a & port & _ & He & _).
Qed.
End cidrs.

(** ** Every text gets an answer *)

Lemma allow_string_loop_shrinks unicode what s out :
  match allow_string_loop unicode what s out with
  | Ok (_, rest) => (length rest <= length s)%nat
  | Err e => own_error e
  end.
Proof.
  remember (length s) as n eqn:Hn. assert (length s <= n)%nat as Hle by lia. clear Hn.
  revert s out Hle. induction n as [|n IH]; intros [|ch s] out Hle; try (simpl in Hle; lia); try done.
  simpl in Hle. cbn [allow_string_loop].
  assert (forall s' out', (length s' <= n)%nat -> match allow_string_loop unicode what s' out' with
    | Ok (_, rest) => (length rest <= S n)%nat | Err e => own_error e end) as Hs.
  { intros s' out' Hs'. specialize (IH s' out' Hs'). destruct (allow_string_loop _ _ _ _) as [[]|]; [lia|done]. }
  destruct (ch =? QUOTE); [lia|]. destruct (ch =? BACKSLASH).
  - destruct s as [|esc s]; [done|]. simpl in Hle. destruct (simple_escape esc); [apply Hs; lia|].
    destruct (_ && _)%bool; [|done]. destruct s as [|c0 [|c1 [|c2 [|c3 s]]]]; try done. simpl in Hle.
    destruct (_ || _)%bool; [done|]. destruct (_ =? 0); [done|]. apply Hs. lia.
  - destruct (ch <? 32); [done|]. apply Hs. lia.
Qed.

Lemma allow_string_shrinks unicode what p :
  match allow_string unicode what p with
  | Ok (_, rest) => (length rest < length p)%nat
  | Err e => own_error e
  end.
Proof.
  destruct p as [|c s]; [done|]. cbn [allow_string]. destruct (c =? QUOTE); [|done].
  pose proof (allow_string_loop_shrinks unicode what s []). destruct (allow_string_loop _ _ _ _) as [[]|]; simpl; [lia|done].
Qed.

Lemma allow_loop_answers {A} unicode what (item : bytes -> result bytes A) fuel p acc :
  (forall t, answered (item t)) -> (length p < fuel)%nat ->
  answered (allow_array_loop unicode what item fuel p acc).
Proof.
  intros Hi. revert p acc. induction fuel as [|fuel IH]; intros p acc Hf; [lia|]. cbn [allow_array_loop].
  pose proof (skip_ws_shrinks p) as H1. pose proof (allow_string_shrinks unicode what (ducknng_json_skip_ws p)) as H2.
  destruct (allow_string _ _ _) as [[t q]|]; [|done]. cbn [res_bind]. specialize (Hi t).
  destruct (item t); [|done]. cbn [res_bind]. pose proof (skip_ws_shrinks q) as H3.
  pose proof (zdrop1_shrinks (ducknng_json_skip_ws q)) as H4.
  destruct (_ =? _); [apply IH; lia|]. by destruct (_ =? _).
Qed.

Lemma allow_array_answers {A} unicode what (item : bytes -> result bytes A) json :
  (forall t, answered (item t)) -> answered (allow_array unicode what item json).
Proof.
  intros Hi. unfold allow_array. destruct (negb _); [done|]. apply answered_bind.
  - destruct (_ =? _); [done|]. by apply allow_loop_answers; [|lia].
  - intros [entries q] _. by destruct (ducknng_json_skip_ws q).
Qed.

Lemma peer_item_answers t : answered (peer_item t).
Proof. by destruct t. Qed.

Lemma ip_rule_answers inet_pton t : answered (ducknng_parse_ip_rule inet_pton t).
Proof.
  unfold ducknng_parse_ip_rule. destruct t; [done|]. destruct (split_slash _) as [host slash].
  destruct (_ || _)%bool; [done|]. destruct (inet_pton _ _); [by destruct (rule_prefix _ _)|].
  destruct (inet_pton _ _); [by destruct (rule_prefix _ _)|done].
Qed.

(** ** Claims *)


(** Peer admission is exact.  After installing the peer allowlist
    written as any JSON array of non-empty identities, a caller is admitted
    iff its verified identity is one of them, whether or not the service
    also demands mutual TLS. *)
Theorem peer_allowlist_admits esc pad svc ids
  (Hpad : Forall blank pad) (Hids : Forall (fun i => i <> [] /\ entry_ok esc i) ids) :
  let (svc', e) := ducknng_service_set_peer_allowlist svc (Some (render_allowlist esc pad ids)) in
  e = None /\
  forall identity, ducknng_service_peer_admission_check svc' identity = None <->
    exists i, identity = Some i /\ i ∈ ids.
Proof.
  unfold ducknng_service_set_peer_allowlist, ducknng_tls_opts_set_peer_allowlist.
  set (json := render_allowlist esc pad ids).
  assert (ducknng_peer_allowlist_parse json = Ok (ids, json)) as ->.
  { apply allow_array_rendered; [done|]. apply Forall_Forall2_diag. eapply Forall_impl; [exact Hids|].
    intros i [H1 H2]. split; [done|]. by destruct i. }
  assert (json <> []) as Hne by by destruct pad. clearbody json. destruct json as [|x json]; [done|]. split; [done|]. intros identity.
  unfold ducknng_service_peer_admission_check. cbn [tls_opts peer_allowlist_active].
  unfold ducknng_tls_opts_peer_allowed. cbn [peer_allowlist_active peer_allowlist negb andb].
  destruct identity as [[|y i]|]; cbn [nonempty negb].
  - rewrite andb_true_r. rewrite Forall_forall in Hids.
    destruct (ducknng_service_requires_peer_identity _); (split; [done|]);
      intros (i & [= <-] & Hi); by destruct (Hids [] Hi).
  - rewrite andb_false_r. destruct (existsb _ ids) eqn:E; cbn [negb].
    + split; [|done]. intros _. exists (y :: i). split; [done|].
      apply existsb_exists in E as (z & Hz & He). apply str_eq_true in He as ->. by apply list_elem_of_In.
    + split; [done|]. intros (z & [= <-] & Hz). rewrite <- not_true_iff_false, existsb_exists in E.
      destruct E. exists (y :: i). split; [by apply list_elem_of_In|apply str_eq_refl].
  - rewrite andb_true_r. destruct (ducknng_service_requires_peer_identity _); (split; [done|]); naive_solver.
Qed.

(** Installing an allowlist is all or nothing.  For every text, either
    the list is replaced, or the policy of the service is exactly what it was
    and the message is one of the program's own (the scanners never run
    dry). *)
Theorem allowlist_set_atomic inet_pton svc json :
  (let (svc', e) := ducknng_service_set_ip_allowlist inet_pton svc json in
   match e with
   | Some e => svc' = svc /\ own_error e
   | None => ip_allowlist_active svc' = nonempty json /\ tls_opts svc' = tls_opts svc
   end) /\
  (let (svc', e) := ducknng_service_set_peer_allowlist svc json in
   match e with
   | Some e => svc' = svc /\ own_error e
   | None => peer_allowlist_active (tls_opts svc') = nonempty json /\
       ip_allowlist svc' = ip_allowlist svc
   end).
Proof.
  split.
  - unfold ducknng_service_set_ip_allowlist. destruct json as [[|c json]|]; try done.
    pose proof (allow_array_answers false (lit "IP allowlist") (ducknng_parse_ip_rule inet_pton) (c :: json)
      (ip_rule_answers inet_pton)) as H. fold (ducknng_parse_ip_allowlist_json inet_pton (c :: json)) in H.
    by destruct (ducknng_parse_ip_allowlist_json inet_pton (c :: json)) as [[rules copy]|e].
  - unfold ducknng_service_set_peer_allowlist, ducknng_tls_opts_set_peer_allowlist.
    destruct json as [[|c json]|]; try done.
    pose proof (allow_array_answers true (lit "peer allowlist") peer_item (c :: json) peer_item_answers) as H.
    fold (ducknng_peer_allowlist_parse (c :: json)) in H.
    destruct (ducknng_peer_allowlist_parse (c :: json)) as [[rules copy]|e]; [done|]. split; [by destruct svc|done].
Qed.

(** A resolver that knows two addresses. *)
Definition demo_pton (fam : ip_family) (host : bytes) : option bytes :=
  match fam with
  | NNG_AF_INET => if str_eq host (lit "10.1.2.3") then Some [10; 1; 2; 3] else None
  | NNG_AF_INET6 => if str_eq host (lit "::1") then Some (replicate 15 0 ++ [1]) else None
  end.

Definition demo_policy : service_policy :=
  mk_policy true (mk_tls_opts 0 false [] None) false [] None false None.

Definition demo_cidrs : list cidr :=
  [mk_cidr NNG_AF_INET (lit "10.1.2.3") [10; 1; 2; 3] (Some 12);
   mk_cidr NNG_AF_INET6 (lit "::1") (replicate 15 0 ++ [1]) None].

(** The slash may be written with its escape. *)
Definition demo_esc (c : Z) : bytes := if c =? chr "/" then [BACKSLASH; c] else [c].

Lemma demo_entry s : forallb (fun c => (0x20 <=? c) && negb (c =? QUOTE) && negb (c =? BACKSLASH))%bool s = true ->
  entry_ok demo_esc s.
Proof.
  rewrite forallb_forall. intros H. apply Forall_forall. intros c Hc.
  specialize (H c (proj1 (list_elem_of_In _ _) Hc)). unfold demo_esc.
  destruct (Z.eqb_spec c (chr "/")) as [->|]; [right; by exists (chr "/")|left].
  rewrite !andb_true_iff, !negb_true_iff, Z.leb_le, !Z.eqb_neq in H. tauto.
Qed.


Lemma peer_allowlist_admits_witness :
  let (svc', e) := ducknng_service_set_peer_allowlist demo_policy
    (Some (render_allowlist demo_esc [32] [lit "spiffe://a"])) in
  e = None /\ ducknng_service_peer_admission_check svc' (Some (lit "spiffe://a")) = None.
Proof.
  pose proof (peer_allowlist_admits demo_esc [32] demo_policy [lit "spiffe://a"] ltac:(repeat constructor)
    ltac:(apply Forall_singleton; split; [discriminate|apply demo_entry; reflexivity])) as H.
  destruct (ducknng_service_set_peer_allowlist _ _) as [svc' e]. destruct H as [He H].
  split; [exact He|]. apply H. exists (lit "spiffe://a"). split; [reflexivity|left].
Defined.
