(* ===== verification/Pipes.v ===== *)
(** The pipe monitor of a service: the event ring, the table of active pipes
    and the admission callback of [src/src/ducknng_service.c].

    [inet_ntop] of the C library is a parameter.  Allocation failures are not
    modelled.  A callback appends one event under the service mutex, so it is
    one step. *)

From stdpp Require Import pretty gmap.
From S2P Require Import Prelude Ring Util Peers Admission.

(** ** Data *)

Inductive nng_pipe_ev := NNG_PIPE_EV_ADD_PRE | NNG_PIPE_EV_ADD_POST | NNG_PIPE_EV_REM_POST | pipe_ev_other.
#[export] Instance nng_pipe_ev_eq_dec : EqDecision nng_pipe_ev.
Proof. solve_decision. Defined.

(** The text of an address with its IP and port, as far as it has them. *)
Record remote_text := mk_remote { remote_addr : option bytes; remote_ip : option bytes; remote_port : Z }.

Record ducknng_pipe_event := mk_event {
  ev_seq : Z; ev_ts_ms : Z; ev_pipe_id : Z; ev_event : option bytes; ev_admitted : Z;
  ev_reason : option bytes; ev_remote : remote_text; ev_peer_identity : option bytes }.

Record ducknng_pipe_state := mk_pipe {
  pipe_id : Z; opened_ms : Z; ps_remote : remote_text; ps_peer_identity : option bytes }.

Record pipe_log := mk_log {
  pipe_events : list ducknng_pipe_event;   (* pipe_event_cap entries, none before the first event *)
  pipe_event_start : Z; pipe_event_count : Z; pipe_event_dropped : Z; next_pipe_event_seq : Z;
  pipe_states : list ducknng_pipe_state; pipe_state_cap : Z; pipe_state_count_visible : Z }.

Definition pipe_event_cap (g : pipe_log) : Z := zlen (pipe_events g).
Definition pipe_state_count (g : pipe_log) : Z := zlen (pipe_states g).

Record ducknng_pipe_monitor_stats := mk_stats {
  event_capacity : Z; event_count : Z; oldest_seq : Z; newest_seq : Z;
  dropped_events : Z; active_pipes : Z; st_max_active_pipes : Z }.

Definition no_remote : remote_text := mk_remote None None 0.
(** A zeroed slot of the ring. *)
Definition zero_event : ducknng_pipe_event := mk_event 0 0 0 None 0 None no_remote None.
Definition empty_log : pipe_log := mk_log [] 0 0 0 0 [] 0 0.

(** ** Operations *)

Definition decimal_text (n : Z) : bytes := lit (pretty n).

(** [pipe.id > 0 ? pipe.id : 0]. *)
Definition id_of (pipe : Z) : Z := if 0 <? pipe then pipe else 0.

Definition given (s : option bytes) : option bytes := if nonempty s then s else None.

Section pipes.
(** [inet_ntop] into a buffer that is large enough. *)
Context (inet_ntop : ip_family -> bytes -> option bytes).

Definition ducknng_sockaddr_addr_dup (addr : option nng_sockaddr) : remote_text :=
  match addr with
  | None => no_remote
  | Some (s_in a port) =>
    match inet_ntop NNG_AF_INET a with
    | None => no_remote
    | Some ip => mk_remote (Some (ip ++ lit ":" ++ decimal_text port)) (Some ip) port
    end
  | Some (s_in6 a port) =>
    match inet_ntop NNG_AF_INET6 a with
    | None => no_remote
    | Some ip => mk_remote (Some (lit "[" ++ ip ++ lit "]:" ++ decimal_text port)) (Some ip) port
    end
  | Some (s_ipc path) => mk_remote (Some path) None 0
  | Some (s_inproc name) => mk_remote (Some name) None 0
  | Some (s_other fam) => mk_remote (Some (lit "nng-family:" ++ decimal_text fam)) None 0
  end.

Definition ducknng_service_clear_pipe_events (g : pipe_log) : pipe_log :=
  mk_log [] 0 0 0 (next_pipe_event_seq g) (pipe_states g) (pipe_state_cap g) (pipe_state_count_visible g).

Definition ducknng_service_clear_pipe_states (g : pipe_log) : pipe_log :=
  mk_log (pipe_events g) (pipe_event_start g) (pipe_event_count g) (pipe_event_dropped g)
    (next_pipe_event_seq g) [] 0 0.

Definition ducknng_service_pipe_state_find_locked (g : pipe_log) (id : Z) : option nat :=
  if id =? 0 then None else find_index (fun s => pipe_id s =? id) (pipe_states g).

Definition with_states (states : list ducknng_pipe_state) (cap visible : Z) (g : pipe_log) : pipe_log :=
  mk_log (pipe_events g) (pipe_event_start g) (pipe_event_count g) (pipe_event_dropped g)
    (next_pipe_event_seq g) states cap visible.

Definition ducknng_service_pipe_state_add_locked (g : pipe_log) (pipe : Z)
    (remote : option nng_sockaddr) (identity : option bytes) (now_ms : Z) : pipe_log :=
  let id := id_of pipe in
  if id =? 0 then g else
  let state := mk_pipe id now_ms (ducknng_sockaddr_addr_dup remote) (given identity) in
  match ducknng_service_pipe_state_find_locked g id with
  | Some existing =>
    with_states (<[existing := state]> (pipe_states g)) (pipe_state_cap g) (pipe_state_count_visible g) g
  | None =>
    let cap := if pipe_state_count g =? pipe_state_cap g
      then (if negb (pipe_state_cap g =? 0) then pipe_state_cap g * 2 else 16)
      else pipe_state_cap g in
    with_states (pipe_states g ++ [state]) cap (pipe_state_count g + 1) g
  end.

Definition ducknng_service_pipe_state_remove_locked (g : pipe_log) (pipe : Z) : pipe_log :=
  let id := id_of pipe in
  if id =? 0 then g else
  match ducknng_service_pipe_state_find_locked g id with
  | None => g
  | Some idx =>
    with_states (take idx (pipe_states g) ++ drop (S idx) (pipe_states g)) (pipe_state_cap g)
      (pipe_state_count g - 1) g
  end.

Definition ducknng_pipe_event_name (ev : nng_pipe_ev) : bytes :=
  match ev with
  | NNG_PIPE_EV_ADD_PRE => lit "add_pre"
  | NNG_PIPE_EV_ADD_POST => lit "add_post"
  | NNG_PIPE_EV_REM_POST => lit "rem_post"
  | pipe_ev_other => lit "unknown"
  end.

(** The ring is allocated on the first event. *)
Definition ring_ready (g : pipe_log) : pipe_log :=
  match pipe_events g with
  | [] => mk_log (replicate 1024 zero_event) (pipe_event_start g) (pipe_event_count g)
      (pipe_event_dropped g) (next_pipe_event_seq g) (pipe_states g) (pipe_state_cap g)
      (pipe_state_count_visible g)
  | _ => g
  end.

(** The slot the next event goes to, and the ring with room for it. *)
Definition ring_slot (g : pipe_log) : Z * pipe_log :=
  let g := ring_ready g in
  if pipe_event_count g <? pipe_event_cap g then
    ((pipe_event_start g + pipe_event_count g) mod pipe_event_cap g,
     mk_log (pipe_events g) (pipe_event_start g) (pipe_event_count g + 1) (pipe_event_dropped g)
       (next_pipe_event_seq g) (pipe_states g) (pipe_state_cap g) (pipe_state_count_visible g))
  else
    (pipe_event_start g,
     mk_log (<[Z.to_nat (pipe_event_start g) := zero_event]> (pipe_events g))
       ((pipe_event_start g + 1) mod pipe_event_cap g) (pipe_event_count g)
       (u64 (pipe_event_dropped g + 1)) (next_pipe_event_seq g) (pipe_states g) (pipe_state_cap g)
       (pipe_state_count_visible g)).

(** [ts_ms] and [now_ms] are the two readings of the clock. *)
Definition ducknng_service_pipe_event_append (g : pipe_log) (pipe : Z) (event_name : bytes)
    (remote : option nng_sockaddr) (identity : option bytes) (admitted : Z) (reason : option bytes)
    (ts_ms now_ms : Z) : pipe_log :=
  let is_add_post := str_eq event_name (lit "add_post") in
  let is_rem_post := str_eq event_name (lit "rem_post") in
  let (idx, g) := ring_slot g in
  let g := if is_add_post then ducknng_service_pipe_state_add_locked g pipe remote identity now_ms else g in
  let g := if is_rem_post then ducknng_service_pipe_state_remove_locked g pipe else g in
  let seq := u64 (next_pipe_event_seq g + 1) in
  let event := mk_event seq ts_ms (id_of pipe) (Some event_name) admitted (given reason)
    (ducknng_sockaddr_addr_dup remote) (given identity) in
  mk_log (<[Z.to_nat idx := event]> (pipe_events g)) (pipe_event_start g) (pipe_event_count g)
    (pipe_event_dropped g) seq (pipe_states g) (pipe_state_cap g) (pipe_state_count_visible g).

(** What the monitor is told: the callback of one pipe, with what it reads off
    the pipe and the clock. *)
Record pipe_call := mk_call {
  pc_pipe : Z; pc_ev : nng_pipe_ev; pc_identity : option bytes; pc_remote : option nng_sockaddr;
  pc_ts : Z; pc_now : Z }.

(** [allowed] and [admission_err], given the number of active pipes. *)
Definition pipe_verdict (svc : service_policy) (max_active count : Z) (c : pipe_call) : Z * option bytes :=
  if decide (pc_ev c = NNG_PIPE_EV_ADD_PRE) then
    match ducknng_service_network_admission_check svc (pc_identity c) (pc_remote c) with
    | Some e => (0, Some e)
    | None =>
      if ((0 <? max_active) && (max_active <=? count))%bool
      then (0, Some (lit "ducknng: max active pipes exceeded"))
      else (1, None)
    end
  else (-1, None).

(** The log after the callback, and whether the callback closes the pipe. *)
Definition ducknng_service_pipe_event_cb (svc : service_policy) (max_active : Z) (g : pipe_log)
    (c : pipe_call) : pipe_log * bool :=
  let (allowed, admission_err) := pipe_verdict svc max_active (pipe_state_count g) c in
  let g := ducknng_service_pipe_event_append g (pc_pipe c) (ducknng_pipe_event_name (pc_ev c))
    (pc_remote c) (pc_identity c) allowed admission_err (pc_ts c) (pc_now c) in
  (g, (bool_decide (pc_ev c = NNG_PIPE_EV_ADD_PRE) && (allowed =? 0))%bool).
End pipes.

(** ** Readers *)

Definition ring_at (g : pipe_log) (i : Z) : ducknng_pipe_event :=
  default zero_event (pipe_events g !! Z.to_nat i).

Definition ducknng_service_pipe_monitor_stats (max_active : Z) (g : pipe_log) : ducknng_pipe_monitor_stats :=
  let live := ((0 <? pipe_event_count g) && (0 <? pipe_event_cap g))%bool in
  mk_stats (pipe_event_cap g) (pipe_event_count g)
    (if live then ev_seq (ring_at g (pipe_event_start g)) else 0)
    (if live then ev_seq (ring_at g ((pipe_event_start g + pipe_event_count g - 1) mod pipe_event_cap g)) else 0)
    (pipe_event_dropped g) (pipe_state_count g) max_active.

Fixpoint snapshot_loop (n : nat) (i : Z) (g : pipe_log) (after_seq max_events : Z)
    (rows : list ducknng_pipe_event) : list ducknng_pipe_event :=
  match n with
  | O => rows
  | S n =>
    let src := ring_at g ((pipe_event_start g + i) mod pipe_event_cap g) in
    if ev_seq src <=? after_seq then snapshot_loop n (i + 1) g after_seq max_events rows else
    if ((0 <? max_events) && (max_events <=? zlen rows))%bool then rows else
    snapshot_loop n (i + 1) g after_seq max_events (rows ++ [src])
  end.

Definition ducknng_service_pipe_events_snapshot (g : pipe_log) (after_seq max_events : Z)
    : list ducknng_pipe_event :=
  snapshot_loop (Z.to_nat (pipe_event_count g)) 0 g after_seq max_events [].

Definition ducknng_service_pipe_states_snapshot (g : pipe_log) : list ducknng_pipe_state := pipe_states g.

Definition ducknng_service_active_pipe_count (g : pipe_log) : Z := pipe_state_count_visible g.

(** ** The ring as a list *)

(** The live events, oldest first. *)
Definition ring_list (g : pipe_log) : list ducknng_pipe_event :=
  (fun i => ring_at g ((pipe_event_start g + Z.of_nat i) mod pipe_event_cap g))
    <$> seq 0 (Z.to_nat (pipe_event_count g)).

Abbreviation ring_of := (ring_view zero_event).

Lemma snapshot_spec n i g after max rows :
  (0 < max -> zlen rows <= max) ->
  snapshot_loop n (Z.of_nat i) g after max rows =
  let new := filter (fun e => after < ev_seq e)
    ((fun k => ring_at g ((pipe_event_start g + Z.of_nat k) mod pipe_event_cap g)) <$> seq i n) in
  rows ++ (if 0 <? max then ztake (max - zlen rows) new else new).
Proof.
  revert i rows. induction n as [|n IH]; intros i rows Hr; cbn [snapshot_loop seq].
  { cbn. unfold ztake. destruct (0 <? max); by rewrite ?take_nil, app_nil_r. }
  rewrite fmap_cons. set (src := ring_at g _). replace (Z.of_nat i + 1) with (Z.of_nat (S i)) by lia.
  destruct (Z.leb_spec (ev_seq src) after) as [Hle|Hgt].
  { rewrite IH by done. cbv zeta. by rewrite filter_cons_False by (change (~ after < ev_seq src); lia). }
  cbv zeta. rewrite filter_cons_True by done.
  destruct (Z.ltb_spec 0 max) as [Hm|Hm]; cbn [andb].
  - destruct (Z.leb_spec max (zlen rows)) as [Hf|Hf].
    + replace (max - zlen rows) with 0 by (specialize (Hr Hm); lia). by rewrite app_nil_r.
    + rewrite IH by (intros _; rewrite zlen_app, zlen_cons, zlen_nil; lia).
      cbv zeta.
      rewrite <- (app_assoc rows [src]).
      cbn [app].
      f_equal.
      rewrite zlen_app, zlen_cons, zlen_nil. unfold ztake.
      replace (Z.to_nat (max - zlen rows)) with (S (Z.to_nat (max - (zlen rows + (1 + 0))))) by lia. done.
  - rewrite IH by lia. cbv zeta. by rewrite <- (app_assoc rows [src]).
Qed.

Lemma snapshot_ring g after max :
  ducknng_service_pipe_events_snapshot g after max =
  let new := filter (fun e => after < ev_seq e) (ring_list g) in
  if 0 <? max then ztake max new else new.
Proof.
  unfold ducknng_service_pipe_events_snapshot. change 0 with (Z.of_nat 0) at 1.
  rewrite snapshot_spec by (intros; change (zlen []) with 0; lia). cbv zeta.
  change (zlen (@nil ducknng_pipe_event)) with 0. by rewrite Z.sub_0_r.
Qed.

(** ** What the monitor keeps

    The history of events and the map of active pipes, written without a ring
    or an array. *)

Section spec.
Context (inet_ntop : ip_family -> bytes -> option bytes) (svc : service_policy) (max_active : Z).

Record monitor := mk_monitor { history : list ducknng_pipe_event; active : gmap Z ducknng_pipe_state }.

Definition verdict (m : monitor) (c : pipe_call) : Z * option bytes :=
  pipe_verdict svc max_active (Z.of_nat (size (active m))) c.

Definition spec_event (m : monitor) (c : pipe_call) : ducknng_pipe_event :=
  mk_event (zlen (history m) + 1) (pc_ts c) (id_of (pc_pipe c)) (Some (ducknng_pipe_event_name (pc_ev c)))
    (verdict m c).1 (given (verdict m c).2) (ducknng_sockaddr_addr_dup inet_ntop (pc_remote c))
    (given (pc_identity c)).

Definition spec_active (a : gmap Z ducknng_pipe_state) (c : pipe_call) : gmap Z ducknng_pipe_state :=
  let id := id_of (pc_pipe c) in
  if id =? 0 then a else
  match pc_ev c with
  | NNG_PIPE_EV_ADD_POST =>
    <[id := mk_pipe id (pc_now c) (ducknng_sockaddr_addr_dup inet_ntop (pc_remote c)) (given (pc_identity c))]> a
  | NNG_PIPE_EV_REM_POST => delete id a
  | _ => a
  end.

Definition spec_step (m : monitor) (c : pipe_call) : monitor :=
  mk_monitor (history m ++ [spec_event m c]) (spec_active (active m) c).

Definition run_log (g : pipe_log) (cs : list pipe_call) : pipe_log :=
  foldl (fun g c => (ducknng_service_pipe_event_cb inet_ntop svc max_active g c).1) g cs.
Definition run_spec (m : monitor) (cs : list pipe_call) : monitor := foldl spec_step m cs.

(** The table of states holds the map, one entry per pipe. *)
Record states_rep (states : list ducknng_pipe_state) (a : gmap Z ducknng_pipe_state) : Prop := {
  rep_nodup : NoDup (pipe_id <$> states);
  rep_map : forall id s, a !! id = Some s <-> s ∈ states /\ pipe_id s = id }.

(** The last 1024 events of the history. *)
Definition retained (h : list ducknng_pipe_event) : list ducknng_pipe_event := last_n 1024 h.

Record log_rep (g : pipe_log) (m : monitor) : Prop := {
  rep_cap : pipe_events g = [] /\ history m = [] /\ pipe_event_count g = 0 \/ pipe_event_cap g = 1024;
  rep_start : 0 <= pipe_event_start g < 1024;
  rep_count : pipe_event_count g = Z.min (zlen (history m)) 1024;
  rep_dropped : pipe_event_dropped g = zlen (history m) - pipe_event_count g;
  rep_seq : next_pipe_event_seq g = zlen (history m);
  rep_ring : ring_list g = retained (history m);
  rep_states : states_rep (pipe_states g) (active m);
  rep_visible : pipe_state_count_visible g = pipe_state_count g }.

Lemma states_size states a : states_rep states a -> Z.of_nat (size a) = zlen states.
Proof.
  intros [Hn Hm]. unfold zlen. f_equal. rewrite <- (length_fmap pipe_id states).
  rewrite <- size_dom. replace (dom a) with (list_to_set (C := gset Z) (pipe_id <$> states)).
  - by rewrite size_list_to_set.
  - apply set_eq. intros id. rewrite elem_of_list_to_set, elem_of_dom, list_elem_of_fmap.
    split; [intros (s & -> & Hs); exists s; by apply Hm|intros [s Hs]; exists s; apply Hm in Hs; naive_solver].
Qed.

Lemma states_insert_fresh states a s : states_rep states a -> pipe_id s ∉ pipe_id <$> states ->
  states_rep (states ++ [s]) (<[pipe_id s := s]> a).
Proof.
  intros [Hn Hm] Hs. split.
  - rewrite fmap_app, NoDup_app. split; [done|]. split; [|apply NoDup_singleton].
    intros x Hx Hx'. apply list_elem_of_singleton in Hx' as ->. done.
  - intros id t. rewrite elem_of_app, list_elem_of_singleton. destruct (decide (id = pipe_id s)) as [->|Hne].
    + rewrite lookup_insert_eq. split; [intros [= <-]; auto|]. intros [[Ht| ->] He]; [|done].
      destruct Hs. rewrite <- He. by apply list_elem_of_fmap_2.
    + rewrite lookup_insert_ne, Hm by done. split; [naive_solver|]. intros [[Ht| ->] He]; [done|by destruct Hne].
Qed.

Lemma states_overwrite states a i s old : states_rep states a -> states !! i = Some old ->
  pipe_id old = pipe_id s -> states_rep (<[i := s]> states) (<[pipe_id s := s]> a).
Proof.
  intros [Hn Hm] Hi He.
  assert (pipe_id <$> <[i := s]> states = pipe_id <$> states) as Hids.
  { rewrite list_fmap_insert, <- He. apply list_insert_id. by rewrite list_lookup_fmap, Hi. }
  split; [by rewrite Hids|]. intros id t.
  assert (i < length states)%nat as Hlt by by eapply lookup_lt_Some.
  destruct (decide (id = pipe_id s)) as [->|Hne].
  - rewrite lookup_insert_eq. split.
    + intros [= <-]. split; [|done]. apply list_elem_of_lookup. exists i. by apply list_lookup_insert_eq.
    + intros [Ht Het]. f_equal. apply list_elem_of_lookup in Ht as [j Hj].
      destruct (decide (i = j)) as [<-|Hij]; [rewrite list_lookup_insert_eq in Hj by done; by injection Hj|].
      rewrite list_lookup_insert_ne in Hj by done. destruct Hij.
      eapply (NoDup_fmap_lookup_inj pipe_id states); [done|exact Hi|exact Hj|congruence].
  - rewrite lookup_insert_ne, Hm by done. split; intros [Ht Het]; (split; [|done]).
    + apply list_elem_of_lookup in Ht as [j Hj]. apply list_elem_of_lookup. exists j.
      rewrite list_lookup_insert_ne; [done|]. intros ->. rewrite Hi in Hj. injection Hj as ->. congruence.
    + apply list_elem_of_lookup in Ht as [j Hj]. destruct (decide (i = j)) as [<-|Hij].
      * rewrite list_lookup_insert_eq in Hj by done. injection Hj as <-. congruence.
      * rewrite list_lookup_insert_ne in Hj by done. by apply list_elem_of_lookup_2 in Hj.
Qed.

Lemma states_delete states a i s : states_rep states a -> states !! i = Some s ->
  states_rep (take i states ++ drop (S i) states) (delete (pipe_id s) a).
Proof.
  intros [Hn Hm] Hi. rewrite <- delete_take_drop.
  pose proof (delete_Permutation _ _ _ Hi) as Hp.
  pose proof Hn as Hn'. rewrite Hp, fmap_cons, NoDup_cons in Hn'. destruct Hn' as [Hs Hd].
  split; [done|]. intros id t. destruct (decide (id = pipe_id s)) as [->|Hne].
  - rewrite lookup_delete_eq. split; [done|]. intros [Ht He]. destruct Hs. rewrite <- He.
    by apply list_elem_of_fmap_2.
  - assert (t ∈ states <-> t = s \/ t ∈ delete i states) as Ht
      by (rewrite <- elem_of_cons; by apply elem_of_Permutation_proper).
    rewrite lookup_delete_ne, Hm, Ht by done. split; [|naive_solver].
    intros [[->|Hin] He]; [by destruct Hne|done].
Qed.

Lemma pipe_find_spec g a id : states_rep (pipe_states g) a -> id <> 0 ->
  match ducknng_service_pipe_state_find_locked g id with
  | Some i => exists s, pipe_states g !! i = Some s /\ pipe_id s = id
  | None => id ∉ pipe_id <$> pipe_states g
  end.
Proof.
  intros Hr Hid. unfold ducknng_service_pipe_state_find_locked. rewrite (proj2 (Z.eqb_neq _ _) Hid).
  destruct (find_index _ _) as [i|] eqn:E.
  - apply find_index_Some in E as (s & Hs & He). exists s. by apply Z.eqb_eq in He.
  - rewrite find_index_None in E. intros Hin. apply list_elem_of_fmap in Hin as (s & -> & Hs).
    rewrite Forall_forall in E. specialize (E s Hs). by rewrite Z.eqb_refl in E.
Qed.

Lemma is_add_post ev :
  str_eq (ducknng_pipe_event_name ev) (lit "add_post") =
  match ev with NNG_PIPE_EV_ADD_POST => true | _ => false end.
Proof. by destruct ev; vm_compute. Qed.
Lemma is_rem_post ev :
  str_eq (ducknng_pipe_event_name ev) (lit "rem_post") =
  match ev with NNG_PIPE_EV_REM_POST => true | _ => false end.
Proof. by destruct ev; vm_compute. Qed.

(** The table follows the map. *)
Definition states_after (g : pipe_log) (c : pipe_call) : pipe_log :=
  let g := if str_eq (ducknng_pipe_event_name (pc_ev c)) (lit "add_post")
    then ducknng_service_pipe_state_add_locked inet_ntop g (pc_pipe c) (pc_remote c) (pc_identity c) (pc_now c)
    else g in
  if str_eq (ducknng_pipe_event_name (pc_ev c)) (lit "rem_post")
  then ducknng_service_pipe_state_remove_locked g (pc_pipe c) else g.

Lemma states_after_frame g c :
  exists states cap visible, states_after g c = with_states states cap visible g.
Proof.
  assert (g = with_states (pipe_states g) (pipe_state_cap g) (pipe_state_count_visible g) g) as Hg
    by by destruct g.
  unfold states_after. rewrite is_add_post, is_rem_post.
  destruct (pc_ev c); cbv iota.
  -  eauto.
  - 
    unfold ducknng_service_pipe_state_add_locked. destruct (_ =? 0); [eauto|].
    destruct (ducknng_service_pipe_state_find_locked _ _); eauto.
  - 
    unfold ducknng_service_pipe_state_remove_locked. destruct (_ =? 0); [eauto|].
    destruct (ducknng_service_pipe_state_find_locked _ _); eauto.
  -  eauto.
Qed.

Lemma states_after_rep g a c :
  states_rep (pipe_states g) a -> pipe_state_count_visible g = pipe_state_count g ->
  states_rep (pipe_states (states_after g c)) (spec_active a c) /\
  pipe_state_count_visible (states_after g c) = pipe_state_count (states_after g c).
Proof.
  intros Hr Hv. unfold states_after, spec_active. rewrite is_add_post, is_rem_post.
  destruct (pc_ev c); cbv iota.
  - 
    by destruct (_ =? 0).
  - 
    unfold ducknng_service_pipe_state_add_locked. destruct (Z.eqb_spec (id_of (pc_pipe c)) 0) as [|Hid]; [done|].
    pose proof (pipe_find_spec g a _ Hr Hid) as Hf.
    destruct (ducknng_service_pipe_state_find_locked g _) as [i|].
    + destruct Hf as (s & Hs & He). split; [by apply (states_overwrite _ _ i (mk_pipe _ _ _ _) s)|].
      rewrite Hv. unfold pipe_state_count, zlen. cbn. by rewrite length_insert.
    + split; [by apply (states_insert_fresh _ _ (mk_pipe _ _ _ _))|].
      unfold pipe_state_count, with_states. cbn [pipe_states pipe_state_count_visible].
      by rewrite zlen_app, zlen_cons, zlen_nil.
  - 
    unfold ducknng_service_pipe_state_remove_locked. destruct (Z.eqb_spec (id_of (pc_pipe c)) 0) as [|Hid]; [done|].
    pose proof (pipe_find_spec g a _ Hr Hid) as Hf.
    destruct (ducknng_service_pipe_state_find_locked g _) as [i|].
    + destruct Hf as (s & Hs & <-). split; [by apply states_delete|].
      assert (i < length (pipe_states g))%nat by by eapply lookup_lt_Some.
      unfold pipe_state_count, with_states, zlen. cbn. rewrite length_app, length_take, length_drop. lia.
    + split; [|done]. rewrite delete_id; [done|]. destruct (a !! _) as [s|] eqn:E; [|done].
      apply (rep_map _ _ Hr) in E as [Hs He]. destruct Hf. rewrite <- He. by apply list_elem_of_fmap_2.
  - 
    by destruct (_ =? 0).
Qed.

(** The ring after the slot is taken and the event stored, whatever happened
    to the table of states in between. *)
Lemma ring_push g m e states cap visible seq' :
  log_rep g m -> zlen (history m) < UINT64_MAX ->
  let (idx, g1) := ring_slot g in
  let g2 := mk_log (<[Z.to_nat idx := e]> (pipe_events g1)) (pipe_event_start g1) (pipe_event_count g1)
    (pipe_event_dropped g1) seq' states cap visible in
  pipe_event_cap g2 = 1024 /\ 0 <= pipe_event_start g2 < 1024 /\
  pipe_event_count g2 = Z.min (zlen (history m) + 1) 1024 /\
  pipe_event_dropped g2 = zlen (history m) + 1 - pipe_event_count g2 /\
  ring_list g2 = retained (history m ++ [e]) /\
  next_pipe_event_seq g1 = next_pipe_event_seq g /\ pipe_states g1 = pipe_states g /\
  pipe_state_count_visible g1 = pipe_state_count_visible g.
Proof.
  intros Hr H64. pose proof (rep_start _ _ Hr) as Hs. pose proof (rep_count _ _ Hr) as Hc.
  pose proof (rep_dropped _ _ Hr) as Hd. pose proof (rep_ring _ _ Hr) as Hring.
  unfold ring_slot. set (g0 := ring_ready g).
  assert (pipe_event_cap g0 = 1024 /\ pipe_event_start g0 = pipe_event_start g /\
    pipe_event_count g0 = pipe_event_count g /\ pipe_event_dropped g0 = pipe_event_dropped g /\
    ring_list g0 = ring_list g /\ next_pipe_event_seq g0 = next_pipe_event_seq g /\
    pipe_states g0 = pipe_states g /\ pipe_state_count_visible g0 = pipe_state_count_visible g)
    as (E1 & E2 & E3 & E4 & E5 & E6 & E7 & E8).
  { unfold g0, ring_ready. destruct (rep_cap _ _ Hr) as [(He & _ & H0)|Hcap].
    - rewrite He. repeat split; [done..|]. unfold ring_list. cbn [pipe_event_count]. by rewrite H0.
    - destruct (pipe_events g) eqn:Ee; [|done]. unfold pipe_event_cap in Hcap. by rewrite Ee in Hcap. }
  clearbody g0.
  rewrite E3, E1, E2. unfold pipe_event_cap in E1.
  assert (ring_of (pipe_events g0) (pipe_event_start g) (pipe_event_count g) = retained (history m)) as Hold.
  { rewrite <- Hring, <- E5, <- E2, <- E3. done. }
  destruct (Z.ltb_spec (pipe_event_count g) 1024) as [Hlt|Hge]; cbv zeta;
    unfold pipe_event_cap, ring_list; cbn [pipe_events pipe_event_start pipe_event_count pipe_event_dropped
      next_pipe_event_seq pipe_states pipe_state_count_visible]; rewrite ?zlen_insert, ?E4.
  - repeat (split; [first [done|lia]|]). split; [|done].
    unfold retained in *. rewrite last_n_push, (proj2 (Z.ltb_lt _ _)), <- Hold by lia.
    pose proof (zlen_nonneg (history m)). by rewrite <- (ring_extend _ _ _ _ _ 1024) by (done || lia).
  - assert (pipe_event_count g = 1024) as Hfull by lia. rewrite Hfull in *. rewrite u64_small by (unfold UINT64_MAX in *; lia).
    split; [done|]. split; [apply Z.mod_pos_bound; lia|]. repeat (split; [lia|]). split; [|done].
    unfold retained in *. rewrite last_n_push, (proj2 (Z.ltb_ge _ _)), <- Hold by lia.
    rewrite <- (ring_slide _ _ _ e 1024) by done. by rewrite list_insert_insert_eq.
Qed.

Lemma cb_step g m c : log_rep g m -> zlen (history m) < UINT64_MAX ->
  log_rep (ducknng_service_pipe_event_cb inet_ntop svc max_active g c).1 (spec_step m c).
Proof.
  intros Hr H64. pose proof (rep_states _ _ Hr) as Hst. pose proof (states_size _ _ Hst) as Hsize.
  unfold ducknng_service_pipe_event_cb, spec_step, spec_event, verdict. rewrite Hsize.
  fold (pipe_state_count g). destruct (pipe_verdict _ _ _ _) as [allowed err]. cbn [fst snd].
  unfold ducknng_service_pipe_event_append.
  set (e := mk_event (zlen (history m) + 1) _ _ _ _ _ _ _).
  pose proof (fun st cap vis sq => ring_push g m e st cap vis sq Hr H64) as Hpush.
  destruct (ring_slot g) as [idx g1]. fold (states_after g1 c).
  destruct (Hpush [] 0 0 0) as (_ & _ & _ & _ & _ & Hseq & Hst1 & Hvis1).
  destruct (states_after_rep g1 (active m) c) as [Hst2 Hvis2];
    [by rewrite Hst1|rewrite Hvis1; unfold pipe_state_count; rewrite Hst1; apply (rep_visible _ _ Hr)|].
  destruct (states_after_frame g1 c) as (st & cap & vis & Hg2). rewrite Hg2 in Hst2, Hvis2 |- *.
  cbn [with_states pipe_events pipe_event_start pipe_event_count pipe_event_dropped next_pipe_event_seq
    pipe_states pipe_state_cap pipe_state_count_visible].
  rewrite Hseq, (rep_seq _ _ Hr), u64_small by (pose proof (zlen_nonneg (history m)); lia).
  destruct (Hpush st cap vis (zlen (history m) + 1)) as (H1 & H2 & H3 & H4 & H5 & _).
  assert (zlen (history m ++ [e]) = zlen (history m) + 1) as Hz by by rewrite zlen_app, zlen_cons, zlen_nil.
  split; cbn [history active pipe_states pipe_state_count_visible next_pipe_event_seq]; rewrite ?Hz; try done.
  by right.
Qed.

Lemma empty_rep : log_rep empty_log (mk_monitor [] ∅).
Proof.
  split; cbn; try done; [by left|]. split; [constructor|]. intros id s. rewrite lookup_empty.
  split; [done|]. intros [H _]. by apply not_elem_of_nil in H.
Qed.

Lemma run_history m cs : zlen (history (run_spec m cs)) = zlen (history m) + zlen cs.
Proof.
  revert m. induction cs as [|c cs IH]; intros m; cbn [run_spec foldl].
  - rewrite zlen_nil. lia.
  - unfold run_spec in IH. rewrite IH, zlen_cons. cbn [spec_step history].
    rewrite zlen_app, zlen_cons, zlen_nil. lia.
Qed.

Lemma run_rep g m cs : log_rep g m -> zlen (history m) + zlen cs <= UINT64_MAX ->
  log_rep (run_log g cs) (run_spec m cs).
Proof.
  revert g m. induction cs as [|c cs IH]; intros g m Hr Hl; [done|]. rewrite zlen_cons in Hl.
  pose proof (zlen_nonneg cs). apply IH; [apply cb_step; [done|lia]|].
  cbn [spec_step history]. rewrite zlen_app, zlen_cons, zlen_nil. lia.
Qed.

(** Event [i] of the history carries number [i + 1]. *)
Lemma run_seqs m cs : (forall i e, history m !! i = Some e -> ev_seq e = Z.of_nat i + 1) ->
  forall i e, history (run_spec m cs) !! i = Some e -> ev_seq e = Z.of_nat i + 1.
Proof.
  revert m. induction cs as [|c cs IH]; intros m Hm; [done|]. apply IH. intros i e.
  cbn [spec_step history]. destruct (decide (i < length (history m))%nat) as [Hi|Hi].
  - rewrite lookup_app_l by done. apply Hm.
  - rewrite lookup_app_r by lia. destruct (i - length (history m))%nat as [|n] eqn:En; [|done].
    cbn. intros [= <-]. cbn. unfold zlen. lia.
Qed.
End spec.

(** ** Claim *)

(** C24.  The pipe monitor refines its specification.  After any sequence of
    callbacks (fewer than 2^64) the ring holds exactly the last 1024 events,
    numbered 1, 2, 3, ... without gaps; a reader that asks for what follows
    the last number it saw gets precisely the retained events after it, oldest
    first and at most [max] of them; the number of dropped events accounts for
    the rest; and the table of active pipes holds, for each pipe, the state
    recorded by its last "add" when no "remove" followed, which is also the
    number the limit on new pipes is compared with. *)
Theorem pipe_monitor_exact inet_ntop svc max_active cs
  (Hlen : zlen cs <= UINT64_MAX) :
  let g := run_log inet_ntop svc max_active empty_log cs in
  let m := run_spec inet_ntop svc max_active (mk_monitor [] ∅) cs in
  (forall i e, history m !! i = Some e -> ev_seq e = Z.of_nat i + 1) /\
  (forall after max, ducknng_service_pipe_events_snapshot g after max =
    let new := filter (fun e => after < ev_seq e) (retained (history m)) in
    if 0 <? max then ztake max new else new) /\
  dropped_events (ducknng_service_pipe_monitor_stats max_active g) + zlen (retained (history m)) = zlen cs /\
  NoDup (pipe_id <$> ducknng_service_pipe_states_snapshot g) /\
  (forall id s, active m !! id = Some s <-> s ∈ ducknng_service_pipe_states_snapshot g /\ pipe_id s = id) /\
  ducknng_service_active_pipe_count g = Z.of_nat (size (active m)).
Proof.
  intros g m. assert (log_rep g m) as Hr.
  { apply run_rep; [apply empty_rep|]. cbn [history]. rewrite zlen_nil. lia. }
  pose proof (run_history inet_ntop svc max_active (mk_monitor [] ∅) cs) as Hh. fold m in Hh.
  cbn [history] in Hh. rewrite zlen_nil in Hh.
  split; [apply run_seqs; by intros i e Hi|].
  split; [intros after max; by rewrite snapshot_ring, (rep_ring _ _ Hr)|].
  split; [|split; [apply (rep_nodup _ _ (rep_states _ _ Hr))|]].
  - cbn [dropped_events ducknng_service_pipe_monitor_stats]. rewrite (rep_dropped _ _ Hr), <- (rep_ring _ _ Hr).
    change (ring_list g) with (ring_of (pipe_events g) (pipe_event_start g) (pipe_event_count g)).
    unfold zlen at 2. rewrite ring_length. pose proof (rep_count _ _ Hr). pose proof (zlen_nonneg (history m)). lia.
  - split; [apply (rep_map _ _ (rep_states _ _ Hr))|].
    unfold ducknng_service_active_pipe_count. rewrite (rep_visible _ _ Hr).
    symmetry. apply (states_size _ _ (rep_states _ _ Hr)).
Qed.

Definition demo_calls : list pipe_call :=
  [mk_call 7 NNG_PIPE_EV_ADD_PRE None None 1 1; mk_call 7 NNG_PIPE_EV_ADD_POST None None 2 2;
   mk_call 8 NNG_PIPE_EV_ADD_PRE None None 3 3; mk_call 7 NNG_PIPE_EV_REM_POST None None 4 4].

Lemma pipe_monitor_exact_witness :
  let g := run_log (fun _ _ => None) demo_policy 1 empty_log demo_calls in
  zlen demo_calls <= UINT64_MAX /\
  ducknng_service_active_pipe_count g = 0 /\
  ev_reason <$> ducknng_service_pipe_events_snapshot g 2 1 = [Some (lit "ducknng: max active pipes exceeded")].
Proof.
  assert (zlen demo_calls <= UINT64_MAX) as Hl by (vm_compute; congruence).
  destruct (pipe_monitor_exact (fun _ _ => None) demo_policy 1 demo_calls Hl) as (_ & Hs & _ & _ & _ & Hc).
  split; [exact Hl|]. split; [rewrite Hc; vm_compute; reflexivity|]. rewrite Hs. vm_compute. reflexivity.
Defined.
