(* ===== verification/Dispatch.v ===== *)
(** Authorization and dispatch of one request: the SQL authorizer, the
    dispatcher and the three request entry points of
    [src/src/ducknng_service.c].

    Method handlers are function pointers of the registry: [run_handler] is a
    parameter that may do anything to the service.  DuckDB's answer to the
    authorizer's query is a parameter too, and so is [nng_msg_alloc].  The
    service and its runtime are not NULL.  Other allocation failures and the
    thread-local execution subject are not modelled. *)

From stdpp Require Import sets.
From S2P Require Import Prelude Checked Wire Util Transport Registry Peers Session Admission.

(** ** Data *)

Record ducknng_authorizer_decision := mk_decision {
  d_allow : Z; d_http_status : Z; d_reason : option bytes; d_principal : option bytes;
  d_claims_json : option bytes; d_cache_ttl_ms : Z }.

Record ducknng_authorizer_context := mk_auth_ctx {
  ac_frame : option ducknng_frame; ac_transport_family : ducknng_transport_family;
  ac_scheme : ducknng_transport_scheme; ac_phase : bytes;
  ac_caller_identity : option bytes; ac_remote_addr : option nng_sockaddr;
  ac_http_method : option bytes; ac_http_path : option bytes; ac_content_type : option bytes;
  ac_body_bytes : Z }.

Record ducknng_request_context := mk_req_ctx {
  rc_frame : ducknng_frame; rc_caller_identity : option bytes;
  rc_auth_principal : option bytes; rc_auth_claims_json : option bytes }.

(** A DuckDB result: its columns with the cell of the first row, and the sizes
    of the first two chunks (0 for no chunk). *)
Inductive sql_type := DUCKDB_TYPE_BOOLEAN | DUCKDB_TYPE_INTEGER | DUCKDB_TYPE_UBIGINT
  | DUCKDB_TYPE_VARCHAR | DUCKDB_TYPE_BLOB | sql_type_other.
#[export] Instance sql_type_eq_dec : EqDecision sql_type.
Proof. solve_decision. Defined.

Inductive sql_cell := cell_null | cell_bool (b : bool) | cell_int (z : Z) | cell_ubigint (z : Z)
  | cell_varchar (s : bytes) | cell_blob (s : bytes) | cell_other.

Record sql_column := mk_column { col_name : option bytes; col_type : sql_type; col_cell : sql_cell }.
Record sql_result := mk_result { columns : list sql_column; first_rows : Z; extra_rows : Z }.

(** What running the authorizer's statement gives. *)
Inductive sql_outcome :=
| sql_no_scope (e : option bytes)
| sql_failed (detail : option bytes)
| sql_rows (r : sql_result).

(** A service as one request sees it. *)
Record server := mk_server {
  sv_policy : service_policy; sv_limits : service_limits; sv_shutting_down : bool;
  sv_session_idle_ms : Z; sv_load : service_load; sv_sessions : session_table;
  sv_registry : ducknng_method_registry }.

Definition set_load (load : service_load) (s : server) : server :=
  mk_server (sv_policy s) (sv_limits s) (sv_shutting_down s) (sv_session_idle_ms s) load
    (sv_sessions s) (sv_registry s).
Definition set_sessions (t : session_table) (s : server) : server :=
  mk_server (sv_policy s) (sv_limits s) (sv_shutting_down s) (sv_session_idle_ms s) (sv_load s)
    t (sv_registry s).

(** ** The SQL authorizer *)

(** [sql && sql[0]]. *)
Definition given_sql (sql : option bytes) : option bytes := if nonempty sql then sql else None.

Definition ducknng_authorizer_decision_init : ducknng_authorizer_decision :=
  mk_decision 1 200 None None None 0.

Definition ducknng_authorizer_decision_reset (d : ducknng_authorizer_decision)
    : ducknng_authorizer_decision := ducknng_authorizer_decision_init.

Fixpoint ducknng_ascii_name_equal (a b : bytes) : bool :=
  match a, b with
  | x :: a, y :: b =>
    if negb (ducknng_ascii_tolower_int x =? ducknng_ascii_tolower_int y) then false
    else ducknng_ascii_name_equal a b
  | [], [] => true
  | _, _ => false
  end.

Definition ducknng_result_column_index (r : sql_result) (name : bytes) : option nat :=
  find_index (fun c => match col_name c with
    | Some n => ducknng_ascii_name_equal n name | None => false end) (columns r).

(** The column of a name, with its type and first cell. *)
Definition column_of (r : sql_result) (name : bytes) : option sql_column :=
  match ducknng_result_column_index r name with Some i => columns r !! i | None => None end.

Section authorizer.
(** The bytes a cell that is not a VARCHAR shows when read as a string: the
    reason, principal and claims columns are read without a look at their type. *)
Context (misread : sql_cell -> option bytes).
Context (run_sql : ducknng_authorizer_context -> bytes -> sql_outcome).

Definition ducknng_chunk_varchar_dup (c : option sql_column) : option bytes :=
  match c with
  | None => None
  | Some c =>
    match col_cell c with
    | cell_null => None
    | cell_varchar s => Some s
    | cell => misread cell
    end
  end.

Definition ducknng_chunk_bool_value (c : sql_column) : option bool :=
  match col_cell c with cell_null => Some false | cell_bool b => Some b | _ => None end.

Definition ducknng_chunk_int32_value (c : sql_column) : option Z :=
  match col_cell c with cell_int z => Some z | _ => None end.

Definition ducknng_chunk_uint64_value (c : sql_column) : option Z :=
  match col_cell c with cell_ubigint z => Some z | _ => None end.

(** The return code, the decision and [*errmsg]. *)
Definition ducknng_parse_authorizer_result (r : sql_result) (decision : ducknng_authorizer_decision)
    : Z * ducknng_authorizer_decision * option bytes :=
  if negb (first_rows r =? 1)
  then (-1, decision, Some (lit "ducknng: SQL authorizer must return exactly one row")) else
  if 0 <? extra_rows r
  then (-1, decision, Some (lit "ducknng: SQL authorizer must return exactly one row")) else
  match column_of r (lit "allow") with
  | None => (-1, decision, Some (lit "ducknng: SQL authorizer must return an allow column"))
  | Some allow_col =>
    match (if bool_decide (col_type allow_col = DUCKDB_TYPE_BOOLEAN)
           then ducknng_chunk_bool_value allow_col else None) with
    | None => (-1, decision, Some (lit "ducknng: SQL authorizer allow column must be BOOLEAN"))
    | Some allowed =>
      let status :=
        match column_of r (lit "status") with
        | Some c =>
          if bool_decide (col_type c = DUCKDB_TYPE_INTEGER) then
            match ducknng_chunk_int32_value c with
            | Some v => if ((100 <=? v) && (v <=? 599))%bool then v else 403
            | None => 403
            end
          else 403
        | None => 403
        end in
      let reason := ducknng_chunk_varchar_dup (column_of r (lit "reason")) in
      let reason := if (negb allowed && negb (nonempty reason))%bool
        then Some (lit "ducknng: SQL authorizer denied request") else reason in
      let ttl :=
        match column_of r (lit "cache_ttl_ms") with
        | Some c =>
          if bool_decide (col_type c = DUCKDB_TYPE_UBIGINT) then
            match ducknng_chunk_uint64_value c with Some v => v | None => d_cache_ttl_ms decision end
          else d_cache_ttl_ms decision
        | None => d_cache_ttl_ms decision
        end in
      (if allowed then 0 else -1,
       mk_decision (if allowed then 1 else 0) (if allowed then 200 else status) reason
         (ducknng_chunk_varchar_dup (column_of r (lit "principal")))
         (ducknng_chunk_varchar_dup (column_of r (lit "claims_json"))) ttl,
       None)
    end
  end.

Definition deny (status : Z) (reason : option bytes) (d : ducknng_authorizer_decision)
    : ducknng_authorizer_decision :=
  mk_decision 0 status reason (d_principal d) (d_claims_json d) (d_cache_ttl_ms d).

Definition ducknng_service_run_sql_authorizer (ctx : ducknng_authorizer_context) (sql : bytes)
    (decision : ducknng_authorizer_decision) : Z * ducknng_authorizer_decision * option bytes :=
  match run_sql ctx sql with
  | sql_no_scope e =>
    (-1, deny 500 (Some (default (lit "ducknng: missing SQL authorizer state") e)) decision, e)
  | sql_failed detail =>
    let msg := if nonempty detail
      then lit "ducknng: SQL authorizer error: " ++ default [] detail
      else lit "ducknng: SQL authorizer error" in
    (-1, deny 500 (Some msg) decision, Some msg)
  | sql_rows r =>
    let '(rc, decision, parse_err) := ducknng_parse_authorizer_result r decision in
    (rc, decision,
     if negb (rc =? 0)
     then Some (default (default (lit "ducknng: SQL authorizer denied request") (d_reason decision)) parse_err)
     else None)
  end.

(** The return code and the decision. *)
Definition ducknng_service_authorize_request (svc : service_policy) (ctx : ducknng_authorizer_context)
    (decision : ducknng_authorizer_decision) : Z * ducknng_authorizer_decision :=
  let decision := mk_decision 1 200 (d_reason decision) (d_principal decision)
    (d_claims_json decision) (d_cache_ttl_ms decision) in
  match ducknng_service_network_admission_check svc (ac_caller_identity ctx) (ac_remote_addr ctx) with
  | Some local_err => (-1, deny 403 (Some local_err) decision)
  | None =>
    match (if authorizer_active svc then given_sql (authorizer_sql svc) else None) with
    | None => (0, decision)
    | Some sql =>
      let '(rc, decision, local_err) := ducknng_service_run_sql_authorizer ctx sql decision in
      if negb (rc =? 0) then
        let status := if d_http_status decision =? 200 then 403 else d_http_status decision in
        let reason := if (bool_decide (local_err <> None) && negb (nonempty (d_reason decision)))%bool
          then local_err else d_reason decision in
        (-1, deny status reason decision)
      else (0, decision)
    end
  end.
End authorizer.

(** ** The dispatcher *)

Section dispatch.
Context (alloc : Z -> option bytes).
Context (run_handler : server -> ducknng_method_descriptor -> ducknng_request_context ->
  server * Z * ducknng_method_reply).

(** [flags & ~accepted] on 32-bit words. *)
Definition extra_flags (flags accepted : Z) : bool :=
  negb (Z.land flags (u32 (Z.lnot accepted)) =? 0).

(** The reply a method is refused with before its handler runs. *)
Definition dispatch_refusal (method : ducknng_method_descriptor) (frame : ducknng_frame)
    (caller_identity : option bytes) : option (Z * bytes) :=
  if negb (disabled method =? 0) then
    Some (DUCKNNG_STATUS_DISABLED, lit "ducknng: RPC method is disabled")
  else if extra_flags (f_flags frame) (accepted_request_flags method) then
    Some (DUCKNNG_STATUS_INVALID, lit "ducknng: request used unsupported flag bits for this method")
  else if ((0 <? max_request_bytes method) && (max_request_bytes method <? f_payload_len frame))%bool then
    Some (DUCKNNG_STATUS_INVALID, lit "ducknng: request payload exceeds method limit")
  else if (negb (requires_auth method =? 0) && negb (nonempty caller_identity))%bool then
    Some (DUCKNNG_STATUS_UNAUTHORIZED, lit "ducknng: method requires verified peer identity")
  else None.

(** The message of a reply the handler encoded in place. *)
Definition finish_prebuilt (method : ducknng_method_descriptor) (reply : ducknng_method_reply)
    (body : bytes) : option bytes :=
  let name := default [] (m_name method) in
  let error_len := from_option zlen 0 (reply_error reply) in
  let sizing :=
    match ducknng_size_add DUCKNNG_WIRE_HEADER_LEN (zlen name) with
    | None => None
    | Some expected_prefix =>
      match ducknng_size_add expected_prefix error_len with
      | None => None
      | Some expected_prefix =>
        match ducknng_size_add expected_prefix (reply_payload_len reply) with
        | None => None
        | Some message_size => Some (expected_prefix, message_size)
        end
      end
    end in
  let inconsistent := ducknng_error_msg alloc (m_name method) DUCKNNG_STATUS_INTERNAL
    (Some (lit "ducknng: prebuilt reply message has inconsistent sizing")) in
  match sizing with
  | None => inconsistent
  | Some (expected_prefix, message_size) =>
    if (negb (prefix_size reply =? expected_prefix) || negb (zlen body =? message_size) ||
        bool_decide (reply_payload reply <> None))%bool then inconsistent else
    let parts := mk_parts (reply_type reply) (reply_status reply) (reply_flags reply)
      (Some name) (zlen name) (reply_error reply) error_len None (reply_payload_len reply) in
    let out := ducknng_encode_frame_prefix parts (Some body) (prefix_size reply) in
    if (negb (e_rc out =? 0) || negb (e_written out =? prefix_size reply))%bool
    then ducknng_error_msg alloc (m_name method) DUCKNNG_STATUS_INTERNAL
      (Some (lit "ducknng: failed to encode prebuilt reply prefix"))
    else e_dest out
  end.

(** The message for what a handler returned. *)
Definition dispatch_reply (method : ducknng_method_descriptor) (handler_rc : Z)
    (reply : ducknng_method_reply) : option bytes :=
  if (negb (handler_rc =? 0) && negb (reply_type reply =? DUCKNNG_RPC_ERROR))%bool then
    ducknng_error_msg alloc (m_name method) DUCKNNG_STATUS_INTERNAL
      (Some (lit "ducknng: method handler failed without structured error reply"))
  else if ((reply_type reply =? DUCKNNG_RPC_RESULT) &&
           extra_flags (reply_flags reply) (emitted_reply_flags method))%bool then
    ducknng_error_msg alloc (m_name method) DUCKNNG_STATUS_INTERNAL
      (Some (lit "ducknng: method emitted unsupported reply flags"))
  else if ((0 <? max_reply_bytes method) && (max_reply_bytes method <? reply_payload_len reply))%bool then
    ducknng_error_msg alloc (m_name method) DUCKNNG_STATUS_BUSY
      (Some (lit "ducknng: reply payload exceeds method limit"))
  else
    match prebuilt_msg reply with
    | Some body => finish_prebuilt method reply body
    | None =>
      match ducknng_build_reply_status alloc (reply_type reply) (m_name method) (reply_flags reply)
          (reply_status reply) (reply_error reply) (reply_payload reply) (reply_payload_len reply) with
      | Some msg => Some msg
      | None => ducknng_error_msg alloc (m_name method) DUCKNNG_STATUS_INTERNAL
          (Some (lit "ducknng: failed to allocate reply message"))
      end
    end.

Definition ducknng_dispatch_request (svc : server) (frame : ducknng_frame)
    (caller_identity : option bytes) (auth_decision : ducknng_authorizer_decision) (now_ms : Z)
    : server * option bytes :=
  match ducknng_service_peer_admission_check (sv_policy svc) caller_identity with
  | Some admission_err =>
    (svc, ducknng_error_msg alloc None DUCKNNG_STATUS_UNAUTHORIZED (Some admission_err))
  | None =>
    let svc := set_sessions
      (ducknng_service_prune_idle_sessions (sv_session_idle_ms svc) now_ms (sv_sessions svc)).1 svc in
    let refuse name status text := (svc, ducknng_error_msg alloc name status (Some text)) in
    if (negb (f_type frame =? DUCKNNG_RPC_MANIFEST) && negb (f_type frame =? DUCKNNG_RPC_CALL))%bool
    then refuse None DUCKNNG_STATUS_INVALID (lit "ducknng: unsupported message type") else
    let method := if f_type frame =? DUCKNNG_RPC_MANIFEST
      then ducknng_method_registry_find (sv_registry svc) (Some (lit "manifest")) (zlen (lit "manifest"))
      else ducknng_method_registry_find (sv_registry svc) (Some (f_name frame)) (f_name_len frame) in
    match method with
    | None => refuse None DUCKNNG_STATUS_NOT_FOUND (lit "ducknng: unknown RPC method")
    | Some method =>
      match dispatch_refusal method frame caller_identity with
      | Some (status, text) => refuse (m_name method) status text
      | None =>
        let req_ctx := mk_req_ctx frame caller_identity (d_principal auth_decision)
          (d_claims_json auth_decision) in
        let '(svc, handler_rc, reply) := run_handler svc method req_ctx in
        (svc, dispatch_reply method handler_rc reply)
      end
    end
  end.

Definition ducknng_handle_decoded_request := ducknng_dispatch_request.

(** ** Requests *)

Context (misread : sql_cell -> option bytes).
Context (run_sql : ducknng_authorizer_context -> bytes -> sql_outcome).

Definition reply_len (msg : option bytes) : Z := from_option zlen 0 msg.

(** The part the NNG entry points share once the frame is decoded. *)
Definition handle_frame (svc : server) (frame : ducknng_frame) (ctx : ducknng_authorizer_context) (now_ms : Z)
    : server * option bytes :=
  let caller_identity := ac_caller_identity ctx in
  match ducknng_service_network_admission_check (sv_policy svc) caller_identity (ac_remote_addr ctx) with
  | Some e => (svc, ducknng_error_msg alloc None DUCKNNG_STATUS_UNAUTHORIZED (Some e))
  | None =>
    match ducknng_service_begin_request (sv_limits svc) (sv_shutting_down svc) (sv_load svc) caller_identity with
    | (load, Some e) => (set_load load svc, ducknng_error_msg alloc None DUCKNNG_STATUS_BUSY (Some e))
    | (load, None) =>
      let svc := set_load load svc in
      match ducknng_service_authorize_request misread run_sql (sv_policy svc) ctx
          ducknng_authorizer_decision_init with
      | (rc, decision) =>
        if negb (rc =? 0) then
          let reply := ducknng_error_msg alloc None DUCKNNG_STATUS_UNAUTHORIZED
            (Some (default (lit "ducknng: request is not authorized") (d_reason decision))) in
          (set_load (ducknng_service_end_request (sv_load svc) caller_identity 0) svc, reply)
        else
          let (svc, reply) := ducknng_dispatch_request svc frame caller_identity decision now_ms in
          (set_load (ducknng_service_end_request (sv_load svc) caller_identity (reply_len reply)) svc, reply)
      end
    end
  end.

(** [remote_addr] and [caller_identity] are what the request's pipe shows. *)
Definition ducknng_handle_request (svc : server) (req : option bytes) (caller_identity : option bytes)
    (remote_addr : option nng_sockaddr) (now_ms : Z) : server * option bytes :=
  match ducknng_decode_request req with
  | None => (svc, ducknng_error_msg alloc None DUCKNNG_STATUS_INVALID (Some (lit "invalid RPC envelope")))
  | Some frame =>
    handle_frame svc frame (mk_auth_ctx (Some frame) DUCKNNG_TRANSPORT_FAMILY_NNG
      DUCKNNG_TRANSPORT_SCHEME_UNKNOWN (lit "rpc_request") caller_identity remote_addr
      None None None 0) now_ms
  end.

Definition ducknng_handle_request_with_identity (svc : server) (req : option bytes)
    (caller_identity : option bytes) (now_ms : Z) : server * option bytes :=
  match ducknng_decode_request req with
  | None => (svc, ducknng_error_msg alloc None DUCKNNG_STATUS_INVALID (Some (lit "invalid RPC envelope")))
  | Some frame =>
    handle_frame svc frame (mk_auth_ctx (Some frame) DUCKNNG_TRANSPORT_FAMILY_NNG
      DUCKNNG_TRANSPORT_SCHEME_UNKNOWN (lit "rpc_request") caller_identity None
      None None None 0) now_ms
  end.

(** The HTTP and WebSocket entry: the reply, [*out_status] and [*out_error]. *)
Definition ducknng_service_authorize_and_dispatch_frame (svc : server) (body : option bytes)
    (body_len : Z) (caller_identity : option bytes) (remote_addr : option nng_sockaddr)
    (scheme : ducknng_transport_scheme) (http_method http_path content_type : option bytes) (now_ms : Z)
    : server * (option bytes * Z * option bytes) :=
  match ducknng_decode_frame_bytes body body_len with
  | None => (svc, (None, 400, Some (lit "ducknng: invalid frame envelope")))
  | Some frame =>
    let ctx := mk_auth_ctx (Some frame) DUCKNNG_TRANSPORT_FAMILY_HTTP scheme (lit "rpc_request") caller_identity remote_addr
      http_method http_path content_type body_len in
    match ducknng_service_network_admission_check (sv_policy svc) caller_identity remote_addr with
    | Some e => (svc, (None, 403, Some e))
    | None =>
      match ducknng_service_begin_request (sv_limits svc) (sv_shutting_down svc) (sv_load svc) caller_identity with
      | (load, Some e) => (set_load load svc, (None, 503, Some e))
      | (load, None) =>
        let svc := set_load load svc in
        match ducknng_service_authorize_request misread run_sql (sv_policy svc) ctx
            ducknng_authorizer_decision_init with
        | (rc, decision) =>
          if negb (rc =? 0) then
            let status := if ((100 <=? d_http_status decision) && (d_http_status decision <=? 599))%bool
              then d_http_status decision else 403 in
            (set_load (ducknng_service_end_request (sv_load svc) caller_identity 0) svc,
             (None, status, Some (default (lit "ducknng: request is not authorized") (d_reason decision))))
          else
            let (svc, reply) := ducknng_handle_decoded_request svc frame caller_identity decision now_ms in
            let svc := set_load (ducknng_service_end_request (sv_load svc) caller_identity (reply_len reply)) svc in
            match reply with
            | None => (svc, (None, 500, Some (lit "ducknng: failed to dispatch request")))
            | Some msg => (svc, (Some msg, 200, None))
            end
        end
      end
    end
  end.
End dispatch.

(** ** The authorizer's verdict *)

(** The one answer that grants: a single row whose [allow] is TRUE. *)
Definition grants (r : sql_result) : Prop :=
  first_rows r = 1 /\ extra_rows r <= 0 /\
  exists c, column_of r (lit "allow") = Some c /\ col_type c = DUCKDB_TYPE_BOOLEAN /\
    col_cell c = cell_bool true.

Lemma parse_result_grants misread r d :
  let '(rc, d', e) := ducknng_parse_authorizer_result misread r d in
  (rc = 0 <-> grants r) /\ (rc = 0 -> d_allow d' = 1 /\ d_http_status d' = 200) /\
  (rc <> 0 -> 100 <= d_http_status d' <= 599 \/ d' = d).
Proof.
  unfold ducknng_parse_authorizer_result, grants.
  destruct (Z.eqb_spec (first_rows r) 1) as [H1|H1]; cbn [negb]; [|split; [lia|naive_solver lia]].
  destruct (Z.ltb_spec 0 (extra_rows r)) as [H2|H2]; [split; [lia|naive_solver lia]|].
  destruct (column_of r (lit "allow")) as [c|]; [|split; [|naive_solver lia]; naive_solver lia].
  destruct (bool_decide (col_type c = DUCKDB_TYPE_BOOLEAN)) eqn:Et.
  2:{ apply bool_decide_eq_false in Et. split; [split; [lia|naive_solver]|naive_solver lia]. }
  apply bool_decide_eq_true in Et. unfold ducknng_chunk_bool_value.
  set (status := match column_of r (lit "status") with Some _ => _ | None => 403 end).
  assert (100 <= status <= 599) as Hst.
  { unfold status. destruct (column_of r (lit "status")) as [s|]; [|lia]. destruct (bool_decide _); [|lia].
    destruct (ducknng_chunk_int32_value s) as [v|]; [|lia].
    destruct (Z.leb_spec 100 v), (Z.leb_spec v 599); cbn [andb]; lia. }
  clearbody status. assert (col_cell c <> cell_bool true -> ~ (exists c', Some c = Some c' /\
    col_type c' = DUCKDB_TYPE_BOOLEAN /\ col_cell c' = cell_bool true)) as Hno by naive_solver.
  destruct (col_cell c) as [|[]| | | | |] eqn:Ec; cbn [d_http_status d_allow].
  2:{ split; [split; [|done]; intros _; eauto 10|]. split; [done|lia]. }
  all: split; [split; [lia|intros (_ & _ & H); by destruct Hno]|]; split; [lia|]; auto.
Qed.

Lemma run_authorizer_grants misread run_sql ctx sql d :
  let '(rc, d', e) := ducknng_service_run_sql_authorizer misread run_sql ctx sql d in
  (rc = 0 <-> exists r, run_sql ctx sql = sql_rows r /\ grants r) /\
  (rc = 0 -> d_allow d' = 1) /\
  (rc <> 0 -> (100 <= d_http_status d' <= 599 \/ d' = d) /\ (d_reason d' <> None \/ e <> None)).
Proof.
  unfold ducknng_service_run_sql_authorizer. destruct (run_sql ctx sql) as [e|detail|r].
  - split; [split; [lia|naive_solver]|]. split; [lia|]. intros _. cbn. split; [lia|by left].
  - split; [split; [lia|naive_solver]|]. split; [lia|]. intros _. cbn. split; [lia|by left].
  - pose proof (parse_result_grants misread r d) as H.
    destruct (ducknng_parse_authorizer_result misread r d) as [[rc d'] e]. destruct H as (H1 & H2 & H3).
    split; [rewrite H1; naive_solver|]. split; [naive_solver|]. intros Hrc. split; [by apply H3|].
    right. destruct (Z.eqb_spec rc 0); [done|]. cbn. done.
Qed.

(** ** Refusals *)

Definition alloc_works (alloc : Z -> option bytes) : Prop :=
  forall n, 0 <= n -> exists b, alloc n = Some b /\ zlen b = n.

(** A message that decodes to an error frame with the status, for the method. *)
Definition error_reply (name : option bytes) (status : Z) (msg : option bytes) : Prop :=
  exists m f, msg = Some m /\ ducknng_decode_request (Some m) = Some f /\
    f_type f = DUCKNNG_RPC_ERROR /\ f_status f = status /\ f_name f = default [] name /\ f_payload f = [].

Lemma error_reply_ok alloc name status text :
  alloc_works alloc -> zlen (default [] name) <= DUCKNNG_MAX_METHOD_NAME_LEN -> 1 <= status <= 10 ->
  0 < zlen text <= UINT32_MAX ->
  error_reply name status (ducknng_error_msg alloc name status (Some text)).
Proof.
  intros Ha Hn Hs Ht. destruct (error_msg_frame alloc name status (Some text)) as (m & f & H1 & H2 & H3 & H4 & H5 & H6 & H7).
  - done.
  - done.
  - intros [= ->]. change (zlen []) with 0 in Ht. lia.
  - cbn. lia.
  - exists m, f. repeat split; try done. rewrite H4.
    by rewrite (proj2 (Z.leb_le 1 status)), (proj2 (Z.leb_le status 10)) by lia.
Qed.

Lemma admission_text svc caller e :
  ducknng_service_peer_admission_check svc caller = Some e -> 0 < zlen e <= UINT32_MAX.
Proof.
  unfold ducknng_service_peer_admission_check. destruct (_ && _)%bool;
    [|destruct (_ && _)%bool; [|done]]; intros [= <-]; vm_compute; intuition congruence.
Qed.

Lemma network_text svc caller remote e :
  ducknng_service_network_admission_check svc caller remote = Some e -> 0 < zlen e <= UINT32_MAX.
Proof.
  unfold ducknng_service_network_admission_check.
  destruct (ducknng_service_peer_admission_check svc caller) eqn:E.
  - intros [= <-]. by eapply admission_text.
  - destruct (_ && _)%bool; [|done]. intros [= <-]; vm_compute; intuition congruence.
Qed.

(** What a request must satisfy before its method runs. *)
Record may_run (svc : server) (frame : ducknng_frame) (caller : option bytes)
    (d : ducknng_method_descriptor) : Prop := {
  mr_peer : ducknng_service_peer_admission_check (sv_policy svc) caller = None;
  mr_method :
    f_type frame = DUCKNNG_RPC_MANIFEST /\
      ducknng_method_registry_find (sv_registry svc) (Some (lit "manifest")) (zlen (lit "manifest")) = Some d \/
    f_type frame = DUCKNNG_RPC_CALL /\
      ducknng_method_registry_find (sv_registry svc) (Some (f_name frame)) (f_name_len frame) = Some d;
  mr_enabled : disabled d = 0;
  mr_flags : forall k, 0 <= k < 32 -> Z.testbit (f_flags frame) k = true ->
    Z.testbit (accepted_request_flags d) k = true;
  mr_size : max_request_bytes d <= 0 \/ f_payload_len frame <= max_request_bytes d;
  mr_auth : requires_auth d = 0 \/ nonempty caller = true }.

Lemma extra_flags_spec flags accepted : 0 <= flags <= UINT32_MAX ->
  extra_flags flags accepted = false <->
  forall k, 0 <= k < 32 -> Z.testbit flags k = true -> Z.testbit accepted k = true.
Proof.
  intros Hf. unfold extra_flags. rewrite negb_false_iff, Z.eqb_eq. split.
  - intros H k Hk Hb. assert (Z.testbit (Z.land flags (u32 (Z.lnot accepted))) k = false) as Hz
      by (rewrite H; apply Z.bits_0).
    rewrite Z.land_spec, Hb in Hz. unfold u32 in Hz. change 4294967296 with (2 ^ 32) in Hz.
    rewrite Z.mod_pow2_bits_low, Z.lnot_spec in Hz by lia. by destruct (Z.testbit accepted k).
  - intros H. apply Z.bits_inj'. intros k Hk. rewrite Z.bits_0, Z.land_spec.
    destruct (Z.testbit flags k) eqn:E; [|done]. cbn. unfold u32. change 4294967296 with (2 ^ 32).
    destruct (Z.lt_ge_cases k 32) as [Hlt|Hge].
    + rewrite Z.mod_pow2_bits_low, Z.lnot_spec by lia. rewrite H by (done || lia). done.
    + by rewrite Z.mod_pow2_bits_high by lia.
Qed.

Lemma refusal_spec d frame caller : 0 <= f_flags frame <= UINT32_MAX ->
  match dispatch_refusal d frame caller with
  | Some (status, text) => (disabled d <> 0 /\ status = DUCKNNG_STATUS_DISABLED \/
      status = DUCKNNG_STATUS_INVALID \/ status = DUCKNNG_STATUS_UNAUTHORIZED) /\
      0 < zlen text <= UINT32_MAX /\ forall svc, ~ may_run svc frame caller d
  | None => disabled d = 0 /\
      (forall k, 0 <= k < 32 -> Z.testbit (f_flags frame) k = true -> Z.testbit (accepted_request_flags d) k = true) /\
      (max_request_bytes d <= 0 \/ f_payload_len frame <= max_request_bytes d) /\
      (requires_auth d = 0 \/ nonempty caller = true)
  end.
Proof.
  intros Hf. unfold dispatch_refusal. destruct (Z.eqb_spec (disabled d) 0) as [Hd|Hd]; cbn [negb].
  2:{ split; [by left|]. split; [vm_compute; intuition congruence|]. by intros svc []. }
  destruct (extra_flags _ _) eqn:Ef.
  { split; [by right; left|]. split; [vm_compute; intuition congruence|]. intros svc [].
    by rewrite (proj2 (extra_flags_spec _ _ Hf)) in Ef. }
  rewrite extra_flags_spec in Ef by done.
  destruct (Z.ltb_spec 0 (max_request_bytes d)) as [Hm|Hm],
    (Z.ltb_spec (max_request_bytes d) (f_payload_len frame)) as [Hp|Hp]; cbn [andb].
  { split; [by right; left|]. split; [vm_compute; intuition congruence|]. intros svc []. lia. }
  all: destruct (Z.eqb_spec (requires_auth d) 0) as [Ha|Ha], (nonempty caller) eqn:En; cbn [negb andb];
    try (split; [done|]; split; [done|]; split; [lia|]; by auto).
  all: split; [by right; right|]; split; [vm_compute; intuition congruence|]; intros svc []; naive_solver congruence.
Qed.

(** ** Replies *)

Section replies.
Context (d : ducknng_method_descriptor) (reply : ducknng_method_reply).

(** The payload a reply carries, wherever the handler put it. *)
Definition reply_body : option bytes :=
  match prebuilt_msg reply with
  | Some body => Some (zdrop (prefix_size reply) body)
  | None => reply_payload reply
  end.

Definition reply_parts : ducknng_frame_parts :=
  mk_parts (reply_type reply) (reply_status reply) (reply_flags reply)
    (m_name d) (from_option zlen 0 (m_name d)) (reply_error reply) (from_option zlen 0 (reply_error reply))
    reply_body (reply_payload_len reply).

(** Fields have their C types and a payload pointer covers its length. *)
Record reply_wf : Prop := {
  rw_type : is_byte (reply_type reply);
  rw_flags : 0 <= reply_flags reply <= UINT32_MAX;
  rw_len : size_ok (reply_payload_len reply);
  rw_payload : from_option (fun b => reply_payload_len reply <= zlen b) True (reply_payload reply);
  rw_error : size_ok (from_option zlen 0 (reply_error reply)) }.

(** A reply that goes out as it is. *)
Record acceptable (handler_rc : Z) : Prop := {
  ac_rc : handler_rc = 0 \/ reply_type reply = DUCKNNG_RPC_ERROR;
  ac_flags : reply_type reply = DUCKNNG_RPC_RESULT ->
    extra_flags (reply_flags reply) (emitted_reply_flags d) = false;
  ac_size : max_reply_bytes d <= 0 \/ reply_payload_len reply <= max_reply_bytes d;
  ac_prebuilt : forall body, prebuilt_msg reply = Some body ->
    prefix_size reply = parts_total reply_parts - reply_payload_len reply /\
    zlen body = parts_total reply_parts /\ reply_payload reply = None;
  ac_valid : parts_valid true reply_parts }.

Context (alloc : Z -> option bytes) (Halloc : alloc_works alloc).
Context (Hwf : reply_wf) (Hname : zlen (default [] (m_name d)) <= DUCKNNG_MAX_METHOD_NAME_LEN).

Lemma internal_reply status text : 1 <= status <= 10 -> 0 < zlen text <= UINT32_MAX ->
  error_reply (m_name d) status (ducknng_error_msg alloc (m_name d) status (Some text)).
Proof using Halloc Hname. intros. by apply error_reply_ok. Qed.

Definition sends (msg : option bytes) : Prop :=
  exists m, msg = Some m /\ ducknng_decode_request (Some m) = Some (frame_of reply_parts).

Lemma name_len : from_option zlen 0 (m_name d) = zlen (default [] (m_name d)).
Proof. by destruct (m_name d). Qed.

Lemma name_size : size_ok (from_option zlen 0 (m_name d)).
Proof using Hname.
  rewrite name_len. pose proof (zlen_nonneg (default [] (m_name d))).
  unfold size_ok, SIZE_MAX, UINT64_MAX, DUCKNNG_MAX_METHOD_NAME_LEN in *. lia.
Qed.

Lemma parts_wf_with payload len :
  size_ok len -> from_option (fun b => len <= zlen b) True payload ->
  parts_wf (mk_parts (reply_type reply) (reply_status reply) (reply_flags reply)
    (m_name d) (from_option zlen 0 (m_name d)) (reply_error reply) (from_option zlen 0 (reply_error reply))
    payload len).
Proof using Hwf Hname.
  intros Hl Hp. destruct Hwf. split; cbn; try done; [apply name_size| |].
  - destruct (m_name d); cbn; [lia|done].
  - destruct (reply_error reply); cbn; [lia|done].
Qed.

Lemma sends_image : parts_wf reply_parts -> parts_valid true reply_parts -> sends (Some (image_of reply_parts)).
Proof.
  intros Hw Hv. exists (image_of reply_parts). split; [done|]. unfold ducknng_decode_request.
  rewrite (image_len _ Hw Hv). rewrite <- (app_nil_r (image_of reply_parts)). by apply decode_image.
Qed.

Lemma build_reply_cases : prebuilt_msg reply = None ->
  let msg := ducknng_build_reply_status alloc (reply_type reply) (m_name d) (reply_flags reply)
    (reply_status reply) (reply_error reply) (reply_payload reply) (reply_payload_len reply) in
  parts_valid true reply_parts /\ sends msg \/ ~ parts_valid true reply_parts /\ msg = None.
Proof using Halloc Hwf Hname.
  intros Hpre msg. assert (reply_body = reply_payload reply) as Hb by (unfold reply_body; by rewrite Hpre).
  assert (parts_wf reply_parts) as Hw.
  { unfold reply_parts. rewrite Hb. apply parts_wf_with; [apply Hwf|apply Hwf]. }
  destruct (ducknng_frame_parts_validate reply_parts true) as [n|] eqn:Ev.
  - apply (validate_spec _ _ _ Hw) in Ev as [Hv _]. left. split; [done|].
    assert (0 <= parts_total reply_parts) as Ht
      by (rewrite <- (image_len _ Hw Hv); apply zlen_nonneg).
    destruct (Halloc _ Ht) as (b & Ha & Hlb).
    assert (msg = Some (image_of reply_parts)) as ->; [|by apply sends_image].
    unfold msg, reply_parts in *. rewrite Hb in *. by apply (build_reply_status_image alloc _ _ _ _ _ _ _ b).
  - right. split; [intros Hv; by rewrite (proj2 (validate_spec _ true _ Hw) (conj Hv eq_refl)) in Ev|].
    unfold msg, ducknng_build_reply_status, ducknng_frame_measure. unfold reply_parts in Ev. rewrite Hb in Ev.
    rewrite Ev. by destruct (SIZE_MAX <? _).
Qed.

(** The parts the in-place encoder is given: no payload pointer. *)
Definition prefix_parts : ducknng_frame_parts :=
  mk_parts (reply_type reply) (reply_status reply) (reply_flags reply)
    (Some (default [] (m_name d))) (zlen (default [] (m_name d))) (reply_error reply)
    (from_option zlen 0 (reply_error reply)) None (reply_payload_len reply).

Lemma prefix_parts_total : parts_total prefix_parts = parts_total reply_parts.
Proof. unfold parts_total. cbn. by rewrite name_len. Qed.

Lemma prefix_parts_wf : parts_wf prefix_parts.
Proof using Hwf Hname.
  pose proof name_size as Hn. rewrite name_len in Hn. destruct Hwf. split; cbn; try done.
  destruct (reply_error reply); cbn; [lia|done].
Qed.

Lemma prefix_parts_valid body : prebuilt_msg reply = Some body ->
  parts_valid false prefix_parts <-> parts_valid true reply_parts.
Proof.
  intros Hp. assert (reply_body <> None) as Hb by (unfold reply_body; by rewrite Hp).
  pose proof prefix_parts_total as Ht. unfold reply_parts in *.
  split; intros []; split; cbn in *; rewrite ?name_len in *; try done; try lia.
  intros H. by destruct (m_name d).
Qed.

Lemma sizing_spec : size_ok (reply_payload_len reply) -> size_ok (from_option zlen 0 (reply_error reply)) ->
  match ducknng_size_add DUCKNNG_WIRE_HEADER_LEN (zlen (default [] (m_name d))) with
  | None => None
  | Some expected_prefix =>
    match ducknng_size_add expected_prefix (from_option zlen 0 (reply_error reply)) with
    | None => None
    | Some expected_prefix =>
      match ducknng_size_add expected_prefix (reply_payload_len reply) with
      | None => None
      | Some message_size => Some (expected_prefix, message_size)
      end
    end
  end = if parts_total reply_parts <=? SIZE_MAX
    then Some (parts_total reply_parts - reply_payload_len reply, parts_total reply_parts) else None.
Proof using Hname.
  intros HL HE. unfold parts_total. cbn [reply_parts p_name_len p_error_len p_payload_len]. rewrite name_len.
  pose proof (zlen_nonneg (default [] (m_name d))) as HN. unfold size_ok in *.
  unfold DUCKNNG_MAX_METHOD_NAME_LEN, DUCKNNG_WIRE_HEADER_LEN in *.
  set (N := zlen (default [] (m_name d))) in *. set (E := from_option zlen 0 (reply_error reply)) in *.
  set (L := reply_payload_len reply) in *.
  rewrite size_add_ok by (unfold SIZE_MAX, UINT64_MAX in *; lia).
  destruct (Z.leb_spec (22 + N + E + L) SIZE_MAX) as [Hle|Hgt].
  - rewrite (size_add_ok (22 + N)), (size_add_ok (22 + N + E)) by lia. f_equal. f_equal. lia.
  - destruct (ducknng_size_add (22 + N) E) as [x|] eqn:Ex; [|done].
    apply size_add_spec in Ex as [H1 ->]; [|unfold size_ok, SIZE_MAX, UINT64_MAX in *; lia..].
    assert (ducknng_size_add (22 + N + E) L = None) as ->; [|done].
    apply size_add_none; unfold size_ok; lia.
Qed.

Lemma finish_prebuilt_cases body : prebuilt_msg reply = Some body ->
  let ok := prefix_size reply = parts_total reply_parts - reply_payload_len reply /\
    zlen body = parts_total reply_parts /\ reply_payload reply = None /\ parts_valid true reply_parts in
  let msg := finish_prebuilt alloc d reply body in
  ok /\ sends msg \/ ~ ok /\ error_reply (m_name d) DUCKNNG_STATUS_INTERNAL msg.
Proof using Halloc Hwf Hname.
  intros Hp ok msg. unfold msg, finish_prebuilt, ok. clear msg ok.
  rewrite sizing_spec by apply Hwf. fold prefix_parts.
  destruct (Z.leb_spec (parts_total reply_parts) SIZE_MAX) as [Hle|Hgt].
  2:{ right. split; [intros (_ & _ & _ & [])|apply internal_reply; vm_compute; intuition congruence]. lia. }
  destruct (negb _ || negb _ || _)%bool eqn:Es.
  { right. split; [|apply internal_reply; vm_compute; intuition congruence]. intros (H1 & H2 & H3 & _).
    by rewrite H1, H2, H3, !Z.eqb_refl in Es. }
  rewrite !orb_false_iff, !negb_false_iff, !Z.eqb_eq, bool_decide_eq_false in Es. destruct Es as [[H1 H2] H3].
  assert (reply_payload reply = None) as H3' by (destruct (reply_payload reply); [by destruct H3|done]).
  pose proof prefix_parts_wf as Hpw. pose proof prefix_parts_total as Hpt.
  pose proof (rw_len Hwf) as HL. unfold size_ok in HL.
  destruct (ducknng_frame_parts_validate prefix_parts false) as [n|] eqn:Ev.
  - apply (validate_spec _ _ _ Hpw) in Ev as [Hv _].
    pose proof (proj1 (prefix_parts_valid body Hp) Hv) as Hv'.
    rewrite (encode_prefix_spec _ Hpw) by (try done; rewrite Hpt; cbn; lia).
    cbn [e_rc e_written e_dest]. rewrite Hpt. cbn [prefix_parts p_payload_len].
    rewrite <- H1, !Z.eqb_refl. cbn [negb orb]. left. split; [done|].
    assert (reply_body = Some (zdrop (prefix_size reply) body)) as Hb by (unfold reply_body; by rewrite Hp).
    assert (zlen (zdrop (prefix_size reply) body) = reply_payload_len reply) as Hz.
    { pose proof (zlen_nonneg body). rewrite zlen_zdrop; [lia|]. rewrite H1. split; [|lia].
      unfold parts_total, DUCKNNG_WIRE_HEADER_LEN. cbn. pose proof name_size. unfold size_ok in *.
      pose proof (rw_error Hwf). unfold size_ok in *. lia. }
    match goal with |- sends (Some ?x) => assert (x = image_of reply_parts) as -> end.
    { unfold image_of. cbn [reply_parts p_payload p_payload_len p_name p_error p_error_len p_name_len]. rewrite Hb.
      unfold slice. cbn [default from_option id]. rewrite <- Hz, ztake_all, name_len.
      unfold header_of. cbn [prefix_parts reply_parts p_type p_name_len p_error_len p_payload_len].
      by rewrite name_len. }
    apply sends_image; [|done]. unfold reply_parts. rewrite Hb. apply parts_wf_with; [apply Hwf|cbn; lia].
  - right. split.
    { intros (_ & _ & _ & Hv). apply (prefix_parts_valid body Hp) in Hv.
      by rewrite (proj2 (validate_spec _ false _ Hpw) (conj Hv eq_refl)) in Ev. }
    unfold ducknng_encode_frame_prefix. rewrite Ev. cbn [e_rc]. cbn [negb orb Z.eqb].
    apply internal_reply; vm_compute; intuition congruence.
Qed.

Lemma dispatch_reply_cases rc :
  let msg := dispatch_reply alloc d rc reply in
  acceptable rc /\ sends msg \/
  ~ acceptable rc /\ (error_reply (m_name d) DUCKNNG_STATUS_INTERNAL msg \/
    max_reply_bytes d < reply_payload_len reply /\ error_reply (m_name d) DUCKNNG_STATUS_BUSY msg).
Proof using Halloc Hwf Hname.
  cbv zeta. unfold dispatch_reply.
  destruct (negb (rc =? 0) && negb (reply_type reply =? DUCKNNG_RPC_ERROR))%bool eqn:E1.
  { right. rewrite andb_true_iff, !negb_true_iff, !Z.eqb_neq in E1. split; [intros []; tauto|].
    left. apply internal_reply; vm_compute; intuition congruence. }
  destruct ((reply_type reply =? DUCKNNG_RPC_RESULT) && extra_flags _ _)%bool eqn:E2.
  { right. rewrite andb_true_iff, Z.eqb_eq in E2. split; [intros []; intuition congruence|].
    left. apply internal_reply; vm_compute; intuition congruence. }
  destruct ((0 <? max_reply_bytes d) && (max_reply_bytes d <? reply_payload_len reply))%bool eqn:E3.
  { right. rewrite andb_true_iff, !Z.ltb_lt in E3. split; [intros []; lia|].
    right. split; [lia|]. apply internal_reply; vm_compute; intuition congruence. }
  assert (rc = 0 \/ reply_type reply = DUCKNNG_RPC_ERROR) as A1.
  { rewrite andb_false_iff, !negb_false_iff, !Z.eqb_eq in E1. done. }
  assert (reply_type reply = DUCKNNG_RPC_RESULT -> extra_flags (reply_flags reply) (emitted_reply_flags d) = false) as A2.
  { intros Ht. by rewrite Ht, Z.eqb_refl in E2. }
  assert (max_reply_bytes d <= 0 \/ reply_payload_len reply <= max_reply_bytes d) as A3.
  { rewrite andb_false_iff, !Z.ltb_ge in E3. done. }
  destruct (prebuilt_msg reply) as [body|] eqn:Ep.
  - destruct (finish_prebuilt_cases body Ep) as [[(H1 & H2 & H3 & H4) Hs]|[Hn He]].
    + left. split; [|done]. split; try done. rewrite Ep. intros b [= <-]. done.
    + right. split; [|by left]. intros [_ _ _ Hp Hv]. apply Hn. destruct (Hp body Ep) as (H1 & H2 & H3). done.
  - destruct (build_reply_cases Ep) as [[Hv Hs]|[Hn He]]; cbv zeta in *.
    + left. split; [split; try done; by rewrite Ep|]. destruct Hs as (m & Hm & Hd). rewrite Hm. by exists m.
    + right. split; [intros []; done|]. left. rewrite He. apply internal_reply; vm_compute; intuition congruence.
Qed.
End replies.

(** ** Accounting *)

(** A handler that neither begins nor ends a request leaves the accounting of
    the outstanding requests alone (it may open sessions). *)
Definition keeps_accounting (lim : service_limits)
    (run_handler : server -> ducknng_method_descriptor -> ducknng_request_context ->
      server * Z * ducknng_method_reply) : Prop :=
  forall svc d ctx out, inflight_inv lim (mk_inflight (sv_load svc) out) ->
    inflight_inv lim (mk_inflight (sv_load (run_handler svc d ctx).1.1) out).

Lemma dispatch_keeps alloc run_handler lim svc frame caller dec now out :
  keeps_accounting lim run_handler -> inflight_inv lim (mk_inflight (sv_load svc) out) ->
  inflight_inv lim (mk_inflight (sv_load
    (ducknng_dispatch_request alloc run_handler svc frame caller dec now).1) out).
Proof.
  intros Hk Hinv. unfold ducknng_dispatch_request.
  destruct (ducknng_service_peer_admission_check _ _); [done|]. destruct (_ && _)%bool; [done|].
  destruct (if f_type frame =? DUCKNNG_RPC_MANIFEST then _ else _) as [d|]; [|done].
  destruct (dispatch_refusal d frame caller) as [[]|]; [done|].
  specialize (Hk (set_sessions (ducknng_service_prune_idle_sessions (sv_session_idle_ms svc) now
    (sv_sessions svc)).1 svc) d (mk_req_ctx frame caller (d_principal dec) (d_claims_json dec)) out Hinv).
  by destruct (run_handler _ _ _) as [[svc' rc] reply].
Qed.

Lemma begin_end_keeps lim svc load caller out f n :
  inflight_inv lim (mk_inflight (sv_load svc) out) ->
  ducknng_service_begin_request lim (sv_shutting_down svc) (sv_load svc) caller = (load, None) ->
  (inflight_inv lim (mk_inflight load (caller :: out)) -> inflight_inv lim (mk_inflight f (caller :: out))) ->
  inflight_inv lim (mk_inflight (ducknng_service_end_request f caller n) out).
Proof. intros Hinv Hb Hf. apply (inv_end _ _ (caller :: out)); [|done]. apply Hf. by eapply inv_begin. Qed.

Section balanced.
Context (alloc : Z -> option bytes).
Context (run_handler : server -> ducknng_method_descriptor -> ducknng_request_context ->
  server * Z * ducknng_method_reply).
Context (misread : sql_cell -> option bytes) (run_sql : ducknng_authorizer_context -> bytes -> sql_outcome).

Lemma handle_frame_balanced svc frame ctx now out :
  keeps_accounting (sv_limits svc) run_handler ->
  inflight_inv (sv_limits svc) (mk_inflight (sv_load svc) out) ->
  inflight_inv (sv_limits svc) (mk_inflight (sv_load
    (handle_frame alloc run_handler misread run_sql svc frame ctx now).1) out).
Proof.
  intros Hk Hinv. unfold handle_frame. destruct (ducknng_service_network_admission_check _ _ _); [done|].
  destruct (ducknng_service_begin_request _ _ _ _) as [load [e|]] eqn:Eb.
  { cbn. by eapply inv_refused. }
  destruct (ducknng_service_authorize_request _ _ _ _ _) as [rc dec]. destruct (negb (rc =? 0)).
  { cbn. by eapply begin_end_keeps. }
  pose proof (dispatch_keeps alloc run_handler (sv_limits svc) (set_load load svc) frame
    (ac_caller_identity ctx) dec now (ac_caller_identity ctx :: out) Hk) as Hd.
  destruct (ducknng_dispatch_request _ _ _ _ _ _ _) as [svc' reply]. cbn in *. by eapply begin_end_keeps.
Qed.
Lemma dispatch_frame_balanced svc req body_len caller remote scheme meth path ctype now out :
  keeps_accounting (sv_limits svc) run_handler ->
  inflight_inv (sv_limits svc) (mk_inflight (sv_load svc) out) ->
  inflight_inv (sv_limits svc) (mk_inflight (sv_load (ducknng_service_authorize_and_dispatch_frame alloc run_handler
    misread run_sql svc req body_len caller remote scheme meth path ctype now).1) out).
Proof.
  intros Hk Hinv. unfold ducknng_service_authorize_and_dispatch_frame.
  destruct (ducknng_decode_frame_bytes req body_len) as [frame|]; [|done].
  destruct (ducknng_service_network_admission_check _ _ _); [done|].
  destruct (ducknng_service_begin_request _ _ _ _) as [load [e|]] eqn:Eb; [cbn; by eapply inv_refused|].
  destruct (ducknng_service_authorize_request _ _ _ _ _) as [rc dec].
  destruct (negb (rc =? 0)); [cbn; by eapply begin_end_keeps|].
  unfold ducknng_handle_decoded_request.
  pose proof (dispatch_keeps alloc run_handler (sv_limits svc) (set_load load svc) frame caller dec now
    (caller :: out) Hk) as Hd.
  destruct (ducknng_dispatch_request _ _ _ _ _ _ _) as [svc' [m|]]; cbn in *; by eapply begin_end_keeps.
Qed.
End balanced.

(** ** Claims *)

(** C4.  The authorizer fails closed.  A request is authorized exactly when the
    network check admits it and either no authorizer is installed or its
    query answers with a single row whose BOOLEAN column [allow] is TRUE (the
    name compared without case).  Every other answer (no row, more rows, NULL,
    another type, a query error) refuses, with an HTTP error status between
    100 and 599 that is never 200, and with a reason. *)
Theorem authorizer_fails_closed misread run_sql svc ctx d0 :
  let '(rc, d) := ducknng_service_authorize_request misread run_sql svc ctx d0 in
  (rc = 0 <->
   ducknng_service_network_admission_check svc (ac_caller_identity ctx) (ac_remote_addr ctx) = None /\
   ((authorizer_active svc && nonempty (authorizer_sql svc))%bool = false \/
    exists sql r, authorizer_sql svc = Some sql /\ run_sql ctx sql = sql_rows r /\ grants r)) /\
  (rc <> 0 -> d_allow d = 0 /\ 100 <= d_http_status d <= 599 /\ d_http_status d <> 200 /\ d_reason d <> None).
Proof.
  unfold ducknng_service_authorize_request.
  set (d1 := mk_decision 1 200 (d_reason d0) (d_principal d0) (d_claims_json d0) (d_cache_ttl_ms d0)).
  destruct (ducknng_service_network_admission_check _ _ _) as [e|].
  { split; [split; [lia|naive_solver]|]. intros _. cbn. repeat split; try lia; done. }
  unfold given_sql. destruct (authorizer_active svc), (authorizer_sql svc) as [[|x sql]|]; cbn [nonempty andb];
    try (split; [split; [intros _; split; [done|by left]|done]|done]).
  pose proof (run_authorizer_grants misread run_sql ctx (x :: sql) d1) as H.
  destruct (ducknng_service_run_sql_authorizer _ _ _ _ _) as [[rc d] e]. destruct H as (H1 & H2 & H3).
  destruct (Z.eqb_spec rc 0) as [->|Hne]; cbn [negb].
  - split; [|done]. split; [|done]. intros _. split; [done|]. right. destruct (proj1 H1 eq_refl) as (r & Hr & Hg). eauto.
  - split.
    + split; [lia|]. intros [_ [?|(s & r & [= <-] & Hr & Hg)]]; [done|]. destruct Hne. apply H1. eauto.
    + intros _. destruct (H3 Hne) as [Hs Hre]. cbn [deny d_allow d_http_status d_reason].
      split; [done|]. split; [|split].
      * destruct (Z.eqb_spec (d_http_status d) 200); [lia|]. destruct Hs as [Hs| ->]; [lia|done].
      * destruct (Z.eqb_spec (d_http_status d) 200); lia.
      * destruct (d_reason d) as [[|]|]; cbn [nonempty negb]; rewrite ?andb_true_r, ?andb_false_r; try done.
        -- destruct (bool_decide (e <> None)) eqn:Ee; [by apply bool_decide_eq_true in Ee|done].
        -- destruct Hre as [?|He]; [done|]. by rewrite bool_decide_eq_true_2.
Qed.

(** C2.  No handler runs before every gate has passed.  For any service,
    request and caller, either the request satisfies [may_run] for the method
    its frame names (peer admitted, method registered, enabled, flags and size
    accepted, identity present where required) and the answer is what that
    method's handler produces on the service with idle sessions pruned; or it
    satisfies [may_run] for no method, and then the answer does not depend on
    any handler: the service is unchanged but for pruning and the reply is a
    decodable UNAUTHORIZED, INVALID, NOT_FOUND or DISABLED error. *)
Theorem dispatch_gates alloc svc frame caller dec now
  (Halloc : alloc_works alloc) (Hflags : 0 <= f_flags frame <= UINT32_MAX)
  (Hnames : forall name n d, ducknng_method_registry_find (sv_registry svc) (Some name) n = Some d ->
    zlen (default [] (m_name d)) <= DUCKNNG_MAX_METHOD_NAME_LEN) :
  let pruned := set_sessions
    (ducknng_service_prune_idle_sessions (sv_session_idle_ms svc) now (sv_sessions svc)).1 svc in
  (exists d, may_run svc frame caller d /\ forall run_handler,
     ducknng_dispatch_request alloc run_handler svc frame caller dec now =
     let '(svc', rc, reply) := run_handler pruned d
       (mk_req_ctx frame caller (d_principal dec) (d_claims_json dec)) in
     (svc', dispatch_reply alloc d rc reply)) \/
  ((forall d, ~ may_run svc frame caller d) /\
   exists svc' msg name status, (svc' = svc \/ svc' = pruned) /\
     status ∈ [DUCKNNG_STATUS_UNAUTHORIZED; DUCKNNG_STATUS_INVALID; DUCKNNG_STATUS_NOT_FOUND;
       DUCKNNG_STATUS_DISABLED] /\ error_reply name status msg /\
     forall run_handler, ducknng_dispatch_request alloc run_handler svc frame caller dec now = (svc', msg)).
Proof.
  intros pruned. unfold ducknng_dispatch_request. fold pruned. change (sv_registry pruned) with (sv_registry svc).
  destruct (ducknng_service_peer_admission_check (sv_policy svc) caller) as [e|] eqn:Ea.
  { right. split; [intros d []; congruence|]. eexists svc, _, None, DUCKNNG_STATUS_UNAUTHORIZED.
    split; [by left|]. split; [set_solver|]. split; [|done].
    apply error_reply_ok; try done. by eapply admission_text. }
  destruct (negb _ && negb _)%bool eqn:Et.
  { right. rewrite andb_true_iff, !negb_true_iff, !Z.eqb_neq in Et. split; [intros d []; naive_solver|].
    eexists pruned, _, None, DUCKNNG_STATUS_INVALID. split; [by right|]. split; [set_solver|]. split; [|done].
    apply error_reply_ok; try done; vm_compute; intuition congruence. }
  set (method := if f_type frame =? DUCKNNG_RPC_MANIFEST then _ else _).
  assert (forall d, f_type frame = DUCKNNG_RPC_MANIFEST /\
      ducknng_method_registry_find (sv_registry svc) (Some (lit "manifest")) (zlen (lit "manifest")) = Some d \/
    f_type frame = DUCKNNG_RPC_CALL /\
      ducknng_method_registry_find (sv_registry svc) (Some (f_name frame)) (f_name_len frame) = Some d <->
    method = Some d) as Hm.
  { intros d. unfold method. rewrite andb_false_iff, !negb_false_iff, !Z.eqb_eq in Et.
    destruct (Z.eqb_spec (f_type frame) DUCKNNG_RPC_MANIFEST) as [He|He]; rewrite ?He; [|naive_solver].
    split; [intros [[_ ?]|[? _]]; done|by left]. }
  destruct method as [d|].
  2:{ right. split; [intros d' []; naive_solver|]. eexists pruned, _, None, DUCKNNG_STATUS_NOT_FOUND.
      split; [by right|]. split; [set_solver|]. split; [|done].
      apply error_reply_ok; try done; vm_compute; intuition congruence. }
  assert (zlen (default [] (m_name d)) <= DUCKNNG_MAX_METHOD_NAME_LEN) as Hn
    by (destruct (proj2 (Hm d) eq_refl) as [[_ H]|[_ H]]; by eapply Hnames).
  pose proof (refusal_spec d frame caller Hflags) as Hr.
  destruct (dispatch_refusal d frame caller) as [[status text]|].
  - destruct Hr as (Hst & Htext & Hno). right. split.
    { intros d' Hd. pose proof (proj1 (Hm d') (mr_method _ _ _ _ Hd)) as [= <-]. by apply (Hno svc). }
    eexists pruned, _, (m_name d), status. split; [by right|].
    split; [destruct Hst as [[_ ->]|[-> | ->]]; set_solver|]. split; [|done].
    apply error_reply_ok; try done. destruct Hst as [[_ ->]|[-> | ->]]; vm_compute; intuition congruence.
  - left. exists d. split; [|done]. destruct Hr as (H1 & H2 & H3 & H4). by split; [|apply Hm|..].
Qed.

(** Every reply that leaves the dispatcher is well formed.  Whatever a
    handler returns, the answer decodes: either the handler's reply was
    acceptable (it succeeded or gave a structured error, its flags and size
    are within what the method declared, its fields and any message built in
    place are consistent) and the answer carries exactly its type, status,
    flags, error and payload under the method's name; or it was not, and the
    answer is an INTERNAL error (BUSY for a payload over the method's limit)
    that carries nothing of it. *)
Theorem dispatch_reply_exact alloc d rc reply
  (Halloc : alloc_works alloc) (Hwf : reply_wf reply)
  (Hname : zlen (default [] (m_name d)) <= DUCKNNG_MAX_METHOD_NAME_LEN) :
  let msg := dispatch_reply alloc d rc reply in
  acceptable d reply rc /\
    (exists m, msg = Some m /\ ducknng_decode_request (Some m) = Some (frame_of (reply_parts d reply))) \/
  ~ acceptable d reply rc /\
    (error_reply (m_name d) DUCKNNG_STATUS_INTERNAL msg \/
     max_reply_bytes d < reply_payload_len reply /\ error_reply (m_name d) DUCKNNG_STATUS_BUSY msg).
Proof. by apply dispatch_reply_cases. Qed.

(** C20.  A request is accounted for on every path.  Through each of the three
    entry points (undecodable, not admitted, over a limit, not authorized,
    refused or run, with or without a reply) the in-flight accounting of the
    service is afterwards exact for the same set of outstanding requests as
    before: whatever was begun has been ended. *)
Theorem request_balanced alloc run_handler misread run_sql svc req caller remote now out
  (Hk : keeps_accounting (sv_limits svc) run_handler)
  (Hinv : inflight_inv (sv_limits svc) (mk_inflight (sv_load svc) out)) :
  let after s := inflight_inv (sv_limits svc) (mk_inflight (sv_load s) out) in
  after (ducknng_handle_request alloc run_handler misread run_sql svc req caller remote now).1 /\
  after (ducknng_handle_request_with_identity alloc run_handler misread run_sql svc req caller now).1 /\
  forall body_len scheme meth path ctype,
    after (ducknng_service_authorize_and_dispatch_frame alloc run_handler misread run_sql svc req body_len
      caller remote scheme meth path ctype now).1.
Proof.
  intros after. split; [|split].
  - unfold ducknng_handle_request. destruct (ducknng_decode_request req); [|done]. by apply handle_frame_balanced.
  - unfold ducknng_handle_request_with_identity. destruct (ducknng_decode_request req); [|done].
    by apply handle_frame_balanced.
  - intros. by apply dispatch_frame_balanced.
Qed.

(** A service with one method, and handlers that answer with a result. *)
Definition demo_server : server :=
  mk_server demo_policy (mk_limits 0 0 0 0 0 0 0) false 0 empty_load (mk_table ∅ [] 0 0 1)
    (mk_registry [mk_slot (demo_method "exec") false] 8).

Definition demo_alloc (n : Z) : option bytes := Some (replicate (Z.to_nat n) 0).

Lemma demo_alloc_works : alloc_works demo_alloc.
Proof.
  intros n Hn. exists (replicate (Z.to_nat n) 0). split; [done|]. unfold zlen. rewrite length_replicate. lia.
Qed.

Definition demo_reply : ducknng_method_reply :=
  mk_reply DUCKNNG_RPC_RESULT 0 (Some (lit "rows")) None 4 0 None DUCKNNG_STATUS_OK.

Definition demo_handler (svc : server) (d : ducknng_method_descriptor) (ctx : ducknng_request_context)
    : server * Z * ducknng_method_reply := (svc, 0, demo_reply).

Definition demo_frame (name : string) : ducknng_frame :=
  mk_frame 1 DUCKNNG_RPC_CALL 0 0 (lit name) (zlen (lit name)) [] 0 [] 0.

Lemma demo_names name n d :
  ducknng_method_registry_find (sv_registry demo_server) (Some name) n = Some d ->
  zlen (default [] (m_name d)) <= DUCKNNG_MAX_METHOD_NAME_LEN.
Proof.
  cbn [ducknng_method_registry_find sv_registry demo_server methods registry_find_loop].
  destruct (m_name (slot_method (mk_slot (demo_method "exec") false))); [|done].
  destruct (_ && _)%bool; [|done]. intros [= <-]. vm_compute. congruence.
Qed.

Lemma dispatch_gates_witness :
  (exists msg, (ducknng_dispatch_request demo_alloc demo_handler demo_server (demo_frame "exec") None
     ducknng_authorizer_decision_init 0).2 = Some msg) /\
  (forall h h', ducknng_dispatch_request demo_alloc h demo_server (demo_frame "drop") None
     ducknng_authorizer_decision_init 0 =
   ducknng_dispatch_request demo_alloc h' demo_server (demo_frame "drop") None
     ducknng_authorizer_decision_init 0).
Proof.
  split.
  - destruct (dispatch_gates demo_alloc demo_server (demo_frame "exec") None
      ducknng_authorizer_decision_init 0 demo_alloc_works ltac:(vm_compute; split; discriminate) demo_names)
      as [(d & Hd & H)|[Hn _]].
    + eexists. rewrite H. cbn [demo_handler snd]. pose proof (mr_method _ _ _ _ Hd) as Hm.
      destruct Hm as [[Ht _]|[_ Hm]]; [discriminate|].
      assert (d = demo_method "exec") as -> by (vm_compute in Hm; injection Hm as <-; reflexivity).
      reflexivity.
    + destruct (Hn (demo_method "exec")). split; try reflexivity.
      * right. split; reflexivity.
      * intros k _ Hk. cbn in Hk. rewrite Z.bits_0 in Hk. discriminate.
      * left. vm_compute. discriminate.
      * left. reflexivity.
  - intros h h'. destruct (dispatch_gates demo_alloc demo_server (demo_frame "drop") None
      ducknng_authorizer_decision_init 0 demo_alloc_works ltac:(vm_compute; split; discriminate) demo_names)
      as [(d & Hd & _)|(_ & svc' & msg & name & status & _ & _ & _ & H)].
    + destruct (mr_method _ _ _ _ Hd) as [[Ht _]|[_ Hm]]; [discriminate|]. vm_compute in Hm. discriminate.
    + rewrite (H h), (H h'). reflexivity.
Defined.

Lemma dispatch_reply_exact_witness :
  exists m, dispatch_reply demo_alloc (demo_method "exec") 0 demo_reply = Some m /\
    ducknng_decode_request (Some m) = Some (frame_of (reply_parts (demo_method "exec") demo_reply)).
Proof.
  assert (reply_wf demo_reply) as Hwf by (split; vm_compute; intuition congruence).
  destruct (dispatch_reply_exact demo_alloc (demo_method "exec") 0 demo_reply demo_alloc_works Hwf
    ltac:(vm_compute; discriminate)) as [[_ H]|[Hn _]]; [exact H|].
  destruct Hn. split.
  - left. reflexivity.
  - intros _. reflexivity.
  - left. vm_compute. discriminate.
  - intros body Hb. discriminate.
  - split; vm_compute; intuition congruence.
Defined.

Lemma request_balanced_witness :
  inflight_request_count (sv_load (ducknng_handle_request demo_alloc demo_handler (fun _ => None)
    (fun _ _ => sql_failed None) demo_server (Some manifest_request) (Some (lit "alice")) None 0).1) = 0.
Proof.
  pose proof (empty_load_inv (sv_limits demo_server)) as Hinv.
  destruct (request_balanced demo_alloc demo_handler (fun _ => None) (fun _ _ => sql_failed None) demo_server
    (Some manifest_request) (Some (lit "alice")) None 0 [] ltac:(intros svc d ctx out H; exact H) Hinv) as [H _].
  exact (inv_total _ _ H).
Defined.
