(* ===== verification/HttpRoute.v ===== *)
(** The HTTP route table of a service: validation, matching, registration and
    lookup in [src/src/ducknng_service.c], and the route-local identity check
    of [src/src/ducknng_http_compat.c].

    The array of routes is a list.  The path part of the listen URL, which
    [nng_url_parse] extracts, is a field of the table.  Every change runs under
    the service mutex.  Allocation failures are not modelled.  The segment
    loops carry the length of the pattern as fuel: every round consumes a
    segment. *)

From S2P Require Import Prelude Util Transport.

(** ** Data *)

Definition DUCKNNG_HTTP_ROUTE_MATCH_EXACT : Z := 1.
Definition DUCKNNG_HTTP_ROUTE_MATCH_PREFIX : Z := 2.
Definition DUCKNNG_HTTP_ROUTE_MATCH_TEMPLATE : Z := 3.

Definition DUCKNNG_HTTP_ROUTE_RESPONSE_ONESHOT : Z := 0.
Definition DUCKNNG_HTTP_ROUTE_RESPONSE_STREAM : Z := 1.
Definition DUCKNNG_HTTP_ROUTE_RESPONSE_EVENTS : Z := 2.

Definition DUCKNNG_HTTP_EVENT_HEARTBEAT_MIN_MS : Z := 100.
Definition DUCKNNG_HTTP_EVENT_HEARTBEAT_MAX_MS : Z := 300000.

Record ducknng_http_route := mk_route {
  route_id : Z; match_kind : Z; response_mode : Z; r_method : bytes; r_path : bytes;
  handler_sql : bytes; request_max_bytes : Z; static_dir_path : option bytes;
  stream_content_type : option bytes; event_heartbeat_ms : Z;
  auth_require_identity : Z; auth_allow_identities_json : option bytes }.

(** The fields of a service the routes live in. *)
Record route_table := mk_routes {
  http_routes : list ducknng_http_route; http_route_cap : Z; next_http_route_id : Z;
  listen_url : option bytes; mount_path : option bytes; recv_max_bytes : Z }.

Definition set_mode (mode : Z) (ct : option bytes) (heartbeat : Z) (r : ducknng_http_route) : ducknng_http_route :=
  mk_route (route_id r) (match_kind r) mode (r_method r) (r_path r) (handler_sql r) (request_max_bytes r)
    (static_dir_path r) ct heartbeat (auth_require_identity r) (auth_allow_identities_json r).

Definition set_auth (require : Z) (allow : option bytes) (r : ducknng_http_route) : ducknng_http_route :=
  mk_route (route_id r) (match_kind r) (response_mode r) (r_method r) (r_path r) (handler_sql r)
    (request_max_bytes r) (static_dir_path r) (stream_content_type r) (event_heartbeat_ms r) require allow.

Definition with_routes (routes : list ducknng_http_route) (cap next : Z) (t : route_table) : route_table :=
  mk_routes routes cap next (listen_url t) (mount_path t) (recv_max_bytes t).

(** ** Methods and paths *)

Definition upper_char (ch : Z) : Z := if ((97 <=? ch) && (ch <=? 122))%bool then ch - 32 else ch.

Definition ducknng_http_route_method_normalize_dup (method : option bytes) : result bytes bytes :=
  match method with
  | None | Some [] => Err (lit "ducknng: HTTP route method is required")
  | Some m =>
    let out := upper_char <$> m in
    if negb (ducknng_http_token_is_valid (Some out))
    then Err (lit "ducknng: HTTP route method must be an HTTP token") else Ok out
  end.

Definition ducknng_http_route_path_valid (path : option bytes) : bool :=
  match path with
  | Some path =>
    ((cur path =? chr "/") && forallb (fun c => negb ((c =? chr "?") || (c =? chr "#"))) path)%bool
  | None => false
  end.

Definition ducknng_http_route_match_kind_parse (kind : option bytes) : result bytes Z :=
  if negb (nonempty kind) then Ok DUCKNNG_HTTP_ROUTE_MATCH_EXACT else
  if ducknng_ascii_ieq kind (Some (lit "exact")) then Ok DUCKNNG_HTTP_ROUTE_MATCH_EXACT else
  if ducknng_ascii_ieq kind (Some (lit "prefix")) then Ok DUCKNNG_HTTP_ROUTE_MATCH_PREFIX else
  if ducknng_ascii_ieq kind (Some (lit "template")) then Ok DUCKNNG_HTTP_ROUTE_MATCH_TEMPLATE else
  Err (lit "ducknng: HTTP route match_kind must be exact, prefix, or template").

Definition name_start (ch : Z) : bool :=
  (((97 <=? ch) && (ch <=? 122)) || ((65 <=? ch) && (ch <=? 90)) || (ch =? chr "_"))%bool.

Definition ducknng_http_route_template_param_name_valid (name : bytes) : bool :=
  match name with
  | [] => false
  | c :: rest =>
    (name_start c && forallb (fun ch => name_start ch || ((48 <=? ch) && (ch <=? 57)))%bool rest)%bool
  end.

(** The last character of a segment, and the segment without its ends. *)
Definition last_char (seg : bytes) : Z := default 0 (last seg).
Definition inner (seg : bytes) : bytes := ztake (zlen seg - 2) (zdrop 1 seg).

(** [memchr(seg, c, len)], as an index. *)
Definition memchr (c : Z) (seg : bytes) : option nat := find_index (fun x => x =? c) seg.

(** The check of one segment; [None] for a literal. *)
Definition param_segment (seg : bytes) : option (result bytes unit) :=
  if ((cur seg =? chr "{") || (last_char seg =? chr "}"))%bool then
    Some (
      if (negb (cur seg =? chr "{") ||
          bool_decide (memchr (chr "}") seg <> Some (Z.to_nat (zlen seg - 1))) || (zlen seg <? 3) ||
          bool_decide (memchr (chr "{") (inner seg) <> None) ||
          bool_decide (memchr (chr "}") (inner seg) <> None))%bool
      then Err (lit "ducknng: HTTP route template segments must use {name} and occupy a whole path segment")
      else if negb (ducknng_http_route_template_param_name_valid (inner seg))
      then Err (lit "ducknng: HTTP route template parameter names must match [A-Za-z_][A-Za-z0-9_]*")
      else Ok tt)
  else None.

Fixpoint template_valid_loop (fuel : nat) (seg : bytes) (saw_param : bool) : result bytes bool :=
  match fuel with
  | O => Err out_of_fuel
  | S fuel =>
    let (s, slash) := break_at (chr "/") seg in
    match s, slash with
    | [], None => Ok saw_param
    | [], Some rest => template_valid_loop fuel rest saw_param
    | _, _ =>
      let! saw_param := match param_segment s with
        | Some r => let! _ := r in Ok true
        | None => Ok saw_param end in
      match slash with
      | None => Ok saw_param
      | Some rest => template_valid_loop fuel rest saw_param
      end
    end
  end.

Definition ducknng_http_route_template_valid (path : bytes) : result bytes unit :=
  let! saw_param := template_valid_loop (S (length path)) (zdrop 1 path) false in
  if saw_param then Ok tt
  else Err (lit "ducknng: template routes must include at least one {name} segment").

Definition ducknng_http_route_pattern_valid (kind : Z) (path : option bytes) : result bytes unit :=
  if negb (ducknng_http_route_path_valid path)
  then Err (lit "ducknng: HTTP route path must be an absolute path without query or fragment") else
  if kind =? DUCKNNG_HTTP_ROUTE_MATCH_TEMPLATE
  then ducknng_http_route_template_valid (default [] path) else Ok tt.

(** ** Matching *)

Definition ducknng_http_route_prefix_matches (pattern path : bytes) : bool :=
  let len := zlen pattern in
  if len =? 0 then false else
  if negb (str_eq (ztake len path) pattern) then false else
  if zlen path =? len then true else
  if last_char pattern =? chr "/" then true else
  byte_at path len =? chr "/".

Definition route_escape (ch : Z) : bytes :=
  if ch =? QUOTE then [BACKSLASH; QUOTE] else
  if ch =? BACKSLASH then [BACKSLASH; BACKSLASH] else
  if ch =? 8 then BACKSLASH :: lit "b" else
  if ch =? 12 then BACKSLASH :: lit "f" else
  if ch =? 10 then BACKSLASH :: lit "n" else
  if ch =? 13 then BACKSLASH :: lit "r" else
  if ch =? 9 then BACKSLASH :: lit "t" else
  if ch <? 0x20 then unicode_escape ch else [ch].

Definition ducknng_http_route_json_append_string (buf src : bytes) : bytes :=
  buf ++ json_quote route_escape src.

Definition skip_slash (p : bytes) : bytes := if cur p =? chr "/" then zdrop 1 p else p.

(** One capture appended to the object; [None] is the buffer not yet started. *)
Definition append_param (params : option bytes) (name value : bytes) : bytes :=
  let buf := match params with None => lit "{" | Some buf => buf ++ lit "," end in
  ducknng_http_route_json_append_string
    (ducknng_http_route_json_append_string buf name ++ lit ":") value.

(** The cursors stay on the slash that ends a segment; [Some None] matches
    without a capture, [None] does not match. *)
Fixpoint template_matches_loop (fuel : nat) (pat req : bytes) (params : option bytes)
    : option (option bytes) :=
  match fuel with
  | O => None
  | S fuel =>
    let (pseg, pat_next) := break_at (chr "/") (skip_slash pat) in
    let (rseg, req_next) := break_at (chr "/") (skip_slash req) in
    match pseg, rseg with
    | [], [] => Some params
    | [], _ | _, [] => None
    | _, _ =>
      let step :=
        if ((cur pseg =? chr "{") && (last_char pseg =? chr "}"))%bool
        then Some (Some (append_param params (inner pseg) rseg))
        else if str_eq pseg rseg then Some params else None in
      match step with
      | None => None
      | Some params =>
        match pat_next, req_next with
        | None, None => Some params
        | Some p, Some r => template_matches_loop fuel (chr "/" :: p) (chr "/" :: r) params
        | _, _ => None
        end
      end
    end
  end.

(** The captures as a JSON object; [None] when the path does not match. *)
Definition ducknng_http_route_template_matches (pattern path : bytes) : option bytes :=
  match template_matches_loop (S (length pattern)) pattern path None with
  | None => None
  | Some params => Some (match params with Some buf => buf ++ lit "}" | None => lit "{}" end)
  end.

(** Whether the path matches, with the captures of a template. *)
Definition ducknng_http_route_pattern_matches (kind : Z) (pattern path : bytes) : bool * option bytes :=
  if kind =? DUCKNNG_HTTP_ROUTE_MATCH_PREFIX then (ducknng_http_route_prefix_matches pattern path, None) else
  if kind =? DUCKNNG_HTTP_ROUTE_MATCH_TEMPLATE then
    match ducknng_http_route_template_matches pattern path with
    | Some params => (true, Some params)
    | None => (false, None)
    end
  else (str_eq pattern path, None).

(** ** Registration *)

(** Doubling until [want] fits; 64 rounds pass any [size_t]. *)
Fixpoint routes_reserve_loop (fuel : nat) (new_cap want : Z) : Z :=
  match fuel with
  | O => new_cap
  | S fuel => if new_cap <? want then routes_reserve_loop fuel (new_cap * 2) want else new_cap
  end.

Definition ducknng_service_http_routes_reserve (t : route_table) (want : Z) : route_table :=
  if want <=? http_route_cap t then t else
  let new_cap := if negb (http_route_cap t =? 0) then http_route_cap t * 2 else 4 in
  with_routes (http_routes t) (routes_reserve_loop 64 new_cap want) (next_http_route_id t) t.

Definition same_route (kind : Z) (method path : bytes) (r : ducknng_http_route) : bool :=
  ((match_kind r =? kind) && str_eq (r_method r) method && str_eq (r_path r) path)%bool.

(** The table after the call, and the message of a failure; a refused
    duplicate has consumed a route id. *)
Definition ducknng_service_register_http_route_inner (t : route_table) (method : option bytes) (kind : Z)
    (path sql : option bytes) (max_bytes : Z) : route_table * option bytes :=
  match method, path, sql with
  | Some _, Some path, Some sql =>
    match ducknng_transport_url_parse (listen_url t) with
    | Err e => (t, Some e)
    | Ok parsed =>
      if negb (ducknng_transport_url_is_http (Some parsed))
      then (t, Some (lit "ducknng: HTTP routes require an http:// or https:// service")) else
      match ducknng_http_route_pattern_valid kind (Some path) with
      | Err e => (t, Some e)
      | Ok _ =>
        if match mount_path t with
           | Some mount => (ducknng_http_route_pattern_matches kind path mount).1
           | None => false end
        then (t, Some (lit "ducknng: HTTP route path conflicts with the framed RPC mount")) else
        if recv_max_bytes t <? max_bytes
        then (t, Some (lit "ducknng: HTTP route request_max_bytes cannot exceed the service recv_max_bytes")) else
        match ducknng_http_route_method_normalize_dup method with
        | Err e => (t, Some e)
        | Ok norm_method =>
          let route := mk_route (next_http_route_id t) kind DUCKNNG_HTTP_ROUTE_RESPONSE_ONESHOT norm_method
            path sql max_bytes None None 0 0 None in
          let t := with_routes (http_routes t) (http_route_cap t) (u64 (next_http_route_id t + 1)) t in
          if existsb (same_route kind norm_method path) (http_routes t)
          then (t, Some (lit "ducknng: HTTP route already registered")) else
          let t := ducknng_service_http_routes_reserve t (zlen (http_routes t) + 1) in
          (with_routes (http_routes t ++ [route]) (http_route_cap t) (next_http_route_id t) t, None)
        end
      end
    end
  | _, _, _ =>
    (t, Some (lit "ducknng: HTTP route requires service, method, path, and handler_sql"))
  end.

Definition ducknng_service_register_http_route (t : route_table) (method path sql : option bytes)
    (max_bytes : Z) : route_table * option bytes :=
  ducknng_service_register_http_route_inner t method DUCKNNG_HTTP_ROUTE_MATCH_EXACT path sql max_bytes.

(** The first route with the key, changed. *)
Definition update_route (key : ducknng_http_route -> bool) (f : ducknng_http_route -> ducknng_http_route)
    (t : route_table) : option route_table :=
  match find_index key (http_routes t) with
  | Some i => Some (with_routes (alter f i (http_routes t)) (http_route_cap t) (next_http_route_id t) t)
  | None => None
  end.

Definition ducknng_service_register_http_event_route (t : route_table) (path sql : option bytes)
    (heartbeat_ms : Z) : route_table * option bytes :=
  if ((heartbeat_ms <? DUCKNNG_HTTP_EVENT_HEARTBEAT_MIN_MS) ||
      (DUCKNNG_HTTP_EVENT_HEARTBEAT_MAX_MS <? heartbeat_ms))%bool
  then (t, Some (lit "ducknng: event route heartbeat_ms must be between 100 and 300000")) else
  match ducknng_service_register_http_route_inner t (Some (lit "GET")) DUCKNNG_HTTP_ROUTE_MATCH_EXACT path sql 0 with
  | (t, Some e) => (t, Some e)
  | (t, None) =>
    match update_route (same_route DUCKNNG_HTTP_ROUTE_MATCH_EXACT (lit "GET") (default [] path))
        (fun r => set_mode DUCKNNG_HTTP_ROUTE_RESPONSE_EVENTS (stream_content_type r) heartbeat_ms r) t with
    | Some t => (t, None)
    | None => (t, Some (lit "ducknng: event route vanished during registration"))
    end
  end.

(** The search compares the stored method with the caller's spelling. *)
Definition ducknng_service_register_http_stream_route (t : route_table) (method path sql content_type : option bytes)
    (max_bytes : Z) : route_table * option bytes :=
  match ducknng_service_register_http_route_inner t method DUCKNNG_HTTP_ROUTE_MATCH_EXACT path sql max_bytes with
  | (t, Some e) => (t, Some e)
  | (t, None) =>
    let ct := if nonempty content_type then content_type else Some (lit "text/event-stream; charset=utf-8") in
    match update_route (same_route DUCKNNG_HTTP_ROUTE_MATCH_EXACT (default [] method) (default [] path))
        (fun r => set_mode DUCKNNG_HTTP_ROUTE_RESPONSE_STREAM ct (event_heartbeat_ms r) r) t with
    | Some t => (t, None)
    | None => (t, None)
    end
  end.

Definition ducknng_service_register_http_route_pattern (t : route_table) (method kind path sql : option bytes)
    (max_bytes : Z) : route_table * option bytes :=
  match ducknng_http_route_match_kind_parse kind with
  | Err e => (t, Some e)
  | Ok kind => ducknng_service_register_http_route_inner t method kind path sql max_bytes
  end.

(** The table after the call, and whether a route was removed. *)
Definition ducknng_service_unregister_http_route_inner (t : route_table) (method : option bytes) (kind : Z)
    (path : option bytes) : result bytes (route_table * bool) :=
  match method, path with
  | Some _, Some path =>
    let! norm_method := ducknng_http_route_method_normalize_dup method in
    match find_index (same_route kind norm_method path) (http_routes t) with
    | Some i => Ok (with_routes (take i (http_routes t) ++ drop (S i) (http_routes t)) (http_route_cap t)
        (next_http_route_id t) t, true)
    | None => Ok (t, false)
    end
  | _, _ => Err (lit "ducknng: HTTP route unregister requires service, method, and path")
  end.

Definition ducknng_service_unregister_http_route (t : route_table) (method path : option bytes)
    : result bytes (route_table * bool) :=
  ducknng_service_unregister_http_route_inner t method DUCKNNG_HTTP_ROUTE_MATCH_EXACT path.

Definition ducknng_service_unregister_http_route_pattern (t : route_table) (method kind path : option bytes)
    : result bytes (route_table * bool) :=
  let! kind := ducknng_http_route_match_kind_parse kind in
  ducknng_service_unregister_http_route_inner t method kind path.

(** The first route with this method and path, of whatever kind. *)
Definition ducknng_service_set_http_route_auth (t : route_table) (method path : option bytes)
    (require_identity : Z) (allow_identities_json : option bytes) : route_table * option bytes :=
  match method, path with
  | Some method, Some path =>
    match update_route (fun r => str_eq (r_method r) method && str_eq (r_path r) path)%bool
        (set_auth require_identity (if nonempty allow_identities_json then allow_identities_json else None)) t with
    | Some t => (t, None)
    | None => (t, Some (lit "ducknng: HTTP route not found"))
    end
  | _, _ => (t, Some (lit "ducknng: service, method, and path are required"))
  end.

(** ** Lookup *)

Definition route_score (r : ducknng_http_route) : Z :=
  u64 (Z.shiftl (if match_kind r =? DUCKNNG_HTTP_ROUTE_MATCH_EXACT then 3 else
                 if match_kind r =? DUCKNNG_HTTP_ROUTE_MATCH_TEMPLATE then 2 else 1) 32 + zlen (r_path r)).

Fixpoint lookup_loop (routes : list ducknng_http_route) (method path : bytes) (best_score : Z)
    (best : option (ducknng_http_route * option bytes)) : option (ducknng_http_route * option bytes) :=
  match routes with
  | [] => best
  | r :: routes =>
    if negb (str_eq (r_method r) method) then lookup_loop routes method path best_score best else
    let (matched, params) := ducknng_http_route_pattern_matches (match_kind r) (r_path r) path in
    if negb matched then lookup_loop routes method path best_score best else
    if best_score <=? route_score r
    then lookup_loop routes method path (route_score r) (Some (r, params))
    else lookup_loop routes method path best_score best
  end.

(** The copy of the route and the captures, if one matches. *)
Definition ducknng_service_lookup_http_route (t : route_table) (method path : option bytes)
    : result bytes (option (ducknng_http_route * option bytes)) :=
  match method, path with
  | Some _, Some path =>
    let! norm_method := ducknng_http_route_method_normalize_dup method in
    Ok (lookup_loop (http_routes t) norm_method path 0 None)
  | _, _ => Err (lit "ducknng: missing HTTP route lookup arguments")
  end.

(** The check of the matched route before its handler runs: the HTTP status
    and text of a refusal. *)
Definition route_auth_check (r : ducknng_http_route) (caller_identity : option bytes) : option (Z * bytes) :=
  if (negb (auth_require_identity r =? 0) && negb (nonempty caller_identity))%bool
  then Some (401, lit "ducknng: route requires caller identity") else
  if (nonempty (auth_allow_identities_json r) && nonempty caller_identity)%bool then
    match ducknng_json_string_array_contains (auth_allow_identities_json r) caller_identity with
    | Ok (true, _) => None
    | _ => Some (403, lit "ducknng: caller identity not allowed for this route")
    end
  else None.

(** ** Paths as segments *)

Definition path_of (segs : list bytes) : bytes := segs ≫= (fun s => chr "/" :: s).

Definition no_slash (s : bytes) : Prop := chr "/" ∉ s.

Lemma path_of_cons s segs : path_of (s :: segs) = chr "/" :: s ++ path_of segs.
Proof. done. Qed.

(** What the scanner sees of a path: its first segment and the rest. *)
Lemma break_path s segs : no_slash s ->
  break_at (chr "/") (skip_slash (path_of (s :: segs))) =
  (s, match segs with [] => None | s' :: segs' => Some (s' ++ path_of segs') end).
Proof.
  intros Hs. rewrite path_of_cons. unfold skip_slash. cbn [cur]. rewrite Z.eqb_refl, zdrop_1.
  destruct segs as [|s' segs].
  - cbn [path_of mbind list_bind]. rewrite app_nil_r. by apply break_at_none.
  - rewrite path_of_cons. by apply break_at_skip.
Qed.

Definition is_param (p : bytes) : bool := ((cur p =? chr "{") && (last_char p =? chr "}"))%bool.

Definition seg_match (p r : bytes) : Prop := r <> [] /\ (is_param p = true \/ p = r).

#[export] Instance seg_match_dec p r : Decision (seg_match p r).
Proof. unfold seg_match. apply _. Qed.

(** The captures of a match, in the order of the template. *)
Fixpoint captures (ps rs : list bytes) : list (bytes * bytes) :=
  match ps, rs with
  | p :: ps, r :: rs => (if is_param p then [(inner p, r)] else []) ++ captures ps rs
  | _, _ => []
  end.

Definition append_all (params : option bytes) (kvs : list (bytes * bytes)) : option bytes :=
  foldl (fun ps kv => Some (append_param ps kv.1 kv.2)) params kvs.

Lemma append_all_app params k1 k2 : append_all params (k1 ++ k2) = append_all (append_all params k1) k2.
Proof. apply foldl_app. Qed.

(** One segment of the loop. *)
Lemma template_step fuel p r ps rs params : p <> [] -> no_slash p -> no_slash r ->
  template_matches_loop (S fuel) (path_of (p :: ps)) (path_of (r :: rs)) params =
  if decide (seg_match p r) then
    let params := append_all params (captures [p] [r]) in
    match ps, rs with
    | [], [] => Some params
    | _ :: _, _ :: _ => template_matches_loop fuel (path_of ps) (path_of rs) params
    | _, _ => None
    end
  else None.
Proof.
  intros Hp Hps Hrs. cbn [template_matches_loop]. rewrite !break_path by done.
  destruct p as [|x p]; [done|]. destruct r as [|y r].
  { rewrite decide_False by by intros [? _]. done. }
  set (P := x :: p) in *. set (R := y :: r) in *. cbn [captures]. fold (is_param P).
  destruct (is_param P) eqn:Ei.
  - rewrite decide_True by (split; [done|by left]). rewrite app_nil_r. cbn [append_all foldl fst snd].
    by destruct ps, rs.
  - destruct (str_eq P R) eqn:Es.
    + apply str_eq_true in Es. rewrite decide_True by (split; [done|by right]). cbn. by destruct ps, rs.
    + apply str_eq_false in Es. rewrite decide_False; [done|]. intros [_ [?|?]]; congruence.
Qed.

Definition pattern_ok (ps : list bytes) : Prop := ps <> [] /\ Forall (fun p => p <> [] /\ no_slash p) ps.

Lemma captures_cons p r ps rs : captures (p :: ps) (r :: rs) = captures [p] [r] ++ captures ps rs.
Proof. cbn [captures]. by rewrite app_nil_r. Qed.

Lemma template_loop_spec fuel ps rs params :
  pattern_ok ps -> rs <> [] -> Forall no_slash rs -> (length ps <= fuel)%nat ->
  template_matches_loop fuel (path_of ps) (path_of rs) params =
  if decide (Forall2 seg_match ps rs) then Some (append_all params (captures ps rs)) else None.
Proof.
  revert ps rs params. induction fuel as [|fuel IH]; intros [|p ps] [|r rs] params [Hne Hps] Hrne Hrs Hf;
    try done; [simpl in Hf; lia|]. clear Hne Hrne.
  apply Forall_cons in Hps as [[Hp1 Hp2] Hps]. apply Forall_cons in Hrs as [Hr Hrs]. simpl in Hf.
  rewrite template_step by done. destruct (decide (seg_match p r)) as [Hm|Hm].
  2:{ rewrite decide_False; [done|]. intros H. by inversion H. }
  cbv zeta. rewrite (captures_cons p r ps rs), append_all_app.
  destruct ps as [|p' ps], rs as [|r' rs].
  - rewrite decide_True by (constructor; [done|constructor]). done.
  - rewrite decide_False; [done|]. intros H. inversion H as [|???? _ H']. by inversion H'.
  - rewrite decide_False; [done|]. intros H. inversion H as [|???? _ H']. by inversion H'.
  - rewrite IH by (done || lia). destruct (decide (Forall2 seg_match (p' :: ps) (r' :: rs))) as [H|H].
    + rewrite decide_True; [done|]. by apply Forall2_cons_2.
    + rewrite decide_False; [done|]. intros H'. by inversion H'.
Qed.

(** A template with a slash at its end stops at the first empty segment. *)
Lemma template_loop_trailing fuel ps rs extra params :
  pattern_ok ps -> Forall no_slash rs -> (length ps < fuel)%nat -> Forall2 seg_match ps rs ->
  template_matches_loop fuel (path_of (ps ++ [[]])) (path_of (rs ++ [] :: extra)) params =
  Some (append_all params (captures ps rs)).
Proof.
  intros [_ Hps] Hrs Hf Hm. revert fuel params Hf Hps Hrs.
  induction Hm as [|p r ps rs Hpr Hm IH]; intros [|fuel] params Hf Hps Hrs; try (simpl in Hf; lia).
  - cbn [app template_matches_loop]. by rewrite !break_path by apply not_elem_of_nil.
  - apply Forall_cons in Hps as [[Hp1 Hp2] Hps]. apply Forall_cons in Hrs as [Hr Hrs]. simpl in Hf.
    cbn [app]. rewrite template_step by done. rewrite decide_True by done. cbv zeta.
    rewrite (captures_cons p r ps rs), append_all_app, <- (IH fuel) by (done || lia). by destruct ps, rs.
Qed.

Lemma field_text k v : render_field route_escape (k, v) =
  json_quote route_escape k ++ lit ":" ++ json_quote route_escape v.
Proof. done. Qed.

Lemma append_all_render kvs buf :
  append_all (Some buf) kvs = Some (match kvs with [] => buf
    | _ => buf ++ lit "," ++ join (lit ",") (render_field route_escape <$> kvs) end).
Proof.
  revert buf. induction kvs as [|[k v] kvs IH]; intros buf; [done|]. cbn [append_all foldl fst snd].
  fold (append_all (Some (append_param (Some buf) k v)) kvs). rewrite IH. f_equal.
  unfold append_param, ducknng_http_route_json_append_string.
  destruct kvs as [|kv kvs]; [cbn [fmap list_fmap join]; unfold render_field; by rewrite <- !app_assoc|].
  rewrite !fmap_cons, join_cons, (field_text k v). by rewrite <- !app_assoc.
Qed.

Lemma append_all_object kvs :
  match append_all None kvs with Some buf => buf ++ lit "}" | None => lit "{}" end =
  render_object route_escape kvs.
Proof.
  destruct kvs as [|[k v] kvs]; [done|]. cbn [append_all foldl fst snd].
  fold (append_all (Some (append_param None k v)) kvs). rewrite append_all_render.
  unfold append_param, ducknng_http_route_json_append_string, render_object.
  destruct kvs as [|kv kvs]; [cbn [fmap list_fmap join]; unfold render_field; by rewrite <- !app_assoc|].
  rewrite !fmap_cons, join_cons, (field_text k v). by rewrite <- !app_assoc.
Qed.

Lemma path_of_length ps : Forall (fun p => p <> []) ps -> (length ps <= length (path_of ps))%nat.
Proof.
  induction 1 as [|p ps Hp Hps IH]; [done|]. rewrite path_of_cons. simpl. rewrite length_app. lia.
Qed.

#[export] Instance route_escape_json : JsonEscape route_escape.
Proof.
  split. intros c rest buf Hc. unfold route_escape.
  destruct (Z.eqb_spec c QUOTE) as [->|Hq]; [by apply string_loop_simple|].
  destruct (Z.eqb_spec c BACKSLASH) as [->|Hb]; [by apply string_loop_simple|].
  destruct (Z.eqb_spec c 8) as [->|]; [by apply (string_loop_simple (chr "b"))|].
  destruct (Z.eqb_spec c 12) as [->|]; [by apply (string_loop_simple (chr "f"))|].
  destruct (Z.eqb_spec c 10) as [->|]; [by apply (string_loop_simple (chr "n"))|].
  destruct (Z.eqb_spec c 13) as [->|]; [by apply (string_loop_simple (chr "r"))|].
  destruct (Z.eqb_spec c 9) as [->|]; [by apply (string_loop_simple (chr "t"))|].
  destruct (Z.ltb_spec c 0x20); [by apply string_loop_escape|]. by apply string_loop_plain.
Qed.

(** ** Lookup *)

Definition hits (r : ducknng_http_route) (method path : bytes) : Prop :=
  r_method r = method /\ (ducknng_http_route_pattern_matches (match_kind r) (r_path r) path).1 = true.

(** A chosen route matches, with its captures, and no match scores higher. *)
Definition best_of (routes : list ducknng_http_route) (method path : bytes)
    (res : option (ducknng_http_route * option bytes)) : Prop :=
  match res with
  | Some (r, params) => r ∈ routes /\ hits r method path /\
      params = (ducknng_http_route_pattern_matches (match_kind r) (r_path r) path).2 /\
      forall r', r' ∈ routes -> hits r' method path -> route_score r' <= route_score r
  | None => forall r, r ∈ routes -> ~ hits r method path
  end.

Lemma score_nonneg r : 0 <= route_score r.
Proof. unfold route_score, u64. apply Z.mod_pos_bound. lia. Qed.

Lemma lookup_loop_best routes method path seen best score :
  best_of seen method path best ->
  score = match best with Some (r, _) => route_score r | None => 0 end ->
  best_of (seen ++ routes) method path (lookup_loop routes method path score best).
Proof.
  revert seen best score. induction routes as [|r routes IH]; intros seen best score Hb Hs;
    [by rewrite app_nil_r|]. rewrite cons_middle, app_assoc. cbn [lookup_loop].
  assert (~ hits r method path -> best_of (seen ++ [r]) method path best) as Hskip.
  { intros Hn. destruct best as [[b params]|]; cbn [best_of] in *.
    - destruct Hb as (H1 & H2 & H3 & H4). split; [apply elem_of_app; by left|]. split; [done|]. split; [done|].
      intros r' [Hr|Hr]%elem_of_app Hh; [by apply H4|]. by apply list_elem_of_singleton in Hr as ->.
    - intros r' [Hr|Hr]%elem_of_app; [by apply Hb|]. by apply list_elem_of_singleton in Hr as ->. }
  destruct (str_eq (r_method r) method) eqn:Em; cbn [negb].
  2:{ apply IH; [|done]. apply Hskip. intros [H _]. by apply str_eq_false in Em. }
  apply str_eq_true in Em.
  destruct (ducknng_http_route_pattern_matches (match_kind r) (r_path r) path) as [matched params] eqn:Ep.
  destruct matched; cbn [negb].
  2:{ apply IH; [|done]. apply Hskip. intros [_ H]. by rewrite Ep in H. }
  assert (hits r method path) as Hh by (split; [done|by rewrite Ep]).
  destruct (Z.leb_spec score (route_score r)) as [Hle|Hgt].
  - apply IH; [|done]. cbn [best_of]. split; [apply elem_of_app; right; by apply list_elem_of_singleton|].
    split; [done|]. split; [by rewrite Ep|]. intros r' [Hr|Hr]%elem_of_app Hh'.
    + destruct best as [[b bp]|]; [|by destruct (Hb r')]. destruct Hb as (_ & _ & _ & H4).
      specialize (H4 r' Hr Hh'). lia.
    + apply list_elem_of_singleton in Hr as ->. lia.
  - apply IH; [|done]. destruct best as [[b bp]|]; [|pose proof (score_nonneg r); lia].
    destruct Hb as (H1 & H2 & H3 & H4). split; [apply elem_of_app; by left|]. split; [done|]. split; [done|].
    intros r' [Hr|Hr]%elem_of_app Hh'; [by apply H4|]. apply list_elem_of_singleton in Hr as ->. lia.
Qed.

Lemma lookup_best routes method path : best_of routes method path (lookup_loop routes method path 0 None).
Proof. apply (lookup_loop_best routes method path [] None 0); [|done]. intros r Hr. by apply not_elem_of_nil in Hr. Qed.

(** How specific a kind of route is. *)
Definition rank (r : ducknng_http_route) : Z :=
  if match_kind r =? DUCKNNG_HTTP_ROUTE_MATCH_EXACT then 3 else
  if match_kind r =? DUCKNNG_HTTP_ROUTE_MATCH_TEMPLATE then 2 else 1.

Definition short_path (r : ducknng_http_route) : Prop := zlen (r_path r) < 2 ^ 32.

#[export] Instance short_path_dec r : Decision (short_path r).
Proof. unfold short_path. apply _. Defined.

Lemma score_rank r : short_path r -> route_score r = rank r * 2 ^ 32 + zlen (r_path r).
Proof.
  intros Hs. unfold short_path in Hs. unfold route_score. fold (rank r). rewrite Z.shiftl_mul_pow2 by lia. apply u64_small.
  pose proof (zlen_nonneg (r_path r)). unfold rank, UINT64_MAX.
  destruct (_ =? _); [lia|]. destruct (_ =? _); lia.
Qed.

Lemma score_order r r' : short_path r -> short_path r' ->
  route_score r' <= route_score r <-> rank r' < rank r \/ rank r' = rank r /\ zlen (r_path r') <= zlen (r_path r).
Proof.
  intros Hs Hs'. rewrite !score_rank by done. unfold short_path in *.
  pose proof (zlen_nonneg (r_path r)). pose proof (zlen_nonneg (r_path r')). lia.
Qed.

(** ** Registration *)

Lemma reserve_routes t want : http_routes (ducknng_service_http_routes_reserve t want) = http_routes t.
Proof. unfold ducknng_service_http_routes_reserve. by destruct (_ <=? _). Qed.

(** A successful registration appends one route whose key was free. *)
Lemma register_inner_spec t method kind path sql max t' :
  ducknng_service_register_http_route_inner t method kind path sql max = (t', None) ->
  exists m p s norm, method = Some m /\ path = Some p /\ sql = Some s /\
    ducknng_http_route_method_normalize_dup method = Ok norm /\
    Forall (fun r => same_route kind norm p r = false) (http_routes t) /\
    http_routes t' = http_routes t ++
      [mk_route (next_http_route_id t) kind DUCKNNG_HTTP_ROUTE_RESPONSE_ONESHOT norm p s max None None 0 0 None].
Proof.
  unfold ducknng_service_register_http_route_inner. destruct method as [m|], path as [p|], sql as [s|]; try done.
  destruct (ducknng_transport_url_parse (listen_url t)); [|done]. destruct (negb _); [done|].
  destruct (ducknng_http_route_pattern_valid kind (Some p)); [|done].
  destruct (match mount_path t with Some _ => _ | None => _ end); [done|].
  destruct (recv_max_bytes t <? max); [done|].
  destruct (ducknng_http_route_method_normalize_dup (Some m)) as [norm|]; [|done].
  cbn [with_routes http_routes]. destruct (existsb _ _) eqn:Ee; [done|]. intros [= <-].
  exists m, p, s, norm. repeat (split; [done|]). split.
  - apply Forall_forall. intros r Hr. rewrite <- not_true_iff_false. intros Hs. rewrite <- not_true_iff_false in Ee.
    apply Ee, existsb_exists. exists r. by rewrite <- list_elem_of_In.
  - cbn [with_routes http_routes]. by rewrite reserve_routes.
Qed.

Lemma same_route_true kind method path r : same_route kind method path r = true <->
  match_kind r = kind /\ r_method r = method /\ r_path r = path.
Proof. unfold same_route. rewrite !andb_true_iff, Z.eqb_eq, !str_eq_true. tauto. Qed.

(** An exact route with a key of its own is what a lookup of its path finds. *)
Lemma exact_route_wins routes r : r ∈ routes -> match_kind r = DUCKNNG_HTTP_ROUTE_MATCH_EXACT ->
  Forall short_path routes ->
  (forall r', r' ∈ routes -> same_route DUCKNNG_HTTP_ROUTE_MATCH_EXACT (r_method r) (r_path r) r' = true -> r' = r) ->
  lookup_loop routes (r_method r) (r_path r) 0 None = Some (r, None).
Proof.
  intros Hr Hk Hshort Huniq. pose proof (lookup_best routes (r_method r) (r_path r)) as Hb.
  assert (hits r (r_method r) (r_path r)) as Hh.
  { split; [done|]. rewrite Hk. cbn. apply str_eq_refl. }
  rewrite Forall_forall in Hshort.
  destruct (lookup_loop routes (r_method r) (r_path r) 0 None) as [[b params]|]; [|by destruct (Hb r)].
  destruct Hb as (H1 & [H2 H2'] & H3 & H4). specialize (H4 r Hr Hh). rewrite score_order in H4 by by apply Hshort.
  assert (rank r = 3) as Hrr by (unfold rank; by rewrite Hk).
  assert (match_kind b = DUCKNNG_HTTP_ROUTE_MATCH_EXACT) as Hkb.
  { unfold rank in H4 at 2. unfold rank in H4 at 3. rewrite Hrr in H4.
    destruct (Z.eqb_spec (match_kind b) DUCKNNG_HTTP_ROUTE_MATCH_EXACT); [done|].
    destruct (match_kind b =? DUCKNNG_HTTP_ROUTE_MATCH_TEMPLATE); lia. }
  rewrite Hkb in H2', H3. cbn in H2', H3. apply str_eq_true in H2'.
  assert (b = r) as -> by (apply Huniq; [done|]; by apply same_route_true). by rewrite H3.
Qed.

Lemma find_index_last {A} (P : A -> bool) l x : Forall (fun y => P y = false) l -> P x = true ->
  find_index P (l ++ [x]) = Some (length l).
Proof.
  induction 1 as [|y l Hy Hl IH]; intros Hx; cbn [app find_index]; [by rewrite Hx|]. by rewrite Hy, IH.
Qed.

(** Stored methods are in upper case and paths have a sane length. *)
Definition route_ok (r : ducknng_http_route) : Prop :=
  upper_char <$> r_method r = r_method r /\ short_path r.

Lemma upper_idem c : upper_char (upper_char c) = upper_char c.
Proof.
  unfold upper_char. destruct (Z.leb_spec 97 c), (Z.leb_spec c 122); cbn [andb];
    repeat case_match; try lia; btests; lia.
Qed.

Lemma upper_idem_list (l : bytes) : upper_char <$> (upper_char <$> l) = upper_char <$> l.
Proof. induction l as [|c l IH]; [done|]. cbn. f_equal; [apply upper_idem|apply IH]. Qed.

Lemma normalize_upper m norm : ducknng_http_route_method_normalize_dup (Some m) = Ok norm ->
  norm = upper_char <$> m /\ upper_char <$> norm = norm.
Proof.
  destruct m as [|c m]; [done|]. unfold ducknng_http_route_method_normalize_dup.
  destruct (negb _); [done|]. intros [= <-]. split; [done|].
  apply (upper_idem_list (c :: m)).
Qed.

(** A route behind a table in which its key is free: lookups of its path find
    it and unregistering gives the table back. *)
Lemma appended_route t routes r m : http_routes t = routes ++ [r] ->
  match_kind r = DUCKNNG_HTTP_ROUTE_MATCH_EXACT ->
  Forall (fun r' => same_route DUCKNNG_HTTP_ROUTE_MATCH_EXACT (r_method r) (r_path r) r' = false) routes ->
  Forall short_path (routes ++ [r]) ->
  ducknng_http_route_method_normalize_dup (Some m) = Ok (r_method r) ->
  ducknng_service_lookup_http_route t (Some m) (Some (r_path r)) = Ok (Some (r, None)) /\
  exists t0, ducknng_service_unregister_http_route t (Some m) (Some (r_path r)) = Ok (t0, true) /\
    http_routes t0 = routes.
Proof.
  intros Ht Hk Hfree Hshort Hm. split.
  - cbn [ducknng_service_lookup_http_route]. rewrite Hm. cbn [res_bind]. rewrite Ht. do 2 f_equal.
    apply exact_route_wins; [apply elem_of_app; right; by apply list_elem_of_singleton|done|done|].
    intros r' [Hr|Hr]%elem_of_app Hs; [|by apply list_elem_of_singleton in Hr].
    rewrite Forall_forall in Hfree. by rewrite Hfree in Hs.
  - cbn [ducknng_service_unregister_http_route ducknng_service_unregister_http_route_inner].
    unfold ducknng_service_unregister_http_route, ducknng_service_unregister_http_route_inner.
    rewrite Hm. cbn [res_bind]. rewrite Ht, find_index_last by (done || by apply same_route_true).
    eexists. split; [done|]. cbn [with_routes http_routes].
    rewrite take_app_length, drop_ge, app_nil_r by (rewrite length_app; simpl; lia). done.
Qed.

Lemma alter_last {A} (f : A -> A) (l : list A) x : alter f (length l) (l ++ [x]) = l ++ [f x].
Proof. induction l as [|y l IH]; [done|]. cbn. f_equal. apply IH. Qed.

Lemma hits_none m kvs : Forall (fun kv => m kv.1 = false) kvs -> hits_of m kvs = [].
Proof. induction 1 as [|[k v] kvs Hk Hkvs IH]; [done|]. rewrite hits_cons. cbn in Hk. by rewrite Hk. Qed.

(** A template that ends in a slash also matches every path that continues,
    after an empty segment, with anything at all. *)
Lemma trailing_slash_overmatch ps rs extra :
  pattern_ok ps -> Forall no_slash rs -> Forall2 seg_match ps rs ->
  ducknng_http_route_template_matches (path_of (ps ++ [[]])) (path_of (rs ++ [] :: extra)) =
  Some (render_object route_escape (captures ps rs)).
Proof.
  intros Hps Hrs Hm. unfold ducknng_http_route_template_matches. rewrite template_loop_trailing; try done.
  - by rewrite append_all_object.
  - apply Nat.lt_succ_r. apply Nat.le_trans with (length (path_of ps)).
    + apply path_of_length. eapply Forall_impl; [apply Hps|]. naive_solver.
    + unfold path_of. rewrite bind_app, length_app. lia.
Qed.

(** ** Claims *)

(** Template matching is exact.  A template without empty segments
    matches a path iff they have the same number of segments, every literal
    segment is equal and every {name} segment meets a non-empty one; the
    captures come out as a JSON object in which the JSON field reader finds
    each captured segment, whatever characters it contains.  A template that
    ends in a slash is wider: it also matches every path that continues, after
    an empty segment, with anything at all. *)
Theorem template_match_exact ps rs
  (Hps : pattern_ok ps) (Hrs : Forall no_slash rs) (Hne : rs <> []) :
  (forall j, ducknng_http_route_template_matches (path_of ps) (path_of rs) = Some j <->
    Forall2 seg_match ps rs /\ j = render_object route_escape (captures ps rs)) /\
  (Forall cstr ps -> Forall cstr rs -> NoDup (fst <$> captures ps rs) ->
   forall name value, (name, value) ∈ captures ps rs -> name <> [] ->
   ducknng_json_object_get_string (Some (render_object route_escape (captures ps rs))) (Some name) false true =
     Ok (Some value)) /\
  (forall extra, Forall2 seg_match ps rs ->
   ducknng_http_route_template_matches (path_of (ps ++ [[]])) (path_of (rs ++ [] :: extra)) =
     Some (render_object route_escape (captures ps rs))).
Proof.
  split; [|split; [|intros extra; by apply trailing_slash_overmatch]].
  - intros j. unfold ducknng_http_route_template_matches. rewrite template_loop_spec; try done.
    + destruct (decide (Forall2 seg_match ps rs)) as [H|H]; [|naive_solver].
      rewrite append_all_object. naive_solver.
    + apply Nat.le_trans with (length (path_of ps)); [|lia]. apply path_of_length.
      eapply Forall_impl; [apply Hps|]. naive_solver.
  - intros Hcp Hcr Hnd name value Hin Hname.
    assert (fields_ok (captures ps rs)) as Hok.
    { clear - Hcp Hcr. revert rs Hcr. induction Hcp as [|p ps Hp Hps IH]; intros [|r rs] Hr; try constructor.
      apply Forall_cons in Hr as [Hr Hrs]. cbn [captures]. apply Forall_app. split; [|by apply IH].
      destruct (is_param p); [|constructor]. apply Forall_singleton. split; [|done].
      unfold inner, ztake, zdrop. by apply Forall_take, Forall_drop. }
    rewrite (object_get_rendered route_escape (captures ps rs) name false true Hok Hname). unfold lookup_spec.
    assert (hits_of (fun key => str_eq key name) (captures ps rs) = [value]) as ->; [|done].
    revert Hin Hnd. generalize (captures ps rs). clear. induction l as [|[k v] l IH]; intros Hin Hnd.
    { by apply not_elem_of_nil in Hin. }
    rewrite fmap_cons, NoDup_cons in Hnd. destruct Hnd as [Hk Hnd]. rewrite hits_cons.
    apply elem_of_cons in Hin as [[= <- <-]|Hin].
    + rewrite str_eq_refl. f_equal. apply hits_none, Forall_forall. intros [k' v'] Hk'. cbn [fst].
      apply str_eq_false. intros ->. destruct Hk. by apply (list_elem_of_fmap_2 fst) in Hk'.
    + destruct (str_eq k name) eqn:E; [|by apply IH]. apply str_eq_true in E as ->. destruct Hk.
      apply list_elem_of_fmap. by exists (name, value).
Qed.

(** Lookup takes the most specific route.  The result is a registered
    route of the (case-normalized) method that matches the path, with its
    captures, and every other match is a less specific kind (exact before
    template before prefix) or of the same kind with a path that is not
    longer; nothing is found only if nothing matches. *)
Theorem route_lookup_best t method path norm
  (Hshort : Forall short_path (http_routes t))
  (Hm : ducknng_http_route_method_normalize_dup (Some method) = Ok norm) :
  match ducknng_service_lookup_http_route t (Some method) (Some path) with
  | Ok (Some (r, params)) => r ∈ http_routes t /\ hits r norm path /\
      params = (ducknng_http_route_pattern_matches (match_kind r) (r_path r) path).2 /\
      forall r', r' ∈ http_routes t -> hits r' norm path ->
        rank r' < rank r \/ rank r' = rank r /\ zlen (r_path r') <= zlen (r_path r)
  | Ok None => forall r, r ∈ http_routes t -> ~ hits r norm path
  | Err _ => False
  end.
Proof.
  unfold ducknng_service_lookup_http_route. rewrite Hm. cbn [res_bind].
  pose proof (lookup_best (http_routes t) norm path) as Hb.
  destruct (lookup_loop _ _ _ _ _) as [[r params]|]; [|done]. destruct Hb as (H1 & H2 & H3 & H4).
  repeat (split; [done|]). intros r' Hr Hh. rewrite Forall_forall in Hshort.
  by apply score_order; [apply Hshort..|apply H4].
Qed.

(** What is registered is found, and taken away again.  After a stream
    route is registered, every lookup of its path with any spelling of the
    method returns it with its handler, before any template or prefix route,
    and unregistering restores the list of routes.  Its response is streamed
    only when the caller spelled the method in upper case: the second search
    compares the stored method with the caller's text, so another spelling is
    reported as a success and leaves a one-shot route. *)
Theorem stream_route_registered t method path sql ct max t'
  (Hok : Forall route_ok (http_routes t)) (Hlen : zlen path < 2 ^ 32)
  (Hreg : ducknng_service_register_http_stream_route t (Some method) (Some path) (Some sql) ct max = (t', None)) :
  exists norm r, ducknng_http_route_method_normalize_dup (Some method) = Ok norm /\
    r_method r = norm /\ r_path r = path /\ handler_sql r = sql /\
    response_mode r = (if str_eq method norm then DUCKNNG_HTTP_ROUTE_RESPONSE_STREAM
      else DUCKNNG_HTTP_ROUTE_RESPONSE_ONESHOT) /\
    Forall route_ok (http_routes t') /\
    forall m, ducknng_http_route_method_normalize_dup (Some m) = Ok norm ->
      ducknng_service_lookup_http_route t' (Some m) (Some path) = Ok (Some (r, None)) /\
      exists t0, ducknng_service_unregister_http_route t' (Some m) (Some path) = Ok (t0, true) /\
        http_routes t0 = http_routes t.
Proof.
  unfold ducknng_service_register_http_stream_route in Hreg.
  destruct (ducknng_service_register_http_route_inner _ _ _ _ _ _) as [t1 [e|]] eqn:Ei; [done|].
  apply register_inner_spec in Ei as (m0 & p0 & s0 & norm & [= <-] & [= <-] & [= <-] & Hn & Hfree & Hroutes).
  destruct (normalize_upper _ _ Hn) as [Hnu Hup]. cbn [default from_option id] in Hreg.
  set (r0 := mk_route (next_http_route_id t) _ _ _ _ _ _ _ _ _ _ _) in Hroutes.
  assert (forall r, match_kind r = DUCKNNG_HTTP_ROUTE_MATCH_EXACT -> r_method r = norm -> r_path r = path ->
    http_routes t' = http_routes t ++ [r] ->
    Forall route_ok (http_routes t') /\
    forall m, ducknng_http_route_method_normalize_dup (Some m) = Ok norm ->
      ducknng_service_lookup_http_route t' (Some m) (Some path) = Ok (Some (r, None)) /\
      exists t0, ducknng_service_unregister_http_route t' (Some m) (Some path) = Ok (t0, true) /\
        http_routes t0 = http_routes t) as Hfin.
  { intros r Hk Hrm Hrp Hr. assert (Forall route_ok (http_routes t')) as Hok'.
    { rewrite Hr. apply Forall_app. split; [done|]. apply Forall_singleton.
      split; [by rewrite Hrm|unfold short_path; by rewrite Hrp]. }
    split; [done|]. intros m Hm. rewrite <- Hrp.
    apply (appended_route t' (http_routes t) r m); rewrite ?Hrm, ?Hrp; try done.
    rewrite <- Hr. eapply Forall_impl; [exact Hok'|]. by intros ? []. }
  unfold update_route in Hreg. rewrite Hroutes in Hreg. destruct (str_eq method norm) eqn:Es.
  - apply str_eq_true in Es as ->. rewrite find_index_last in Hreg; [|done|by apply same_route_true].
    rewrite alter_last in Hreg. set (r1 := set_mode _ _ _ r0) in Hreg. injection Hreg as <-.
    exists norm, r1. do 4 (split; [done|]). split; [by rewrite str_eq_refl|]. by apply Hfin.
  - assert (find_index (same_route DUCKNNG_HTTP_ROUTE_MATCH_EXACT method path) (http_routes t ++ [r0]) = None) as Hf.
    { pose proof (proj1 (str_eq_false _ _) Es) as Hne. apply find_index_None, Forall_app. split.
      - eapply Forall_impl; [exact Hok|]. intros r [Hu _]. rewrite <- not_true_iff_false, same_route_true.
        intros (_ & Hrm & _). rewrite Hrm in Hu. congruence.
      - apply Forall_singleton. rewrite <- not_true_iff_false, same_route_true. cbn. intuition congruence. }
    rewrite Hf in Hreg. injection Hreg as <-.
    exists norm, r0. do 4 (split; [done|]). split; [by rewrite Es|]. by apply Hfin.
Qed.

(** ** Which route an identity requirement lands on

    The setter takes the first route with the method and path, whatever its
    kind, while a lookup of that path takes the exact route. *)
Definition demo_route_table : route_table := mk_routes [] 0 1 (Some (lit "http://127.0.0.1:8080/rpc")) (Some (lit "/rpc")) 1024.

Definition register_demo (kind path : string) (t : route_table) : route_table :=
  (ducknng_service_register_http_route_pattern t (Some (lit "GET")) (Some (lit kind)) (Some (lit path))
    (Some (lit "SELECT 1")) 0).1.

Theorem route_auth_lands_elsewhere :
  let t := register_demo "exact" "/admin" (register_demo "prefix" "/admin" demo_route_table) in
  let (t', e) := ducknng_service_set_http_route_auth t (Some (lit "GET")) (Some (lit "/admin")) 1 None in
  e = None /\
  match ducknng_service_lookup_http_route t' (Some (lit "GET")) (Some (lit "/admin")) with
  | Ok (Some (r, _)) => route_auth_check r None = None
  | _ => False
  end.
Proof. by vm_compute. Qed.

(** ** Witnesses *)

Lemma template_match_exact_witness :
  ducknng_http_route_template_matches (path_of [lit "users"; lit "{id}"]) (path_of [lit "users"; lit "5"]) =
    Some (render_object route_escape [(lit "id", lit "5")]) /\
  ducknng_json_object_get_string (Some (render_object route_escape [(lit "id", lit "5")])) (Some (lit "id"))
    false true = Ok (Some (lit "5")).
Proof.
  assert (pattern_ok [lit "users"; lit "{id}"]) as Hps.
  { split; [discriminate|]. apply (bool_decide_unpack _); vm_compute; exact I. }
  assert (Forall no_slash [lit "users"; lit "5"]) as Hrs
    by (apply (bool_decide_unpack _); vm_compute; exact I).
  destruct (template_match_exact [lit "users"; lit "{id}"] [lit "users"; lit "5"] Hps Hrs ltac:(discriminate)) as (H1 & H2 & _).
  split.
  - apply H1. split; [|reflexivity]. apply Forall2_cons_2; [split; [discriminate|right; reflexivity]|].
    apply Forall2_cons_2; [split; [discriminate|left; reflexivity]|apply Forall2_nil_2].
  - apply H2; [apply (bool_decide_unpack _); vm_compute; exact I..| |discriminate].
    vm_compute. left.
Defined.

Definition demo_routes : route_table := register_demo "exact" "/admin" (register_demo "prefix" "/" demo_route_table).

Lemma route_lookup_best_witness :
  exists r params,
    ducknng_service_lookup_http_route demo_routes (Some (lit "get")) (Some (lit "/admin")) = Ok (Some (r, params)) /\
    r ∈ http_routes demo_routes /\ rank r = 3.
Proof.
  assert (Forall short_path (http_routes demo_routes)) as Hs
    by (apply (bool_decide_unpack _); vm_compute; exact I).
  pose proof (route_lookup_best demo_routes (lit "get") (lit "/admin") (lit "GET") Hs eq_refl) as H.
  destruct (ducknng_service_lookup_http_route demo_routes (Some (lit "get")) (Some (lit "/admin")))
    as [[[r params]|]|] eqn:E.
  - exists r, params. split; [reflexivity|]. split; [exact (proj1 H)|].
    vm_compute in E. injection E as <- _. reflexivity.
  - vm_compute in E. discriminate.
  - destruct H.
Defined.

Lemma stream_route_registered_witness :
  let t' := (ducknng_service_register_http_stream_route demo_route_table (Some (lit "get")) (Some (lit "/feed"))
    (Some (lit "SELECT 1")) None 0).1 in
  exists r, ducknng_service_lookup_http_route t' (Some (lit "GET")) (Some (lit "/feed")) = Ok (Some (r, None)) /\
    response_mode r = DUCKNNG_HTTP_ROUTE_RESPONSE_ONESHOT.
Proof.
  set (t' := (ducknng_service_register_http_stream_route demo_route_table (Some (lit "get")) (Some (lit "/feed"))
    (Some (lit "SELECT 1")) None 0).1).
  destruct (stream_route_registered demo_route_table (lit "get") (lit "/feed") (lit "SELECT 1") None 0 t'
    ltac:(constructor) ltac:(vm_compute; reflexivity) ltac:(vm_compute; reflexivity))
    as (norm & r & Hn & _ & _ & _ & Hmode & _ & Hl).
  assert (norm = lit "GET") as -> by (vm_compute in Hn; injection Hn as <-; reflexivity).
  exists r. split; [apply (Hl (lit "GET")); reflexivity|]. rewrite Hmode. reflexivity.
Defined.
