(* ===== verification/HttpHeaders.v ===== *)
(** Headers and identities of HTTP messages: the first part of
    [src/src/ducknng_http_compat.c].

    Headers travel as a JSON array of [{name,value}] objects: SQL callers hand
    one in and every object is validated and added to an NNG message; the
    header block of a received message is rendered as one.  Adding a header is
    an NNG call, the parameter [add_header]; it updates the target, which
    keeps the headers added before an error.  The loops carry fuel: each
    round consumes a character. *)

From S2P Require Import Prelude Util Transport.

(** ** Identities *)

Inductive nng_tls_mode := NNG_TLS_MODE_CLIENT | NNG_TLS_MODE_SERVER.
Inductive nng_tls_auth_mode :=
| NNG_TLS_AUTH_MODE_NONE | NNG_TLS_AUTH_MODE_OPTIONAL | NNG_TLS_AUTH_MODE_REQUIRED.

(** The TLS options an HTTP endpoint reads. *)
Record tls_request := mk_tls_request {
  tr_enabled : bool; cert_key_file : option bytes; ca_file : option bytes; cert_pem : option bytes;
  key_pem : option bytes; ca_pem : option bytes; password : option bytes; tr_auth_mode : Z }.

Definition ducknng_http_tls_requested (opts : option tls_request) : bool :=
  match opts with
  | None => false
  | Some o =>
    (tr_enabled o || nonempty (cert_key_file o) || nonempty (ca_file o) || nonempty (cert_pem o) ||
     nonempty (key_pem o) || nonempty (ca_pem o) || nonempty (password o) || negb (tr_auth_mode o =? 0))%bool
  end.

(** [None] is NNG_EINVAL. *)
Definition ducknng_http_tls_auth_mode_map (mode : nng_tls_mode) (auth_mode : Z) : option nng_tls_auth_mode :=
  if auth_mode =? 0 then
    Some (match mode with
          | NNG_TLS_MODE_CLIENT => NNG_TLS_AUTH_MODE_REQUIRED
          | NNG_TLS_MODE_SERVER => NNG_TLS_AUTH_MODE_NONE
          end)
  else if auth_mode =? 1 then Some NNG_TLS_AUTH_MODE_OPTIONAL
  else if auth_mode =? 2 then Some NNG_TLS_AUTH_MODE_REQUIRED
  else None.

Definition ducknng_http_tls_identity_from_value (kind value : option bytes) : option bytes :=
  if (negb (nonempty kind) || negb (nonempty value))%bool then None
  else Some (lit "tls:" ++ default [] kind ++ lit ":" ++ default [] value).

Fixpoint ducknng_http_tls_identity_from_alt_names (alt_names : list bytes) : option bytes :=
  match alt_names with
  | [] => None
  | [] :: alt_names => ducknng_http_tls_identity_from_alt_names alt_names
  | name :: _ => ducknng_http_tls_identity_from_value (Some (lit "san")) (Some name)
  end.

(** What the connection reports: whether the peer's certificate was verified,
    its alternative names and its common name. *)
Record conn_tls := mk_conn_tls { ct_verified : option bool; ct_alt_names : option (list bytes); ct_cn : option bytes }.

Definition ducknng_http_conn_verified_peer_identity (conn : option conn_tls) : option bytes :=
  match conn with
  | None => None
  | Some c =>
    match ct_verified c with
    | Some true =>
      match ct_alt_names c ≫= ducknng_http_tls_identity_from_alt_names with
      | Some identity => Some identity
      | None =>
        if nonempty (ct_cn c) then ducknng_http_tls_identity_from_value (Some (lit "cn")) (ct_cn c) else None
      end
    | _ => None
    end
  end.

(** ** Writing JSON *)

Definition http_escape (c : Z) : bytes :=
  if c =? QUOTE then [BACKSLASH; QUOTE] else
  if c =? BACKSLASH then [BACKSLASH; BACKSLASH] else
  if c =? 8 then [BACKSLASH; chr "b"] else
  if c =? 12 then [BACKSLASH; chr "f"] else
  if c =? 10 then [BACKSLASH; chr "n"] else
  if c =? 13 then [BACKSLASH; chr "r"] else
  if c =? 9 then [BACKSLASH; chr "t"] else
  if c <? 0x20 then unicode_escape c else [c].

Definition ducknng_http_append_json_string (buf : bytes) (src : option bytes) : bytes :=
  buf ++ [QUOTE] ++ (default [] src ≫= http_escape) ++ [QUOTE].

(** [strstr(line, CRLF)]: the text before the first CRLF, and what follows it
    when there is one. *)
Fixpoint break_crlf (p : bytes) : bytes * option bytes :=
  match p with
  | [] => ([], None)
  | c :: p =>
    match p with
    | d :: rest =>
      if ((c =? 13) && (d =? 10))%bool then ([], Some rest)
      else let (line, tail) := break_crlf p in (c :: line, tail)
    | [] => ([c], None)
    end
  end.

Definition is_lws (c : Z) : bool := ((c =? 32) || (c =? 9))%bool.

Fixpoint skip_lws (p : bytes) : bytes :=
  match p with c :: rest => if is_lws c then skip_lws rest else p | [] => [] end.

Fixpoint block_loop (fuel : nat) (line buf : bytes) (first : bool) : bytes :=
  match fuel with
  | O => buf
  | S fuel =>
    match line with
    | [] => buf
    | _ =>
      let (text, tail) := break_crlf line in
      match text with
      | [] => buf
      | _ =>
        match break_at (chr ":") text with
        | (_, None) => match tail with None => buf | Some rest => block_loop fuel rest buf first end
        | (name, Some after) =>
          let buf := if first then buf else buf ++ lit "," in
          let buf := buf ++ lit "{" ++ [QUOTE] ++ lit "name" ++ [QUOTE] ++ lit ":" in
          let buf := ducknng_http_append_json_string buf (Some name) in
          let buf := buf ++ lit "," ++ [QUOTE] ++ lit "value" ++ [QUOTE] ++ lit ":" in
          let buf := ducknng_http_append_json_string buf (Some (skip_lws after)) in
          let buf := buf ++ lit "}" in
          block_loop fuel (default [] tail) buf false
        end
      end
    end
  end.

Definition ducknng_http_headers_block_to_json (headers_block : option bytes) : bytes :=
  match headers_block with
  | None | Some [] => lit "[" ++ lit "]"
  | Some block => block_loop (S (length block)) block (lit "[") true ++ lit "]"
  end.

Definition ducknng_http_request_headers_json_dup (req_headers : option bytes) : bytes :=
  ducknng_http_headers_block_to_json req_headers.

(** ** Reading JSON *)

(** [isspace] in the C locale. *)
Definition is_space (c : Z) : bool := ((c =? 32) || ((9 <=? c) && (c <=? 13)))%bool.

Fixpoint ducknng_http_skip_ws (p : bytes) : bytes :=
  match p with c :: rest => if is_space c then ducknng_http_skip_ws rest else p | [] => [] end.

Definition no_controls : bytes := lit "ducknng: control characters are not allowed in headers_json strings".

Fixpoint http_string_loop (p buf : bytes) {struct p} : result bytes (bytes * bytes) :=
  match p with
  | [] => Err (lit "ducknng: unterminated JSON string in headers_json")
  | c :: p =>
    if c =? QUOTE then Ok (buf, p) else
    if c =? BACKSLASH then
      match p with
      | [] => Err (lit "ducknng: unsupported JSON escape in headers_json")
      | esc :: p =>
        if ((esc =? QUOTE) || (esc =? BACKSLASH) || (esc =? chr "/"))%bool then http_string_loop p (buf ++ [esc]) else
        if ((esc =? chr "b") || (esc =? chr "f") || (esc =? chr "n") || (esc =? chr "r") || (esc =? chr "t"))%bool
        then Err no_controls else
        if esc =? chr "u" then
          match p with
          | h1 :: h2 :: h3 :: h4 :: p =>
            match hex4 h1 h2 h3 h4 with
            | None => Err (lit "ducknng: invalid JSON unicode escape in headers_json")
            | Some value =>
              if 0x7f <? value
              then Err (lit "ducknng: only ASCII JSON unicode escapes are supported in headers_json") else
              if ((value <? 0x20) || (value =? 0x7f))%bool then Err no_controls
              else http_string_loop p (buf ++ [value])
            end
          | _ => Err (lit "ducknng: invalid JSON unicode escape in headers_json")
          end
        else Err (lit "ducknng: unsupported JSON escape in headers_json")
      end
    else
      if ((c <? 0x20) || (c =? 0x7f))%bool then Err no_controls else http_string_loop p (buf ++ [c])
  end.

Definition ducknng_http_parse_json_string (p : bytes) : result bytes (bytes * bytes) :=
  match p with
  | c :: p => if c =? QUOTE then http_string_loop p [] else Err (lit "ducknng: expected JSON string")
  | [] => Err (lit "ducknng: expected JSON string")
  end.

(** The fields of one object, up to its closing brace. *)
Fixpoint object_fields_loop (fuel : nat) (p : bytes) (name header_value : option bytes)
    : result bytes (option bytes * option bytes * bytes) :=
  match fuel with
  | O => Err out_of_fuel
  | S fuel =>
    let! (key, p) := ducknng_http_parse_json_string (ducknng_http_skip_ws p) in
    let p := ducknng_http_skip_ws p in
    if negb (cur p =? chr ":") then Err (lit "ducknng: expected ':' in headers_json") else
    let! (value, p) := ducknng_http_parse_json_string (ducknng_http_skip_ws (zdrop 1 p)) in
    let! (name, header_value) :=
      (if str_eq key (lit "name") then
         if bool_decide (name <> None) then Err (lit "ducknng: duplicate header name field in headers_json")
         else Ok (Some value, header_value)
       else if str_eq key (lit "value") then
         if bool_decide (header_value <> None)
         then Err (lit "ducknng: duplicate header value field in headers_json")
         else Ok (name, Some value)
       else Err (lit "ducknng: headers_json objects may contain only name and value fields")) in
    let p := ducknng_http_skip_ws p in
    if cur p =? chr "," then object_fields_loop fuel (zdrop 1 p) name header_value else
    if cur p =? chr "}" then Ok (name, header_value, zdrop 1 p) else
    Err (lit "ducknng: expected ',' or '}' in headers_json")
  end.

Section apply_headers.
Context {T : Type} (add_header : T -> bytes -> bytes -> T * Z) (strerror : Z -> bytes).

Fixpoint apply_loop (fuel : nat) (p : bytes) (target : T) : T * result bytes unit :=
  match fuel with
  | O => (target, Err out_of_fuel)
  | S fuel =>
    let p := ducknng_http_skip_ws p in
    if negb (cur p =? chr "{") then (target, Err (lit "ducknng: expected header object in headers_json")) else
    match object_fields_loop (S (length p)) (zdrop 1 p) None None with
    | Err e => (target, Err e)
    | Ok (name, header_value, p) =>
      if (negb (nonempty name) || bool_decide (header_value = None))%bool
      then (target, Err (lit "ducknng: each headers_json object must contain non-empty name and value strings")) else
      if negb (ducknng_http_token_is_valid name)
      then (target, Err (lit "ducknng: HTTP header name must be an HTTP token")) else
      if negb (ducknng_http_header_value_is_valid header_value)
      then (target, Err (lit "ducknng: HTTP header value must not contain control characters")) else
      let (target, rv) := add_header target (default [] name) (default [] header_value) in
      if negb (rv =? 0) then (target, Err (strerror rv)) else
      let p := ducknng_http_skip_ws p in
      if cur p =? chr "," then apply_loop fuel (zdrop 1 p) target else
      if cur p =? chr "]" then
        (target, match ducknng_http_skip_ws (zdrop 1 p) with
                 | [] => Ok tt
                 | _ => Err (lit "ducknng: trailing characters after headers_json")
                 end)
      else (target, Err (lit "ducknng: expected ',' or ']' in headers_json"))
    end
  end.

Definition ducknng_http_apply_headers_json_common (headers_json : option bytes) (target : T)
    : T * result bytes unit :=
  match headers_json with
  | None | Some [] => (target, Ok tt)
  | Some json =>
    let p := ducknng_http_skip_ws json in
    if negb (cur p =? chr "[")
    then (target, Err (lit "ducknng: headers_json must be a JSON array of {name,value} objects")) else
    let p := ducknng_http_skip_ws (zdrop 1 p) in
    if cur p =? chr "]" then
      (target, match ducknng_http_skip_ws (zdrop 1 p) with
               | [] => Ok tt
               | _ => Err (lit "ducknng: trailing characters after headers_json")
               end)
    else apply_loop (S (length p)) p target
  end.
End apply_headers.

Definition ducknng_http_validate_headers_json (headers_json : option bytes) : result bytes unit :=
  (ducknng_http_apply_headers_json_common (fun (_ : unit) _ _ => (tt, 0)) (fun _ => []) headers_json tt).2.

(** ** Other texts *)

Definition ducknng_http_bytes_look_text (data : option bytes) : bool :=
  match data with
  | None => false
  | Some data =>
    forallb (fun c => (c =? 9) || (c =? 10) || (c =? 13) || negb ((c <? 32) || (c =? 127)))%bool data
  end.

Definition ducknng_validate_http_url (url : option bytes) : result bytes unit :=
  let! parsed := ducknng_transport_url_parse url in
  if ducknng_transport_url_is_http (Some parsed) then Ok tt
  else Err (lit "ducknng: http:// or https:// URL is required").

Definition DUCKNNG_HTTP_FRAME_MEDIA_TYPE : bytes := lit "application/vnd.ducknng.frame".

Fixpoint skip_blank (p : bytes) : bytes :=
  match p with
  | c :: rest => if ((c =? 32) || (c =? 9) || (c =? 13) || (c =? 10))%bool then skip_blank rest else p
  | [] => []
  end.

Definition ducknng_http_content_type_is_frame (content_type : option bytes) : bool :=
  match content_type with
  | None => false
  | Some ct =>
    let ct := skip_blank ct in
    if istarts_with_loop ct DUCKNNG_HTTP_FRAME_MEDIA_TYPE then
      let rest := skip_lws (zdrop (zlen DUCKNNG_HTTP_FRAME_MEDIA_TYPE) ct) in
      ((cur rest =? 0) || (cur rest =? chr ";"))%bool
    else false
  end.

(** The path, and the query after a question mark. *)
Fixpoint ducknng_http_split_uri (uri : bytes) : bytes * option bytes :=
  match uri with
  | [] => ([], None)
  | c :: rest =>
    if c =? chr "?" then ([], Some rest) else
    if c =? chr "#" then ([], None) else
    let (path, query) := ducknng_http_split_uri rest in (c :: path, query)
  end.

(** ** Headers survive the round trip through JSON *)

#[export] Instance http_escape_scans : JsonEscape http_escape.
Proof.
  constructor. intros c rest buf Hc. unfold http_escape.
  destruct (Z.eqb_spec c QUOTE) as [->|H1]; [by apply string_loop_simple|].
  destruct (Z.eqb_spec c BACKSLASH) as [->|H2]; [by apply string_loop_simple|].
  destruct (Z.eqb_spec c 8) as [->|]; [by apply string_loop_simple|].
  destruct (Z.eqb_spec c 12) as [->|]; [by apply string_loop_simple|].
  destruct (Z.eqb_spec c 10) as [->|]; [by apply string_loop_simple|].
  destruct (Z.eqb_spec c 13) as [->|]; [by apply string_loop_simple|].
  destruct (Z.eqb_spec c 9) as [->|]; [by apply string_loop_simple|].
  destruct (Z.ltb_spec c 0x20); [by apply string_loop_escape|by apply string_loop_plain].
Qed.

(** A character that may stand in a header name or value. *)
Definition visible (c : Z) : bool := negb ((c <? 0x20) || (c =? 0x7f))%bool.

Lemma http_escape_read c rest buf : visible c = true ->
  http_string_loop (http_escape c ++ rest) buf = http_string_loop rest (buf ++ [c]).
Proof.
  unfold visible, http_escape. intros Hv.
  destruct (Z.eqb_spec c QUOTE) as [->|H1]; [done|].
  destruct (Z.eqb_spec c BACKSLASH) as [->|H2]; [done|].
  repeat match goal with |- context [if c =? ?k then _ else _] =>
    destruct (Z.eqb_spec c k) as [->|]; [by vm_compute in Hv|] end.
  destruct (Z.ltb_spec c 0x20); [done|]. cbn [app http_string_loop].
  destruct (Z.eqb_spec c QUOTE); [done|]. destruct (Z.eqb_spec c BACKSLASH); [done|].
  destruct (Z.ltb_spec c 0x20); [lia|]. by destruct (c =? 0x7f).
Qed.

Lemma http_parse_quote s rest : forallb visible s = true ->
  ducknng_http_parse_json_string (json_quote http_escape s ++ rest) = Ok (s, rest).
Proof.
  intros Hs. unfold json_quote. cbn [app ducknng_http_parse_json_string]. rewrite Z.eqb_refl.
  assert (forall buf, http_string_loop (((s ≫= http_escape) ++ [QUOTE]) ++ rest) buf = Ok (buf ++ s, rest)) as Hl;
    [|apply Hl].
  induction s as [|c s IH]; intros buf; [by rewrite app_nil_r|].
  cbn [forallb] in Hs. apply andb_true_iff in Hs as [Hc Hs].
  rewrite bind_cons, <- !app_assoc, http_escape_read by done. rewrite app_assoc, IH by done. by rewrite <- app_assoc.
Qed.

Lemma http_skip_quote s rest : ducknng_http_skip_ws (json_quote http_escape s ++ rest) = json_quote http_escape s ++ rest.
Proof. done. Qed.

(** A header that may be sent: a token for a name, a value without controls. *)
Definition sendable (kv : bytes * bytes) : Prop :=
  ducknng_http_token_is_valid (Some kv.1) = true /\ ducknng_http_header_value_is_valid (Some kv.2) = true.

Lemma token_char_visible c : http_token_char c = true -> visible c = true.
Proof.
  unfold visible. intros H. destruct (Z.ltb_spec c 0x20), (Z.eqb_spec c 0x7f) as [->|]; try done; try by vm_compute in H.
  revert H. unfold http_token_char. rewrite !orb_true_iff, !andb_true_iff, !Z.leb_le.
  intros [[[?|?]|?]|He]; try lia. apply existsb_exists in He as (x & Hx & ->%Z.eqb_eq).
  assert (forallb (fun x => 0x20 <=? x) (lit "!#$%&'*+-.^_`|~") = true) as Ha by by vm_compute.
  rewrite forallb_forall in Ha. specialize (Ha x Hx). btests. lia.
Qed.

Lemma token_visible n : ducknng_http_token_is_valid (Some n) = true -> n <> [] /\ forallb visible n = true.
Proof.
  destruct n as [|c n]; [done|]. unfold ducknng_http_token_is_valid. intros H. split; [done|].
  rewrite forallb_forall in *. intros x Hx. by apply token_char_visible, H.
Qed.

Lemma object_fields_rendered n v fuel rest : forallb visible n = true -> forallb visible v = true -> (2 <= fuel)%nat ->
  object_fields_loop fuel (render_field http_escape (lit "name", n) ++ lit "," ++
    render_field http_escape (lit "value", v) ++ lit "}" ++ rest) None None = Ok (Some n, Some v, rest).
Proof.
  intros Hn Hv Hf. destruct fuel as [|[|fuel]]; [lia..|]. cbn [object_fields_loop]. unfold render_field. cbn [fst snd].
  rewrite <- !app_assoc, http_skip_quote, http_parse_quote by done. cbn [res_bind].
  change (ducknng_http_skip_ws (lit ":" ++ ?x)) with (lit ":" ++ x).
  change (cur (lit ":" ++ ?x) =? chr ":") with true. cbn [negb].
  change (zdrop 1 (lit ":" ++ ?x)) with x. rewrite http_skip_quote, http_parse_quote by done. cbn [res_bind].
  rewrite str_eq_refl, bool_decide_eq_false_2 by auto. cbn [res_bind].
  change (ducknng_http_skip_ws (lit "," ++ ?x)) with (lit "," ++ x).
  change (cur (lit "," ++ ?x) =? chr ",") with true. cbv iota. change (zdrop 1 (lit "," ++ ?x)) with x.
  rewrite http_skip_quote, http_parse_quote by done. cbn [res_bind].
  change (ducknng_http_skip_ws (lit ":" ++ ?x)) with (lit ":" ++ x).
  change (cur (lit ":" ++ ?x) =? chr ":") with true. cbn [negb].
  change (zdrop 1 (lit ":" ++ ?x)) with x. rewrite http_skip_quote, http_parse_quote by done. cbn [res_bind].
  change (str_eq (lit "value") (lit "name")) with false. rewrite str_eq_refl, bool_decide_eq_false_2 by auto. done.
Qed.

(** Adding headers one after the other, up to the first refusal. *)
Fixpoint add_all {T} (add : T -> bytes -> bytes -> T * Z) (strerror : Z -> bytes) (kvs : list (bytes * bytes)) (t : T)
    : T * result bytes unit :=
  match kvs with
  | [] => (t, Ok tt)
  | (n, v) :: kvs =>
    let (t, rv) := add t n v in if negb (rv =? 0) then (t, Err (strerror rv)) else add_all add strerror kvs t
  end.

Section rendered.
Context {T : Type} (add : T -> bytes -> bytes -> T * Z) (strerror : Z -> bytes).

Lemma apply_loop_rendered kvs fuel t : Forall sendable kvs -> kvs <> [] -> (length kvs <= fuel)%nat ->
  apply_loop add strerror fuel (join (lit ",") (render_header http_escape <$> kvs) ++ lit "]") t =
    add_all add strerror kvs t.
Proof.
  intros Hok. revert fuel t. induction Hok as [|[n v] kvs [Hn Hv] Hok IH]; [done|].
  intros [|fuel] t _ Hf; [cbn in Hf; lia|]. cbn [fst snd] in *. pose proof (token_visible n Hn) as [Hne Hnv].
  assert (forallb visible v = true) as Hvv.
  { revert Hv. unfold ducknng_http_header_value_is_valid. done. }
  assert (forall tl, apply_loop add strerror (S fuel) (render_header http_escape (n, v) ++ tl) t =
    let (t, rv) := add t n v in if negb (rv =? 0) then (t, Err (strerror rv)) else
      let p := ducknng_http_skip_ws tl in
      if cur p =? chr "," then apply_loop add strerror fuel (zdrop 1 p) t else
      if cur p =? chr "]" then
        (t, match ducknng_http_skip_ws (zdrop 1 p) with
            | [] => Ok tt | _ => Err (lit "ducknng: trailing characters after headers_json") end)
      else (t, Err (lit "ducknng: expected ',' or ']' in headers_json"))) as Hstep.
  { intros tl. cbn [apply_loop]. unfold render_header. cbn [fst snd]. rewrite <- !app_assoc.
    change (ducknng_http_skip_ws (lit "{" ++ ?x)) with (lit "{" ++ x).
    change (cur (lit "{" ++ ?x) =? chr "{") with true. cbn [negb]. change (zdrop 1 (lit "{" ++ ?x)) with x.
    rewrite object_fields_rendered; [|done|done|rewrite !length_app; simpl; lia].
    rewrite Hn, Hv. destruct n as [|c n]; [done|]. cbn [nonempty negb]. rewrite bool_decide_eq_false_2 by done. done. }
  rewrite fmap_cons. cbn [add_all]. destruct kvs as [|kv' kvs].
  - cbn [fmap list_fmap join]. rewrite Hstep. destruct (add t n v) as [t' rv]. by destruct (negb _).
  - change (join (lit ",") (render_header http_escape (n, v) :: (render_header http_escape <$> kv' :: kvs)))
      with (render_header http_escape (n, v) ++ lit "," ++ join (lit ",") (render_header http_escape <$> kv' :: kvs)).
    rewrite <- !app_assoc, Hstep. destruct (add t n v) as [t' rv]. destruct (negb _); [done|].
    change (ducknng_http_skip_ws (lit "," ++ ?x)) with (lit "," ++ x).
    change (cur (lit "," ++ ?x) =? chr ",") with true. cbv iota zeta. change (zdrop 1 (lit "," ++ ?x)) with x.
    apply IH; [done|cbn in *; lia].
Qed.

Lemma apply_headers_rendered kvs t : Forall sendable kvs ->
  ducknng_http_apply_headers_json_common add strerror (Some (render_headers http_escape kvs)) t =
    add_all add strerror kvs t.
Proof.
  intros Hok. unfold ducknng_http_apply_headers_json_common, render_headers.
  destruct (lit "[" ++ join (lit ",") (render_header http_escape <$> kvs) ++ lit "]") eqn:E; [done|].
  rewrite <- E. clear E. change (ducknng_http_skip_ws (lit "[" ++ ?x)) with (lit "[" ++ x).
  change (cur (lit "[" ++ ?x) =? chr "[") with true. cbn [negb]. change (zdrop 1 (lit "[" ++ ?x)) with x.
  destruct kvs as [|kv kvs]; [done|]. set (kvs' := kv :: kvs) in *.
  destruct (join_head (lit ",") (render_header http_escape kv) (render_header http_escape <$> kvs) (lit "]")) as (tl & Etl).
  assert (ducknng_http_skip_ws (join (lit ",") (render_header http_escape <$> kvs') ++ lit "]")
    = join (lit ",") (render_header http_escape <$> kvs') ++ lit "]") as -> by (subst kvs'; by rewrite fmap_cons, Etl).
  assert (cur (join (lit ",") (render_header http_escape <$> kvs') ++ lit "]") =? chr "]" = false) as ->
    by (subst kvs'; by rewrite fmap_cons, Etl).
  apply apply_loop_rendered; [done..|]. rewrite length_app.
  transitivity (length (join (lit ",") (render_header http_escape <$> kvs'))); [|lia].
  rewrite <- (length_fmap (render_header http_escape)). apply join_length.
  apply Forall_fmap, Forall_true. intros ? ?. done.
Qed.
End rendered.

(** The header block of a message: one line per header. *)
Definition header_line (kv : bytes * bytes) : bytes := kv.1 ++ lit ": " ++ kv.2 ++ [13; 10].
Definition header_block (kvs : list (bytes * bytes)) : bytes := kvs ≫= header_line.
Definition trimmed (kv : bytes * bytes) : bytes * bytes := (kv.1, skip_lws kv.2).

Lemma break_crlf_line l rest : 13 ∉ l -> break_crlf (l ++ 13 :: 10 :: rest) = (l, Some rest).
Proof.
  induction l as [|c l IH]; intros Hn; [done|]. apply not_elem_of_cons in Hn as [Hc Hn].
  cbn [app break_crlf]. destruct (l ++ 13 :: 10 :: rest) eqn:E; [by destruct l|].
  destruct (Z.eqb_spec c 13); [done|]. cbn [andb]. by rewrite IH.
Qed.

Lemma visible_not_elem s c : forallb visible s = true -> visible c = false -> c ∉ s.
Proof.
  intros Hs Hc Hin. rewrite forallb_forall in Hs. rewrite Hs in Hc; [done|]. by apply list_elem_of_In.
Qed.

Lemma token_no_colon n : ducknng_http_token_is_valid (Some n) = true -> chr ":" ∉ n.
Proof.
  destruct n as [|c n]; [done|]. unfold ducknng_http_token_is_valid. intros H Hin.
  rewrite forallb_forall in H. apply list_elem_of_In in Hin. by apply H in Hin.
Qed.

Lemma skip_lws_visible v : forallb visible v = true -> forallb visible (skip_lws v) = true.
Proof.
  induction v as [|c v IH]; [done|]. cbn [skip_lws]. destruct (is_lws c); [|done].
  cbn [forallb]. intros [_ ?]%andb_true_iff. auto.
Qed.

Lemma trimmed_sendable kvs : Forall sendable kvs -> Forall sendable (trimmed <$> kvs).
Proof. intros H. apply Forall_fmap. eapply Forall_impl; [done|]. intros [n v] [? ?]. split; [done|]. by apply skip_lws_visible. Qed.

Lemma block_line_step fuel n v rest buf first : sendable (n, v) ->
  block_loop (S fuel) (header_line (n, v) ++ rest) buf first =
  block_loop fuel rest (buf ++ (if first then [] else lit ",") ++ render_header http_escape (trimmed (n, v))) false.
Proof.
  intros [Hn Hv]. cbn [fst snd] in *. pose proof (token_visible n Hn) as [Hne Hnv]. pose proof (token_no_colon n Hn).
  cbn [block_loop]. unfold header_line. cbn [fst snd]. rewrite <- !app_assoc.
  destruct (n ++ lit ": " ++ v ++ [13; 10] ++ rest) eqn:E; [by destruct n|]. rewrite <- E. clear E.
  replace (n ++ lit ": " ++ v ++ [13; 10] ++ rest) with ((n ++ lit ": " ++ v) ++ 13 :: 10 :: rest)
    by (by rewrite <- !app_assoc).
  rewrite break_crlf_line.
  2:{ rewrite !not_elem_of_app. split; [by apply visible_not_elem|]. split; [apply (bool_decide_unpack _); by vm_compute|].
    by apply visible_not_elem. }
  destruct (n ++ lit ": " ++ v) eqn:E; [by destruct n|]. rewrite <- E. clear E.
  change (n ++ lit ": " ++ v) with (n ++ chr ":" :: 32 :: v). rewrite break_at_skip by done.
  cbn [default from_option id]. f_equal. unfold trimmed, render_header, render_field, ducknng_http_append_json_string, json_quote.
  cbn [fst snd default from_option id]. change (skip_lws (32 :: v)) with (skip_lws v).
  replace (if first then buf else buf ++ lit ",") with (buf ++ (if first then [] else lit ","))
    by (destruct first; by rewrite ?app_nil_r).
  change (lit "name" ≫= http_escape) with (lit "name"). change (lit "value" ≫= http_escape) with (lit "value").
  rewrite <- !app_assoc. do 2 f_equal. cbn [app]. by rewrite <- ?app_assoc.
Qed.

Lemma block_loop_rendered kvs fuel tail buf first : Forall sendable kvs -> (length kvs < fuel)%nat ->
  tail = [] \/ tail = [13; 10] ->
  block_loop fuel (header_block kvs ++ tail) buf first =
  buf ++ (if first || bool_decide (kvs = []) then [] else lit ",")%bool ++
    join (lit ",") (render_header http_escape <$> (trimmed <$> kvs)).
Proof.
  intros Hok. revert fuel buf first. induction Hok as [|[n v] kvs Hkv Hok IH]; intros fuel buf first Hf Ht.
  - destruct fuel as [|fuel]; [lia|]. rewrite bool_decide_eq_true_2, orb_true_r by done. cbn. rewrite app_nil_r.
    by destruct Ht as [-> | ->].
  - destruct fuel as [|fuel]; [lia|]. unfold header_block. rewrite bind_cons, <- app_assoc, block_line_step by done.
    rewrite bool_decide_eq_false_2, orb_false_r by done.
    change (kvs ≫= header_line) with (header_block kvs). rewrite IH by (done || cbn in Hf; lia).
    rewrite !fmap_cons. destruct kvs as [|kv' kvs]; [cbn; by rewrite !app_nil_r|].
    rewrite bool_decide_eq_false_2 by done. rewrite <- !app_assoc. done.
Qed.

Lemma block_length kvs : Forall sendable kvs -> (length kvs <= length (header_block kvs))%nat.
Proof.
  induction kvs as [|kv kvs IH]; [done|]. inversion_clear 1. unfold header_block in *. rewrite bind_cons, length_app.
  unfold header_line at 1. rewrite !length_app. specialize (IH ltac:(done)). cbn. lia.
Qed.

Lemma block_json kvs tail : Forall sendable kvs -> tail = [] \/ tail = [13; 10] ->
  ducknng_http_headers_block_to_json (Some (header_block kvs ++ tail)) = render_headers http_escape (trimmed <$> kvs).
Proof.
  intros Hok Ht. unfold ducknng_http_headers_block_to_json, render_headers.
  destruct (header_block kvs ++ tail) eqn:E.
  { apply app_eq_nil in E as [E _]. pose proof (block_length kvs Hok). rewrite E in *. destruct kvs; [done|]. cbn in *. lia. }
  rewrite <- E, block_loop_rendered; [by rewrite <- app_assoc|done| |done].
  pose proof (block_length kvs Hok). rewrite length_app. lia.
Qed.

Lemma sendable_ok kvs : Forall sendable kvs -> Forall (fun kv => cstr kv.1 /\ cstr kv.2) kvs -> headers_ok kvs.
Proof.
  intros Hs Hc. apply Forall_forall. intros kv Hin. rewrite Forall_forall in Hs, Hc.
  destruct (Hs kv Hin) as [Hn Hv], (Hc kv Hin) as [? ?]. pose proof (token_visible _ Hn) as [? _]. done.
Qed.

Lemma skip_lws_cstr v : cstr v -> cstr (skip_lws v).
Proof. induction 1; [done|]. cbn [skip_lws]. destruct (is_lws x); [done|]. by constructor. Qed.

(** Received headers survive the trip through JSON: the header block of a
    message is rendered so that the array read back adds exactly its headers,
    in order, with the blanks before each value removed, and a lookup in it
    (as SQL handlers do) finds the header asked for. *)
Theorem headers_json_roundtrip {T} (add : T -> bytes -> bytes -> T * Z) strerror kvs tail t wanted rej :
  Forall sendable kvs -> Forall (fun kv => cstr kv.1 /\ cstr kv.2) kvs -> tail = [] \/ tail = [13; 10] -> wanted <> [] ->
  let json := ducknng_http_headers_block_to_json (Some (header_block kvs ++ tail)) in
  ducknng_http_apply_headers_json_common add strerror (Some json) t = add_all add strerror (trimmed <$> kvs) t /\
  (ducknng_http_headers_json_get_header (Some json) (Some wanted) rej).2 =
    lookup_spec rej (ducknng_format_name_error "ducknng: duplicate HTTP header '" wanted "'")
      (hits_of (fun n => ducknng_ascii_ieq (Some n) (Some wanted)) (trimmed <$> kvs)).
Proof.
  intros Hs Hc Ht Hw json. unfold json. rewrite block_json by done.
  split; [apply apply_headers_rendered; by apply trimmed_sendable|].
  apply headers_get_rendered; [apply http_escape_scans| |done].
  apply sendable_ok; [by apply trimmed_sendable|]. apply Forall_fmap. eapply Forall_impl; [done|].
  intros kv [? ?]. split; [done|]. by apply skip_lws_cstr.
Qed.

Lemma headers_json_roundtrip_witness :
  ducknng_http_validate_headers_json (Some (ducknng_http_headers_block_to_json
    (Some (header_block [(lit "Host", lit "a:80"); (lit "X-Quote", [QUOTE; BACKSLASH])] ++ [13; 10])))) = Ok tt.
Proof.
  unfold ducknng_http_validate_headers_json.
  refine (eq_trans (f_equal snd (proj1 (headers_json_roundtrip (fun (_ : unit) _ _ => (tt, 0)) (fun _ => [])
    [(lit "Host", lit "a:80"); (lit "X-Quote", [QUOTE; BACKSLASH])] [13; 10] tt (lit "host") true _ _ _ _))) _).
  - apply (bool_decide_unpack _); vm_compute; exact I.
  - apply (bool_decide_unpack _); vm_compute; exact I.
  - right; reflexivity.
  - discriminate.
  - reflexivity.
Defined.

(** ** No header is injected *)

(** The target as the list of headers added; [accept] is NNG's answer. *)
Definition log_header (accept : bytes -> bytes -> Z) (t : list (bytes * bytes)) (n v : bytes) : list (bytes * bytes) * Z :=
  (t ++ [(n, v)], accept n v).

Lemma apply_loop_sendable accept strerror fuel p t : Forall sendable t ->
  Forall sendable (apply_loop (log_header accept) strerror fuel p t).1.
Proof.
  revert p t. induction fuel as [|fuel IH]; intros p t Ht; [done|]. cbn [apply_loop].
  destruct (negb _); [done|]. destruct (object_fields_loop _ _ _ _) as [[[name value] q]|e]; [|done].
  destruct (_ || _)%bool eqn:Eb; [done|]. apply orb_false_iff in Eb as [_ Eb].
  destruct (ducknng_http_token_is_valid name) eqn:En; [|done]. cbn [negb].
  destruct (ducknng_http_header_value_is_valid value) eqn:Ev; [|done]. cbn [negb log_header].
  assert (Forall sendable (t ++ [(default [] name, default [] value)])) as Ht'.
  { apply Forall_app_2; [done|]. constructor; [|done]. by destruct name, value. }
  destruct (negb _); [done|]. destruct (_ =? _); [by apply IH|]. by destruct (_ =? _).
Qed.

(** Fuel is enough: the header array is always read to its end or to an
    error of the parser. *)
Lemma http_string_shrinks p buf :
  match http_string_loop p buf with Ok (_, rest) => (length rest <= length p)%nat | Err e => own_error e end.
Proof.
  remember (length p) as n eqn:Hn. assert (length p <= n)%nat as Hle by lia. clear Hn.
  revert p buf Hle. induction n as [n IH] using lt_wf_ind. intros p buf Hle.
  assert (forall q b, (length q < length p)%nat ->
    match http_string_loop q b with Ok (_, rest) => (length rest <= n)%nat | Err e => own_error e end) as Hrec.
  { intros q b Hq. specialize (IH (length q) ltac:(lia) q b ltac:(lia)).
    destruct (http_string_loop q b) as [[? rest]|]; [lia|done]. }
  clear IH. destruct p as [|c p]; [done|]. cbn [http_string_loop]. rewrite length_cons in *.
  destruct (c =? QUOTE); [simpl; lia|]. destruct (c =? BACKSLASH).
  - destruct p as [|esc p]; [done|]. rewrite length_cons in *. destruct (_ || _)%bool; [apply Hrec; lia|].
    destruct (_ || _)%bool; [done|]. destruct (esc =? chr "u"); [|done].
    destruct p as [|h1 [|h2 [|h3 [|h4 p]]]]; try done. rewrite !length_cons in *.
    destruct (hex4 h1 h2 h3 h4); [|done]. destruct (0x7f <? _); [done|]. destruct (_ || _)%bool; [done|]. apply Hrec; lia.
  - destruct (_ || _)%bool; [done|]. apply Hrec; lia.
Qed.

Lemma http_parse_shrinks p :
  match ducknng_http_parse_json_string p with Ok (_, rest) => (length rest < length p)%nat | Err e => own_error e end.
Proof.
  destruct p as [|c p]; [done|]. cbn [ducknng_http_parse_json_string]. destruct (c =? QUOTE); [|done].
  pose proof (http_string_shrinks p []) as H. destruct (http_string_loop p []) as [[? rest]|]; [simpl; lia|done].
Qed.

Lemma http_skip_shrinks p : (length (ducknng_http_skip_ws p) <= length p)%nat.
Proof. induction p as [|c p IH]; [done|]. cbn [ducknng_http_skip_ws]. destruct (is_space c); simpl; lia. Qed.

Lemma object_fields_answers fuel p n v : (length p < fuel)%nat ->
  match object_fields_loop fuel p n v with Ok (_, _, q) => (length q < length p)%nat | Err e => own_error e end.
Proof.
  revert p n v. induction fuel as [|fuel IH]; intros p n v Hf; [lia|]. cbn [object_fields_loop].
  pose proof (http_parse_shrinks (ducknng_http_skip_ws p)) as H1. pose proof (http_skip_shrinks p).
  destruct (ducknng_http_parse_json_string (ducknng_http_skip_ws p)) as [[k p1]|e]; [|done]. cbn [res_bind].
  destruct (negb _); [done|]. set (q1 := ducknng_http_skip_ws (zdrop 1 _)).
  assert (length q1 <= length p1)%nat.
  { unfold q1. pose proof (http_skip_shrinks (zdrop 1 (ducknng_http_skip_ws p1))).
    pose proof (zdrop1_shrinks (ducknng_http_skip_ws p1)). pose proof (http_skip_shrinks p1). lia. }
  pose proof (http_parse_shrinks q1) as H2. destruct (ducknng_http_parse_json_string q1) as [[x p2]|e]; [|done].
  cbn [res_bind]. pose proof (http_skip_shrinks p2). pose proof (zdrop1_shrinks (ducknng_http_skip_ws p2)).
  assert (forall n' v', match (let p := ducknng_http_skip_ws p2 in
    if cur p =? chr "," then object_fields_loop fuel (zdrop 1 p) n' v' else
    if cur p =? chr "}" then Ok (n', v', zdrop 1 p) else Err (lit "ducknng: expected ',' or '}' in headers_json"))
    with Ok (_, _, q) => (length q < length p)%nat | Err e => own_error e end) as Hgo.
  { intros n' v'. cbv zeta. destruct (_ =? _).
    - specialize (IH (zdrop 1 (ducknng_http_skip_ws p2)) n' v' ltac:(lia)).
      destruct (object_fields_loop _ _ _ _) as [[[? ?] ?]|]; [lia|done].
    - destruct (_ =? _); [lia|done]. }
  destruct (str_eq k (lit "name")); [destruct (bool_decide _); [done|apply Hgo]|].
  destruct (str_eq k (lit "value")); [destruct (bool_decide _); [done|apply Hgo]|done].
Qed.

Lemma apply_loop_answers {T} (add : T -> bytes -> bytes -> T * Z) strerror fuel p t : (length p < fuel)%nat ->
  (forall rv, own_error (strerror rv)) -> answered (apply_loop add strerror fuel p t).2.
Proof.
  intros Hf Hs. revert p t Hf. induction fuel as [|fuel IH]; intros p t Hf; [lia|]. cbn [apply_loop].
  destruct (negb _); [done|]. pose proof (http_skip_shrinks p). pose proof (zdrop1_shrinks (ducknng_http_skip_ws p)).
  pose proof (object_fields_answers (S (length (ducknng_http_skip_ws p))) (zdrop 1 (ducknng_http_skip_ws p)) None None
    ltac:(lia)) as Ho.
  destruct (object_fields_loop _ _ _ _) as [[[n v] q]|e]; [|done].
  destruct (_ || _)%bool; [done|]. destruct (negb _); [done|]. destruct (negb _); [done|].
  destruct (add _ _ _) as [t' rv]. destruct (negb _); [apply Hs|].
  pose proof (http_skip_shrinks q). pose proof (zdrop1_shrinks (ducknng_http_skip_ws q)).
  destruct (_ =? _); [apply IH; lia|]. destruct (_ =? _); [|done].
  by destruct (ducknng_http_skip_ws (zdrop 1 (ducknng_http_skip_ws q))).
Qed.

(** C34. No headers_json text, however malformed, smuggles a header into a
    message: whatever is added before the text is refused or accepted has an
    HTTP token for a name and a value without control characters, so no line
    break reaches the wire; and the parser always answers. *)
Theorem headers_never_injected accept strerror json : (forall rv, own_error (strerror rv)) ->
  let (added, r) := ducknng_http_apply_headers_json_common (log_header accept) strerror json [] in
  Forall sendable added /\ Forall (fun kv => 13 ∉ kv.2 /\ 10 ∉ kv.2) added /\ answered r.
Proof.
  intros Hs. assert (forall l, Forall sendable l -> Forall (fun kv => 13 ∉ kv.2 /\ 10 ∉ kv.2) l) as Hcrlf.
  { intros l Hl. eapply Forall_impl; [done|]. intros [n v] [_ Hv]. split; by apply visible_not_elem. }
  destruct (ducknng_http_apply_headers_json_common (log_header accept) strerror json []) as [added r] eqn:E.
  assert (Forall sendable added /\ answered r) as [? ?]; [|by auto].
  revert E. unfold ducknng_http_apply_headers_json_common.
  destruct json as [[|c json]|]; [by intros [= <- <-]| |by intros [= <- <-]].
  destruct (negb _); [by intros [= <- <-]|]. destruct (_ =? _); [intros [= <- <-]; split; [done|]; by destruct (ducknng_http_skip_ws (zdrop 1 (ducknng_http_skip_ws (zdrop 1 _))))|].
  set (p := ducknng_http_skip_ws _). intros E.
  pose proof (apply_loop_sendable accept strerror (S (length p)) p [] ltac:(done)) as H1.
  pose proof (apply_loop_answers (log_header accept) strerror (S (length p)) p [] ltac:(lia) Hs) as H2.
  by rewrite E in H1, H2.
Qed.

Lemma headers_never_injected_witness :
  let (added, r) := ducknng_http_apply_headers_json_common (log_header (fun _ _ => 0)) (fun _ => lit "d")
    (Some (lit "[{}]")) [] in
  Forall sendable added /\ Forall (fun kv => 13 ∉ kv.2 /\ 10 ∉ kv.2) added /\ answered r.
Proof. apply headers_never_injected. intros rv. reflexivity. Defined.
