(* ===== verification/HttpStream.v ===== *)
(** The body of a streamed HTTP response: [src/src/ducknng_http_client_stream.c].

    The part of the read buffer between [raw_pos] and [raw_len] is the list
    [raw]; the line buffer up to [line_len] is [line].  What NNG reports
    (results of operations, response status and headers) is an argument.  A
    stream that failed keeps its decoder as it was: nothing reads it again.
    The decoding loop carries fuel: every round that continues consumes a
    byte. *)

From stdpp Require Import relations.
From S2P Require Import Prelude Util.

(** ** Data *)

Definition DUCKNNG_HTTP_STREAM_READ_BUFFER_SIZE : Z := 8192.
Definition DUCKNNG_HTTP_STREAM_LINE_MAX : Z := 8192.
Definition DUCKNNG_HTTP_STREAM_MAX_RECV_BYTES : Z := 64 * 1024 * 1024.

Inductive ducknng_http_stream_action :=
| DUCKNNG_HTTP_STREAM_ACTION_NONE | DUCKNNG_HTTP_STREAM_ACTION_CONNECT
| DUCKNNG_HTTP_STREAM_ACTION_WRITE_REQUEST | DUCKNNG_HTTP_STREAM_ACTION_READ_HEADERS
| DUCKNNG_HTTP_STREAM_ACTION_READ_BODY.

Inductive ducknng_http_stream_open_phase :=
| DUCKNNG_HTTP_STREAM_OPEN_CONNECT | DUCKNNG_HTTP_STREAM_OPEN_WRITE_REQUEST
| DUCKNNG_HTTP_STREAM_OPEN_READ_HEADERS | DUCKNNG_HTTP_STREAM_OPEN_DONE.

Inductive ducknng_http_stream_body_mode :=
| DUCKNNG_HTTP_STREAM_BODY_NONE | DUCKNNG_HTTP_STREAM_BODY_CONTENT_LENGTH
| DUCKNNG_HTTP_STREAM_BODY_CHUNKED | DUCKNNG_HTTP_STREAM_BODY_UNTIL_CLOSE.

Inductive ducknng_http_stream_chunk_state :=
| DUCKNNG_HTTP_STREAM_CHUNK_SIZE | DUCKNNG_HTTP_STREAM_CHUNK_DATA
| DUCKNNG_HTTP_STREAM_CHUNK_DATA_CRLF | DUCKNNG_HTTP_STREAM_CHUNK_TRAILERS.

(** The fields that decode the framing of the body. *)
Record framing := mk_framing {
  body_mode : ducknng_http_stream_body_mode; content_remaining : Z;
  chunk_state : ducknng_http_stream_chunk_state; chunk_remaining : Z;
  line : bytes; line_saw_cr : bool; data_crlf_pos : Z }.

Record ducknng_http_client_stream := mk_stream {
  hs_status : Z; hs_framing : framing; raw : bytes;
  open_phase : ducknng_http_stream_open_phase; hs_conn : bool;
  hs_open : bool; hs_eof : bool; hs_failed : bool; hs_closing : bool }.

Definition set_chunk (st : ducknng_http_stream_chunk_state) (remaining : Z) (line : bytes) (saw_cr : bool)
    (pos : Z) (f : framing) : framing :=
  mk_framing (body_mode f) (content_remaining f) st remaining line saw_cr pos.

Definition set_content (remaining : Z) (f : framing) : framing :=
  mk_framing (body_mode f) remaining (chunk_state f) (chunk_remaining f) (line f) (line_saw_cr f) (data_crlf_pos f).

Definition set_stream (f : framing) (raw : bytes) (eof : bool) (s : ducknng_http_client_stream)
    : ducknng_http_client_stream :=
  mk_stream (hs_status s) f raw (open_phase s) (hs_conn s) (hs_open s) eof (hs_failed s) (hs_closing s).

Definition set_failed (s : ducknng_http_client_stream) : ducknng_http_client_stream :=
  mk_stream (hs_status s) (hs_framing s) (raw s) (open_phase s) (hs_conn s) (hs_open s) (hs_eof s) true (hs_closing s).

(** ** Opening *)

Definition is_pad (c : Z) : bool := ((c =? 32) || (c =? 9))%bool.

Fixpoint skip_pads (p : bytes) : bytes :=
  match p with
  | c :: rest => if (is_pad c || (c =? chr ","))%bool then skip_pads rest else p
  | [] => []
  end.

(** The loop over the comma-separated tokens. *)
Fixpoint token_loop (fuel : nat) (p wanted : bytes) (saw_token last_matches : bool) : bool :=
  match fuel with
  | O => false
  | S fuel =>
    match p with
    | [] => (saw_token && last_matches)%bool
    | _ =>
      let (start, rest) := break_at (chr ",") (skip_pads p) in
      let token := rev ((fix drop_pads (l : bytes) := match l with
        | c :: l' => if is_pad c then drop_pads l' else l | [] => [] end) (rev start)) in
      let p := default [] rest in
      match token with
      | [] => token_loop fuel p wanted saw_token last_matches
      | _ => token_loop fuel p wanted true (ducknng_ascii_ieq (Some token) (Some wanted))
      end
    end
  end.

Definition ducknng_http_stream_header_ends_with_token (value wanted : bytes) : bool :=
  match wanted with
  | [] => false
  | _ => token_loop (S (length value)) value wanted false false
  end.

Fixpoint content_length_loop (p : bytes) (parsed : Z) : result bytes Z :=
  match p with
  | [] => Ok parsed
  | c :: p =>
    if ((c <? 48) || (57 <? c))%bool
    then Err (lit "ducknng: invalid Content-Length in streaming HTTP response") else
    let digit := c - 48 in
    if (UINT64_MAX - digit) / 10 <? parsed
    then Err (lit "ducknng: Content-Length overflows the streaming HTTP response counter")
    else content_length_loop p (parsed * 10 + digit)
  end.

Definition ducknng_http_stream_parse_content_length (value : bytes) : result bytes Z :=
  match value with
  | [] => Err (lit "ducknng: empty Content-Length in streaming HTTP response")
  | _ => content_length_loop value 0
  end.

Definition ducknng_http_stream_response_has_no_body (method : option bytes) (status : Z) : bool :=
  (ducknng_ascii_ieq method (Some (lit "HEAD")) || ((100 <=? status) && (status <? 200)) ||
   (status =? 204) || (status =? 205) || (status =? 304))%bool.

(** The framing of the body and [eof], from the response's status and headers. *)
Definition ducknng_http_stream_configure_body (method : option bytes) (status : Z) (copied : result bytes unit)
    (transfer_encoding content_length : option bytes) : result bytes (framing * bool) :=
  let! _ := copied in
  let start mode n := mk_framing mode n DUCKNNG_HTTP_STREAM_CHUNK_SIZE 0 [] false 0 in
  if ducknng_http_stream_response_has_no_body method status
  then Ok (start DUCKNNG_HTTP_STREAM_BODY_NONE 0, true) else
  if nonempty transfer_encoding then
    if negb (ducknng_http_stream_header_ends_with_token (default [] transfer_encoding) (lit "chunked"))
    then Err (lit "ducknng: unsupported Transfer-Encoding in streaming HTTP response")
    else Ok (start DUCKNNG_HTTP_STREAM_BODY_CHUNKED 0, false)
  else
    match content_length with
    | Some value =>
      let! n := ducknng_http_stream_parse_content_length value in
      Ok (start DUCKNNG_HTTP_STREAM_BODY_CONTENT_LENGTH n, n =? 0)
    | None => Ok (start DUCKNNG_HTTP_STREAM_BODY_UNTIL_CLOSE 0, false)
    end.

(** The zeroed structure, once the request is built and its [Connection]
    header set. *)
Definition ducknng_http_client_stream_prepare (prepared set_header : result bytes unit)
    : result bytes ducknng_http_client_stream :=
  let! _ := prepared in
  let! _ := set_header in
  Ok (mk_stream 0 (mk_framing DUCKNNG_HTTP_STREAM_BODY_NONE 0 DUCKNNG_HTTP_STREAM_CHUNK_SIZE 0 [] false 0) []
        DUCKNNG_HTTP_STREAM_OPEN_CONNECT false false false false false).

(** What the completed operation reports: its result, the connection it
    opened, and the response it read ([or_headers] is the result of copying
    its headers). *)
Record open_report := mk_report {
  or_result : Z; or_error : bytes; or_conn : bool; or_method : option bytes; or_status : Z;
  or_headers : result bytes unit;
  or_transfer_encoding : option bytes; or_content_length : option bytes }.

(** The stream, and the next action ([None] when the headers are ready) or
    the message of a failure. *)
Definition ducknng_http_client_stream_open_advance (s : ducknng_http_client_stream) (r : open_report)
    : ducknng_http_client_stream * result bytes (option ducknng_http_stream_action) :=
  let set_phase phase conn := mk_stream (hs_status s) (hs_framing s) (raw s) phase conn (hs_open s)
    (hs_eof s) (hs_failed s) (hs_closing s) in
  if negb (or_result r =? 0) then (set_failed s, Err (or_error r)) else
  match open_phase s with
  | DUCKNNG_HTTP_STREAM_OPEN_CONNECT =>
    if negb (or_conn r) then (set_failed s, Err (lit "ducknng: HTTP stream connect returned no connection"))
    else (set_phase DUCKNNG_HTTP_STREAM_OPEN_WRITE_REQUEST true,
          Ok (Some DUCKNNG_HTTP_STREAM_ACTION_WRITE_REQUEST))
  | DUCKNNG_HTTP_STREAM_OPEN_WRITE_REQUEST =>
    (set_phase DUCKNNG_HTTP_STREAM_OPEN_READ_HEADERS (hs_conn s),
     Ok (Some DUCKNNG_HTTP_STREAM_ACTION_READ_HEADERS))
  | DUCKNNG_HTTP_STREAM_OPEN_READ_HEADERS =>
    match ducknng_http_stream_configure_body (or_method r) (or_status r) (or_headers r)
        (or_transfer_encoding r) (or_content_length r) with
    | Err e =>
      (set_failed (mk_stream (or_status r) (hs_framing s) (raw s) (open_phase s) (hs_conn s) (hs_open s)
         (hs_eof s) (hs_failed s) (hs_closing s)), Err e)
    | Ok (f, eof) =>
      (mk_stream (or_status r) f (raw s) DUCKNNG_HTTP_STREAM_OPEN_DONE (hs_conn s) true eof
         (hs_failed s) (hs_closing s), Ok None)
    end
  | DUCKNNG_HTTP_STREAM_OPEN_DONE =>
    (set_failed s, Err (lit "ducknng: invalid streaming HTTP open phase"))
  end.

(** ** Decoding *)

(** The rest of the buffer, the line, [line_saw_cr] and [*out_complete]. *)
Fixpoint ducknng_http_stream_read_line (raw line : bytes) (saw_cr : bool)
    : result bytes (bytes * bytes * bool * bool) :=
  match raw with
  | [] => Ok ([], line, saw_cr, false)
  | c :: raw =>
    if saw_cr then
      if negb (c =? 10) then Err (lit "ducknng: malformed chunked HTTP line ending")
      else Ok (raw, line, false, true)
    else if c =? 13 then ducknng_http_stream_read_line raw line true
    else if c =? 10 then Err (lit "ducknng: malformed chunked HTTP line ending")
    else if (((c <? 0x20) && negb (c =? 9)) || (c =? 0x7f))%bool
    then Err (lit "ducknng: control character in chunked HTTP framing")
    else if DUCKNNG_HTTP_STREAM_LINE_MAX <=? zlen line
    then Err (lit "ducknng: chunked HTTP size or trailer line is too long")
    else ducknng_http_stream_read_line raw (line ++ [c]) false
  end.

Definition chunk_digit (c : Z) : option Z :=
  if ((48 <=? c) && (c <=? 57))%bool then Some (c - 48) else
  if ((97 <=? c) && (c <=? 102))%bool then Some (c - 97 + 10) else
  if ((65 <=? c) && (c <=? 70))%bool then Some (c - 65 + 10) else None.

Fixpoint chunk_size_loop (p : bytes) (size digits : Z) : result bytes (Z * Z) :=
  match p with
  | [] => Ok (size, digits)
  | c :: p =>
    if c =? chr ";" then Ok (size, digits) else
    match chunk_digit c with
    | None => Err (lit "ducknng: invalid chunk size in streaming HTTP response")
    | Some digit =>
      if (UINT64_MAX - digit) / 16 <? size
      then Err (lit "ducknng: chunk size overflows the streaming HTTP response counter")
      else chunk_size_loop p (size * 16 + digit) (digits + 1)
    end
  end.

Definition ducknng_http_stream_parse_chunk_size (f : framing) : result bytes framing :=
  let! (size, digits) := chunk_size_loop (line f) 0 0 in
  if digits =? 0 then Err (lit "ducknng: empty chunk size in streaming HTTP response") else
  Ok (set_chunk (if size =? 0 then DUCKNNG_HTTP_STREAM_CHUNK_TRAILERS else DUCKNNG_HTTP_STREAM_CHUNK_DATA)
        size [] (line_saw_cr f) (data_crlf_pos f) f).

Definition ducknng_http_stream_min3 (a b c : Z) : Z :=
  let n := if a <? b then a else b in if c <? n then c else n.

(** The terminator of a chunk, from the position reached. *)
Fixpoint crlf_loop (raw : bytes) (pos : Z) : result bytes (bytes * Z) :=
  if 2 <=? pos then Ok (raw, pos) else
  match raw with
  | [] => Ok ([], pos)
  | c :: raw =>
    if negb (c =? (if pos =? 0 then 13 else 10))
    then Err (lit "ducknng: malformed chunk data terminator in streaming HTTP response")
    else crlf_loop raw (pos + 1)
  end.

(** What one call of the decoder leaves: the stream, the bytes handed out,
    [*out_eof] and whether the receive is complete (return 1). *)
Record processed := mk_processed {
  pr_stream : ducknng_http_client_stream; pr_out : bytes; pr_eof : bool; pr_done : bool }.

(** The loop of the chunked mode. *)
Fixpoint chunked_loop (fuel : nat) (s : ducknng_http_client_stream) (out : bytes) (out_cap : Z)
    : result bytes processed :=
  match fuel with
  | O => Err out_of_fuel
  | S fuel =>
    let f := hs_framing s in
    match chunk_state f with
    | DUCKNNG_HTTP_STREAM_CHUNK_SIZE =>
      let! (rest, ln, cr, complete) := ducknng_http_stream_read_line (raw s) (line f) (line_saw_cr f) in
      let f := set_chunk (chunk_state f) (chunk_remaining f) ln cr (data_crlf_pos f) f in
      if negb complete then Ok (mk_processed (set_stream f rest (hs_eof s) s) out false false) else
      let! f := ducknng_http_stream_parse_chunk_size f in
      chunked_loop fuel (set_stream f rest (hs_eof s) s) out out_cap
    | DUCKNNG_HTTP_STREAM_CHUNK_DATA =>
      let take := ducknng_http_stream_min3 (zlen (raw s)) (out_cap - zlen out) (chunk_remaining f) in
      let out := out ++ ztake take (raw s) in
      let rest := zdrop take (raw s) in
      let remaining := chunk_remaining f - take in
      let f := if remaining =? 0
        then set_chunk DUCKNNG_HTTP_STREAM_CHUNK_DATA_CRLF remaining (line f) (line_saw_cr f) 0 f
        else set_chunk (chunk_state f) remaining (line f) (line_saw_cr f) (data_crlf_pos f) f in
      let s := set_stream f rest (hs_eof s) s in
      if 0 <? zlen out then Ok (mk_processed s out false true) else
      if zlen rest =? 0 then Ok (mk_processed s out false false) else
      chunked_loop fuel s out out_cap
    | DUCKNNG_HTTP_STREAM_CHUNK_DATA_CRLF =>
      let! (rest, pos) := crlf_loop (raw s) (data_crlf_pos f) in
      if pos <? 2 then
        Ok (mk_processed (set_stream (set_chunk (chunk_state f) (chunk_remaining f) (line f) (line_saw_cr f) pos f)
          rest (hs_eof s) s) out false false)
      else
        chunked_loop fuel (set_stream (set_chunk DUCKNNG_HTTP_STREAM_CHUNK_SIZE (chunk_remaining f) (line f)
          (line_saw_cr f) pos f) rest (hs_eof s) s) out out_cap
    | DUCKNNG_HTTP_STREAM_CHUNK_TRAILERS =>
      let! (rest, ln, cr, complete) := ducknng_http_stream_read_line (raw s) (line f) (line_saw_cr f) in
      let f' := set_chunk (chunk_state f) (chunk_remaining f) ln cr (data_crlf_pos f) f in
      if negb complete then Ok (mk_processed (set_stream f' rest (hs_eof s) s) out false false) else
      if zlen ln =? 0 then Ok (mk_processed (set_stream f' rest true s) out true true) else
      chunked_loop fuel (set_stream (set_chunk (chunk_state f) (chunk_remaining f) [] cr (data_crlf_pos f) f)
        rest (hs_eof s) s) out out_cap
    end
  end.

Definition ducknng_http_stream_process (s : ducknng_http_client_stream) (out : bytes) (out_cap : Z)
    : result bytes processed :=
  let f := hs_framing s in
  if hs_eof s then Ok (mk_processed s out true true) else
  match body_mode f with
  | DUCKNNG_HTTP_STREAM_BODY_CONTENT_LENGTH =>
    let take := ducknng_http_stream_min3 (zlen (raw s)) (out_cap - zlen out) (content_remaining f) in
    let out := out ++ ztake take (raw s) in
    let remaining := content_remaining f - take in
    let eof := if remaining =? 0 then true else hs_eof s in
    let s := set_stream (set_content remaining f) (zdrop take (raw s)) eof s in
    if 0 <? zlen out then Ok (mk_processed s out false true) else
    if eof then Ok (mk_processed s out true true) else Ok (mk_processed s out false false)
  | DUCKNNG_HTTP_STREAM_BODY_UNTIL_CLOSE =>
    let available := zlen (raw s) in
    let room := out_cap - zlen out in
    let take := if available <? room then available else room in
    if 0 <? take then
      Ok (mk_processed (set_stream f (zdrop take (raw s)) (hs_eof s) s) (out ++ ztake take (raw s)) false true)
    else Ok (mk_processed s out false false)
  | DUCKNNG_HTTP_STREAM_BODY_NONE => Ok (mk_processed (set_stream f (raw s) true s) out true true)
  | DUCKNNG_HTTP_STREAM_BODY_CHUNKED => chunked_loop (S (length (raw s))) s out out_cap
  end.

(** ** Receiving *)

(** The stream, the bytes so far, and what the call returned: 1 with
    [*out_eof], 0 with the request for another read, or the failure. *)
Inductive recv_return :=
| recv_done (eof : bool)
| recv_action (a : ducknng_http_stream_action)
| recv_error (e : bytes).

Definition recv_finish (s : ducknng_http_client_stream) (out : bytes) (r : result bytes processed)
    : ducknng_http_client_stream * bytes * recv_return :=
  match r with
  | Err e => (set_failed s, out, recv_error e)
  | Ok p =>
    (pr_stream p, pr_out p,
     if pr_done p then recv_done (pr_eof p) else recv_action DUCKNNG_HTTP_STREAM_ACTION_READ_BODY)
  end.

Definition ducknng_http_client_stream_recv_begin (s : ducknng_http_client_stream) (out_cap : Z)
    : ducknng_http_client_stream * bytes * recv_return :=
  if ((out_cap =? 0) || (DUCKNNG_HTTP_STREAM_MAX_RECV_BYTES <? out_cap))%bool
  then (s, [], recv_error (lit "ducknng: HTTP stream receive max_bytes must be between 1 and 67108864")) else
  if (negb (hs_open s) || hs_failed s || hs_closing s)%bool
  then (s, [], recv_error (if hs_closing s then lit "ducknng: HTTP stream is closing"
                           else lit "ducknng: HTTP stream is not readable")) else
  recv_finish s [] (ducknng_http_stream_process s [] out_cap).

(** How a network read ended. *)
Inductive read_report :=
| read_bytes (b : bytes)
| read_closed (e : bytes)     (* NNG_ECONNSHUT or NNG_ECLOSED *)
| read_failed (e : bytes).

Definition ducknng_http_client_stream_recv_advance (s : ducknng_http_client_stream) (r : read_report)
    (out : bytes) (out_cap : Z) : ducknng_http_client_stream * bytes * recv_return :=
  if ((out_cap =? 0) || (DUCKNNG_HTTP_STREAM_MAX_RECV_BYTES <? out_cap))%bool
  then (s, out, recv_error (lit "ducknng: missing or invalid streaming HTTP receive state")) else
  match r with
  | read_closed e =>
    match body_mode (hs_framing s), hs_closing s with
    | DUCKNNG_HTTP_STREAM_BODY_UNTIL_CLOSE, false =>
      (set_stream (hs_framing s) (raw s) true s, out, recv_done true)
    | _, _ => (set_failed s, out, recv_error e)
    end
  | read_failed e => (set_failed s, out, recv_error e)
  | read_bytes b =>
    if ((zlen b =? 0) || (DUCKNNG_HTTP_STREAM_READ_BUFFER_SIZE <? zlen b))%bool
    then (set_failed s, out,
          recv_error (lit "ducknng: streaming HTTP connection returned an empty or oversized read")) else
    let s := set_stream (hs_framing s) b (hs_eof s) s in
    recv_finish s out (ducknng_http_stream_process s out out_cap)
  end.

(** The check before a body read is submitted; the buffer is emptied. *)
Definition ducknng_http_client_stream_submit (s : ducknng_http_client_stream) (a : ducknng_http_stream_action)
    : result bytes ducknng_http_client_stream :=
  match a with
  | DUCKNNG_HTTP_STREAM_ACTION_CONNECT | DUCKNNG_HTTP_STREAM_ACTION_WRITE_REQUEST
  | DUCKNNG_HTTP_STREAM_ACTION_READ_HEADERS => Ok s
  | DUCKNNG_HTTP_STREAM_ACTION_READ_BODY =>
    if (negb (hs_conn s) || negb (zlen (raw s) =? 0))%bool
    then Err (lit "ducknng: invalid streaming HTTP raw-read state")
    else Ok (set_stream (hs_framing s) [] (hs_eof s) s)
  | DUCKNNG_HTTP_STREAM_ACTION_NONE => Err (lit "ducknng: invalid streaming HTTP submission action")
  end.

(** ** The framing as a byte machine

    One byte at a time: the next framing, the bytes it yields and whether the
    body has ended.  It is the reference the buffered decoder is compared
    with. *)

(** A completed size or trailer line. *)
Definition line_done (f : framing) : result bytes (framing * bool) :=
  match chunk_state f with
  | DUCKNNG_HTTP_STREAM_CHUNK_TRAILERS =>
    if zlen (line f) =? 0 then Ok (f, true)
    else Ok (set_chunk (chunk_state f) (chunk_remaining f) [] (line_saw_cr f) (data_crlf_pos f) f, false)
  | _ => let! f := ducknng_http_stream_parse_chunk_size f in Ok (f, false)
  end.

Definition mstep (f : framing) (c : Z) : result bytes (framing * bytes * bool) :=
  match body_mode f with
  | DUCKNNG_HTTP_STREAM_BODY_NONE => Ok (f, [], true)
  | DUCKNNG_HTTP_STREAM_BODY_CONTENT_LENGTH =>
    Ok (set_content (content_remaining f - 1) f, [c], content_remaining f - 1 =? 0)
  | DUCKNNG_HTTP_STREAM_BODY_UNTIL_CLOSE => Ok (f, [c], false)
  | DUCKNNG_HTTP_STREAM_BODY_CHUNKED =>
    match chunk_state f with
    | DUCKNNG_HTTP_STREAM_CHUNK_SIZE | DUCKNNG_HTTP_STREAM_CHUNK_TRAILERS =>
      let! (_, ln, cr, complete) := ducknng_http_stream_read_line [c] (line f) (line_saw_cr f) in
      let f := set_chunk (chunk_state f) (chunk_remaining f) ln cr (data_crlf_pos f) f in
      if complete then let! (f, ended) := line_done f in Ok (f, [], ended) else Ok (f, [], false)
    | DUCKNNG_HTTP_STREAM_CHUNK_DATA =>
      let n := chunk_remaining f - 1 in
      Ok (if n =? 0 then set_chunk DUCKNNG_HTTP_STREAM_CHUNK_DATA_CRLF n (line f) (line_saw_cr f) 0 f
          else set_chunk (chunk_state f) n (line f) (line_saw_cr f) (data_crlf_pos f) f, [c], false)
    | DUCKNNG_HTTP_STREAM_CHUNK_DATA_CRLF =>
      let! (_, pos) := crlf_loop [c] (data_crlf_pos f) in
      Ok (set_chunk (if pos <? 2 then chunk_state f else DUCKNNG_HTTP_STREAM_CHUNK_SIZE)
            (chunk_remaining f) (line f) (line_saw_cr f) pos f, [], false)
    end
  end.

(** The machine over a text: the framing reached, the bytes yielded, whether
    the body ended, and what follows its end. *)
Fixpoint feed (f : framing) (bs : bytes) : result bytes (framing * bytes * bool * bytes) :=
  match bs with
  | [] => Ok (f, [], false, [])
  | c :: bs =>
    let! (f, o, ended) := mstep f c in
    if (ended : bool) then Ok (f, o, true, bs) else
    let! (f, o', ended, rest) := feed f bs in Ok (f, o ++ o', ended, rest)
  end.

(** How a text continues what was fed before it. *)
Definition continue_with (r : result bytes (framing * bytes * bool * bytes)) (b : bytes)
    : result bytes (framing * bytes * bool * bytes) :=
  let! (f, o, ended, rest) := r in
  if (ended : bool) then Ok (f, o, true, rest ++ b) else
  let! (f, o', ended, rest) := feed f b in Ok (f, o ++ o', ended, rest).

Lemma feed_app f a b : feed f (a ++ b) = continue_with (feed f a) b.
Proof.
  revert f. induction a as [|c a IH]; intros f; cbn [app feed].
  - unfold continue_with. cbn [res_bind]. by destruct (feed f b) as [[[[]]]|].
  - destruct (mstep f c) as [[[f1 o] []]|]; [done| |done]. cbn [res_bind]. rewrite IH.
    unfold continue_with. destruct (feed f1 a) as [[[[f2 o2] []] rest]|]; [done| |done]. cbn [res_bind].
    destruct (feed f2 b) as [[[[f3 o3] e3] rest3]|]; [|done]. cbn [res_bind]. by rewrite app_assoc.
Qed.

Lemma feed_unfinished f a f' o rest : feed f a = Ok (f', o, false, rest) -> rest = [].
Proof.
  revert f o. induction a as [|c a IH]; intros f o; cbn [feed]; [by intros [= _ _ <-]|].
  destruct (mstep f c) as [[[f1 o1] []]|]; [done| |done]. cbn [res_bind].
  destruct (feed f1 a) as [[[[f2 o2] e2] r2]|] eqn:E; [|done]. cbn [res_bind]. intros [= -> _ -> ->]. by eapply IH.
Qed.

Lemma feed_more f a b f' o : feed f a = Ok (f', o, false, []) ->
  feed f (a ++ b) = let! (f2, o', ended, rest) := feed f' b in Ok (f2, o ++ o', ended, rest).
Proof. intros H. rewrite feed_app, H. done. Qed.

(** What holds of the framing of a body that has not ended. *)
Definition framing_ok (f : framing) : Prop :=
  match body_mode f with
  | DUCKNNG_HTTP_STREAM_BODY_NONE => False
  | DUCKNNG_HTTP_STREAM_BODY_CONTENT_LENGTH => 0 < content_remaining f
  | DUCKNNG_HTTP_STREAM_BODY_UNTIL_CLOSE => True
  | DUCKNNG_HTTP_STREAM_BODY_CHUNKED =>
    match chunk_state f with
    | DUCKNNG_HTTP_STREAM_CHUNK_DATA => 0 < chunk_remaining f
    | DUCKNNG_HTTP_STREAM_CHUNK_DATA_CRLF => 0 <= data_crlf_pos f < 2
    | _ => True
    end
  end.

Definition chunked (f : framing) : Prop := body_mode f = DUCKNNG_HTTP_STREAM_BODY_CHUNKED.
Definition in_line (f : framing) : Prop :=
  chunk_state f = DUCKNNG_HTTP_STREAM_CHUNK_SIZE \/ chunk_state f = DUCKNNG_HTTP_STREAM_CHUNK_TRAILERS.

Lemma chunk_digit_range c d : chunk_digit c = Some d -> 0 <= d < 16.
Proof. unfold chunk_digit. repeat case_match; try done; intros [= <-]; btests; lia. Qed.

Lemma chunk_size_nonneg p size digits n d : chunk_size_loop p size digits = Ok (n, d) -> 0 <= size -> 0 <= n.
Proof.
  revert size digits. induction p as [|c p IH]; intros size digits; cbn [chunk_size_loop]; [by intros [= <- _]|].
  destruct (c =? chr ";"); [by intros [= <- _]|]. destruct (chunk_digit c) as [v|] eqn:E; [|done].
  apply chunk_digit_range in E. destruct (_ <? size); [done|]. intros H Hs. apply (IH _ _ H). lia.
Qed.

Lemma line_done_ok f f' ended : chunked f -> in_line f -> line_done f = Ok (f', ended) ->
  ended = false -> chunked f' /\ framing_ok f'.
Proof.
  intros Hc Hl. unfold line_done, ducknng_http_stream_parse_chunk_size.
  assert (forall g, chunked g -> match chunk_state g with
    | DUCKNNG_HTTP_STREAM_CHUNK_DATA => 0 < chunk_remaining g
    | DUCKNNG_HTTP_STREAM_CHUNK_DATA_CRLF => 0 <= data_crlf_pos g < 2 | _ => True end -> framing_ok g) as Hok
    by (intros g Hg; unfold framing_ok; by rewrite Hg).
  destruct Hl as [Hl|Hl]; rewrite Hl.
  - destruct (chunk_size_loop (line f) 0 0) as [[n d]|] eqn:E; [|done]. cbn [res_bind].
    destruct (d =? 0); [done|]. intros [= <- <-] _. split; [done|]. apply Hok; [done|]. cbn.
    apply chunk_size_nonneg in E; [|lia]. destruct (Z.eqb_spec n 0); cbn; lia.
  - destruct (_ =? 0); [by intros [= _ <-]|]. intros [= <- _] _. split; [done|]. by apply Hok.
Qed.

(** A size or trailer line, read up to its end or as far as the buffer goes. *)
Lemma feed_line raw f : chunked f -> in_line f ->
  match ducknng_http_stream_read_line raw (line f) (line_saw_cr f) with
  | Err e => feed f raw = Err e
  | Ok (rest, ln, cr, false) => rest = [] /\
      feed f raw = Ok (set_chunk (chunk_state f) (chunk_remaining f) ln cr (data_crlf_pos f) f, [], false, [])
  | Ok (rest, ln, cr, true) => exists p, raw = p ++ rest /\ p <> [] /\ forall tail, feed f (p ++ tail) =
      let! (f', ended) := line_done (set_chunk (chunk_state f) (chunk_remaining f) ln cr (data_crlf_pos f) f) in
      if (ended : bool) then Ok (f', [], true, tail) else feed f' tail
  end.
Proof.
  intros Hc Hl. revert f Hc Hl. induction raw as [|c raw IH]; intros f Hc Hl.
  { cbn. split; [done|]. by destruct f. }
  assert (forall bs, feed f (c :: bs) =
    let! (_, ln, cr, complete) := ducknng_http_stream_read_line [c] (line f) (line_saw_cr f) in
    let g := set_chunk (chunk_state f) (chunk_remaining f) ln cr (data_crlf_pos f) f in
    if (complete : bool) then
      let! (f', ended) := line_done g in if (ended : bool) then Ok (f', [], true, bs) else feed f' bs
    else feed g bs) as Hstep.
  { intros bs. cbn [feed]. unfold mstep. rewrite Hc. set (rl := ducknng_http_stream_read_line [c] _ _).
    assert (forall g, (let! (f0, o', ended, rest) := feed g bs in Ok (f0, [] ++ o', ended, rest)) = feed g bs) as Hid.
    { intros g. by destruct (feed g bs) as [[[[]]]|]. }
    destruct Hl as [Hl|Hl]; rewrite Hl; destruct rl as [[[[? ln] cr] []]|]; cbn [res_bind]; try apply Hid; try done;
      destruct (line_done _) as [[g []]|]; cbn [res_bind]; try apply Hid; done. }
  cbn [ducknng_http_stream_read_line] in Hstep |- *. cbv zeta in Hstep.
  set (done_f ln cr := set_chunk (chunk_state f) (chunk_remaining f) ln cr (data_crlf_pos f) f) in *.
  assert (forall ln cr, (forall bs, feed f (c :: bs) = feed (done_f ln cr) bs) ->
    match ducknng_http_stream_read_line raw ln cr with
    | Err e => feed f (c :: raw) = Err e
    | Ok (rest, ln, cr, false) => rest = [] /\ feed f (c :: raw) = Ok (done_f ln cr, [], false, [])
    | Ok (rest, ln, cr, true) => exists p, c :: raw = p ++ rest /\ p <> [] /\ forall tail, feed f (p ++ tail) =
        let! (f', ended) := line_done (done_f ln cr) in
        if (ended : bool) then Ok (f', [], true, tail) else feed f' tail
    end) as Hgo.
  { intros ln cr Hn. specialize (IH (done_f ln cr) Hc Hl). cbn [done_f set_chunk line line_saw_cr] in IH.
    destruct (ducknng_http_stream_read_line raw ln cr) as [[[[rest ln'] cr'] []]|e].
    - destruct IH as (p & -> & Hp & Ht). exists (c :: p). split; [done|]. split; [done|]. intros tail.
      cbn [app]. rewrite Hn. apply Ht.
    - destruct IH as [-> Hf]. split; [done|]. by rewrite Hn.
    - by rewrite Hn. }
  destruct (line_saw_cr f) eqn:Ecr.
  { destruct (c =? 10); cbn [negb res_bind] in Hstep |- *; [|apply Hstep].
    exists [c]. split; [done|]. split; [done|]. intros tail. apply Hstep. }
  destruct (c =? 13); [apply Hgo, Hstep|]. destruct (c =? 10); [apply Hstep|].
  destruct (_ || _)%bool; [apply Hstep|]. destruct (_ <=? _); [apply Hstep|]. apply Hgo, Hstep.
Qed.

(** *** The other states of the machine over a run of bytes *)

Lemma feed_content bs f : body_mode f = DUCKNNG_HTTP_STREAM_BODY_CONTENT_LENGTH ->
  bs <> [] -> zlen bs <= content_remaining f ->
  feed f bs = Ok (set_content (content_remaining f - zlen bs) f, bs, content_remaining f - zlen bs =? 0, []).
Proof.
  intros Hm. revert f Hm. induction bs as [|c bs IH]; intros f Hm Hne Hl; [done|].
  cbn [feed]. unfold mstep. rewrite Hm. cbn [res_bind]. rewrite zlen_cons in Hl |- *.
  pose proof (zlen_nonneg bs). destruct bs as [|c' bs].
  - change (zlen []) with 0. rewrite Z.add_0_r. by destruct (_ =? 0).
  - rewrite zlen_cons in Hl |- *. pose proof (zlen_nonneg bs).
    replace (content_remaining f - 1 =? 0) with false by (symmetry; apply Z.eqb_neq; lia).
    rewrite IH; [|done|done|rewrite zlen_cons; cbn; lia]. cbn [res_bind set_content content_remaining].
    rewrite zlen_cons. by replace (content_remaining f - 1 - (1 + zlen bs))
      with (content_remaining f - (1 + (1 + zlen bs))) by lia.
Qed.

Lemma feed_until bs f : body_mode f = DUCKNNG_HTTP_STREAM_BODY_UNTIL_CLOSE -> feed f bs = Ok (f, bs, false, []).
Proof.
  intros Hm. induction bs as [|c bs IH]; [done|]. cbn [feed]. unfold mstep. rewrite Hm. cbn [res_bind]. by rewrite IH.
Qed.

(** The framing once [n] bytes of chunk data were taken. *)
Definition after_data (n : Z) (f : framing) : framing :=
  if chunk_remaining f - n =? 0
  then set_chunk DUCKNNG_HTTP_STREAM_CHUNK_DATA_CRLF (chunk_remaining f - n) (line f) (line_saw_cr f) 0 f
  else set_chunk (chunk_state f) (chunk_remaining f - n) (line f) (line_saw_cr f) (data_crlf_pos f) f.

Lemma feed_data bs f : chunked f -> chunk_state f = DUCKNNG_HTTP_STREAM_CHUNK_DATA ->
  bs <> [] -> zlen bs <= chunk_remaining f -> feed f bs = Ok (after_data (zlen bs) f, bs, false, []).
Proof.
  intros Hm Hc. revert f Hm Hc. induction bs as [|c bs IH]; intros f Hm Hc Hne Hl; [done|].
  cbn [feed]. unfold mstep. rewrite Hm, Hc. cbn [res_bind]. rewrite zlen_cons in Hl |- *.
  pose proof (zlen_nonneg bs). unfold after_data. destruct bs as [|c' bs].
  - change (zlen []) with 0. rewrite Z.add_0_r, Hc. by destruct (_ =? 0).
  - rewrite zlen_cons in Hl |- *. pose proof (zlen_nonneg bs).
    replace (chunk_remaining f - 1 =? 0) with false by (symmetry; apply Z.eqb_neq; lia).
    rewrite IH; [|done|done|done|rewrite zlen_cons; cbn; lia]. unfold after_data.
    cbn [res_bind set_chunk chunk_remaining chunk_state]. rewrite zlen_cons, Hc.
    by replace (chunk_remaining f - 1 - (1 + zlen bs))
      with (chunk_remaining f - (1 + (1 + zlen bs))) by lia.
Qed.

Lemma feed_crlf raw f : chunked f -> chunk_state f = DUCKNNG_HTTP_STREAM_CHUNK_DATA_CRLF ->
  0 <= data_crlf_pos f < 2 ->
  match crlf_loop raw (data_crlf_pos f) with
  | Err e => feed f raw = Err e
  | Ok (rest, pos) => 0 <= pos /\
    if pos <? 2 then rest = [] /\
      feed f raw = Ok (set_chunk (chunk_state f) (chunk_remaining f) (line f) (line_saw_cr f) pos f, [], false, [])
    else exists p, raw = p ++ rest /\ p <> [] /\ forall tail, feed f (p ++ tail) =
      feed (set_chunk DUCKNNG_HTTP_STREAM_CHUNK_SIZE (chunk_remaining f) (line f) (line_saw_cr f) pos f) tail
  end.
Proof.
  intros Hm Hc. revert f Hm Hc. induction raw as [|c raw IH]; intros f Hm Hc Hp.
  { cbn. replace (2 <=? data_crlf_pos f) with false by (symmetry; apply Z.leb_gt; lia).
    replace (data_crlf_pos f <? 2) with true by (symmetry; apply Z.ltb_lt; lia). split; [lia|]. by destruct f. }
  cbn [crlf_loop]. destruct (Z.leb_spec 2 (data_crlf_pos f)); [lia|].
  assert (forall bs, feed f (c :: bs) =
    if negb (c =? (if data_crlf_pos f =? 0 then 13 else 10))
    then Err (lit "ducknng: malformed chunk data terminator in streaming HTTP response")
    else feed (set_chunk (if data_crlf_pos f + 1 <? 2 then chunk_state f else DUCKNNG_HTTP_STREAM_CHUNK_SIZE)
            (chunk_remaining f) (line f) (line_saw_cr f) (data_crlf_pos f + 1) f) bs) as Hstep.
  { intros bs. cbn [feed]. unfold mstep. rewrite Hm, Hc. cbn [crlf_loop].
    destruct (Z.leb_spec 2 (data_crlf_pos f)); [lia|]. destruct (negb _); [done|].
    replace (if 2 <=? data_crlf_pos f + 1 then Ok ([], data_crlf_pos f + 1) else Ok ([], data_crlf_pos f + 1))
      with (Ok (E:=bytes) (@nil Z, data_crlf_pos f + 1)) by by destruct (_ <=? _).
    cbn [res_bind]. by destruct (feed _ bs) as [[[[]]]|]. }
  destruct (negb _); [apply Hstep|]. destruct (Z.ltb_spec (data_crlf_pos f + 1) 2) as [Hlt|Hge].
  - specialize (IH (set_chunk (chunk_state f) (chunk_remaining f) (line f) (line_saw_cr f) (data_crlf_pos f + 1) f)
      Hm Hc). cbn [set_chunk data_crlf_pos] in IH. specialize (IH ltac:(lia)).
    destruct (crlf_loop raw (data_crlf_pos f + 1)) as [[rest pos]|e]; [|by rewrite Hstep].
    destruct IH as [Hpos IH]. split; [done|]. destruct (pos <? 2).
    + destruct IH as [-> IH]. split; [done|]. by rewrite Hstep.
    + destruct IH as (p & -> & _ & IH). exists (c :: p). split; [done|]. split; [done|]. intros tail.
      cbn [app]. rewrite Hstep. apply IH.
  - replace (crlf_loop raw (data_crlf_pos f + 1)) with (Ok (E:=bytes) (raw, data_crlf_pos f + 1)).
    2:{ destruct raw; cbn [crlf_loop]; by destruct (Z.leb_spec 2 (data_crlf_pos f + 1)); [|lia]. }
    split; [lia|]. destruct (Z.ltb_spec (data_crlf_pos f + 1) 2); [lia|].
    exists [c]. split; [done|]. split; [done|]. intros tail. cbn [app]. apply Hstep.
Qed.

(** ** The buffered decoder runs the machine *)

(** One call of the decoder on a buffer: it feeds the machine a prefix of the
    buffer, hands out what the machine yields, and asks for another read only
    when the buffer is used up. *)
Definition decodes (s : ducknng_http_client_stream) (cap : Z) (r : result bytes processed) : Prop :=
  match r with
  | Err e => feed (hs_framing s) (raw s) = Err e
  | Ok p => exists used f' rest ended, raw s = used ++ rest /\
      feed (hs_framing s) used = Ok (f', pr_out p, ended, []) /\
      pr_stream p = set_stream f' rest ended s /\
      (ended = false -> framing_ok f') /\ zlen (pr_out p) <= cap /\
      if pr_done p then pr_eof p = bool_decide (pr_out p = []) /\ (pr_out p = [] -> ended = true)
      else rest = [] /\ pr_out p = [] /\ ended = false
  end.

Lemma min3_spec a b c : let n := ducknng_http_stream_min3 a b c in
  n <= a /\ n <= b /\ n <= c /\ (n = a \/ n = b \/ n = c).
Proof. unfold ducknng_http_stream_min3. repeat case_match; btests; lia. Qed.

Lemma set_stream_again f r e f' r' e' s : set_stream f r e (set_stream f' r' e' s) = set_stream f r e s.
Proof. done. Qed.

(** A call that first consumed [p] without output, then decodes as the call
    on what is left. *)
Lemma decodes_after p rest f' s cap r : raw s = p ++ rest ->
  feed (hs_framing s) p = Ok (f', [], false, []) -> hs_eof s = false ->
  decodes (set_stream f' rest (hs_eof s) s) cap r -> decodes s cap r.
Proof.
  intros Hr Hp He. unfold decodes. destruct r as [q|e]; cbn [set_stream hs_framing raw].
  - intros (used & f2 & rest2 & ended & -> & Hf & -> & H). exists (p ++ used), f2, rest2, ended.
    rewrite <- app_assoc. split; [done|]. split; [by rewrite (feed_more _ _ _ _ _ Hp), Hf|].
    by rewrite set_stream_again.
  - intros H. by rewrite Hr, (feed_more _ _ _ _ _ Hp), H.
Qed.

(** A line that ends inside the buffer, in terms of what it consumes. *)
Lemma feed_line_done f p ln cr f' ended :
  (forall tail, feed f (p ++ tail) = let! (f', ended) := line_done (set_chunk (chunk_state f) (chunk_remaining f) ln cr
     (data_crlf_pos f) f) in if (ended : bool) then Ok (f', [], true, tail) else feed f' tail) ->
  line_done (set_chunk (chunk_state f) (chunk_remaining f) ln cr (data_crlf_pos f) f) = Ok (f', ended) ->
  feed f p = Ok (f', [], ended, []).
Proof.
  intros Ht Hd. specialize (Ht []). rewrite app_nil_r, Hd in Ht. cbn [res_bind] in Ht. rewrite Ht. by destruct ended.
Qed.

Lemma decodes_data s cap : chunked (hs_framing s) -> hs_eof s = false -> 0 < cap ->
  chunk_state (hs_framing s) = DUCKNNG_HTTP_STREAM_CHUNK_DATA -> 0 < chunk_remaining (hs_framing s) ->
  forall fuel, decodes s cap (chunked_loop (S fuel) s [] cap).
Proof.
  intros Hc He Hcap Hst Hrem fuel. cbn [chunked_loop]. rewrite Hst.
  change (zlen []) with 0. rewrite Z.sub_0_r. cbn [app].
  pose proof (min3_spec (zlen (raw s)) cap (chunk_remaining (hs_framing s))) as Hn. cbv zeta in Hn.
  set (n := ducknng_http_stream_min3 _ _ _) in *. pose proof (zlen_nonneg (raw s)).
  assert (zlen (ztake n (raw s)) = n) as Hz by (apply zlen_ztake; lia).
  set (f' := if _ =? 0 then _ else _).
  assert (f' = after_data n (hs_framing s)) as Hf' by (unfold f', after_data; by rewrite Hst).
  destruct (Z.ltb_spec 0 (zlen (ztake n (raw s)))) as [Hpos|Hpos].
  - exists (ztake n (raw s)), f', (zdrop n (raw s)), false. cbn [pr_out pr_stream pr_done pr_eof].
    assert (ztake n (raw s) <> []) as Hne by (intros E; rewrite E in Hpos; by change (zlen []) with 0 in Hpos).
    split; [by rewrite ztake_zdrop|]. split.
    { rewrite feed_data; [by rewrite Hz, Hf'|done..|]. lia. }
    split; [by rewrite He|]. split.
    { intros _. rewrite Hf'. unfold framing_ok, after_data. destruct (Z.eqb_spec (chunk_remaining (hs_framing s) - n) 0);
        cbn [set_chunk body_mode chunk_state data_crlf_pos chunk_remaining]; rewrite Hc; [lia|]. rewrite Hst. lia. }
    split; [lia|]. split; [by rewrite bool_decide_eq_false_2|done].
  - assert (raw s = []) as Hr by (destruct (raw s); [done|rewrite zlen_cons in *; pose proof (zlen_nonneg l); lia]).
    assert (n = 0) as Hn0 by (rewrite Hr in *; change (zlen (@nil Z)) with 0 in *; lia).
    rewrite Hr. unfold zdrop, ztake. rewrite drop_nil, take_nil. change (zlen []) with 0. cbn [Z.eqb].
    exists [], (hs_framing s), [], false. cbn [pr_out pr_stream pr_done pr_eof feed]. rewrite He.
    repeat split; try done; [|intros _; unfold framing_ok; by rewrite Hc, Hst|by change (zlen []) with 0; lia].
    unfold f'. rewrite Hn0, Z.sub_0_r. destruct (Z.eqb_spec (chunk_remaining (hs_framing s)) 0); [lia|].
    f_equal. clearbody n. destruct (hs_framing s). cbn in *. by subst.
Qed.

(** A call that used up the buffer inside a line or a terminator. *)
Lemma decodes_more s cap f' : 0 < cap -> hs_eof s = false -> framing_ok f' ->
  feed (hs_framing s) (raw s) = Ok (f', [], false, []) ->
  decodes s cap (Ok (mk_processed (set_stream f' [] (hs_eof s) s) [] false false)).
Proof.
  intros Hcap He Hok Hf. exists (raw s), f', [], false. rewrite app_nil_r, He. change (zlen (pr_out _)) with 0.
  repeat split; try done. lia.
Qed.

Lemma decodes_loop fuel s cap : chunked (hs_framing s) -> framing_ok (hs_framing s) -> hs_eof s = false -> 0 < cap ->
  (length (raw s) < fuel)%nat -> decodes s cap (chunked_loop fuel s [] cap).
Proof.
  revert s. induction fuel as [|fuel IH]; intros s Hc Hok He Hcap Hfuel; [lia|].
  assert (forall p rest f', raw s = p ++ rest -> p <> [] -> feed (hs_framing s) p = Ok (f', [], false, []) ->
    chunked f' -> framing_ok f' -> decodes s cap (chunked_loop fuel (set_stream f' rest (hs_eof s) s) [] cap)) as Hgo.
  { intros p rest f' Hr Hp Hf Hc' Hok'. apply (decodes_after p rest f'); try done.
    apply IH; try done. rewrite Hr, length_app in Hfuel. cbn [set_stream raw]. destruct p; [done|]. cbn in Hfuel. lia. }
  destruct (chunk_state (hs_framing s)) eqn:Hst.
  2:{ apply decodes_data; try done. unfold framing_ok in Hok. by rewrite Hc, Hst in Hok. }
  2:{ cbn [chunked_loop]. rewrite Hst. pose proof (feed_crlf (raw s) (hs_framing s) Hc Hst) as Hf.
    unfold framing_ok in Hok. rewrite Hc, Hst in Hok. specialize (Hf Hok). rewrite Hst in Hf.
    destruct (crlf_loop (raw s) (data_crlf_pos (hs_framing s))) as [[rest pos]|e]; [|done]. cbn [res_bind].
    destruct Hf as [Hpos Hf]. destruct (Z.ltb_spec pos 2).
    - destruct Hf as [-> Hf]. apply decodes_more; try done. unfold framing_ok. cbn. by rewrite Hc.
    - destruct Hf as (p & Hr & Hp & Ht). apply (Hgo p rest); try done.
      + specialize (Ht []). rewrite app_nil_r in Ht. by rewrite Ht.
      + unfold framing_ok. cbn. by rewrite Hc. }
  all: assert (in_line (hs_framing s)) as Hl by (unfold in_line; tauto).
  all: pose proof (feed_line (raw s) (hs_framing s) Hc Hl) as Hf.
  all: cbn [chunked_loop]; rewrite Hst in *.
  all: destruct (ducknng_http_stream_read_line _ _ _) as [[[[rest ln] cr] complete]|e]; [|done]; cbn [res_bind].
  all: destruct complete; cbn [negb];
    [|destruct Hf as [-> Hf]; apply decodes_more; try done; unfold framing_ok; cbn; by rewrite Hc].
  all: destruct Hf as (p & Hr & Hp & Ht); rewrite <- Hst in Ht.
  - destruct (ducknng_http_stream_parse_chunk_size _) as [f'|e] eqn:Ep; cbn [res_bind].
    + assert (line_done (set_chunk (chunk_state (hs_framing s)) (chunk_remaining (hs_framing s)) ln cr
        (data_crlf_pos (hs_framing s)) (hs_framing s)) = Ok (f', false)) as Hd
        by (unfold line_done; cbn [set_chunk chunk_state]; rewrite Hst; unfold set_chunk in Ep |- *; by rewrite Ep).
      destruct (fun H H2 => line_done_ok _ _ _ H H2 Hd eq_refl) as [? ?]; [done|by left|].
      apply (Hgo p rest); try done. by apply (feed_line_done _ _ ln cr).
    + unfold decodes. rewrite Hr, Ht. unfold line_done. cbn [set_chunk chunk_state]. rewrite Hst.
      unfold set_chunk in Ep |- *. by rewrite Ep.
  - destruct (zlen ln =? 0) eqn:Ez.
    + exists p, (set_chunk DUCKNNG_HTTP_STREAM_CHUNK_TRAILERS (chunk_remaining (hs_framing s)) ln cr
        (data_crlf_pos (hs_framing s)) (hs_framing s)), rest, true.
      cbn [pr_out pr_stream pr_done pr_eof]. change (zlen []) with 0. repeat split; try done; [|lia].
      apply (feed_line_done _ _ ln cr); [done|]. unfold line_done. cbn [set_chunk chunk_state line]. by rewrite Hst, Ez.
    + assert (line_done (set_chunk (chunk_state (hs_framing s)) (chunk_remaining (hs_framing s)) ln cr
        (data_crlf_pos (hs_framing s)) (hs_framing s)) = Ok (set_chunk DUCKNNG_HTTP_STREAM_CHUNK_TRAILERS
        (chunk_remaining (hs_framing s)) [] cr (data_crlf_pos (hs_framing s)) (hs_framing s), false)) as Hd
        by (unfold line_done; cbn [set_chunk chunk_state line]; by rewrite Hst, Ez).
      apply (Hgo p rest); try done; [by apply (feed_line_done _ _ ln cr)|].
      unfold framing_ok. cbn. by rewrite Hc.
Qed.

Lemma process_decodes s cap : framing_ok (hs_framing s) -> hs_eof s = false -> 0 < cap ->
  decodes s cap (ducknng_http_stream_process s [] cap).
Proof.
  intros Hok He Hcap. unfold ducknng_http_stream_process. rewrite He. change (zlen []) with 0. rewrite Z.sub_0_r.
  cbn [app]. destruct (body_mode (hs_framing s)) eqn:Hm.
  - unfold framing_ok in Hok. by rewrite Hm in Hok.
  - assert (0 < content_remaining (hs_framing s)) as Hrem by (unfold framing_ok in Hok; by rewrite Hm in Hok).
    pose proof (min3_spec (zlen (raw s)) cap (content_remaining (hs_framing s))) as Hn. cbv zeta in Hn.
    set (n := ducknng_http_stream_min3 _ _ _) in *. pose proof (zlen_nonneg (raw s)).
    assert (zlen (ztake n (raw s)) = n) as Hz by (apply zlen_ztake; lia). rewrite Hz.
    destruct (Z.ltb_spec 0 n).
    + exists (ztake n (raw s)), (set_content (content_remaining (hs_framing s) - n) (hs_framing s)), (zdrop n (raw s)),
        (content_remaining (hs_framing s) - n =? 0). cbn [pr_out pr_stream pr_done pr_eof]. rewrite ztake_zdrop.
      assert (ztake n (raw s) <> []) as Hne by (intros E; rewrite E in Hz; change (zlen []) with 0 in Hz; lia).
      split; [done|]. split; [rewrite feed_content; [by rewrite Hz|done..|lia]|].
      split; [by destruct (_ =? 0)|]. split.
      { intros E%Z.eqb_neq. unfold framing_ok. cbn. rewrite Hm. lia. }
      split; [lia|]. by rewrite bool_decide_eq_false_2.
    + assert (n = 0) as Hn0 by lia. assert (raw s = []) as Hr
        by (destruct (raw s); [done|rewrite zlen_cons in *; pose proof (zlen_nonneg l); lia]).
      rewrite Hn0, Z.sub_0_r. destruct (Z.eqb_spec (content_remaining (hs_framing s)) 0); [lia|].
      rewrite Hr. change (ztake 0 []) with (@nil Z). change (zdrop 0 []) with (@nil Z).
      pose proof (decodes_more s cap (set_content (content_remaining (hs_framing s)) (hs_framing s)) Hcap He) as Hd.
      rewrite He in Hd. apply Hd; [|rewrite Hr; by destruct (hs_framing s)]. unfold framing_ok. cbn. by rewrite Hm.
  - by apply decodes_loop; [..|lia].
  - set (n := if zlen _ <? _ then _ else _). pose proof (zlen_nonneg (raw s)).
    assert (0 <= n <= zlen (raw s) /\ n <= cap /\ (n = zlen (raw s) \/ n = cap)) as Hn
      by (unfold n; destruct (Z.ltb_spec (zlen (raw s)) cap); lia).
    assert (zlen (ztake n (raw s)) = n) as Hz by (apply zlen_ztake; lia).
    destruct (Z.ltb_spec 0 n).
    + exists (ztake n (raw s)), (hs_framing s), (zdrop n (raw s)), false. cbn [pr_out pr_stream pr_done pr_eof].
      assert (ztake n (raw s) <> []) as Hne by (intros E; rewrite E in Hz; change (zlen []) with 0 in Hz; lia).
      rewrite ztake_zdrop, feed_until by done. rewrite bool_decide_eq_false_2 by done. repeat split; try done. lia.
    + assert (raw s = []) as Hr
        by (destruct (raw s); [done|rewrite zlen_cons in *; pose proof (zlen_nonneg l); lia]).
      replace s with (set_stream (hs_framing s) [] (hs_eof s) s) at 2 by (destruct s; cbn in *; by subst).
      apply decodes_more; try done. by rewrite Hr.
Qed.

(** ** Whole receives

    One user receive: [recv_begin], then a submitted read and [recv_advance]
    for each [READ_BODY] the decoder asks for.  [None] when the reads given
    run out first. *)

Fixpoint recv_loop (reads : list bytes) (cap : Z) (st : ducknng_http_client_stream * bytes * recv_return)
    : option (result bytes (ducknng_http_client_stream * bytes * bool * list bytes)) :=
  match st with
  | (s, out, recv_done eof) => Some (Ok (s, out, eof, reads))
  | (_, _, recv_error e) => Some (Err e)
  | (s, out, recv_action a) =>
    match ducknng_http_client_stream_submit s a, reads with
    | Err e, _ => Some (Err e)
    | Ok _, [] => None
    | Ok s, b :: reads => recv_loop reads cap (ducknng_http_client_stream_recv_advance s (read_bytes b) out cap)
    end
  end.

Definition recv (reads : list bytes) (cap : Z) (s : ducknng_http_client_stream) :=
  recv_loop reads cap (ducknng_http_client_stream_recv_begin s cap).

(** Receives with the given buffer sizes up to the end of the stream; the
    bytes received, joined. *)
Fixpoint drain (caps : list Z) (reads : list bytes) (s : ducknng_http_client_stream) : option (result bytes bytes) :=
  match caps with
  | [] => None
  | cap :: caps =>
    match recv reads cap s with
    | None => None
    | Some (Err e) => Some (Err e)
    | Some (Ok (_, out, true, _)) => Some (Ok out)
    | Some (Ok (s, out, false, reads)) =>
      (fun r => match r with Ok rest => Ok (out ++ rest) | Err e => Err e end) <$> drain caps reads s
    end
  end.

Definition readable (s : ducknng_http_client_stream) : Prop :=
  hs_open s = true /\ hs_failed s = false /\ hs_closing s = false /\ hs_conn s = true.
Definition cap_ok (cap : Z) : Prop := 0 < cap <= DUCKNNG_HTTP_STREAM_MAX_RECV_BYTES.
Definition read_ok (b : bytes) : Prop := 0 < zlen b <= DUCKNNG_HTTP_STREAM_READ_BUFFER_SIZE.

(** What the byte machine says of the whole text: the body, or the error. *)
Definition outcome (f : framing) (text : bytes) : option (result bytes bytes) :=
  match feed f text with
  | Ok (_, body, true, _) => Some (Ok body)
  | Ok (_, _, false, _) => None
  | Err e => Some (Err e)
  end.

(** What a receive leaves, against the text still to come. *)
Definition receives (f : framing) (text : bytes)
    (r : option (result bytes (ducknng_http_client_stream * bytes * bool * list bytes))) : Prop :=
  match r with
  | None => outcome f text = None
  | Some (Err e) => feed f text = Err e
  | Some (Ok (s, out, true, _)) => out = [] /\ outcome f text = Some (Ok [])
  | Some (Ok (s, out, false, reads)) => readable s /\ Forall read_ok reads /\ exists used ended,
      used <> [] /\ text = used ++ raw s ++ concat reads /\ feed f used = Ok (hs_framing s, out, ended, []) /\
      hs_eof s = ended /\ (ended = false -> framing_ok (hs_framing s))
  end.

Lemma range_guard n hi : 0 < n <= hi -> ((n =? 0) || (hi <? n))%bool = false.
Proof. intros. apply orb_false_intro; [apply Z.eqb_neq|apply Z.ltb_ge]; lia. Qed.

Lemma receives_after f used f' text r : feed f used = Ok (f', [], false, []) ->
  receives f' text r -> receives f (used ++ text) r.
Proof.
  intros Hu. assert (outcome f (used ++ text) = outcome f' text) as Ho.
  { unfold outcome. rewrite (feed_more _ _ _ _ _ Hu). by destruct (feed f' text) as [[[[? ?] []] ?]|]. }
  unfold receives. rewrite Ho. destruct r as [[[[[s out] []] reads]|e]|]; [done| | |done].
  - intros (? & ? & u & ended & ? & -> & Hf & ?). do 2 (split; [done|]). exists (used ++ u), ended.
    split; [by destruct used|]. rewrite <- app_assoc. split; [done|].
    split; [by rewrite (feed_more _ _ _ _ _ Hu), Hf|]. done.
  - intros H. by rewrite (feed_more _ _ _ _ _ Hu), H.
Qed.

Lemma recv_loop_receives reads cap s : readable s -> cap_ok cap -> Forall read_ok reads ->
  framing_ok (hs_framing s) -> hs_eof s = false ->
  receives (hs_framing s) (raw s ++ concat reads)
    (recv_loop reads cap (recv_finish s [] (ducknng_http_stream_process s [] cap))).
Proof.
  intros Hrd Hcap. revert s Hrd. induction reads as [|b reads IH]; intros s Hrd Hreads Hok He.
  all: pose proof (process_decodes s cap Hok He ltac:(unfold cap_ok in *; lia)) as Hd; unfold decodes in Hd.
  all: destruct (ducknng_http_stream_process s [] cap) as [[s' out eof fin]|e]; cbn [recv_finish pr_done pr_eof pr_out pr_stream] in *.
  2,4: cbn; rewrite feed_app; by rewrite Hd.
  all: destruct Hd as (used & f' & rest & ended & Hr & Hf & -> & Hok' & _ & Hd); destruct fin.
  1,3: destruct Hd as [-> Hout]; cbn [recv_loop]; case_bool_decide as Hb; cbn [receives];
    [subst out; rewrite (Hout eq_refl) in Hf; split; [done|]; unfold outcome; by rewrite Hr, <- app_assoc, feed_app, Hf|].
  1,2: split; [done|]; split; [done|]; exists used, ended; cbn [set_stream raw hs_framing hs_eof];
    rewrite Hr, <- app_assoc; repeat split; try done; intros ->; cbn in Hf; congruence.
  all: destruct Hd as (-> & -> & ->); rewrite app_nil_r in Hr; subst used.
  all: cbn [recv_loop ducknng_http_client_stream_submit set_stream hs_conn raw]; destruct Hrd as (Ho & Hfl & Hcl & Hcn);
    rewrite Hcn; cbn [negb orb]; change (zlen [] =? 0) with true; cbn [negb].
  - cbn [concat]. rewrite app_nil_r. cbn [receives]. unfold outcome. by rewrite Hf.
  - inversion_clear Hreads as [|? ? Hb Hbs]. unfold ducknng_http_client_stream_recv_advance.
    unfold cap_ok in Hcap. rewrite (range_guard cap) by done.
    rewrite (range_guard (zlen b)) by done.
    apply (receives_after _ _ _ _ _ Hf). cbn [concat set_stream hs_framing hs_eof].
    by apply (IH (set_stream f' b false s)); try apply Hok'.
Qed.

Lemma recv_receives reads cap s : readable s -> cap_ok cap -> Forall read_ok reads ->
  framing_ok (hs_framing s) -> hs_eof s = false ->
  receives (hs_framing s) (raw s ++ concat reads) (recv reads cap s).
Proof.
  intros Hrd Hcap. unfold recv, ducknng_http_client_stream_recv_begin.
  pose proof Hrd as (-> & -> & -> & _). pose proof Hcap as Hc. unfold cap_ok in Hc.
  rewrite (range_guard cap) by done.
  by apply recv_loop_receives.
Qed.

(** After the end every receive reports it again. *)
Lemma recv_eof reads cap s : readable s -> cap_ok cap -> hs_eof s = true -> recv reads cap s = Some (Ok (s, [], true, reads)).
Proof.
  intros (Ho & Hf & Hc & _) Hcap He.
  unfold recv, ducknng_http_client_stream_recv_begin, ducknng_http_stream_process. rewrite Ho, Hf, Hc, He. unfold cap_ok in Hcap.
  rewrite (range_guard cap) by done. by destruct reads.
Qed.

Lemma drain_outcome caps reads s r : readable s -> hs_eof s = false -> framing_ok (hs_framing s) ->
  Forall read_ok reads -> Forall cap_ok caps -> (length (raw s ++ concat reads) < length caps)%nat ->
  outcome (hs_framing s) (raw s ++ concat reads) = Some r ->
  drain caps reads s = Some r.
Proof.
  revert reads s r. induction caps as [|cap caps IH]; intros reads s r Hrd He Hok Hreads Hcaps Hlen Ho; [cbn in Hlen; lia|].
  inversion_clear Hcaps as [|? ? Hcap Hcaps']. pose proof (recv_receives reads cap s Hrd Hcap Hreads Hok He) as Hr.
  cbn [drain]. destruct (recv reads cap s) as [[[[[s' out] []] reads']|e]|]; cbn [receives] in Hr.
  - destruct Hr as [-> Hr]. congruence.
  - destruct Hr as (Hrd' & Hreads' & used & ended & Hu & Ht & Hf & He' & Hok').
    unfold outcome in Ho. rewrite Ht, feed_app, Hf in Ho. cbn in Ho. destruct ended.
    + destruct caps as [|cap' caps].
      { rewrite Ht, length_app in Hlen. destruct used; [done|]. cbn in Hlen. lia. }
      inversion_clear Hcaps'. cbn [drain]. rewrite recv_eof by done. cbn. rewrite app_nil_r. congruence.
    + assert (length (raw s' ++ concat reads') < length caps)%nat as Hl.
      { rewrite Ht, (length_app used) in Hlen. destruct used; [done|]. cbn [length] in Hlen. lia. }
      unfold outcome in IH. specialize (IH reads' s').
      destruct (feed (hs_framing s') (raw s' ++ concat reads')) as [[[[f2 body] []] rest]|e] eqn:E; cbn in Ho.
      * rewrite (IH (Ok body)) by (done || by apply Hok'). cbn. congruence.
      * done.
      * rewrite (IH (Err e)) by (done || by apply Hok'). cbn. congruence.
  - unfold outcome in Ho. rewrite Hr in Ho. congruence.
  - congruence.
Qed.

(** ** Buffers stay in bounds *)

Record framing_fits (f : framing) : Prop := mk_fits {
  fits_line : zlen (line f) <= DUCKNNG_HTTP_STREAM_LINE_MAX;
  fits_content : 0 <= content_remaining f <= UINT64_MAX;
  fits_chunk : 0 <= chunk_remaining f <= UINT64_MAX;
  fits_pos : 0 <= data_crlf_pos f <= 2 }.

Definition stream_fits (s : ducknng_http_client_stream) : Prop :=
  framing_fits (hs_framing s) /\ zlen (raw s) <= DUCKNNG_HTTP_STREAM_READ_BUFFER_SIZE.

Lemma read_line_fits raw line cr rest ln cr' complete :
  ducknng_http_stream_read_line raw line cr = Ok (rest, ln, cr', complete) ->
  zlen line <= DUCKNNG_HTTP_STREAM_LINE_MAX ->
  zlen ln <= DUCKNNG_HTTP_STREAM_LINE_MAX /\ zlen rest <= zlen raw.
Proof.
  revert line cr. induction raw as [|c raw IH]; intros line cr; cbn [ducknng_http_stream_read_line].
  { intros [= <- <- _ _]. done. }
  pose proof (zlen_nonneg raw). rewrite zlen_cons.
  assert (forall l b, ducknng_http_stream_read_line raw l b = Ok (rest, ln, cr', complete) ->
    zlen l <= DUCKNNG_HTTP_STREAM_LINE_MAX -> zlen ln <= DUCKNNG_HTTP_STREAM_LINE_MAX /\ zlen rest <= 1 + zlen raw)
    as Hgo by (intros l b E1 E2; destruct (IH l b E1 E2); lia).
  destruct cr.
  { destruct (negb _); [done|]. intros [= <- <- _ _]. lia. }
  destruct (c =? 13); [by apply Hgo|]. destruct (c =? 10); [done|]. destruct (_ || _)%bool; [done|].
  destruct (Z.leb_spec DUCKNNG_HTTP_STREAM_LINE_MAX (zlen line)); [done|]. intros E _.
  apply (Hgo _ _ E). rewrite zlen_app, zlen_cons. change (zlen []) with 0. lia.
Qed.

Lemma chunk_size_fits p size digits n d : chunk_size_loop p size digits = Ok (n, d) ->
  0 <= size <= UINT64_MAX -> 0 <= n <= UINT64_MAX.
Proof.
  revert size digits. induction p as [|c p IH]; intros size digits; cbn [chunk_size_loop]; [by intros [= <- _]|].
  destruct (c =? chr ";"); [by intros [= <- _]|]. destruct (chunk_digit c) as [v|] eqn:E; [|done].
  apply chunk_digit_range in E. destruct (Z.ltb_spec ((UINT64_MAX - v) / 16) size) as [|Hle]; [done|].
  intros H Hs. apply (IH _ _ H). unfold UINT64_MAX in *. Z.div_mod_to_equations. lia.
Qed.

Lemma parse_chunk_size_fits f f' : ducknng_http_stream_parse_chunk_size f = Ok f' ->
  framing_fits f -> framing_fits f'.
Proof.
  unfold ducknng_http_stream_parse_chunk_size.
  destruct (chunk_size_loop (line f) 0 0) as [[n d]|] eqn:E; [|done]. cbn [res_bind].
  destruct (d =? 0); [done|]. intros [= <-] [? ? ? ?].
  apply chunk_size_fits in E; [|unfold UINT64_MAX; lia]. by constructor; cbn; try done.
Qed.

Lemma crlf_fits raw pos rest pos' : crlf_loop raw pos = Ok (rest, pos') -> 0 <= pos <= 2 ->
  0 <= pos' <= 2 /\ zlen rest <= zlen raw.
Proof.
  revert pos. induction raw as [|c raw IH]; intros pos; cbn [crlf_loop]; destruct (Z.leb_spec 2 pos);
    try (intros [= <- <-]; lia). destruct (negb _); [done|]. intros E Hp. rewrite zlen_cons.
  destruct (IH _ E); lia.
Qed.

(** What one call of the decoder does to the buffers. *)
Definition in_bounds (s : ducknng_http_client_stream) (cap : Z) (r : result bytes processed) : Prop :=
  match r with
  | Ok p => stream_fits (pr_stream p) /\ zlen (pr_out p) <= cap /\ zlen (raw (pr_stream p)) <= zlen (raw s)
  | Err _ => True
  end.

Lemma in_bounds_mono s s' cap r : zlen (raw s') <= zlen (raw s) -> in_bounds s' cap r -> in_bounds s cap r.
Proof. unfold in_bounds. destruct r; [|done]. intros ? (? & ? & ?). split; [done|]. lia. Qed.

Lemma taken_fits n out (raw : bytes) cap : 0 <= n <= zlen raw -> n <= cap - zlen out ->
  zlen (out ++ ztake n raw) <= cap /\ zlen (zdrop n raw) <= zlen raw.
Proof. intros. rewrite zlen_app, zlen_ztake, zlen_zdrop by lia. lia. Qed.

Lemma chunked_loop_fits fuel s out cap : stream_fits s -> zlen out <= cap ->
  in_bounds s cap (chunked_loop fuel s out cap).
Proof.
  revert s out. induction fuel as [|fuel IH]; intros s out [[Hl Hc Hk Hp] Hr] Ho; [done|]. cbn [chunked_loop].
  assert (forall s', stream_fits s' -> zlen (raw s') <= zlen (raw s) ->
    in_bounds s cap (chunked_loop fuel s' out cap)) as Hgo by (intros s' Hs' ?; by eapply in_bounds_mono, IH).
  destruct (chunk_state (hs_framing s)).
  - destruct (ducknng_http_stream_read_line _ _ _) as [[[[rest ln] cr] complete]|] eqn:E; [|done]. cbn [res_bind].
    apply read_line_fits in E as [? ?]; [|done]. destruct complete; cbn [negb].
    2:{ repeat split; cbn; try done; lia. }
    destruct (ducknng_http_stream_parse_chunk_size _) as [f'|] eqn:Ep; [|done]. cbn [res_bind].
    apply parse_chunk_size_fits in Ep; [|by constructor]. apply Hgo; [|done]. split; [done|]. cbn. lia.
  - set (n := ducknng_http_stream_min3 _ _ _). set (f' := if chunk_remaining _ - _ =? 0 then _ else _).
    pose proof (min3_spec (zlen (raw s)) (cap - zlen out) (chunk_remaining (hs_framing s))) as Hn. cbv zeta in Hn.
    fold n in Hn. pose proof (zlen_nonneg (raw s)). pose proof (zlen_nonneg out).
    destruct (taken_fits n out (raw s) cap) as [? ?]; [lia..|].
    assert (framing_fits f') by (unfold f'; destruct (_ =? 0); constructor; cbn; try done; lia).
    assert (stream_fits (set_stream f' (zdrop n (raw s)) (hs_eof s) s)) by (split; [done|]; cbn; lia).
    destruct (0 <? _); [done|]. destruct (zlen (zdrop _ _) =? 0); [done|].
    apply (in_bounds_mono _ (set_stream f' (zdrop n (raw s)) (hs_eof s) s)); [done|]. by apply IH.
  - destruct (crlf_loop _ _) as [[rest pos]|] eqn:E; [|done]. cbn [res_bind].
    apply crlf_fits in E as [? ?]; [|done]. destruct (pos <? 2); [repeat split; cbn; try done; lia|].
    apply Hgo; [|done]. split; [by constructor|]. cbn. lia.
  - destruct (ducknng_http_stream_read_line _ _ _) as [[[[rest ln] cr] complete]|] eqn:E; [|done]. cbn [res_bind].
    apply read_line_fits in E as [? ?]; [|done]. destruct complete; cbn [negb].
    2:{ repeat split; cbn; try done; lia. }
    destruct (_ =? 0); [repeat split; cbn; try done; lia|]. apply Hgo; [|done].
    split; [|cbn; lia]. constructor; cbn; try done.
Qed.

Lemma process_fits s out cap : stream_fits s -> zlen out <= cap ->
  in_bounds s cap (ducknng_http_stream_process s out cap).
Proof.
  intros Hs Ho. pose proof Hs as [[Hl Hc Hk Hp] Hr]. unfold ducknng_http_stream_process.
  pose proof (zlen_nonneg (raw s)). pose proof (zlen_nonneg out).
  destruct (hs_eof s); [done|]. destruct (body_mode _); [done| |by apply chunked_loop_fits|].
  - set (n := ducknng_http_stream_min3 _ _ _).
    pose proof (min3_spec (zlen (raw s)) (cap - zlen out) (content_remaining (hs_framing s))) as Hn. cbv zeta in Hn.
    fold n in Hn. destruct (taken_fits n out (raw s) cap) as [? ?]; [lia..|].
    assert (forall eof, stream_fits (set_stream (set_content (content_remaining (hs_framing s) - n) (hs_framing s))
      (zdrop n (raw s)) eof s)) by (intros eof; split; [constructor; cbn; try done; lia|cbn; lia]).
    destruct (0 <? _); [by split; [eauto|]|]. by destruct (_ - n =? 0); (split; [eauto|]).
  - set (n := if zlen _ <? _ then _ else _).
    assert (0 <= n <= zlen (raw s) /\ n <= cap - zlen out)
      by (unfold n; destruct (Z.ltb_spec (zlen (raw s)) (cap - zlen out)); lia).
    destruct (taken_fits n out (raw s) cap) as [? ?]; [lia..|].
    destruct (0 <? n); [|done]. split; [split; [done|cbn; lia]|done].
Qed.

(** ** Content-Length *)

Definition is_digit (c : Z) : bool := ((48 <=? c) && (c <=? 57))%bool.

(** The decimal value of a text. *)
Fixpoint decimal (p : bytes) (acc : Z) : Z :=
  match p with [] => acc | c :: p => decimal p (acc * 10 + (c - 48)) end.

Lemma decimal_mono p acc : forallb is_digit p = true -> 0 <= acc -> acc <= decimal p acc.
Proof.
  revert acc. induction p as [|c p IH]; intros acc; cbn [forallb decimal]; [lia|].
  intros [Hc Hp]%andb_true_iff Ha. unfold is_digit in Hc. btests. etrans; [|apply IH; [done|lia]]. lia.
Qed.

Lemma content_length_loop_exact p acc n : 0 <= acc <= UINT64_MAX ->
  content_length_loop p acc = Ok n <-> forallb is_digit p = true /\ n = decimal p acc /\ n <= UINT64_MAX.
Proof.
  revert acc. induction p as [|c p IH]; intros acc Ha; cbn [content_length_loop forallb decimal].
  { split; [intros [= <-]; repeat split; lia|intros (_ & -> & _); done]. }
  rewrite andb_true_iff. unfold is_digit at 1.
  destruct (Z.ltb_spec c 48), (Z.ltb_spec 57 c), (Z.leb_spec 48 c), (Z.leb_spec c 57); try lia;
    cbn [orb andb]; try (split; [done|intros ((? & _) & _); done]).
  destruct (Z.ltb_spec ((UINT64_MAX - (c - 48)) / 10) acc) as [Hlt|Hle].
  - split; [done|]. intros ((_ & Hp) & -> & Hm). exfalso.
    assert (UINT64_MAX < acc * 10 + (c - 48)) by (Z.div_mod_to_equations; lia).
    pose proof (decimal_mono p (acc * 10 + (c - 48)) Hp). lia.
  - rewrite IH by (Z.div_mod_to_equations; lia). tauto.
Qed.

(** A Content-Length is accepted exactly when it is a non-empty run of
    decimal digits whose value fits the 64-bit counter, and then it is read as
    that value: nothing wraps around. *)
Theorem content_length_exact value n : ducknng_http_stream_parse_content_length value = Ok n <->
  value <> [] /\ forallb is_digit value = true /\ n = decimal value 0 /\ n <= UINT64_MAX.
Proof.
  unfold ducknng_http_stream_parse_content_length. destruct value as [|c value]; [split; [done|intros (? & _); done]|].
  rewrite content_length_loop_exact by (unfold UINT64_MAX; lia). split; [by intros|intros (_ & ?); done].
Qed.

(** ** Reachable streams *)

Definition close_stream (s : ducknng_http_client_stream) : ducknng_http_client_stream :=
  mk_stream (hs_status s) (hs_framing s) (raw s) (open_phase s) (hs_conn s) (hs_open s) (hs_eof s) (hs_failed s) true.

(** The steps of a stream: an operation of the open sequence or a body read
    completes, a receive begins, a read is submitted, the stream is closed.  A
    receive asks for a read only while it has no byte, so the buffer is empty
    when the read completes. *)
Inductive stream_step : ducknng_http_client_stream -> ducknng_http_client_stream -> Prop :=
| step_open s r : stream_step s (ducknng_http_client_stream_open_advance s r).1
| step_begin s cap : 0 <= cap -> stream_step s (ducknng_http_client_stream_recv_begin s cap).1.1
| step_submit s a s' : ducknng_http_client_stream_submit s a = Ok s' -> stream_step s s'
| step_advance s r cap : hs_open s = true -> hs_failed s = false -> 0 <= cap ->
    stream_step s (ducknng_http_client_stream_recv_advance s r [] cap).1.1
| step_close s : stream_step s (close_stream s).

Definition reachable (s : ducknng_http_client_stream) : Prop :=
  exists prepared set_header s0,
    ducknng_http_client_stream_prepare prepared set_header = Ok s0 /\ rtc stream_step s0 s.

Record stream_inv (s : ducknng_http_client_stream) : Prop := mk_inv {
  inv_fits : stream_fits s;
  inv_phase : hs_open s = true -> open_phase s = DUCKNNG_HTTP_STREAM_OPEN_DONE;
  inv_conn : open_phase s <> DUCKNNG_HTTP_STREAM_OPEN_CONNECT -> hs_conn s = true;
  inv_body : hs_open s = true -> hs_failed s = false -> hs_eof s = false -> framing_ok (hs_framing s) }.

Lemma stream_inv_failed s : stream_inv s -> stream_inv (set_failed s).
Proof. intros [? ? ? ?]. by constructor. Qed.

Lemma configure_body_ok m st c te cl f eof :
  ducknng_http_stream_configure_body m st c te cl = Ok (f, eof) ->
  framing_fits f /\ (eof = false -> framing_ok f).
Proof.
  unfold ducknng_http_stream_configure_body. destruct c; [|done]. cbn [res_bind].
  assert (forall mode n, 0 <= n <= UINT64_MAX ->
    framing_fits (mk_framing mode n DUCKNNG_HTTP_STREAM_CHUNK_SIZE 0 [] false 0)) as Hf.
  { intros. constructor; cbn; try done. }
  destruct (ducknng_http_stream_response_has_no_body m st); [intros [= <- <-]; by split; [apply Hf|]|].
  destruct (nonempty te); [destruct (negb _); [done|]; intros [= <- <-]; by split; [apply Hf|]|].
  destruct cl as [value|]; [|intros [= <- <-]; by split; [apply Hf|]].
  destruct (ducknng_http_stream_parse_content_length value) as [n|] eqn:E; [|done]. cbn [res_bind].
  unfold ducknng_http_stream_parse_content_length in E. destruct value as [|c value]; [done|].
  rewrite content_length_loop_exact in E by (unfold UINT64_MAX; lia). destruct E as (Hd & -> & Hm).
  pose proof (decimal_mono (c :: value) 0 Hd ltac:(lia)). intros [= <- <-]. split; [by apply Hf|].
  intros ?%Z.eqb_neq. unfold framing_ok. cbn [body_mode content_remaining]. cbn [decimal] in *. lia.
Qed.

Lemma open_advance_inv s r : stream_inv s -> stream_inv (ducknng_http_client_stream_open_advance s r).1.
Proof.
  intros Hs. pose proof Hs as [[Hf Hr] Hp Hc Hb]. unfold ducknng_http_client_stream_open_advance.
  destruct (negb _); [by apply stream_inv_failed|].
  destruct (open_phase s) eqn:Ep.
  - destruct (or_conn r); cbn [negb]; [|by apply stream_inv_failed].
    constructor; cbn; try done. intros Ho. by specialize (Hp Ho).
  - constructor; cbn; try done; intros; [|by apply Hc]. by specialize (Hp ltac:(done)).
  - destruct (ducknng_http_stream_configure_body _ _ _ _ _) as [[f eof]|] eqn:E.
    + apply configure_body_ok in E as [? ?]. constructor; cbn; try done. intros _. by apply Hc.
    + apply stream_inv_failed. constructor; cbn; rewrite ?Ep; done.
  - by apply stream_inv_failed.
Qed.

Lemma recv_finish_inv s cap : 0 < cap -> stream_inv s -> hs_open s = true -> hs_failed s = false ->
  stream_inv (recv_finish s [] (ducknng_http_stream_process s [] cap)).1.1.
Proof.
  intros Hcap Hs Ho Efl. pose proof Hs as [Hf Hp Hc Hb].
  pose proof (process_fits s [] cap Hf ltac:(change (zlen []) with 0; lia)) as Hfit.
  destruct (hs_eof s) eqn:He; [unfold ducknng_http_stream_process; by rewrite He|].
  pose proof (process_decodes s cap (Hb Ho Efl eq_refl) He Hcap) as Hd.
  destruct (ducknng_http_stream_process s [] cap) as [p|e]; cbn [recv_finish fst]; [|by apply stream_inv_failed].
  destruct Hd as (used & f' & rest & ended & _ & _ & Es & Hok & _). destruct Hfit as [Hfit _].
  rewrite Es in *. by constructor.
Qed.

Lemma recv_begin_inv s cap : 0 <= cap -> stream_inv s -> stream_inv (ducknng_http_client_stream_recv_begin s cap).1.1.
Proof.
  intros Hcap Hs. unfold ducknng_http_client_stream_recv_begin. destruct (_ || _)%bool eqn:Ec; [done|].
  destruct (hs_open s) eqn:?, (hs_failed s) eqn:?, (hs_closing s); try done; cbn [negb orb].
  apply recv_finish_inv; try done. btests. lia.
Qed.

Lemma recv_advance_inv s r cap : hs_open s = true -> hs_failed s = false -> 0 <= cap -> stream_inv s ->
  stream_inv (ducknng_http_client_stream_recv_advance s r [] cap).1.1.
Proof.
  intros Ho Hfl Hcap Hs. unfold ducknng_http_client_stream_recv_advance.
  destruct (_ || _)%bool eqn:Ec; [done|]. pose proof Hs as [[Hf Hr] Hp Hc Hb].
  assert (0 < cap) by (btests; lia). clear Ec. destruct r as [b|e|e]; [| |by apply stream_inv_failed].
  - destruct (_ || _)%bool eqn:Eb; [by apply stream_inv_failed|]. apply recv_finish_inv; try done.
    constructor; try done. split; [done|]. cbn. btests. lia.
  - destruct (body_mode _); try by apply stream_inv_failed. destruct (hs_closing s); [by apply stream_inv_failed|].
    constructor; try done.
Qed.

Lemma reachable_inv s : reachable s -> stream_inv s.
Proof.
  intros (prep & hdr & s0 & H0 & Hrtc). assert (stream_inv s0) as Hinv.
  { revert H0. unfold ducknng_http_client_stream_prepare. destruct prep, hdr; try done. intros [= <-].
    by constructor. }
  clear H0. induction Hrtc as [|s1 s2 s3 Hstep _ IH]; [done|]. apply IH. destruct Hstep as [s r|s cap|s a s'|s r cap|s].
  - by apply open_advance_inv.
  - by apply recv_begin_inv.
  - destruct a; intros; try by simplify_eq/=. revert H. cbn. destruct (_ || _)%bool; [done|]. intros [= <-].
    destruct Hinv as [[? _] ? ? ?]. by constructor.
  - by apply recv_advance_inv.
  - destruct Hinv. by constructor.
Qed.

(** C36. No buffer of a streamed response overflows: in every reachable stream
    the size or trailer line leaves room for its terminator, the buffered
    bytes fit the read buffer, the counters are 64-bit values and the position
    in the chunk terminator is at most 2; and a receive writes at most the
    caller's capacity. *)
Theorem stream_buffers_in_bounds s cap : reachable s -> 0 <= cap ->
  stream_fits s /\
  zlen (ducknng_http_client_stream_recv_begin s cap).1.2 <= cap /\
  forall r, zlen (ducknng_http_client_stream_recv_advance s r [] cap).1.2 <= cap.
Proof.
  intros Hs%reachable_inv Hcap. pose proof Hs as [Hf _ _ _]. split; [done|].
  assert (forall s', stream_fits s' -> zlen (recv_finish s' [] (ducknng_http_stream_process s' [] cap)).1.2 <= cap) as Hout.
  { intros s' Hs'. pose proof (process_fits s' [] cap Hs' ltac:(change (zlen []) with 0; lia)) as Hp.
    destruct (ducknng_http_stream_process s' [] cap); cbn [recv_finish fst snd]; [by destruct Hp as (_ & ? & _)|].
    change (zlen []) with 0; lia. }
  unfold ducknng_http_client_stream_recv_begin, ducknng_http_client_stream_recv_advance.
  split; [destruct (_ || _)%bool; [done|]; destruct (_ || _)%bool; [done|]; by apply Hout|]. intros r.
  destruct (_ || _)%bool; [done|]. destruct r as [b|e|e]; [| |done].
  - destruct (_ || _)%bool eqn:Eb; [done|]. apply Hout. split; [apply Hf|]. cbn. btests. lia.
  - by destruct (body_mode _), (hs_closing s).
Qed.

(** C26. Streaming is transparent: in any stream that is open, however the
    network splits the rest of the response into reads and whatever buffer
    sizes the caller receives with, the bytes handed out until the end of the
    stream are the body the framing describes (the byte machine's), and a
    malformed framing is reported with the error the whole text gives. *)
Theorem stream_split_independent caps reads s r : reachable s ->
  hs_open s = true -> hs_failed s = false -> hs_closing s = false -> hs_eof s = false ->
  Forall read_ok reads -> Forall cap_ok caps -> (length (raw s ++ concat reads) < length caps)%nat ->
  outcome (hs_framing s) (raw s ++ concat reads) = Some r -> drain caps reads s = Some r.
Proof.
  intros [Hf Hp Hc Hb]%reachable_inv Ho Hfl Hcl He. apply drain_outcome; [|done|by apply Hb].
  repeat split; try done. apply Hc. by rewrite Hp.
Qed.

(** ** A concrete stream *)

Definition demo_report (te cl : option bytes) : open_report :=
  mk_report 0 [] true (Some (lit "GET")) 200 (Ok tt) te cl.

(** A stream whose three open operations completed. *)
Definition demo_open (te cl : option bytes) : ducknng_http_client_stream :=
  let s0 := mk_stream 0 (mk_framing DUCKNNG_HTTP_STREAM_BODY_NONE 0 DUCKNNG_HTTP_STREAM_CHUNK_SIZE 0 [] false 0) []
    DUCKNNG_HTTP_STREAM_OPEN_CONNECT false false false false false in
  let step s := (ducknng_http_client_stream_open_advance s (demo_report te cl)).1 in
  step (step (step s0)).

Lemma demo_reachable te cl : reachable (demo_open te cl).
Proof.
  exists (Ok tt), (Ok tt), (mk_stream 0 (mk_framing DUCKNNG_HTTP_STREAM_BODY_NONE 0 DUCKNNG_HTTP_STREAM_CHUNK_SIZE 0
    [] false 0) [] DUCKNNG_HTTP_STREAM_OPEN_CONNECT false false false false false). split; [done|].
  do 2 (eapply rtc_l; [apply step_open with (r := demo_report te cl)|]). apply rtc_once, step_open.
Qed.

Definition crlf : bytes := [13; 10].

Lemma stream_buffers_in_bounds_witness :
  stream_fits (demo_open (Some (lit "gzip, chunked")) None) /\
  zlen (ducknng_http_client_stream_recv_advance (demo_open (Some (lit "gzip, chunked")) None)
    (read_bytes (lit "4" ++ crlf ++ lit "Wiki")) [] 3).1.2 <= 3.
Proof.
  destruct (stream_buffers_in_bounds (demo_open (Some (lit "gzip, chunked")) None) 3) as (H1 & _ & H2);
    [apply demo_reachable|lia|]. split; [exact H1|apply H2].
Defined.

Lemma stream_split_independent_witness :
  drain (replicate 32 3) [lit "4;x" ++ [13]; [10] ++ lit "Wi"; lit "ki" ++ crlf ++ lit "0"; crlf ++ crlf]
    (demo_open (Some (lit "chunked")) None) = Some (Ok (lit "Wiki")).
Proof.
  apply stream_split_independent;
    [apply demo_reachable | reflexivity | reflexivity | reflexivity | reflexivity
    | apply (bool_decide_unpack _); vm_compute; exact I | apply (bool_decide_unpack _); vm_compute; exact I
    | vm_compute; lia | vm_compute; reflexivity].
Defined.
