(* ===== verification/EventRelay.v ===== *)
(** Event relays of the HTTP server: [src/src/ducknng_http_compat.c].

    An event route hands its connection to a relay: a list node shared by the
    request handler that starts it, the relay's own thread, a reaper (run when
    the next relay starts) and the stop of the server.  Each critical section
    under [state->mu], and each stretch between two of them, is one step; the
    program counters say how far the handler and the thread of a relay have
    come.  The list [event_relays] is the relays whose place is [listed]; a
    relay keeps its entry after it is freed, so that a second free or a use
    after free would show.  What NNG and the platform answer (the result of
    the hijack and of the thread creation) is an argument. *)

From stdpp Require Import relations.
From S2P Require Import Prelude.

(** ** Data *)

Inductive handler_pc :=
| H_registered       (* linked, [starting] set *)
| H_hijack_failed    (* [detached] set *)
| H_hijack_freed     (* write aio freed *)
| H_hijacked         (* the relay owns connection and subscription *)
| H_created          (* thread running *)
| H_no_thread        (* [detached] set, no thread *)
| H_no_thread_freed  (* write aio freed, connection closed *)
| H_done.

Inductive thread_pc := T_none | T_running | T_detached | T_freed | T_exited.

(** Linked in [event_relays]; unlinked, to be joined and freed; freed. *)
Inductive relay_place := listed | taken | freed.

#[export] Instance handler_pc_eq_dec : EqDecision handler_pc.
Proof. solve_decision. Defined.
#[export] Instance thread_pc_eq_dec : EqDecision thread_pc.
Proof. solve_decision. Defined.
#[export] Instance relay_place_eq_dec : EqDecision relay_place.
Proof. solve_decision. Defined.

Record ducknng_http_event_relay := mk_relay {
  starting : bool; thread_started : bool; detached : bool; finished : bool;
  aio_frees : nat;      (* [nng_aio_free] calls on the write aio *)
  relay_frees : nat;    (* [duckdb_free] calls on the relay *)
  place : relay_place; hpc : handler_pc; tpc : thread_pc }.

#[export] Instance relay_eq_dec : EqDecision ducknng_http_event_relay.
Proof. solve_decision. Defined.

Record relay_server := mk_relay_server { rs_stopping : bool; event_relays : list ducknng_http_event_relay }.

(** ** The handler *)

Definition new_relay : ducknng_http_event_relay := mk_relay true false false false 0 0 listed H_registered T_none.

(** Registration: refused once the server is stopping (the aio and the relay,
    not yet shared, are freed). *)
Definition relay_register (st : relay_server) : option relay_server :=
  if rs_stopping st then None else Some (mk_relay_server (rs_stopping st) (event_relays st ++ [new_relay])).

(** The next step of the handler of a relay. *)
Definition handler_next (hijack_rv thread_rv : Z) (r : ducknng_http_event_relay) : option ducknng_http_event_relay :=
  match hpc r with
  | H_registered =>
    if negb (hijack_rv =? 0)
    then Some (mk_relay (starting r) (thread_started r) true (finished r) (aio_frees r) (relay_frees r) (place r)
      H_hijack_failed (tpc r))
    else Some (mk_relay (starting r) (thread_started r) (detached r) (finished r) (aio_frees r) (relay_frees r) (place r)
      H_hijacked (tpc r))
  | H_hijack_failed =>
    Some (mk_relay (starting r) (thread_started r) (detached r) (finished r) (S (aio_frees r)) (relay_frees r) (place r)
      H_hijack_freed (tpc r))
  | H_hijack_freed =>
    Some (mk_relay false (thread_started r) (detached r) true (aio_frees r) (relay_frees r) (place r) H_done (tpc r))
  | H_hijacked =>
    if thread_rv =? 0
    then Some (mk_relay (starting r) true (detached r) (finished r) (aio_frees r) (relay_frees r) (place r)
      H_created T_running)
    else Some (mk_relay (starting r) (thread_started r) true (finished r) (aio_frees r) (relay_frees r) (place r)
      H_no_thread (tpc r))
  | H_created =>
    Some (mk_relay false (thread_started r) (detached r) (finished r) (aio_frees r) (relay_frees r) (place r) H_done (tpc r))
  | H_no_thread =>
    Some (mk_relay (starting r) (thread_started r) (detached r) (finished r) (S (aio_frees r)) (relay_frees r) (place r)
      H_no_thread_freed (tpc r))
  | H_no_thread_freed =>
    Some (mk_relay false (thread_started r) (detached r) true (aio_frees r) (relay_frees r) (place r) H_done (tpc r))
  | H_done => None
  end.

(** ** The thread *)

(** The receive loop ends (a stop, an error, a failed write); the thread
    detaches, frees the aio and closes the connection, and finishes. *)
Definition thread_next (r : ducknng_http_event_relay) : option ducknng_http_event_relay :=
  match tpc r with
  | T_running =>
    Some (mk_relay (starting r) (thread_started r) true (finished r) (aio_frees r) (relay_frees r) (place r) (hpc r) T_detached)
  | T_detached =>
    Some (mk_relay (starting r) (thread_started r) (detached r) (finished r) (S (aio_frees r)) (relay_frees r) (place r)
      (hpc r) T_freed)
  | T_freed =>
    Some (mk_relay (starting r) (thread_started r) (detached r) true (aio_frees r) (relay_frees r) (place r) (hpc r) T_exited)
  | T_none | T_exited => None
  end.

(** ** Reaping and stopping *)

Definition set_place (p : relay_place) (r : ducknng_http_event_relay) : ducknng_http_event_relay :=
  mk_relay (starting r) (thread_started r) (detached r) (finished r) (aio_frees r) (relay_frees r) p (hpc r) (tpc r).

(** The critical section of the reaper: unlink what has finished. *)
Definition ducknng_http_event_relays_reap (st : relay_server) : relay_server :=
  mk_relay_server (rs_stopping st)
    ((fun r => if (bool_decide (place r = listed) && finished r && negb (starting r))%bool
               then set_place taken r else r) <$> event_relays st).

(** One round of the stop's scan: whether a relay is still starting, and the
    relays whose write aio it cancels. *)
Definition stop_starting (st : relay_server) : bool :=
  existsb (fun r => bool_decide (place r = listed) && starting r)%bool (event_relays st).
Definition stop_cancels (r : ducknng_http_event_relay) : bool :=
  (bool_decide (place r = listed) && negb (detached r))%bool.

(** The end of the scan, when no relay is starting: the list is taken. *)
Definition ducknng_http_event_relays_stop (st : relay_server) : option relay_server :=
  if (rs_stopping st && negb (stop_starting st))%bool
  then Some (mk_relay_server (rs_stopping st)
    ((fun r => if bool_decide (place r = listed) then set_place taken r else r) <$> event_relays st))
  else None.

(** [ducknng_thread_join] returns once the thread has; then the relay is freed. *)
Definition ducknng_http_event_relay_free (r : ducknng_http_event_relay) : option ducknng_http_event_relay :=
  if bool_decide (place r = taken) then
    if (thread_started r && negb (bool_decide (tpc r = T_exited)))%bool then None
    else Some (mk_relay (starting r) (thread_started r) (detached r) (finished r) (aio_frees r) (S (relay_frees r)) freed
      (hpc r) (tpc r))
  else None.

(** ** The system *)

Inductive relay_step : ducknng_http_event_relay -> ducknng_http_event_relay -> Prop :=
| step_handler hijack_rv thread_rv r r' : handler_next hijack_rv thread_rv r = Some r' -> relay_step r r'
| step_thread r r' : thread_next r = Some r' -> relay_step r r'
| step_free r r' : ducknng_http_event_relay_free r = Some r' -> relay_step r r'.

Inductive server_step : relay_server -> relay_server -> Prop :=
| step_register st st' : relay_register st = Some st' -> server_step st st'
| step_relay st k r r' : event_relays st !! k = Some r -> relay_step r r' ->
    server_step st (mk_relay_server (rs_stopping st) (<[k := r']> (event_relays st)))
| step_reap st : server_step st (ducknng_http_event_relays_reap st)
| step_stopping st : server_step st (mk_relay_server true (event_relays st))
| step_take st st' : ducknng_http_event_relays_stop st = Some st' -> server_step st st'.

Definition relay_reachable (st : relay_server) : Prop := rtc server_step (mk_relay_server false []) st.

(** The handler's whole call when nothing else runs: registration, then its
    steps; the message of a failure. *)
Fixpoint run_handler_steps (fuel : nat) (hijack_rv thread_rv : Z) (r : ducknng_http_event_relay) : ducknng_http_event_relay :=
  match fuel with
  | O => r
  | S fuel => match handler_next hijack_rv thread_rv r with
              | None => r | Some r => run_handler_steps fuel hijack_rv thread_rv r end
  end.

Definition ducknng_http_start_event_relay (st : relay_server) (hijack_rv thread_rv : Z)
    : relay_server * option bytes :=
  let st := ducknng_http_event_relays_reap st in
  match relay_register st with
  | None => (st, Some (lit "ducknng: HTTP server is stopping"))
  | Some st =>
    let k := (length (event_relays st) - 1)%nat in
    (mk_relay_server (rs_stopping st) (alter (run_handler_steps 5 hijack_rv thread_rv) k (event_relays st)),
     if negb (hijack_rv =? 0) then Some (lit "ducknng: failed to hijack event route connection") else None)
  end.

(** ** The invariant of a relay *)

(** What the flags are at each point of the thread. *)
Definition thread_ok (r : ducknng_http_event_relay) : Prop :=
  thread_started r = true /\
  match tpc r with
  | T_none => False
  | T_running => detached r = false /\ finished r = false /\ aio_frees r = 0%nat
  | T_detached => detached r = true /\ finished r = false /\ aio_frees r = 0%nat
  | T_freed => detached r = true /\ finished r = false /\ aio_frees r = 1%nat
  | T_exited => detached r = true /\ finished r = true /\ aio_frees r = 1%nat
  end.

Definition no_thread (r : ducknng_http_event_relay) : Prop := thread_started r = false /\ tpc r = T_none.

Definition relay_ok (r : ducknng_http_event_relay) : Prop :=
  match hpc r with
  | H_registered | H_hijacked =>
    no_thread r /\ detached r = false /\ finished r = false /\ aio_frees r = 0%nat
  | H_hijack_failed | H_no_thread => no_thread r /\ detached r = true /\ finished r = false /\ aio_frees r = 0%nat
  | H_hijack_freed | H_no_thread_freed =>
    no_thread r /\ detached r = true /\ finished r = false /\ aio_frees r = 1%nat
  | H_created => thread_ok r
  | H_done => thread_ok r \/ no_thread r /\ detached r = true /\ finished r = true /\ aio_frees r = 1%nat
  end /\
  starting r = negb (bool_decide (hpc r = H_done)) /\
  (place r <> listed -> hpc r = H_done) /\
  (place r = freed -> thread_started r = true -> tpc r = T_exited) /\
  relay_frees r = (if bool_decide (place r = freed) then 1 else 0)%nat.

Lemma handler_step_ok hv tv r r' : handler_next hv tv r = Some r' -> relay_ok r -> relay_ok r'.
Proof.
  unfold handler_next, relay_ok, no_thread, thread_ok. intros H (Hpc & Hs & Hp & Hf & Hn).
  assert (hpc r <> H_done -> place r = listed) as Hl by (intros; destruct (place r); [done|by destruct H0; apply Hp..]).
  destruct (hpc r) eqn:E; try (rewrite (Hl ltac:(done)) in * ); repeat case_match; simplify_eq; cbn in *;
    destruct_and?; repeat split; try done; auto 10; congruence.
Qed.

Lemma thread_step_ok r r' : thread_next r = Some r' -> relay_ok r -> relay_ok r'.
Proof.
  unfold thread_next, relay_ok, no_thread, thread_ok. intros H (Hpc & Hs & Hp & Hf & Hn).
  assert (tpc r <> T_none -> thread_started r = true) as Hts.
  { intros Ht. destruct (hpc r); destruct_and?; try done. by destruct Hpc; destruct_and?. }
  destruct (tpc r) eqn:E; simplify_eq; cbn; specialize (Hts ltac:(done));
    (split; [|split; [done|split; [done|split; [|done]]]]); try (intros Hfr Ht; by specialize (Hf Hfr Ht));
    try done; destruct (hpc r); rewrite ?Hts in *; destruct_and?; try done; auto;
    destruct Hpc; destruct_and?; try done; left; repeat split; try done; congruence.
Qed.

Lemma free_step_ok r r' : ducknng_http_event_relay_free r = Some r' -> relay_ok r -> relay_ok r'.
Proof.
  unfold ducknng_http_event_relay_free, relay_ok. intros H (Hpc & Hs & Hp & Hf & Hn).
  destruct (bool_decide (place r = taken)) eqn:Et; [|done]. apply bool_decide_eq_true in Et.
  destruct (_ && _)%bool eqn:E; [done|]. simplify_eq. cbn. rewrite Et in *.
  repeat split; try done; [by intros; apply Hp|intros _ Hts|by rewrite Hn].
  rewrite Hts in E. cbn in E. by apply negb_false_iff, bool_decide_eq_true in E.
Qed.

Lemma relay_step_ok r r' : relay_step r r' -> relay_ok r -> relay_ok r'.
Proof. intros []; [by eapply handler_step_ok|by apply thread_step_ok|by apply free_step_ok]. Qed.

Lemma taken_ok r : relay_ok r -> starting r = false -> place r = listed -> relay_ok (set_place taken r).
Proof.
  unfold relay_ok. intros (Hpc & Hs & _ & _ & Hn) Hst Hp. rewrite Hp in Hn. cbn. repeat split; try done.
  intros _. rewrite Hst in Hs. symmetry in Hs. by apply negb_false_iff, bool_decide_eq_true in Hs.
Qed.

Lemma reachable_ok st : relay_reachable st -> Forall relay_ok (event_relays st).
Proof.
  unfold relay_reachable. assert (Forall relay_ok (event_relays (mk_relay_server false []))) as H0 by constructor.
  revert H0. generalize (mk_relay_server false []). intros s0 H0 Hrtc. induction Hrtc as [|s1 s2 s3 Hs _ IH]; [done|].
  apply IH. clear IH. destruct Hs as [s s' H|s k r r' Hk Hr|s|s|s s' H].
  - revert H. unfold relay_register. destruct (rs_stopping s); [done|]. intros [= <-]. cbn. apply Forall_app_2; [done|].
    constructor; [|done]. by repeat split.
  - cbn. apply Forall_insert; [done|]. eapply relay_step_ok; [done|]. by eapply Forall_lookup_1.
  - cbn. apply Forall_fmap. eapply Forall_impl; [done|]. intros r Hr. cbn.
    destruct (_ && _)%bool eqn:E; [|done]. apply andb_true_iff in E as [[Hp _]%andb_true_iff Hst].
    apply taken_ok; [done|by apply negb_true_iff|by apply bool_decide_eq_true in Hp].
  - done.
  - revert H. unfold ducknng_http_event_relays_stop. destruct (_ && _)%bool eqn:E; [|done]. intros [= <-]. cbn.
    apply andb_true_iff in E as [_ E%negb_true_iff]. apply Forall_fmap, Forall_forall. intros r Hin. cbn.
    assert (relay_ok r) as Hr by (rewrite Forall_forall in H0; by apply H0).
    destruct (bool_decide (place r = listed)) eqn:Ep; [|done]. apply bool_decide_eq_true in Ep. apply taken_ok; try done.
    destruct (starting r) eqn:Es; [|done]. exfalso.
    assert (stop_starting s = true) as Hc; [|congruence]. unfold stop_starting. apply existsb_exists. exists r.
    split; [by apply list_elem_of_In|]. by rewrite Ep, Es, bool_decide_eq_true_2.
Qed.

(** ** Stopping ends *)

(** What is left to do for a relay once the server is stopping. *)
Definition relay_measure (r : ducknng_http_event_relay) : nat :=
  (match hpc r with
   | H_registered => 8 | H_hijacked => 7 | H_hijack_failed | H_no_thread => 3
   | H_hijack_freed | H_no_thread_freed => 2 | H_created => 1 | H_done => 0 end +
   match tpc r with T_running => 3 | T_detached => 2 | T_freed => 1 | T_none | T_exited => 0 end +
   match place r with listed => 2 | taken => 1 | freed => 0 end)%nat.

Definition server_measure (st : relay_server) : nat := sum_list_with relay_measure (event_relays st).

Lemma relay_step_measure r r' : relay_ok r -> relay_step r r' -> (relay_measure r' < relay_measure r)%nat.
Proof.
  intros Hok [hv tv r1 r2 H|r1 r2 H|r1 r2 H]; unfold relay_measure; revert H.
  - destruct Hok as (Hpc & _). unfold handler_next, no_thread in *.
    destruct (hpc r1) eqn:E; [destruct (hv =? 0)| | |destruct (tv =? 0)| | | |]; intros [= <-]; cbn; try lia.
  - unfold thread_next. destruct (tpc r1) eqn:E; intros; simplify_eq; cbn; rewrite ?E; lia.
  - unfold ducknng_http_event_relay_free. destruct (bool_decide _) eqn:E; [|done]. apply bool_decide_eq_true in E.
    destruct (_ && _)%bool; [done|]. intros; simplify_eq; cbn. rewrite E. lia.
Qed.

Lemma sum_insert {A} (f : A -> nat) (l : list A) k x y : l !! k = Some x ->
  (sum_list_with f (<[k := y]> l) + f x = sum_list_with f l + f y)%nat.
Proof. revert k. induction l as [|z l IH]; intros [|k] H; simplify_eq/=; [lia|]. specialize (IH k H). lia. Qed.

Lemma sum_fmap_le {A} (f : A -> nat) (g : A -> A) (l : list A) : (forall x, f (g x) <= f x)%nat ->
  (sum_list_with f (g <$> l) <= sum_list_with f l)%nat /\
  ((exists x, x ∈ l /\ (f (g x) < f x)%nat) -> (sum_list_with f (g <$> l) < sum_list_with f l)%nat).
Proof.
  intros Hle. induction l as [|y l [IH1 IH2]]; [split; [done|by intros (x & Hx%not_elem_of_nil & _)]|].
  specialize (Hle y). split; cbn; [lia|]. intros (x & [->|Hin]%elem_of_cons & Hlt); [cbn in *; lia|].
  assert (sum_list_with f (g <$> l) < sum_list_with f l)%nat by (apply IH2; eauto). cbn in *. lia.
Qed.

Lemma fmap_changed {A} (f : A -> nat) (g : A -> A) (l : list A) :
  (forall x, g x = x \/ (f (g x) < f x)%nat) -> g <$> l <> l -> (sum_list_with f (g <$> l) < sum_list_with f l)%nat.
Proof.
  intros Hg. induction l as [|y l IH]; [done|]. intros Hne. cbn in *.
  assert (sum_list_with f (g <$> l) <= sum_list_with f l)%nat.
  { apply sum_fmap_le. intros x. destruct (Hg x) as [->|]; lia. }
  destruct (Hg y) as [E|]; [|lia]. rewrite E in *. assert (g <$> l <> l) by congruence. specialize (IH ltac:(done)). cbn in IH. lia.
Qed.

Lemma taken_measure r : place r = listed -> (relay_measure (set_place taken r) < relay_measure r)%nat.
Proof. intros H. unfold relay_measure. cbn. rewrite H. lia. Qed.

Lemma reap_changed st : ducknng_http_event_relays_reap st = st \/
  (server_measure (ducknng_http_event_relays_reap st) < server_measure st)%nat.
Proof.
  destruct (decide (event_relays (ducknng_http_event_relays_reap st) = event_relays st)) as [E|E].
  { left. destruct st. unfold ducknng_http_event_relays_reap in *. cbn in *. by rewrite E. }
  right. apply fmap_changed; [|done]. intros r. cbn. destruct (_ && _)%bool eqn:Eb; [|by left]. right.
  apply taken_measure. apply andb_true_iff in Eb as [[Hp _]%andb_true_iff _]. by apply bool_decide_eq_true in Hp.
Qed.

Lemma stop_changed st st' : ducknng_http_event_relays_stop st = Some st' ->
  st' = st \/ (server_measure st' < server_measure st)%nat.
Proof.
  unfold ducknng_http_event_relays_stop. destruct (_ && _)%bool; [|done]. intros [= <-].
  set (g := fun r => _). destruct (decide (g <$> event_relays st = event_relays st)) as [E|E].
  { left. destruct st. cbn in *. by rewrite E. }
  right. apply fmap_changed; [|done]. intros r. unfold g. destruct (bool_decide _) eqn:Eb; [|by left]. right.
  apply taken_measure. by apply bool_decide_eq_true in Eb.
Qed.

(** Every step of a stopping server that changes anything brings it closer to
    the end. *)
Lemma stopping_step_measure st st' : Forall relay_ok (event_relays st) -> rs_stopping st = true -> server_step st st' ->
  rs_stopping st' = true /\ (st' = st \/ (server_measure st' < server_measure st)%nat).
Proof.
  intros Hok Hst Hstep. destruct Hstep as [s s' H|s k r r' Hk Hr|s|s|s s' H]; cbn in *.
  - revert H. unfold relay_register. by rewrite Hst.
  - split; [done|]. right. unfold server_measure. cbn.
    pose proof (sum_insert relay_measure _ k r r' Hk). pose proof (relay_step_measure r r').
    assert (relay_ok r) by by eapply Forall_lookup_1. specialize (H0 ltac:(done) Hr). lia.
  - split; [done|]. apply reap_changed.
  - split; [done|]. left. destruct s. cbn in *. by subst.
  - pose proof (stop_changed _ _ H). split; [|done]. revert H. unfold ducknng_http_event_relays_stop.
    destruct (_ && _)%bool; [|done]. by intros [= <-].
Qed.

Lemma insert_changed (l : list ducknng_http_event_relay) k r r' b :
  l !! k = Some r -> r' <> r -> mk_relay_server b (<[k := r']> l) <> mk_relay_server b l.
Proof.
  intros Hk Hne [= H]. pose proof (lookup_lt_Some _ _ _ Hk) as Hlt.
  pose proof (list_lookup_insert_eq l k r' Hlt) as Hi. rewrite H in Hi. congruence.
Qed.

Lemma progress_relay st k r r' : Forall relay_ok (event_relays st) -> event_relays st !! k = Some r -> relay_step r r' ->
  exists st', server_step st st' /\ st' <> st.
Proof.
  intros Hok Hk Hr. eexists. split; [by eapply step_relay|]. destruct st as [b l]. cbn in *.
  eapply insert_changed; [done|]. intros ->. apply relay_step_measure in Hr; [lia|]. by eapply Forall_lookup_1.
Qed.

(** A stopping server with a relay that is not freed yet can move. *)
Lemma stopping_progress st : Forall relay_ok (event_relays st) -> rs_stopping st = true ->
  Exists (fun r => place r <> freed) (event_relays st) -> exists st', server_step st st' /\ st' <> st.
Proof.
  intros Hok Hst Hex.
  destruct (decide (Forall (fun r => hpc r = H_done) (event_relays st))) as [Hd|Hd].
  2:{ apply not_Forall_Exists in Hd; [|apply _]. apply Exists_exists in Hd as (r & Hin & Hne).
    apply list_elem_of_lookup in Hin as (k & Hk). destruct (handler_next 0 0 r) as [r'|] eqn:E.
    - eapply progress_relay; [done..|]. by eapply step_handler.
    - unfold handler_next in E. cbn in Hne. destruct (hpc r); by cbn in E. }
  assert (Forall (fun r => starting r = false) (event_relays st)) as Hs.
  { apply Forall_forall. intros r Hin. rewrite Forall_forall in Hok, Hd.
    destruct (Hok r Hin) as (_ & -> & _). by rewrite (Hd r Hin). }
  apply Exists_exists in Hex as (r & Hin & Hne). apply list_elem_of_lookup in Hin as (k & Hk).
  destruct (place r) eqn:Ep; [| |done].
  - assert (stop_starting st = false) as Hss.
    { destruct (stop_starting st) eqn:E; [|done]. apply existsb_exists in E as (x & Hx & Hb).
      rewrite Forall_forall in Hs. rewrite Hs, andb_false_r in Hb; [done|]. by apply list_elem_of_In. }
    eexists. split; [apply step_take; unfold ducknng_http_event_relays_stop; by rewrite Hst, Hss|].
    intros E. apply (f_equal event_relays) in E. cbn in E. apply (f_equal (lookup k)) in E.
    rewrite list_lookup_fmap, Hk in E. cbn in E. rewrite bool_decide_eq_true_2 in E by done.
    injection E as E. apply (f_equal place) in E. cbn in E. congruence.
  - destruct (thread_next r) as [r'|] eqn:Et; [eapply progress_relay; [done..|]; by apply step_thread|].
    destruct (ducknng_http_event_relay_free r) as [r'|] eqn:Ef; [eapply progress_relay; [done..|]; by apply step_free|].
    exfalso. revert Ef. unfold ducknng_http_event_relay_free. rewrite bool_decide_eq_true_2 by done.
    assert (relay_ok r) as Hr by by eapply Forall_lookup_1.
    assert (hpc r = H_done) as Hdr by by (eapply Forall_lookup_1 in Hd).
    destruct Hr as (Hpc & _). rewrite Hdr in Hpc. unfold thread_next in Et.
    destruct Hpc as [[Hts Ht]|[[Hts _] _]]; rewrite Hts; [|done]. by destruct (tpc r).
Qed.


(** C33. Relays are used and freed safely under every interleaving of request
    handlers, relay threads, the reaper and the stop.  The write aio of a
    relay is freed at most once and is alive whenever the stop may cancel it;
    the relay is freed at most once, and when it is, its handler has returned
    and its thread, if it has one, has exited, so nobody reaches it again. *)
Theorem relay_memory_safe st r : relay_reachable st -> r ∈ event_relays st ->
  (aio_frees r <= 1)%nat /\ (stop_cancels r = true -> aio_frees r = 0%nat) /\
  (relay_frees r <= 1)%nat /\
  (relay_frees r = 1%nat -> place r = freed /\ (forall hv tv, handler_next hv tv r = None) /\ thread_next r = None).
Proof.
  intros Hr Hin. pose proof (reachable_ok st Hr) as Hok. rewrite Forall_forall in Hok.
  destruct (Hok r Hin) as (Hpc & Hs & Hp & Hf & Hn). unfold thread_ok, no_thread in Hpc.
  assert (aio_frees r <= 1 /\ (detached r = false -> aio_frees r = 0))%nat as [Ha1 Ha2].
  { destruct (hpc r); destruct_and?; try (split; [lia|]; congruence); try (split; [lia|done]).
    - destruct (tpc r); destruct_and?; try done; (split; [lia|]; congruence).
    - destruct Hpc; destruct_and?; [destruct (tpc r); destruct_and?; try done|]; (split; [lia|]; congruence). }
  split; [done|]. split.
  { unfold stop_cancels. intros [_ Hd%negb_true_iff]%andb_true_iff. auto. }
  destruct (bool_decide (place r = freed)) eqn:Ef; rewrite Hn; [|split; [lia|done]].
  apply bool_decide_eq_true in Ef. split; [lia|]. intros _. split; [done|].
  assert (hpc r = H_done) as Hd by (apply Hp; congruence). rewrite Hd in Hpc.
  unfold handler_next, thread_next. rewrite Hd. split; [done|].
  destruct Hpc as [[Hts _]|[[_ ->] _]]; [|done]. by rewrite (Hf Ef Hts).
Qed.

(** ** A concrete run *)

Definition demo_relays : relay_server :=
  mk_relay_server true (event_relays (ducknng_http_start_event_relay (mk_relay_server false []) 0 0).1).

Lemma demo_relays_reachable : relay_reachable demo_relays.
Proof.
  unfold relay_reachable. eapply rtc_l; [apply step_register; reflexivity|].
  do 3 (eapply rtc_l; [eapply step_relay with (k := 0%nat); [reflexivity|eapply (step_handler 0 0); reflexivity]|]).
  apply rtc_once, step_stopping.
Qed.


Lemma relay_memory_safe_witness :
  Forall (fun r => aio_frees r <= 1)%nat (event_relays demo_relays).
Proof.
  apply Forall_forall. intros r Hin. apply (relay_memory_safe demo_relays r); [apply demo_relays_reachable|exact Hin].
Defined.
