(* ===== verification/HttpServe.v ===== *)
(** The HTTP server: replies of route handlers, static files, streamed and
    event responses, and the two request handlers; from
    [src/src/ducknng_http_compat.c] and [src/src/ducknng_service.c].

    A response is the list of calls that fill an NNG response object, in
    order.  DuckDB's answer to a handler's statement, the file system, NNG's
    answers and the UTF-8 check are arguments.  Failing allocations are not
    modelled.  The thread-local execution subject is left out. *)

From stdpp Require Import sets.
From S2P Require Import Prelude Util Transport Wire Registry Peers Session Admission Dispatch HttpRoute HttpHeaders.
From S2P Require Import HttpStream EventRelay.

(** ** Responses *)

Inductive res_call :=
| res_set_status (status : Z)
| res_set_header (name value : bytes)
| res_add_header (name value : bytes)
| res_copy_data (data : bytes).

Abbreviation response := (list res_call).

Definition NNG_EINVAL : Z := 3.

Definition ducknng_http_alloc_text_response (status : Z) (body_text : option bytes) : response :=
  [res_set_status status; res_set_header (lit "Content-Type") (lit "text/plain; charset=utf-8")] ++
  (if nonempty body_text then [res_copy_data (default [] body_text)] else []).

Definition ducknng_http_alloc_frame_response (frame : bytes) : response :=
  [res_set_status 200; res_set_header (lit "Content-Type") DUCKNNG_HTTP_FRAME_MEDIA_TYPE; res_copy_data frame].

(** How a request ends: a response for NNG to send, a failed aio, a hijacked
    connection that was streamed to (with the bytes put on it), one handed to
    an event relay, or one whose hijack failed. *)
Inductive http_answer :=
| respond (r : response)
| aio_failed (rv : Z)
| streamed (sent : bytes)
| relayed.

Definition ducknng_http_finish_response (res : option response) (rv : Z) : http_answer :=
  match res with
  | Some r => if rv =? 0 then respond r else aio_failed rv
  | None => aio_failed (if negb (rv =? 0) then rv else NNG_EINVAL)
  end.

(** ** Replies of route handlers *)

Record ducknng_http_route_reply := mk_route_reply {
  rr_status : Z; rr_headers_json : option bytes; rr_content_type : option bytes;
  rr_body : option bytes; rr_body_text : option bytes }.

Definition ducknng_http_route_reply_init : ducknng_http_route_reply := mk_route_reply 200 None None None None.

Record ducknng_http_request_context := mk_http_ctx {
  hc_scheme : ducknng_transport_scheme; hc_method : bytes; hc_path : bytes; hc_query_string : option bytes;
  hc_content_type : option bytes; hc_headers_json : bytes; hc_body : bytes; hc_path_params_json : option bytes;
  hc_caller_identity : option bytes; hc_remote_addr : option nng_sockaddr; hc_route : ducknng_http_route }.

Definition ducknng_chunk_blob_dup (c : sql_column) : option bytes :=
  match col_cell c with cell_blob s => Some s | cell_varchar s => Some s | _ => None end.

Section replies.
Context (misread : sql_cell -> option bytes).

(** The reader fills the reply column by column; an error leaves what was
    filled before it. *)
Definition fill : Type := ducknng_http_route_reply -> ducknng_http_route_reply * option bytes.
Definition fill_then (m k : fill) : fill := fun reply =>
  match m reply with (reply, None) => k reply | stopped => stopped end.

Definition check_fill (bad : bool) (text : bytes) : fill := fun reply => (reply, if bad then Some text else None).

(** A column of a given type, when it is there. *)
Definition column_fill (r : sql_result) (name : bytes) (type : sql_type) (text : bytes)
    (set : sql_column -> ducknng_http_route_reply -> ducknng_http_route_reply) : fill := fun reply =>
  match column_of r name with
  | None => (reply, None)
  | Some c => if bool_decide (col_type c = type) then (set c reply, None) else (reply, Some text)
  end.

Definition status_fill (r : sql_result) : fill := fun reply =>
  let bad := (reply, Some (lit "ducknng: HTTP route status column must be INTEGER between 100 and 599")) in
  match column_of r (lit "status") with
  | None => (reply, None)
  | Some c =>
    if negb (bool_decide (col_type c = DUCKDB_TYPE_INTEGER)) then bad else
    match ducknng_chunk_int32_value c with
    | None => bad
    | Some v =>
      if ((v <? 100) || (599 <? v))%bool then bad else
      (mk_route_reply v (rr_headers_json reply) (rr_content_type reply) (rr_body reply) (rr_body_text reply), None)
    end
  end.

Definition content_type_fill : fill := fun reply =>
  if nonempty (rr_content_type reply) then (reply, None) else
  (mk_route_reply (rr_status reply) (rr_headers_json reply)
     (if bool_decide (rr_body_text reply <> None) then Some (lit "text/plain; charset=utf-8")
      else if bool_decide (rr_body reply <> None) then Some (lit "application/octet-stream") else None)
     (rr_body reply) (rr_body_text reply), None).

Definition ducknng_parse_http_route_result (r : sql_result) : fill :=
  let one_row := lit "ducknng: HTTP route handler must return exactly one row" in
  fill_then (check_fill (negb (first_rows r =? 1)) one_row) (
  fill_then (check_fill (0 <? extra_rows r) one_row) (
  fill_then (status_fill r) (
  fill_then (column_fill r (lit "headers_json") DUCKDB_TYPE_VARCHAR
    (lit "ducknng: HTTP route headers_json column must be VARCHAR") (fun c reply =>
    mk_route_reply (rr_status reply) (ducknng_chunk_varchar_dup misread (Some c)) (rr_content_type reply)
      (rr_body reply) (rr_body_text reply))) (
  fill_then (column_fill r (lit "content_type") DUCKDB_TYPE_VARCHAR
    (lit "ducknng: HTTP route content_type column must be VARCHAR") (fun c reply =>
    mk_route_reply (rr_status reply) (rr_headers_json reply) (ducknng_chunk_varchar_dup misread (Some c))
      (rr_body reply) (rr_body_text reply))) (
  fill_then (column_fill r (lit "body") DUCKDB_TYPE_BLOB
    (lit "ducknng: HTTP route body column must be BLOB") (fun c reply =>
    mk_route_reply (rr_status reply) (rr_headers_json reply) (rr_content_type reply)
      (ducknng_chunk_blob_dup c) (rr_body_text reply))) (
  fill_then (column_fill r (lit "body_text") DUCKDB_TYPE_VARCHAR
    (lit "ducknng: HTTP route body_text column must be VARCHAR") (fun c reply =>
    mk_route_reply (rr_status reply) (rr_headers_json reply) (rr_content_type reply)
      (rr_body reply) (ducknng_chunk_varchar_dup misread (Some c)))) (
  fill_then (fun reply => check_fill (bool_decide (rr_body reply <> None) && bool_decide (rr_body_text reply <> None))%bool
    (lit "ducknng: HTTP route must return either body or body_text, not both") reply)
  content_type_fill))))))).

(** *** Static files *)

Definition ducknng_static_mime_for_ext (ext : option bytes) : bytes :=
  let other := lit "application/octet-stream" in
  match ext with
  | None => other
  | Some e =>
    if (str_eq e (lit "html") || str_eq e (lit "htm"))%bool then lit "text/html" else
    if str_eq e (lit "css") then lit "text/css" else
    if str_eq e (lit "js") then lit "application/javascript" else
    if str_eq e (lit "json") then lit "application/json" else
    if str_eq e (lit "txt") then lit "text/plain" else
    if str_eq e (lit "png") then lit "image/png" else
    if (str_eq e (lit "jpg") || str_eq e (lit "jpeg"))%bool then lit "image/jpeg" else
    if str_eq e (lit "gif") then lit "image/gif" else
    if str_eq e (lit "svg") then lit "image/svg+xml" else
    if str_eq e (lit "ico") then lit "image/x-icon" else
    if str_eq e (lit "wasm") then lit "application/wasm" else
    if str_eq e (lit "xml") then lit "application/xml" else other
  end.

Definition path_sep (c : Z) : bool := ((c =? chr "/") || (c =? BACKSLASH))%bool.

(** The rest behind the next separator: the inner loop and [if ( *p) p++]. *)
Fixpoint next_segment (p : bytes) : bytes :=
  match p with [] => [] | c :: p => if path_sep c then p else next_segment p end.

Fixpoint traversal_loop (fuel : nat) (p : bytes) : bool :=
  match fuel with
  | O => false
  | S fuel =>
    match p with
    | [] => false
    | _ =>
      if ((cur p =? chr ".") && (cur (zdrop 1 p) =? chr ".") &&
          (path_sep (cur (zdrop 2 p)) || (cur (zdrop 2 p) =? 0)))%bool
      then true else traversal_loop fuel (next_segment p)
    end
  end.

Definition ducknng_path_has_traversal (rel_path : bytes) : bool := traversal_loop (S (length rel_path)) rel_path.

Fixpoint skip_seps (p : bytes) : bytes :=
  match p with c :: rest => if path_sep c then skip_seps rest else p | [] => [] end.

(** [strncmp(path, prefix, strlen(prefix)) == 0] and the text behind. *)
Fixpoint strip_prefix (prefix path : bytes) : option bytes :=
  match prefix, path with
  | [], path => Some path
  | x :: prefix, y :: path => if x =? y then strip_prefix prefix path else None
  | _, [] => None
  end.

(** The text after the last dot. *)
Fixpoint extension (p : bytes) (ext : option bytes) : option bytes :=
  match p with [] => ext | c :: p => extension p (if c =? chr "." then Some p else ext) end.

(** What opening and reading a file gives: no such file, a size that cannot
    be told, or its bytes. *)
Inductive file := no_file | no_size | contents (b : bytes).

Definition static_relative (route_prefix : option bytes) (request_path : bytes) : bytes :=
  let rel := if nonempty route_prefix then default request_path (strip_prefix (default [] route_prefix) request_path)
    else request_path in
  match skip_seps rel with [] => lit "index.html" | rel => rel end.

Definition ducknng_serve_static_file (fs : bytes -> file) (static_dir : bytes) (route_prefix : option bytes)
    (request_path : bytes) (reply : ducknng_http_route_reply) : ducknng_http_route_reply :=
  let say status text := mk_route_reply status (rr_headers_json reply) (rr_content_type reply) (rr_body reply)
    (Some text) in
  let rel := static_relative route_prefix request_path in
  if ducknng_path_has_traversal rel then say 403 (lit "ducknng: path traversal not permitted") else
  let full_path := static_dir ++ lit "/" ++ rel in
  let mime := ducknng_static_mime_for_ext (extension full_path None) in
  match fs full_path with
  | no_file => say 404 (lit "Not Found")
  | no_size => say 500 (lit "ducknng: failed to stat static file")
  | contents b => mk_route_reply 200 (rr_headers_json reply) (Some mime) (Some b) (rr_body_text reply)
  end.

(** *** One-shot routes *)

(** What running the handler's statement gives, as in [Dispatch]. *)
Context (fs : bytes -> file) (run_route : ducknng_http_request_context -> bytes -> sql_outcome).

(** The reply as filled so far, and the message of a failure. *)
Definition ducknng_service_handle_http_route (ctx : ducknng_http_request_context) : fill := fun reply =>
  let route := hc_route ctx in
  if nonempty (static_dir_path route) then
    (ducknng_serve_static_file fs (default [] (static_dir_path route)) (Some (r_path route)) (hc_path ctx) reply, None)
  else
    match handler_sql route with
    | [] => (reply, Some (lit "ducknng: missing HTTP route execution state"))
    | sql =>
      match run_route ctx sql with
      | sql_no_scope e => (reply, Some (default (lit "ducknng: missing HTTP route execution state") e))
      | sql_failed detail =>
        (reply, Some (if nonempty detail then lit "ducknng: HTTP route handler error: " ++ default [] detail
                      else lit "ducknng: HTTP route handler error"))
      | sql_rows r => ducknng_parse_http_route_result r reply
      end
    end.

(** NNG's answer to [nng_http_res_add_header]. *)
Context (add_header_rv : bytes -> bytes -> Z) (strerror : Z -> bytes).

Definition add_response_header (r : response) (n v : bytes) : response * Z := (r ++ [res_add_header n v], add_header_rv n v).

(** The result code, the response and [*errmsg].  When the headers are refused
    the code is still that of the last NNG call, which succeeded. *)
Definition ducknng_http_route_response_alloc (reply : ducknng_http_route_reply) : Z * option response * option bytes :=
  let res := [res_set_status (u16 (rr_status reply))] in
  match (if nonempty (rr_headers_json reply)
         then ducknng_http_apply_headers_json_common add_response_header strerror (rr_headers_json reply) res
         else (res, Ok tt)) with
  | (_, Err e) => (0, None, Some e)
  | (res, Ok _) =>
    if (nonempty (rr_content_type reply) && negb (ducknng_http_header_value_is_valid (rr_content_type reply)))%bool
    then (NNG_EINVAL, None, Some (lit "ducknng: HTTP header value must not contain control characters")) else
    let res := if nonempty (rr_content_type reply)
      then res ++ [res_set_header (lit "Content-Type") (default [] (rr_content_type reply))] else res in
    let res := if (bool_decide (rr_body reply <> None) && (0 <? zlen (default [] (rr_body reply))))%bool
      then res ++ [res_copy_data (default [] (rr_body reply))]
      else if nonempty (rr_body_text reply) then res ++ [res_copy_data (default [] (rr_body_text reply))] else res in
    (0, Some res, None)
  end.
End replies.

(** ** Streamed responses *)

(** [%zx]. *)
Fixpoint hex_loop (fuel : nat) (n : Z) : bytes :=
  match fuel with
  | O => []
  | S fuel => if n <? 16 then [hex_digit n] else hex_loop fuel (n / 16) ++ [hex_digit (n mod 16)]
  end.
Definition print_hex (n : Z) : bytes := hex_loop 16 n.

(** A connection as the writers use it: what its body received so far, and
    NNG's two write operations.  A write that reports success has put all its
    bytes on the connection. *)
Class HttpConn (conn : Type) := {
  body_sent : conn -> bytes;
  write_res : conn -> response -> conn * Z;
  write_all : conn -> bytes -> conn * Z;
  write_res_body c r c' : write_res c r = (c', 0) -> body_sent c' = body_sent c;
  write_all_body c b c' : write_all c b = (c', 0) -> body_sent c' = body_sent c ++ b }.

Record stream_result := mk_stream_result { sr_columns : list (option bytes * sql_type); sr_rows : list (list sql_cell) }.

Inductive stream_outcome :=
| stream_no_scope (e : option bytes) | stream_failed (detail : option bytes) | stream_rows (r : stream_result).

Section streaming.
Context {conn : Type} `{HttpConn conn}.

Definition ducknng_http_stream_write_headers (c : conn) (status : Z) (content_type : option bytes) : conn * Z :=
  if (nonempty content_type && negb (ducknng_http_header_value_is_valid content_type))%bool then (c, NNG_EINVAL) else
  write_res c ([res_set_status status; res_set_header (lit "Transfer-Encoding") (lit "chunked")] ++
    (if nonempty content_type then [res_set_header (lit "Content-Type") (default [] content_type)] else []) ++
    [res_set_header (lit "Cache-Control") (lit "no-cache")]).

Definition ducknng_http_stream_write_chunk (c : conn) (data : bytes) : conn * Z :=
  match data with
  | [] => (c, 0)
  | _ => write_all c (print_hex (zlen data) ++ [13; 10] ++ data ++ [13; 10])
  end.

Definition ducknng_http_stream_write_terminator (c : conn) : conn * Z := write_all c (lit "0" ++ [13; 10; 13; 10]).

Definition ducknng_stream_on_chunk : conn -> bytes -> conn * Z := ducknng_http_stream_write_chunk.

Section rows.
Context {S : Type} (on_chunk : S -> bytes -> S * Z).

(** The text or bytes of a cell that is neither NULL nor of another type. *)
Definition chunk_value (type : sql_type) (cell : option sql_cell) : option bytes :=
  match type, cell with
  | DUCKDB_TYPE_VARCHAR, Some (cell_varchar s) => Some s
  | DUCKDB_TYPE_BLOB, Some (cell_blob s) => Some s
  | _, _ => None
  end.

Fixpoint rows_loop (col : option (nat * sql_type)) (rows : list (list sql_cell)) (st : S) : S * Z :=
  match rows with
  | [] => (st, 0)
  | row :: rows =>
    match col with
    | None => rows_loop col rows st
    | Some (i, type) =>
      match chunk_value type (row !! i) with
      | None => rows_loop col rows st
      | Some value =>
        let (st, rc) := on_chunk st value in
        if negb (rc =? 0) then (st, rc) else rows_loop col rows st
      end
    end
  end.

(** The chunk column, by its name. *)
Definition chunk_column (r : stream_result) : option (nat * sql_type) :=
  match find_index (fun c => match fst c with Some n => ducknng_ascii_name_equal n (lit "chunk") | None => false end)
      (sr_columns r) with
  | None => None
  | Some i => match sr_columns r !! i with Some (_, t) => Some (i, t) | None => None end
  end.

(** The state of the writer, the return code and [*errmsg]. *)
Definition ducknng_service_execute_stream_route (run_stream : ducknng_http_request_context -> bytes -> stream_outcome)
    (ctx : ducknng_http_request_context) (st : S) : S * Z * option bytes :=
  match handler_sql (hc_route ctx) with
  | [] => (st, -1, Some (lit "ducknng: missing stream route SQL"))
  | sql =>
    match run_stream ctx sql with
    | stream_no_scope e => (st, -1, Some (default (lit "ducknng: missing stream route execution state") e))
    | stream_failed detail =>
      (st, -1, Some (if nonempty detail then lit "ducknng: stream route handler error: " ++ default [] detail
                     else lit "ducknng: stream route handler error"))
    | stream_rows r =>
      match chunk_column r with
      | Some (_, t) =>
        if (bool_decide (t = DUCKDB_TYPE_VARCHAR) || bool_decide (t = DUCKDB_TYPE_BLOB))%bool
        then (rows_loop (chunk_column r) (sr_rows r) st, None)
        else (st, -1, Some (lit "ducknng: stream route chunk column must be VARCHAR or BLOB"))
      | None => (rows_loop None (sr_rows r) st, None)
      end
    end
  end.
End rows.

(** What is left of the connection, and how the request's aio ends. *)
Definition ducknng_http_serve_stream_route (run_stream : ducknng_http_request_context -> bytes -> stream_outcome)
    (hijack_rv : Z) (ctx : ducknng_http_request_context) (c : conn) : conn * http_answer :=
  if negb (hijack_rv =? 0) then (c, aio_failed hijack_rv) else
  let ct := if nonempty (stream_content_type (hc_route ctx)) then stream_content_type (hc_route ctx)
    else Some (lit "text/event-stream; charset=utf-8") in
  let (c, rv) := ducknng_http_stream_write_headers c 200 ct in
  if negb (rv =? 0) then (c, streamed (body_sent c)) else
  let '(c, _, _) := ducknng_service_execute_stream_route ducknng_stream_on_chunk run_stream ctx c in
  let (c, _) := ducknng_http_stream_write_terminator c in
  (c, streamed (body_sent c)).

(** ** Server-sent events *)

(** The loop over the message; a break starts a new data line. *)
Fixpoint sse_lines (data : bytes) : bytes :=
  match data with
  | [] => []
  | c :: data =>
    if ((c =? 13) || (c =? 10))%bool then
      match data with
      | d :: rest =>
        if ((c =? 13) && (d =? 10))%bool then 10 :: lit "data: " ++ sse_lines rest
        else 10 :: lit "data: " ++ sse_lines data
      | [] => 10 :: lit "data: "
      end
    else c :: sse_lines data
  end.

Definition sse_event (event : option bytes) (data : bytes) : bytes :=
  (if nonempty event then lit "event: " ++ default [] event ++ [10] else []) ++
  lit "data: " ++ sse_lines data ++ [10; 10].

(** The breaks counted for the size of the buffer, and that size. *)
Fixpoint sse_breaks (data : bytes) : Z :=
  match data with
  | [] => 0
  | c :: data =>
    (if ((c =? 10) || ((c =? 13) && (bool_decide (data = []) || negb (cur data =? 10))))%bool then 1 else 0)
    + sse_breaks data
  end.

Definition sse_need (event : option bytes) (data : bytes) : Z :=
  (if nonempty event then zlen (default [] event) + 8 else 0) + zlen data + (1 + sse_breaks data) * 7 + 2.

(** [valid_utf8] is DuckDB's check. *)
Definition ducknng_sql_bytes_look_text (valid_utf8 : bytes -> bool) (data : bytes) : bool :=
  match data with
  | [] => true
  | _ => (forallb (fun b => negb (b =? 0) && negb ((b <? 0x20) && negb (b =? 9) && negb (b =? 10) && negb (b =? 13)))
            data && valid_utf8 data)%bool
  end.

Definition ducknng_http_event_relay_write : conn -> bytes -> conn * Z := ducknng_http_stream_write_chunk.

Definition ducknng_http_event_relay_send (valid_utf8 : bytes -> bool) (event : option bytes) (c : conn) (data : bytes)
    : conn * Z :=
  if negb (ducknng_sql_bytes_look_text valid_utf8 data)
  then ducknng_http_event_relay_write c (lit ": skipped a message that is not UTF-8 text" ++ [10; 10]) else
  if ((SIZE_MAX / 8 <? zlen data) || (SIZE_MAX / 8 <? zlen (default [] event)))%bool then (c, NNG_EINVAL) else
  ducknng_http_event_relay_write c (sse_event event data).
End streaming.

(** ** Event subscriptions *)

Definition ducknng_validate_nng_url (url : option bytes) : result bytes unit :=
  let! parsed := ducknng_transport_url_parse url in
  if ducknng_transport_url_is_nng (Some parsed) then Ok tt
  else Err (lit "ducknng: http:// and https:// are supported by the HTTP carrier, not the NNG socket/service layer").

Definition ducknng_tls_requested : option tls_request -> bool := ducknng_http_tls_requested.

Definition ducknng_socket_validate_client_url (url : option bytes) (opts : option tls_request) : result bytes unit :=
  let! _ := ducknng_validate_nng_url url in
  let! parsed := ducknng_transport_url_parse url in
  if (ducknng_tls_requested opts && negb (bool_decide (scheme parsed = DUCKNNG_TRANSPORT_SCHEME_TLS_TCP)) &&
      negb (bool_decide (scheme parsed = DUCKNNG_TRANSPORT_SCHEME_WSS)))%bool
  then Err (lit "ducknng: TLS configuration requires a tls+tcp:// or wss:// URL") else Ok tt.

Record ducknng_http_event_subscription := mk_subscription {
  es_url : bytes; es_topic : option bytes; es_event : option bytes; es_tls : option tls_request }.

Definition ducknng_sse_field_is_valid (value : bytes) : bool :=
  forallb (fun c => negb ((c =? 13) || (c =? 10)))%bool value.

(** The registered TLS configurations, by id. *)
Definition ducknng_service_copy_tls_opts (tls_configs : list (Z * tls_request)) (id : Z) : result bytes tls_request :=
  match find_index (fun c => fst c =? id) tls_configs with
  | Some i => match tls_configs !! i with
              | Some (_, o) => Ok o | None => Err (lit "ducknng: event route tls_config_id not found") end
  | None => Err (lit "ducknng: event route tls_config_id not found")
  end.

Section events.
Context (misread : sql_cell -> option bytes) (tls_configs : list (Z * tls_request)).
Context (run_route : ducknng_http_request_context -> bytes -> sql_outcome).

(** The subscription the row of an event route asks for. *)
Definition event_row (r : sql_result) : result bytes ducknng_http_event_subscription :=
  let! url := match column_of r (lit "url") with
    | Some c =>
      if bool_decide (col_type c = DUCKDB_TYPE_VARCHAR) then Ok (ducknng_chunk_varchar_dup misread (Some c))
      else Err (lit "ducknng: event route handler must return a VARCHAR url column")
    | None => Err (lit "ducknng: event route handler must return a VARCHAR url column")
    end in
  if negb (nonempty url) then Err (lit "ducknng: event route url must not be NULL or empty") else
  let! topic := match column_of r (lit "topic") with
    | Some c =>
      if (bool_decide (col_type c = DUCKDB_TYPE_BLOB) || bool_decide (col_type c = DUCKDB_TYPE_VARCHAR))%bool
      then Ok (ducknng_chunk_blob_dup c)
      else Err (lit "ducknng: event route topic column must be BLOB or VARCHAR")
    | None => Ok None
    end in
  let! event := match column_of r (lit "event") with
    | Some c =>
      if negb (bool_decide (col_type c = DUCKDB_TYPE_VARCHAR))
      then Err (lit "ducknng: event route event column must be VARCHAR") else
      match ducknng_chunk_varchar_dup misread (Some c) with
      | Some e =>
        if (bool_decide (e = []) || negb (ducknng_sse_field_is_valid e))%bool
        then Err (lit "ducknng: event route event name must be nonempty without CR or LF") else Ok (Some e)
      | None => Ok None
      end
    | None => Ok None
    end in
  let! tls_id := match column_of r (lit "tls_config_id") with
    | Some c =>
      if bool_decide (col_type c = DUCKDB_TYPE_UBIGINT) then Ok (default 0 (ducknng_chunk_uint64_value c))
      else Err (lit "ducknng: event route tls_config_id column must be UBIGINT")
    | None => Ok 0
    end in
  let! tls := if tls_id =? 0 then Ok None else
    let! o := ducknng_service_copy_tls_opts tls_configs tls_id in Ok (Some o) in
  let! _ := ducknng_socket_validate_client_url url tls in
  Ok (mk_subscription (default [] url) topic event tls).

(** [Ok None] is the return 0: no subscription for this request. *)
Definition ducknng_service_resolve_event_route (ctx : ducknng_http_request_context)
    : result bytes (option ducknng_http_event_subscription) :=
  match handler_sql (hc_route ctx) with
  | [] => Err (lit "ducknng: missing event route execution state")
  | sql =>
    match run_route ctx sql with
    | sql_no_scope e => Err (default (lit "ducknng: missing event route execution state") e)
    | sql_failed detail =>
      Err (if nonempty detail then lit "ducknng: event route handler error: " ++ default [] detail
           else lit "ducknng: event route handler error")
    | sql_rows r =>
      if first_rows r =? 0 then Ok None else
      if ((1 <? first_rows r) || (0 <? extra_rows r))%bool
      then Err (lit "ducknng: event route handler must return at most one row") else
      let! sub := event_row r in Ok (Some sub)
    end
  end.
End events.

(** ** Requests *)

Record http_request := mk_request {
  rq_uri : option bytes; rq_method : option bytes; rq_headers : option bytes; rq_content_type : option bytes;
  rq_body : bytes; rq_tls : option conn_tls; rq_remote : option nng_sockaddr }.

(** The server: its service and routes, the path of the RPC mount, the relays
    (with the [stopping] flag) and the streams being written. *)
Record http_server := mk_http_server {
  ws_server : server; ws_routes : route_table; ws_path : option bytes; ws_relays : relay_server; active_streams : Z }.

Definition set_server (svc : server) (st : http_server) : http_server :=
  mk_http_server svc (ws_routes st) (ws_path st) (ws_relays st) (active_streams st).
Definition set_relays (rs : relay_server) (st : http_server) : http_server :=
  mk_http_server (ws_server st) (ws_routes st) (ws_path st) rs (active_streams st).
Definition set_streams (n : Z) (st : http_server) : http_server :=
  mk_http_server (ws_server st) (ws_routes st) (ws_path st) (ws_relays st) n.

Definition ducknng_http_server_stream_begin (st : http_server) : option http_server :=
  if rs_stopping (ws_relays st) then None else Some (set_streams (active_streams st + 1) st).

Definition ducknng_http_server_stream_end (st : http_server) : http_server :=
  set_streams (if 0 <? active_streams st then active_streams st - 1 else active_streams st) st.

(** [ducknng_service_end_request] on the server's service. *)
Definition end_request (st : http_server) (caller : option bytes) (reply_bytes : Z) : http_server :=
  set_server (set_load (ducknng_service_end_request (sv_load (ws_server st)) caller reply_bytes) (ws_server st)) st.

Definition reply_bytes (reply : ducknng_http_route_reply) : Z :=
  match rr_body reply with Some b => zlen b | None => zlen (default [] (rr_body_text reply)) end.

Definition say (status : Z) (text : bytes) : http_answer :=
  ducknng_http_finish_response (Some (ducknng_http_alloc_text_response status (Some text))) 0.

Section handlers.
Context (misread : sql_cell -> option bytes).
Context (run_authorizer : ducknng_authorizer_context -> bytes -> sql_outcome).
Context (run_route : ducknng_http_request_context -> bytes -> sql_outcome).
Context (run_stream : ducknng_http_request_context -> bytes -> stream_outcome).
Context (fs : bytes -> file) (tls_configs : list (Z * tls_request)).
Context (add_header_rv : bytes -> bytes -> Z) (strerror : Z -> bytes).
Context {conn : Type} `{HttpConn conn}.

(** The last part of the handler, for a request that passed every check: the
    route's own code runs and the request ends. *)
Definition run_matched_route (st : http_server) (ctx : ducknng_http_request_context) (c : conn) (hijack_rv thread_rv : Z)
    : http_server * conn * http_answer :=
  let route := hc_route ctx in
  let caller := hc_caller_identity ctx in
  if response_mode route =? DUCKNNG_HTTP_ROUTE_RESPONSE_EVENTS then
    let found := ducknng_service_resolve_event_route misread tls_configs run_route ctx in
    let st := end_request st caller 0 in
    match found with
    | Err e => (st, c, say 500 e)
    | Ok None => (st, c, say 404 (lit "ducknng: event route has no subscription for this request"))
    | Ok (Some sub) =>
      match ducknng_http_start_event_relay (ws_relays st) hijack_rv thread_rv with
      | (rs, Some e) => (set_relays rs st, c, say 503 e)
      | (rs, None) => (set_relays rs st, c, relayed)
      end
    end
  else if response_mode route =? DUCKNNG_HTTP_ROUTE_RESPONSE_STREAM then
    match ducknng_http_server_stream_begin st with
    | None => (end_request st caller 0, c, say 503 (lit "ducknng: HTTP server is stopping"))
    | Some st =>
      let (c, answer) := ducknng_http_serve_stream_route run_stream hijack_rv ctx c in
      (ducknng_http_server_stream_end (end_request st caller 0), c, answer)
    end
  else
    match ducknng_service_handle_http_route misread fs run_route ctx ducknng_http_route_reply_init with
    | (reply, Some e) => (end_request st caller (reply_bytes reply), c, say 500 e)
    | (reply, None) =>
      let st := end_request st caller (reply_bytes reply) in
      match ducknng_http_route_response_alloc add_header_rv strerror reply with
      | (rv, res, e) =>
        if negb (rv =? 0)
        then (st, c, say 500 (default (lit "ducknng: failed to build HTTP route response") e))
        else (st, c, ducknng_http_finish_response res rv)
      end
    end.

(** The checks between the route and its code. *)
Definition check_route (st : http_server) (rq : http_request) (path : bytes) (query : option bytes)
    (route : ducknng_http_route) (params : option bytes) (c : conn) (hijack_rv thread_rv : Z)
    : http_server * conn * http_answer :=
  let svc := ws_server st in
  let caller := ducknng_http_conn_verified_peer_identity (rq_tls rq) in
  let method := default (lit "GET") (rq_method rq) in
  let scheme := if tls_enabled (sv_policy svc) then DUCKNNG_TRANSPORT_SCHEME_HTTPS else DUCKNNG_TRANSPORT_SCHEME_HTTP in
  let auth_ctx := mk_auth_ctx None DUCKNNG_TRANSPORT_FAMILY_HTTP scheme (lit "http_route") caller (rq_remote rq)
    (Some method) (Some path) (rq_content_type rq) (zlen (rq_body rq)) in
  match ducknng_service_network_admission_check (sv_policy svc) caller (rq_remote rq) with
  | Some e => (st, c, say 403 e)
  | None =>
    match ducknng_service_begin_request (sv_limits svc) (sv_shutting_down svc) (sv_load svc) caller with
    | (load, Some e) => (set_server (set_load load svc) st, c, say 503 e)
    | (load, None) =>
      let st := set_server (set_load load svc) st in
      let (rc, decision) := ducknng_service_authorize_request misread run_authorizer (sv_policy svc) auth_ctx
        ducknng_authorizer_decision_init in
      if negb (rc =? 0) then
        let status := if ((100 <=? d_http_status decision) && (d_http_status decision <=? 599))%bool
          then d_http_status decision else 403 in
        (end_request st caller 0, c, say status (default (lit "ducknng: request is not authorized") (d_reason decision)))
      else
        match route_auth_check route caller with
        | Some (status, text) => (end_request st caller 0, c, say status text)
        | None =>
          run_matched_route st (mk_http_ctx scheme method path query (rq_content_type rq)
            (ducknng_http_request_headers_json_dup (rq_headers rq)) (rq_body rq) params caller (rq_remote rq) route)
            c hijack_rv thread_rv
        end
    end
  end.

Definition ducknng_http_route_handler (st : http_server) (rq : http_request) (c : conn) (hijack_rv thread_rv : Z)
    : http_server * conn * http_answer :=
  if (rs_stopping (ws_relays st) || sv_shutting_down (ws_server st))%bool
  then (st, c, say 503 (lit "ducknng: HTTP server is stopping")) else
  let (path, query) := ducknng_http_split_uri (default (lit "/") (rq_uri rq)) in
  if bool_decide (ws_path st = Some path)
  then (st, c, say 405 (lit "ducknng: framed RPC mount accepts POST only")) else
  match ducknng_service_lookup_http_route (ws_routes st) (Some (default (lit "GET") (rq_method rq))) (Some path) with
  | Err e => (st, c, say 500 e)
  | Ok None => (st, c, say 404 (lit "ducknng: HTTP route not found"))
  | Ok (Some (route, params)) =>
    if ((0 <? request_max_bytes route) && (request_max_bytes route <? zlen (rq_body rq)))%bool
    then (st, c, say 413 (lit "ducknng: HTTP route request body too large"))
    else check_route st rq path query route params c hijack_rv thread_rv
  end.

(** The framed RPC mount. *)
Context (alloc : Z -> option bytes).
Context (run_handler : server -> ducknng_method_descriptor -> ducknng_request_context ->
  server * Z * ducknng_method_reply).

Definition ducknng_http_rpc_handler (st : http_server) (rq : http_request) (now_ms : Z) : http_server * http_answer :=
  if (rs_stopping (ws_relays st) || sv_shutting_down (ws_server st))%bool
  then (st, say 503 (lit "ducknng: HTTP server is stopping")) else
  if negb (ducknng_http_content_type_is_frame (rq_content_type rq))
  then (st, say 415 (lit "ducknng: expected Content-Type application/vnd.ducknng.frame")) else
  let caller := ducknng_http_conn_verified_peer_identity (rq_tls rq) in
  let scheme := if tls_enabled (sv_policy (ws_server st)) then DUCKNNG_TRANSPORT_SCHEME_HTTPS
    else DUCKNNG_TRANSPORT_SCHEME_HTTP in
  match ducknng_service_authorize_and_dispatch_frame alloc run_handler misread run_authorizer (ws_server st)
      (Some (rq_body rq)) (zlen (rq_body rq)) caller (rq_remote rq) scheme (Some (lit "POST")) (ws_path st)
      (rq_content_type rq) now_ms with
  | (svc, (None, status, e)) => (set_server svc st, say status (default (lit "ducknng: failed to dispatch request") e))
  | (svc, (Some msg, _, _)) =>
    (set_server svc st, ducknng_http_finish_response (Some (ducknng_http_alloc_frame_response msg)) 0)
  end.
End handlers.

(** ** Static files stay below their directory *)

(** The segments of a path, between slashes of either kind. *)
Fixpoint segments (p : bytes) : list bytes :=
  match p with
  | [] => [[]]
  | c :: p =>
    if path_sep c then [] :: segments p
    else match segments p with s :: ss => (c :: s) :: ss | [] => [[c]] end
  end.

Definition dotdot : bytes := [46; 46].

(** A path that names nothing above [dir]. *)
Definition below (dir p : bytes) : Prop := exists rel, p = dir ++ lit "/" ++ rel /\ dotdot ∉ segments rel.

(** The first segment of a path and what follows it. *)
Lemma first_segment p : exists s, forallb (fun c => negb (path_sep c)) s = true /\
  ((p = s /\ segments p = [s] /\ next_segment p = []) \/
   exists c q, path_sep c = true /\ p = s ++ c :: q /\ segments p = s :: segments q /\ next_segment p = q).
Proof.
  induction p as [|c p (s & Hs & IH)]; [by exists []; auto|]. cbn [segments next_segment].
  destruct (path_sep c) eqn:Ec.
  - exists []. split; [done|]. right. by exists c, p.
  - exists (c :: s). split; [cbn [forallb]; by rewrite Ec, Hs|].
    destruct IH as [(-> & -> & ->)|(d & q & Hd & -> & -> & ->)]; [by left|]. right. by exists d, q.
Qed.

Definition dotdot_test (p : bytes) : bool :=
  ((cur p =? chr ".") && (cur (zdrop 1 p) =? chr ".") && (path_sep (cur (zdrop 2 p)) || (cur (zdrop 2 p) =? 0)))%bool.

Lemma dotdot_head s rest : cstr s -> forallb (fun c => negb (path_sep c)) s = true ->
  (rest = [] \/ path_sep (cur rest) = true) -> dotdot_test (s ++ rest) = bool_decide (s = dotdot).
Proof.
  intros Hz Hs Hr. unfold dotdot_test. change (chr ".") with 46.
  assert (forall c, path_sep c = true -> (c =? 46) = false) as Hsep by (intros c Hc; by destruct (Z.eqb_spec c 46) as [->|]).
  assert (cur rest =? 46 = false) as Hr46 by (destruct Hr as [->|]; [done|by apply Hsep]).
  destruct s as [|a [|b [|x s]]]; cbn [app].
  - rewrite Hr46. by rewrite bool_decide_eq_false_2.
  - change (zdrop 1 (a :: rest)) with rest. rewrite Hr46, andb_false_r. by rewrite bool_decide_eq_false_2.
  - change (zdrop 1 (a :: b :: rest)) with (b :: rest). change (zdrop 2 (a :: b :: rest)) with rest. cbn [cur].
    assert ((path_sep (cur rest) || (cur rest =? 0))%bool = true) as ->.
    { destruct Hr as [->|Hc]; [done|]. by rewrite Hc. }
    rewrite andb_true_r. destruct (Z.eqb_spec a 46) as [->|], (Z.eqb_spec b 46) as [->|];
      [by rewrite bool_decide_eq_true_2|..]; rewrite bool_decide_eq_false_2; try done; unfold dotdot; congruence.
  - change (zdrop 1 (a :: b :: x :: s ++ rest)) with (b :: x :: s ++ rest).
    change (zdrop 2 (a :: b :: x :: s ++ rest)) with (x :: s ++ rest). cbn [cur].
    rewrite bool_decide_eq_false_2 by done. cbn [forallb] in Hs. apply andb_true_iff in Hs as [_ [_ [Hx _]%andb_true_iff]%andb_true_iff].
    apply negb_true_iff in Hx. rewrite Hx. destruct (Z.eqb_spec x 0) as [->|]; [|by rewrite andb_false_r].
    exfalso. do 2 apply Forall_cons in Hz as [_ Hz]. apply Forall_cons in Hz as [Hz _]. unfold is_char in Hz. lia.
Qed.

Lemma traversal_exact p : cstr p -> ducknng_path_has_traversal p = bool_decide (dotdot ∈ segments p).
Proof.
  intros Hp. unfold ducknng_path_has_traversal.
  assert (forall fuel p, cstr p -> (length p < fuel)%nat -> traversal_loop fuel p = bool_decide (dotdot ∈ segments p)) as H;
    [|apply H; [done|lia]].
  clear p Hp. induction fuel as [|fuel IH]; intros p Hp Hf; [lia|]. cbn [traversal_loop].
  destruct p as [|a p']; [by rewrite bool_decide_eq_false_2 by (intros [|]%elem_of_cons; [done|set_solver])|].
  set (p := a :: p') in *. change (_ && _ && _)%bool with (dotdot_test p).
  destruct (first_segment p) as (s & Hs & [(E & Es & En)|(c & q & Hc & E & Es & En)]); rewrite Es, En.
  - pose proof (dotdot_head s [] ltac:(by rewrite <- E) Hs ltac:(by left)) as Hd. rewrite app_nil_r, <- E in Hd.
    rewrite Hd. rewrite E in Hd |- *. assert (traversal_loop fuel [] = false) as -> by by destruct fuel.
    destruct (bool_decide (s = dotdot)) eqn:Eb.
    + apply bool_decide_eq_true in Eb. subst s. symmetry. apply bool_decide_eq_true_2. set_solver.
    + apply bool_decide_eq_false in Eb. symmetry. apply bool_decide_eq_false_2. intros Hin%list_elem_of_singleton. congruence.
  - rewrite E in Hp. apply Forall_app in Hp as [Hps [Hpc Hpq]%Forall_cons].
    rewrite E, (dotdot_head s (c :: q)) by (done || by right).
    rewrite IH; [|done|rewrite E, length_app in Hf; cbn in Hf; lia].
    destruct (bool_decide (s = dotdot)) eqn:Eb.
    + apply bool_decide_eq_true in Eb. symmetry. apply bool_decide_eq_true_2. subst. set_solver.
    + apply bool_decide_eq_false in Eb. apply bool_decide_ext. rewrite elem_of_cons. naive_solver.
Qed.

Lemma suffix_cstr s t : cstr (s ++ t) -> cstr t.
Proof. intros [_ H]%Forall_app. done. Qed.

Lemma strip_prefix_cstr prefix path rest : strip_prefix prefix path = Some rest -> cstr path -> cstr rest.
Proof.
  revert path. induction prefix as [|x prefix IH]; intros path; cbn; [by intros [= ->]|].
  destruct path as [|y path]; [done|]. destruct (x =? y); [|done]. intros E [_ ?]%Forall_cons. by eapply IH.
Qed.

Lemma skip_seps_cstr p : cstr p -> cstr (skip_seps p).
Proof. induction 1; [done|]. cbn. destruct (path_sep x); [done|by constructor]. Qed.

Lemma static_relative_cstr prefix path : cstr path -> cstr (static_relative prefix path).
Proof.
  intros Hp. unfold static_relative. set (rel := if nonempty prefix then _ else _).
  assert (cstr rel) as Hr.
  { unfold rel. destruct (nonempty prefix); [|done]. destruct (strip_prefix _ path) eqn:E; [|done].
    cbn. by eapply strip_prefix_cstr. }
  apply skip_seps_cstr in Hr. destruct (skip_seps rel); [|done]. apply (bool_decide_unpack _). by vm_compute.
Qed.

(** C35. A static route never reads above its directory.  A request whose path
    below the route has a [..] segment, between slashes of either kind, is
    answered 403 without touching the file system; every other request is
    answered from a path below the directory, so the reply is the same for
    any two file systems that agree below it. *)
Theorem static_file_confined fs1 fs2 dir prefix path reply : cstr path ->
  (forall p, below dir p -> fs1 p = fs2 p) ->
  ducknng_serve_static_file fs1 dir prefix path reply = ducknng_serve_static_file fs2 dir prefix path reply /\
  (dotdot ∈ segments (static_relative prefix path) ->
   rr_status (ducknng_serve_static_file fs1 dir prefix path reply) = 403 /\
   rr_body (ducknng_serve_static_file fs1 dir prefix path reply) = rr_body reply).
Proof.
  intros Hp Hfs. unfold ducknng_serve_static_file. rewrite traversal_exact by by apply static_relative_cstr.
  destruct (bool_decide _) eqn:E; [done|]. apply bool_decide_eq_false in E.
  rewrite (Hfs (dir ++ lit "/" ++ static_relative prefix path)) by (by eexists). done.
Qed.

Lemma static_file_confined_witness :
  rr_status (ducknng_serve_static_file (fun _ => contents []) (lit "/srv") (Some (lit "/s")) (lit "/s/a/../../etc")
    ducknng_http_route_reply_init) = 403.
Proof.
  apply (static_file_confined (fun _ => contents []) (fun _ => contents []) (lit "/srv") (Some (lit "/s"))
    (lit "/s/a/../../etc") ducknng_http_route_reply_init).
  - apply (bool_decide_unpack _); vm_compute; exact I.
  - intros p _. reflexivity.
  - apply (bool_decide_unpack _); vm_compute; exact I.
Defined.

(** ** A streamed response against the client's decoder *)

Lemma chunk_digit_hex d : 0 <= d < 16 -> chunk_digit (hex_digit d) = Some d /\ (hex_digit d =? chr ";") = false.
Proof.
  intros Hd. unfold hex_digit, chunk_digit. change (chr ";") with 59. destruct (Z.ltb_spec d 10).
  - assert (((48 <=? 48 + d) && (48 + d <=? 57))%bool = true) as -> by lia. split; [f_equal|]; lia.
  - assert (((48 <=? 87 + d) && (87 + d <=? 57))%bool = false) as -> by lia.
    assert (((97 <=? 87 + d) && (87 + d <=? 102))%bool = true) as -> by lia. split; [f_equal|]; lia.
Qed.

Lemma hex_loop_read fuel n rest : 0 <= n < 16 ^ Z.of_nat fuel -> n <= UINT64_MAX -> (0 < fuel)%nat ->
  exists k, 0 < k /\ chunk_size_loop (hex_loop fuel n ++ rest) 0 0 = chunk_size_loop rest n k.
Proof.
  revert n rest. induction fuel as [|fuel IH]; intros n rest Hn Hm Hf; [lia|]. cbn [hex_loop].
  destruct (Z.ltb_spec n 16).
  - exists 1. split; [lia|]. cbn [app chunk_size_loop]. destruct (chunk_digit_hex n) as [-> ->]; [lia|].
    replace ((UINT64_MAX - n) / 16 <? 0) with false by (symmetry; apply Z.ltb_ge, Z.div_pos; lia). f_equal; lia.
  - rewrite Nat2Z.inj_succ, Z.pow_succ_r in Hn by lia. rewrite <- app_assoc.
    pose proof (Z.div_mod n 16 ltac:(done)). pose proof (Z.mod_pos_bound n 16 ltac:(done)).
    destruct (IH (n / 16) ([hex_digit (n mod 16)] ++ rest)) as (k & Hk & ->).
    { split; [apply Z.div_pos; lia|apply Z.div_lt_upper_bound; lia]. }
    { lia. }
    { destruct fuel; [cbn in Hn; lia|lia]. }
    exists (k + 1). split; [lia|]. cbn [app chunk_size_loop]. destruct (chunk_digit_hex (n mod 16)) as [-> ->]; [lia|].
    replace ((UINT64_MAX - n mod 16) / 16 <? n / 16) with false
      by (symmetry; apply Z.ltb_ge, Z.div_le_lower_bound; lia). f_equal; lia.
Qed.

Lemma hex_loop_line fuel n : 0 <= n -> Forall lower_hex (hex_loop fuel n) /\ zlen (hex_loop fuel n) <= Z.of_nat fuel.
Proof.
  revert n. induction fuel as [|fuel IH]; intros n Hn; cbn [hex_loop]; [by change (zlen []) with 0|].
  destruct (Z.ltb_spec n 16).
  - split; [constructor; [apply hex_digit_lower; lia|done]|]. change (zlen [hex_digit n]) with 1. lia.
  - destruct (IH (n / 16)) as [Hl Hz]; [apply Z.div_pos; lia|]. split.
    + apply Forall_app_2; [done|]. constructor; [|done]. apply hex_digit_lower, Z.mod_pos_bound; lia.
    + rewrite zlen_app. change (zlen [hex_digit (n mod 16)]) with 1. lia.
Qed.

Lemma read_line_hex s ln tail : Forall lower_hex s -> zlen ln + zlen s <= DUCKNNG_HTTP_STREAM_LINE_MAX ->
  ducknng_http_stream_read_line (s ++ crlf ++ tail) ln false = Ok (tail, ln ++ s, false, true).
Proof.
  intros Hs. revert ln. induction Hs as [|c s Hc Hs IH]; intros ln Hl.
  - cbn. by rewrite app_nil_r.
  - rewrite zlen_cons in Hl. pose proof (zlen_nonneg s). cbn [app ducknng_http_stream_read_line].
    unfold lower_hex in Hc.
    assert (c =? 13 = false) as -> by lia. assert (c =? 10 = false) as -> by lia.
    assert ((((c <? 0x20) && negb (c =? 9)) || (c =? 0x7f))%bool = false) as -> by lia.
    replace (DUCKNNG_HTTP_STREAM_LINE_MAX <=? zlen ln) with false by (symmetry; apply Z.leb_gt; lia).
    rewrite IH by (rewrite zlen_app, zlen_cons; change (zlen []) with 0; lia). by rewrite <- app_assoc.
Qed.

(** The decoder between two chunks. *)
Definition at_size (f : framing) : Prop :=
  chunked f /\ chunk_state f = DUCKNNG_HTTP_STREAM_CHUNK_SIZE /\ line f = [] /\ line_saw_cr f = false.

Lemma feed_size_line f s tail : at_size f -> Forall lower_hex s -> zlen s <= DUCKNNG_HTTP_STREAM_LINE_MAX ->
  feed f (s ++ crlf ++ tail) =
    let! f' := ducknng_http_stream_parse_chunk_size (set_chunk (chunk_state f) (chunk_remaining f) s false
      (data_crlf_pos f) f) in feed f' tail.
Proof.
  intros (Hm & Hc & Hl & Hcr) Hs Hz.
  pose proof (feed_line (s ++ crlf ++ tail) f Hm (or_introl Hc)) as H. rewrite Hl, Hcr in H.
  rewrite read_line_hex in H by (done || change (zlen []) with 0; lia). destruct H as (p & Hp & _ & Hf).
  rewrite app_assoc in Hp. apply app_inv_tail in Hp. specialize (Hf tail). rewrite <- Hp in Hf. rewrite app_assoc, Hf.
  unfold line_done. cbn [chunk_state set_chunk app]. rewrite Hc. by destruct (ducknng_http_stream_parse_chunk_size _).
Qed.

Lemma feed_chunk_end f : chunked f -> chunk_state f = DUCKNNG_HTTP_STREAM_CHUNK_DATA_CRLF -> line f = [] ->
  line_saw_cr f = false -> data_crlf_pos f = 0 -> exists f', at_size f' /\ feed f crlf = Ok (f', [], false, []).
Proof.
  destruct f as [m cr st n ln scr pos]. unfold chunked. cbn. intros -> -> -> -> ->.
  exists (mk_framing DUCKNNG_HTTP_STREAM_BODY_CHUNKED cr DUCKNNG_HTTP_STREAM_CHUNK_SIZE n [] false 2). done.
Qed.

Lemma feed_chunk f v : at_size f -> v <> [] -> zlen v <= UINT64_MAX ->
  exists f', at_size f' /\ feed f (print_hex (zlen v) ++ crlf ++ v ++ crlf) = Ok (f', v, false, []).
Proof.
  intros Hf Hv Hz. pose proof (zlen_nonneg v).
  assert (0 < zlen v) as Hpos by (destruct v; [done|]; rewrite zlen_cons; pose proof (zlen_nonneg v); lia).
  destruct (hex_loop_line 16 (zlen v)) as [Hhex Hlen]; [done|].
  rewrite feed_size_line; [|done|exact Hhex|unfold DUCKNNG_HTTP_STREAM_LINE_MAX, print_hex; lia].
  unfold ducknng_http_stream_parse_chunk_size. cbn [line set_chunk].
  destruct (hex_loop_read 16 (zlen v) []) as (k & Hk & Hr);
    [unfold UINT64_MAX in Hz; change (16 ^ Z.of_nat 16) with (2 ^ 64); lia|done|lia|].
  rewrite app_nil_r in Hr. unfold print_hex. rewrite Hr. cbn [chunk_size_loop res_bind].
  replace (k =? 0) with false by lia. replace (zlen v =? 0) with false by lia. cbn [res_bind].
  set (g := set_chunk DUCKNNG_HTTP_STREAM_CHUNK_DATA _ _ _ _ _).
  destruct Hf as (Hm & Hc & Hl & Hcr).
  erewrite (feed_more g v); [|apply feed_data; [exact Hm|done|done|cbn; lia]].
  unfold after_data. cbn [chunk_remaining g set_chunk]. rewrite Z.sub_diag. cbn [Z.eqb].
  match goal with |- context [feed ?h crlf] => destruct (feed_chunk_end h) as (f' & Hf' & ->); try done end.
  exists f'. split; [done|]. cbn [res_bind]. by rewrite app_nil_r.
Qed.

Lemma feed_terminator f : at_size f -> exists f', feed f (lit "0" ++ [13; 10; 13; 10]) = Ok (f', [], true, []).
Proof.
  destruct f as [m cr st n ln scr pos]. intros (Hm & Hc & Hl & Hcr). unfold chunked in Hm. cbn in Hm, Hc, Hl, Hcr.
  subst. by eexists.
Qed.

(** The values a stream route sends, joined: those of the [chunk] column. *)
Definition stream_values (sql : bytes) (o : stream_outcome) : list bytes :=
  match sql, o with
  | _ :: _, stream_rows r =>
    match chunk_column r with
    | Some (i, type) => omap (fun row : list sql_cell => chunk_value type (row !! i)) (sr_rows r)
    | None => []
    end
  | _, _ => []
  end.

Section reliable.
Context {conn : Type} `{HttpConn conn}.
Context (reliable_res : forall c r, (write_res c r).2 = 0) (reliable_all : forall c b, (write_all c b).2 = 0).

Lemma write_all_reliable (c : conn) b : exists c', write_all c b = (c', 0) /\ body_sent c' = body_sent c ++ b.
Proof.
  pose proof (reliable_all c b). destruct (write_all c b) as [c' rv] eqn:E. cbn in *. subst rv.
  exists c'. split; [done|]. by apply write_all_body.
Qed.

(** A decoder that was between two chunks has received the values. *)
Definition delivers (c : conn) (f : framing) (values : list bytes) (c' : conn) : Prop :=
  exists text f', at_size f' /\ body_sent c' = body_sent c ++ text /\ feed f text = Ok (f', concat values, false, []).

Lemma delivers_nil c f : at_size f -> delivers c f [] c.
Proof. intros Hf. exists [], f. by rewrite app_nil_r. Qed.

Lemma write_chunk_delivers c f v : at_size f -> zlen v <= UINT64_MAX ->
  exists c', ducknng_http_stream_write_chunk c v = (c', 0) /\ delivers c f [v] c'.
Proof.
  intros Hf Hv. unfold ducknng_http_stream_write_chunk. destruct v as [|x v'].
  - exists c. split; [done|]. exists [], f. cbn. by rewrite app_nil_r.
  - set (v := x :: v') in *. destruct (feed_chunk f v) as (f' & Hf' & Hfeed); [done..|].
    destruct (write_all_reliable c (print_hex (zlen v) ++ crlf ++ v ++ crlf)) as (c' & E & Hb).
    exists c'. split; [exact E|]. exists (print_hex (zlen v) ++ crlf ++ v ++ crlf), f'. cbn [concat]. by rewrite app_nil_r.
Qed.

Lemma delivers_trans c f vs ws c1 c2 f1 text : body_sent c1 = body_sent c ++ text ->
  feed f text = Ok (f1, concat vs, false, []) -> delivers c1 f1 ws c2 -> delivers c f (vs ++ ws) c2.
Proof.
  intros Hb Hf (text2 & f2 & Hf2 & Hb2 & Hfeed). exists (text ++ text2), f2. split; [done|].
  rewrite Hb2, Hb, app_assoc. split; [done|]. rewrite (feed_more f text text2 f1 (concat vs) Hf), Hfeed.
  cbn. by rewrite concat_app.
Qed.

Lemma rows_delivers i type rows c f : at_size f ->
  Forall (fun v => zlen v <= UINT64_MAX) (omap (fun row : list sql_cell => chunk_value type (row !! i)) rows) ->
  exists c', rows_loop ducknng_stream_on_chunk (Some (i, type)) rows c = (c', 0) /\
    delivers c f (omap (fun row : list sql_cell => chunk_value type (row !! i)) rows) c'.
Proof.
  revert c f. induction rows as [|row rows IH]; intros c f Hf Hz; [exists c; split; [done|by apply delivers_nil]|].
  cbn [rows_loop]. cbn in Hz |- *. destruct (chunk_value type (row !! i)) as [v|]; [|by apply IH].
  apply Forall_cons in Hz as [Hv Hz]. destruct (write_chunk_delivers c f v Hf Hv) as (c1 & E & text & f1 & Hf1 & Hb & Hfeed).
  unfold ducknng_stream_on_chunk at 1. rewrite E. cbn [Z.eqb negb]. destruct (IH c1 f1 Hf1 Hz) as (c2 & E2 & Hd).
  exists c2. split; [done|]. change (v :: ?l) with ([v] ++ l). by eapply delivers_trans.
Qed.

Lemma execute_delivers run_stream ctx c f : at_size f ->
  let values := stream_values (handler_sql (hc_route ctx)) (run_stream ctx (handler_sql (hc_route ctx))) in
  Forall (fun v => zlen v <= UINT64_MAX) values ->
  delivers c f values (ducknng_service_execute_stream_route ducknng_stream_on_chunk run_stream ctx c).1.1.
Proof.
  intros Hf values Hz. subst values. unfold ducknng_service_execute_stream_route, stream_values in *.
  destruct (handler_sql (hc_route ctx)) as [|x sql]; [by apply delivers_nil|].
  destruct (run_stream ctx (x :: sql)) as [| |r]; [by apply delivers_nil..|].
  destruct (chunk_column r) as [[i type]|] eqn:Ec.
  - destruct (rows_delivers i type (sr_rows r) c f Hf Hz) as (c' & E & Hd).
    destruct type; cbn; rewrite ?E; try exact Hd;
      (replace (omap _ _) with (@nil bytes); [by apply delivers_nil|]);
      clear; induction (sr_rows r); cbn; done.
  - cbn. replace (rows_loop _ None (sr_rows r) c) with (c, 0); [by apply delivers_nil|].
    clear. by induction (sr_rows r).
Qed.

End reliable.

(** A connection that keeps everything written to it. *)
#[global] Instance recording_conn : HttpConn (list res_call * bytes).
Proof.
  refine {| body_sent c := c.2; write_res c r := ((c.1 ++ r, c.2), 0); write_all c b := ((c.1, c.2 ++ b), 0) |}.
  - intros [] ? ? [= <-]. done.
  - intros [] ? ? [= <-]. done.
Defined.

Definition demo_route (mode : Z) (sql : string) : ducknng_http_route :=
  mk_route 1 DUCKNNG_HTTP_ROUTE_MATCH_EXACT mode (lit "GET") (lit "/feed") (lit sql) 0 None None 0 0 None.

Definition demo_ctx (mode : Z) (sql : string) : ducknng_http_request_context :=
  mk_http_ctx DUCKNNG_TRANSPORT_SCHEME_HTTP (lit "GET") (lit "/feed") None None [] [] None None None (demo_route mode sql).

Definition demo_stream (ctx : ducknng_http_request_context) (sql : bytes) : stream_outcome :=
  stream_rows (mk_stream_result [(Some (lit "n"), DUCKDB_TYPE_INTEGER); (Some (lit "Chunk"), DUCKDB_TYPE_VARCHAR)]
    [[cell_int 1; cell_varchar (lit "hello, ")]; [cell_int 2; cell_null]; [cell_int 3; cell_varchar (lit "world")]]).

Definition demo_sent : bytes :=
  body_sent (ducknng_http_serve_stream_route demo_stream 0 (demo_ctx DUCKNNG_HTTP_ROUTE_RESPONSE_STREAM "FROM t")
    (([], []) : list res_call * bytes)).1.


(** ** Server-sent events *)

Module Sse.

(** A reader of an event stream: lines end with CRLF, CR or LF; a field is
    a name, a colon and a value with one leading space dropped; an empty line
    dispatches the data lines gathered so far, joined by LF, with the name of
    the last [event] field; other fields and comments are ignored, and so is a
    last line that has not ended. *)
Fixpoint text_lines (p : bytes) : list bytes :=
  match p with
  | [] => [[]]
  | c :: p =>
    if ((c =? 13) && (cur p =? 10))%bool then text_lines p
    else if ((c =? 13) || (c =? 10))%bool then [] :: text_lines p
    else match text_lines p with l :: ls => (c :: l) :: ls | [] => [[c]] end
  end.

Fixpoint field (l : bytes) : bytes * bytes :=
  match l with
  | [] => ([], [])
  | c :: l => if c =? chr ":" then ([], if cur l =? 32 then zdrop 1 l else l)
    else let (name, value) := field l in (c :: name, value)
  end.

Definition join_data (data : option bytes) (v : bytes) : bytes :=
  match data with None => v | Some d => d ++ [10] ++ v end.

Fixpoint events (lines : list bytes) (name data : option bytes) : list (option bytes * bytes) :=
  match lines with
  | [] => []
  | l :: rest =>
    match rest with
    | [] => []
    | _ =>
      match l with
      | [] => match data with Some d => (name, d) :: events rest None None | None => events rest None None end
      | _ =>
        let (f, v) := field l in
        if str_eq f (lit "data") then events rest name (Some (join_data data v))
        else if str_eq f (lit "event") then events rest (Some v) data
        else events rest name data
      end
    end
  end.

Definition parse (text : bytes) : list (option bytes * bytes) := events (text_lines text) None None.

(** A message with every line end written as LF. *)
Definition lf_lines (data : bytes) : bytes :=
  match text_lines data with [] => [] | l :: ls => foldl (fun acc l => acc ++ [10] ++ l) l ls end.

Definition unbroken (l : bytes) : Prop := Forall (fun c => c <> 13 /\ c <> 10) l.

Lemma lines_cons p : exists l ls, text_lines p = l :: ls.
Proof.
  induction p as [|c p (l & ls & E)]; [by repeat eexists|]. cbn [text_lines]. rewrite E.
  destruct (_ && _)%bool; [by repeat eexists|]. destruct (_ || _)%bool; by repeat eexists.
Qed.

Lemma lines_end l rest : unbroken l -> text_lines (l ++ 10 :: rest) = l :: text_lines rest.
Proof.
  induction 1 as [|c l [H1 H2] Hl IH]; [done|]. cbn [app text_lines]. rewrite IH.
  apply Z.eqb_neq in H1, H2. by rewrite H1, H2.
Qed.

Lemma sse_lines_cons c d : sse_lines (c :: d) =
  if ((c =? 13) && (cur d =? 10))%bool then sse_lines d
  else if ((c =? 13) || (c =? 10))%bool then 10 :: lit "data: " ++ sse_lines d else c :: sse_lines d.
Proof.
  cbn [sse_lines]. destruct (c =? 13) eqn:E13, d as [|x d]; cbn [cur orb andb]; try done.
  destruct (Z.eqb_spec x 10) as [->|]; [|done]. cbn [sse_lines Z.eqb orb andb]. by destruct d.
Qed.

Lemma sse_lines_split l d rest : unbroken l ->
  text_lines (l ++ sse_lines d ++ 10 :: rest) =
  match text_lines d with x :: xs => (l ++ x) :: ((fun y => lit "data: " ++ y) <$> xs) ++ text_lines rest | [] => [] end.
Proof.
  revert l. induction d as [|c d IH]; intros l Hl.
  - cbn [sse_lines app text_lines]. rewrite lines_end, app_nil_r by done. done.
  - rewrite sse_lines_cons. cbn [text_lines]. destruct (_ && _)%bool; [by apply IH|].
    destruct (_ || _)%bool eqn:Eb.
    + change ((10 :: lit "data: " ++ sse_lines d) ++ 10 :: rest) with (10 :: lit "data: " ++ sse_lines d ++ 10 :: rest).
      rewrite lines_end by done. rewrite IH by (apply (bool_decide_unpack _); by vm_compute).
      destruct (lines_cons d) as (x & xs & ->). by rewrite app_nil_r.
    + apply orb_false_iff in Eb as [E1 E2]. apply Z.eqb_neq in E1, E2.
      change (l ++ (c :: sse_lines d) ++ 10 :: rest) with (l ++ [c] ++ sse_lines d ++ 10 :: rest).
      rewrite app_assoc, IH by (apply Forall_app; split; [done|by repeat constructor]).
      destruct (lines_cons d) as (x & xs & ->). by rewrite <- app_assoc.
Qed.

Lemma events_data v rest name data : rest <> [] ->
  events ((lit "data: " ++ v) :: rest) name data = events rest name (Some (join_data data v)).
Proof. intros Hr. destruct rest; [done|]. done. Qed.

Lemma events_datas xs rest name d : rest <> [] ->
  events (((fun y => lit "data: " ++ y) <$> xs) ++ rest) name (Some d) =
  events rest name (Some (foldl (fun acc l => acc ++ [10] ++ l) d xs)).
Proof.
  intros Hr. revert d. induction xs as [|x xs IH]; intros d; [done|]. rewrite fmap_cons. cbn [app].
  rewrite events_data by (by destruct xs). apply IH.
Qed.

Lemma parse_event e d rest : (forall n, e = Some n -> n <> [] /\ ducknng_sse_field_is_valid n = true) ->
  parse (sse_event e d ++ rest) = (e, lf_lines d) :: parse rest.
Proof.
  intros He. unfold parse, sse_event.
  assert (events (text_lines (lit "data: " ++ sse_lines d ++ 10 :: 10 :: rest)) e None =
    (e, lf_lines d) :: events (text_lines rest) None None) as Hd.
  { rewrite sse_lines_split by (apply (bool_decide_unpack _); by vm_compute). unfold lf_lines.
    destruct (lines_cons d) as (x & xs & ->), (lines_cons (10 :: rest)) as (y & ys & E).
    rewrite events_data by (rewrite E; by destruct xs). rewrite events_datas by (by rewrite E).
    cbn [text_lines Z.eqb andb orb join_data]. destruct (lines_cons rest) as (z & zs & ->). done. }
  destruct e as [n|]; cbn [nonempty default].
  - destruct (He n eq_refl) as [Hn Hv]. destruct n as [|a n]; [done|]. cbn [nonempty].
    replace ((_ ++ _) ++ rest) with ((lit "event: " ++ a :: n) ++ 10 :: lit "data: " ++ sse_lines d ++ 10 :: 10 :: rest)
      by (cbn [default from_option]; by rewrite <- !app_assoc).
    rewrite lines_end.
    + destruct (lines_cons (lit "data: " ++ sse_lines d ++ 10 :: 10 :: rest)) as (l & ls & E). rewrite E in Hd |- *.
      exact Hd.
    + apply Forall_app. split; [apply (bool_decide_unpack _); by vm_compute|].
      unfold ducknng_sse_field_is_valid in Hv. rewrite forallb_forall in Hv. apply Forall_forall. intros c Hc%list_elem_of_In%Hv.
      lia.
  - replace (([] ++ _) ++ rest) with (lit "data: " ++ sse_lines d ++ 10 :: 10 :: rest) by (cbn [app]; by rewrite <- !app_assoc).
    exact Hd.
Qed.
End Sse.

Lemma sse_lines_size d : zlen (sse_lines d) <= zlen d + 6 * sse_breaks d.
Proof.
  induction d as [|c d IH]; [done|]. rewrite Sse.sse_lines_cons, zlen_cons. cbn [sse_breaks].
  assert (forall a l, zlen (a :: lit "data: " ++ l) = 7 + zlen l) as Hz.
  { intros a l. rewrite zlen_cons, zlen_app. change (zlen (lit "data: ")) with 6. lia. }
  destruct (c =? 13) eqn:E13, (c =? 10) eqn:E10; cbn [andb orb]; try (rewrite Hz || rewrite zlen_cons; lia); [lia|].
  destruct d as [|x d]; [by vm_compute|]. rewrite bool_decide_eq_false_2 by done. cbn [cur orb].
  destruct (x =? 10); [cbn [negb]; lia|rewrite Hz; cbn [negb]; lia].
Qed.

Lemma sse_breaks_nonneg d : 0 <= sse_breaks d.
Proof. induction d as [|c d IH]; cbn [sse_breaks]; [done|]. destruct (_ || _)%bool; lia. Qed.

Lemma sse_event_fits e d : zlen (sse_event e d) <= sse_need e d.
Proof.
  pose proof (sse_lines_size d). unfold sse_event, sse_need. rewrite !zlen_app.
  change (zlen (lit "data: ")) with 6. change (zlen [10; 10]) with 2.
  pose proof (sse_breaks_nonneg d).
  destruct (nonempty e); [rewrite !zlen_app; change (zlen (lit "event: ")) with 7; change (zlen [10]) with 1
    |change (zlen []) with 0]; lia.
Qed.

Definition skipped_note : bytes := lit ": skipped a message that is not UTF-8 text" ++ [10; 10].

Lemma parse_note rest : Sse.parse (skipped_note ++ rest) = Sse.parse rest.
Proof.
  unfold Sse.parse, skipped_note. rewrite <- app_assoc.
  change ([10; 10] ++ rest) with (10 :: 10 :: rest). rewrite Sse.lines_end
    by (apply (bool_decide_unpack _); by vm_compute).
  change (Sse.text_lines (10 :: rest)) with ([] :: Sse.text_lines rest).
  destruct (Sse.lines_cons rest) as (l & ls & ->). done.
Qed.

Section relay_sends.
Context {conn : Type} `{HttpConn conn}.
Context (reliable_all : forall (c : conn) b, (write_all c b).2 = 0).
Context (valid_utf8 : bytes -> bool) (event : option bytes).

(** The messages a relay receives, sent one after the other while the writes
    succeed. *)
Fixpoint relay_sends (c : conn) (messages : list bytes) : conn * Z :=
  match messages with
  | [] => (c, 0)
  | d :: messages =>
    let (c, rv) := ducknng_http_event_relay_send valid_utf8 event c d in
    if rv =? 0 then relay_sends c messages else (c, rv)
  end.

(** The text one message puts into the body. *)
Definition relay_text (d : bytes) : bytes :=
  if ducknng_sql_bytes_look_text valid_utf8 d then sse_event event d else skipped_note.

Lemma relay_send_delivers c f d : at_size f -> zlen d <= SIZE_MAX / 8 -> zlen (default [] event) <= SIZE_MAX / 8 ->
  zlen (relay_text d) <= UINT64_MAX ->
  exists c', ducknng_http_event_relay_send valid_utf8 event c d = (c', 0) /\ delivers c f [relay_text d] c'.
Proof.
  intros Hf Hd He Hz. unfold ducknng_http_event_relay_send, ducknng_http_event_relay_write, relay_text in *.
  destruct (ducknng_sql_bytes_look_text valid_utf8 d); cbn [negb];
    [replace (_ || _)%bool with false by (symmetry; apply orb_false_iff; split; apply Z.ltb_ge; lia)|];
    by apply write_chunk_delivers.
Qed.

Lemma relay_sends_deliver messages c f : at_size f ->
  Forall (fun d => zlen d <= SIZE_MAX / 8 /\ zlen (relay_text d) <= UINT64_MAX) messages ->
  zlen (default [] event) <= SIZE_MAX / 8 ->
  exists c', relay_sends c messages = (c', 0) /\ delivers c f (relay_text <$> messages) c'.
Proof.
  intros Hf Hm He. revert c f Hf. induction Hm as [|d messages [Hd Hz] Hm IH]; intros c f Hf.
  - exists c. split; [done|by apply delivers_nil].
  - destruct (relay_send_delivers c f d Hf Hd He Hz) as (c1 & E & text & f1 & Hf1 & Hb & Hfeed).
    destruct (IH c1 f1 Hf1) as (c2 & E2 & Hd2). exists c2. cbn [relay_sends]. rewrite E. split; [done|].
    rewrite fmap_cons. change (relay_text d :: ?l) with ([relay_text d] ++ l). by eapply delivers_trans.
Qed.

(** What a relay sends is what a reader of the event stream gets.  Over
    a connection whose writes succeed, the client's chunk decoder turns the
    bytes put on it into an event stream whose events are, in order, the
    messages that are text, each under the route's event name and with its
    line ends written as LF, whatever CR, LF and CRLF they mix; messages that
    are not text leave only a comment.  Every event fits the buffer the code
    sizes for it. *)
Theorem sse_roundtrip messages (c : conn) f :
  at_size f -> (forall n, event = Some n -> n <> [] /\ ducknng_sse_field_is_valid n = true) ->
  Forall (fun d => zlen d <= SIZE_MAX / 8 /\ zlen (relay_text d) <= UINT64_MAX) messages ->
  zlen (default [] event) <= SIZE_MAX / 8 ->
  exists c' text f' body, relay_sends c messages = (c', 0) /\ body_sent c' = body_sent c ++ text /\
    feed f text = Ok (f', body, false, []) /\
    Sse.parse body = (fun d => (event, Sse.lf_lines d)) <$> filter (fun d => ducknng_sql_bytes_look_text valid_utf8 d = true) messages /\
    Forall (fun d => zlen (sse_event event d) <= sse_need event d) messages.
Proof.
  intros Hf He Hm Hz. destruct (relay_sends_deliver messages c f Hf Hm Hz) as (c' & E & text & f' & Hf' & Hb & Hfeed).
  exists c', text, f', (concat (relay_text <$> messages)). do 3 (split; [done|]). split; [|by apply Forall_true; intros; apply sse_event_fits].
  clear -He. induction messages as [|d messages IH]; [done|]. rewrite fmap_cons, filter_cons. cbn [concat].
  unfold relay_text at 1. destruct (ducknng_sql_bytes_look_text valid_utf8 d) eqn:E.
  - rewrite Sse.parse_event by done. rewrite decide_True by done. rewrite fmap_cons. by f_equal.
  - rewrite parse_note. by rewrite decide_False by congruence.
Qed.
End relay_sends.

Lemma sse_roundtrip_witness :
  exists c' text f' body, relay_sends (conn := list res_call * bytes) (fun _ => true) (Some (lit "tick")) ([], [])
      [lit "a" ++ [13; 10] ++ lit "b"; [0]; lit "c" ++ [13]] = (c', 0) /\ body_sent c' = text /\
    feed (hs_framing (demo_open (Some (lit "chunked")) None)) text = Ok (f', body, false, []) /\
    Sse.parse body = [(Some (lit "tick"), lit "a" ++ [10] ++ lit "b"); (Some (lit "tick"), lit "c" ++ [10])].
Proof.
  destruct (sse_roundtrip (H := recording_conn) (fun _ _ => eq_refl) (fun _ => true) (Some (lit "tick"))
    [lit "a" ++ [13; 10] ++ lit "b"; [0]; lit "c" ++ [13]] ([], []) (hs_framing (demo_open (Some (lit "chunked")) None)))
    as (c' & text & f' & body & H1 & H2 & H3 & H4 & _).
  - repeat split; reflexivity.
  - intros n [= <-]. split; [discriminate|reflexivity].
  - apply (bool_decide_unpack _); vm_compute; exact I.
  - vm_compute; discriminate.
  - exists c', text, f', body. split; [exact H1|]. split; [exact H2|]. split; [exact H3|]. rewrite H4. vm_compute. reflexivity.
Defined.

(** ** The route handler *)

Section route_handler.
Context (misread : sql_cell -> option bytes).
Context (run_authorizer : ducknng_authorizer_context -> bytes -> sql_outcome).

Definition request_path (rq : http_request) : bytes := (ducknng_http_split_uri (default (lit "/") (rq_uri rq))).1.
Definition request_caller (rq : http_request) : option bytes := ducknng_http_conn_verified_peer_identity (rq_tls rq).
Definition server_scheme (st : http_server) : ducknng_transport_scheme :=
  if tls_enabled (sv_policy (ws_server st)) then DUCKNNG_TRANSPORT_SCHEME_HTTPS else DUCKNNG_TRANSPORT_SCHEME_HTTP.

(** The context the authorizer decides on. *)
Definition route_auth_ctx (st : http_server) (rq : http_request) : ducknng_authorizer_context :=
  mk_auth_ctx None DUCKNNG_TRANSPORT_FAMILY_HTTP (server_scheme st) (lit "http_route") (request_caller rq) (rq_remote rq)
    (Some (default (lit "GET") (rq_method rq))) (Some (request_path rq)) (rq_content_type rq) (zlen (rq_body rq)).

(** What a request has passed when a route's code runs for it. *)
Record may_serve (st : http_server) (rq : http_request) (route : ducknng_http_route) (params : option bytes)
    (load : service_load) : Prop := {
  ms_running : rs_stopping (ws_relays st) = false /\ sv_shutting_down (ws_server st) = false;
  ms_mount : ws_path st <> Some (request_path rq);
  ms_route : ducknng_service_lookup_http_route (ws_routes st) (Some (default (lit "GET") (rq_method rq)))
    (Some (request_path rq)) = Ok (Some (route, params));
  ms_size : request_max_bytes route <= 0 \/ zlen (rq_body rq) <= request_max_bytes route;
  ms_network : ducknng_service_network_admission_check (sv_policy (ws_server st)) (request_caller rq) (rq_remote rq) = None;
  ms_begun : ducknng_service_begin_request (sv_limits (ws_server st)) (sv_shutting_down (ws_server st))
    (sv_load (ws_server st)) (request_caller rq) = (load, None);
  ms_authorized : (ducknng_service_authorize_request misread run_authorizer (sv_policy (ws_server st))
    (route_auth_ctx st rq) ducknng_authorizer_decision_init).1 = 0;
  ms_identity : route_auth_check route (request_caller rq) = None }.

(** The context the route's code gets. *)
Definition route_ctx (st : http_server) (rq : http_request) (route : ducknng_http_route) (params : option bytes)
    : ducknng_http_request_context :=
  mk_http_ctx (server_scheme st) (default (lit "GET") (rq_method rq)) (request_path rq)
    (ducknng_http_split_uri (default (lit "/") (rq_uri rq))).2 (rq_content_type rq)
    (ducknng_http_request_headers_json_dup (rq_headers rq)) (rq_body rq) params (request_caller rq) (rq_remote rq) route.

Definition begun (st : http_server) (load : service_load) : http_server :=
  set_server (set_load load (ws_server st)) st.

Lemma route_auth_status route caller status text : route_auth_check route caller = Some (status, text) ->
  status = 401 \/ status = 403.
Proof.
  unfold route_auth_check. destruct (_ && _)%bool; [intros [= <- _]; by left|].
  destruct (_ && _)%bool; [|done]. destruct (ducknng_json_string_array_contains _ _) as [[[] ?]|]; intros [= <- _]; by right.
Qed.

End route_handler.

(** ** Accounting *)

(** What a finished request leaves: the service as it was but for its load,
    and no stream counted as running. *)
Definition same_service (st st' : http_server) : Prop :=
  active_streams st' = active_streams st /\ ws_routes st' = ws_routes st /\ ws_path st' = ws_path st /\
  sv_limits (ws_server st') = sv_limits (ws_server st) /\ sv_sessions (ws_server st') = sv_sessions (ws_server st).

Section accounting.
Context (misread : sql_cell -> option bytes).
Context (run_authorizer : ducknng_authorizer_context -> bytes -> sql_outcome).
Context (run_route : ducknng_http_request_context -> bytes -> sql_outcome).
Context (run_stream : ducknng_http_request_context -> bytes -> stream_outcome).
Context (fs : bytes -> file) (tls_configs : list (Z * tls_request)).
Context (add_header_rv : bytes -> bytes -> Z) (strerror : Z -> bytes).
Context {conn : Type} `{HttpConn conn}.

Lemma run_matched_route_ends st ctx (c : conn) hijack_rv thread_rv : 0 <= active_streams st ->
  let st' := (run_matched_route misread run_route run_stream fs tls_configs add_header_rv strerror st ctx c
    hijack_rv thread_rv).1.1 in
  same_service st st' /\
  exists n, sv_load (ws_server st') = ducknng_service_end_request (sv_load (ws_server st)) (hc_caller_identity ctx) n.
Proof.
  intros Ha. unfold run_matched_route, same_service. destruct (response_mode _ =? DUCKNNG_HTTP_ROUTE_RESPONSE_EVENTS).
  - destruct (ducknng_service_resolve_event_route _ _ _ _) as [[sub|]|e]; [|split; [done|by eexists]..].
    destruct (ducknng_http_start_event_relay _ _ _) as [rs [e|]]; (split; [done|by eexists]).
  - destruct (response_mode _ =? DUCKNNG_HTTP_ROUTE_RESPONSE_STREAM).
    + unfold ducknng_http_server_stream_begin. destruct (rs_stopping _); [split; [done|by eexists]|].
      destruct (ducknng_http_serve_stream_route _ _ _ _) as [c' a]. cbn.
      replace (0 <? active_streams st + 1) with true by lia. split; [|by eexists]. split; [lia|done].
    + destruct (ducknng_service_handle_http_route _ _ _ _ _) as [reply [e|]]; [split; [done|by eexists]|].
      destruct (ducknng_http_route_response_alloc _ _ _) as [[rv res] e]. destruct (negb (rv =? 0)); (split; [done|by eexists]).
Qed.

Lemma check_route_balanced st rq path query route params (c : conn) hijack_rv thread_rv out : 0 <= active_streams st ->
  inflight_inv (sv_limits (ws_server st)) (mk_inflight (sv_load (ws_server st)) out) ->
  let st' := (check_route misread run_authorizer run_route run_stream fs tls_configs add_header_rv strerror st rq path
    query route params c hijack_rv thread_rv).1.1 in
  same_service st st' /\ inflight_inv (sv_limits (ws_server st)) (mk_inflight (sv_load (ws_server st')) out).
Proof.
  intros Ha Hinv. unfold check_route, same_service. destruct (ducknng_service_network_admission_check _ _ _); [done|].
  destruct (ducknng_service_begin_request _ _ _ _) as [load [e|]] eqn:Eb; [split; [done|]; cbn; by eapply inv_refused|].
  destruct (ducknng_service_authorize_request _ _ _ _ _) as [rc dec].
  destruct (negb (rc =? 0)); [split; [done|]; cbn; by eapply begin_end_keeps|].
  destruct (route_auth_check _ _) as [[status text]|]; [split; [done|]; cbn; by eapply begin_end_keeps|].
  match goal with |- context [run_matched_route _ _ _ _ _ _ _ ?st0 ?ctx ?c _ _] =>
    destruct (run_matched_route_ends st0 ctx c hijack_rv thread_rv Ha) as [Hs [n ->]] end.
  split; [exact Hs|]. by eapply begin_end_keeps.
Qed.

Lemma rpc_handler_balanced alloc run_handler st rq now_ms out :
  keeps_accounting (sv_limits (ws_server st)) run_handler ->
  inflight_inv (sv_limits (ws_server st)) (mk_inflight (sv_load (ws_server st)) out) ->
  inflight_inv (sv_limits (ws_server st)) (mk_inflight (sv_load (ws_server
    (ducknng_http_rpc_handler misread run_authorizer alloc run_handler st rq now_ms).1)) out).
Proof.
  intros Hk Hinv. unfold ducknng_http_rpc_handler. destruct (_ || _)%bool; [done|]. destruct (negb _); [done|].
  match goal with |- context [ducknng_service_authorize_and_dispatch_frame _ _ _ _ _ ?req ?len ?caller ?remote ?scheme ?m ?p ?ct _] =>
    pose proof (dispatch_frame_balanced alloc run_handler misread run_authorizer (ws_server st) req len caller remote
      scheme m p ct now_ms out Hk Hinv) as Hd end.
  by destruct (ducknng_service_authorize_and_dispatch_frame _ _ _ _ _ _ _ _ _ _ _ _ _ _) as [svc [[[msg|] status] e]].
Qed.

(** An HTTP request is accounted for on every path.  However a route request ends
    (refused at any check, answered, streamed, handed to an event relay, with
    or without an error), the in-flight accounting of the service is exact
    for the requests that were outstanding before, no stream is left counted
    as running, and limits, routes and sessions are untouched; a request to
    the framed RPC mount is accounted for in the same way when the method
    handlers keep the accounting. *)
Theorem route_balanced st rq (c : conn) hijack_rv thread_rv out
  (Hstreams : 0 <= active_streams st)
  (Hinv : inflight_inv (sv_limits (ws_server st)) (mk_inflight (sv_load (ws_server st)) out)) :
  let st' := (ducknng_http_route_handler misread run_authorizer run_route run_stream fs tls_configs add_header_rv strerror
    st rq c hijack_rv thread_rv).1.1 in
  same_service st st' /\ inflight_inv (sv_limits (ws_server st)) (mk_inflight (sv_load (ws_server st')) out) /\
  forall alloc run_handler now_ms, keeps_accounting (sv_limits (ws_server st)) run_handler ->
    inflight_inv (sv_limits (ws_server st)) (mk_inflight (sv_load (ws_server
      (ducknng_http_rpc_handler misread run_authorizer alloc run_handler st rq now_ms).1)) out).
Proof.
  intros st'. subst st'. rewrite assoc by apply _. split; [|by intros; apply rpc_handler_balanced].
  unfold ducknng_http_route_handler. destruct (_ || _)%bool; [done|].
  destruct (ducknng_http_split_uri _) as [path query]. destruct (bool_decide _); [done|].
  destruct (ducknng_service_lookup_http_route _ _ _) as [[[route params]|]|e]; [|done..].
  destruct (_ && _)%bool; [done|]. by apply check_route_balanced.
Qed.

(** Refused response headers are not reported.  When the handler's row
    gives headers that [ducknng_http_apply_headers_json_common] refuses (not
    JSON, not an object, an invalid name or value), the message made for them
    is dropped and the request's aio fails with [NNG_EINVAL], where an invalid
    content type in the same row is answered with a 500 and its message. *)
Theorem route_header_errors st ctx (c : conn) hijack_rv thread_rv reply e :
  response_mode (hc_route ctx) = DUCKNNG_HTTP_ROUTE_RESPONSE_ONESHOT ->
  ducknng_service_handle_http_route misread fs run_route ctx ducknng_http_route_reply_init = (reply, None) ->
  nonempty (rr_headers_json reply) = true ->
  (ducknng_http_apply_headers_json_common (add_response_header add_header_rv) strerror (rr_headers_json reply)
    [res_set_status (u16 (rr_status reply))]).2 = Err e ->
  (run_matched_route misread run_route run_stream fs tls_configs add_header_rv strerror st ctx c hijack_rv thread_rv).2
    = aio_failed NNG_EINVAL.
Proof.
  intros Hm Hr Hh He. unfold run_matched_route. rewrite Hm, Hr. cbn -[ducknng_http_route_response_alloc].
  unfold ducknng_http_route_response_alloc. rewrite Hh.
  destruct (ducknng_http_apply_headers_json_common _ _ _ _) as [res r]. cbn in He. by rewrite He.
Qed.
End accounting.

Definition demo_http_server (routes : list ducknng_http_route) : http_server :=
  mk_http_server demo_server (mk_routes routes 8 2 None None 1024) (Some (lit "/rpc")) (mk_relay_server false []) 0.

Definition demo_request (uri : string) : http_request :=
  mk_request (Some (lit uri)) (Some (lit "GET")) None None [] None None.

Lemma route_balanced_witness :
  inflight_request_count (sv_load (ws_server (ducknng_http_route_handler (fun _ => None) (fun _ _ => sql_failed None)
    (fun _ _ => sql_failed None) demo_stream (fun _ => no_file) [] (fun _ _ => 0) (fun _ => [])
    (demo_http_server [demo_route DUCKNNG_HTTP_ROUTE_RESPONSE_STREAM "FROM t"]) (demo_request "/feed") ([], []) 0 0).1.1)) = 0.
Proof.
  destruct (route_balanced (H := recording_conn) (fun _ => None) (fun _ _ => sql_failed None) (fun _ _ => sql_failed None)
    demo_stream (fun _ => no_file) [] (fun _ _ => 0) (fun _ => [])
    (demo_http_server [demo_route DUCKNNG_HTTP_ROUTE_RESPONSE_STREAM "FROM t"]) (demo_request "/feed") ([], []) 0 0 [])
    as (_ & Hinv & _).
  - vm_compute; discriminate.
  - apply empty_load_inv.
  - exact (inv_total _ _ Hinv).
Defined.

Definition demo_bad_headers (ctx : ducknng_http_request_context) (sql : bytes) : sql_outcome :=
  sql_rows (mk_result [mk_column (Some (lit "headers_json")) DUCKDB_TYPE_VARCHAR (cell_varchar (lit "oops"))] 1 0).

Lemma route_header_errors_witness :
  (run_matched_route (fun _ => None) demo_bad_headers demo_stream (fun _ => no_file) [] (fun _ _ => 0) (fun _ => [])
    (demo_http_server []) (demo_ctx DUCKNNG_HTTP_ROUTE_RESPONSE_ONESHOT "FROM t") (([], []) : list res_call * bytes) 0 0).2
  = aio_failed NNG_EINVAL.
Proof.
  eapply (route_header_errors (H := recording_conn) (fun _ => None) demo_bad_headers demo_stream (fun _ => no_file) []
    (fun _ _ => 0) (fun _ => []) (demo_http_server []) (demo_ctx DUCKNNG_HTTP_ROUTE_RESPONSE_ONESHOT "FROM t"));
    [reflexivity | vm_compute; reflexivity | reflexivity | vm_compute; reflexivity].
Defined.
