(* ===== verification/Runtime.v ===== *)
(** The runtime of a database: the tables its services, sockets, operations,
    streams and TLS configurations live in, execution subjects, user codecs,
    the pool of execution connections, the monitors of client sockets and the
    log ring; from [src/src/ducknng_runtime.c], with the pool's acquire and
    release from [src/src/ducknng_service.c].

    An operation runs under the runtime's mutex and is one step.  What a
    table holds a pointer to is a value of any type.  Failing allocations,
    the mutexes themselves and the handles of DuckDB and NNG are not
    modelled. *)

From stdpp Require Import gmap sets.
From S2P Require Import Prelude Util Ring.

(** ** Arrays searched by a key

    Every table is an array searched from its start. *)

Section keyed.
Context {K V : Type} `{EqDecision K}.

Fixpoint key_find (k : K) (l : list (K * V)) : option V :=
  match l with
  | [] => None
  | (k', v) :: l => if bool_decide (k' = k) then Some v else key_find k l
  end.

(** The entry replaced where it is. *)
Fixpoint key_set (k : K) (v : V) (l : list (K * V)) : list (K * V) :=
  match l with
  | [] => []
  | (k', v') :: l => if bool_decide (k' = k) then (k', v) :: l else (k', v') :: key_set k v l
  end.

(** The entry removed, those behind it shifted down. *)
Fixpoint key_remove (k : K) (l : list (K * V)) : list (K * V) :=
  match l with
  | [] => []
  | (k', v') :: l => if bool_decide (k' = k) then l else (k', v') :: key_remove k l
  end.

Definition key_upsert (k : K) (v : V) (l : list (K * V)) : list (K * V) :=
  match key_find k l with Some _ => key_set k v l | None => l ++ [(k, v)] end.
End keyed.

(** The capacity after room for one more entry was made: doubled from 4 when
    the array is full. *)
Definition table_grow (count cap : Z) : Z :=
  if count =? cap then (if negb (cap =? 0) then cap * 2 else 4) else cap.

(** ** Tables of objects by number *)

Record id_table (A : Type) := mk_ids { t_entries : list (Z * A); t_cap : Z; t_next : Z }.
Arguments mk_ids {A} _ _ _.
Arguments t_entries {A} _.
Arguments t_cap {A} _.
Arguments t_next {A} _.

Definition empty_ids {A} : id_table A := mk_ids [] 0 1.

Section ids.
Context {A : Type}.

Definition ids_add (x : A) (t : id_table A) : id_table A * Z :=
  (mk_ids (t_entries t ++ [(t_next t, x)]) (table_grow (zlen (t_entries t)) (t_cap t)) (u64 (t_next t + 1)), t_next t).

Definition ids_find (id : Z) (t : id_table A) : option A :=
  if id =? 0 then None else key_find id (t_entries t).

Definition ids_remove (id : Z) (t : id_table A) : id_table A * option A :=
  if id =? 0 then (t, None) else
  (mk_ids (key_remove id (t_entries t)) (t_cap t) (t_next t), key_find id (t_entries t)).
End ids.

Definition ducknng_runtime_add_client_socket {A} : A -> id_table A -> id_table A * Z := ids_add.
Definition ducknng_runtime_find_client_socket {A} : Z -> id_table A -> option A := ids_find.
Definition ducknng_runtime_remove_client_socket {A} : Z -> id_table A -> id_table A * option A := ids_remove.
Definition ducknng_runtime_add_client_aio {A} : A -> id_table A -> id_table A * Z := ids_add.
Definition ducknng_runtime_remove_client_aio {A} : Z -> id_table A -> id_table A * option A := ids_remove.
Definition ducknng_runtime_add_http_client_stream {A} : A -> id_table A -> id_table A * Z := ids_add.
Definition ducknng_runtime_find_http_client_stream_locked {A} : Z -> id_table A -> option A := ids_find.
Definition ducknng_runtime_remove_http_client_stream {A} : Z -> id_table A -> id_table A * option A := ids_remove.
Definition ducknng_runtime_add_tls_config {A} : A -> id_table A -> id_table A * Z := ids_add.
Definition ducknng_runtime_find_tls_config {A} : Z -> id_table A -> option A := ids_find.
Definition ducknng_runtime_remove_tls_config {A} : Z -> id_table A -> id_table A * option A := ids_remove.

(** ** Services, by name *)

Record service_names (A : Type) := mk_names { sn_services : list (bytes * (Z * A)); sn_cap : Z; next_service_id : Z }.
Arguments mk_names {A} _ _ _.
Arguments sn_services {A} _.
Arguments sn_cap {A} _.
Arguments next_service_id {A} _.

Definition ducknng_runtime_find_service {A} (name : bytes) (t : service_names A) : option (Z * A) :=
  key_find name (sn_services t).

Definition ducknng_runtime_add_service {A} (name : bytes) (svc : A) (t : service_names A)
    : result bytes (service_names A * Z) :=
  match key_find name (sn_services t) with
  | Some _ => Err (lit "service already exists")
  | None =>
    Ok (mk_names (sn_services t ++ [(name, (next_service_id t, svc))]) (table_grow (zlen (sn_services t)) (sn_cap t))
          (u64 (next_service_id t + 1)), next_service_id t)
  end.

Definition ducknng_runtime_remove_service {A} (name : bytes) (t : service_names A) : service_names A * option (Z * A) :=
  (mk_names (key_remove name (sn_services t)) (sn_cap t) (next_service_id t), key_find name (sn_services t)).

(** ** Execution subjects, by connection *)

Record subject_table := mk_subjects { subject_bindings : list (Z * bytes); subject_binding_cap : Z }.

(** [None] is the return -1. *)
Definition ducknng_runtime_execution_subject_bind_connection (connection_id : Z) (subject : option bytes)
    (t : subject_table) : option subject_table :=
  match subject with
  | Some ((_ :: _) as s) =>
    match key_find connection_id (subject_bindings t) with
    | Some _ => Some (mk_subjects (key_set connection_id s (subject_bindings t)) (subject_binding_cap t))
    | None =>
      Some (mk_subjects (subject_bindings t ++ [(connection_id, s)])
        (if subject_binding_cap t <=? zlen (subject_bindings t)
         then (if negb (subject_binding_cap t =? 0) then subject_binding_cap t * 2 else 4) else subject_binding_cap t))
    end
  | _ => None
  end.

Definition ducknng_runtime_execution_subject_unbind_connection (connection_id : Z) (t : subject_table) : subject_table :=
  mk_subjects (key_remove connection_id (subject_bindings t)) (subject_binding_cap t).

Definition ducknng_runtime_execution_subject_for_connection_dup (connection_id : Z) (t : subject_table) : option bytes :=
  key_find connection_id (subject_bindings t).

(** A thread's context for one runtime: which runtime set it, and to what.
    The four kinds of context (request, HTTP request, authorizer, execution
    subject) are kept alike. *)
Definition thread_context (A : Type) : Type := option (Z * A).

Definition thread_set {A} (rt : Z) (x : option A) (c : thread_context A) : thread_context A :=
  match x with
  | Some x => Some (rt, x)
  | None => match c with Some (rt', y) => if rt' =? rt then None else c | None => None end
  end.

Definition thread_get {A} (rt : Z) (c : thread_context A) : option A :=
  match c with Some (rt', x) => if rt' =? rt then Some x else None | None => None end.

Definition ducknng_runtime_current_http_request_context_set {A} : Z -> option A -> thread_context A -> thread_context A :=
  thread_set.
Definition ducknng_runtime_current_thread_http_request_context_get {A} : Z -> thread_context A -> option A := thread_get.
Definition ducknng_runtime_current_authorizer_context_set {A} : Z -> option A -> thread_context A -> thread_context A :=
  thread_set.
Definition ducknng_runtime_current_thread_authorizer_context_get {A} : Z -> thread_context A -> option A := thread_get.
Definition ducknng_runtime_current_execution_subject_set {A} : Z -> option A -> thread_context A -> thread_context A :=
  thread_set.
Definition ducknng_runtime_current_thread_execution_subject_get {A} : Z -> thread_context A -> option A := thread_get.

(** The service of the current request: the runtime's own pointer next to the
    thread's. *)
Record request_service (A : Type) := mk_request_service { current_request_service_ptr : option A; rs_thread : thread_context A }.
Arguments mk_request_service {A} _ _.
Arguments current_request_service_ptr {A} _.
Arguments rs_thread {A} _.

Definition ducknng_runtime_current_request_service_set {A} (rt : Z) (svc : option A) (c : request_service A)
    : request_service A := mk_request_service svc (thread_set rt svc (rs_thread c)).
Definition ducknng_runtime_current_request_service_get {A} (c : request_service A) : option A :=
  current_request_service_ptr c.
Definition ducknng_runtime_current_thread_request_service_get {A} (rt : Z) (c : request_service A) : option A :=
  thread_get rt (rs_thread c).

(** ** User codecs, by media type *)

Definition ducknng_codec_normalize (content_type : option bytes) : option bytes :=
  match trim_left (default [] content_type) with
  | [] => None
  | s =>
    match trim_right s with
    | [] => None
    | s => Some (ducknng_ascii_tolower_int <$> s)
    end
  end.

Record codec_table := mk_codecs { user_codecs : list (bytes * bytes); user_codec_cap : Z }.

Definition ducknng_runtime_register_user_codec (content_type function_name : option bytes) (t : codec_table)
    : result bytes codec_table :=
  match function_name with
  | Some ((_ :: _) as fn) =>
    match ducknng_codec_normalize content_type with
    | None => Err (lit "ducknng: codec content_type must be a non-empty media type")
    | Some key =>
      match key_find key (user_codecs t) with
      | Some _ => Ok (mk_codecs (key_set key fn (user_codecs t)) (user_codec_cap t))
      | None => Ok (mk_codecs (user_codecs t ++ [(key, fn)]) (table_grow (zlen (user_codecs t)) (user_codec_cap t)))
      end
    end
  | _ => Err (lit "ducknng: codec function name must be a non-empty identifier")
  end.

Definition ducknng_runtime_unregister_user_codec (content_type : option bytes) (t : codec_table) : codec_table * bool :=
  match ducknng_codec_normalize content_type with
  | None => (t, false)
  | Some key =>
    (mk_codecs (key_remove key (user_codecs t)) (user_codec_cap t), bool_decide (key_find key (user_codecs t) <> None))
  end.

Definition ducknng_runtime_find_user_codec (content_type : option bytes) (t : codec_table) : option bytes :=
  match ducknng_codec_normalize content_type with None => None | Some key => key_find key (user_codecs t) end.

(** ** The runtimes of a process, by database *)

Record runtimes (A : Type) := mk_runtimes { g_entries : list (Z * A); g_entry_cap : Z }.
Arguments mk_runtimes {A} _ _.
Arguments g_entries {A} _.
Arguments g_entry_cap {A} _.

Fixpoint reg_reserve_loop (fuel : nat) (cap want : Z) : Z :=
  match fuel with O => cap | S fuel => if cap <? want then reg_reserve_loop fuel (cap * 2) want else cap end.

Definition reg_reserve {A} (want : Z) (r : runtimes A) : runtimes A :=
  if want <=? g_entry_cap r then r else
  mk_runtimes (g_entries r)
    (reg_reserve_loop 64 (if negb (g_entry_cap r =? 0) then g_entry_cap r * 2 else 4) want).

Definition reg_find {A} (db : Z) (r : runtimes A) : option A := key_find db (g_entries r).

Definition reg_remove {A} (db : Z) (r : runtimes A) : runtimes A :=
  if db =? 0 then r else
  match key_find db (g_entries r) with
  | None => r
  | Some _ =>
    match key_remove db (g_entries r) with
    | [] => mk_runtimes [] 0
    | entries => mk_runtimes entries (g_entry_cap r)
    end
  end.

(** ** The pool of execution connections *)

Definition DUCKNNG_EXECUTION_POOL_INITIAL : Z := 8.
Definition DUCKNNG_EXECUTION_POOL_DEFAULT_MAX : Z := 64.
Definition DUCKNNG_EXECUTION_POOL_HARD_MAX : Z := 1024.
Definition DUCKNNG_EXECUTION_POOL_ACQUIRE_TIMEOUT_MS : Z := 10000.

(** The connections opened so far, each with its busy flag. *)
Record execution_pool := mk_pool { pool : list (Z * bool); pool_capacity : Z; pool_max : Z }.

Definition ducknng_runtime_execution_pool_max (p : execution_pool) : Z := pool_max p.

Definition ducknng_runtime_set_execution_pool_max (requested : Z) (p : execution_pool) : execution_pool * Z :=
  let effective := if requested <? 1 then 1 else if pool_capacity p <? requested then pool_capacity p else requested in
  (mk_pool (pool p) (pool_capacity p) effective, effective).

(** One round of the acquire loop, under the pool's mutex: the connection and
    its index, or nothing when the caller must wait.  [connect] is DuckDB's
    answer to opening one more connection. *)
Definition acquire_round (connect : option Z) (p : execution_pool) : execution_pool * option (Z * nat) :=
  match find_index (fun e => negb (snd e)) (pool p) with
  | Some i =>
    match pool p !! i with
    | Some (con, _) => (mk_pool (<[i := (con, true)]> (pool p)) (pool_capacity p) (pool_max p), Some (con, i))
    | None => (p, None)
    end
  | None =>
    if zlen (pool p) <? pool_max p then
      match connect with
      | Some con => (mk_pool (pool p ++ [(con, true)]) (pool_capacity p) (pool_max p), Some (con, length (pool p)))
      | None => (p, None)
      end
    else (p, None)
  end.

(** The whole loop: each wait that ends before the deadline is followed by a
    round; [rounds] gives the pool as each round finds it (others ran
    meanwhile), with DuckDB's answer and the clock after it. *)
Fixpoint acquire_loop (deadline : Z) (rounds : list (execution_pool * option Z * Z))
    : option (result bytes (execution_pool * Z * nat)) :=
  match rounds with
  | [] => None
  | (p, connect, now) :: rounds =>
    match acquire_round connect p with
    | (p, Some (con, i)) => Some (Ok (p, con, i))
    | (_, None) =>
      if deadline <=? now then Some (Err (lit "ducknng: DuckDB execution connection pool exhausted"))
      else acquire_loop deadline rounds
    end
  end.

Definition ducknng_service_acquire_execution_connection (start : Z) (rounds : list (execution_pool * option Z * Z))
    : option (result bytes (execution_pool * Z * nat)) :=
  acquire_loop (if UINT64_MAX - start <? DUCKNNG_EXECUTION_POOL_ACQUIRE_TIMEOUT_MS then UINT64_MAX
                else start + DUCKNNG_EXECUTION_POOL_ACQUIRE_TIMEOUT_MS) rounds.

Definition ducknng_service_release_execution_connection (index : option nat) (p : execution_pool) : execution_pool :=
  match index with
  | None => p
  | Some i =>
    match pool p !! i with
    | Some (con, _) => mk_pool (<[i := (con, false)]> (pool p)) (pool_capacity p) (pool_max p)
    | None => p
    end
  end.

(** ** Client sockets *)

Record ducknng_socket_pipe_event := mk_sock_event { se_seq : Z; se_ts_ms : Z; se_pipe_id : Z; se_added : bool }.

Record ducknng_client_socket := mk_socket {
  sk_refcount : Z; sk_closing : bool; monitor_enabled : bool;
  mon_events : list ducknng_socket_pipe_event; mon_start : Z; mon_count : Z; mon_next_seq : Z; mon_dropped : Z }.

Definition mon_cap : Z := 256.
Definition blank_event : ducknng_socket_pipe_event := mk_sock_event 0 0 0 false.

Definition new_socket : ducknng_client_socket := mk_socket 0 false false [] 0 0 0 0.

Definition set_refs (refs : Z) (closing : bool) (s : ducknng_client_socket) : ducknng_client_socket :=
  mk_socket refs closing (monitor_enabled s) (mon_events s) (mon_start s) (mon_count s) (mon_next_seq s) (mon_dropped s).

(** The part of the acquire under the socket's own mutex. *)
Definition socket_acquire (s : ducknng_client_socket) : option ducknng_client_socket :=
  if sk_closing s then None else Some (set_refs (sk_refcount s + 1) false s).

Definition ducknng_runtime_release_client_socket (s : ducknng_client_socket) : ducknng_client_socket :=
  set_refs (if 0 <? sk_refcount s then sk_refcount s - 1 else sk_refcount s) (sk_closing s) s.

Inductive pipe_ev := NNG_PIPE_EV_ADD_PRE | NNG_PIPE_EV_ADD_POST | NNG_PIPE_EV_REM_POST.

Definition ducknng_client_socket_pipe_cb (ev : pipe_ev) (pipe_id now : Z) (s : ducknng_client_socket)
    : ducknng_client_socket :=
  let record added :=
    if monitor_enabled s then
      let events := match mon_events s with [] => replicate (Z.to_nat mon_cap) blank_event | e => e end in
      let '(slot, start, count, full) := ring_next mon_cap (mon_start s) (mon_count s) in
      mk_socket (sk_refcount s) (sk_closing s) true
        (<[Z.to_nat slot := mk_sock_event (u64 (mon_next_seq s + 1)) now pipe_id added]> events) start count
        (u64 (mon_next_seq s + 1)) (if (full : bool) then u64 (mon_dropped s + 1) else mon_dropped s)
    else s in
  match ev with
  | NNG_PIPE_EV_ADD_POST => record true
  | NNG_PIPE_EV_REM_POST => record false
  | NNG_PIPE_EV_ADD_PRE => s
  end.

Definition ducknng_runtime_socket_monitor_enable (s : ducknng_client_socket) : ducknng_client_socket :=
  mk_socket (sk_refcount s) (sk_closing s) true (mon_events s) (mon_start s) (mon_count s) (mon_next_seq s) (mon_dropped s).

Fixpoint monitor_loop (n : nat) (i : Z) (s : ducknng_client_socket) (after_seq max_events : Z)
    (out : list ducknng_socket_pipe_event) : list ducknng_socket_pipe_event :=
  match n with
  | O => out
  | S n =>
    let ev := default blank_event (mon_events s !! Z.to_nat ((mon_start s + i) mod zlen (mon_events s))) in
    if se_seq ev <=? after_seq then monitor_loop n (i + 1) s after_seq max_events out
    else if ((0 <? max_events) && (max_events <=? zlen out))%bool then out
    else monitor_loop n (i + 1) s after_seq max_events (out ++ [ev])
  end.

(** The events and [*out_dropped]. *)
Definition ducknng_runtime_socket_monitor_snapshot (after_seq max_events : Z) (s : ducknng_client_socket)
    : result bytes (list ducknng_socket_pipe_event * Z) :=
  if negb (monitor_enabled s)
  then Err (lit "ducknng: socket is not monitored; call ducknng_monitor_socket() first")
  else Ok (monitor_loop (Z.to_nat (mon_count s)) 0 s after_seq max_events [], mon_dropped s).

(** ** The log ring *)

Definition DUCKNNG_LOG_RING_CAP : Z := 512.

Record ducknng_log_entry := mk_log_entry { le_ts : Z; level : option bytes; log_type : option bytes; message : option bytes }.
Record ducknng_log_ring := mk_log_ring { log_entries : list ducknng_log_entry; head : Z; log_count : Z }.

Definition blank_entry : ducknng_log_entry := mk_log_entry 0 None None None.

Definition ducknng_log_ring_init : ducknng_log_ring :=
  mk_log_ring (replicate (Z.to_nat DUCKNNG_LOG_RING_CAP) blank_entry) 0 0.

Definition ducknng_log_ring_append (ts : option Z) (lv ty msg : option bytes) (r : ducknng_log_ring) : ducknng_log_ring :=
  let '(slot, head, count, _) := ring_next DUCKNNG_LOG_RING_CAP (head r) (log_count r) in
  mk_log_ring (<[Z.to_nat slot := mk_log_entry (default 0 ts) lv ty msg]> (log_entries r)) head count.

Definition ducknng_log_ring_snapshot (r : ducknng_log_ring) : list ducknng_log_entry :=
  (fun i => default blank_entry (log_entries r !! Z.to_nat ((head r + Z.of_nat i) mod DUCKNNG_LOG_RING_CAP)))
    <$> seq 0 (Z.to_nat (log_count r)).

(** ** Keyed arrays are finite maps *)

Section keyed_maps.
Context {K V : Type} `{Countable K}.
Implicit Types l : list (K * V).

Lemma key_find_map k l : key_find k l = (list_to_map l : gmap K V) !! k.
Proof.
  induction l as [|[k' v'] l IH]; [done|]. cbn [key_find]. rewrite list_to_map_cons.
  case_bool_decide as E; [subst; by rewrite lookup_insert_eq|by rewrite lookup_insert_ne].
Qed.

Lemma key_find_None k l : key_find k l = None <-> k ∉ l.*1.
Proof. rewrite key_find_map. symmetry. apply not_elem_of_list_to_map. Qed.

Lemma key_set_keys k v l : (key_set k v l).*1 = l.*1.
Proof. induction l as [|[k' v'] l IH]; [done|]. cbn [key_set]. case_bool_decide; [done|]. rewrite !fmap_cons. by rewrite IH. Qed.

Lemma key_set_map k v l : NoDup l.*1 -> key_find k l <> None ->
  (list_to_map (key_set k v l) : gmap K V) = <[k := v]> (list_to_map l).
Proof.
  induction l as [|[k' v'] l IH]; [done|]. cbn [key_find key_set]. rewrite fmap_cons. intros [Hk Hnd]%NoDup_cons Hf.
  case_bool_decide as E; rewrite !list_to_map_cons; [subst; by rewrite insert_insert_eq|].
  rewrite IH by done. by apply insert_insert_ne.
Qed.

Lemma key_remove_keys k l : NoDup l.*1 -> NoDup (key_remove k l).*1 /\ forall k', k' ∈ (key_remove k l).*1 -> k' ∈ l.*1 /\ k' <> k.
Proof.
  induction l as [|[k' v'] l IH]; cbn [key_remove]; [intros; split; [done|]; by intros ? ?%elem_of_nil|].
  rewrite fmap_cons. intros [Hk Hnd]%NoDup_cons. case_bool_decide as E.
  - subst. split; [done|]. intros k'' Hin. split; [by right|]. intros ->. done.
  - destruct (IH Hnd) as [H1 H2]. rewrite fmap_cons. split.
    + apply NoDup_cons. split; [|done]. intros [? _]%H2. done.
    + intros k'' [->|Hin]%elem_of_cons; [split; [by left|done]|]. destruct (H2 _ Hin). split; [by right|done].
Qed.

Lemma key_remove_map k l : NoDup l.*1 -> (list_to_map (key_remove k l) : gmap K V) = delete k (list_to_map l).
Proof.
  induction l as [|[k' v'] l IH]; [intros; symmetry; apply delete_empty|]. cbn [key_remove]. rewrite fmap_cons.
  intros [Hk Hnd]%NoDup_cons. case_bool_decide as E; rewrite !list_to_map_cons.
  - subst. rewrite delete_insert_id; [done|]. by apply not_elem_of_list_to_map.
  - rewrite IH by done. by rewrite delete_insert_ne.
Qed.

Lemma key_app_map k v l : k ∉ l.*1 -> (list_to_map (l ++ [(k, v)]) : gmap K V) = <[k := v]> (list_to_map l).
Proof.
  intros Hk. induction l as [|[k' v'] l IH]; [done|]. cbn [app]. rewrite !list_to_map_cons.
  rewrite fmap_cons, not_elem_of_cons in Hk. destruct Hk as [Hne Hk]. rewrite IH by done. by apply insert_insert_ne.
Qed.

Lemma key_app_keys k v l : k ∉ l.*1 -> NoDup l.*1 -> NoDup (l ++ [(k, v)]).*1.
Proof.
  intros Hk Hnd. rewrite fmap_app. apply NoDup_app. split; [done|]. split; [|apply NoDup_singleton].
  intros x Hx Hin%list_elem_of_singleton. subst. done.
Qed.

(** An array that holds a map: each key once. *)
Record holds (l : list (K * V)) (m : gmap K V) : Prop := { h_keys : NoDup l.*1; h_map : list_to_map l = m }.

Lemma holds_find k l m : holds l m -> key_find k l = m !! k.
Proof. intros [_ <-]. apply key_find_map. Qed.

Lemma holds_remove k l m : holds l m -> holds (key_remove k l) (delete k m).
Proof. intros [Hnd <-]. split; [by apply key_remove_keys|by apply key_remove_map]. Qed.

Lemma holds_app k v l m : holds l m -> m !! k = None -> holds (l ++ [(k, v)]) (<[k := v]> m).
Proof.
  intros [Hnd <-] Hk%not_elem_of_list_to_map. split; [by apply key_app_keys|by apply key_app_map].
Qed.

Lemma holds_set k v l m : holds l m -> m !! k <> None -> holds (key_set k v l) (<[k := v]> m).
Proof.
  intros [Hnd <-] Hk. rewrite <- key_find_map in Hk. split; [by rewrite key_set_keys|by apply key_set_map].
Qed.

Lemma holds_nil : holds [] ∅.
Proof. split; [apply NoDup_nil_2|done]. Qed.
End keyed_maps.

Lemma table_grow_fits count cap : count <= cap -> 0 <= count -> count + 1 <= table_grow count cap.
Proof. unfold table_grow. intros. destruct (Z.eqb_spec count cap), (Z.eqb_spec cap 0); cbn; lia. Qed.

Lemma key_remove_length {K V} `{EqDecision K} (k : K) (l : list (K * V)) : zlen (key_remove k l) <= zlen l.
Proof.
  induction l as [|[k' v'] l IH]; [done|]. cbn [key_remove]. case_bool_decide; rewrite !zlen_cons; lia.
Qed.

(** ** Operations on a table of objects *)

Section ids_spec.
Context {A : Type}.

Inductive ids_op := op_add (x : A) | op_find (id : Z) | op_remove (id : Z).
Inductive ids_answer := answer_id (id : Z) | answer_object (o : option A).

Definition ids_step (t : id_table A) (op : ids_op) : id_table A * ids_answer :=
  match op with
  | op_add x => let (t, id) := ids_add x t in (t, answer_id id)
  | op_find id => (t, answer_object (ids_find id t))
  | op_remove id => let (t, o) := ids_remove id t in (t, answer_object o)
  end.

(** The specification: a finite map and the numbers never handed out yet. *)
Definition map_step (st : gmap Z A * Z) (op : ids_op) : gmap Z A * Z * ids_answer :=
  let (m, n) := st in
  match op with
  | op_add x => (<[n := x]> m, n + 1, answer_id n)
  | op_find id => (m, n, answer_object (m !! id))
  | op_remove id => (delete id m, n, answer_object (m !! id))
  end.

Record ids_rep (t : id_table A) (m : gmap Z A) (n : Z) : Prop := {
  ir_holds : holds (t_entries t) m;
  ir_next : t_next t = n /\ 1 <= n;
  ir_used : forall id, is_Some (m !! id) -> 1 <= id < n;
  ir_fits : zlen (t_entries t) <= t_cap t }.

Lemma ids_rep_empty : ids_rep (empty_ids (A := A)) ∅ 1.
Proof. split; [apply holds_nil|done|by intros id [? ?]|done]. Qed.

Lemma ids_rep_zero t m n : ids_rep t m n -> m !! 0 = None.
Proof. intros [_ _ Hu _]. destruct (m !! 0) eqn:E; [|done]. specialize (Hu 0 ltac:(eauto)). lia. Qed.

Lemma ids_step_rep t m n op : ids_rep t m n -> n < UINT64_MAX ->
  let '(t', a) := ids_step t op in let '(m', n', b) := map_step (m, n) op in
  a = b /\ ids_rep t' m' n' /\ n <= n' <= n + 1.
Proof.
  intros Hr Hn. pose proof (ids_rep_zero _ _ _ Hr) as H0. destruct Hr as [Hh [Ht H1] Hu Hf].
  assert (m !! n = None) as Hfresh.
  { destruct (m !! n) eqn:E; [|done]. specialize (Hu n ltac:(eauto)). lia. }
  destruct op as [x|id|id]; cbn.
  - rewrite Ht, u64_small by lia. split; [done|]. split; [|lia]. split; cbn.
    + by apply holds_app.
    + lia.
    + intros id Hid. destruct (decide (id = n)) as [->|]; [lia|]. rewrite lookup_insert_ne in Hid by done.
      specialize (Hu id Hid). lia.
    + rewrite zlen_app. change (zlen [(n, x)]) with 1. apply table_grow_fits; [done|apply zlen_nonneg].
  - unfold ids_find. split; [|split; [by split|lia]]. destruct (Z.eqb_spec id 0) as [->|]; f_equal; [done|].
    by apply holds_find.
  - unfold ids_remove. destruct (Z.eqb_spec id 0) as [->|].
    + split; [by rewrite H0|]. split; [|lia]. rewrite delete_id by done. by split.
    + split; [f_equal; by apply holds_find|]. split; [|lia]. split; cbn; [by apply holds_remove|done| |].
      * intros id' [? [? ?]%lookup_delete_Some]. apply Hu. eauto.
      * pose proof (key_remove_length id (t_entries t)). lia.
Qed.

Fixpoint ids_run (t : id_table A) (ops : list ids_op) : id_table A * list ids_answer :=
  match ops with
  | [] => (t, [])
  | op :: ops => let (t, a) := ids_step t op in let (t, l) := ids_run t ops in (t, a :: l)
  end.

Fixpoint map_run (st : gmap Z A * Z) (ops : list ids_op) : gmap Z A * Z * list ids_answer :=
  match ops with
  | [] => (st, [])
  | op :: ops => let (st, a) := map_step st op in let (st, l) := map_run st ops in (st, a :: l)
  end.

Lemma ids_run_rep ops t m n : ids_rep t m n -> n + zlen ops <= UINT64_MAX ->
  (ids_run t ops).2 = (map_run (m, n) ops).2 /\
  ids_rep (ids_run t ops).1 (map_run (m, n) ops).1.1 (map_run (m, n) ops).1.2.
Proof.
  revert t m n. induction ops as [|op ops IH]; intros t m n Hr Hn; [done|]. rewrite zlen_cons in Hn.
  pose proof (zlen_nonneg ops). cbn [ids_run map_run].
  pose proof (ids_step_rep t m n op Hr ltac:(lia)) as Hs.
  destruct (ids_step t op) as [t' a], (map_step (m, n) op) as [[m' n'] b]. destruct Hs as (-> & Hr' & Hn').
  destruct (IH t' m' n' Hr' ltac:(lia)) as [Ha Hr'']. destruct (ids_run t' ops), (map_run (m', n') ops) as [[]].
  cbn in *. by rewrite Ha.
Qed.
End ids_spec.
Arguments ids_op A : clear implicits.

(** C37. The runtime's tables are finite maps whose numbers are never reused.
    Any sequence of adds, lookups and removals (of client sockets, pending
    operations, streams or TLS configurations: the code is the same) answers
    as a map would: an object is found under the number it got until it is
    removed, then never again, 0 finds nothing, every add gets the next
    number, and the array always has room for what it holds. *)
Theorem runtime_tables_refine {A} (ops : list (ids_op A)) (Hn : zlen ops < UINT64_MAX) :
  (ids_run empty_ids ops).2 = (map_run (∅, 1) ops).2 /\
  zlen (t_entries (ids_run empty_ids ops).1) <= t_cap (ids_run empty_ids ops).1 /\
  forall id, ids_find id (ids_run empty_ids ops).1 = (map_run (∅, 1) ops).1.1 !! id.
Proof.
  destruct (ids_run_rep ops empty_ids ∅ 1 ids_rep_empty ltac:(lia)) as [Ha Hr]. split; [done|].
  split; [apply Hr|]. intros id. unfold ids_find. destruct (Z.eqb_spec id 0) as [->|].
  - symmetry. by eapply ids_rep_zero.
  - apply holds_find, Hr.
Qed.

Lemma runtime_tables_refine_witness :
  (ids_run empty_ids [op_add (lit "a"); op_add (lit "b"); op_remove 1; op_add (lit "c"); op_find 1; op_find 3]).2 =
  [answer_id 1; answer_id 2; answer_object (Some (lit "a")); answer_id 3; answer_object None; answer_object (Some (lit "c"))].
Proof.
  refine (eq_trans (proj1 (runtime_tables_refine [op_add (lit "a"); op_add (lit "b"); op_remove 1; op_add (lit "c");
    op_find 1; op_find 3] _)) _); vm_compute; reflexivity.
Defined.

(** ** Execution connections *)

Record pool_state := mk_pool_state { ps_pool : execution_pool; leases : list (Z * nat) }.

(** A request gets a connection in some round of its loop, gives it back, or
    the maximum is set; DuckDB never hands out the same connection twice. *)
Inductive pool_step : pool_state -> pool_state -> Prop :=
| pool_acquired p p' held con i connect :
    (forall c, connect = Some c -> c ∉ (pool p).*1) ->
    acquire_round connect p = (p', Some (con, i)) ->
    pool_step (mk_pool_state p held) (mk_pool_state p' ((con, i) :: held))
| pool_released p before con i after :
    pool_step (mk_pool_state p (before ++ (con, i) :: after))
      (mk_pool_state (ducknng_service_release_execution_connection (Some i) p) (before ++ after))
| pool_resized p held requested :
    pool_step (mk_pool_state p held) (mk_pool_state (ducknng_runtime_set_execution_pool_max requested p).1 held).

(** The pool as the runtime starts it. *)
Definition pool_start (s : pool_state) : Prop :=
  leases s = [] /\ NoDup (pool (ps_pool s)).*1 /\ Forall (fun e => e.2 = false) (pool (ps_pool s)) /\
  zlen (pool (ps_pool s)) <= pool_capacity (ps_pool s) /\ 1 <= pool_capacity (ps_pool s) /\
  pool_max (ps_pool s) <= pool_capacity (ps_pool s).

Record pool_inv (s : pool_state) : Prop := mk_pool_inv {
  pi_conns : NoDup (pool (ps_pool s)).*1;
  pi_leases : NoDup (leases s);
  pi_busy : forall con i, (con, i) ∈ leases s <-> pool (ps_pool s) !! i = Some (con, true);
  pi_room : zlen (pool (ps_pool s)) <= pool_capacity (ps_pool s);
  pi_cap : 1 <= pool_capacity (ps_pool s);
  pi_max : pool_max (ps_pool s) <= pool_capacity (ps_pool s) }.

Lemma fmap_insert_same {A B} (f : A -> B) (l : list A) i x y : l !! i = Some x -> f y = f x -> f <$> <[i := y]> l = f <$> l.
Proof. intros Hi Hf. rewrite list_fmap_insert, Hf. apply list_insert_id. by rewrite list_lookup_fmap, Hi. Qed.

Lemma pool_insert_busy (l : list (Z * bool)) i con con' j b b' : l !! i = Some (con, b') ->
  <[i := (con, b)]> l !! j = Some (con', true) <-> (j = i /\ con' = con /\ b = true) \/ (j <> i /\ l !! j = Some (con', true)).
Proof.
  intros Hi. destruct (decide (j = i)) as [->|Hne].
  - rewrite list_lookup_insert_eq by (by eapply lookup_lt_Some). naive_solver.
  - rewrite list_lookup_insert_ne by done. naive_solver.
Qed.

Lemma pool_acquire_inv p p' held con i connect : pool_inv (mk_pool_state p held) ->
  (forall c, connect = Some c -> c ∉ (pool p).*1) -> acquire_round connect p = (p', Some (con, i)) ->
  pool_inv (mk_pool_state p' ((con, i) :: held)).
Proof.
  intros [Hc Hl Hb Hr Hcap Hm] Hfresh. cbn in *. unfold acquire_round.
  destruct (find_index _ (pool p)) as [k|] eqn:Ef.
  - destruct (find_index_Some _ _ _ Ef) as ([c b] & Hk & Hidle). rewrite Hk. intros [= <- <- <-].
    cbn in Hidle. apply negb_true_iff in Hidle. subst b.
    assert ((c, k) ∉ held) as Hnew by (rewrite Hb; congruence).
    split; cbn; [by erewrite fmap_insert_same|by apply NoDup_cons| |by rewrite zlen_insert|done|done].
    intros con i. rewrite elem_of_cons, Hb, (pool_insert_busy _ _ _ _ _ _ false) by done.
    destruct (decide (i = k)) as [->|]; naive_solver congruence.
  - destruct (Z.ltb_spec (zlen (pool p)) (pool_max p)) as [Hlt|]; [|done]. destruct connect as [c|]; [|done].
    intros [= <- <- <-].
    assert ((c, length (pool p)) ∉ held) as Hnew by (rewrite Hb; rewrite lookup_ge_None_2 by lia; done).
    split; cbn; [|by apply NoDup_cons| | |done|done].
    + rewrite fmap_app. apply NoDup_app. split; [done|]. split; [|apply NoDup_singleton].
      intros x Hx Hin%list_elem_of_singleton. subst. by eapply Hfresh.
    + intros con i. rewrite elem_of_cons, Hb, lookup_app. destruct (pool p !! i) as [e|] eqn:E.
      * assert (i < length (pool p))%nat by (by eapply lookup_lt_Some). split; [|tauto]. intros [[= ]|]; [lia|done].
      * apply lookup_ge_None in E. destruct (decide (i = length (pool p))) as [->|].
        -- rewrite Nat.sub_diag. cbn. naive_solver.
        -- rewrite lookup_ge_None_2 by (cbn; lia). naive_solver.
    + rewrite zlen_app. change (zlen [(c, true)]) with 1. lia.
Qed.

Lemma pool_release_inv p before con i after : pool_inv (mk_pool_state p (before ++ (con, i) :: after)) ->
  pool_inv (mk_pool_state (ducknng_service_release_execution_connection (Some i) p) (before ++ after)).
Proof.
  intros [Hc Hl Hb Hr Hcap Hm]. cbn in *.
  assert (pool p !! i = Some (con, true)) as Hi by (apply Hb; set_solver).
  assert ((con, i) ∉ before ++ after) as Hgone.
  { rewrite <- Permutation_middle in Hl. by apply NoDup_cons in Hl as [? _]. }
  assert (NoDup (before ++ after)) as Hl' by (rewrite <- Permutation_middle in Hl; by apply NoDup_cons in Hl as [_ ?]).
  unfold ducknng_service_release_execution_connection. rewrite Hi.
  split; cbn; [by erewrite fmap_insert_same|done| |by rewrite zlen_insert|done|done].
  intros con' j. rewrite (pool_insert_busy _ _ _ _ _ _ true) by done. rewrite <- Hb.
  destruct (decide (j = i)) as [->|].
  - split; [|naive_solver]. intros Hin. exfalso.
    assert (pool p !! i = Some (con', true)) as Hi' by (apply Hb; set_solver). assert (con' = con) by congruence. by subst.
  - set_solver.
Qed.

Lemma pool_step_inv s s' : pool_step s s' -> pool_inv s -> pool_inv s'.
Proof.
  intros [] Hinv; [by eapply pool_acquire_inv|by eapply pool_release_inv|].
  destruct Hinv as [Hc Hl Hb Hr Hcap Hm]. cbn in *. split; cbn; try done.
  destruct (Z.ltb_spec requested 1); [lia|]. destruct (Z.ltb_spec (pool_capacity p) requested); lia.
Qed.

(** A pooled connection serves one request at a time.  However acquires,
    releases and changes of the maximum interleave, no two outstanding
    requests hold the same connection, a connection is marked busy exactly
    while a request holds it, and the pool never outgrows its arrays. *)
Theorem pool_exclusive s0 s : pool_start s0 -> rtc pool_step s0 s ->
  NoDup (leases s).*1 /\
  (forall con i, (con, i) ∈ leases s <-> pool (ps_pool s) !! i = Some (con, true)) /\
  zlen (pool (ps_pool s)) <= pool_capacity (ps_pool s) /\
  1 <= (ducknng_runtime_set_execution_pool_max 0 (ps_pool s)).2 <= pool_capacity (ps_pool s).
Proof.
  intros (Hl & Hc & Hidle & Hr & Hcap & Hm) Hsteps. assert (pool_inv s) as [Hc' Hl' Hb' Hr' Hcap' Hm'].
  { assert (pool_inv s0) as H0.
    { split; try done; rewrite Hl; [apply NoDup_nil_2|]. intros con i. split; [by intros ?%elem_of_nil|].
      intros Hi. rewrite Forall_lookup in Hidle. by specialize (Hidle _ _ Hi). }
    clear -Hsteps H0. induction Hsteps; [done|]. eauto using pool_step_inv. }
  split; [|split; [done|split; [done|cbn; lia]]].
  apply NoDup_fmap_2_strong; [|done]. intros [c i] [c' j] Hi%Hb' Hj%Hb' E. cbn in E. subst c'.
  f_equal. apply (NoDup_lookup (pool (ps_pool s)).*1 i j c); [done|by rewrite list_lookup_fmap, Hi|by rewrite list_lookup_fmap, Hj].
Qed.

Definition demo_pool : pool_state := mk_pool_state (mk_pool [(7, false)] 4 2) [].

Lemma pool_exclusive_witness :
  exists s, rtc pool_step demo_pool s /\ leases s = [(9, 1%nat); (7, 0%nat)] /\ NoDup (leases s).*1.
Proof.
  exists (mk_pool_state (mk_pool [(7, true); (9, true)] 4 2) [(9, 1%nat); (7, 0%nat)]).
  assert (rtc pool_step demo_pool (mk_pool_state (mk_pool [(7, true); (9, true)] 4 2) [(9, 1%nat); (7, 0%nat)])) as Hrun.
  { eapply rtc_l; [apply (pool_acquired _ (mk_pool [(7, true)] 4 2) [] 7 0%nat None); [intros; discriminate|reflexivity]|].
    apply rtc_once. apply (pool_acquired _ _ _ 9 1%nat (Some 9)); [|reflexivity].
    intros c [= <-]. apply (bool_decide_unpack _); vm_compute; exact I. }
  split; [exact Hrun|]. split; [reflexivity|].
  refine (proj1 (pool_exclusive demo_pool _ _ Hrun)).
  repeat split; try (apply (bool_decide_unpack _); vm_compute; exact I).
Defined.

(** ** Rings *)

Definition log_of (entries : list ducknng_log_entry) : ducknng_log_ring :=
  foldl (fun r e => ducknng_log_ring_append (Some (le_ts e)) (level e) (log_type e) (message e) r) ducknng_log_ring_init entries.

Lemma log_of_rep entries :
  ring_rep blank_entry DUCKNNG_LOG_RING_CAP (log_entries (log_of entries)) (head (log_of entries)) (log_count (log_of entries)) entries.
Proof.
  induction entries as [|e entries IH] using rev_ind.
  - apply ring_rep_nil; [done|]. unfold log_of, ducknng_log_ring_init, zlen. cbn [foldl log_entries].
    by rewrite length_replicate.
  - unfold log_of in *. rewrite foldl_app. cbn [foldl]. set (r := foldl _ _ _) in *. clearbody r.
    unfold ducknng_log_ring_append. destruct e as [ts lv ty msg]. cbn [le_ts level log_type message default].
    pose proof (ring_rep_push _ _ _ _ _ _ (mk_log_entry ts lv ty msg) IH) as Hp.
    destruct (ring_next _ _ _) as [[[slot start] count] full]. apply Hp.
Qed.

Lemma log_snapshot_exact entries : ducknng_log_ring_snapshot (log_of entries) = last_n DUCKNNG_LOG_RING_CAP entries.
Proof.
  destruct (log_of_rep entries) as [Hc _ _ Hv]. rewrite <- Hv. unfold ducknng_log_ring_snapshot, ring_view. by rewrite Hc.
Qed.

(** The pipe events of a socket, numbered from 1, as its callback gets them. *)
Fixpoint numbered (n : Z) (calls : list (bool * Z * Z)) : list ducknng_socket_pipe_event :=
  match calls with
  | [] => []
  | (added, pipe, now) :: calls => mk_sock_event n now pipe added :: numbered (n + 1) calls
  end.

Definition monitored (calls : list (bool * Z * Z)) : ducknng_client_socket :=
  foldl (fun s '(added, pipe, now) =>
    ducknng_client_socket_pipe_cb (if (added : bool) then NNG_PIPE_EV_ADD_POST else NNG_PIPE_EV_REM_POST) pipe now s)
    (ducknng_runtime_socket_monitor_enable new_socket) calls.

Lemma numbered_app n a b : numbered n (a ++ b) = numbered n a ++ numbered (n + zlen a) b.
Proof.
  revert n. induction a as [|[[added pipe] now] a IH]; intros n; cbn [app numbered].
  - change (zlen []) with 0. by rewrite Z.add_0_r.
  - rewrite IH, zlen_cons. by replace (n + 1 + zlen a) with (n + (1 + zlen a)) by lia.
Qed.

Lemma numbered_length n a : zlen (numbered n a) = zlen a.
Proof. revert n. induction a as [|[[added pipe] now] a IH]; intros n; [done|]. cbn [numbered]. by rewrite !zlen_cons, IH. Qed.

Record monitor_rep (s : ducknng_client_socket) (calls : list (bool * Z * Z)) : Prop := {
  mr_on : monitor_enabled s = true;
  mr_ring : (mon_events s = [] /\ mon_start s = 0 /\ mon_count s = 0 /\ calls = []) \/
    ring_rep blank_event mon_cap (mon_events s) (mon_start s) (mon_count s) (numbered 1 calls);
  mr_seq : mon_next_seq s = zlen calls;
  mr_dropped : mon_dropped s = Z.max 0 (zlen calls - mon_cap) }.

Lemma monitored_rep calls : zlen calls < UINT64_MAX -> monitor_rep (monitored calls) calls.
Proof.
  induction calls as [|[[added pipe] now] calls IH] using rev_ind; intros Hn; [by split; [|left| |]|].
  rewrite zlen_app in Hn. change (zlen [(added, pipe, now)]) with 1 in Hn. pose proof (zlen_nonneg calls).
  destruct IH as [Hon Hr Hs Hd]; [lia|]. unfold monitored in *. rewrite foldl_app. cbn [foldl].
  set (s := foldl _ _ _) in *. clearbody s.
  set (events := match mon_events s with [] => replicate (Z.to_nat mon_cap) blank_event | e => e end).
  assert (ring_rep blank_event mon_cap events (mon_start s) (mon_count s) (numbered 1 calls)) as Hring.
  { unfold events. destruct Hr as [(-> & -> & -> & ->)|Hr].
    - apply ring_rep_nil; [done|]. unfold zlen. by rewrite length_replicate.
    - destruct (mon_events s) eqn:E; [|done]. by destruct Hr as [Hc _ _ _]. }
  pose proof (ring_rep_push _ _ _ _ _ _ (mk_sock_event (zlen calls + 1) now pipe added) Hring) as Hp.
  assert (numbered 1 (calls ++ [(added, pipe, now)]) = numbered 1 calls ++ [mk_sock_event (zlen calls + 1) now pipe added]) as Hnum.
  { rewrite numbered_app. cbn. by replace (1 + zlen calls) with (zlen calls + 1) by lia. }
  rewrite numbered_length in Hp.
  assert (ducknng_client_socket_pipe_cb (if added then NNG_PIPE_EV_ADD_POST else NNG_PIPE_EV_REM_POST) pipe now s =
    let '(slot, start, count, full) := ring_next mon_cap (mon_start s) (mon_count s) in
    mk_socket (sk_refcount s) (sk_closing s) true
      (<[Z.to_nat slot := mk_sock_event (zlen calls + 1) now pipe added]> events) start count (zlen calls + 1)
      (if (full : bool) then u64 (mon_dropped s + 1) else mon_dropped s)) as ->.
  { unfold ducknng_client_socket_pipe_cb. rewrite Hon, Hs, !u64_small by (unfold UINT64_MAX in *; lia). by destruct added. }
  destruct (ring_next mon_cap (mon_start s) (mon_count s)) as [[[slot start] count] full].
  destruct Hp as (_ & Hring' & Hfull). rewrite <- Hnum in Hring'.
  split; cbn; [done|by right|rewrite zlen_app; by change (zlen [(added, pipe, now)]) with 1|].
  rewrite zlen_app. change (zlen [(added, pipe, now)]) with 1. rewrite Hfull, Hd. unfold mon_cap.
  destruct (Z.ltb_spec (zlen calls) 256); cbn [negb]; [lia|]. rewrite u64_small by (unfold UINT64_MAX in *; lia). lia.
Qed.

Lemma monitor_loop_spec n i s after max out :
  let view := (fun k => default blank_event (mon_events s !! Z.to_nat ((mon_start s + Z.of_nat k) mod zlen (mon_events s)))) <$> seq i n in
  let new := filter (fun e => after < se_seq e) view in
  monitor_loop n (Z.of_nat i) s after max out =
  if 0 <? max then out ++ ztake (max - zlen out) new else out ++ new.
Proof.
  revert i out. induction n as [|n IH]; intros i out.
  - cbn. unfold ztake. rewrite take_nil, app_nil_r. by destruct (0 <? max).
  - cbn [monitor_loop seq]. rewrite fmap_cons. set (ev := default _ _).
    replace (Z.of_nat i + 1) with (Z.of_nat (S i)) by lia. rewrite filter_cons.
    destruct (Z.leb_spec (se_seq ev) after) as [Hle|Hgt].
    + rewrite decide_False by lia. apply IH.
    + rewrite decide_True by lia. destruct (Z.ltb_spec 0 max) as [Hm|]; cbn [andb].
      * destruct (Z.leb_spec max (zlen out)); [unfold ztake; replace (Z.to_nat (max - zlen out)) with 0%nat by lia; by rewrite take_0, app_nil_r|].
        rewrite IH. cbn zeta. rewrite zlen_app, <- app_assoc. change (zlen [ev]) with 1. f_equal.
        unfold ztake. replace (Z.to_nat (max - zlen out)) with (S (Z.to_nat (max - (zlen out + 1)))) by lia. done.
      * rewrite IH. by rewrite <- app_assoc.
Qed.

(** Both rings of the runtime keep the newest entries in order.  A
    snapshot of the log is the last 512 entries written; a reader of a
    monitored client socket that passes the last number it saw gets the
    retained events after it, oldest first and at most as many as asked for,
    and the count of dropped events tells exactly how many it can have
    missed. *)
Theorem runtime_rings_exact entries calls after max (Hn : zlen calls < UINT64_MAX) :
  ducknng_log_ring_snapshot (log_of entries) = last_n 512 entries /\
  ducknng_runtime_socket_monitor_snapshot after max (monitored calls) =
    let new := filter (fun e => after < se_seq e) (last_n 256 (numbered 1 calls)) in
    Ok (if 0 <? max then ztake max new else new, Z.max 0 (zlen calls - 256)).
Proof.
  split; [apply log_snapshot_exact|]. destruct (monitored_rep calls Hn) as [Hon Hr Hs Hd].
  unfold ducknng_runtime_socket_monitor_snapshot. rewrite Hon, Hd. cbn [negb].
  pose proof (monitor_loop_spec (Z.to_nat (mon_count (monitored calls))) 0 (monitored calls) after max []) as Hl.
  cbn zeta in Hl. change (Z.of_nat 0) with 0 in Hl. rewrite Hl. cbn [app]. change (zlen []) with 0. rewrite Z.sub_0_r.
  replace ((fun k => _) <$> seq 0 _) with (last_n 256 (numbered 1 calls)); [by destruct (0 <? max)|].
  destruct Hr as [(_ & _ & Hc & ->)|[_ _ _ Hv]]; [by rewrite Hc|]. symmetry. exact Hv.
Qed.

Lemma runtime_rings_exact_witness :
  ducknng_runtime_socket_monitor_snapshot 1 0 (monitored [(true, 5, 100); (true, 6, 110); (false, 5, 120)]) =
  Ok ([mk_sock_event 2 110 6 true; mk_sock_event 3 120 5 false], 0).
Proof.
  refine (eq_trans (proj2 (runtime_rings_exact [] [(true, 5, 100); (true, 6, 110); (false, 5, 120)] 1 0 _)) _);
    vm_compute; reflexivity.
Defined.

(** ** The life of a client socket

    Sockets are objects on a heap.  The table points to them, operations hold
    references, and closing takes a socket out of the table, waits for the
    references and frees it. *)

Record socket_heap := mk_sockets {
  so_table : id_table nat; so_heap : gmap nat ducknng_client_socket;
  so_refs : list nat; so_closers : list nat; so_freed : list nat }.

(** [ducknng_runtime_acquire_client_socket]: the search and the reference in
    one critical section; [None] is NULL. *)
Definition ducknng_runtime_acquire_client_socket (id : Z) (w : socket_heap) : option (nat * socket_heap) :=
  match ids_find id (so_table w) with
  | None => None
  | Some p =>
    match so_heap w !! p with
    | None => None
    | Some s =>
      match socket_acquire s with
      | None => None
      | Some s' => Some (p, mk_sockets (so_table w) (<[p := s']> (so_heap w)) (p :: so_refs w) (so_closers w) (so_freed w))
      end
    end
  end.

(** [ducknng_client_socket_destroy] up to the wait, and after it: the wait
    ends when no reference is left. *)
Definition destroy_begin (s : ducknng_client_socket) : ducknng_client_socket := set_refs (sk_refcount s) true s.
Definition destroy_may_end (s : ducknng_client_socket) : bool := (sk_closing s && (sk_refcount s <=? 0))%bool.

Inductive socket_step : socket_heap -> socket_heap -> Prop :=
| so_open w p t id :
    p ∉ dom (so_heap w) -> p ∉ so_freed w -> t_next (so_table w) < UINT64_MAX ->
    ducknng_runtime_add_client_socket p (so_table w) = (t, id) ->
    socket_step w (mk_sockets t (<[p := new_socket]> (so_heap w)) (so_refs w) (so_closers w) (so_freed w))
| so_acquire w p id w' :
    ducknng_runtime_acquire_client_socket id w = Some (p, w') -> socket_step w w'
| so_release t heap before p after closers freed s :
    heap !! p = Some s ->
    socket_step (mk_sockets t heap (before ++ p :: after) closers freed)
      (mk_sockets t (<[p := ducknng_runtime_release_client_socket s]> heap) (before ++ after) closers freed)
| so_remove w id t p :
    ducknng_runtime_remove_client_socket id (so_table w) = (t, Some p) ->
    socket_step w (mk_sockets t (so_heap w) (so_refs w) (p :: so_closers w) (so_freed w))
| so_closing t heap refs p closers freed s :
    p ∈ closers -> heap !! p = Some s ->
    socket_step (mk_sockets t heap refs closers freed) (mk_sockets t (<[p := destroy_begin s]> heap) refs closers freed)
| so_free t heap refs before p after freed s :
    heap !! p = Some s -> destroy_may_end s = true ->
    socket_step (mk_sockets t heap refs (before ++ p :: after) freed)
      (mk_sockets t (delete p heap) refs (before ++ after) (p :: freed)).

Definition no_sockets : socket_heap := mk_sockets empty_ids ∅ [] [] [].

Definition count_refs (p : nat) (l : list nat) : Z := zlen (filter (eq p) l).

Lemma count_refs_cons p q l : count_refs p (q :: l) = (if decide (p = q) then 1 else 0) + count_refs p l.
Proof. unfold count_refs. rewrite filter_cons. destruct (decide (p = q)); [by rewrite zlen_cons|lia]. Qed.

Lemma count_refs_middle p q a b : count_refs p (a ++ q :: b) = (if decide (p = q) then 1 else 0) + count_refs p (a ++ b).
Proof. unfold count_refs. rewrite !filter_app, filter_cons. destruct (decide (p = q)); rewrite !zlen_app, ?zlen_cons; lia. Qed.

Lemma count_refs_nonneg p l : 0 <= count_refs p l.
Proof. apply zlen_nonneg. Qed.

Lemma count_refs_none p l : p ∉ l -> count_refs p l = 0.
Proof.
  induction l as [|q l IH]; [done|]. intros [Hne Hl]%not_elem_of_cons. rewrite count_refs_cons, decide_False by done.
  rewrite IH by done. done.
Qed.

(** The pointers of the table. *)
Abbreviation table_ptrs w := ((t_entries (so_table w)).*2).

Record sockets_inv (w : socket_heap) : Prop := mk_sockets_inv {
  si_ids : exists m n, ids_rep (so_table w) m n;
  si_owners : NoDup (table_ptrs w ++ so_closers w);
  si_live : forall p, p ∈ table_ptrs w ++ so_closers w ++ so_refs w -> is_Some (so_heap w !! p);
  si_count : forall p s, so_heap w !! p = Some s -> sk_refcount s = count_refs p (so_refs w);
  si_closing : forall p s, so_heap w !! p = Some s -> sk_closing s = true -> p ∈ so_closers w;
  si_freed : NoDup (so_freed w) /\ forall p, p ∈ so_freed w -> so_heap w !! p = None }.

Lemma key_find_ptr {K} `{EqDecision K} (k : K) (l : list (K * nat)) p : key_find k l = Some p -> p ∈ l.*2.
Proof.
  induction l as [|[k' q] l IH]; [done|]. cbn [key_find]. rewrite fmap_cons.
  case_bool_decide; [intros [= ->]; by left|]. intros ?%IH. by right.
Qed.

Lemma ids_find_ptr id (t : id_table nat) p : ids_find id t = Some p -> p ∈ (t_entries t).*2.
Proof. unfold ids_find. destruct (id =? 0); [done|]. apply key_find_ptr. Qed.

Lemma key_remove_ptrs {K} `{EqDecision K} (k : K) (l : list (K * nat)) p : key_find k l = Some p ->
  l.*2 ≡ₚ p :: (key_remove k l).*2.
Proof.
  induction l as [|[k' q] l IH]; [done|]. cbn [key_find key_remove]. case_bool_decide; rewrite !fmap_cons.
  - by intros [= ->].
  - intros Hf. rewrite (IH Hf). apply Permutation_swap.
Qed.

(** Updating one object keeps what does not look at it. *)
Lemma live_insert (heap : gmap nat ducknng_client_socket) p s (ps : list nat) :
  (forall q, q ∈ ps -> is_Some (heap !! q)) -> forall q, q ∈ ps -> is_Some (<[p := s]> heap !! q).
Proof. intros Hl q Hq. apply lookup_insert_is_Some'. auto. Qed.

Lemma freed_insert (heap : gmap nat ducknng_client_socket) freed p s s' : heap !! p = Some s ->
  (NoDup freed /\ forall q, q ∈ freed -> heap !! q = None) ->
  NoDup freed /\ forall q, q ∈ freed -> <[p := s']> heap !! q = None.
Proof.
  intros Hp [Hn Hf]. split; [done|]. intros q Hq. specialize (Hf q Hq). rewrite lookup_insert_ne; [done|]. congruence.
Qed.

Lemma so_open_inv w p t id : p ∉ dom (so_heap w) -> p ∉ so_freed w -> t_next (so_table w) < UINT64_MAX ->
  ids_add p (so_table w) = (t, id) -> sockets_inv w ->
  sockets_inv (mk_sockets t (<[p := new_socket]> (so_heap w)) (so_refs w) (so_closers w) (so_freed w)).
Proof.
  intros Hp Hfr Hnx Hadd [(m & n & Hr) Ho Hl Hc Hcl [Hf1 Hf2]]. apply not_elem_of_dom in Hp.
  pose proof (ids_step_rep _ _ _ (op_add p) Hr) as Hs. cbn in Hs. destruct (ir_next _ _ _ Hr) as [En _]. rewrite En in Hnx.
  destruct (Hs Hnx) as (_ & Hr' & _). injection Hadd as Ht Hid. rewrite Ht in Hr'. subst t.
  assert (forall q, q ∈ table_ptrs w ++ so_closers w ++ so_refs w -> q <> p) as Hnp.
  { intros q Hq ->. specialize (Hl p Hq). rewrite Hp in Hl. by destruct Hl. }
  split; cbn -[ids_add] in *.
  - eauto.
  - rewrite fmap_app. cbn. rewrite <- app_assoc. cbn. rewrite <- Permutation_middle. apply NoDup_cons. split; [|done].
    intros Hin. apply (Hnp p); [set_solver|done].
  - intros q. rewrite fmap_app. cbn. intros Hq. destruct (decide (q = p)) as [->|]; [rewrite lookup_insert_eq; eauto|].
    rewrite lookup_insert_ne by done. apply Hl. set_solver.
  - intros q s. destruct (decide (q = p)) as [->|]; [rewrite lookup_insert_eq; intros [= <-]|rewrite lookup_insert_ne by done; auto].
    cbn. rewrite count_refs_none; [done|]. intros Hin. apply (Hnp p); [set_solver|done].
  - intros q s. destruct (decide (q = p)) as [->|]; [rewrite lookup_insert_eq; by intros [= <-]|rewrite lookup_insert_ne by done; eauto].
  - split; [done|]. intros q Hq. rewrite lookup_insert_ne by (intros ->; done). auto.
Qed.

Lemma so_acquire_inv w p id w' : ducknng_runtime_acquire_client_socket id w = Some (p, w') -> sockets_inv w -> sockets_inv w'.
Proof.
  intros Ha [Hi Ho Hl Hc Hcl Hf]. unfold ducknng_runtime_acquire_client_socket in Ha.
  destruct (ids_find id (so_table w)) as [q|] eqn:Ei; [|done]. destruct (so_heap w !! q) as [s|] eqn:Es; [|done].
  unfold socket_acquire in Ha. destruct (sk_closing s) eqn:Ec; [done|]. injection Ha as <- <-.
  split; cbn in *; [done|done| | | |by eapply freed_insert].
  - apply live_insert. intros x Hx. destruct (decide (x = q)) as [->|]; [eauto|]. apply Hl. set_solver.
  - intros x s'. rewrite count_refs_cons. destruct (decide (x = q)) as [->|].
    + rewrite lookup_insert_eq. intros [= <-]. cbn. rewrite (Hc _ _ Es). lia.
    + rewrite lookup_insert_ne by done. intros Hx. rewrite (Hc _ _ Hx). lia.
  - intros x s'. destruct (decide (x = q)) as [->|]; [rewrite lookup_insert_eq; by intros [= <-]|].
    rewrite lookup_insert_ne by done. apply Hcl.
Qed.

Lemma so_release_inv t heap before p after closers freed s : heap !! p = Some s ->
  sockets_inv (mk_sockets t heap (before ++ p :: after) closers freed) ->
  sockets_inv (mk_sockets t (<[p := ducknng_runtime_release_client_socket s]> heap) (before ++ after) closers freed).
Proof.
  intros Hs [Hi Ho Hl Hc Hcl Hf]. split; cbn in *; [done|done| | | |by eapply freed_insert].
  - apply live_insert. intros q Hq. apply Hl. set_solver.
  - intros q s'. destruct (decide (q = p)) as [->|].
    + rewrite lookup_insert_eq. intros [= <-]. cbn. pose proof (Hc _ _ Hs) as Hcs. rewrite count_refs_middle in Hcs.
      rewrite decide_True in Hcs by done. pose proof (count_refs_nonneg p (before ++ after)).
      replace (0 <? sk_refcount s) with true by lia. lia.
    + rewrite lookup_insert_ne by done. intros Hq. rewrite (Hc _ _ Hq), count_refs_middle, decide_False by done. lia.
  - intros q s'. destruct (decide (q = p)) as [->|]; [rewrite lookup_insert_eq; intros [= <-]; cbn; by eapply Hcl|].
    rewrite lookup_insert_ne by done. apply Hcl.
Qed.

Lemma so_remove_inv w id t p : ids_remove id (so_table w) = (t, Some p) -> sockets_inv w ->
  sockets_inv (mk_sockets t (so_heap w) (so_refs w) (p :: so_closers w) (so_freed w)).
Proof.
  unfold ids_remove. destruct (Z.eqb_spec id 0) as [->|Hid]; [done|]. intros [= <- Hp] [(m & n & Hr) Ho Hl Hc Hcl Hf].
  pose proof (key_remove_ptrs id _ p Hp) as Hperm. split; cbn in *; [| | |done| |done].
  - exists (delete id m), n. destruct Hr as [Hh [Hn H1] Hu Hfit]. split; cbn; [by apply holds_remove|done| |].
    + intros id' [? [? ?]%lookup_delete_Some]. apply Hu. eauto.
    + pose proof (key_remove_length id (t_entries (so_table w))). lia.
  - rewrite <- Permutation_middle. rewrite Hperm in Ho. done.
  - intros q Hq. apply Hl. assert (p ∈ table_ptrs w) by (by eapply key_find_ptr).
    assert (forall x, x ∈ (key_remove id (t_entries (so_table w))).*2 -> x ∈ table_ptrs w) as Hsub
      by (intros x Hx; rewrite Hperm; by right). set_solver.
  - intros q s Hq Hclosing. right. by eapply Hcl.
Qed.

Lemma so_closing_inv t heap refs p closers freed s : p ∈ closers -> heap !! p = Some s ->
  sockets_inv (mk_sockets t heap refs closers freed) -> sockets_inv (mk_sockets t (<[p := destroy_begin s]> heap) refs closers freed).
Proof.
  intros Hp Hs [Hi Ho Hl Hc Hcl Hf]. split; cbn in *; [done|done|by apply live_insert| | |by eapply freed_insert].
  - intros q s'. destruct (decide (q = p)) as [->|]; [rewrite lookup_insert_eq; intros [= <-]; cbn; by apply Hc|].
    rewrite lookup_insert_ne by done. apply Hc.
  - intros q s'. destruct (decide (q = p)) as [->|]; [done|]. rewrite lookup_insert_ne by done. apply Hcl.
Qed.

Lemma so_free_inv t heap refs before p after freed s : heap !! p = Some s -> destroy_may_end s = true ->
  sockets_inv (mk_sockets t heap refs (before ++ p :: after) freed) ->
  sockets_inv (mk_sockets t (delete p heap) refs (before ++ after) (p :: freed)).
Proof.
  intros Hs Hend [Hi Ho Hl Hc Hcl [Hf1 Hf2]]. cbn in *. unfold destroy_may_end in Hend. btests.
  assert (p ∉ refs) as Hnr.
  { intros Hin. pose proof (Hc _ _ Hs) as Hcs. unfold count_refs in Hcs.
    assert (p ∈ filter (eq p) refs) as Hin' by (by apply list_elem_of_filter).
    destruct (filter (eq p) refs); [by apply elem_of_nil in Hin'|]. rewrite zlen_cons in Hcs.
    pose proof (zlen_nonneg l). lia. }
  rewrite app_assoc in Ho. rewrite <- Permutation_middle in Ho. apply NoDup_cons in Ho as [Hno Ho]. rewrite <- app_assoc in Ho, Hno.
  split; cbn in *; [done|done| | | |].
  - intros q Hq. assert (q <> p) by (intros ->; set_solver). rewrite lookup_delete_ne by done. apply Hl. set_solver.
  - intros q s'. intros [? ?]%lookup_delete_Some. by apply Hc.
  - intros q s' [? Hq]%lookup_delete_Some Hcs. specialize (Hcl q s' Hq Hcs). set_solver.
  - split.
    + apply NoDup_cons. split; [|done]. intros Hin%Hf2. congruence.
    + intros q [->|Hq]%elem_of_cons; [apply lookup_delete_eq|]. apply lookup_delete_None. auto.
Qed.

Lemma no_sockets_inv : sockets_inv no_sockets.
Proof.
  split; cbn; [exists ∅, 1; apply ids_rep_empty|apply NoDup_nil_2|set_solver|done|done|].
  split; [apply NoDup_nil_2|set_solver].
Qed.

Lemma socket_step_inv w w' : socket_step w w' -> sockets_inv w -> sockets_inv w'.
Proof.
  intros []; eauto using so_open_inv, so_acquire_inv, so_release_inv, so_remove_inv, so_closing_inv, so_free_inv.
Qed.


