(* ===== verification/HttpProfile.v ===== *)
(** HTTP profiles: named credentials that are added to a request only inside
    the scope they were registered for; from [src/src/ducknng_http_profile.c].

    NNG's URL parser and the wall clock are arguments; failing allocations are
    not modelled. *)

From stdpp Require Import gmap.
From S2P Require Import Prelude Util Transport HttpHeaders Runtime.

(** ** Profiles *)

Record ducknng_http_profile := mk_profile {
  p_scheme : bytes; p_host : bytes; p_port : Z; p_has_port : bool; path_prefix : bytes; p_method : bytes;
  tls_required : bool; auth_header_name : bytes; auth_header_value : bytes; allow_subjects_json : option bytes;
  p_version : Z; created_ms : Z; updated_ms : Z; expires_at_ms : Z }.

(** What introspection shows. *)
Record ducknng_http_profile_info := mk_profile_info {
  i_profile_id : bytes; i_scheme : bytes; i_host : bytes; i_port : Z; i_has_port : bool; i_path_prefix : bytes;
  i_method : bytes; i_tls_required : bool; auth_header_names_json : bytes; i_allow_subjects_json : option bytes;
  i_version : Z; i_created_ms : Z; i_updated_ms : Z; i_expires_at_ms : Z }.

Record profile_table := mk_profiles {
  http_profiles : list (bytes * ducknng_http_profile); http_profile_cap : Z; next_http_profile_version : Z }.

Definition ducknng_http_profile_string_clean (s : option bytes) : bool :=
  match s with
  | Some ((_ :: _) as s) => forallb (fun c => negb ((c <? 0x20) || (c =? 0x7f))%bool) s
  | _ => false
  end.

(** Blanks, tabs and line ends removed at both ends. *)
Definition trim (s : bytes) : bytes := rev (skip_blank (rev (skip_blank s))).

Definition ducknng_http_profile_dup_trim_lower (s : option bytes) : option bytes :=
  match s with
  | None => None
  | Some s => match trim s with [] => None | t => Some (ducknng_ascii_tolower_int <$> t) end
  end.

Definition upper (c : Z) : Z := if ((97 <=? c) && (c <=? 122))%bool then c - 32 else c.

Definition ducknng_http_profile_dup_trim_upper (s : option bytes) : option bytes :=
  match s with
  | None => None
  | Some s => match trim s with [] => None | t => Some (upper <$> t) end
  end.

Definition ducknng_http_profile_method_valid (method : bytes) : bool :=
  match method with
  | [] => false
  | _ => if str_eq method (lit "*") then true else ducknng_http_token_is_valid (Some method)
  end.

Definition ducknng_http_profile_header_value_valid (value : option bytes) : bool :=
  (nonempty value && ducknng_http_header_value_is_valid value)%bool.

Definition prefix_of (prefix path : bytes) : bool := str_eq (ztake (zlen prefix) path) prefix.

Definition ducknng_http_profile_path_in_scope (path prefix : bytes) : bool :=
  if negb (cur prefix =? chr "/") then false else
  if str_eq prefix (lit "/") then true else
  if negb (prefix_of prefix path) then false else
  let next := cur (zdrop (zlen prefix) path) in
  if next =? 0 then true else
  if cur (rev prefix) =? chr "/" then true else next =? chr "/".

Definition ducknng_http_profile_public_copy (id : bytes) (p : ducknng_http_profile) : ducknng_http_profile_info :=
  mk_profile_info id (p_scheme p) (p_host p) (p_port p) (p_has_port p) (path_prefix p) (p_method p) (tls_required p)
    ([91; QUOTE] ++ auth_header_name p ++ [QUOTE; 93]) (allow_subjects_json p) (p_version p) (created_ms p)
    (updated_ms p) (expires_at_ms p).

Definition ducknng_http_profiles_reserve (want cap : Z) : Z :=
  if want <=? cap then cap else reg_reserve_loop 64 (if negb (cap =? 0) then cap * 2 else 4) want.

(** [version = next++], and once more when that gave 0. *)
Definition take_version (next : Z) : Z * Z :=
  let after := u64 (next + 1) in if next =? 0 then (after, u64 (after + 1)) else (next, after).

(** The arguments of a registration. *)
Record profile_request := mk_profile_request {
  pr_id : option bytes; pr_scheme : option bytes; pr_host : option bytes; pr_port : Z; pr_has_port : bool;
  pr_path_prefix : option bytes; pr_method : option bytes; pr_tls_required : bool;
  pr_header_name : option bytes; pr_header_value : option bytes; pr_expires_at_ms : Z; pr_subjects : option bytes }.

Definition check (bad : bool) (text : string) : result bytes unit := if bad then Err (lit text) else Ok tt.

(** The checks and the copy, before the table is locked. *)
Definition profile_of (rq : profile_request) : result bytes (bytes * ducknng_http_profile) :=
  let! _ := (if nonempty (pr_subjects rq) then
      match ducknng_json_string_array_contains (pr_subjects rq) None with
      | Err _ => Err (lit "ducknng: HTTP profile allow_subjects_json must be a JSON array of strings")
      | Ok (_, n) => check (n =? 0) "ducknng: HTTP profile allow_subjects_json must list at least one subject; pass NULL for an unrestricted profile"
      end else Ok tt) in
  let! _ := check (negb (ducknng_http_profile_string_clean (pr_id rq)))
    "ducknng: HTTP profile id must be a non-empty string without control characters" in
  let! _ := check (negb (ducknng_http_profile_string_clean (pr_host rq)))
    "ducknng: HTTP profile host must be a non-empty host name" in
  let! _ := check (negb (nonempty (pr_path_prefix rq)) || negb (cur (default [] (pr_path_prefix rq)) =? chr "/"))%bool
    "ducknng: HTTP profile path_prefix must start with '/'" in
  let! _ := check (negb (ducknng_http_token_is_valid (pr_header_name rq)))
    "ducknng: HTTP profile auth header name must be an HTTP token" in
  let! _ := check (negb (ducknng_http_profile_header_value_valid (pr_header_value rq)))
    "ducknng: HTTP profile auth header value must be non-empty and must not contain control characters" in
  let! _ := check (pr_has_port rq && ((pr_port rq <=? 0) || (65535 <? pr_port rq)))%bool
    "ducknng: HTTP profile port must be between 1 and 65535" in
  match ducknng_http_profile_dup_trim_lower (pr_scheme rq), ducknng_http_profile_dup_trim_lower (pr_host rq),
        ducknng_http_profile_dup_trim_upper (if nonempty (pr_method rq) then pr_method rq else Some (lit "*")) with
  | Some scheme, Some host, Some method =>
    let! _ := check (negb (str_eq scheme (lit "http") || str_eq scheme (lit "https")))%bool
      "ducknng: HTTP profile scheme must be http or https" in
    let! _ := check (pr_tls_required rq && negb (str_eq scheme (lit "https")))%bool
      "ducknng: HTTP profile tls_required requires scheme = 'https'" in
    let! _ := check (negb (ducknng_http_profile_method_valid method))
      "ducknng: HTTP profile method must be an HTTP token or '*'" in
    Ok (default [] (pr_id rq),
        mk_profile scheme host (if pr_has_port rq then u16 (pr_port rq) else 0) (pr_has_port rq)
          (default [] (pr_path_prefix rq)) method (pr_tls_required rq) (default [] (pr_header_name rq))
          (default [] (pr_header_value rq)) (if nonempty (pr_subjects rq) then pr_subjects rq else None) 0 0 0
          (pr_expires_at_ms rq))
  | _, _, _ => Err (lit "ducknng: out of memory copying HTTP profile")
  end.

Definition stamp (version created updated : Z) (p : ducknng_http_profile) : ducknng_http_profile :=
  mk_profile (p_scheme p) (p_host p) (p_port p) (p_has_port p) (path_prefix p) (p_method p) (tls_required p)
    (auth_header_name p) (auth_header_value p) (allow_subjects_json p) version created updated (expires_at_ms p).

Definition ducknng_runtime_upsert_http_profile (rq : profile_request) (now : Z) (t : profile_table)
    : result bytes profile_table :=
  let! (id, p) := profile_of rq in
  let (version, next) := take_version (next_http_profile_version t) in
  match key_find id (http_profiles t) with
  | Some old =>
    Ok (mk_profiles (key_set id (stamp version (created_ms old) now p) (http_profiles t)) (http_profile_cap t) next)
  | None =>
    Ok (mk_profiles (http_profiles t ++ [(id, stamp version now now p)])
          (ducknng_http_profiles_reserve (zlen (http_profiles t) + 1) (http_profile_cap t)) next)
  end.

Definition ducknng_runtime_drop_http_profile (id : option bytes) (t : profile_table) : profile_table * bool :=
  if negb (nonempty id) then (t, false) else
  (mk_profiles (key_remove (default [] id) (http_profiles t)) (http_profile_cap t) (next_http_profile_version t),
   bool_decide (key_find (default [] id) (http_profiles t) <> None)).

Definition ducknng_runtime_http_profiles_snapshot (t : profile_table) : list ducknng_http_profile_info :=
  (fun e => ducknng_http_profile_public_copy e.1 e.2) <$> http_profiles t.

Definition ducknng_http_profile_find_copy (id : option bytes) (t : profile_table) : result bytes ducknng_http_profile :=
  match id with
  | Some ((_ :: _) as id) =>
    match key_find id (http_profiles t) with
    | Some p => Ok p
    | None => Err (lit "ducknng: HTTP profile not found")
    end
  | _ => Err (lit "ducknng: HTTP profile id is required")
  end.

(** ** Ports *)

(** The digits at the start and the text behind them. *)
Fixpoint digits (p : bytes) (acc : Z) (any : bool) : Z * bool * bytes :=
  match p with
  | c :: r => if ((48 <=? c) && (c <=? 57))%bool then digits r (acc * 10 + (c - 48)) true else (acc, any, p)
  | [] => (acc, any, [])
  end.

(** [strtoul(s, &end, 10)]: blanks, a sign, digits; a number too large gives
    the largest one, a negative one wraps.  [None] is [end == s]. *)
Definition strtoul (s : bytes) : option (Z * bytes) :=
  let p := ducknng_http_skip_ws s in
  let neg := cur p =? chr "-" in
  let p := if (neg || (cur p =? chr "+"))%bool then zdrop 1 p else p in
  match digits p 0 false with
  | (_, false, _) => None
  | (v, true, rest) => Some (if UINT64_MAX <? v then UINT64_MAX else if neg then u64 (- v) else v, rest)
  end.

Definition ducknng_http_profile_parse_port (s : option bytes) (dflt : Z) : option Z :=
  if negb (nonempty s) then Some dflt else
  match strtoul (default [] s) with
  | None => None
  | Some (value, rest) =>
    if (bool_decide (rest <> []) || (value =? 0) || (65535 <? value))%bool then None else Some value
  end.

(** ** The header *)

Definition profile_escape (c : Z) : bytes :=
  if c =? QUOTE then [BACKSLASH; QUOTE] else
  if c =? BACKSLASH then [BACKSLASH; BACKSLASH] else
  if c =? 10 then [BACKSLASH; chr "n"] else
  if c =? 13 then [BACKSLASH; chr "r"] else
  if c =? 9 then [BACKSLASH; chr "t"] else
  if c <? 0x20 then unicode_escape c else [c].

Definition ducknng_http_profile_json_escape_dup (s : bytes) : bytes := s ≫= profile_escape.

Definition ducknng_http_profile_auth_header_object (name value : bytes) : bytes :=
  lit "{" ++ [QUOTE] ++ lit "name" ++ [QUOTE] ++ lit ":" ++ [QUOTE] ++ ducknng_http_profile_json_escape_dup name ++ [QUOTE] ++
  lit "," ++ [QUOTE] ++ lit "value" ++ [QUOTE] ++ lit ":" ++ [QUOTE] ++ ducknng_http_profile_json_escape_dup value ++ [QUOTE] ++
  lit "}".

(** [inside] is the text before the closing bracket. *)
Definition ducknng_http_profile_headers_empty_array (inside : bytes) : bool :=
  let p := skip_blank inside in
  if negb (cur p =? chr "[") then false else bool_decide (skip_blank (zdrop 1 p) = []).

Definition ducknng_http_profile_merge_headers (headers_json : option bytes) (name value : bytes) : result bytes bytes :=
  let auth := ducknng_http_profile_auth_header_object name value in
  if negb (nonempty headers_json) then Ok (lit "[" ++ auth ++ lit "]") else
  match skip_blank (rev (default [] headers_json)) with
  | c :: rinside =>
    if negb (c =? chr "]") then Err (lit "ducknng: invalid headers_json") else
    let inside := rev rinside in
    if ducknng_http_profile_headers_empty_array inside then Ok (lit "[" ++ auth ++ lit "]")
    else Ok (inside ++ lit "," ++ auth ++ lit "]")
  | [] => Err (lit "ducknng: invalid headers_json")
  end.

(** ** Resolution *)

(** What [nng_url_parse] reports. *)
Record nng_url := mk_nng_url { u_scheme : option bytes; u_hostname : option bytes; u_port : option bytes; u_path : option bytes }.

Record profile_use := mk_use {
  pu_id : option bytes; pu_url : option bytes; pu_method : option bytes; pu_headers : option bytes;
  pu_connection : option Z; pu_thread_subject : option bytes }.

Section resolve.
Context (nng_url_parse : bytes -> option nng_url) (subjects : subject_table).

(** The subject whose SQL this is: the connection's, else the thread's. *)
Definition effective_subject (u : profile_use) : option bytes :=
  let bound := match pu_connection u with
    | Some c => ducknng_runtime_execution_subject_for_connection_dup c subjects
    | None => None
    end in
  if nonempty bound then bound else pu_thread_subject u.

Definition subject_admitted (p : ducknng_http_profile) (u : profile_use) : bool :=
  (negb (nonempty (allow_subjects_json p)) ||
   (nonempty (effective_subject u) &&
    match ducknng_json_string_array_contains (allow_subjects_json p) (effective_subject u) with
    | Ok (found, _) => found
    | Err _ => false
    end))%bool.

Definition ducknng_runtime_resolve_http_profile_headers (t : profile_table) (now : Z) (u : profile_use)
    : result bytes (option bytes) :=
  if negb (nonempty (pu_id u)) then Ok (if nonempty (pu_headers u) then pu_headers u else None) else
  let! _ := check (negb (nonempty (pu_url u))) "ducknng: HTTP profile resolution requires runtime and URL" in
  let! p := ducknng_http_profile_find_copy (pu_id u) t in
  let! _ := check (negb (expires_at_ms p =? 0) && (expires_at_ms p <? now))%bool "ducknng: HTTP profile expired" in
  let! _ := check (negb (subject_admitted p u)) "ducknng: HTTP profile admission rejected request subject" in
  let! transport := ducknng_transport_url_parse (pu_url u) in
  let! _ := check (negb (ducknng_transport_url_is_http (Some transport))) "ducknng: http:// or https:// URL is required" in
  let! _ := check (tls_required p && negb (uses_tls transport))%bool "ducknng: HTTP profile requires a TLS URL" in
  let! url := match nng_url_parse (default [] (pu_url u)) with
    | None => Err (lit "ducknng: failed to parse HTTP URL for profile scope") | Some url => Ok url end in
  let! _ := check (negb (ducknng_ascii_ieq (u_scheme url) (Some (p_scheme p)))) "ducknng: HTTP profile scope rejected URL scheme" in
  let! _ := check (negb (ducknng_ascii_ieq (u_hostname url) (Some (p_host p)))) "ducknng: HTTP profile scope rejected URL host" in
  let! got_port := match ducknng_http_profile_parse_port (u_port url) (if uses_tls transport then 443 else 80) with
    | None => Err (lit "ducknng: HTTP profile scope rejected invalid URL port") | Some port => Ok port end in
  let! _ := check (p_has_port p && negb (got_port =? p_port p))%bool "ducknng: HTTP profile scope rejected URL port" in
  let path := if nonempty (u_path url) then default [] (u_path url) else lit "/" in
  let! _ := check (negb (ducknng_http_profile_path_in_scope path (path_prefix p))) "ducknng: HTTP profile scope rejected URL path" in
  let! method := match ducknng_http_profile_dup_trim_upper (if nonempty (pu_method u) then pu_method u else Some (lit "GET")) with
    | None => Err (lit "ducknng: out of memory copying HTTP method") | Some m => Ok m end in
  let! _ := check (negb (ducknng_http_token_is_valid (Some method))) "ducknng: HTTP method must be an HTTP token" in
  let! _ := check (negb (str_eq (p_method p) (lit "*")) && negb (str_eq (p_method p) method))%bool
    "ducknng: HTTP profile scope rejected HTTP method" in
  let! _ := if nonempty (pu_headers u) then
      match (ducknng_http_headers_json_get_header (pu_headers u) (Some (auth_header_name p)) false).2 with
      | Err e => Err e
      | Ok (Some _) => Err (lit "ducknng: caller header collides with HTTP profile auth header")
      | Ok None => Ok tt
      end else Ok tt in
  let! out := ducknng_http_profile_merge_headers (pu_headers u) (auth_header_name p) (auth_header_value p) in
  Ok (Some out).
End resolve.

(** ** Scope *)

(** A path at or below a prefix, at a segment boundary. *)
Definition path_below (prefix path : bytes) : Prop :=
  prefix = lit "/" \/
  cur prefix = chr "/" /\ exists rest, path = prefix ++ rest /\ (rest = [] \/ cur (rev prefix) = chr "/" \/ cur rest = chr "/").

Lemma path_in_scope_exact path prefix : cstr path ->
  ducknng_http_profile_path_in_scope path prefix = true <-> path_below prefix path.
Proof.
  intros Hc. unfold ducknng_http_profile_path_in_scope, path_below, prefix_of, str_eq.
  destruct (Z.eqb_spec (cur prefix) (chr "/")) as [Hp|Hp]; cbn [negb].
  2: { split; [done|]. intros [->|[? _]]; [by destruct Hp|done]. }
  case_bool_decide as H1; [split; [by left|done]|]. case_bool_decide as H2; cbn [negb].
  - pose proof (ztake_zdrop (zlen prefix) path) as Hsplit. rewrite H2 in Hsplit. symmetry in Hsplit.
    set (rest := zdrop (zlen prefix) path) in *. clearbody rest. rewrite Hsplit in Hc. apply Forall_app in Hc as [_ Hr].
    assert (cur rest = 0 -> rest = []) as H0.
    { destruct rest as [|c rest]; [done|]. cbn. intros ->. apply Forall_cons in Hr as [Hr _]. unfold is_char in Hr. lia. }
    split.
    + intros Ht. right. split; [done|]. exists rest. split; [done|]. destruct (Z.eqb_spec (cur rest) 0); [auto|].
      destruct (Z.eqb_spec (cur (rev prefix)) (chr "/")); [auto|]. btests. auto.
    + intros [->|(_ & rest' & E & Hor)]; [done|]. rewrite Hsplit in E. apply app_inv_head in E. subst rest'.
      destruct (Z.eqb_spec (cur rest) 0); [done|]. destruct (Z.eqb_spec (cur (rev prefix)) (chr "/")); [done|].
      apply Z.eqb_eq. naive_solver.
  - split; [done|]. intros [->|(_ & rest & -> & _)]; [done|]. destruct H2. unfold ztake, zlen. rewrite Nat2Z.id.
    by rewrite take_app_length.
Qed.

Lemma url_path_cstr url : cstr (default [] (u_path url)) ->
  cstr (if nonempty (u_path url) then default [] (u_path url) else lit "/").
Proof. intros H. destruct (nonempty _); [done|]. apply (bool_decide_unpack _). by vm_compute. Qed.

Section scope.
Context (nng_url_parse : bytes -> option nng_url) (subjects : subject_table).

(** What a use of a profile must be: its expiry, its subjects, and its
    scheme, host, port, path and method. *)
Record in_scope (p : ducknng_http_profile) (now : Z) (u : profile_use) : Prop := mk_in_scope {
  sc_live : expires_at_ms p = 0 \/ now <= expires_at_ms p;
  sc_subject : nonempty (allow_subjects_json p) = true -> exists s n,
    effective_subject subjects u = Some s /\ s <> [] /\
    ducknng_json_string_array_contains (allow_subjects_json p) (Some s) = Ok (true, n);
  sc_url : exists transport url port method,
    ducknng_transport_url_parse (pu_url u) = Ok transport /\ ducknng_transport_url_is_http (Some transport) = true /\
    (tls_required p = true -> uses_tls transport = true) /\
    nng_url_parse (default [] (pu_url u)) = Some url /\
    ducknng_ascii_ieq (u_scheme url) (Some (p_scheme p)) = true /\
    ducknng_ascii_ieq (u_hostname url) (Some (p_host p)) = true /\
    ducknng_http_profile_parse_port (u_port url) (if uses_tls transport then 443 else 80) = Some port /\
    (p_has_port p = true -> port = p_port p) /\
    path_below (path_prefix p) (if nonempty (u_path url) then default [] (u_path url) else lit "/") /\
    ducknng_http_profile_dup_trim_upper (if nonempty (pu_method u) then pu_method u else Some (lit "GET")) = Some method /\
    ducknng_http_token_is_valid (Some method) = true /\ (p_method p = lit "*" \/ p_method p = method);
  sc_header : nonempty (pu_headers u) = true ->
    (ducknng_http_headers_json_get_header (pu_headers u) (Some (auth_header_name p)) false).2 = Ok None }.

Lemma check_then {A} b text (k : result bytes A) r : res_bind (check b text) (fun _ => k) = Ok r <-> b = false /\ k = Ok r.
Proof. destruct b; cbn; naive_solver. Qed.

Lemma subject_admitted_exact p u : subject_admitted subjects p u = true <->
  (nonempty (allow_subjects_json p) = true -> exists s n,
    effective_subject subjects u = Some s /\ s <> [] /\
    ducknng_json_string_array_contains (allow_subjects_json p) (Some s) = Ok (true, n)).
Proof.
  unfold subject_admitted. destruct (nonempty (allow_subjects_json p)); cbn [negb orb]; [|done].
  destruct (effective_subject subjects u) as [[|c s]|]; cbn [nonempty andb].
  - split; [done|]. intros H. by destruct (H eq_refl) as (s' & n & [= <-] & ? & _).
  - destruct (ducknng_json_string_array_contains _ (Some (c :: s))) as [[[] n]|e] eqn:E.
    + split; [|done]. intros _ _. by exists (c :: s), n.
    + split; [done|]. intros H. destruct (H eq_refl) as (s' & n' & [= <-] & _ & E'). congruence.
    + split; [done|]. intros H. destruct (H eq_refl) as (s' & n' & [= <-] & _ & E'). congruence.
  - split; [done|]. intros H. by destruct (H eq_refl) as (s' & n & ? & _).
Qed.

Lemma resolve_in_scope t now u id p :
  (forall text url, nng_url_parse text = Some url -> cstr (default [] (u_path url))) -> pu_id u = Some id -> id <> [] -> nonempty (pu_url u) = true ->
  key_find id (http_profiles t) = Some p ->
  forall out, ducknng_runtime_resolve_http_profile_headers nng_url_parse subjects t now u = Ok (Some out) <->
    in_scope p now u /\ ducknng_http_profile_merge_headers (pu_headers u) (auth_header_name p) (auth_header_value p) = Ok out.
Proof.
  intros Hcstr Hid Hne Hurl Hp out. unfold ducknng_runtime_resolve_http_profile_headers.
  destruct id as [|c id]; [done|]. rewrite Hid, Hurl. cbn [nonempty negb ducknng_http_profile_find_copy]. rewrite Hp.
  unfold check at 1. cbn [res_bind]. rewrite !check_then.
  split.
  - intros (H1 & H2 & H). apply andb_false_iff in H1. apply negb_false_iff in H2. pose proof (proj1 (subject_admitted_exact p u) H2) as Hsub.
    destruct (ducknng_transport_url_parse (pu_url u)) as [tr|] eqn:Etr; [|done]. cbn [res_bind] in H.
    rewrite !check_then in H. destruct H as (H3 & H4 & H). destruct (nng_url_parse _) as [url|] eqn:Eurl; [|done].
    cbn [res_bind] in H. rewrite !check_then in H. destruct H as (H5 & H6 & H).
    destruct (ducknng_http_profile_parse_port _ _) as [port|] eqn:Eport; [|done]. cbn [res_bind] in H.
    rewrite !check_then in H. destruct H as (H7 & H8 & H).
    apply negb_false_iff, path_in_scope_exact in H8; [|by apply url_path_cstr, (Hcstr _ _ Eurl)].
    destruct (ducknng_http_profile_dup_trim_upper _) as [m|] eqn:Em; [|done]. cbn [res_bind] in H.
    rewrite !check_then in H. destruct H as (H9 & H10 & H).
    assert (nonempty (pu_headers u) = true ->
      (ducknng_http_headers_json_get_header (pu_headers u) (Some (auth_header_name p)) false).2 = Ok None) as H11.
    { intros Hh. rewrite Hh in H. destruct (ducknng_http_headers_json_get_header _ _ _).2 as [[|]|]; done. }
    split.
    + split; [destruct H1; btests; lia|done| |done]. btests. exists tr, url, port, m. repeat (split; [done|]).
      split; [intros Ht; rewrite Ht in H4; by destruct (uses_tls tr)|]. repeat (split; [done|]).
      split; [intros Ht; rewrite Ht in H7; cbn in H7; by btests|]. repeat (split; [done|]).
      apply andb_false_iff in H10 as [H10|H10]; apply negb_false_iff, bool_decide_eq_true in H10; auto.
    + destruct (nonempty (pu_headers u)); [rewrite H11 in H by done|]; cbn [res_bind] in H;
        destruct (ducknng_http_profile_merge_headers _ _ _); cbn in H; congruence.
  - intros [[H1 H2 (tr & url & port & m & Etr & H3 & H4 & Eurl & H5 & H6 & Eport & H7 & H8 & Em & H9 & H10) H11] Hm].
    apply path_in_scope_exact in H8; [|by apply url_path_cstr, (Hcstr _ _ Eurl)].
    pose proof (proj2 (subject_admitted_exact p u) H2) as Hsub. rewrite Hsub, Etr. cbn [negb res_bind].
    rewrite !check_then, H3, Eurl. cbn [res_bind]. rewrite !check_then, H5, H6, Eport. cbn [res_bind].
    rewrite !check_then, H8, Em. cbn [res_bind]. rewrite !check_then, H9.
    split; [apply andb_false_iff; destruct H1 as [->|]; [by left|right; lia]|]. do 2 (split; [done|]).
    split; [destruct (tls_required p); [by rewrite H4|done]|]. do 2 (split; [done|]).
    split; [destruct (p_has_port p); [rewrite H7 by done; by rewrite Z.eqb_refl|done]|]. do 2 (split; [done|]). split.
    + unfold str_eq. destruct H10 as [-> | ->]; [by rewrite bool_decide_eq_true_2|].
      rewrite (bool_decide_eq_true_2 (m = m)) by done. by rewrite andb_false_r.
    + destruct (nonempty (pu_headers u)); [rewrite H11 by done|]; cbn [res_bind]; by rewrite Hm.
Qed.
End scope.

(** ** The merged headers *)

Lemma profile_escape_visible s : forallb visible s = true -> ducknng_http_profile_json_escape_dup s = s ≫= http_escape.
Proof.
  unfold ducknng_http_profile_json_escape_dup. induction s as [|c s IH]; [done|]. cbn [forallb]. intros [Hc Hs]%andb_true_iff.
  cbn. rewrite <- (IH Hs). f_equal. unfold profile_escape, http_escape, visible in *.
  destruct (c =? QUOTE); [done|]. destruct (c =? BACKSLASH); [done|].
  assert (c =? 8 = false) as -> by lia. assert (c =? 12 = false) as -> by lia. done.
Qed.

Lemma auth_object_rendered name value : sendable (name, value) ->
  ducknng_http_profile_auth_header_object name value = render_header http_escape (name, value).
Proof.
  intros [Hn Hv]. unfold ducknng_http_profile_auth_header_object, render_header, render_field, json_quote. cbn [fst snd].
  rewrite !profile_escape_visible; [|exact Hv|].
  - change (lit "name" ≫= http_escape) with (lit "name"). change (lit "value" ≫= http_escape) with (lit "value").
    repeat (rewrite <- app_assoc || cbn [app]). reflexivity.
  - destruct name as [|c name]; [done|]. unfold ducknng_http_token_is_valid in Hn. cbn [fst] in Hn. apply forallb_forall. rewrite forallb_forall in Hn. intros x Hx.
    by apply token_char_visible, Hn.
Qed.

Lemma join_snoc sep l x : l <> [] -> join sep (l ++ [x]) = join sep l ++ sep ++ x.
Proof.
  induction l as [|y l IH]; [done|]. intros _. destruct l as [|z l]; [done|].
  change (join sep ((y :: z :: l) ++ [x])) with (y ++ sep ++ join sep ((z :: l) ++ [x])). rewrite IH by done.
  change (join sep (y :: z :: l)) with (y ++ sep ++ join sep (z :: l)). by rewrite <- !app_assoc.
Qed.

Lemma merge_rendered kvs name value : sendable (name, value) ->
  ducknng_http_profile_merge_headers (Some (render_headers http_escape kvs)) name value =
  Ok (render_headers http_escape (kvs ++ [(name, value)])).
Proof.
  intros Hs. unfold ducknng_http_profile_merge_headers, render_headers. rewrite auth_object_rendered by done.
  set (body := join (lit ",") (render_header http_escape <$> kvs)).
  assert (nonempty (Some (lit "[" ++ body ++ lit "]")) = true) as -> by done. cbn [negb]. change (default [] (Some ?x)) with x.
  rewrite app_assoc, rev_app_distr. change (rev (lit "]")) with (lit "]").
  change (skip_blank (lit "]" ++ rev (lit "[" ++ body))) with (93 :: rev (lit "[" ++ body)). cbv beta iota.
  change (93 =? chr "]") with true. cbn [negb]. rewrite rev_involutive. rewrite fmap_app. cbn [fmap list_fmap].
  destruct kvs as [|kv kvs].
  - done.
  - replace (ducknng_http_profile_headers_empty_array (lit "[" ++ body)) with false.
    + rewrite join_snoc by done. fold body. by rewrite <- !app_assoc.
    + unfold body. clear body. rewrite fmap_cons. unfold ducknng_http_profile_headers_empty_array.
      change (skip_blank (lit "[" ++ ?x)) with (lit "[" ++ x). change (cur (lit "[" ++ ?x)) with 91. cbn [negb].
      change (zdrop 1 (lit "[" ++ ?x)) with x. symmetry. change (91 =? chr "[") with true. cbn [negb].
      apply bool_decide_eq_false_2. unfold render_header at 1.
      destruct (render_header http_escape <$> kvs); cbn [join app lit]; done.
Qed.

Lemma merge_none name value : sendable (name, value) ->
  ducknng_http_profile_merge_headers None name value = Ok (render_headers http_escape [(name, value)]).
Proof. intros Hs. unfold ducknng_http_profile_merge_headers. by rewrite auth_object_rendered. Qed.

(** ** Secrets *)

Definition redact (p : ducknng_http_profile) : ducknng_http_profile :=
  mk_profile (p_scheme p) (p_host p) (p_port p) (p_has_port p) (path_prefix p) (p_method p) (tls_required p)
    (auth_header_name p) [] (allow_subjects_json p) (p_version p) (created_ms p) (updated_ms p) (expires_at_ms p).

Definition redact_entry (e : bytes * ducknng_http_profile) : bytes * ducknng_http_profile := (e.1, redact e.2).

(** The same profiles, with other secrets. *)
Definition same_but_secrets (t t' : profile_table) : Prop :=
  redact_entry <$> http_profiles t = redact_entry <$> http_profiles t'.

(** Both calls succeed, or both fail with the same message. *)
Definition same_outcome {A} (r r' : result bytes A) : Prop :=
  match r, r' with Ok _, Ok _ => True | Err e, Err e' => e = e' | _, _ => False end.

Lemma bind_same {A B} (m : result bytes A) (f g : A -> result bytes B) :
  (forall a, same_outcome (f a) (g a)) -> same_outcome (res_bind m f) (res_bind m g).
Proof. intros H. destruct m; [apply H|done]. Qed.

Lemma find_redacted id l : redact <$> key_find id l = key_find id (redact_entry <$> l).
Proof. induction l as [|[k p] l IH]; [done|]. cbn. by case_bool_decide. Qed.

Lemma merge_same h name v v' : same_outcome (ducknng_http_profile_merge_headers h name v) (ducknng_http_profile_merge_headers h name v').
Proof.
  unfold ducknng_http_profile_merge_headers. destruct (negb _); [done|]. destruct (skip_blank _) as [|c r]; [done|].
  destruct (negb _); [done|]. by destruct (ducknng_http_profile_headers_empty_array _).
Qed.

Lemma resolve_same parse subjects t t' now u : same_but_secrets t t' ->
  same_outcome (ducknng_runtime_resolve_http_profile_headers parse subjects t now u)
    (ducknng_runtime_resolve_http_profile_headers parse subjects t' now u).
Proof.
  intros Hs. unfold ducknng_runtime_resolve_http_profile_headers. destruct (negb (nonempty (pu_id u))); [done|].
  apply bind_same. intros _. unfold ducknng_http_profile_find_copy. destruct (pu_id u) as [[|c id]|]; [done| |done].
  pose proof (find_redacted (c :: id) (http_profiles t)) as H1. pose proof (find_redacted (c :: id) (http_profiles t')) as H2.
  unfold same_but_secrets in Hs. rewrite Hs, <- H2 in H1. clear H2 Hs.
  destruct (key_find (c :: id) (http_profiles t)) as [[]|], (key_find (c :: id) (http_profiles t')) as [[]|]; try done.
  cbn in H1. unfold redact in H1. cbn in H1. injection H1 as -> -> -> -> -> -> -> -> -> -> -> -> ->.
  cbn [res_bind expires_at_ms allow_subjects_json tls_required p_scheme p_host p_port p_has_port path_prefix p_method
    auth_header_name auth_header_value]. unfold subject_admitted. cbn [allow_subjects_json].
  do 15 (apply bind_same; intros ?).
  match goal with |- same_outcome (res_bind ?m _) (res_bind ?m' _) => assert (same_outcome m m') as Hm by apply merge_same;
    destruct m, m'; done end.
Qed.

(** ** Registered profiles are well formed *)

Record profile_ok (id : bytes) (p : ducknng_http_profile) : Prop := mk_profile_ok {
  ok_id : ducknng_http_profile_string_clean (Some id) = true;
  ok_scheme : p_scheme p = lit "http" \/ p_scheme p = lit "https";
  ok_tls : tls_required p = true -> p_scheme p = lit "https";
  ok_port : p_has_port p = true -> 1 <= p_port p <= 65535;
  ok_prefix : cur (path_prefix p) = chr "/";
  ok_method : ducknng_http_profile_method_valid (p_method p) = true;
  ok_header : sendable (auth_header_name p, auth_header_value p) /\ auth_header_value p <> [];
  ok_subjects : forall json, allow_subjects_json p = Some json ->
    exists n, ducknng_json_string_array_contains (Some json) None = Ok (false, n) /\ n <> 0 }.

Lemma check_ok b text (r : unit) : check b text = Ok r -> b = false.
Proof. by destruct b. Qed.

Lemma contains_none json r n : ducknng_json_string_array_contains json None = Ok (r, n) -> r = false.
Proof.
  assert (forall fuel p count found q, json_array_loop fuel None p count false = Ok (found, n, q) -> found = false) as Hloop.
  { induction fuel as [|fuel IH]; intros p count found q; [done|]. cbn [json_array_loop].
    destruct (ducknng_json_parse_string_dup p) as [[s p']|e]; [|done]. cbn [res_bind orb].
    destruct (_ =? _); [apply IH|]. destruct (_ =? _); [|done]. by intros [= <- _ _]. }
  unfold ducknng_json_string_array_contains. destruct json as [json|]; [|by intros [= <- _]].
  destruct (negb _); [done|]. destruct (negb _).
  - destruct (json_array_loop _ _ _ _ _) as [[[found n'] q]|e] eqn:E; [|done]. cbn [res_bind].
    destruct (ducknng_json_skip_ws (zdrop 1 q)); [|done]. intros [= <- <-]. by eapply Hloop.
  - cbn [res_bind]. destruct (ducknng_json_skip_ws _); [|done]. by intros [= <- _].
Qed.

Lemma profile_of_ok rq id p : profile_of rq = Ok (id, p) -> profile_ok id p.
Proof.
  unfold profile_of. intros H.
  assert (forall json, (if nonempty (pr_subjects rq) then pr_subjects rq else None) = Some json ->
    (exists r, (if nonempty (pr_subjects rq) then
      match ducknng_json_string_array_contains (pr_subjects rq) None with
      | Err _ => Err (lit "ducknng: HTTP profile allow_subjects_json must be a JSON array of strings")
      | Ok (_, n) => check (n =? 0) "ducknng: HTTP profile allow_subjects_json must list at least one subject; pass NULL for an unrestricted profile"
      end else Ok tt) = Ok r) ->
    exists n, ducknng_json_string_array_contains (Some json) None = Ok (false, n) /\ n <> 0) as Hsub.
  { intros json. destruct (nonempty (pr_subjects rq)); [|done]. intros -> [r Hr].
    destruct (ducknng_json_string_array_contains (Some json) None) as [[f n]|] eqn:E; [|done].
    exists n. apply check_ok in Hr. rewrite (contains_none _ _ _ E). split; [done|lia]. }
  match type of H with res_bind ?m _ = _ => destruct m as [r0|] eqn:E0; [|done] end. cbn [res_bind] in H.
  apply check_then in H as [H1 H]. apply check_then in H as [H2 H]. apply check_then in H as [H3 H].
  apply check_then in H as [H4 H]. apply check_then in H as [H5 H]. apply check_then in H as [H6 H].
  destruct (ducknng_http_profile_dup_trim_lower (pr_scheme rq)) as [scheme|]; [|done].
  destruct (ducknng_http_profile_dup_trim_lower (pr_host rq)) as [host|]; [|done].
  destruct (ducknng_http_profile_dup_trim_upper _) as [method|]; [|done].
  apply check_then in H as [H7 H]. apply check_then in H as [H8 H]. apply check_then in H as [H9 H].
  injection H as <- <-. btests.
  apply orb_true_iff in H7. unfold str_eq in H7, H8. rewrite !bool_decide_eq_true in H7.
  destruct (pr_id rq) as [pid|]; [|done]. destruct (pr_header_name rq) as [hn|]; [|done].
  unfold ducknng_http_profile_header_value_valid in H5. destruct (pr_header_value rq) as [hv|]; [|done]. btests.
  split; cbn; try done.
  - intros Ht. rewrite Ht in H8. cbn in H8. by btests.
  - intros Hp. rewrite Hp in H6 |- *. cbn in H6. btests. unfold u16. rewrite Z.mod_small; lia.
  - split; [done|]. by destruct hv.
  - intros json Hj. by eapply Hsub; [|eexists].
Qed.

Lemma stamp_ok id p v c u : profile_ok id p -> profile_ok id (stamp v c u p).
Proof. intros []. by split. Qed.

Record profiles_ok (t : profile_table) : Prop := mk_profiles_ok {
  po_ids : NoDup (http_profiles t).*1;
  po_each : Forall (fun e => profile_ok e.1 e.2 /\ 1 <= p_version e.2 < next_http_profile_version t) (http_profiles t);
  po_versions : NoDup (p_version <$> (http_profiles t).*2);
  po_next : 1 <= next_http_profile_version t;
  po_fits : zlen (http_profiles t) <= http_profile_cap t }.

Inductive profile_step : profile_table -> profile_table -> Prop :=
| profile_upserted rq now t t' : next_http_profile_version t < UINT64_MAX ->
    ducknng_runtime_upsert_http_profile rq now t = Ok t' -> profile_step t t'
| profile_dropped id t : profile_step t (ducknng_runtime_drop_http_profile id t).1.

Definition no_profiles : profile_table := mk_profiles [] 0 1.

(** A fresh version differs from those of the table. *)
Lemma version_fresh (l : list (bytes * ducknng_http_profile)) n : Forall (fun e => p_version e.2 < n) l ->
  n ∉ (p_version <$> l.*2).
Proof.
  rewrite list_elem_of_fmap. intros Hl (p & -> & (e & -> & He)%list_elem_of_fmap). rewrite Forall_forall in Hl. specialize (Hl e He). lia.
Qed.

Lemma key_set_versions id p (l : list (bytes * ducknng_http_profile)) : NoDup (p_version <$> l.*2) ->
  p_version p ∉ (p_version <$> l.*2) -> NoDup (p_version <$> (key_set id p l).*2).
Proof.
  intros Hnd Hf. induction l as [|[k q] l IH]; [done|]. cbn [key_set]. cbn in Hnd, Hf. apply NoDup_cons in Hnd as [Hq Hnd].
  apply not_elem_of_cons in Hf as [Hpq Hf]. case_bool_decide; cbn; [by apply NoDup_cons|]. apply NoDup_cons.
  split; [|by apply IH]. clear IH Hnd. induction l as [|[k' q'] l IH]; [done|]. cbn [key_set]. cbn in Hq, Hf.
  apply not_elem_of_cons in Hq as [? Hq], Hf as [? Hf]. case_bool_decide; cbn; apply not_elem_of_cons; [done|]. auto.
Qed.

Lemma key_set_Forall {K V} `{EqDecision K} (P : K * V -> Prop) k v (l : list (K * V)) : Forall P l -> P (k, v) -> Forall P (key_set k v l).
Proof.
  intros Hl Hv. induction Hl as [|[k' v'] l H Hl IH]; [done|]. cbn [key_set].
  case_bool_decide; [subst|]; by constructor.
Qed.

Lemma key_remove_sublist {K V} `{EqDecision K} (k : K) (l : list (K * V)) : key_remove k l `sublist_of` l.
Proof.
  induction l as [|[k' v'] l IH]; [done|]. cbn [key_remove]. case_bool_decide; [by apply sublist_cons|by apply sublist_skip].
Qed.

Lemma key_set_length {K V} `{EqDecision K} (k : K) (v : V) l : zlen (key_set k v l) = zlen l.
Proof. induction l as [|[k' v'] l IH]; [done|]. cbn [key_set]. case_bool_decide; rewrite !zlen_cons; lia. Qed.

Lemma upsert_ok rq now t t' : next_http_profile_version t < UINT64_MAX ->
  ducknng_runtime_upsert_http_profile rq now t = Ok t' -> profiles_ok t -> profiles_ok t'.
Proof.
  intros Hn H [Hids Heach Hvers Hnext Hfits]. unfold ducknng_runtime_upsert_http_profile in H.
  destruct (profile_of rq) as [[id p]|] eqn:Ep; [|done]. cbn [res_bind] in H. apply profile_of_ok in Ep.
  unfold take_version in H. replace (next_http_profile_version t =? 0) with false in H by lia.
  rewrite u64_small in H by lia. set (n := next_http_profile_version t) in *.
  assert (Forall (fun e => p_version e.2 < n) (http_profiles t)) as Hlt.
  { eapply Forall_impl; [exact Heach|]. intros e [_ ?]. lia. }
  assert (Forall (fun e : bytes * ducknng_http_profile => profile_ok e.1 e.2 /\ 1 <= p_version e.2 < n + 1) (http_profiles t)) as Heach'.
  { eapply Forall_impl; [exact Heach|]. intros e [? ?]. split; [done|lia]. }
  pose proof (version_fresh _ _ Hlt) as Hfresh.
  destruct (key_find id (http_profiles t)) as [old|] eqn:Ef; injection H as <-; split; cbn; try lia.
  - by rewrite key_set_keys.
  - apply key_set_Forall; [done|]. cbn. split; [by apply stamp_ok|lia].
  - by apply key_set_versions.
  - by rewrite key_set_length.
  - apply key_app_keys; [|done]. by apply key_find_None.
  - apply Forall_app. split; [done|]. constructor; [|done]. cbn. split; [by apply stamp_ok|lia].
  - rewrite !fmap_app. cbn. apply NoDup_app. split; [done|]. split; [|apply NoDup_singleton].
    intros v Hv ->%list_elem_of_singleton. done.
  - rewrite zlen_app. change (zlen [_]) with 1. unfold ducknng_http_profiles_reserve.
    destruct (Z.leb_spec (zlen (http_profiles t) + 1) (http_profile_cap t)); [done|]. pose proof (zlen_nonneg (http_profiles t)).
    destruct (Z.eqb_spec (http_profile_cap t) 0) as [E|]; cbn [negb].
    + rewrite E in *. replace (zlen (http_profiles t)) with 0 by lia. by vm_compute.
    + cbn [reg_reserve_loop]. destruct (Z.ltb_spec (http_profile_cap t * 2) (zlen (http_profiles t) + 1)); lia.
Qed.

Lemma drop_ok id t : profiles_ok t -> profiles_ok (ducknng_runtime_drop_http_profile id t).1.
Proof.
  intros [Hids Heach Hvers Hnext Hfits]. unfold ducknng_runtime_drop_http_profile. destruct (negb _); [by split|].
  pose proof (key_remove_sublist (default [] id) (http_profiles t)) as Hsub. split; cbn; try lia.
  - by apply key_remove_keys.
  - apply Forall_forall. rewrite Forall_forall in Heach. intros e He. apply Heach. by eapply elem_of_sublist.
  - eapply sublist_NoDup; [exact Hvers|]. by do 2 apply fmap_sublist.
  - pose proof (key_remove_length (default [] id) (http_profiles t)). lia.
Qed.

(** ** Claims *)

(** C39. A credential leaves the runtime only inside its scope.  A request
    that names a profile gets headers exactly when the profile exists, has
    not expired, its subjects list the subject whose SQL this is (the
    connection's before the thread's), the URL is HTTP, uses TLS where the
    profile requires it, matches the profile's scheme and host without case,
    its port and its path at a segment boundary, the method is the profile's,
    and the caller did not send the profile's header itself. *)
Theorem profile_scope nng_url_parse subjects t now u id out :
  (forall text url, nng_url_parse text = Some url -> cstr (default [] (u_path url))) ->
  pu_id u = Some id -> id <> [] ->
  ducknng_runtime_resolve_http_profile_headers nng_url_parse subjects t now u = Ok out <->
  exists p json, nonempty (pu_url u) = true /\ key_find id (http_profiles t) = Some p /\
    in_scope nng_url_parse subjects p now u /\
    ducknng_http_profile_merge_headers (pu_headers u) (auth_header_name p) (auth_header_value p) = Ok json /\ out = Some json.
Proof.
  intros Hcstr Hid Hne. split.
  - intros H. assert (exists json, out = Some json) as [json ->].
    { unfold ducknng_runtime_resolve_http_profile_headers in H. destruct id as [|c id]; [done|]. rewrite Hid in H. cbn [nonempty negb] in H.
      apply check_then in H as [_ H].
      repeat match type of H with res_bind ?m _ = _ => destruct m; [cbn [res_bind] in H|done] end. injection H as <-. eauto. }
    assert (nonempty (pu_url u) = true) as Hurl.
    { unfold ducknng_runtime_resolve_http_profile_headers in H. destruct id as [|c id]; [done|]. rewrite Hid in H. cbn [nonempty negb] in H.
      by apply check_then in H as [?%negb_false_iff _]. }
    destruct (key_find id (http_profiles t)) as [p|] eqn:Ep.
    + rewrite resolve_in_scope in H by done. destruct H as [H1 H2]. by exists p, json.
    + unfold ducknng_runtime_resolve_http_profile_headers in H. destruct id as [|c id]; [done|]. rewrite Hid, Hurl in H.
      cbn [nonempty negb check res_bind ducknng_http_profile_find_copy] in H. by rewrite Ep in H.
  - intros (p & json & Hurl & Hp & Hs & Hm & ->). by rewrite resolve_in_scope.
Qed.

(** A request in scope carries the caller's headers and the credential,
    nothing else.  When the caller's headers are a JSON array of sendable
    headers (or absent), the text handed to the HTTP client reads back as
    exactly those headers, in order, followed by the profile's header with
    its secret value, whatever quotes or backslashes these contain. *)
Theorem profile_headers_merged {T} (add : T -> bytes -> bytes -> T * Z) strerror nng_url_parse subjects t now u id p kvs target :
  (forall text url, nng_url_parse text = Some url -> cstr (default [] (u_path url))) ->
  pu_id u = Some id -> id <> [] -> nonempty (pu_url u) = true ->
  key_find id (http_profiles t) = Some p -> profile_ok id p -> in_scope nng_url_parse subjects p now u ->
  Forall sendable kvs -> (pu_headers u = Some (render_headers http_escape kvs) \/ pu_headers u = None /\ kvs = []) ->
  exists json, ducknng_runtime_resolve_http_profile_headers nng_url_parse subjects t now u = Ok (Some json) /\
    ducknng_http_apply_headers_json_common add strerror (Some json) target =
      add_all add strerror (kvs ++ [(auth_header_name p, auth_header_value p)]) target.
Proof.
  intros Hcstr Hid Hne Hurl Hp Hok Hs Hkvs Hh. destruct (ok_header _ _ Hok) as [Hsend _].
  exists (render_headers http_escape (kvs ++ [(auth_header_name p, auth_header_value p)])). split.
  - rewrite resolve_in_scope by done. split; [done|]. destruct Hh as [-> | [-> ->]]; [by apply merge_rendered|by apply merge_none].
  - apply apply_headers_rendered. apply Forall_app. by split; [|constructor].
Qed.

(** Secrets do not show.  Two runtimes whose profiles differ only in
    their secret header values give the same introspection snapshot and
    refuse the same requests with the same messages: the value can be
    observed only in headers handed out to a request in scope. *)
Theorem profile_secret_hidden nng_url_parse subjects t t' now u : same_but_secrets t t' ->
  ducknng_runtime_http_profiles_snapshot t = ducknng_runtime_http_profiles_snapshot t' /\
  same_outcome (ducknng_runtime_resolve_http_profile_headers nng_url_parse subjects t now u)
    (ducknng_runtime_resolve_http_profile_headers nng_url_parse subjects t' now u).
Proof.
  intros Hs. split; [|by apply resolve_same]. unfold ducknng_runtime_http_profiles_snapshot.
  assert (forall l : list (bytes * ducknng_http_profile), (fun e => ducknng_http_profile_public_copy e.1 e.2) <$> l =
    (fun e => ducknng_http_profile_public_copy e.1 e.2) <$> (redact_entry <$> l)) as Hl.
  { intros l. rewrite <- list_fmap_compose. apply list_fmap_ext. by intros ? [? ?] ?. }
  rewrite Hl, (Hl (http_profiles t')). by rewrite Hs.
Qed.

(** Every registered profile is well formed.  After any sequence of
    registrations and removals, ids are unique and printable, scheme, port,
    path prefix and method are valid, TLS profiles are https, the header is
    one the HTTP client can send, a subject list names at least one subject,
    and no two profiles share a version number. *)
Theorem profiles_wellformed t : rtc profile_step no_profiles t -> profiles_ok t.
Proof.
  assert (profiles_ok no_profiles) as H0 by (split; cbn; try done; apply NoDup_nil_2). revert H0. generalize no_profiles.
  intros t0 H0 Hs. induction Hs as [|t0 t1 t2 Hstep Hs IH]; [done|]. apply IH. destruct Hstep; [by eapply upsert_ok|by apply drop_ok].
Qed.

Definition demo_profile_request : profile_request :=
  mk_profile_request (Some (lit "api")) (Some (lit " HTTPS")) (Some (lit "Example.org")) 0 false (Some (lit "/v1")) None true
    (Some (lit "Authorization")) (Some (lit "Bearer k")) 0 None.

Definition demo_table (rq : profile_request) : profile_table :=
  match ducknng_runtime_upsert_http_profile rq 5 no_profiles with Ok t => t | Err _ => no_profiles end.

Definition demo_profiles : profile_table := demo_table demo_profile_request.

Definition demo_profile : ducknng_http_profile :=
  mk_profile (lit "https") (lit "example.org") 0 false (lit "/v1") (lit "*") true (lit "Authorization") (lit "Bearer k")
    None 1 5 5 0.

Definition demo_url (text : bytes) : option nng_url :=
  Some (mk_nng_url (Some (lit "https")) (Some (lit "example.ORG")) None (Some (lit "/v1/x"))).

Definition demo_use (id : string) : profile_use :=
  mk_use (Some (lit id)) (Some (lit "https://example.ORG/v1/x")) None None None None.

Lemma demo_url_cstr text url : demo_url text = Some url -> cstr (default [] (u_path url)).
Proof. intros [= <-]. apply (bool_decide_unpack _); vm_compute; exact I. Qed.

Lemma demo_profiles_reached : rtc profile_step no_profiles demo_profiles.
Proof. apply rtc_once. apply (profile_upserted demo_profile_request 5); vm_compute; reflexivity. Qed.

Lemma demo_profile_ok : profile_ok (lit "api") demo_profile.
Proof.
  change demo_profile with (stamp 1 5 5 (mk_profile (lit "https") (lit "example.org") 0 false (lit "/v1") (lit "*") true
    (lit "Authorization") (lit "Bearer k") None 0 0 0 0)).
  apply stamp_ok. apply (profile_of_ok demo_profile_request). by vm_compute.
Qed.

Lemma demo_in_scope : in_scope demo_url (mk_subjects [] 0) demo_profile 7 (demo_use "api").
Proof.
  eapply (resolve_in_scope demo_url (mk_subjects [] 0) demo_profiles 7 (demo_use "api") (lit "api") demo_profile demo_url_cstr);
    try done; by vm_compute.
Qed.

Lemma profiles_wellformed_witness : profiles_ok demo_profiles.
Proof. apply profiles_wellformed. exact demo_profiles_reached. Defined.

Lemma profile_scope_witness :
  exists p json, nonempty (pu_url (demo_use "api")) = true /\ key_find (lit "api") (http_profiles demo_profiles) = Some p /\
    in_scope demo_url (mk_subjects [] 0) p 7 (demo_use "api") /\
    ducknng_http_profile_merge_headers None (auth_header_name p) (auth_header_value p) = Ok json /\
    Some (lit "[" ++ ducknng_http_profile_auth_header_object (lit "Authorization") (lit "Bearer k") ++ lit "]") = Some json.
Proof.
  apply (profile_scope demo_url (mk_subjects [] 0) demo_profiles 7 (demo_use "api") (lit "api"));
    [exact demo_url_cstr|reflexivity|discriminate|vm_compute; reflexivity].
Defined.

Lemma profile_headers_merged_witness :
  exists json, ducknng_runtime_resolve_http_profile_headers demo_url (mk_subjects [] 0) demo_profiles 7 (demo_use "api") = Ok (Some json) /\
    ducknng_http_apply_headers_json_common (log_header (fun _ _ => 0)) (fun _ => []) (Some json) [] =
      add_all (log_header (fun _ _ => 0)) (fun _ => []) [(lit "Authorization", lit "Bearer k")] [].
Proof.
  apply (profile_headers_merged (log_header (fun _ _ => 0)) (fun _ => []) demo_url (mk_subjects [] 0) demo_profiles 7
    (demo_use "api") (lit "api") demo_profile [] []);
    [exact demo_url_cstr|reflexivity|discriminate|reflexivity|vm_compute; reflexivity|exact demo_profile_ok|exact demo_in_scope
    |constructor|right; split; reflexivity].
Defined.

Definition demo_other_secret : profile_request :=
  mk_profile_request (Some (lit "api")) (Some (lit " HTTPS")) (Some (lit "Example.org")) 0 false (Some (lit "/v1")) None true
    (Some (lit "Authorization")) (Some (lit "another")) 0 None.

Lemma profile_secret_hidden_witness :
  ducknng_runtime_http_profiles_snapshot (demo_table demo_profile_request) =
    ducknng_runtime_http_profiles_snapshot (demo_table demo_other_secret) /\
  same_outcome
    (ducknng_runtime_resolve_http_profile_headers demo_url (mk_subjects [] 0) (demo_table demo_profile_request) 7 (demo_use "api"))
    (ducknng_runtime_resolve_http_profile_headers demo_url (mk_subjects [] 0) (demo_table demo_other_secret) 7 (demo_use "api")).
Proof. apply profile_secret_hidden. vm_compute. reflexivity. Defined.
