(* ===== verification/Threads.v ===== *)
(** Programs of atomic steps, and what runs of several of them at once keep.

    A handler takes and drops locks; what it does under a lock is one atomic
    step on the shared state.  A step may be blocked: [None] is a thread that
    waits.  [safe] is the contract of a program: given the resources it owns
    and an invariant that relates the state to the resources of all threads,
    its steps keep the invariant, it waits only while it owns no reference and
    somebody else does, and it ends with what its postcondition says. *)

From stdpp Require Import relations.
From S2P Require Import Prelude.

Section programs.
Context {W : Type}.

Inductive prog (A : Type) : Type :=
| Ret (a : A)
| Step (X : Type) (act : W -> option (W * X)) (k : X -> prog A).
Arguments Ret {A} a.
Arguments Step {A X} act k.

Fixpoint pbind {A C} (p : prog A) (f : A -> prog C) : prog C :=
  match p with
  | Ret a => f a
  | Step act k => Step act (fun x => pbind (k x) f)
  end.

(** One atomic step. *)
Definition atomic {X} (act : W -> option (W * X)) : prog X := Step act Ret.

(** A program run alone; [None] when it has to wait for others. *)
Fixpoint run {A} (p : prog A) (w : W) : option (W * A) :=
  match p with
  | Ret a => Some (w, a)
  | Step act k => match act w with Some (w, x) => run (k x) w | None => None end
  end.

Lemma run_bind {A C} (p : prog A) (f : A -> prog C) w :
  run (pbind p f) w = match run p w with Some (w, a) => run (f a) w | None => None end.
Proof.
  revert w. induction p as [a|X act k IH]; intros w; [done|]. cbn [pbind run].
  destruct (act w) as [[w' x]|]; [apply IH|done].
Qed.

(** ** Threads *)

(** A thread of a pool takes its next step. *)
Inductive threads_step {A} : W * list (prog A) -> W * list (prog A) -> Prop :=
| thread_step w w' ps i X (act : W -> option (W * X)) k x :
    ps !! i = Some (Step act k) -> act w = Some (w', x) ->
    threads_step (w, ps) (w', <[i := k x]> ps).

Definition finished {A} (p : prog A) : Prop := match p with Ret _ => True | Step _ _ => False end.

(** ** Contracts *)

Section contracts.
Context {R : Type} (own : list R -> W -> Prop) (good : W -> Prop) (holds : R -> Prop).

(** [own rs w]: the threads own the resources [rs] in the state [w]; the order
    of the threads does not matter.  Steps are taken from [good] states; a
    thread [holds] when others may have to wait for it. *)
Context (own_perm : forall rs rs' w, Permutation rs rs' -> own rs w -> own rs' w).

Fixpoint safe {A} (p : prog A) (r : R) (Q : A -> R -> Prop) : Prop :=
  match p with
  | Ret a => Q a r
  | Step act k =>
    forall w rs, own (r :: rs) w -> good w ->
    match act w with
    | Some (w', x) => exists r', own (r' :: rs) w' /\ safe (k x) r' Q
    | None => ~ holds r /\ Exists holds rs
    end
  end.

Lemma prog_safe_bind {A C} (p : prog A) (f : A -> prog C) r (Q : A -> R -> Prop) (Q' : C -> R -> Prop) :
  safe p r Q -> (forall a r, Q a r -> safe (f a) r Q') -> safe (pbind p f) r Q'.
Proof.
  intros Hp Hf. revert r Hp. induction p as [a|X act k IH]; intros r Hp; [by apply Hf|].
  cbn [pbind safe] in *. intros w rs Hw Hg. specialize (Hp w rs Hw Hg). destruct (act w) as [[w' x]|]; [|done].
  destruct Hp as (r' & H1 & H2). exists r'. split; [done|]. by apply IH.
Qed.

Lemma safe_weaken {A} (p : prog A) r (Q Q' : A -> R -> Prop) :
  safe p r Q -> (forall a r, Q a r -> Q' a r) -> safe p r Q'.
Proof.
  intros Hp Hq. revert r Hp. induction p as [a|X act k IH]; intros r Hp; [by apply Hq|]. cbn [safe] in *.
  intros w rs Hw Hg. specialize (Hp w rs Hw Hg). destruct (act w) as [[w' x]|]; [|done].
  destruct Hp as (r' & H1 & H2). exists r'. split; [done|]. by apply IH.
Qed.

(** Every thread keeps its contract. *)
Definition pool_ok {A} (Q : A -> R -> Prop) (s : W * list (prog A)) : Prop :=
  exists rs, own rs (fst s) /\ Forall2 (fun p r => safe p r Q) (snd s) rs.

Lemma threads_step_ok {A} (Q : A -> R -> Prop) s s' :
  pool_ok Q s -> good (fst s) -> threads_step s s' -> pool_ok Q s'.
Proof.
  intros (rs & Hw & Hps) Hg Hs. destruct Hs as [w w' ps i X act k x Hi Ha]. cbn [fst snd] in *.
  destruct (Forall2_lookup_l _ _ _ _ _ Hps Hi) as (r & Hr & Hsafe). cbn [safe] in Hsafe.
  pose proof (delete_Permutation _ _ _ Hr) as Hp.
  specialize (Hsafe w (delete i rs) (own_perm _ _ _ Hp Hw) Hg). rewrite Ha in Hsafe. destruct Hsafe as (r' & Hw' & Hk).
  exists (<[i := r']> rs). split; cbn [fst snd].
  - eapply own_perm; [|exact Hw']. rewrite insert_take_drop by (by eapply lookup_lt_Some).
    rewrite delete_take_drop. apply Permutation_middle.
  - by apply Forall2_insert.
Qed.

(** A run through good states. *)
Definition good_step {A} (s s' : W * list (prog A)) : Prop := good (fst s) /\ threads_step s s'.

Lemma threads_steps_ok {A} (Q : A -> R -> Prop) s s' : pool_ok Q s -> rtc good_step s s' -> pool_ok Q s'.
Proof. intros H Hs. induction Hs as [|x y z [Hg Hxy] _ IH]; eauto using threads_step_ok. Qed.

(** A pool that has not finished can take a step: a thread waits only for one
    that owns a reference, and such a thread neither waits nor has ended. *)
Definition can_step {A} (w : W) (p : prog A) : bool :=
  match p with Ret _ => false | Step act _ => match act w with Some _ => true | None => false end end.

Lemma threads_progress {A} (Q : A -> R -> Prop) s : pool_ok Q s -> good (fst s) -> (forall a r, Q a r -> ~ holds r) ->
  Forall finished (snd s) \/ exists s', threads_step s s'.
Proof.
  intros (rs & Hw & Hps) Hg Hq. destruct s as [w ps]. cbn [fst snd] in *.
  destruct (existsb (can_step w) ps) eqn:Ec.
  { right. apply existsb_exists in Ec as (p & [i Hi]%list_elem_of_In%list_elem_of_lookup_1 & Hc).
    destruct p as [a|X act k]; [done|]. cbn in Hc. destruct (act w) as [[w' x]|] eqn:Ea; [|done].
    eexists. by econstructor. }
  left. assert (forall i p r, ps !! i = Some p -> rs !! i = Some r ->
    ~ holds r /\ (finished p \/ Exists holds rs)) as Hone.
  { intros i p r Hi Hr. pose proof (Forall2_lookup_lr _ _ _ _ _ _ Hps Hi Hr) as Hsafe. destruct p as [a|X act k].
    - split; [by eapply Hq|by left].
    - cbn [safe] in Hsafe. pose proof (delete_Permutation _ _ _ Hr) as Hp.
      specialize (Hsafe w _ (own_perm _ _ _ Hp Hw) Hg).
      assert (can_step w (Step act k) = false) as Hb.
      { apply not_true_iff_false. intros Hb. apply not_true_iff_false in Ec. apply Ec. apply existsb_exists.
        exists (Step act k). split; [|done]. apply list_elem_of_In. by eapply list_elem_of_lookup_2. }
      cbn in Hb. destruct (act w); [done|]. destruct Hsafe as [H1 H2]. split; [done|]. right. rewrite Hp. by right. }
  assert (~ Exists holds rs) as Hno.
  { intros (r & [i Hr]%list_elem_of_lookup_1 & Hh)%Exists_exists.
    destruct (Forall2_lookup_r _ _ _ _ _ Hps Hr) as (p & Hi & _). by destruct (Hone _ _ _ Hi Hr). }
  apply Forall_lookup_2. intros i p Hi. destruct (Forall2_lookup_l _ _ _ _ _ Hps Hi) as (r & Hr & _).
  by destruct (Hone _ _ _ Hi Hr) as [_ [?|?]].
Qed.

End contracts.

(** ** Termination *)

(** A program is a finite tree, so a pool takes finitely many steps. *)
Definition prog_step {A} (q p : prog A) : Prop :=
  match p with Ret _ => False | Step act k => exists x, q = k x end.

Lemma prog_acc {A} (p : prog A) : Acc prog_step p.
Proof. induction p as [a|X act k IH]; constructor; intros q Hq; [done|]. destruct Hq as [x ->]. apply IH. Qed.

Lemma pool_acc {A} (ps : list (prog A)) :
  Acc (fun qs ps => exists i p q, ps !! i = Some p /\ prog_step q p /\ qs = <[i := q]> ps) ps.
Proof.
  induction ps as [|p ps IH]; [constructor; intros qs (i & p & q & Hi & _); done|].
  revert p. induction IH as [ps _ IHps]. intros p. induction (prog_acc p) as [p _ IHp].
  constructor. intros qs (i & p' & q & Hi & Hq & ->). destruct i as [|i]; cbn in *.
  - injection Hi as <-. by apply IHp.
  - apply IHps. exists i, p', q. done.
Qed.

Lemma threads_acc {A} w (ps : list (prog A)) : Acc (flip threads_step) (w, ps).
Proof.
  revert w. induction (pool_acc ps) as [ps _ IH]. intros w. constructor. intros s Hs. unfold flip in Hs.
  remember (w, ps) as s0 eqn:E. destruct Hs as [w0 w' ps0 i X act k x Hi Ha]. injection E as -> ->.
  apply IH. exists i, (Step act k), (k x). split; [done|]. split; [by exists x|done].
Qed.

End programs.

Arguments prog W A : clear implicits.
Arguments Ret {W A} a.
Arguments Step {W A X} act k.
