(* ===== verification/Control.v ===== *)
(** The control messages of sessions and the handshake:
    [src/src/ducknng_methods.c], with the client's request builder of
    [src/src/ducknng_ipc_out.c] and its readers in [src/src/ducknng_sql_rpc.c].

    A handler returns its return code and the reply it filled; the reply
    starts as [ducknng_method_reply_init]. *)

From S2P Require Import Prelude Wire Util Transport Registry Session Dispatch HttpHeaders HttpProfile.

Definition DUCKNNG_RPC_FLAG_RESULT_ROWS : Z := 1.
Definition DUCKNNG_RPC_FLAG_RESULT_METADATA : Z := 2.
Definition DUCKNNG_RPC_FLAG_PAYLOAD_JSON : Z := 4.
Definition DUCKNNG_RPC_FLAG_PAYLOAD_ARROW_STREAM : Z := 8.
Definition DUCKNNG_RPC_FLAG_END_OF_STREAM : Z := 16.
Definition DUCKNNG_RPC_FLAG_SESSION_OPEN : Z := 32.
Definition DUCKNNG_RPC_FLAG_SESSION_CLOSED : Z := 64.
Definition DUCKNNG_RPC_FLAG_CANCELLED : Z := 128.
Definition DUCKNNG_RPC_FLAG_PAYLOAD_QUACK_BATCH : Z := 256.

(** The row formats as the sessions store them. *)
Definition ARROW_IPC_STREAM : Z := 2.
Definition QUACK_BATCH : Z := 3.

Abbreviation handled := (Z * ducknng_method_reply)%type.

(** [ducknng_method_reply_set_error(reply, status, text); return -1]. *)
Definition refuse (status : Z) (text : bytes) : handled :=
  (-1, ducknng_method_reply_set_error ducknng_method_reply_init status (Some text)).

(** ** Printing and reading *)

(** A buffer read as a C string ends at its first NUL. *)
Fixpoint c_text (p : bytes) : bytes :=
  match p with [] => [] | c :: p => if c =? 0 then [] else c :: c_text p end.

Definition ducknng_copy_payload_json (frame : ducknng_frame) : option bytes :=
  if f_payload_len frame =? 0 then None else Some (c_text (ztake (f_payload_len frame) (f_payload frame))).

(** The text at the value of [key]. *)
Definition ducknng_json_find_key (json key : bytes) : option bytes :=
  let needle := QUOTE :: key ++ [QUOTE] in
  if 128 <=? zlen needle then None else
  match strstr json needle with
  | None => None
  | Some i =>
    match break_at (chr ":") (zdrop (i + zlen needle) json) with
    | (_, None) => None
    | (_, Some p) => Some (ducknng_json_skip_ws p)
    end
  end.

Definition ducknng_json_extract_u64 (json key : bytes) : option Z :=
  match ducknng_json_find_key json key with
  | None => None
  | Some p => fst <$> strtoul (if cur p =? QUOTE then zdrop 1 p else p)
  end.

Definition ducknng_json_extract_string_dup (json key : bytes) : option bytes :=
  match ducknng_json_find_key json key with
  | None => None
  | Some p =>
    if negb (cur p =? QUOTE) then None else
    match break_at QUOTE (zdrop 1 p) with
    | (_, None) => None
    | (text, Some _) => Some text
    end
  end.

(** ** Writing *)

Definition control_escape (c : Z) : bytes :=
  if ((c =? BACKSLASH) || (c =? QUOTE))%bool then [BACKSLASH; c]
  else if c <? 0x20 then unicode_escape c else [c].

Definition ducknng_json_append_string (buf : bytes) (text : option bytes) : bytes :=
  buf ++ [QUOTE] ++ (default [] text ≫= control_escape) ++ [QUOTE].

Definition ducknng_json_reply (reply : ducknng_method_reply) (flags : Z) (json_text : bytes) : ducknng_method_reply :=
  ducknng_method_reply_set_payload reply DUCKNNG_RPC_RESULT (Z.lor flags DUCKNNG_RPC_FLAG_PAYLOAD_JSON)
    (Some json_text) (zlen json_text).

(** A [has_...] flag with its value is an [option]. *)
Record ducknng_session_reply_view := mk_view {
  v_session_id : Z; v_session_token : option bytes; v_state : option bytes; v_next_method : option bytes;
  v_idle_timeout_ms : option Z; v_result_handle : option bytes; v_batch_index : option Z;
  v_protocol_version : option Z; v_row_schema_version : option Z; v_fetch_batch_chunks : option Z;
  v_serialization_mode : option bytes; v_correlation_id : option bytes }.

(** [,"name":]. *)
Definition field_name (name : string) : bytes := lit "," ++ [QUOTE] ++ lit name ++ [QUOTE] ++ lit ":".

Definition text_field (name : string) (v : option bytes) (buf : bytes) : bytes :=
  match v with Some _ => ducknng_json_append_string (buf ++ field_name name) v | None => buf end.
Definition number_field (name : string) (v : option Z) (buf : bytes) : bytes :=
  match v with Some n => buf ++ field_name name ++ print_llu n | None => buf end.

Definition ducknng_build_session_reply_json (v : ducknng_session_reply_view) : bytes :=
  let buf := lit "{" ++ [QUOTE] ++ lit "session_id" ++ [QUOTE] ++ lit ":" ++ print_llu (v_session_id v) in
  let buf := text_field "session_token" (v_session_token v) buf in
  let buf := text_field "state" (v_state v) buf in
  let buf := text_field "next_method" (v_next_method v) buf in
  let buf := number_field "idle_timeout_ms" (v_idle_timeout_ms v) buf in
  let buf := text_field "result_handle" (v_result_handle v) buf in
  let buf := number_field "batch_index" (v_batch_index v) buf in
  let buf := number_field "ducknng_protocol_version" (v_protocol_version v) buf in
  let buf := number_field "row_schema_version" (v_row_schema_version v) buf in
  let buf := number_field "fetch_batch_chunks" (v_fetch_batch_chunks v) buf in
  let buf := text_field "serialization_mode" (v_serialization_mode v) buf in
  let buf := text_field "correlation_id" (v_correlation_id v) buf in
  buf ++ lit "}".

Definition ducknng_session_state_reply (flags : Z) (v : ducknng_session_reply_view) : handled :=
  (0, ducknng_json_reply ducknng_method_reply_init flags (ducknng_build_session_reply_json v)).

Definition ducknng_session_row_payload_format_name (value : Z) : bytes :=
  if value =? QUACK_BATCH then lit "ducknng_quack_batch" else lit "arrow_ipc_stream".

Definition ducknng_parse_row_payload_format (value : option bytes) : option Z :=
  if (negb (nonempty value) || str_eq (default [] value) (lit "arrow_ipc_stream"))%bool then Some ARROW_IPC_STREAM else
  if str_eq (default [] value) (lit "ducknng_quack_batch") then Some QUACK_BATCH else None.

(** ** Control requests *)

(** The client's side: [None] when the request does not fit its buffer. *)
Definition ducknng_session_request_json_ex (session_id : Z) (session_token : option bytes)
    (batch_rows batch_bytes : Z) (correlation_id : option bytes) : option bytes :=
  if ((session_id =? 0) || negb (nonempty session_token))%bool then None else
  let buf := lit "{" ++ [QUOTE] ++ lit "session_id" ++ [QUOTE] ++ lit ":" ++ print_llu session_id ++
    field_name "session_token" ++ [QUOTE] ++ (default [] session_token ≫= control_escape) ++ [QUOTE] in
  if 512 <=? zlen buf then None else
  let buf := if 0 <? batch_rows then buf ++ field_name "batch_rows" ++ print_llu batch_rows else buf in
  if 512 <=? zlen buf then None else
  let buf := if 0 <? batch_bytes then buf ++ field_name "batch_bytes" ++ print_llu batch_bytes else buf in
  if 512 <=? zlen buf then None else
  let buf := if nonempty correlation_id
    then buf ++ field_name "correlation_id" ++ [QUOTE] ++ (default [] correlation_id ≫= control_escape) ++ [QUOTE]
    else buf in
  if 512 <=? zlen buf then None else
  let buf := buf ++ lit "}" in
  if 512 <=? zlen buf then None else Some buf.

Record ducknng_session_control_request := mk_control {
  c_session_id : Z; c_session_token : bytes; c_correlation_id : option bytes }.

Definition ducknng_parse_session_control_request (frame : ducknng_frame) (method_name : bytes)
    : ducknng_session_control_request + handled :=
  let refused := refuse DUCKNNG_STATUS_INVALID
    (ztake 159 (lit "ducknng: " ++ method_name ++ lit " requires JSON payload with session_id and session_token")) in
  match ducknng_copy_payload_json frame with
  | None => inr refused
  | Some json =>
    match ducknng_json_extract_u64 json (lit "session_id") with
    | None => inr refused
    | Some id =>
      let correlation_id := ducknng_json_extract_string_dup json (lit "correlation_id") in
      match ducknng_json_extract_string_dup json (lit "session_token") with
      | Some ((_ :: _) as token) => inl (mk_control id token correlation_id)
      | _ => inr refused
      end
    end
  end.

(** ** Handshake *)

Definition parameter_methods : list bytes := [lit "exec"; lit "query_open"; lit "query_prepare"].

(** The names of the registered methods that take parameters, quoted and
    separated by commas. *)
Fixpoint methods_loop (r : ducknng_method_registry) (names : list bytes) (emitted : bool) (buf : bytes) : bytes :=
  match names with
  | [] => buf
  | name :: names =>
    match ducknng_method_registry_find r (Some name) (zlen name) with
    | None => methods_loop r names emitted buf
    | Some _ =>
      methods_loop r names true (ducknng_json_append_string (if emitted then buf ++ lit "," else buf) (Some name))
    end
  end.

Definition DUCKNNG_VERSION : bytes := lit "0.1.2.9000".

(** A literal of the source with single quotes for its double quotes. *)
Definition jlit (s : string) : bytes := (fun c => if c =? chr "'" then QUOTE else c) <$> lit s.

Definition handshake_json (r : ducknng_method_registry) (duckdb_version platform : bytes) (mode : Z)
    (correlation_id : option bytes) : bytes :=
  let buf := ducknng_json_append_string (jlit "{'server_name':") (Some (lit "ducknng")) in
  let buf := ducknng_json_append_string (buf ++ jlit ",'server_version':") (Some DUCKNNG_VERSION) in
  let buf := ducknng_json_append_string (buf ++ jlit ",'duckdb_version':") (Some duckdb_version) in
  let buf := ducknng_json_append_string (buf ++ jlit ",'server_platform':") (Some platform) in
  let buf := buf ++ jlit ",'protocol_version':" ++ print_llu DUCKNNG_WIRE_VERSION ++
    jlit ",'selected_protocol_version':" ++ print_llu DUCKNNG_WIRE_VERSION ++
    jlit ",'ducknng_protocol_version':1,'row_schema_version':1,'default_fetch_batch_chunks':" ++
    print_llu DUCKNNG_DEFAULT_FETCH_BATCH_CHUNKS in
  let buf := ducknng_json_append_string (buf ++ jlit ",'selected_serialization_mode':")
    (Some (ducknng_session_row_payload_format_name mode)) in
  let buf := buf ++ jlit ",'supported_serialization_modes':['arrow_ipc_stream','ducknng_quack_batch'],'capabilities':{'fetch_metadata':{'correlation_id':true,'result_handle':true,'batch_index':true},'session_schema':{'ducknng_protocol_version':true,'row_schema_version':true,'fetch_batch_chunks':true},'parameter_binding':{'encoding':'arrow_struct','positional':true,'methods':[" in
  let buf := methods_loop r parameter_methods false buf in
  let buf := buf ++ jlit "],'max_parameters':65535}}" in
  let buf := match correlation_id with
    | Some _ => ducknng_json_append_string (buf ++ jlit ",'correlation_id':") correlation_id
    | None => buf end in
  buf ++ lit "}".

Definition ducknng_method_handshake_handler (r : ducknng_method_registry) (duckdb_version platform : bytes)
    (frame : ducknng_frame) : handled :=
  let json := ducknng_copy_payload_json frame in
  let number key := default DUCKNNG_WIRE_VERSION (json ≫= fun j => ducknng_json_extract_u64 j key) in
  let text key := json ≫= fun j => ducknng_json_extract_string_dup j key in
  let preferred := text (lit "preferred_serialization_mode") in
  if ((DUCKNNG_WIRE_VERSION <? number (lit "min_protocol_version")) ||
      (number (lit "max_protocol_version") <? DUCKNNG_WIRE_VERSION))%bool
  then refuse DUCKNNG_STATUS_INVALID
    (lit "ducknng: handshake protocol version range does not include the current wire version") else
  match preferred, ducknng_parse_row_payload_format preferred with
  | Some _, None => refuse DUCKNNG_STATUS_INVALID (lit "ducknng: unsupported preferred_serialization_mode")
  | _, mode =>
    (0, ducknng_json_reply ducknng_method_reply_init 0
          (handshake_json r duckdb_version platform (default ARROW_IPC_STREAM mode) (text (lit "correlation_id"))))
  end.

(** ** Numbers *)

Lemma digits_step c p acc any : 48 <= c <= 57 -> digits (c :: p) acc any = digits p (acc * 10 + (c - 48)) true.
Proof. intros H. cbn [digits]. by assert (((48 <=? c) && (c <=? 57))%bool = true) as -> by lia. Qed.

Lemma llu_loop_read fuel n rest any : 0 <= n < 10 ^ Z.of_nat fuel -> (0 < fuel)%nat ->
  digits (llu_loop fuel n ++ rest) 0 any = digits rest n true.
Proof.
  revert n rest any. induction fuel as [|fuel IH]; intros n rest any Hn Hf; [lia|]. cbn [llu_loop].
  destruct (Z.ltb_spec n 10).
  - cbn [app]. rewrite digits_step by lia. f_equal; lia.
  - rewrite Nat2Z.inj_succ, Z.pow_succ_r in Hn by lia. rewrite <- app_assoc.
    pose proof (Z.div_mod n 10 ltac:(done)). pose proof (Z.mod_pos_bound n 10 ltac:(done)). rewrite IH.
    + cbn [app]. rewrite digits_step by lia. f_equal; lia.
    + split; [apply Z.div_pos; lia|apply Z.div_lt_upper_bound; lia].
    + destruct fuel; [cbn in Hn; lia|lia].
Qed.

Lemma llu_loop_digits fuel n : 0 <= n -> Forall (fun c => 48 <= c <= 57) (llu_loop fuel n).
Proof.
  revert n. induction fuel as [|fuel IH]; intros n Hn; cbn [llu_loop]; [done|]. destruct (Z.ltb_spec n 10).
  - constructor; [lia|done].
  - apply Forall_app_2; [apply IH, Z.div_pos; lia|]. constructor; [|done].
    pose proof (Z.mod_pos_bound n 10 ltac:(done)). lia.
Qed.

Lemma print_llu_nonempty n : print_llu n <> [].
Proof. unfold print_llu. cbn [llu_loop]. destruct (n <? 10); [done|]. intros ?%app_eq_nil. naive_solver. Qed.

(** A printed number is read back, up to the first character that is no
    digit. *)
Lemma strtoul_llu n rest : 0 <= n <= UINT64_MAX -> ~ 48 <= cur rest <= 57 ->
  strtoul (print_llu n ++ rest) = Some (n, rest).
Proof.
  intros Hn Hr. unfold strtoul. pose proof (llu_loop_digits 20 n ltac:(lia)) as Hd. fold (print_llu n) in Hd.
  assert (exists c p, print_llu n = c :: p /\ 48 <= c <= 57) as (c & p & E & Hc).
  { pose proof (print_llu_nonempty n). destruct (print_llu n) as [|c p]; [done|]. apply Forall_cons in Hd as [? _]. eauto. }
  assert (ducknng_http_skip_ws (print_llu n ++ rest) = print_llu n ++ rest) as ->.
  { rewrite E. cbn [app ducknng_http_skip_ws]. unfold is_space. by assert (((c =? 32) || ((9 <=? c) && (c <=? 13)))%bool = false) as -> by lia. }
  assert (cur (print_llu n ++ rest) = c) as -> by (by rewrite E).
  change (chr "-") with 45. change (chr "+") with 43.
  assert ((c =? 45) = false) as -> by lia. assert ((c =? 43) = false) as -> by lia. cbn [orb].
  unfold print_llu. rewrite llu_loop_read; [|split; [lia|unfold UINT64_MAX in *; cbn; lia]|lia].
  assert (digits rest n true = (n, true, rest)) as ->.
  { destruct rest as [|x rest]; [done|]. cbn [digits cur] in *. by assert (((48 <=? x) && (x <=? 57))%bool = false) as -> by lia. }
  by assert ((UINT64_MAX <? n) = false) as -> by lia.
Qed.

(** ** Finding keys *)

Lemma starts_with_quote key x s : QUOTE ∉ key -> QUOTE ∉ x ->
  starts_with (QUOTE :: key ++ [QUOTE]) (QUOTE :: x ++ QUOTE :: s) = bool_decide (x = key).
Proof.
  intros Hk Hx. cbn [starts_with]. change (QUOTE =? QUOTE) with true. cbv iota.
  revert x Hx. induction key as [|k key IH]; intros x Hx; destruct x as [|c x]; cbn [app starts_with].
  - by change (QUOTE =? QUOTE) with true.
  - apply not_elem_of_cons in Hx as [Hc Hx]. destruct (Z.eqb_spec QUOTE c); [done|]. symmetry. by apply bool_decide_eq_false_2.
  - apply not_elem_of_cons in Hk as [Hc Hk]. destruct (Z.eqb_spec k QUOTE); [done|]. symmetry. by apply bool_decide_eq_false_2.
  - apply not_elem_of_cons in Hk as [Hk1 Hk]. apply not_elem_of_cons in Hx as [Hx1 Hx].
    destruct (Z.eqb_spec k c) as [<-|].
    + rewrite IH by done. apply bool_decide_ext. naive_solver.
    + symmetry. apply bool_decide_eq_false_2. congruence.
Qed.

Lemma find_skip key c s : starts_with (QUOTE :: key ++ [QUOTE]) (c :: s) = false ->
  ducknng_json_find_key (c :: s) key = ducknng_json_find_key s key.
Proof.
  intros H. unfold ducknng_json_find_key. destruct (128 <=? _); [done|]. cbn [strstr]. rewrite H.
  destruct (strstr s _) as [i|] eqn:E; cbn [fmap option_fmap option_map]; [|done].
  assert (0 <= i) as Hi.
  { clear H. revert i E. induction s as [|x s IH]; intros i; cbn [strstr];
      (destruct (starts_with _ _); [by intros [= <-]|]); [done|].
    destruct (strstr s _) as [j|]; [|done]. cbn. intros [= <-]. specialize (IH _ eq_refl). lia. }
  pose proof (zlen_nonneg (QUOTE :: key ++ [QUOTE])).
  unfold zdrop. replace (Z.to_nat (1 + i + zlen (QUOTE :: key ++ [QUOTE])))
    with (S (Z.to_nat (i + zlen (QUOTE :: key ++ [QUOTE])))) by lia. done.
Qed.

(** Text without quotes holds no key. *)
Lemma find_plain key x s : QUOTE ∉ x -> ducknng_json_find_key (x ++ s) key = ducknng_json_find_key s key.
Proof.
  induction x as [|c x IH]; intros Hx; [done|]. apply not_elem_of_cons in Hx as [Hc Hx]. cbn [app].
  rewrite find_skip; [by apply IH|]. cbn [starts_with]. by destruct (Z.eqb_spec QUOTE c).
Qed.

(** A quoted text other than the key is passed. *)
Lemma find_quoted key x s : QUOTE ∉ key -> QUOTE ∉ x -> x <> key -> key <> [] -> cur s <> cur key ->
  ducknng_json_find_key (QUOTE :: x ++ QUOTE :: s) key = ducknng_json_find_key s key.
Proof.
  intros Hk Hx Hne Hn Hc. rewrite find_skip by (rewrite starts_with_quote by done; by apply bool_decide_eq_false_2).
  rewrite find_plain by done. apply find_skip. destruct key as [|k key]; [done|]. cbn [starts_with app].
  change (QUOTE =? QUOTE) with true. cbv iota. destruct s as [|c s]; [done|]. cbn [cur] in Hc.
  by destruct (Z.eqb_spec k c).
Qed.

(** The key itself. *)
Lemma find_hit key v : QUOTE ∉ key -> zlen key < 126 ->
  ducknng_json_find_key (QUOTE :: key ++ QUOTE :: chr ":" :: v) key = Some (ducknng_json_skip_ws v).
Proof.
  intros Hk Hl. unfold ducknng_json_find_key.
  assert (zlen (QUOTE :: key ++ [QUOTE]) = zlen key + 2) as Hz.
  { rewrite zlen_cons, zlen_app. change (zlen [QUOTE]) with 1. lia. }
  rewrite Hz. assert ((128 <=? zlen key + 2) = false) as -> by lia.
  assert (strstr (QUOTE :: key ++ QUOTE :: chr ":" :: v) (QUOTE :: key ++ [QUOTE]) = Some 0) as ->.
  { cbn [strstr]. by rewrite starts_with_quote, bool_decide_eq_true_2. }
  assert (zdrop (0 + (zlen key + 2)) (QUOTE :: key ++ QUOTE :: chr ":" :: v) = chr ":" :: v) as ->.
  { replace (QUOTE :: key ++ QUOTE :: chr ":" :: v) with ((QUOTE :: key ++ [QUOTE]) ++ chr ":" :: v)
      by (cbn; by rewrite <- app_assoc). replace (0 + (zlen key + 2)) with (zlen (QUOTE :: key ++ [QUOTE])) by lia.
    by rewrite zdrop_app_len. }
  cbn [break_at]. by rewrite Z.eqb_refl.
Qed.

(** ** Round trip of control requests *)

Definition plain_char (c : Z) : Prop := 0x20 <= c < 256 /\ c <> QUOTE /\ c <> BACKSLASH.

Ltac by_computation := apply (bool_decide_unpack _); vm_compute; exact I.

Lemma plain_no_quote s : Forall plain_char s -> QUOTE ∉ s.
Proof. intros H Hin. rewrite Forall_forall in H. destruct (H _ Hin) as (_ & ? & _). done. Qed.

Lemma escape_plain s : Forall plain_char s -> s ≫= control_escape = s.
Proof.
  induction 1 as [|c s (H1 & H2 & H3) Hs IH]; [done|]. rewrite bind_cons, IH. unfold control_escape.
  destruct (Z.eqb_spec c BACKSLASH); [done|]. destruct (Z.eqb_spec c QUOTE); [done|]. cbn [orb].
  by assert ((c <? 0x20) = false) as -> by lia.
Qed.

Lemma escape_cstr s : cstr s -> cstr (s ≫= control_escape).
Proof.
  induction 1 as [|c s Hc Hs IH]; [done|]. rewrite bind_cons. apply Forall_app_2; [|done]. unfold control_escape.
  unfold is_char in Hc.
  destruct (_ || _)%bool; [rewrite !Forall_cons; unfold is_char, BACKSLASH; auto with lia|].
  destruct (Z.ltb_spec c 0x20); [|rewrite Forall_cons; unfold is_char; auto with lia].
  unfold unicode_escape.
  assert (forall d, 0 <= d < 16 -> is_char (hex_digit d)) as Hd.
  { intros d Hd. unfold hex_digit, is_char. destruct (Z.ltb_spec d 10); lia. }
  assert (0 <= c / 16 < 16) by (split; [apply Z.div_pos; lia|apply Z.div_lt_upper_bound; lia]).
  pose proof (Z.mod_pos_bound c 16 ltac:(lia)). rewrite !Forall_cons.
  repeat split; try by_computation; auto with lia; apply Hd; lia.
Qed.

Lemma hex_plain s : Forall lower_hex s -> Forall plain_char s.
Proof. intros H. eapply Forall_impl; [exact H|]. unfold lower_hex, plain_char, QUOTE, BACKSLASH. cbn. lia. Qed.

Lemma plain_cstr s : Forall plain_char s -> cstr s.
Proof. intros H. eapply Forall_impl; [exact H|]. unfold plain_char, is_char. cbn. lia. Qed.

Lemma llu_plain n : 0 <= n -> Forall plain_char (print_llu n).
Proof.
  intros Hn. eapply Forall_impl; [by apply (llu_loop_digits 20)|]. unfold plain_char, QUOTE, BACKSLASH. cbn. lia.
Qed.

Lemma c_text_cstr s : cstr s -> c_text s = s.
Proof.
  induction 1 as [|c s Hc Hs IH]; [done|]. cbn [c_text]. unfold is_char in Hc.
  assert ((c =? 0) = false) as -> by lia. by rewrite IH.
Qed.

(** A field whose value holds no quote is passed. *)
Lemma find_field name v key s : QUOTE ∉ lit name -> lit name <> key -> QUOTE ∉ key -> key <> [] -> cur key <> chr ":" ->
  QUOTE ∉ v -> ducknng_json_find_key (field_name name ++ v ++ s) key = ducknng_json_find_key s key.
Proof.
  intros Hn Hne Hk Hk0 Hc Hv. unfold field_name. rewrite <- !app_assoc.
  rewrite find_plain by by_computation. cbn [app].
  rewrite find_quoted by (done || by intros <-). rewrite find_plain by by_computation. by apply find_plain.
Qed.

(** A quoted value at the end of a field. *)
Lemma find_text_field name v key s : QUOTE ∉ lit name -> lit name <> key -> QUOTE ∉ key -> key <> [] -> cur key <> chr ":" ->
  QUOTE ∉ v -> v <> key -> cur s <> cur key ->
  ducknng_json_find_key (field_name name ++ [QUOTE] ++ v ++ [QUOTE] ++ s) key = ducknng_json_find_key s key.
Proof.
  intros Hn Hne Hk Hk0 Hc Hv Hvk Hs. unfold field_name. rewrite <- !app_assoc.
  rewrite find_plain by by_computation. cbn [app].
  rewrite find_quoted by (done || by intros <-). rewrite find_plain by by_computation. by apply find_quoted.
Qed.

(** The value of a field. *)
Lemma find_field_hit name v : QUOTE ∉ lit name -> zlen (lit name) < 126 ->
  ducknng_json_find_key (field_name name ++ v) (lit name) = Some (ducknng_json_skip_ws v).
Proof.
  intros Hn Hl. unfold field_name. rewrite <- !app_assoc. rewrite find_plain by by_computation.
  by apply find_hit.
Qed.

(** The text every request and reply starts with. *)
Definition opening (id : Z) : bytes := lit "{" ++ [QUOTE] ++ lit "session_id" ++ [QUOTE] ++ lit ":" ++ print_llu id.

Lemma find_opening id key s : 0 <= id -> QUOTE ∉ key -> key <> [] -> cur key <> chr ":" -> key <> lit "session_id" ->
  ducknng_json_find_key (opening id ++ s) key = ducknng_json_find_key s key.
Proof.
  intros Hid Hk Hk0 Hc Hne. unfold opening. rewrite <- !app_assoc. rewrite find_plain by by_computation.
  cbn [app]. rewrite find_quoted by (done || by_computation || by intros <-).
  rewrite find_plain by by_computation. apply find_plain, plain_no_quote. by apply llu_plain.
Qed.

Lemma opening_id id s : 0 <= id <= UINT64_MAX -> ~ 48 <= cur s <= 57 ->
  ducknng_json_extract_u64 (opening id ++ s) (lit "session_id") = Some id.
Proof.
  intros Hid Hs. unfold ducknng_json_extract_u64, opening. rewrite <- !app_assoc. rewrite find_plain by by_computation.
  change (lit ":" ++ ?x) with (chr ":" :: x). cbn [app].
  rewrite find_hit by by_computation. 
  pose proof (llu_loop_digits 20 id ltac:(lia)) as Hd. fold (print_llu id) in Hd. pose proof (print_llu_nonempty id) as Hne.
  assert (exists c p, print_llu id = c :: p /\ 48 <= c <= 57) as (c & p & E & Hc).
  { destruct (print_llu id) as [|c p]; [done|]. apply Forall_cons in Hd as [? _]. eauto. }
  assert (ducknng_json_skip_ws (print_llu id ++ s) = print_llu id ++ s) as ->.
  { rewrite E. cbn [app ducknng_json_skip_ws]. by assert (((c =? 32) || (c =? 9) || (c =? 13) || (c =? 10))%bool = false) as -> by lia. }
  assert (cur (print_llu id ++ s) = c) as Hcur by (by rewrite E). rewrite Hcur.
  assert ((c =? QUOTE) = false) as -> by (unfold QUOTE; lia). by rewrite strtoul_llu.
Qed.

Lemma extract_field name v s : QUOTE ∉ lit name -> zlen (lit name) < 126 -> QUOTE ∉ v ->
  forall a, ducknng_json_find_key a (lit name) = ducknng_json_find_key (field_name name ++ [QUOTE] ++ v ++ [QUOTE] ++ s) (lit name) ->
  ducknng_json_extract_string_dup a (lit name) = Some v.
Proof.
  intros Hn Hl Hv a Ha. unfold ducknng_json_extract_string_dup. rewrite Ha, find_field_hit by done.
  cbn [app]. cbn [ducknng_json_skip_ws]. change (((QUOTE =? 32) || (QUOTE =? 9) || (QUOTE =? 13) || (QUOTE =? 10))%bool) with false.
  cbv iota. cbn [cur]. rewrite Z.eqb_refl. cbn [negb]. change (zdrop 1 (QUOTE :: ?x)) with x.
  by rewrite break_at_skip.
Qed.

(** The numeric fields of a request. *)
Definition paging (batch_rows batch_bytes : Z) : bytes :=
  (if 0 <? batch_rows then field_name "batch_rows" ++ print_llu batch_rows else []) ++
  (if 0 <? batch_bytes then field_name "batch_bytes" ++ print_llu batch_bytes else []).

Definition correlation_field (c : option bytes) : bytes :=
  if nonempty c then field_name "correlation_id" ++ [QUOTE] ++ (default [] c ≫= control_escape) ++ [QUOTE] else [].

Lemma request_json_text id token rows nbytes corr json :
  Forall lower_hex token -> ducknng_session_request_json_ex id (Some token) rows nbytes corr = Some json ->
  0 <> id /\ token <> [] /\
  json = opening id ++ field_name "session_token" ++ [QUOTE] ++ token ++ [QUOTE] ++
    (paging rows nbytes ++ correlation_field corr ++ lit "}").
Proof.
  intros Ht. unfold ducknng_session_request_json_ex, paging, correlation_field.
  change (default [] (Some token)) with token. rewrite (escape_plain token) by (by apply hex_plain).
  destruct (Z.eqb_spec id 0) as [|Hid]; [done|]. destruct token as [|t token]; [done|]. cbn [orb negb nonempty].
  assert (t :: token <> []) as Hne by done. revert Hne. generalize (t :: token). intros txt Hne.
  destruct (512 <=? _); [done|]. destruct (512 <=? _); [done|]. destruct (512 <=? _); [done|].
  destruct (512 <=? _); [done|]. destruct (512 <=? _); [done|]. intros <-%(inj Some). split; [by intros <-|]. split; [done|].
  unfold opening. destruct (0 <? rows), (0 <? nbytes), (nonempty corr); rewrite ?app_nil_l, ?app_nil_r, <- ?app_assoc; reflexivity.
Qed.

Lemma find_paging rows nbytes key s : QUOTE ∉ key -> key <> [] -> cur key <> chr ":" ->
  key <> lit "batch_rows" -> key <> lit "batch_bytes" ->
  ducknng_json_find_key (paging rows nbytes ++ s) key = ducknng_json_find_key s key.
Proof.
  intros H1 H2 H3 H4 H5. unfold paging. rewrite <- app_assoc.
  assert (forall n, 0 < n -> QUOTE ∉ print_llu n) as Hq by (intros n Hn; apply plain_no_quote, llu_plain; lia).
  destruct (Z.ltb_spec 0 rows), (Z.ltb_spec 0 nbytes); cbn [app]; rewrite <- ?app_assoc;
    repeat (rewrite find_field by (auto || congruence || by_computation)); done.
Qed.

Lemma paging_cstr rows nbytes : cstr (paging rows nbytes).
Proof.
  assert (forall name n, cstr (lit name) -> cstr (if 0 <? n then field_name name ++ print_llu n else [])) as H.
  { intros name n Hn. destruct (Z.ltb_spec 0 n); [|done]. unfold field_name. repeat apply Forall_app_2; try by_computation; [done|].
    apply plain_cstr, llu_plain. lia. }
  unfold paging. apply Forall_app_2; apply H; by_computation.
Qed.

Lemma paging_head rows nbytes s : cur s = chr "," \/ cur s = chr "}" ->
  cur (paging rows nbytes ++ s) = chr "," \/ cur (paging rows nbytes ++ s) = chr "}".
Proof.
  intros H. unfold paging. rewrite <- app_assoc. destruct (0 <? rows); [by left|].
  destruct (0 <? nbytes); [by left|done].
Qed.

Lemma correlation_head c : cur (correlation_field c ++ lit "}") = chr "," \/ cur (correlation_field c ++ lit "}") = chr "}".
Proof. unfold correlation_field. destruct (nonempty c); [by left|by right]. Qed.

Lemma correlation_cstr c : cstr (default [] c) -> cstr (correlation_field c).
Proof.
  intros Hc. unfold correlation_field. destruct (nonempty c); [|done]. pose proof (escape_cstr _ Hc).
  repeat first [assumption | apply Forall_app_2 | by_computation].
Qed.

(** What the server reads from a request of the client. *)
Lemma control_read id token rows nbytes corr json method frame (seen : option bytes) :
  Forall lower_hex token -> id <= UINT64_MAX -> 0 <= id -> cstr (default [] corr) ->
  ducknng_session_request_json_ex id (Some token) rows nbytes corr = Some json ->
  f_payload frame = json -> f_payload_len frame = zlen json ->
  ducknng_json_extract_string_dup (correlation_field corr ++ lit "}") (lit "correlation_id") = seen ->
  ducknng_parse_session_control_request frame method = inl (mk_control id token seen).
Proof.
  intros Ht Hm Hid Hc Hj Hp Hl Hs. destruct (request_json_text _ _ _ _ _ _ Ht Hj) as (H0 & Hn & ->). clear Hj.
  set (json := opening _ ++ _) in *.
  assert (token <> lit "correlation_id") as Hne.
  { intros ->. revert Ht. unfold lower_hex. by_computation. }
  assert (cstr json) as Hjs.
  { assert (cstr (print_llu id)) by (apply plain_cstr, llu_plain; lia).
    assert (cstr token) by (by apply plain_cstr, hex_plain).
    pose proof (paging_cstr rows nbytes). pose proof (correlation_cstr corr Hc).
    unfold json, opening. repeat first [assumption | apply Forall_app_2 | by_computation]. }
  pose proof (paging_head rows nbytes _ (correlation_head corr)) as Hhead.
  assert (ducknng_json_extract_u64 json (lit "session_id") = Some id) as Hid'.
  { unfold json. apply opening_id; [lia|]. change (cur _) with 44. lia. }
  assert (ducknng_json_extract_string_dup json (lit "session_token") = Some token) as Htok.
  { eapply extract_field; [by_computation|by_computation|by apply plain_no_quote, hex_plain|]. unfold json.
    rewrite find_opening by (lia || by_computation). done. }
  assert (ducknng_json_extract_string_dup json (lit "correlation_id") = seen) as Hcor.
  { rewrite <- Hs. unfold ducknng_json_extract_string_dup, json. rewrite find_opening by (lia || by_computation).
    assert (cur (paging rows nbytes ++ correlation_field corr ++ lit "}") <> cur (lit "correlation_id"))
      by (destruct Hhead as [-> | ->]; by_computation).
    assert (QUOTE ∉ token) by (by apply plain_no_quote, hex_plain).
    rewrite find_text_field by first [assumption | by_computation]. by rewrite find_paging by by_computation. }
  unfold ducknng_parse_session_control_request, ducknng_copy_payload_json. rewrite Hl, Hp.
  assert (zlen json =? 0 = false) as ->.
  { unfold json, opening. rewrite <- !app_assoc. change (lit "{" ++ ?x) with (chr "{" :: x). rewrite zlen_cons.
    match goal with |- context [1 + zlen ?l] => pose proof (zlen_nonneg l) end. lia. }
  rewrite ztake_all by lia. rewrite c_text_cstr by done. rewrite Hid', Htok, Hcor. by destruct token.
Qed.

Lemma no_correlation : ducknng_json_extract_string_dup (lit "}") (lit "correlation_id") = None.
Proof. by vm_compute. Qed.

(** C13. A control request the client builds is read back by the server: the
    session id for every 64-bit value, the token (tokens are hexadecimal) and
    a correlation id of printable characters, whatever the paging fields say.
    The server does not undo escapes: a correlation id with a quote comes back
    cut before the quote, with a backslash at its end. *)
Theorem control_roundtrip id token rows nbytes corr json method frame
  (Ht : Forall lower_hex token) (Hid : 0 <= id <= UINT64_MAX)
  (Hp : f_payload frame = json) (Hl : f_payload_len frame = zlen json)
  (Hj : ducknng_session_request_json_ex id (Some token) rows nbytes corr = Some json) :
  (Forall plain_char (default [] corr) ->
   ducknng_parse_session_control_request frame method =
     inl (mk_control id token (if nonempty corr then corr else None))) /\
  (forall a b, corr = Some (a ++ QUOTE :: b) -> Forall plain_char a -> cstr b ->
   ducknng_parse_session_control_request frame method = inl (mk_control id token (Some (a ++ [BACKSLASH])))).
Proof.
  split.
  - intros Hc. eapply control_read; try done; [lia|lia|by apply plain_cstr|].
    unfold correlation_field. destruct (nonempty corr) eqn:E; [|apply no_correlation].
    destruct corr as [c|]; [|done]. change (default [] (Some c)) with c in *. rewrite escape_plain by done.
    rewrite <- !app_assoc. eapply extract_field; [by_computation|by_computation|by apply plain_no_quote|done].
  - intros a b -> Ha Hb. eapply control_read; try done; [lia|lia| |].
    { apply Forall_app_2; [by apply plain_cstr|]. by constructor. }
    unfold correlation_field. assert (nonempty (Some (a ++ QUOTE :: b)) = true) as -> by (by destruct a).
    change (default [] (Some ?x)) with x. rewrite bind_app, escape_plain, bind_cons by done.
    change (control_escape QUOTE) with [BACKSLASH; QUOTE]. rewrite <- !app_assoc.
    change ([BACKSLASH; QUOTE] ++ ?x) with ([BACKSLASH] ++ [QUOTE] ++ x). rewrite (app_assoc a [BACKSLASH]).
    eapply extract_field; [by_computation|by_computation| |done]. apply not_elem_of_app.
    split; [by apply plain_no_quote|by_computation].
Qed.

Definition demo_control : bytes :=
  default [] (ducknng_session_request_json_ex 7 (Some demo_token) 100 0 (Some (lit "job-1"))).

Lemma control_roundtrip_witness :
  ducknng_parse_session_control_request
    (mk_frame 1 1 0 0 (lit "fetch") 5 [] 0 demo_control (zlen demo_control)) (lit "fetch")
  = inl (mk_control 7 demo_token (Some (lit "job-1"))).
Proof.
  refine (proj1 (control_roundtrip 7 demo_token 100 0 (Some (lit "job-1")) demo_control (lit "fetch") _ _ _ _ _ _) _).
  - unfold lower_hex. by_computation.
  - unfold UINT64_MAX. lia.
  - reflexivity.
  - reflexivity.
  - vm_compute. reflexivity.
  - unfold plain_char. by_computation.
Defined.
