(* ===== verification/Methods.v ===== *)
(** The session methods of the RPC server: [src/src/ducknng_methods.c].

    A handler is a program of atomic steps ([Threads]): what it does under the
    service mutex, under the mutex of a session or under the mutex of the
    connection pool is one step on the world, so that handlers of several
    workers interleave at these points.  Destroying a session waits until its
    reference count is zero; reading a session through a freed address blocks
    for ever, which the contracts of the handlers exclude.

    DuckDB's answers are arguments of the handlers; what DuckDB is asked to do
    on a connection is recorded in [mw_log].  The rows of a query session are
    a [stream]: the chunks DuckDB will hand out and whether the execution
    fails after them.  [encode] stands for the Arrow and quack encoders. *)

From stdpp Require Import gmap.
From S2P Require Import Prelude Checked Wire Util Registry Peers Session Dispatch Runtime Control Threads.

(** ** The world *)

(** A call on a connection; the flag of the last three tells success. *)
Inductive db_call :=
| DbBegin | DbCreateAppender | DbAppend (rows : Z) (reported : bool) | DbDestroyAppender | DbRollback | DbInterrupt
| DbFlush (ok : bool) | DbClose (ok : bool) | DbCommit (ok : bool).

Declare Scope prog_scope.
Notation "'do' x <- p ; q" := (pbind p (fun x => q)) (at level 10, x pattern, p at level 100, q at level 200) : prog_scope.
#[global] Open Scope prog_scope.

Section methods.
Context {chunk : Type}.

Record stream := mk_stream { chunks : list chunk; stream_failed : bool }.

Record mworld := mk_mworld {
  mw_server : server; mw_pool : execution_pool; mw_log : list (Z * db_call); mw_streams : gmap Z stream }.

Definition mw_sessions (w : mworld) : session_table := sv_sessions (mw_server w).
Definition mw_heap (w : mworld) : gmap Z ducknng_session := st_heap (mw_sessions w).

Definition put_sessions (t : session_table) (w : mworld) : mworld :=
  mk_mworld (set_sessions t (mw_server w)) (mw_pool w) (mw_log w) (mw_streams w).
Definition put_heap (h : gmap Z ducknng_session) (w : mworld) : mworld :=
  put_sessions (with_heap h (mw_sessions w)) w.
Definition put_pool (p : execution_pool) (w : mworld) : mworld :=
  mk_mworld (mw_server w) p (mw_log w) (mw_streams w).
Definition put_log (calls : list (Z * db_call)) (w : mworld) : mworld :=
  mk_mworld (mw_server w) (mw_pool w) (mw_log w ++ calls) (mw_streams w).
Definition put_stream (p : Z) (s : stream) (w : mworld) : mworld :=
  mk_mworld (mw_server w) (mw_pool w) (mw_log w) (<[p := s]> (mw_streams w)).

Abbreviation mprog := (prog mworld).

(** ** Atomic steps *)

Definition acquire (id : Z) (token : bytes) (caller : option bytes) : mprog (option Z * Z) :=
  atomic (fun w =>
    let '(t, p, auth) := ducknng_service_acquire_session (mw_sessions w) id (Some token) caller in
    Some (put_sessions t w, (p, auth))).

Definition remove (id : Z) (token : bytes) (caller : option bytes) : mprog (option Z * Z) :=
  atomic (fun w =>
    let '(t, p, auth) := ducknng_service_remove_session (mw_sessions w) id (Some token) caller in
    Some (put_sessions t w, (p, auth))).

Definition release (p : Z) : mprog unit :=
  atomic (fun w =>
    match mw_heap w !! p with
    | Some s => Some (put_heap (<[p := ducknng_session_release s]> (mw_heap w)) w, tt)
    | None => None
    end).

(** A region under the mutex of the session at [p]: the new session, the calls
    made on its connection, the stream left, and what the region hands out. *)
Definition locked {X} (p : Z) (f : ducknng_session -> option stream -> ducknng_session * list db_call * option stream * X) : mprog X :=
  atomic (fun w =>
    match mw_heap w !! p with
    | Some s =>
      let '(s', calls, str, x) := f s (mw_streams w !! p) in
      let w := put_log ((fun c => (default 0 (session_con s), c)) <$> calls) (put_heap (<[p := s']> (mw_heap w)) w) in
      Some (match str with Some str => put_stream p str w | None => w end, x)
    | None => None
    end).

(** Fields read without the mutex. *)
Definition peek {X} (p : Z) (f : ducknng_session -> X) : mprog X :=
  locked p (fun s _ => (s, [], None, f s)).

Definition teardown_call (t : teardown) : list db_call :=
  match t with DestroyAppender => [DbDestroyAppender] | Rollback _ => [DbRollback] | _ => [] end.

Definition destroy (p : Z) : mprog unit :=
  atomic (fun w =>
    match mw_heap w !! p with
    | Some s =>
      if negb (refcount s =? 0) then None else
      let calls := ducknng_session_destroy s ≫= teardown_call in
      let w := put_log ((fun c => (default 0 (session_con s), c)) <$> calls) (put_heap (delete p (mw_heap w)) w) in
      Some (if (session_svc s && negb (session_pool_index s =? SIZE_MAX))%bool
            then put_pool (ducknng_service_release_execution_connection (Some (Z.to_nat (session_pool_index s))) (mw_pool w)) w
            else w, tt)
    | None => None
    end).

(** The last round of [ducknng_service_acquire_execution_connection], which
    finds a connection or gives up.  [connects] is DuckDB's answer to opening
    one more; the new connection has an address of its own. *)
Definition fresh_connection (p : execution_pool) : Z := 1 + foldr Z.max 0 (pool p).*1.

Definition lease (connects : bool) : mprog (option (Z * nat)) :=
  atomic (fun w =>
    let (p, got) := acquire_round (if connects then Some (fresh_connection (mw_pool w)) else None) (mw_pool w) in
    Some (put_pool p w, got)).

Definition unlease (i : nat) : mprog unit :=
  atomic (fun w => Some (put_pool (ducknng_service_release_execution_connection (Some i) (mw_pool w)) w, tt)).

(** Calls on a connection the handler holds. *)
Definition call (con : Z) (calls : list db_call) : mprog unit :=
  atomic (fun w => Some (put_log ((fun c => (con, c)) <$> calls) w, tt)).

Definition pool_exhausted : bytes := lit "ducknng: DuckDB execution connection pool exhausted".

(** ** Replies shared by the handlers *)

Definition ducknng_session_auth_error_message (auth : Z) : bytes :=
  if auth =? DUCKNNG_SESSION_AUTH_IDENTITY_MISMATCH
  then lit "ducknng: session owner identity mismatch" else lit "ducknng: session owner token mismatch".

Definition not_found (auth : Z) (text : string) : handled :=
  if auth =? 0 then refuse DUCKNNG_STATUS_NOT_FOUND (lit text)
  else refuse DUCKNNG_STATUS_UNAUTHORIZED (ducknng_session_auth_error_message auth).

Definition ducknng_session_check_kind (id : Z) (token : bytes) (caller : option bytes) (require_upload : bool)
    : mprog (option handled) :=
  do got <- acquire id token caller;
  match got with
  | (None, auth) => Ret (Some (not_found auth "ducknng: session not found"))
  | (Some p, _) =>
    do up <- peek p is_upload;
    do _ <- release p;
    Ret (if (require_upload && negb up)%bool
         then Some (refuse DUCKNNG_STATUS_INVALID (lit "ducknng: session is not an upload session"))
         else if (negb require_upload && up)%bool
         then Some (refuse DUCKNNG_STATUS_INVALID
           (lit "ducknng: session is an upload session; use the upload_* methods"))
         else None)
  end.

(** ** Changes a handler makes to a session *)

Definition set_touch (now : Z) (s : ducknng_session) : ducknng_session :=
  mk_session (session_id s) (owner_token s) (owner_identity s) (result_handle s) (row_payload_format s)
    (fetch_batch_chunks s) (result_open s) (eos s) (cancelled s) now (refcount s) (closing s)
    (session_svc s) (session_con s) (session_pool_index s) (stmt_open s) (pending_open s) (is_upload s)
    (upload_appender_open s) (upload_txn_open s) (upload_target s) (upload_col_names s) (progress s).

Definition set_flow (result_open eos cancelled pending_open : bool) (pr : session_progress) (s : ducknng_session)
    : ducknng_session :=
  mk_session (session_id s) (owner_token s) (owner_identity s) (result_handle s) (row_payload_format s)
    (fetch_batch_chunks s) result_open eos cancelled (last_touch_ms s) (refcount s) (closing s)
    (session_svc s) (session_con s) (session_pool_index s) (stmt_open s) pending_open (is_upload s)
    (upload_appender_open s) (upload_txn_open s) (upload_target s) (upload_col_names s) pr.

Definition set_upload (appender txn : bool) (pr : session_progress) (s : ducknng_session) : ducknng_session :=
  mk_session (session_id s) (owner_token s) (owner_identity s) (result_handle s) (row_payload_format s)
    (fetch_batch_chunks s) (result_open s) (eos s) (cancelled s) (last_touch_ms s) (refcount s) (closing s)
    (session_svc s) (session_con s) (session_pool_index s) (stmt_open s) (pending_open s) (is_upload s)
    appender txn (upload_target s) (upload_col_names s) pr.

(** ** Query sessions *)

(** The row encoders: the format, whether the schema is sent, and the chunks;
    the reply body with the length of its payload. *)
Context (encode : Z -> bool -> list chunk -> result bytes (bytes * Z)).

Definition ducknng_fetch_set_row_reply (format extra_flags prefix : Z) (body : bytes * Z) : handled :=
  if format =? QUACK_BATCH then
    (0, (ducknng_method_reply_set_prebuilt_message ducknng_method_reply_init DUCKNNG_RPC_RESULT
           (Z.lor (Z.lor DUCKNNG_RPC_FLAG_RESULT_ROWS DUCKNNG_RPC_FLAG_PAYLOAD_QUACK_BATCH) extra_flags)
           (Some (fst body)) prefix (snd body)).1)
  else
    (0, ducknng_method_reply_set_payload ducknng_method_reply_init DUCKNNG_RPC_RESULT
          (Z.lor (Z.lor DUCKNNG_RPC_FLAG_RESULT_ROWS DUCKNNG_RPC_FLAG_PAYLOAD_ARROW_STREAM) extra_flags)
          (Some (fst body)) (snd body)).

(** DuckDB on the first fetch: the task loop fails, the result cannot be
    obtained, or the result is open. *)
Inductive pending_answer := PendingError | ExecuteError (detail : bytes) | PendingReady.

Definition text_or (detail : bytes) (dflt : string) : bytes := match detail with [] => lit dflt | _ => detail end.

Definition exhausted_view (id batch : Z) (handle corr : option bytes) : ducknng_session_reply_view :=
  mk_view id None (Some (lit "exhausted")) None None handle (Some batch) None None None None corr.

(** The region of [fetch] under the session's mutex. *)
Definition fetch_locked (pending : pending_answer) (now prefix id : Z) (corr : option bytes)
    (s : ducknng_session) (str : option stream) : ducknng_session * list db_call * option stream * handled :=
  let s := set_touch now s in
  let fail s status text := (s, @nil db_call, @None stream, refuse status text) in
  if cancelled s then fail s DUCKNNG_STATUS_CANCELLED (lit "ducknng: session was cancelled") else
  let drive := (negb (pending_ready (progress s)) && pending_open s)%bool in
  match (if drive then pending else PendingReady) with
  | PendingError => fail s DUCKNNG_STATUS_SQL_ERROR (lit "ducknng: fetch execution failed")
  | ExecuteError detail =>
    fail s DUCKNNG_STATUS_SQL_ERROR (text_or detail "ducknng: fetch failed to obtain streaming result")
  | PendingReady =>
    let pr := progress s in
    let s := if drive
      then set_flow true (eos s) (cancelled s) false (mk_progress (batch_no pr) true (row_schema_sent pr) (upload_rows pr)) s
      else s in
    if negb (result_open s) then fail s DUCKNNG_STATUS_INTERNAL (lit "ducknng: fetch failed to encode row batch") else
    let max_chunks := if fetch_batch_chunks s =? 0 then 1 else fetch_batch_chunks s in
    let left := from_option chunks [] str in
    let batch := ztake max_chunks left in
    let str' := mk_stream (zdrop max_chunks left) (from_option stream_failed false str) in
    match batch with
    | _ :: _ =>
      match encode (row_payload_format s) (negb (row_schema_sent (progress s))) batch with
      | Err e => (s, [], Some str', refuse DUCKNNG_STATUS_INTERNAL e)
      | Ok body =>
        (set_flow (result_open s) (eos s) (cancelled s) (pending_open s)
           (mk_progress (u64 (batch_no (progress s) + 1)) (pending_ready (progress s)) true (upload_rows (progress s))) s,
         [], Some str', ducknng_fetch_set_row_reply (row_payload_format s) 0 prefix body)
      end
    | [] =>
      let ended := set_flow (result_open s) true (cancelled s) (pending_open s) (progress s) s in
      if batch_no (progress s) =? 0 then
        match encode (row_payload_format s) true [] with
        | Err e => fail s DUCKNNG_STATUS_INTERNAL e
        | Ok body =>
          (ended, [], None, ducknng_fetch_set_row_reply (row_payload_format s) DUCKNNG_RPC_FLAG_END_OF_STREAM prefix body)
        end
      else
        (ended, [], None,
         ducknng_session_state_reply DUCKNNG_RPC_FLAG_END_OF_STREAM
           (exhausted_view id (batch_no (progress s)) (result_handle s) corr))
    end
  end.

Definition upload_refused : handled :=
  refuse DUCKNNG_STATUS_INVALID (lit "ducknng: session is an upload session; use the upload_* methods").

Definition ducknng_method_fetch_handler (pending : pending_answer) (now : Z) (method : ducknng_method_descriptor)
    (req : ducknng_request_context) : mprog handled :=
  match ducknng_size_add DUCKNNG_WIRE_HEADER_LEN (zlen (default [] (m_name method))) with
  | None => Ret (refuse DUCKNNG_STATUS_INTERNAL (lit "ducknng: fetch reply prefix size overflows"))
  | Some prefix =>
    match ducknng_parse_session_control_request (rc_frame req) (lit "fetch") with
    | inr h => Ret h
    | inl c =>
      do got <- acquire (c_session_id c) (c_session_token c) (rc_caller_identity req);
      match got with
      | (None, auth) => Ret (not_found auth "ducknng: session not found")
      | (Some p, _) =>
        do up <- peek p is_upload;
        if (up : bool) then do _ <- release p; Ret upload_refused else
        do h <- locked p (fetch_locked pending now prefix (c_session_id c) (c_correlation_id c));
        do _ <- release p;
        Ret h
      end
    end
  end.

(** [close] and [cancel] differ in the state they report, the reply flags and
    what they do to the session before destroying it. *)
Definition end_query (name state : string) (flags : Z) (cancel : bool) (req : ducknng_request_context) : mprog handled :=
  match ducknng_parse_session_control_request (rc_frame req) (lit name) with
  | inr h => Ret h
  | inl c =>
    do refused <- ducknng_session_check_kind (c_session_id c) (c_session_token c) (rc_caller_identity req) false;
    match refused with
    | Some h => Ret h
    | None =>
      do got <- remove (c_session_id c) (c_session_token c) (rc_caller_identity req);
      match got with
      | (None, auth) => Ret (not_found auth "ducknng: session not found")
      | (Some p, _) =>
        do seen <- peek p (fun s => (batch_no (progress s), result_handle s));
        do _ <- (if cancel then
          do _ <- locked p (fun s _ => (set_flow (result_open s) (eos s) true (pending_open s) (progress s) s, [], None, tt));
          locked p (fun s _ => (s, match session_con s with Some _ => [DbInterrupt] | None => [] end, None, tt))
          else Ret tt);
        do _ <- destroy p;
        Ret (ducknng_session_state_reply flags
          (mk_view (c_session_id c) None (Some (lit state)) None None (snd seen) (Some (fst seen)) None None None None
             (c_correlation_id c)))
      end
    end
  end.

Definition ducknng_method_close_handler (req : ducknng_request_context) : mprog handled :=
  end_query "close" "closed" DUCKNNG_RPC_FLAG_SESSION_CLOSED false req.

Definition ducknng_method_cancel_handler (req : ducknng_request_context) : mprog handled :=
  end_query "cancel" "cancelled" (Z.lor DUCKNNG_RPC_FLAG_CANCELLED DUCKNNG_RPC_FLAG_SESSION_CLOSED) true req.

(** The decoded request of [query_open]. *)
Record ducknng_query_open_request := mk_open_request {
  q_sql : bytes; q_batch_rows : Z; q_correlation_id : option bytes; q_serialization_mode : option bytes;
  q_parameter_count : Z }.

(** DuckDB's answers to [query_open], in the order of the calls: the number of
    statements with the error text when it is 0, the leading statement that
    fails, the final prepare, the binding of parameters, the start of the
    execution, and what the execution will produce. *)
Record open_answers := mk_open_answers {
  oa_statements : Z; oa_extract_error : option bytes; oa_leading : option (bool * bytes);
  oa_prepare_error : option bytes; oa_bind_error : option bytes; oa_pending : bool; oa_stream : stream }.

Definition open_failure (rq : ducknng_query_open_request) (a : open_answers) : option (Z * bytes) :=
  if oa_statements a =? 0 then
    Some (DUCKNNG_STATUS_SQL_ERROR,
      text_or (default (lit "ducknng: query_open failed to extract statements") (oa_extract_error a))
        "ducknng: query_open: empty or invalid SQL")
  else if ((0 <? q_parameter_count rq) && negb (oa_statements a =? 1))%bool then
    Some (DUCKNNG_STATUS_INVALID, lit "ducknng: parameterized query_open requires exactly one SQL statement")
  else
  match (if 1 <? oa_statements a then oa_leading a else None) with
  | Some (prepare, detail) =>
    Some (DUCKNNG_STATUS_SQL_ERROR, text_or detail (if (prepare : bool)
      then "ducknng: query_open: failed to prepare leading statement"
      else "ducknng: query_open: failed to execute leading statement"))
  | None =>
  match oa_prepare_error a with
  | Some detail => Some (DUCKNNG_STATUS_SQL_ERROR, text_or detail "ducknng: query_open prepare failed")
  | None =>
  match oa_bind_error a with
  | Some detail => Some (DUCKNNG_STATUS_INVALID, detail)
  | None =>
    if negb (oa_pending a)
    then Some (DUCKNNG_STATUS_SQL_ERROR, lit "ducknng: query_open failed to start streaming execution") else None
  end end end.

Definition open_batch_chunks (vector_rows batch_rows : Z) : Z :=
  if 0 <? batch_rows then
    let n := u64 (u64 (batch_rows + vector_rows) - 1) / vector_rows in
    let n := if n =? 0 then DUCKNNG_DEFAULT_FETCH_BATCH_CHUNKS else n in
    if DUCKNNG_MAX_FETCH_BATCH_CHUNKS <? n then DUCKNNG_MAX_FETCH_BATCH_CHUNKS else n
  else DUCKNNG_DEFAULT_FETCH_BATCH_CHUNKS.

Definition open_view (id idle : Z) (token handle : bytes) (n format : Z) (corr : option bytes) : ducknng_session_reply_view :=
  mk_view id (Some token) (Some (lit "open")) (Some (lit "fetch")) (Some idle) (Some handle) None (Some 1) (Some 1) (Some n)
    (Some (ducknng_session_row_payload_format_name format)) corr.

(** The random words of a token and a handle, and the clock. *)
Record entropy := mk_entropy { e_token : Z * Z * Z * Z; e_handle : Z * Z * Z * Z; e_now : Z }.

(** Registering a session, under the service mutex. *)
Definition add_query (con : Z) (i : nat) (caller : option bytes) (format n : Z) (str : stream) (e : entropy)
    : mprog (result (Z * bytes) opened) :=
  atomic (fun w =>
    let s := mw_server w in
    let '(t, load, r) := ducknng_service_add_session_streaming (sv_limits s) (sv_shutting_down s) (sv_sessions s) (sv_load s)
      (Some con) (Z.of_nat i) true true caller format n (e_token e) (e_handle e) (e_now e) in
    let w := mk_mworld (set_sessions t (set_load load s)) (mw_pool w) (mw_log w) (mw_streams w) in
    Some (match r with Ok (id, _, _) => put_stream id str w | Err _ => w end, r)).

Definition refusal_status (rc : Z) : Z := if 0 <? rc then DUCKNNG_STATUS_BUSY else DUCKNNG_STATUS_INTERNAL.

Definition ducknng_method_query_open_handler (decode : bytes -> result bytes ducknng_query_open_request)
    (vector_rows idle_ms : Z) (connects : bool) (a : open_answers) (e : entropy) (req : ducknng_request_context)
    : mprog handled :=
  match decode (f_payload (rc_frame req)) with
  | Err text => Ret (refuse DUCKNNG_STATUS_INVALID text)
  | Ok rq =>
    match ducknng_parse_row_payload_format (q_serialization_mode rq) with
    | None => Ret (refuse DUCKNNG_STATUS_INVALID (lit "ducknng: unsupported serialization_mode in query_open request"))
    | Some format =>
      let n := open_batch_chunks vector_rows (q_batch_rows rq) in
      do got <- lease connects;
      match got with
      | None => Ret (refuse DUCKNNG_STATUS_INTERNAL pool_exhausted)
      | Some (con, i) =>
        match open_failure rq a with
        | Some (status, text) => do _ <- unlease i; Ret (refuse status text)
        | None =>
          do r <- add_query con i (rc_caller_identity req) format n (oa_stream a) e;
          match r with
          | Err (rc, text) => do _ <- unlease i; Ret (refuse (refusal_status rc) text)
          | Ok (id, token, handle) =>
            Ret (ducknng_session_state_reply DUCKNNG_RPC_FLAG_SESSION_OPEN
              (open_view id idle_ms token handle n format (q_correlation_id rq)))
          end
        end
      end
    end
  end.

(** ** The sweep and the stop of a service *)

(** [ducknng_service_prune_idle_sessions] between two destructions: the next
    session to remove at or after [i], detached under the service mutex. *)
Definition prune_detach (idle_ms now_ms : Z) (i : nat) : mprog (option (Z * nat)) :=
  atomic (fun w =>
    let t := mw_sessions w in
    let ready p := match st_heap t !! p with Some s => should_prune idle_ms now_ms s | None => false end in
    match find_index ready (drop i (sessions t)) with
    | Some j =>
      let (t, p) := ducknng_service_detach_session_locked t (i + j) in
      Some (put_sessions t w, match p with Some p => Some (p, (i + j)%nat) | None => None end)
    | None => Some (w, None)
    end).

(** Fuel bounds the sessions one sweep removes. *)
Fixpoint prune_rounds (fuel : nat) (idle_ms now_ms : Z) (i : nat) : mprog unit :=
  match fuel with
  | O => Ret tt
  | S fuel =>
    do got <- prune_detach idle_ms now_ms i;
    match got with
    | Some (p, i) => do _ <- destroy p; prune_rounds fuel idle_ms now_ms i
    | None => Ret tt
    end
  end.

Definition prune (fuel : nat) (idle_ms now_ms : Z) : mprog unit :=
  if idle_ms =? 0 then Ret tt else prune_rounds fuel idle_ms now_ms 0.

Definition set_shutting_down (s : server) : server :=
  mk_server (sv_policy s) (sv_limits s) true (sv_session_idle_ms s) (sv_load s) (sv_sessions s) (sv_registry s).

Definition detach_all : mprog (list Z) :=
  atomic (fun w =>
    let (t, all) := ducknng_service_detach_all_sessions (mw_sessions w) in
    Some (put_sessions t w, all)).

Fixpoint destroy_all (ps : list Z) : mprog unit :=
  match ps with [] => Ret tt | p :: ps => do _ <- destroy p; destroy_all ps end.

(** The part of [ducknng_service_stop] that ends the sessions. *)
Definition stop : mprog unit :=
  do _ <- atomic (fun w => Some (mk_mworld (set_shutting_down (mw_server w)) (mw_pool w) (mw_log w) (mw_streams w), tt));
  do all <- detach_all;
  destroy_all all.

End methods.
