(* ===== verification/Upload.v ===== *)
(** The upload methods of the RPC server and their registration:
    [src/src/ducknng_methods.c].

    An upload session owns a connection with an open transaction and an
    appender; [upload_append] adds batches, [upload_commit] flushes and
    commits, [upload_abort] and every other way a session ends roll back. *)

From stdpp Require Import gmap.
From S2P Require Import Prelude Wire Util Registry Peers Session Dispatch Runtime Control Threads Methods.

(** ** Targets *)

Definition ident_start (c : Z) : bool :=
  (((65 <=? c) && (c <=? 90)) || ((97 <=? c) && (c <=? 122)) || (c =? chr "_"))%bool.
Definition ident_char (c : Z) : bool :=
  (ident_start c || ((48 <=? c) && (c <=? 57)) || (c =? chr "$"))%bool.

Definition ducknng_upload_ident_ok (s : bytes) : bool :=
  match s with [] => false | c :: s => (ident_start c && forallb ident_char s)%bool end.

(** The parts of a target at its dots; a fourth part stops the loop. *)
Fixpoint split_parts (fuel : nat) (p : bytes) : option (list bytes) :=
  match fuel with
  | O => None
  | S fuel =>
    match break_at (chr ".") p with
    | (part, None) => Some [part]
    | (part, Some rest) => (fun ps => part :: ps) <$> split_parts fuel rest
    end
  end.

Definition bad_target : bytes := lit "ducknng: upload target must be a simple [[catalog.]schema.]table identifier".

(** Catalog, schema and table. *)
Definition ducknng_upload_split_target (target : option bytes) : result bytes (option bytes * option bytes * bytes) :=
  match split_parts 3 (default [] target) with
  | None => Err bad_target
  | Some parts =>
    if negb (forallb ducknng_upload_ident_ok parts) then Err bad_target else
    match parts with
    | [t] => Ok (None, None, t)
    | [s; t] => Ok (None, Some s, t)
    | [c; s; t] => Ok (Some c, Some s, t)
    | _ => Err bad_target
    end
  end.

(** The query that names the columns of the target. *)
Definition quoted (s : bytes) : bytes := [QUOTE] ++ s ++ [QUOTE].
Definition upload_columns_sql (catalog schema : option bytes) (table : bytes) : bytes :=
  lit "SELECT * FROM " ++
  match catalog, schema with
  | Some c, Some s => quoted c ++ lit "." ++ quoted s ++ lit "." ++ quoted table
  | Some c, None => quoted c ++ lit "." ++ quoted [] ++ lit "." ++ quoted table
  | None, Some s => quoted s ++ lit "." ++ quoted table
  | None, None => quoted table
  end ++ lit " LIMIT 0".

(** ** Handlers *)

Section upload.
Context {chunk : Type}.
Abbreviation mprog := (prog (@mworld chunk)).

(** DuckDB's answers: the error of BEGIN, the error of the appender, and the
    columns the query on the target names. *)
Record upload_answers := mk_upload_answers {
  ua_begin : option bytes; ua_appender : option bytes; ua_columns : bytes -> result bytes (list bytes) }.

Definition add_upload (con : Z) (i : nat) (target : bytes) (cols : option (list bytes)) (caller : option bytes) (e : entropy)
    : mprog (result (Z * bytes) opened) :=
  atomic (fun w =>
    let s := mw_server w in
    let '(t, load, r) := ducknng_service_add_upload_session (sv_limits s) (sv_shutting_down s) (sv_sessions s) (sv_load s)
      (Some con) (Z.of_nat i) true (Some target) cols caller (e_token e) (e_handle e) (e_now e) in
    Some (mk_mworld (set_sessions t (set_load load s)) (mw_pool w) (mw_log w) (mw_streams w), r)).

Definition upload_view (id idle : Z) (token : bytes) (corr : option bytes) : ducknng_session_reply_view :=
  mk_view id (Some token) (Some (lit "open")) (Some (lit "upload_append")) (Some idle) None None None None None None corr.

(** The [fail] exit, with what is open by then. *)
Definition upload_fail (con : Z) (i : nat) (open : list db_call) (status : Z) (text : bytes) : mprog handled :=
  do _ <- call con open;
  do _ <- unlease i;
  Ret (refuse status text).

Definition ducknng_method_upload_open_handler (idle_ms : Z) (connects : bool) (a : upload_answers) (e : entropy)
    (req : ducknng_request_context) : mprog handled :=
  match ducknng_copy_payload_json (rc_frame req) with
  | None => Ret (refuse DUCKNNG_STATUS_INVALID (lit "ducknng: upload_open requires a JSON payload with target_table"))
  | Some json =>
    let mode := ducknng_json_extract_string_dup json (lit "mode") in
    let corr := ducknng_json_extract_string_dup json (lit "correlation_id") in
    match ducknng_json_extract_string_dup json (lit "target_table") with
    | None | Some [] => Ret (refuse DUCKNNG_STATUS_INVALID (lit "ducknng: upload_open requires target_table"))
    | Some target =>
      if (nonempty mode && negb (str_eq (default [] mode) (lit "append")))%bool
      then Ret (refuse DUCKNNG_STATUS_INVALID (lit "ducknng: upload_open v1 supports only mode 'append' to an existing table")) else
      match ducknng_upload_split_target (Some target) with
      | Err text => Ret (refuse DUCKNNG_STATUS_INVALID text)
      | Ok (cat, sch, tbl) =>
        do got <- lease connects;
        match got with
        | None => Ret (refuse DUCKNNG_STATUS_INTERNAL pool_exhausted)
        | Some (con, i) =>
          match ua_begin a with
          | Some text => upload_fail con i [] DUCKNNG_STATUS_SQL_ERROR text
          | None =>
            do _ <- call con [DbBegin];
            match ua_appender a with
            | Some text => upload_fail con i [DbRollback] DUCKNNG_STATUS_SQL_ERROR text
            | None =>
              do _ <- call con [DbCreateAppender];
              match ua_columns a (upload_columns_sql cat sch tbl) with
              | Err text => upload_fail con i [DbDestroyAppender; DbRollback] DUCKNNG_STATUS_SQL_ERROR text
              | Ok cols =>
                do r <- add_upload con i target (match cols with [] => None | _ => Some cols end) (rc_caller_identity req) e;
                match r with
                | Err (rc, text) => upload_fail con i [DbDestroyAppender; DbRollback] (refusal_status rc) text
                | Ok (id, token, _) =>
                  Ret (ducknng_session_state_reply DUCKNNG_RPC_FLAG_SESSION_OPEN (upload_view id idle_ms token corr))
                end
              end
            end
          end
        end
      end
    end
  end.

(** Appending one batch: its rows, or the rows of the chunks that went in
    before the failure, with the error text. *)
Inductive append_answer := Appended (rows : Z) | AppendFailed (rows_before : Z) (text : bytes).

Definition rows_text (state : string) (rows : Z) : bytes :=
  jlit "{'state':'" ++ lit state ++ jlit "','rows':" ++ print_llu rows ++ lit "}".

Definition append_locked (answer : append_answer) (now : Z) (s : ducknng_session) (str : option (@stream chunk))
    : ducknng_session * list db_call * option (@stream chunk) * handled :=
  let s := set_touch now s in
  if (negb (is_upload s) || negb (upload_appender_open s))%bool
  then (s, [], None, refuse DUCKNNG_STATUS_INVALID (lit "ducknng: session is not an open upload session")) else
  match answer with
  | AppendFailed n text => (s, [DbAppend n false], None, refuse DUCKNNG_STATUS_SQL_ERROR text)
  | Appended n =>
    let pr := progress s in
    let rows := u64 (upload_rows pr + n) in
    (set_upload (upload_appender_open s) (upload_txn_open s) (mk_progress (batch_no pr) (pending_ready pr) (row_schema_sent pr) rows) s,
     [DbAppend n true], None,
     (0, ducknng_json_reply ducknng_method_reply_init 0 (rows_text "open" rows)))
  end.

Definition ducknng_method_upload_append_handler (answer : append_answer) (now : Z) (req : ducknng_request_context)
    : mprog handled :=
  let frame := rc_frame req in
  match ducknng_upload_append_parse_prefix (Some (f_payload frame)) (f_payload_len frame) with
  | None => Ret (refuse DUCKNNG_STATUS_INVALID
      (lit "ducknng: upload_append payload must be [session_id][token_len][token][quack batch]"))
  | Some (id, token, token_len, _) =>
    if negb (zlen (c_text token) =? token_len)
    then Ret (refuse DUCKNNG_STATUS_INVALID (lit "ducknng: upload session token contains an embedded NUL")) else
    do got <- acquire id (c_text token) (rc_caller_identity req);
    match got with
    | (None, auth) => Ret (not_found auth "ducknng: upload session not found")
    | (Some p, _) =>
      do h <- locked p (append_locked answer now);
      do _ <- release p;
      Ret h
    end
  end.

(** DuckDB's answers to a commit: the errors of flush, close and COMMIT. *)
Record commit_answers := mk_commit_answers { ca_flush : option bytes; ca_close : option bytes; ca_commit : option bytes }.

Definition flush_calls (a : commit_answers) : list db_call * option bytes :=
  match ca_flush a with
  | Some text => ([DbFlush false; DbDestroyAppender], Some text)
  | None =>
    match ca_close a with
    | Some text => ([DbFlush true; DbClose false; DbDestroyAppender], Some text)
    | None => ([DbFlush true; DbClose true; DbDestroyAppender], None)
    end
  end.

Definition commit_calls (a : commit_answers) : list db_call * option bytes :=
  match ca_commit a with
  | Some text => ([DbCommit false; DbRollback], Some text)
  | None => ([DbCommit true], None)
  end.

(** The region of [upload_commit] under the session's mutex: the rows to
    report, or the error. *)
Definition commit_locked (a : commit_answers) (s : ducknng_session) (str : option (@stream chunk))
    : ducknng_session * list db_call * option (@stream chunk) * (Z + bytes) :=
  let rows := upload_rows (progress s) in
  let '(calls, err) := if upload_appender_open s then flush_calls a else ([], None) in
  let s := set_upload false (upload_txn_open s) (progress s) s in
  match err with
  | Some text => (s, calls, None, inr text)
  | None =>
    if (upload_txn_open s && bool_decide (session_con s <> None))%bool then
      let '(more, err) := commit_calls a in
      (set_upload false false (progress s) s, calls ++ more, None, match err with Some text => inr text | None => inl rows end)
    else (s, calls, None, inl rows)
  end.

(** What [upload_commit] and [upload_abort] share: find the session, take it
    out of the table, hand it to [k]. *)
Definition end_upload (name : string) (req : ducknng_request_context) (k : Z -> mprog handled) : mprog handled :=
  match ducknng_parse_session_control_request (rc_frame req) (lit name) with
  | inr h => Ret h
  | inl c =>
    do refused <- ducknng_session_check_kind (c_session_id c) (c_session_token c) (rc_caller_identity req) true;
    match refused with
    | Some h => Ret h
    | None =>
      do got <- remove (c_session_id c) (c_session_token c) (rc_caller_identity req);
      match got with
      | (None, auth) => Ret (not_found auth "ducknng: upload session not found")
      | (Some p, _) => k p
      end
    end
  end.

Definition ducknng_method_upload_commit_handler (a : commit_answers) (req : ducknng_request_context) : mprog handled :=
  end_upload "upload_commit" req (fun p =>
    do up <- peek p is_upload;
    if negb up then
      do _ <- destroy p; Ret (refuse DUCKNNG_STATUS_INVALID (lit "ducknng: session is not an upload session"))
    else
      do r <- locked p (commit_locked a);
      do _ <- destroy p;
      Ret (match r with
           | inl rows => (0, ducknng_json_reply ducknng_method_reply_init DUCKNNG_RPC_FLAG_SESSION_CLOSED (rows_text "committed" rows))
           | inr text => refuse DUCKNNG_STATUS_SQL_ERROR text
           end)).

Definition ducknng_method_upload_abort_handler (req : ducknng_request_context) : mprog handled :=
  end_upload "upload_abort" req (fun p =>
    do _ <- destroy p;
    Ret (0, ducknng_json_reply ducknng_method_reply_init DUCKNNG_RPC_FLAG_SESSION_CLOSED (jlit "{'state':'aborted'}"))).

End upload.
