(* ===== verification/SessionThreads.v ===== *)
(** Handlers of several workers at once: the contracts of the steps of
    [Methods] and [Upload], and what they give for every interleaving.

    A thread owns references to sessions, sessions it took out of the table
    and connections it leased.  A connection also has a protocol: a
    transaction is begun before an appender is made, rows go into an open
    appender, and the appender is gone before the transaction ends. *)

From stdpp Require Import gmap relations.
From S2P Require Import Prelude Checked Wire Util Registry Peers Session Dispatch Runtime Control Threads Methods Upload.

(** ** The protocol of a connection *)

(** Rows of the open transaction, all of them and the ones reported to the
    client, and the rows stored by commits. *)
Record con_state := mk_con { x_txn : bool; x_app : bool; x_reported : Z; x_rows : Z; x_stored : Z }.

Definition con_init : con_state := mk_con false false 0 0 0.

Definition con_step (x : con_state) (c : db_call) : option con_state :=
  match c with
  | DbBegin => if (x_txn x || x_app x)%bool then None else Some (mk_con true false 0 0 (x_stored x))
  | DbCreateAppender =>
    if (x_txn x && negb (x_app x))%bool then Some (mk_con true true (x_reported x) (x_rows x) (x_stored x)) else None
  | DbAppend n reported =>
    if (x_txn x && x_app x)%bool
    then Some (mk_con true true (if reported then u64 (x_reported x + n) else x_reported x) (x_rows x + n) (x_stored x))
    else None
  | DbFlush _ | DbClose _ => if (x_txn x && x_app x)%bool then Some x else None
  | DbDestroyAppender =>
    if x_app x then Some (mk_con (x_txn x) false (x_reported x) (x_rows x) (x_stored x)) else None
  | DbCommit ok =>
    if (x_txn x && negb (x_app x))%bool
    then Some (if ok then mk_con false false 0 0 (x_stored x + x_rows x) else x) else None
  | DbRollback => if (x_txn x && negb (x_app x))%bool then Some (mk_con false false 0 0 (x_stored x)) else None
  | DbInterrupt => Some x
  end.

Definition con_run (x : con_state) (calls : list db_call) : option con_state :=
  foldl (fun o c => o ≫= fun x => con_step x c) (Some x) calls.

Definition calls_of (con : Z) (log : list (Z * db_call)) : list db_call := (filter (fun e => e.1 = con) log).*2.

(** The state of a connection after a log; [None] when a call was out of
    place. *)
Definition con_at (con : Z) (log : list (Z * db_call)) : option con_state := con_run con_init (calls_of con log).

(** What a session or a handler knows of its connection. *)
Record con_view := mk_con_view { cv_txn : bool; cv_app : bool; cv_rows : Z }.

Definition view_of (x : con_state) : con_view := mk_con_view (x_txn x) (x_app x) (if x_txn x then x_reported x else 0).
Definition closed_view : con_view := mk_con_view false false 0.

Definition session_view (s : ducknng_session) : con_view :=
  mk_con_view (upload_txn_open s) (upload_appender_open s) (if upload_txn_open s then upload_rows (progress s) else 0).

Lemma con_run_app x a b : con_run x (a ++ b) = con_run x a ≫= fun x => con_run x b.
Proof.
  unfold con_run. rewrite foldl_app. destruct (foldl _ (Some x) a) as [y|]; [done|].
  cbn. induction b; [done|]. done.
Qed.

Lemma calls_of_app con a b : calls_of con (a ++ b) = calls_of con a ++ calls_of con b.
Proof. unfold calls_of. by rewrite filter_app, fmap_app. Qed.

Lemma calls_of_own con calls : calls_of con ((fun c => (con, c)) <$> calls) = calls.
Proof.
  unfold calls_of. induction calls as [|c calls IH]; [done|]. rewrite fmap_cons, filter_cons_True, fmap_cons by done. by rewrite IH.
Qed.

Lemma calls_of_other con con' calls : con' <> con -> calls_of con' ((fun c => (con, c)) <$> calls) = [].
Proof.
  intros Hne. unfold calls_of. induction calls as [|c calls IH]; [done|].
  rewrite fmap_cons, filter_cons_False by (cbn; congruence). done.
Qed.

Lemma calls_of_none con log : con ∉ log.*1 -> calls_of con log = [].
Proof.
  intros H. unfold calls_of. induction log as [|[c x] log IH]; [done|].
  rewrite fmap_cons in H. apply not_elem_of_cons in H as [H1 H2]. cbn in H1. rewrite filter_cons_False by (cbn; congruence). by apply IH.
Qed.

(** ** Connections and their owners *)

Abbreviation owner := (Z * nat * con_view)%type.

Record connections_ok (pl : execution_pool) (log : list (Z * db_call)) (os : list owner) : Prop := mk_connections_ok {
  co_pool : pool_inv (mk_pool_state pl os.*1);
  co_view con i v : (con, i, v) ∈ os -> exists x, con_at con log = Some x /\ view_of x = v;
  co_free con i : pool pl !! i = Some (con, false) -> exists x, con_at con log = Some x /\ view_of x = closed_view;
  co_log : Forall (fun e => e.1 ∈ (pool pl).*1) log;
  co_cap : pool_capacity pl <= DUCKNNG_EXECUTION_POOL_HARD_MAX }.

Lemma pool_inv_perm pl l l' : Permutation l l' -> pool_inv (mk_pool_state pl l) -> pool_inv (mk_pool_state pl l').
Proof. intros Hp [H1 H2 H3 H4 H5 H6]. split; cbn in *; try done; [by rewrite <- Hp|]. intros con i. by rewrite <- Hp. Qed.

Lemma connections_perm pl log os os' : Permutation os os' -> connections_ok pl log os -> connections_ok pl log os'.
Proof.
  intros Hp [H1 H2 H3 H4 H5]. split; try done.
  - eapply pool_inv_perm; [|exact H1]. by rewrite Hp.
  - intros con i v Hin. apply (H2 con i). by rewrite Hp.
Qed.

#[export] Instance connections_ok_proper pl log : Proper (Permutation ==> iff) (connections_ok pl log).
Proof. intros os os' H. split; apply connections_perm; [done|by symmetry]. Qed.

(** The other owners have other connections. *)
Lemma owners_distinct pl log con i v os con' i' v' :
  connections_ok pl log ((con, i, v) :: os) -> (con', i', v') ∈ os -> con' <> con.
Proof.
  intros [[Hc Hl Hb _ _ _] _ _ _ _] Hin ->. cbn in *. apply NoDup_cons in Hl as [Hl _].
  assert ((con, i') ∈ os.*1) as Hi' by (apply list_elem_of_fmap; exists (con, i', v'); done).
  assert (pool pl !! i = Some (con, true)) as E1 by (apply Hb; by left).
  assert (pool pl !! i' = Some (con, true)) as E2 by (apply Hb; by right).
  assert (i = i') as ->; [|done]. eapply NoDup_lookup; [exact Hc|by rewrite list_lookup_fmap, E1|by rewrite list_lookup_fmap, E2].
Qed.

(** Calls on a connection keep to its owner. *)
Lemma connections_call pl log con i v v' os calls :
  connections_ok pl log ((con, i, v) :: os) ->
  (forall x, view_of x = v -> exists x', con_run x calls = Some x' /\ view_of x' = v') ->
  connections_ok pl (log ++ ((fun c => (con, c)) <$> calls)) ((con, i, v') :: os).
Proof.
  intros Hok Hrun. pose proof Hok as [Hp Hv Hf Hlog Hcap].
  assert (pool pl !! i = Some (con, true)) as Hi by (apply (pi_busy _ Hp); by left).
  assert (con ∈ (pool pl).*1) as Hin by (apply list_elem_of_fmap; exists (con, true); split; [done|by eapply list_elem_of_lookup_2]).
  assert (forall con', con' <> con -> con_at con' (log ++ ((fun c => (con, c)) <$> calls)) = con_at con' log) as Hoth.
  { intros con' Hne. unfold con_at. by rewrite calls_of_app, calls_of_other, app_nil_r. }
  split; try done.
  - intros con' i' v'' [E|Hin']%elem_of_cons.
    + injection E as -> -> ->. destruct (Hv con i v) as (x & Hx & Hxv); [by left|]. destruct (Hrun x Hxv) as (x' & Hr & Hxv').
      exists x'. split; [|done]. unfold con_at in *. by rewrite calls_of_app, calls_of_own, con_run_app, Hx.
    + rewrite Hoth by (by eapply owners_distinct). apply (Hv con' i'). by right.
  - intros con' i' Hi'. rewrite Hoth; [by apply (Hf con' i')|]. intros ->.
    pose proof (pi_conns _ Hp) as Hnd. cbn in Hnd.
    assert (i' = i) as ->; [|congruence].
    eapply NoDup_lookup; [exact Hnd|by rewrite list_lookup_fmap, Hi'|by rewrite list_lookup_fmap, Hi].
  - apply Forall_app_2; [done|]. apply Forall_fmap, Forall_forall. intros c _. done.
Qed.

(** A leased connection is closed, and has one owner more. *)
Lemma fresh_connection_new p : fresh_connection p ∉ (pool p).*1.
Proof.
  unfold fresh_connection. assert (forall l c, c ∈ l -> c <= foldr Z.max 0 l) as H; [|intros Hin%H; lia].
  induction l as [|x l IH]; intros c Hc; [by apply elem_of_nil in Hc|]. cbn. apply elem_of_cons in Hc as [->|Hc]; [lia|].
  specialize (IH c Hc). lia.
Qed.

Lemma connections_lease pl log os connects pl' con i :
  connections_ok pl log os ->
  acquire_round (if (connects : bool) then Some (fresh_connection pl) else None) pl = (pl', Some (con, i)) ->
  connections_ok pl' log ((con, i, closed_view) :: os).
Proof.
  intros [Hp Hv Hf Hlog Hcap] E.
  assert (forall c, (if connects then Some (fresh_connection pl) else None) = Some c -> c ∉ (pool pl).*1) as Hfresh.
  { intros c Hc. destruct connects; [|done]. injection Hc as <-. apply fresh_connection_new. }
  pose proof (pool_acquire_inv _ _ _ _ _ _ Hp Hfresh E) as Hp'. unfold acquire_round in E.
  destruct (find_index _ (pool pl)) as [k|] eqn:Ef.
  - destruct (find_index_Some _ _ _ Ef) as ([c b] & Hk & Hidle). rewrite Hk in E. injection E as <- <- <-.
    cbn in Hidle. apply negb_true_iff in Hidle. subst b.
    split; try done.
    + intros con' i' v' [E|Hin]%elem_of_cons; [injection E as -> -> ->; by apply (Hf c k)|by apply (Hv con' i')].
    + intros con' i' Hi'. cbn in Hi'. apply (Hf con' i'). destruct (decide (i' = k)) as [->|Hne].
      * rewrite list_lookup_insert_eq in Hi' by (by eapply lookup_lt_Some). congruence.
      * by rewrite list_lookup_insert_ne in Hi'.
    + cbn. by erewrite fmap_insert_same.
  - destruct (zlen (pool pl) <? pool_max pl); [|done]. destruct connects; [|done]. injection E as <- <- <-.
    specialize (Hfresh _ eq_refl). set (c := fresh_connection pl) in *.
    split; try done.
    + intros con' i' v' [E|Hin]%elem_of_cons; [|by apply (Hv con' i')]. injection E as -> -> ->. exists con_init.
      split; [|done]. unfold con_at. rewrite calls_of_none; [done|]. intros Hc%list_elem_of_fmap.
      destruct Hc as (e & -> & He). rewrite Forall_forall in Hlog. by apply Hfresh, Hlog.
    + intros con' i' Hi'. cbn in Hi'. apply lookup_app_Some in Hi' as [Hi'|[_ Hi']]; [by apply (Hf con' i')|].
      apply list_lookup_singleton_Some in Hi' as [_ Hi']. congruence.
    + cbn. eapply Forall_impl; [exact Hlog|]. intros e He. rewrite fmap_app. apply elem_of_app. by left.
Qed.

(** A closed connection goes back. *)
Lemma connections_release pl log con i os :
  connections_ok pl log ((con, i, closed_view) :: os) ->
  connections_ok (ducknng_service_release_execution_connection (Some i) pl) log os.
Proof.
  intros [Hp Hv Hf Hlog Hcap].
  pose proof (pool_release_inv pl [] con i os.*1 Hp) as Hp'.
  assert (pool pl !! i = Some (con, true)) as Hi by (apply (pi_busy _ Hp); by left).
  unfold ducknng_service_release_execution_connection in *. rewrite Hi in *. split; try done.
  - intros con' i' v' Hin. apply (Hv con' i'). by right.
  - intros con' i' Hi'. cbn in Hi'. destruct (decide (i' = i)) as [->|Hne].
    + rewrite list_lookup_insert_eq in Hi' by (by eapply lookup_lt_Some). injection Hi' as <-. apply (Hv con i). by left.
    + rewrite list_lookup_insert_ne in Hi' by done. by apply (Hf con' i').
  - cbn. by erewrite fmap_insert_same.
Qed.

Lemma connections_index pl log con i v os : connections_ok pl log ((con, i, v) :: os) -> 0 <= Z.of_nat i < SIZE_MAX.
Proof.
  intros [Hp _ _ _ Hcap]. assert (pool pl !! i = Some (con, true)) as Hi%lookup_lt_Some by (apply (pi_busy _ Hp); by left).
  pose proof (pi_room _ Hp) as Hr. cbn in Hr. unfold zlen, DUCKNNG_EXECUTION_POOL_HARD_MAX, SIZE_MAX, UINT64_MAX in *. lia.
Qed.

(** ** The invariant of the world *)

Section threads.
Context {chunk : Type}.
Abbreviation world := (@mworld chunk).
Abbreviation mprog := (prog world).

Definition session_owner (s : ducknng_session) : owner :=
  (default 0 (session_con s), Z.to_nat (session_pool_index s), session_view s).

Definition heap_owners (h : gmap Z ducknng_session) : list owner := (map_to_list (session_owner <$> h)).*2.

(** A session of the handlers: it has a connection of the pool. *)
Definition session_wired (s : ducknng_session) : Prop :=
  session_svc s = true /\ is_Some (session_con s) /\ 0 <= session_pool_index s < SIZE_MAX /\
  (upload_appender_open s = true -> upload_txn_open s = true).

Record world_ok (w : world) (held detached : list Z) (leased : list owner) : Prop := mk_world_ok {
  wo_sessions : sessions_inv (sv_limits (mw_server w)) (mw_sessions w) held detached;
  wo_wired : map_Forall (fun _ => session_wired) (mw_heap w);
  wo_connections : connections_ok (mw_pool w) (mw_log w) (heap_owners (mw_heap w) ++ leased) }.

Lemma world_perm w h h' d d' l l' : Permutation h h' -> Permutation d d' -> Permutation l l' ->
  world_ok w h d l -> world_ok w h' d' l'.
Proof.
  intros Hh Hd Hl [H1 H2 H3]. split; [by eapply inv_perm|done|]. eapply connections_perm; [|exact H3]. by rewrite Hl.
Qed.

#[export] Instance world_ok_proper w : Proper (Permutation ==> Permutation ==> Permutation ==> iff) (world_ok w).
Proof. intros h h' Hh d d' Hd l l' Hl. split; apply world_perm; done || by symmetry. Qed.

(** Changing a session changes its owner entry only. *)
Lemma heap_owners_take h p s : h !! p = Some s ->
  Permutation (heap_owners h) (session_owner s :: heap_owners (delete p h)).
Proof.
  intros Hp. unfold heap_owners. rewrite fmap_delete.
  rewrite <- (map_to_list_delete (session_owner <$> h) p (session_owner s)) by (by rewrite lookup_fmap, Hp). done.
Qed.

Lemma heap_owners_insert h p s : Permutation (heap_owners (<[p := s]> h)) (session_owner s :: heap_owners (delete p h)).
Proof.
  rewrite (heap_owners_take (<[p := s]> h) p s) by (by rewrite lookup_insert_eq). by rewrite delete_insert_eq.
Qed.

(** A step on the session at [p]: what the invariant needs to know of it. *)
Definition works (s s' : ducknng_session) (calls : list db_call) : Prop :=
  session_wired s -> session_wired s' /\ same_handle s s' /\ session_con s' = session_con s /\
  session_pool_index s' = session_pool_index s /\
  forall x, view_of x = session_view s -> exists x', con_run x calls = Some x' /\ view_of x' = session_view s'.

Lemma world_works w held detached leased p s s' calls :
  world_ok w held detached leased -> mw_heap w !! p = Some s -> works s s' calls ->
  world_ok (put_log ((fun c => (default 0 (session_con s), c)) <$> calls) (put_heap (<[p := s']> (mw_heap w)) w))
    held detached leased.
Proof.
  intros [H1 H2 H3] Hp Hworks. destruct (Hworks (H2 p s Hp)) as (Hw & Hh & E2 & E3 & Hrun). split.
  - by apply (inv_update _ _ _ _ _ s).
  - by apply map_Forall_insert_2.
  - cbn. change (mw_heap (put_log _ _)) with (<[p := s']> (mw_heap w)). rewrite heap_owners_insert. cbn [app].
    unfold session_owner at 1. rewrite E2, E3. eapply connections_call; [|exact Hrun].
    eapply connections_perm; [|exact H3]. by rewrite (heap_owners_take _ p s).
Qed.

(** Changes that keep the connection of a session. *)
Lemma owners_alter f h p : (forall s, session_owner (f s) = session_owner s) -> heap_owners (alter f p h) = heap_owners h.
Proof.
  intros Hf. unfold heap_owners. f_equal. f_equal. apply map_eq. intros q. rewrite !lookup_fmap.
  destruct (decide (p = q)) as [<-|]; [|by rewrite lookup_alter_ne]. rewrite lookup_alter_eq.
  destruct (h !! p); cbn; [by rewrite Hf|done].
Qed.

Lemma wired_alter f (h : gmap Z ducknng_session) p : (forall s, session_wired s -> session_wired (f s)) ->
  map_Forall (fun _ => session_wired) h -> map_Forall (fun _ => session_wired) (alter f p h).
Proof.
  intros Hf Hh q s Hq. rewrite lookup_alter_Some in Hq. destruct Hq as [(-> & x & Hx & ->)|[_ Hq]]; [|by eapply Hh].
  apply Hf. by eapply Hh.
Qed.

Lemma alter_insert (h : gmap Z ducknng_session) f p s : h !! p = Some s -> alter f p h = <[p := f s]> h.
Proof.
  intros Hp. apply map_eq. intros q. destruct (decide (p = q)) as [<-|].
  - by rewrite lookup_alter_eq, lookup_insert_eq, Hp.
  - by rewrite lookup_alter_ne, lookup_insert_ne.
Qed.

(** The table changed, the connections did not. *)
Lemma world_table w t held detached held' detached' leased :
  world_ok w held detached leased -> sessions_inv (sv_limits (mw_server w)) t held' detached' ->
  heap_owners (st_heap t) = heap_owners (mw_heap w) ->
  (map_Forall (fun _ => session_wired) (mw_heap w) -> map_Forall (fun _ => session_wired) (st_heap t)) ->
  world_ok (put_sessions t w) held' detached' leased.
Proof. intros [H1 H2 H3] Ht Ho Hw. split; [done|by apply Hw|]. cbn. change (mw_heap (put_sessions t w)) with (st_heap t). by rewrite Ho. Qed.

Lemma world_acquire w held detached leased id token caller t p auth :
  world_ok w held detached leased -> ducknng_service_acquire_session (mw_sessions w) id token caller = (t, p, auth) ->
  world_ok (put_sessions t w) (option_list p ++ held) detached leased.
Proof.
  intros Hw E. pose proof (wo_sessions _ _ _ _ Hw) as Hs. eapply world_table; [done|by eapply inv_acquire| |].
  all: pose proof (acquire_cases _ _ _ _ id token caller Hs) as Hc; fold (mw_heap w) in Hc;
    (destruct (mw_heap w !! id) as [s|] eqn:Es; [|rewrite E in Hc; by injection Hc as -> -> ->]);
    (destruct (_ && _)%bool; rewrite E in Hc; injection Hc as -> -> ->; [|done]); cbn.
  - rewrite <- (alter_insert _ (fun s => set_refcount (refcount s + 1) s)) by done. by apply owners_alter.
  - rewrite <- (alter_insert _ (fun s => set_refcount (refcount s + 1) s)) by done. by apply wired_alter.
Qed.

Lemma world_release w p held detached leased : world_ok w (p :: held) detached leased ->
  exists s, mw_heap w !! p = Some s /\
    world_ok (put_heap (<[p := ducknng_session_release s]> (mw_heap w)) w) held detached leased.
Proof.
  intros Hw. pose proof (wo_sessions _ _ _ _ Hw) as Hs. destruct (si_held _ _ _ _ Hs p) as [s Hp]; [by left|].
  exists s. split; [done|]. fold (mw_heap w) in Hp. rewrite <- (alter_insert _ ducknng_session_release) by done.
  eapply world_table; [done|by eapply (inv_release _ _ (p :: held))| |]; cbn.
  - apply owners_alter. intros x. unfold ducknng_session_release. by destruct (0 <? refcount x).
  - apply wired_alter. intros x. unfold ducknng_session_release. by destruct (0 <? refcount x).
Qed.

Lemma world_detach w held detached leased i p :
  world_ok w held detached leased -> sessions (mw_sessions w) !! i = Some p ->
  exists t, ducknng_service_detach_session_locked (mw_sessions w) i = (t, Some p) /\
    world_ok (put_sessions t w) held (p :: detached) leased.
Proof.
  intros Hw Hi. pose proof (wo_sessions _ _ _ _ Hw) as Hs.
  destruct (inv_detach _ _ _ _ i p Hs Hi) as (t & E & _ & Eh & Ht). exists t. split; [done|].
  eapply world_table; [done| | |].
  - eapply inv_perm; [done| |exact Ht]. by rewrite Permutation_app_comm.
  - rewrite Eh. by apply owners_alter.
  - rewrite Eh. by apply wired_alter.
Qed.

Lemma world_remove w held detached leased id token caller t p auth :
  world_ok w held detached leased -> ducknng_service_remove_session (mw_sessions w) id token caller = (t, p, auth) ->
  world_ok (put_sessions t w) held (option_list p ++ detached) leased.
Proof.
  intros Hw E. pose proof (wo_sessions _ _ _ _ Hw) as Hs.
  destruct (remove_cases _ _ _ _ _ _ _ _ _ _ Hs E) as [[-> ->]|(-> & i & s & Hi & _ & _ & Ed)].
  - by eapply world_table.
  - destruct (world_detach _ _ _ _ i id Hw Hi) as (t' & E' & Hw'). rewrite Ed in E'. by injection E' as ->.
Qed.

Lemma world_detach_all w held detached leased t all :
  world_ok w held detached leased -> ducknng_service_detach_all_sessions (mw_sessions w) = (t, all) ->
  world_ok (put_sessions t w) held (all ++ detached) leased.
Proof.
  intros Hw E. pose proof (wo_sessions _ _ _ _ Hw) as Hs. pose proof (inv_detach_all _ _ _ _ _ _ Hs E) as Ht.
  injection E as <- <-. eapply world_table; [done| | |].
  - eapply inv_perm; [done| |exact Ht]. by rewrite Permutation_app_comm.
  - cbn. fold (mw_heap w). generalize (sessions (mw_sessions w)). intros l. induction l as [|q l IH]; [done|]. cbn.
    rewrite owners_alter by done. apply IH.
  - cbn. intros Hh. generalize (sessions (mw_sessions w)). intros l. induction l as [|q l IH]; [done|]. cbn. by apply wired_alter.
Qed.

(** Destroying a session closes its connection and gives it back. *)
Lemma destroy_calls s x : is_Some (session_con s) -> view_of x = session_view s ->
  exists x', con_run x (ducknng_session_destroy s ≫= teardown_call) = Some x' /\ view_of x' = closed_view /\ x_stored x' = x_stored x.
Proof.
  intros [con Hcon] Hv. unfold ducknng_session_destroy. rewrite Hcon, !bind_app.
  assert (forall b (t : teardown), teardown_call t = [] -> ((if (b : bool) then [t] else []) ≫= teardown_call) = []) as Hnil.
  { intros [] t Ht; [|done]. cbn. by rewrite Ht. }
  rewrite (Hnil (result_open s)), (Hnil (pending_open s)), (Hnil (stmt_open s)),
    (Hnil (session_svc s && negb (session_pool_index s =? SIZE_MAX))%bool) by done. cbn [app]. rewrite app_nil_r. destruct x as [txn app rep rows stored].
  unfold view_of, session_view in Hv. cbn in Hv. injection Hv as -> -> Hr.
  unfold con_run. destruct (upload_appender_open s), (upload_txn_open s); cbn; eexists; (split; [reflexivity|done]).
Qed.

Lemma world_destroy w held p detached leased s : world_ok w held (p :: detached) leased ->
  mw_heap w !! p = Some s -> refcount s = 0 ->
  world_ok (let w := put_log ((fun c => (default 0 (session_con s), c)) <$> (ducknng_session_destroy s ≫= teardown_call))
              (put_heap (delete p (mw_heap w)) w) in
     if (session_svc s && negb (session_pool_index s =? SIZE_MAX))%bool
     then put_pool (ducknng_service_release_execution_connection (Some (Z.to_nat (session_pool_index s))) (mw_pool w)) w
     else w) held detached leased.
Proof.
  intros [H1 H2 H3] Hp Hr. destruct (H2 p s Hp) as (Hsvc & Hcon & Hi & _). rewrite Hsvc.
  assert ((session_pool_index s =? SIZE_MAX) = false) as -> by lia. cbn [andb negb]. cbv zeta. split.
  - cbn. by eapply inv_free.
  - cbn. intros q x Hq. change (delete p (mw_heap w) !! q = Some x) in Hq. apply lookup_delete_Some in Hq as [_ Hq]. by eapply H2.
  - cbn. change (mw_heap (put_pool _ _)) with (delete p (mw_heap w)).
    apply (connections_release _ _ (default 0 (session_con s))). eapply connections_call;
      [|intros x Hx; destruct (destroy_calls s x Hcon Hx) as (x' & Hx' & Hv & _); by exists x'].
    rewrite (heap_owners_take _ p s Hp) in H3. exact H3.
Qed.

(** ** Connections in the world *)

(** The parts of the world the invariant does not read. *)
Lemma world_same w w' held detached leased : world_ok w held detached leased ->
  sv_limits (mw_server w') = sv_limits (mw_server w) -> mw_sessions w' = mw_sessions w -> mw_pool w' = mw_pool w ->
  mw_log w' = mw_log w -> world_ok w' held detached leased.
Proof. intros [H1 H2 H3] E1 E2 E3 E4. unfold mw_heap in *. split; unfold mw_heap; by rewrite ?E1, ?E2, ?E3, ?E4. Qed.

Lemma world_lease w held detached leased connects pl got : world_ok w held detached leased ->
  acquire_round (if (connects : bool) then Some (fresh_connection (mw_pool w)) else None) (mw_pool w) = (pl, got) ->
  world_ok (put_pool pl w) held detached
    (match got with Some (con, i) => (con, i, closed_view) :: leased | None => leased end).
Proof.
  intros [H1 H2 H3] E. destruct got as [[con i]|].
  - split; [done|done|]. cbn. rewrite <- Permutation_middle. by eapply connections_lease.
  - assert (pl = mw_pool w) as ->; [|by split].
    unfold acquire_round in E. destruct (find_index _ _) as [k|]; [destruct (pool (mw_pool w) !! k) as [[??]|]; congruence|].
    destruct (_ <? _); [destruct connects|]; congruence.
Qed.

Lemma world_unlease w held detached leased con i : world_ok w held detached ((con, i, closed_view) :: leased) ->
  world_ok (put_pool (ducknng_service_release_execution_connection (Some i) (mw_pool w)) w) held detached leased.
Proof.
  intros [H1 H2 H3]. split; [done|done|]. cbn. rewrite <- Permutation_middle in H3. by eapply connections_release.
Qed.

Lemma world_call w held detached leased con i v v' calls : world_ok w held detached ((con, i, v) :: leased) ->
  (forall x, view_of x = v -> exists x', con_run x calls = Some x' /\ view_of x' = v') ->
  world_ok (put_log ((fun c => (con, c)) <$> calls) w) held detached ((con, i, v') :: leased).
Proof.
  intros [H1 H2 H3] Hrun. split; [done|done|]. cbn. rewrite <- Permutation_middle in *. by eapply connections_call.
Qed.

(** Registering a session hands the connection over to it. *)
Definition upload_started : con_view := mk_con_view true true 0.

Lemma world_add w held detached leased con i sd stmt pend up caller format n w1 w2 now t load r :
  world_ok w held detached ((con, i, if (up : option (option bytes * option (list bytes))) then upload_started else closed_view) :: leased) ->
  next_session_id (mw_sessions w) < UINT64_MAX ->
  ducknng_service_add_session_full (sv_limits (mw_server w)) sd (mw_sessions w) (sv_load (mw_server w))
    (Some con) (Z.of_nat i) stmt pend up caller format n w1 w2 now = (t, load, r) ->
  world_ok (put_sessions t w) held detached
    (match r with Ok _ => leased | Err _ =>
       (con, i, if (up : option (option bytes * option (list bytes))) then upload_started else closed_view) :: leased end).
Proof.
  intros Hw Hmax E. pose proof (inv_add_full _ _ _ _ _ _ _ _ _ _ _ _ _ _ _ _ _ _ _ _ (wo_sessions _ _ _ _ Hw) Hmax E) as Ht.
  pose proof Hw as [H1 H2 H3]. rewrite <- Permutation_middle in H3. pose proof (connections_index _ _ _ _ _ _ H3) as Hi.
  unfold ducknng_service_add_session_full in E.
  destruct (session_admission _ _ _ _ _ _) as [l1 [e|]]; [injection E as <- <- <-; by eapply world_table|].
  unfold ducknng_session_create_streaming in E. rewrite token_nonempty in E. cbn [negb] in E.
  assert (mw_heap w !! next_session_id (mw_sessions w) = None) as Hfresh.
  { destruct (mw_heap w !! next_session_id (mw_sessions w)) as [x|] eqn:Ex; [|done].
    destruct (si_object _ _ _ _ H1 _ _ Ex) as (_ & ? & _). lia. }
  injection E as <- <- <-. split; [done| |].
  - unfold mw_heap. cbn. apply map_Forall_insert_2; [|done]. destruct up as [[tg cols]|]; (split; [done|]; split; [by eexists|]; split; [exact Hi|done]).
  - unfold mw_heap. cbn. rewrite heap_owners_insert. cbn [app].
    assert (forall s, session_id s = next_session_id (mw_sessions w) ->
      delete (session_id s) (st_heap (mw_sessions w)) = mw_heap w) as Hdel by (intros s ->; by apply delete_id).
    rewrite Hdel by (by destruct up as [[??]|]).
    destruct up as [[tg cols]|]; unfold session_owner; cbn; rewrite Nat2Z.id; exact H3.
Qed.

(** ** Contracts of the steps *)

(** What a thread owns: references, detached sessions, connections. *)
Record res := mk_res { r_held : list Z; r_detached : list Z; r_leased : list owner }.

Definition own (rs : list res) (w : world) : Prop :=
  world_ok w (rs ≫= r_held) (rs ≫= r_detached) (rs ≫= r_leased).

(** Session ids have not run out. *)
Definition good (w : world) : Prop := next_session_id (mw_sessions w) < UINT64_MAX.

Definition holding (r : res) : Prop := r_held r <> [].

Lemma own_perm rs rs' w : Permutation rs rs' -> own rs w -> own rs' w.
Proof. intros Hp. unfold own. by rewrite !Hp. Qed.

Abbreviation keeps := (safe own good holding).

(** A step that changes the resources of its thread only. *)
Lemma keeps_step {A X} (act : world -> option (world * X)) (f : X -> mprog A) r Q :
  (forall w h d l, good w -> world_ok w (r_held r ++ h) (r_detached r ++ d) (r_leased r ++ l) ->
   exists w' x r', act w = Some (w', x) /\ world_ok w' (r_held r' ++ h) (r_detached r' ++ d) (r_leased r' ++ l) /\
     keeps (f x) r' Q) ->
  keeps (pbind (atomic act) f) r Q.
Proof.
  intros H. cbn. intros w rs Hw Hg. destruct (H w _ _ _ Hg Hw) as (w' & x & r' & -> & Hw' & Hk). exists r'. by split.
Qed.

Lemma keeps_acquire {A} id token caller (f : option Z * Z -> mprog A) h d l Q :
  (forall p auth, keeps (f (p, auth)) (mk_res (option_list p ++ h) d l) Q) ->
  keeps (pbind (acquire id token caller) f) (mk_res h d l) Q.
Proof.
  intros H. apply keeps_step. intros w h' d' l' _ Hw.
  destruct (ducknng_service_acquire_session (mw_sessions w) id (Some token) caller) as [[t p] auth] eqn:E.
  eexists _, _, _. split; [reflexivity|]. split; [|apply H]. cbn. rewrite <- app_assoc. by eapply world_acquire.
Qed.

Lemma keeps_remove {A} id token caller (f : option Z * Z -> mprog A) h d l Q :
  (forall p auth, keeps (f (p, auth)) (mk_res h (option_list p ++ d) l) Q) ->
  keeps (pbind (remove id token caller) f) (mk_res h d l) Q.
Proof.
  intros H. apply keeps_step. intros w h' d' l' _ Hw.
  destruct (ducknng_service_remove_session (mw_sessions w) id (Some token) caller) as [[t p] auth] eqn:E.
  eexists _, _, _. split; [reflexivity|]. split; [|apply H]. cbn. rewrite <- app_assoc. by eapply world_remove.
Qed.

Lemma keeps_release {A} p (f : unit -> mprog A) h d l Q :
  keeps (f tt) (mk_res h d l) Q -> keeps (pbind (release p) f) (mk_res (p :: h) d l) Q.
Proof.
  intros H. apply keeps_step. intros w h' d' l' _ Hw. destruct (world_release _ _ _ _ _ Hw) as (s & Hs & Hw').
  rewrite Hs. eexists _, _, (mk_res h d l). split; [reflexivity|]. split; [exact Hw'|exact H].
Qed.

(** A thread works on a session it holds or took out of the table. *)
Lemma keeps_locked {A X} p (g : ducknng_session -> option stream -> ducknng_session * list db_call * option stream * X)
    (f : X -> mprog A) h d l Q :
  p ∈ h ++ d ->
  (forall s str, let '(s', calls, _, x) := g s str in works s s' calls /\ keeps (f x) (mk_res h d l) Q) ->
  keeps (pbind (locked p g) f) (mk_res h d l) Q.
Proof.
  intros Hp H. apply keeps_step. intros w h' d' l' _ Hw. pose proof (wo_sessions _ _ _ _ Hw) as Hs.
  assert (is_Some (mw_heap w !! p)) as [s Es].
  { apply elem_of_app in Hp as [Hp|Hp]; [apply (si_held _ _ _ _ Hs); apply elem_of_app; by left|].
    apply (Session.si_live _ _ _ _ Hs). rewrite !elem_of_app. right. by left. }
  rewrite Es. specialize (H s (mw_streams w !! p)). destruct (g s (mw_streams w !! p)) as [[[s' calls] str] x].
  destruct H as [Hworks Hk]. eexists _, _, (mk_res h d l). split; [reflexivity|]. split; [|exact Hk].
  pose proof (world_works _ _ _ _ _ _ _ _ Hw Es Hworks) as Hw'. destruct str; [|exact Hw']. by eapply world_same.
Qed.

Lemma works_same s : works s s [].
Proof. intros Hs. split; [done|]. split; [done|]. split; [done|]. split; [done|]. intros x Hx. by exists x. Qed.

Lemma keeps_peek {A X} p (g : ducknng_session -> X) (f : X -> mprog A) h d l Q :
  p ∈ h ++ d -> (forall x, keeps (f x) (mk_res h d l) Q) -> keeps (pbind (peek p g) f) (mk_res h d l) Q.
Proof. intros Hp H. apply keeps_locked; [done|]. intros s str. split; [apply works_same|apply H]. Qed.

(** Destroying waits for the references of others. *)
Lemma keeps_destroy {A} p (f : unit -> mprog A) d l Q :
  keeps (f tt) (mk_res [] d l) Q -> keeps (pbind (destroy p) f) (mk_res [] (p :: d) l) Q.
Proof.
  intros H. cbn [pbind destroy atomic safe]. intros w rs Hw Hg. unfold own in Hw. cbn in Hw.
  pose proof (wo_sessions _ _ _ _ Hw) as Hs.
  assert (is_Some (mw_heap w !! p)) as [s Es].
  { apply (Session.si_live _ _ _ _ Hs). rewrite elem_of_app. right. by left. }
  rewrite Es. destruct (Z.eqb_spec (refcount s) 0) as [Hr|Hr]; cbn [negb].
  - exists (mk_res [] d l). split; [|exact H]. by apply (world_destroy _ _ _ _ _ s Hw).
  - split; [by intros []|]. destruct (si_object _ _ _ _ Hs p s Es) as (_ & _ & Hc & _).
    apply Exists_exists. destruct (decide (p ∈ rs ≫= r_held)) as [Hin|Hno]; [|by rewrite (refs_absent _ _ Hno) in Hc].
    apply list_elem_of_bind in Hin as (r & Hin & Hr'). exists r. split; [done|]. intros E. rewrite E in Hin. by apply elem_of_nil in Hin.
Qed.

Lemma keeps_lease {A} connects (f : option (Z * nat) -> mprog A) h d l Q :
  (forall con i, keeps (f (Some (con, i))) (mk_res h d ((con, i, closed_view) :: l)) Q) ->
  keeps (f None) (mk_res h d l) Q -> keeps (pbind (lease connects) f) (mk_res h d l) Q.
Proof.
  intros H1 H2. apply keeps_step. intros w h' d' l' _ Hw.
  destruct (acquire_round (if connects then Some (fresh_connection (mw_pool w)) else None) (mw_pool w)) as [pl got] eqn:E.
  pose proof (world_lease _ _ _ _ _ _ _ Hw E) as Hw'. destruct got as [[con i]|].
  - eexists _, _, (mk_res h d ((con, i, closed_view) :: l)). split; [reflexivity|]. split; [exact Hw'|apply H1].
  - eexists _, _, (mk_res h d l). split; [reflexivity|]. split; [exact Hw'|exact H2].
Qed.

Lemma keeps_unlease {A} con i (f : unit -> mprog A) h d l Q :
  keeps (f tt) (mk_res h d l) Q -> keeps (pbind (unlease i) f) (mk_res h d ((con, i, closed_view) :: l)) Q.
Proof.
  intros H. apply keeps_step. intros w h' d' l' _ Hw. eexists _, _, (mk_res h d l). split; [reflexivity|]. split; [|exact H].
  by apply (world_unlease _ _ _ _ con).
Qed.

Lemma keeps_call {A} con i v v' calls (f : unit -> mprog A) h d l Q :
  (forall x, view_of x = v -> exists x', con_run x calls = Some x' /\ view_of x' = v') ->
  keeps (f tt) (mk_res h d ((con, i, v') :: l)) Q -> keeps (pbind (call con calls) f) (mk_res h d ((con, i, v) :: l)) Q.
Proof.
  intros Hv H. apply keeps_step. intros w h' d' l' _ Hw. eexists _, _, (mk_res h d ((con, i, v') :: l)).
  split; [reflexivity|]. split; [|exact H]. by apply (world_call _ _ _ (l ++ l') con i v).
Qed.

Lemma keeps_add_query {A} con i caller format n str e (f : result (Z * bytes) opened -> mprog A) h d l Q :
  (forall o, keeps (f (Ok o)) (mk_res h d l) Q) ->
  (forall er, keeps (f (Err er)) (mk_res h d ((con, i, closed_view) :: l)) Q) ->
  keeps (pbind (add_query con i caller format n str e) f) (mk_res h d ((con, i, closed_view) :: l)) Q.
Proof.
  intros H1 H2. apply keeps_step. intros w h' d' l' Hg Hw. unfold ducknng_service_add_session_streaming.
  destruct (ducknng_service_add_session_full _ _ _ _ _ _ _ _ _ _ _ _ _ _ _) as [[t load] r] eqn:E.
  pose proof (world_add _ _ _ (l ++ l') con i _ _ _ None _ _ _ _ _ _ _ _ _ Hw Hg E) as Hw'.
  destruct r as [[[id tok] hd]|er].
  - eexists _, _, (mk_res h d l). split; [reflexivity|]. split; [by eapply world_same|apply H1].
  - eexists _, _, (mk_res h d ((con, i, closed_view) :: l)). split; [reflexivity|]. split; [by eapply world_same|apply H2].
Qed.

Lemma keeps_add_upload {A} con i target cols caller e (f : result (Z * bytes) opened -> mprog A) h d l Q :
  (forall o, keeps (f (Ok o)) (mk_res h d l) Q) ->
  (forall er, keeps (f (Err er)) (mk_res h d ((con, i, upload_started) :: l)) Q) ->
  keeps (pbind (add_upload con i target cols caller e) f) (mk_res h d ((con, i, upload_started) :: l)) Q.
Proof.
  intros H1 H2. apply keeps_step. intros w h' d' l' Hg Hw. unfold ducknng_service_add_upload_session. cbn [negb].
  destruct (ducknng_service_add_session_full _ _ _ _ _ _ _ _ _ _ _ _ _ _ _) as [[t load] r] eqn:E.
  pose proof (world_add _ _ _ (l ++ l') con i _ _ _ (Some (Some target, cols)) _ _ _ _ _ _ _ _ _ Hw Hg E) as Hw'.
  destruct r as [o|er].
  - eexists _, _, (mk_res h d l). split; [reflexivity|]. split; [by eapply world_same|apply H1].
  - eexists _, _, (mk_res h d ((con, i, upload_started) :: l)). split; [reflexivity|]. split; [by eapply world_same|apply H2].
Qed.

Lemma keeps_prune_detach {A} idle now i (f : option (Z * nat) -> mprog A) h d l Q :
  (forall p i, keeps (f (Some (p, i))) (mk_res h (p :: d) l) Q) -> keeps (f None) (mk_res h d l) Q ->
  keeps (pbind (prune_detach idle now i) f) (mk_res h d l) Q.
Proof.
  intros H1 H2. apply keeps_step. intros w h' d' l' _ Hw. cbv zeta.
  destruct (find_index _ (drop i (sessions (mw_sessions w)))) as [j|] eqn:E.
  - destruct (find_index_Some _ _ _ E) as (p & Hp & _). rewrite lookup_drop in Hp.
    destruct (world_detach _ _ _ _ _ _ Hw Hp) as (t & -> & Hw'). eexists _, _, (mk_res h (p :: d) l).
    split; [reflexivity|]. split; [exact Hw'|apply H1].
  - eexists _, _, (mk_res h d l). split; [reflexivity|]. split; [exact Hw|exact H2].
Qed.

Lemma keeps_detach_all {A} (f : list Z -> mprog A) h d l Q :
  (forall all, keeps (f all) (mk_res h (all ++ d) l) Q) -> keeps (pbind detach_all f) (mk_res h d l) Q.
Proof.
  intros H. apply keeps_step. intros w h' d' l' _ Hw.
  destruct (ducknng_service_detach_all_sessions (mw_sessions w)) as [t all] eqn:E.
  eexists _, _, (mk_res h (all ++ d) l). split; [reflexivity|]. split; [|apply H]. cbn. rewrite <- app_assoc.
  by eapply world_detach_all.
Qed.

(** ** What the regions do to a session *)

Lemma works_quiet s s' : same_handle s s' -> session_svc s' = session_svc s -> session_con s' = session_con s ->
  session_pool_index s' = session_pool_index s -> session_view s' = session_view s -> works s s' [].
Proof.
  intros Hh E1 E2 E3 Ev (W1 & W2 & W3 & W4). pose proof Ev as Ev'. unfold session_view in Ev'. injection Ev' as Et Ea _.
  split; [by repeat split; rewrite ?E1, ?E2, ?E3, ?Ea, ?Et; try done; apply W3|]. split; [done|]. split; [done|]. split; [done|].
  intros x Hx. exists x. split; [done|]. by rewrite Hx.
Qed.

Lemma fetch_works encode pending now prefix id corr s (str : option (@stream chunk)) :
  let '(s', calls, _, _) := fetch_locked encode pending now prefix id corr s str in works s s' calls.
Proof.
  unfold fetch_locked. cbv zeta. destruct (cancelled (set_touch now s)); [by apply works_quiet|].
  destruct (negb _ && pending_open _)%bool; [destruct pending; [by apply works_quiet..|]|].
  all: destruct (result_open _); cbn [negb]; [|by apply works_quiet].
  all: destruct (ztake _ _); [destruct (batch_no _ =? 0); [|by apply works_quiet]|].
  all: destruct (encode _ _ _); by apply works_quiet.
Qed.

Lemma append_works answer now s (str : option (@stream chunk)) :
  let '(s', calls, _, _) := append_locked answer now s str in works s s' calls.
Proof.
  unfold append_locked. destruct (negb _ || negb _)%bool eqn:E; [by apply works_quiet|].
  apply orb_false_iff in E as [_ Ea%negb_false_iff]. cbn in Ea.
  destruct answer as [n|n text]; intros (W1 & W2 & W3 & W4); specialize (W4 Ea);
    (split; [done|]; split; [done|]; split; [done|]; split; [done|]); intros [txn app rep rows st] Hx;
    unfold view_of, session_view in *; cbn in *; rewrite Ea, W4 in *; injection Hx as -> -> ->; by eexists.
Qed.

Lemma commit_works a s (str : option (@stream chunk)) :
  let '(s', calls, _, _) := commit_locked a s str in works s s' calls.
Proof.
  unfold commit_locked, flush_calls, commit_calls.
  destruct (upload_appender_open s) eqn:Ea, (ca_flush a), (ca_close a), (ca_commit a), (upload_txn_open s) eqn:Et,
    (session_con s) as [con|] eqn:Ec; cbn; rewrite ?Et, ?Ec; cbn;
    intros (W1 & W2 & W3 & W4); try (rewrite Ec in W2; by destruct W2); try (specialize (W4 Ea); congruence);
    (split; [by repeat split; try done; rewrite ?Ec; try apply W3|]; split; [done|]; split; [done|]; split; [done|]);
    intros [txn app rep rows st] Hx; unfold view_of, session_view in *; cbn in Hx |- *; rewrite ?Ea, ?Et in Hx;
    injection Hx as Hx1 Hx2 Hx3; subst; rewrite ?Ea, ?Et; eexists; (split; [reflexivity|done]).
Qed.

(** ** Contracts of the handlers *)

Definition idle_res : res := mk_res [] [] [].

(** A handler starts and ends owning nothing. *)
Definition balanced {A} (p : mprog A) : Prop := keeps p idle_res (fun _ r => r = idle_res).

Ltac member := first [by left | apply elem_of_app; first [left; by left | right; by left]].

(** One step of a handler by its contract. *)
Ltac keep :=
  lazymatch goal with
  | |- safe _ _ _ (Ret _) _ _ => reflexivity
  | |- safe _ _ _ (pbind (acquire _ _ _) _) _ _ => apply keeps_acquire; intros [?|] ?; cbn [option_list app]
  | |- safe _ _ _ (pbind (remove _ _ _) _) _ _ => apply keeps_remove; intros [?|] ?; cbn [option_list app]
  | |- safe _ _ _ (pbind (release _) _) _ _ => apply keeps_release
  | |- safe _ _ _ (pbind (peek _ _) _) _ _ => apply keeps_peek; [member|intros ?]
  | |- safe _ _ _ (pbind (destroy _) _) _ _ => apply keeps_destroy
  | |- safe _ _ _ (pbind (lease _) _) _ _ => apply keeps_lease; [intros ? ?|]
  | |- safe _ _ _ (pbind (unlease _) _) _ _ => apply keeps_unlease
  | |- safe _ _ _ (pbind (add_query _ _ _ _ _ _ _) _) _ _ => apply keeps_add_query; [intros [[? ?] ?]|intros [? ?]]
  | |- safe _ _ _ (pbind (add_upload _ _ _ _ _ _) _) _ _ => apply keeps_add_upload; [intros [[? ?] ?]|intros [? ?]]
  | |- safe _ _ _ (pbind (prune_detach _ _ _) _) _ _ => apply keeps_prune_detach; [intros ? ?|]
  | |- safe _ _ _ (match ?x with _ => _ end) _ _ => destruct x
  end.

Lemma check_kind_keeps id token caller up h d l :
  keeps (ducknng_session_check_kind id token caller up) (mk_res h d l) (fun _ r => r = mk_res h d l).
Proof. unfold ducknng_session_check_kind. repeat keep. Qed.

Lemma fetch_balanced encode pending now method req : balanced (ducknng_method_fetch_handler encode pending now method req).
Proof.
  unfold balanced, idle_res, ducknng_method_fetch_handler. repeat keep.
  apply keeps_locked; [member|]. intros s str.
  pose proof (fetch_works encode pending now z (c_session_id d) (c_correlation_id d) s str) as H.
  destruct (fetch_locked _ _ _ _ _ _ _ _) as [[[? ?] ?] ?]. split; [done|]. repeat keep.
Qed.

Lemma end_query_balanced name state flags cancel req : balanced (end_query name state flags cancel req).
Proof.
  unfold balanced, idle_res, end_query. repeat keep. eapply prog_safe_bind; [apply check_kind_keeps|]. intros refused r ->.
  repeat keep. destruct cancel; cbn [pbind option_list app]; [|repeat keep].
  apply keeps_locked; [member|]. intros s str. split; [by apply works_quiet|].
  apply keeps_locked; [member|]. intros s' str'. split; [|repeat keep].
  destruct (session_con s') eqn:E; [|apply works_same].
  intros Hs. split; [done|]. split; [done|]. split; [done|]. split; [done|]. intros y Hy. by exists y.
Qed.

Lemma query_open_balanced decode rows idle connects a e req :
  balanced (ducknng_method_query_open_handler decode rows idle connects a e req).
Proof. unfold balanced, idle_res, ducknng_method_query_open_handler. repeat keep. Qed.

Lemma upload_fail_balanced con i v open status text : 
  (forall x, view_of x = v -> exists x', con_run x open = Some x' /\ view_of x' = closed_view) ->
  keeps (upload_fail con i open status text) (mk_res [] [] [(con, i, v)]) (fun _ r => r = idle_res).
Proof. intros Hv. unfold upload_fail. eapply keeps_call; [exact Hv|]. repeat keep. Qed.

Lemma view_begin x : view_of x = closed_view ->
  exists x', con_run x [DbBegin] = Some x' /\ view_of x' = mk_con_view true false 0.
Proof. destruct x as [[] [] ? ? ?]; unfold view_of; cbn; try done. intros _. by eexists. Qed.

Lemma view_appender x : view_of x = mk_con_view true false 0 ->
  exists x', con_run x [DbCreateAppender] = Some x' /\ view_of x' = upload_started.
Proof. destruct x as [[] [] ? ? ?]; unfold view_of; cbn; try done. intros [= ->]. by eexists. Qed.

Lemma view_abandon x : view_of x = upload_started ->
  exists x', con_run x [DbDestroyAppender; DbRollback] = Some x' /\ view_of x' = closed_view.
Proof. destruct x as [[] [] ? ? ?]; unfold view_of; cbn; try done. intros [= ->]. by eexists. Qed.

Lemma view_rollback x : view_of x = mk_con_view true false 0 ->
  exists x', con_run x [DbRollback] = Some x' /\ view_of x' = closed_view.
Proof. destruct x as [[] [] ? ? ?]; unfold view_of; cbn; try done. intros [= ->]. by eexists. Qed.

Lemma upload_open_balanced idle connects a e req : balanced (ducknng_method_upload_open_handler idle connects a e req).
Proof.
  unfold balanced, idle_res, ducknng_method_upload_open_handler. repeat keep; try (apply upload_fail_balanced; intros x Hx; by exists x).
  all: eapply keeps_call; [apply view_begin|]; repeat keep; try (by apply upload_fail_balanced, view_rollback).
  all: eapply keeps_call; [apply view_appender|]; repeat keep; by apply upload_fail_balanced, view_abandon.
Qed.

Lemma upload_append_balanced answer now req : balanced (ducknng_method_upload_append_handler answer now req).
Proof.
  unfold balanced, idle_res, ducknng_method_upload_append_handler. cbv zeta. repeat keep.
  apply keeps_locked; [member|]. intros s str. pose proof (append_works answer now s str) as H.
  destruct (append_locked _ _ _ _) as [[[? ?] ?] ?]. split; [done|]. repeat keep.
Qed.

Lemma end_upload_balanced name req k : (forall p, keeps (k p) (mk_res [] [p] []) (fun _ r => r = idle_res)) ->
  balanced (end_upload name req k).
Proof.
  intros Hk. unfold balanced, idle_res, end_upload. repeat keep. eapply prog_safe_bind; [apply check_kind_keeps|].
  intros refused r ->. repeat keep. apply Hk.
Qed.

Lemma upload_commit_balanced a req : balanced (ducknng_method_upload_commit_handler a req).
Proof.
  apply end_upload_balanced. intros p. repeat keep. apply keeps_locked; [member|]. intros s str.
  pose proof (commit_works a s str) as H. destruct (commit_locked _ _ _) as [[[? ?] ?] ?]. split; [done|]. repeat keep.
Qed.

Lemma upload_abort_balanced req : balanced (ducknng_method_upload_abort_handler req).
Proof. apply end_upload_balanced. intros p. repeat keep. Qed.

Lemma prune_balanced fuel idle now : balanced (prune fuel idle now).
Proof.
  unfold balanced, idle_res, prune. destruct (idle =? 0); [done|]. generalize 0%nat as i.
  induction fuel as [|fuel IH]; intros i; [done|]. cbn [prune_rounds]. repeat keep. apply IH.
Qed.

Lemma stop_balanced : balanced stop.
Proof.
  unfold balanced, idle_res, stop. apply keeps_step. intros w h d l _ Hw. eexists _, _, (mk_res [] [] []).
  split; [reflexivity|]. split; [by eapply world_same|]. apply keeps_detach_all. intros all. rewrite app_nil_r.
  induction all as [|p all IH]; [done|]. cbn [destroy_all]. repeat keep. apply IH.
Qed.

(** ** Workers *)

(** What a thread of the server may be asked to do, with what DuckDB, the
    clock and the random source answer. *)
Inductive job :=
| JQueryOpen (decode : bytes -> result bytes ducknng_query_open_request) (vector_rows idle_ms : Z) (connects : bool)
    (a : @open_answers chunk) (e : entropy) (req : ducknng_request_context)
| JFetch (encode : Z -> bool -> list chunk -> result bytes (bytes * Z)) (pending : pending_answer) (now : Z)
    (method : ducknng_method_descriptor) (req : ducknng_request_context)
| JClose (req : ducknng_request_context)
| JCancel (req : ducknng_request_context)
| JUploadOpen (idle_ms : Z) (connects : bool) (a : upload_answers) (e : entropy) (req : ducknng_request_context)
| JUploadAppend (answer : append_answer) (now : Z) (req : ducknng_request_context)
| JUploadCommit (a : commit_answers) (req : ducknng_request_context)
| JUploadAbort (req : ducknng_request_context)
| JPrune (fuel : nat) (idle_ms now_ms : Z)
| JStop.

Definition quietly (p : mprog unit) : mprog (option handled) := do _ <- p; Ret None.
Definition replying (p : mprog handled) : mprog (option handled) := do h <- p; Ret (Some h).

Definition job_prog (j : job) : mprog (option handled) :=
  match j with
  | JQueryOpen decode rows idle connects a e req => replying (ducknng_method_query_open_handler decode rows idle connects a e req)
  | JFetch encode pending now method req => replying (ducknng_method_fetch_handler encode pending now method req)
  | JClose req => replying (ducknng_method_close_handler req)
  | JCancel req => replying (ducknng_method_cancel_handler req)
  | JUploadOpen idle connects a e req => replying (ducknng_method_upload_open_handler idle connects a e req)
  | JUploadAppend answer now req => replying (ducknng_method_upload_append_handler answer now req)
  | JUploadCommit a req => replying (ducknng_method_upload_commit_handler a req)
  | JUploadAbort req => replying (ducknng_method_upload_abort_handler req)
  | JPrune fuel idle now => quietly (prune fuel idle now)
  | JStop => quietly stop
  end.

(** A thread does one job after another and keeps the replies. *)
Fixpoint worker (js : list job) : mprog (list (option handled)) :=
  match js with
  | [] => Ret []
  | j :: js => do h <- job_prog j; do hs <- worker js; Ret (h :: hs)
  end.

Lemma balanced_map {A C} (p : mprog A) (f : A -> C) : balanced p -> balanced (do x <- p; Ret (f x)).
Proof. intros Hp. eapply prog_safe_bind; [exact Hp|]. intros a r ->. done. Qed.

Lemma job_balanced j : balanced (job_prog j).
Proof.
  destruct j; apply balanced_map.
  - apply query_open_balanced. - apply fetch_balanced. - apply end_query_balanced. - apply end_query_balanced.
  - apply upload_open_balanced. - apply upload_append_balanced. - apply upload_commit_balanced.
  - apply upload_abort_balanced. - apply prune_balanced. - apply stop_balanced.
Qed.

Lemma worker_balanced js : balanced (worker js).
Proof.
  induction js as [|j js IH]; [done|]. eapply prog_safe_bind; [apply job_balanced|]. intros h r ->. by apply balanced_map.
Qed.

(** A service before its first request. *)
Definition idle_world (sv : server) (capacity max : Z) : world :=
  mk_mworld (set_sessions (mk_table ∅ [] 0 0 1) sv) (mk_pool [] capacity max) [] ∅.

Lemma idle_ok sv capacity max : 1 <= capacity <= DUCKNNG_EXECUTION_POOL_HARD_MAX -> max <= capacity ->
  world_ok (idle_world sv capacity max) [] [] [].
Proof.
  intros Hc Hm. split.
  - split; cbn; try done.
    + apply NoDup_nil_2.
    + intros p. rewrite lookup_empty. split; [by intros ?%elem_of_nil|by intros []].
    + intros p Hp. by apply elem_of_nil in Hp.
    + unfold session_count, zlen. cbn. lia.
  - by intros ? ?.
  - unfold heap_owners. cbn. split; cbn; try done.
    + split; cbn; [apply NoDup_nil_2..| |unfold zlen; cbn; lia|lia|lia]. intros con i. split; [by intros ?%elem_of_nil|done].
    + intros con i v Hv. by apply elem_of_nil in Hv.
    + apply Hc.
Qed.

Definition running (w : world) (jobs : list (list job)) : world * list (mprog (list (option handled))) := (w, worker <$> jobs).

Lemma running_ok w jobs : world_ok w [] [] [] -> pool_ok own good holding (fun _ r => r = idle_res) (running w jobs).
Proof.
  intros Hw. exists (replicate (length jobs) idle_res). split.
  - unfold own. cbn. clear -Hw. assert (forall {X} (f : res -> list X), f idle_res = [] -> (replicate (length jobs) idle_res ≫= f) = []) as H.
    { intros X f Hf. induction jobs as [|j jobs IH]; [done|]. cbn. by rewrite Hf. }
    by rewrite !H.
  - cbn. induction jobs as [|j jobs IH]; [constructor|]. constructor; [apply worker_balanced|done].
Qed.

Lemma reached_ok w jobs s : world_ok w [] [] [] -> rtc (good_step good) (running w jobs) s ->
  pool_ok own good holding (fun _ r => r = idle_res) s.
Proof. intros Hw Hs. eapply threads_steps_ok; [exact own_perm|by apply running_ok|exact Hs]. Qed.

Lemma all_finished (s : world * list (mprog (list (option handled)))) : pool_ok own good holding (fun _ r => r = idle_res) s -> Forall finished (snd s) ->
  world_ok (fst s) [] [] [].
Proof.
  intros (rs & Hw & Hps) Hf. assert (Forall (fun r => r = idle_res) rs) as Hr.
  { apply Forall_lookup_2. intros i r Hi. destruct (Forall2_lookup_r _ _ _ _ _ Hps Hi) as (p & Hp & Hsafe).
    pose proof (Forall_lookup_1 _ _ _ _ Hf Hp) as Hfin. by destruct p. }
  unfold own in Hw. assert (forall {X} (f : res -> list X), f idle_res = [] -> (rs ≫= f) = []) as H.
  { intros X f Hn. clear -Hr Hn. induction Hr as [|r rs -> _ IH]; [done|]. cbn. by rewrite Hn, IH. }
  rewrite !H in Hw by done. done.
Qed.

(** What the invariant says of the sessions a worker can reach, and of the
    connections. *)
Lemma sound_sessions w held detached leased : world_ok w held detached leased ->
  NoDup (sessions (mw_sessions w)) /\
  (forall p, p ∈ sessions (mw_sessions w) -> exists s, mw_heap w !! p = Some s /\ session_id s = p /\ closing s = false /\
     exists con i, session_con s = Some con /\ session_pool_index s = Z.of_nat i /\
       pool (mw_pool w) !! i = Some (con, true) /\
       exists x, con_at con (mw_log w) = Some x /\ x_txn x = upload_txn_open s /\ x_app x = upload_appender_open s).
Proof.
  intros [H1 H2 H3]. pose proof (si_nodup _ _ _ _ H1) as Hnd. apply NoDup_app in Hnd as (Hnd & Hdis & _).
  split; [done|]. intros p Hp. destruct (proj1 (Session.si_live _ _ _ _ H1 p)) as [s Hs]; [apply elem_of_app; by left|].
  destruct (si_object _ _ _ _ H1 p s Hs) as (Hid & _ & _ & Hcl). exists s. split; [done|]. split; [done|].
  split; [apply not_true_is_false; intros Hc; by eapply Hdis, Hcl|].
  destruct (H2 p s Hs) as (_ & [con Hcon] & Hi & _). rewrite (heap_owners_take _ p s Hs) in H3.
  pose proof (co_view _ _ _ H3 con (Z.to_nat (session_pool_index s)) (session_view s)) as (x & Hx & Hv);
    [unfold session_owner; rewrite Hcon; by left|].
  exists con, (Z.to_nat (session_pool_index s)). split; [done|]. split; [rewrite Z2Nat.id; lia|].
  split; [apply (pi_busy _ (co_pool _ _ _ H3)); unfold session_owner; rewrite Hcon; by left|].
  exists x. split; [done|]. unfold view_of, session_view in Hv. injection Hv as E1 E2 _. done.
Qed.

Lemma sound_protocol w held detached leased con b : world_ok w held detached leased -> (con, b) ∈ pool (mw_pool w) ->
  exists x, con_at con (mw_log w) = Some x /\ (b = false -> view_of x = closed_view).
Proof.
  intros [_ _ H3] [i Hi]%list_elem_of_lookup_1. destruct b.
  - apply (pi_busy _ (co_pool _ _ _ H3)) in Hi. apply list_elem_of_fmap in Hi as ([[con' i'] v] & E & Hin).
    injection E as <- <-. destruct (co_view _ _ _ H3 _ _ _ Hin) as (x & Hx & _). by exists x.
  - destruct (co_free _ _ _ H3 _ _ Hi) as (x & Hx & Hv). by exists x.
Qed.

(** Two sessions never share a connection. *)
Lemma sound_distinct w held detached leased p q s t : world_ok w held detached leased ->
  mw_heap w !! p = Some s -> mw_heap w !! q = Some t -> p <> q -> session_con s <> session_con t.
Proof.
  intros [H1 H2 H3] Hs Ht Hne E. destruct (H2 p s Hs) as (_ & [con Hcon] & _).
  rewrite (heap_owners_take _ p s Hs), (heap_owners_take _ q t) in H3 by (by rewrite lookup_delete_ne).
  unfold session_owner in H3. rewrite <- E, Hcon in H3. cbn [default app] in H3.
  eapply owners_distinct; [exact H3|by left|done].
Qed.
End threads.

(** ** Every interleaving *)

(** A run by a list of turns: who takes the next step; a thread that waits or
    has ended lets its turn pass. *)
Definition turn {chunk} (i : nat) (s : @mworld chunk * list (prog (@mworld chunk) (list (option handled)))) :=
  match snd s !! i with
  | Some (Step act k) =>
    if next_session_id (mw_sessions (fst s)) <? UINT64_MAX
    then match act (fst s) with Some (w, x) => (w, <[i := k x]> (snd s)) | None => s end else s
  | _ => s
  end.

Definition turns {chunk} (order : list nat) (s : @mworld chunk * list (prog (@mworld chunk) (list (option handled)))) :=
  foldl (flip turn) s order.

Lemma turns_steps {chunk} order s : rtc (good_step good) s (@turns chunk order s).
Proof.
  revert s. induction order as [|i order IH]; intros s; [done|]. unfold turns. cbn [foldl flip]. etransitivity; [|apply IH].
  unfold turn. destruct (snd s !! i) as [[a|X act k]|] eqn:Ei; try done.
  destruct (Z.ltb_spec (next_session_id (mw_sessions (fst s))) UINT64_MAX); [|done].
  destruct (act (fst s)) as [[w x]|] eqn:Ea; [|done]. apply rtc_once. split; [done|].
  destruct s as [w0 ps]. by econstructor.
Qed.



(** An upload and a query opened by two workers at the same time. *)
Definition demo_request (name : string) (payload : bytes) : ducknng_request_context :=
  mk_req_ctx (mk_frame 1 DUCKNNG_RPC_CALL 0 0 (lit name) (zlen (lit name)) [] 0 payload (zlen payload)) None None None.

Definition demo_entropy (now : Z) : entropy := mk_entropy (1, 2, 3, 4) (5, 6, 7, 8) now.

Definition demo_upload_open : @job Z :=
  JUploadOpen 1000 true (mk_upload_answers None None (fun _ => Ok [lit "x"])) (demo_entropy 10)
    (demo_request "upload_open" (jlit "{'target_table':'main.t'}")).

Definition demo_query_open : @job Z :=
  JQueryOpen (fun p => Ok (mk_open_request p 0 None None 0)) 2048 1000 true
    (mk_open_answers 1 None None None None true (mk_stream [1; 2; 3] false)) (demo_entropy 11)
    (demo_request "query_open" (lit "SELECT 1")).

Definition demo_start := running (idle_world demo_server 8 4) [[demo_upload_open]; [demo_query_open]].
Definition demo_state := turns [0; 1; 0; 0; 1; 0]%nat demo_start.


