(* ===== verification/MethodRuns.v ===== *)
(** What a handler does when it runs undisturbed, and what a client sees over
    several requests: sequences of fetches on a query session, uploads from
    open to commit, and requests by somebody who does not own the session. *)

From stdpp Require Import gmap relations.
From S2P Require Import Prelude Checked Wire Util Registry Peers Session Dispatch Runtime Control Threads Methods Upload SessionThreads.

Section runs.
Context {chunk : Type}.
Abbreviation world := (@mworld chunk).
Abbreviation mprog := (prog world).

(** ** The steps, run alone *)

Lemma put_heap_same (w : world) p s : mw_heap w !! p = Some s -> put_heap (<[p := s]> (mw_heap w)) w = w.
Proof.
  intros Hp. rewrite insert_id by done. by destruct w as [[? ? ? ? ? [] ?] ? ? ?].
Qed.

Lemma put_log_nil (w : world) : put_log [] w = w.
Proof. destruct w. unfold put_log. cbn. by rewrite app_nil_r. Qed.

Lemma run_acquire {A} (w : world) h d l id token caller s (k : option Z * Z -> mprog A) :
  world_ok w h d l -> id ∈ sessions (mw_sessions w) -> mw_heap w !! id = Some s ->
  ducknng_session_owner_auth s (Some token) caller = DUCKNNG_SESSION_AUTH_OK ->
  run (pbind (acquire id token caller) k) w =
  run (k (Some id, DUCKNNG_SESSION_AUTH_OK)) (put_heap (<[id := set_refcount (refcount s + 1) s]> (mw_heap w)) w).
Proof.
  intros Hw Hin Hs Ha. pose proof (acquire_cases _ _ _ _ id (Some token) caller (wo_sessions _ _ _ _ Hw)) as Hc.
  unfold mw_heap in Hs. rewrite Hs in Hc. rewrite bool_decide_eq_true_2, Ha in Hc by done. cbn in Hc.
  unfold acquire. cbn. by rewrite Hc.
Qed.

(** Without the right the world does not change. *)
Lemma run_acquire_refused (w : world) h d l id token caller :
  world_ok w h d l ->
  (forall s, id ∈ sessions (mw_sessions w) -> mw_heap w !! id = Some s ->
     ducknng_session_owner_auth s (Some token) caller <> DUCKNNG_SESSION_AUTH_OK) ->
  exists auth, forall A (k : option Z * Z -> mprog A), run (pbind (acquire id token caller) k) w = run (k (None, auth)) w.
Proof.
  intros Hw Hno. pose proof (acquire_cases _ _ _ _ id (Some token) caller (wo_sessions _ _ _ _ Hw)) as Hc.
  unfold acquire. cbn [run pbind atomic]. assert (put_sessions (mw_sessions w) w = w) as Hsame by (by destruct w as [[] ? ? ?]).
  fold (mw_heap w) in Hc. destruct (mw_heap w !! id) as [s|] eqn:Es.
  - destruct (bool_decide_reflect (id ∈ sessions (mw_sessions w))) as [Hin|]; cbn [andb] in Hc.
    + specialize (Hno s Hin eq_refl). destruct (Z.eqb_spec (ducknng_session_owner_auth s (Some token) caller) DUCKNNG_SESSION_AUTH_OK); [done|].
      eexists. intros A k. by rewrite Hc, Hsame.
    + eexists. intros A k. by rewrite Hc, Hsame.
  - eexists. intros A k. by rewrite Hc, Hsame.
Qed.

(** A region of the session at [p] put into the world. *)
Definition put_region (p : Z) (s' : ducknng_session) (calls : list (Z * db_call)) (str : option stream) (w : world) : world :=
  let w := put_log calls (put_heap (<[p := s']> (mw_heap w)) w) in
  match str with Some str => put_stream p str w | None => w end.

Lemma run_locked {A X} (w : world) p s f (k : X -> mprog A) : mw_heap w !! p = Some s ->
  run (pbind (locked p f) k) w =
  let '(s', calls, str, x) := f s (mw_streams w !! p) in
  run (k x) (put_region p s' ((fun c => (default 0 (session_con s), c)) <$> calls) str w).
Proof. intros Hp. unfold locked. cbn. rewrite Hp. destruct (f s (mw_streams w !! p)) as [[[? ?] ?] ?]. done. Qed.

Lemma run_peek {A X} (w : world) p s (f : ducknng_session -> X) (k : X -> mprog A) : mw_heap w !! p = Some s ->
  run (pbind (peek p f) k) w = run (k (f s)) w.
Proof. intros Hp. unfold peek. rewrite (run_locked w p s) by done. unfold put_region. cbn. by rewrite put_log_nil, put_heap_same. Qed.

Lemma run_release {A} (w : world) p s (k : unit -> mprog A) : mw_heap w !! p = Some s ->
  run (pbind (release p) k) w = run (k tt) (put_heap (<[p := ducknng_session_release s]> (mw_heap w)) w).
Proof. intros Hp. unfold release. cbn. by rewrite Hp. Qed.


Lemma put_heap_put_heap h h' (w : world) : put_heap h (put_heap h' w) = put_heap h w.
Proof. done. Qed.

Lemma region_release p s s' calls str (w : world) :
  put_heap (<[p := s']> (mw_heap (put_region p s calls str w))) (put_region p s calls str w) = put_region p s' calls str w.
Proof.
  destruct str, w as [[? ? ? ? ? [] ?] ? ? ?]; unfold put_region, put_heap, put_stream, put_log, put_sessions, mw_heap, mw_sessions; cbn.
  all: by rewrite insert_insert_eq.
Qed.

Lemma region_over p s s' calls str (w : world) :
  put_region p s' calls str (put_heap (<[p := s]> (mw_heap w)) w) = put_region p s' calls str w.
Proof.
  destruct str, w as [[? ? ? ? ? [] ?] ? ? ?]; unfold put_region, put_heap, put_stream, put_log, put_sessions, mw_heap, mw_sessions; cbn.
  all: by rewrite insert_insert_eq.
Qed.

Lemma region_heap p s' calls str (w : world) : mw_heap (put_region p s' calls str w) = <[p := s']> (mw_heap w).
Proof. by destruct str. Qed.

Lemma region_streams p s' calls str (w : world) :
  mw_streams (put_region p s' calls str w) = match str with Some str => <[p := str]> (mw_streams w) | None => mw_streams w end.
Proof. by destruct str. Qed.

Lemma region_table p s' calls str (w : world) : sessions (mw_sessions (put_region p s' calls str w)) = sessions (mw_sessions w).
Proof. by destruct str. Qed.

(** A region keeps the invariant. *)
Lemma region_ok w h d l p s s' calls str : world_ok w h d l -> mw_heap w !! p = Some s -> works s s' calls ->
  world_ok (put_region p s' ((fun c => (default 0 (session_con s), c)) <$> calls) str w) h d l.
Proof.
  intros Hw Hp Hs. pose proof (world_works _ _ _ _ _ _ _ _ Hw Hp Hs) as H. unfold put_region. destruct str; [|done].
  by eapply world_same.
Qed.

(** Regions that neither read nor write the reference count. *)
Definition blind {X} (f : ducknng_session -> option (@stream chunk) -> ducknng_session * list db_call * option (@stream chunk) * X) : Prop :=
  forall s str n, f (set_refcount n s) str = let '(s', calls, str', x) := f s str in (set_refcount n s', calls, str', x).

Lemma blind_refcount {X} f s str : @blind X f -> let '(s', _, _, _) := f s str in refcount s' = refcount s.
Proof.
  intros Hb. specialize (Hb s str (refcount s)). replace (set_refcount (refcount s) s) with s in Hb by (by destruct s).
  destruct (f s str) as [[[s' ?] ?] ?]. injection Hb as ->. done.
Qed.

(** A session is found, worked on under its mutex and let go. *)
Lemma run_worked {X} (w : world) h d l id s f :
  blind f -> (forall s str, let '(s', calls, _, _) := f s str in works s s' calls) ->
  world_ok w h d l -> mw_heap w !! id = Some s ->
  let '(s', calls, str, x) := f s (mw_streams w !! id) in
  run (do y <- locked id f; do _ <- release id; Ret (y : X)) (put_heap (<[id := set_refcount (refcount s + 1) s]> (mw_heap w)) w) =
    Some (put_region id s' ((fun c => (default 0 (session_con s), c)) <$> calls) str w, x) /\
  world_ok (put_region id s' ((fun c => (default 0 (session_con s), c)) <$> calls) str w) h d l.
Proof.
  intros Hb Hf Hw Hs. rewrite (run_locked _ id (set_refcount (refcount s + 1) s)) by (unfold mw_heap; cbn; by rewrite lookup_insert_eq).
  change (mw_streams (put_heap _ w)) with (mw_streams w). rewrite Hb. pose proof (Hf s (mw_streams w !! id)) as Hk.
  pose proof (blind_refcount f s (mw_streams w !! id) Hb) as Hr.
  destruct (f s (mw_streams w !! id)) as [[[s' calls] str] x].
  rewrite region_over. change (session_con (set_refcount _ s)) with (session_con s).
  rewrite (run_release _ id (set_refcount (refcount s + 1) s')) by (rewrite region_heap; by rewrite lookup_insert_eq).
  rewrite region_release. split; [|by apply region_ok]. cbn [run]. do 3 f_equal.
  unfold ducknng_session_release. cbn [refcount set_refcount]. pose proof (wo_sessions _ _ _ _ Hw) as Hinv.
  destruct (si_object _ _ _ _ Hinv id s Hs) as (_ & _ & Hrc & _). pose proof (refs_nonneg h id).
  destruct (Z.ltb_spec 0 (refcount s + 1)); [|lia]. unfold set_refcount. cbn. rewrite Z.add_simpl_r, <- Hr. by destruct s'.
Qed.


(** ** A sequence of fetches *)

Section fetches.
Context (body : Z -> bool -> list chunk -> bytes * Z).
Let encode := fun format schema cs => Ok (E := bytes) (body format schema cs).

Lemma fetch_blind pending now prefix id corr : blind (fetch_locked encode pending now prefix id corr).
Proof.
  intros s str n. unfold fetch_locked, set_touch, set_flow, set_refcount.
  cbn -[refuse ducknng_session_state_reply ducknng_fetch_set_row_reply ztake zdrop lit u64].
  repeat (case_match; cbn -[refuse ducknng_session_state_reply ducknng_fetch_set_row_reply ztake zdrop lit u64] in *; simplify_eq; try done).
  all: congruence.
Qed.

(** The size of a batch, and how many batches a result has. *)
Definition batch_size (n : Z) : Z := if n =? 0 then 1 else n.
Definition batch_count (n : Z) (cs : list chunk) : Z := (zlen cs + batch_size n - 1) / batch_size n.

(** The reply to the fetch number [i] of a result with the chunks [cs]. *)
Definition fetch_reply (format n prefix id : Z) (handle corr : option bytes) (cs : list chunk) (i : Z) : handled :=
  let m := batch_size n in
  if i * m <? zlen cs
  then ducknng_fetch_set_row_reply format 0 prefix (body format (i =? 0) (ztake m (zdrop (i * m) cs)))
  else if zlen cs =? 0 then ducknng_fetch_set_row_reply format DUCKNNG_RPC_FLAG_END_OF_STREAM prefix (body format true [])
  else ducknng_session_state_reply DUCKNNG_RPC_FLAG_END_OF_STREAM (exhausted_view id (batch_count n cs) handle corr).

(** A query session of which [i] batches have been asked for. *)
Record serving (w : world) (id format n : Z) (token : bytes) (caller handle : option bytes) (cs : list chunk) (failed : bool)
    (i : Z) (s : ducknng_session) : Prop := mk_serving {
  sv_member : id ∈ sessions (mw_sessions w);
  sv_here : mw_heap w !! id = Some s;
  sv_auth : ducknng_session_owner_auth s (Some token) caller = DUCKNNG_SESSION_AUTH_OK;
  sv_query : is_upload s = false;
  sv_alive : cancelled s = false;
  sv_format : row_payload_format s = format;
  sv_size : fetch_batch_chunks s = n;
  sv_handle : result_handle s = handle;
  sv_open : if i =? 0 then pending_open s = true /\ pending_ready (progress s) = false
            else pending_open s = false /\ result_open s = true;
  sv_batches : batch_no (progress s) = Z.min i (batch_count n cs);
  sv_schema : row_schema_sent (progress s) = (0 <? Z.min i (batch_count n cs));
  sv_stream : mw_streams w !! id = Some (mk_stream (zdrop (i * batch_size n) cs) failed) }.

Lemma batch_count_bounds n (cs : list chunk) : 0 <= n ->
  0 <= batch_count n cs <= zlen cs /\
  forall i, 0 <= i -> (i * batch_size n < zlen cs <-> i < batch_count n cs).
Proof.
  intros Hn. assert (1 <= batch_size n) as Hm by (unfold batch_size; destruct (Z.eqb_spec n 0); lia).
  pose proof (zlen_nonneg cs). unfold batch_count. set (m := batch_size n) in *.
  pose proof (Z.div_mod (zlen cs + m - 1) m ltac:(lia)). pose proof (Z.mod_pos_bound (zlen cs + m - 1) m ltac:(lia)).
  set (q := (zlen cs + m - 1) / m) in *. split; [split; nia|]. intros i Hi. split; nia.
Qed.

Lemma ztake_nil_iff m (l : list chunk) : 0 < m -> ztake m l = [] <-> l = [].
Proof. intros Hm. unfold ztake. destruct l; [by rewrite take_nil|]. destruct (Z.to_nat m) eqn:E; [lia|done]. Qed.

Lemma zdrop_nil_iff m (l : list chunk) : 0 <= m -> zdrop m l = [] <-> zlen l <= m.
Proof.
  intros Hm. unfold zdrop, zlen. split; [|intros; apply drop_ge; lia]. intros E%(f_equal length).
  rewrite length_drop in E. cbn in E. lia.
Qed.

(** What the region does for the fetch number [i]. *)
Lemma fetch_served w id format n token caller handle cs failed i s now prefix corr :
  serving w id format n token caller handle cs failed i s -> 0 <= n -> 0 <= i -> zlen cs <= UINT64_MAX ->
  exists s' str', fetch_locked encode PendingReady now prefix id corr s (mw_streams w !! id) =
    (s', [], str', fetch_reply format n prefix id handle corr cs i) /\
  same_handle s s' /\ owner_token s' = owner_token s /\ owner_identity s' = owner_identity s /\
  forall w', sessions (mw_sessions w') = sessions (mw_sessions w) -> mw_heap w' !! id = Some s' ->
    mw_streams w' !! id = (match str' with Some str' => Some str' | None => mw_streams w !! id end) ->
    serving w' id format n token caller handle cs failed (i + 1) s'.
Proof.
  intros [Hin Hs Hauth Hq Hc Hf Hn Hh Ho Hb Hsch Hstr] H0 Hi Hmax.
  destruct (batch_count_bounds n cs H0) as [Hcnt Hlt].
  pose proof (Hlt 0 ltac:(lia)) as Hlt0. specialize (Hlt i Hi).
  assert (0 < batch_size n) as Hm by (unfold batch_size; destruct (Z.eqb_spec n 0); lia).
  assert (zdrop (batch_size n) (zdrop (i * batch_size n) cs) = zdrop ((i + 1) * batch_size n) cs) as Hnext
    by (rewrite zdrop_zdrop by nia; f_equal; lia).
  assert ((negb (pending_ready (progress s)) && pending_open s)%bool = (i =? 0)) as Hdrive.
  { destruct (i =? 0); destruct Ho as [-> Ho]; [by rewrite Ho|by rewrite andb_false_r]. }
  unfold fetch_locked. rewrite Hstr. cbv zeta.
  change (cancelled (set_touch now s)) with (cancelled s). change (pending_open (set_touch now s)) with (pending_open s).
  change (progress (set_touch now s)) with (progress s). rewrite Hc, Hdrive. unfold fetch_reply.
  replace (if i =? 0 then PendingReady else PendingReady) with PendingReady by (by destruct (i =? 0)). cbv iota.
  set (s1 := if i =? 0 then set_flow _ _ _ _ _ _ else _).
  assert (result_open s1 = true /\ pending_open s1 = false /\ cancelled s1 = false) as (Hr1 & Hp1 & Hc1).
  { subst s1. destruct (i =? 0); cbn; [done|]. by destruct Ho. }
  assert (batch_no (progress s1) = batch_no (progress s) /\ row_schema_sent (progress s1) = row_schema_sent (progress s)) as [Hb1 Hs1]
    by (subst s1; by destruct (i =? 0)).
  assert (owner_token s1 = owner_token s /\ owner_identity s1 = owner_identity s /\ is_upload s1 = false /\
    row_payload_format s1 = format /\ fetch_batch_chunks s1 = n /\ result_handle s1 = handle) as (E1 & E2 & E3 & E4 & E5 & E6)
    by (subst s1; by destruct (i =? 0)).
  assert (same_handle s s1) as Hsame by (subst s1; by destruct (i =? 0)).
  assert (forall s', owner_token s' = owner_token s -> owner_identity s' = owner_identity s ->
    ducknng_session_owner_auth s' (Some token) caller = DUCKNNG_SESSION_AUTH_OK) as Hauth'
    by (intros s' F1 F2; unfold ducknng_session_owner_auth; by rewrite F1, F2).
  clearbody s1. assert ((i + 1 =? 0) = false) as Hi1 by lia.
  rewrite Hr1, E4, E5, E6, Hb1, Hs1, Hb, Hsch. cbn [negb from_option chunks stream_failed]. fold (batch_size n).
  rewrite Hnext. destruct (ztake (batch_size n) (zdrop (i * batch_size n) cs)) as [|c batch] eqn:Et.
  - apply (ztake_nil_iff _ _ Hm), zdrop_nil_iff in Et; [|nia].
    assert (Hend : (i * batch_size n <? zlen cs) = false) by lia. rewrite Hend.
    assert ((Z.min i (batch_count n cs) =? 0) = (zlen cs =? 0)) as ->.
    { pose proof (zlen_nonneg cs). destruct (Z.eqb_spec (zlen cs) 0) as [E|]; [lia|].
      destruct (Z.eq_dec i 0) as [->|]; lia. }
    exists (set_flow (result_open s1) true (cancelled s1) (pending_open s1) (progress s1) s1), None.
    split; [rewrite Hr1; by destruct (zlen cs =? 0) eqn:E; [|replace (Z.min i (batch_count n cs)) with (batch_count n cs) by lia]|].
    split; [done|]. split; [done|]. split; [done|]. intros w' F1 F2 F3.
    split; try done; rewrite ?F1; try done; [by apply Hauth'| | | |].
    + rewrite Hi1. done.
    + cbn. rewrite Hb1, Hb. lia.
    + cbn. rewrite Hs1, Hsch. f_equal. lia.
    + rewrite F3. do 2 f_equal. rewrite (proj2 (zdrop_nil_iff (i * batch_size n) cs ltac:(nia)) Et). symmetry.
      apply zdrop_nil_iff; nia.
  - assert (i * batch_size n < zlen cs) as Hmore.
    { apply Z.nle_gt. intros Hge. apply zdrop_nil_iff in Hge; [|nia]. rewrite Hge in Et. unfold ztake in Et. by rewrite take_nil in Et. }
    pose proof (proj1 Hlt Hmore) as Hib. assert (Z.min i (batch_count n cs) = i) as -> by lia.
    assert ((i * batch_size n <? zlen cs) = true) as -> by lia.
    assert (negb (0 <? i) = (i =? 0)) as -> by lia. unfold encode.
    eexists _, _. split; [reflexivity|]. split; [done|]. split; [done|]. split; [done|]. intros w' F1 F2 F3.
    split; try done; rewrite ?F1; try done; [by apply Hauth'| | |].
    + rewrite Hi1. done.
    + cbn. rewrite u64_small; [lia|]. unfold UINT64_MAX in *. lia.
    + cbn. lia.
Qed.

Lemma run_fetch w h d l id format n token caller handle cs failed i s now method prefix req corr :
  world_ok w h d l -> serving w id format n token caller handle cs failed i s -> 0 <= n -> 0 <= i -> zlen cs <= UINT64_MAX ->
  ducknng_size_add DUCKNNG_WIRE_HEADER_LEN (zlen (default [] (m_name method))) = Some prefix ->
  ducknng_parse_session_control_request (rc_frame req) (lit "fetch") = inl (mk_control id token corr) ->
  rc_caller_identity req = caller ->
  exists w' s', run (ducknng_method_fetch_handler encode PendingReady now method req) w =
      Some (w', fetch_reply format n prefix id handle corr cs i) /\
    world_ok w' h d l /\ serving w' id format n token caller handle cs failed (i + 1) s'.
Proof.
  intros Hw Hs Hn Hi Hmax Hpre Hparse <-.
  destruct (fetch_served _ _ _ _ _ _ _ _ _ _ _ now prefix corr Hs Hn Hi Hmax) as (s' & str' & E & _ & _ & _ & Hnext).
  pose proof Hs as [Hin Hh Hauth Hq _ _ _ _ _ _ _ _]. unfold ducknng_method_fetch_handler. rewrite Hpre, Hparse.
  cbn [c_session_id c_session_token c_correlation_id].
  rewrite (run_acquire w h d l id token _ s) by done.
  rewrite (run_peek _ id (set_refcount (refcount s + 1) s)) by (unfold mw_heap; cbn; by rewrite lookup_insert_eq).
  change (is_upload (set_refcount _ s)) with (is_upload s). rewrite Hq.
  pose proof (run_worked w h d l id s (fetch_locked encode PendingReady now prefix id corr)
    (fetch_blind _ _ _ _ _) (fetch_works encode PendingReady now prefix id corr) Hw Hh) as Hrun.
  rewrite E in Hrun. destruct Hrun as [Hrun Hw']. rewrite Hrun. eexists _, s'. split; [reflexivity|]. split; [done|].
  apply Hnext; [by rewrite region_table|rewrite region_heap; by rewrite lookup_insert_eq|].
  rewrite region_streams. destruct str'; [by rewrite lookup_insert_eq|done].
Qed.

(** Fetches one after another, each with its clock and its request. *)
Fixpoint fetches (method : ducknng_method_descriptor) (reqs : list (Z * ducknng_request_context)) : mprog (list handled) :=
  match reqs with
  | [] => Ret []
  | (now, req) :: reqs =>
    do r <- ducknng_method_fetch_handler encode PendingReady now method req;
    do rs <- fetches method reqs;
    Ret (r :: rs)
  end.

Lemma run_fetches reqs : forall w h d l id format n token caller handle cs failed i s method prefix corr,
  world_ok w h d l -> serving w id format n token caller handle cs failed i s -> 0 <= n -> 0 <= i -> zlen cs <= UINT64_MAX ->
  ducknng_size_add DUCKNNG_WIRE_HEADER_LEN (zlen (default [] (m_name method))) = Some prefix ->
  Forall (fun req => ducknng_parse_session_control_request (rc_frame req.2) (lit "fetch") = inl (mk_control id token corr) /\
                     rc_caller_identity req.2 = caller) reqs ->
  exists w', run (fetches method reqs) w =
    Some (w', (fun j => fetch_reply format n prefix id handle corr cs (i + Z.of_nat j)) <$> seq 0 (length reqs)).
Proof.
  induction reqs as [|[now req] reqs IH]; intros w h d l id format n token caller handle cs failed i s method prefix corr
    Hw Hs Hn Hi Hmax Hpre Hreqs; [by eexists|]. apply Forall_cons in Hreqs as [[Hp Hc] Hreqs]. cbn [fst snd] in *.
  destruct (run_fetch _ _ _ _ _ _ _ _ _ _ _ _ _ _ now _ _ _ _ Hw Hs Hn Hi Hmax Hpre Hp Hc) as (w1 & s1 & E1 & Hw1 & Hs1).
  destruct (IH _ _ _ _ _ _ _ _ _ _ _ _ _ _ method prefix corr Hw1 Hs1 Hn ltac:(lia) Hmax Hpre Hreqs) as (w2 & E2).
  exists w2. cbn [fetches]. rewrite run_bind, E1, run_bind, E2. cbn [run length seq fmap list_fmap]. do 2 f_equal.
  rewrite Z.add_0_r. f_equal. rewrite <- (fmap_S_seq 0), <- list_fmap_compose. apply list_fmap_ext.
  intros j x _. cbn. f_equal. lia.
Qed.

Lemma open_batch_bounds rows batch_rows : 0 < rows -> 1 <= open_batch_chunks rows batch_rows <= DUCKNNG_MAX_FETCH_BATCH_CHUNKS.
Proof.
  intros Hr. unfold open_batch_chunks, DUCKNNG_DEFAULT_FETCH_BATCH_CHUNKS, DUCKNNG_MAX_FETCH_BATCH_CHUNKS.
  destruct (0 <? batch_rows); [|lia]. cbv zeta. set (q := _ / rows).
  assert (0 <= q) by (apply Z.div_pos; [|lia]; unfold u64; apply Z.mod_pos_bound; lia).
  cases_goal; lia.
Qed.

(** The owner's token opens the session for the owner. *)
Lemma owner_auth_owner s words caller : owner_token s = Some (ducknng_session_generate_owner_token words) ->
  owner_identity s = (if nonempty caller then caller else None) ->
  ducknng_session_owner_auth s (Some (ducknng_session_generate_owner_token words)) caller = DUCKNNG_SESSION_AUTH_OK.
Proof.
  intros Ht Hi. unfold ducknng_session_owner_auth. rewrite Ht, token_nonempty, Hi.
  destruct (hex_token_shape words) as (Hl & _ & _).
  assert (cstr (ducknng_session_generate_owner_token words)) as Hc
    by (eapply Forall_impl; [exact Hl|]; unfold lower_hex, is_char; intros; lia).
  rewrite (proj2 (token_equal_spec _ _ Hc Hc) eq_refl). cbn [negb orb bool_decide].
  rewrite bool_decide_eq_false_2 by done. cbn [orb].
  destruct (nonempty caller) eqn:E; [|done]. rewrite E. by rewrite bool_decide_eq_true_2.
Qed.

Lemma slices_concat (cs : list chunk) m k : 0 <= m ->
  mjoin ((fun j => ztake m (zdrop (Z.of_nat j * m) cs)) <$> seq 0 k) = ztake (Z.of_nat k * m) cs.
Proof.
  intros Hm. induction k as [|k IH]; [done|]. rewrite seq_S, fmap_app, join_app, IH. cbn.
  rewrite app_nil_r. unfold ztake, zdrop. replace (Z.to_nat (Z.of_nat (S k) * m)) with (Z.to_nat (Z.of_nat k * m) + Z.to_nat m)%nat by lia.
  by rewrite take_take_drop.
Qed.

(** A connection is free or may be opened. *)
Definition pool_has_room (p : execution_pool) : bool :=
  (existsb (fun e => negb (snd e)) (pool p) || (zlen (pool p) <? pool_max p))%bool.

Lemma lease_room (p : execution_pool) : pool_has_room p = true ->
  exists p' con i, acquire_round (Some (fresh_connection p)) p = (p', Some (con, i)).
Proof.
  intros H. unfold acquire_round. destruct (find_index _ (pool p)) as [k|] eqn:E.
  - destruct (find_index_Some _ _ _ E) as ([c b] & Hk & _). rewrite Hk. by eexists _, _, _.
  - unfold pool_has_room in H. apply orb_true_iff in H as [H|H]; [|rewrite H; by eexists _, _, _].
    apply existsb_exists in H as (e & [i Hi]%list_elem_of_In%list_elem_of_lookup_1 & He).
    pose proof (proj1 (find_index_None _ _) E) as Hall. rewrite Forall_lookup in Hall. by rewrite (Hall _ _ Hi) in He.
Qed.

(** A successful open leaves a session that serves its rows from the start. *)
Lemma run_query_open w h d l decode rows idle a e req rq format load :
  world_ok w h d l -> good w -> decode (f_payload (rc_frame req)) = Ok rq ->
  ducknng_parse_row_payload_format (q_serialization_mode rq) = Some format -> open_failure rq a = None ->
  pool_has_room (mw_pool w) = true -> 0 < rows ->
  session_admission (sv_limits (mw_server w)) (sv_shutting_down (mw_server w)) (mw_sessions w) (sv_load (mw_server w))
    (rc_caller_identity req) (e_now e) = (load, None) ->
  let id := next_session_id (mw_sessions w) in
  let token := ducknng_session_generate_owner_token (e_token e) in
  let handle := ducknng_session_generate_result_handle (e_handle e) in
  let n := open_batch_chunks rows (q_batch_rows rq) in
  exists w1 s1,
    run (ducknng_method_query_open_handler decode rows idle true a e req) w =
      Some (w1, ducknng_session_state_reply DUCKNNG_RPC_FLAG_SESSION_OPEN
        (open_view id idle token handle n format (q_correlation_id rq))) /\
    world_ok w1 h d l /\
    serving w1 id format n token (rc_caller_identity req) (Some handle) (chunks (oa_stream a)) (stream_failed (oa_stream a)) 0 s1.
Proof.
  intros Hw Hg Hdec Hfmt Hok Hroom Hrows Hadm id token handle n.
  destruct (lease_room _ Hroom) as (pl & con & i & Hl).
  pose proof (world_lease w h d l true pl (Some (con, i)) Hw Hl) as Hw1. cbn in Hw1.
  assert (1 <= n <= DUCKNNG_MAX_FETCH_BATCH_CHUNKS) as Hn by (by apply open_batch_bounds).
  unfold ducknng_method_query_open_handler. rewrite Hdec, Hfmt. fold n. rewrite run_bind. unfold lease at 1. cbn [run atomic].
  rewrite Hl, Hok. rewrite run_bind. unfold add_query at 1. cbn [run atomic].
  change (mw_server (put_pool pl w)) with (mw_server w). fold (mw_sessions w).
  destruct (ducknng_service_add_session_streaming _ _ _ _ _ _ _ _ _ _ _ _ _ _) as [[t load'] r] eqn:E.
  pose proof E as E'. unfold ducknng_service_add_session_streaming in E'.
  pose proof (world_add (put_pool pl w) h d l con i _ _ _ None _ _ _ _ _ _ _ _ _ Hw1 Hg E') as Hw2.
  unfold ducknng_service_add_session_full in E'. rewrite Hadm in E'.
  unfold ducknng_session_create_streaming in E'. rewrite token_nonempty in E'. cbn [negb] in E'.
  assert ((n =? 0) = false) as Hn0 by lia. assert ((DUCKNNG_MAX_FETCH_BATCH_CHUNKS <? n) = false) as Hn1 by lia.
  rewrite Hn0, Hn1 in E'. injection E' as <- <- <-. eexists _, _. split; [reflexivity|].
  split; [by eapply world_same|]. split.
  - cbn. apply elem_of_app. right. by left.
  - cbn. by rewrite lookup_insert_eq.
  - by apply owner_auth_owner.
  - done.
  - done.
  - done.
  - done.
  - done.
  - done.
  - cbn. pose proof (batch_count_bounds n (chunks (oa_stream a)) ltac:(lia)). lia.
  - cbn. pose proof (batch_count_bounds n (chunks (oa_stream a)) ltac:(lia)). by rewrite Z.min_l by lia.
  - cbn. rewrite lookup_insert_eq. by destruct (oa_stream a).
Qed.

End fetches.
End runs.


(** A client that opens a query of three chunks in batches of two and fetches
    three times. *)
Definition demo_rows : Z -> bool -> list Z -> bytes * Z := fun _ schema cs => ((if schema then [115] else []) ++ cs, zlen cs).
Definition demo_fetch : ducknng_method_descriptor := demo_method "fetch".
Definition demo_query_request : ducknng_query_open_request := mk_open_request (lit "SELECT 1") 4000 None None 0.
Definition demo_query_answers : open_answers := mk_open_answers 1 None None None None true (mk_stream [1; 2; 3] false).
Definition demo_owner : bytes := ducknng_session_generate_owner_token (1, 2, 3, 4).
Definition demo_fetch_request : ducknng_request_context :=
  demo_request "fetch" (default [] (ducknng_session_request_json_ex 1 (Some demo_owner) 0 0 None)).


(** ** Requests by others *)

(** A job that names a session, with the token and the caller it comes with. *)
Inductive control_of {chunk} : @job chunk -> Z -> bytes -> option bytes -> Prop :=
| control_fetch encode pending now method req prefix id token corr :
    ducknng_size_add DUCKNNG_WIRE_HEADER_LEN (zlen (default [] (m_name method))) = Some prefix ->
    ducknng_parse_session_control_request (rc_frame req) (lit "fetch") = inl (mk_control id token corr) ->
    control_of (JFetch encode pending now method req) id token (rc_caller_identity req)
| control_close req id token corr :
    ducknng_parse_session_control_request (rc_frame req) (lit "close") = inl (mk_control id token corr) ->
    control_of (JClose req) id token (rc_caller_identity req)
| control_cancel req id token corr :
    ducknng_parse_session_control_request (rc_frame req) (lit "cancel") = inl (mk_control id token corr) ->
    control_of (JCancel req) id token (rc_caller_identity req)
| control_append answer now req id token len batch :
    ducknng_upload_append_parse_prefix (Some (f_payload (rc_frame req))) (f_payload_len (rc_frame req)) = Some (id, token, len, batch) ->
    zlen (c_text token) = len ->
    control_of (JUploadAppend answer now req) id (c_text token) (rc_caller_identity req)
| control_commit a req id token corr :
    ducknng_parse_session_control_request (rc_frame req) (lit "upload_commit") = inl (mk_control id token corr) ->
    control_of (JUploadCommit a req) id token (rc_caller_identity req)
| control_abort req id token corr :
    ducknng_parse_session_control_request (rc_frame req) (lit "upload_abort") = inl (mk_control id token corr) ->
    control_of (JUploadAbort req) id token (rc_caller_identity req).

(** The family of sessions a request is for; [upload_append] checks it later,
    under the mutex of the session. *)
Definition wrong_family {chunk} (j : @job chunk) (s : ducknng_session) : bool :=
  match j with
  | JFetch _ _ _ _ _ | JClose _ | JCancel _ => is_upload s
  | JUploadCommit _ _ | JUploadAbort _ => negb (is_upload s)
  | _ => false
  end.

Section others.
Context {chunk : Type}.
Abbreviation world := (@mworld chunk).

Lemma put_back (w : world) id s : mw_heap w !! id = Some s -> 0 <= refcount s ->
  put_heap (<[id := ducknng_session_release (set_refcount (refcount s + 1) s)]>
    (mw_heap (put_heap (<[id := set_refcount (refcount s + 1) s]> (mw_heap w)) w)))
    (put_heap (<[id := set_refcount (refcount s + 1) s]> (mw_heap w)) w) = w.
Proof.
  intros Hs Hr. unfold ducknng_session_release. cbn [refcount set_refcount]. destruct (Z.ltb_spec 0 (refcount s + 1)); [|lia].
  rewrite put_heap_put_heap. change (mw_heap (put_heap ?h w)) with h. rewrite insert_insert_eq.
  replace (set_refcount _ _) with s by (destruct s; unfold set_refcount; cbn; by rewrite Z.add_simpl_r). by apply put_heap_same.
Qed.

Lemma owned_refcount (w : world) h d l id s : world_ok w h d l -> mw_heap w !! id = Some s -> 0 <= refcount s.
Proof.
  intros Hw Hs. destruct (si_object _ _ _ _ (wo_sessions _ _ _ _ Hw) id s Hs) as (_ & _ & -> & _). apply refs_nonneg.
Qed.

(** The check of the family answers and leaves the world alone. *)
Lemma run_check_kind (w : world) h d l id token caller s up :
  world_ok w h d l -> id ∈ sessions (mw_sessions w) -> mw_heap w !! id = Some s ->
  ducknng_session_owner_auth s (Some token) caller = DUCKNNG_SESSION_AUTH_OK ->
  exists r, run (ducknng_session_check_kind id token caller up) w = Some (w, r) /\
    if Bool.eqb up (is_upload s) then r = None else exists text, r = Some (refuse DUCKNNG_STATUS_INVALID text).
Proof.
  intros Hw Hin Hs Ha. unfold ducknng_session_check_kind. rewrite (run_acquire w h d l id token caller s) by done.
  rewrite (run_peek _ id (set_refcount (refcount s + 1) s)) by (unfold mw_heap; cbn; by rewrite lookup_insert_eq).
  rewrite (run_release _ id (set_refcount (refcount s + 1) s)) by (unfold mw_heap; cbn; by rewrite lookup_insert_eq).
  rewrite (put_back w id s Hs) by (by eapply owned_refcount). cbn [run]. change (is_upload (set_refcount _ s)) with (is_upload s).
  eexists. split; [reflexivity|]. destruct up, (is_upload s); cbn; (done || by eexists).
Qed.

Lemma run_check_kind_refused (w : world) h d l id token caller up :
  world_ok w h d l ->
  (forall s, id ∈ sessions (mw_sessions w) -> mw_heap w !! id = Some s ->
     ducknng_session_owner_auth s (Some token) caller <> DUCKNNG_SESSION_AUTH_OK) ->
  exists auth, run (ducknng_session_check_kind id token caller up) w = Some (w, Some (not_found auth "ducknng: session not found")).
Proof.
  intros Hw Hno. unfold ducknng_session_check_kind.
  destruct (run_acquire_refused w h d l id token caller Hw Hno) as [auth E]. exists auth. by rewrite E.
Qed.

(** The gate of the methods that end a session. *)
Lemma query_gate (w : world) name state flags cancel req id token corr r :
  ducknng_parse_session_control_request (rc_frame req) (lit name) = inl (mk_control id token corr) ->
  run (ducknng_session_check_kind id token (rc_caller_identity req) false) w = Some (w, Some r) ->
  run (end_query name state flags cancel req) w = Some (w, r).
Proof. intros Hp Hk. unfold end_query. rewrite Hp, run_bind. cbn [c_session_id c_session_token]. by rewrite Hk. Qed.

Lemma upload_gate (w : world) name req k id token corr r :
  ducknng_parse_session_control_request (rc_frame req) (lit name) = inl (mk_control id token corr) ->
  run (ducknng_session_check_kind id token (rc_caller_identity req) true) w = Some (w, Some r) ->
  run (end_upload name req k) w = Some (w, r).
Proof. intros Hp Hk. unfold end_upload. rewrite Hp, run_bind. cbn [c_session_id c_session_token]. by rewrite Hk. Qed.

Lemma replying_run (p : prog world handled) w r : run p w = Some (w, r) -> run (replying p) w = Some (w, Some r).
Proof. intros H. unfold replying. by rewrite run_bind, H. Qed.
End others.

Lemma not_found_refused auth text : exists status why, not_found auth text = refuse status why /\
  (status = DUCKNNG_STATUS_NOT_FOUND \/ status = DUCKNNG_STATUS_UNAUTHORIZED).
Proof. unfold not_found. destruct (auth =? 0); eexists _, _; (split; [reflexivity|]); auto. Qed.

(** C9. Only the owner controls a session.  A fetch, close, cancel, append,
    commit or abort that names a session which is not there, or comes without
    its owner token or from another identity than the one that opened it, is
    answered with "not found" or "unauthorized" and changes nothing at all:
    no session, reference count, connection or stream.  Nor does the owner's
    own request for a session of the other family (a fetch, close or cancel of
    an upload, a commit or abort of a query), which is answered as invalid. *)
Theorem controls_need_owner {chunk} (w : @mworld chunk) h d l j id token caller :
  world_ok w h d l -> control_of j id token caller ->
  ((forall s, id ∈ sessions (mw_sessions w) -> mw_heap w !! id = Some s ->
      ducknng_session_owner_auth s (Some token) caller <> DUCKNNG_SESSION_AUTH_OK) ->
   exists status text, run (job_prog j) w = Some (w, Some (refuse status text)) /\
     (status = DUCKNNG_STATUS_NOT_FOUND \/ status = DUCKNNG_STATUS_UNAUTHORIZED)) /\
  (forall s, id ∈ sessions (mw_sessions w) -> mw_heap w !! id = Some s ->
     ducknng_session_owner_auth s (Some token) caller = DUCKNNG_SESSION_AUTH_OK -> wrong_family j s = true ->
   exists text, run (job_prog j) w = Some (w, Some (refuse DUCKNNG_STATUS_INVALID text))).
Proof.
  intros Hw Hc. split.
  - intros Hno. destruct (run_acquire_refused w h d l id token caller Hw Hno) as [auth Eacq].
    assert (exists au text, run (job_prog j) w = Some (w, Some (not_found au text))) as (au & text & ->).
    { pose proof (fun up => run_check_kind_refused w h d l id token caller up Hw Hno) as Ekind. destruct (Ekind false) as [a1 E1], (Ekind true) as [a2 E2].
      destruct Hc; cbn [job_prog]; eexists _, _; apply replying_run.
      - unfold ducknng_method_fetch_handler. by rewrite H, H0, Eacq.
      - by eapply query_gate.
      - by eapply query_gate.
      - unfold ducknng_method_upload_append_handler. cbv zeta. rewrite H, H0, Z.eqb_refl. cbn [negb]. by rewrite Eacq.
      - by eapply upload_gate.
      - by eapply upload_gate. }
    destruct (not_found_refused au text) as (st & why & -> & Hst). by exists st, why.
  - intros s Hin Hs Ha Hf. pose proof (fun up => run_check_kind w h d l id token caller s up Hw Hin Hs Ha) as Ekind.
    destruct (Ekind false) as (r1 & E1 & H1), (Ekind true) as (r2 & E2 & H2).
    destruct Hc; cbn [job_prog wrong_family] in *; try done; rewrite ?Hf in *; try apply negb_true_iff in Hf; rewrite ?Hf in *; cbn in H1, H2.
    + eexists. apply replying_run. unfold ducknng_method_fetch_handler. rewrite H, H0. cbn [c_session_id c_session_token].
      rewrite (run_acquire w h d l id token _ s) by done.
      rewrite (run_peek _ id (set_refcount (refcount s + 1) s)) by (unfold mw_heap; cbn; by rewrite lookup_insert_eq).
      change (is_upload (set_refcount _ s)) with (is_upload s). rewrite Hf.
      rewrite (run_release _ id (set_refcount (refcount s + 1) s)) by (unfold mw_heap; cbn; by rewrite lookup_insert_eq).
      rewrite (put_back w id s Hs) by (by eapply owned_refcount). reflexivity.
    + destruct H1 as [text ->]. exists text. apply replying_run. by eapply query_gate.
    + destruct H1 as [text ->]. exists text. apply replying_run. by eapply query_gate.
    + destruct H2 as [text ->]. exists text. apply replying_run. by eapply upload_gate.
    + destruct H2 as [text ->]. exists text. apply replying_run. by eapply upload_gate.
Qed.

(** The session of [demo_upload_open] and a stranger's fetch, and the owner's
    own fetch of it. *)
Definition demo_world : @mworld Z := fst (turns [0; 0; 0; 0]%nat demo_start).
Definition demo_stranger : ducknng_request_context :=
  demo_request "fetch" (default [] (ducknng_session_request_json_ex 1 (Some (lit "0123")) 0 0 None)).

Lemma controls_need_owner_witness :
  sessions (mw_sessions demo_world) = [1] /\
  (exists status text, run (job_prog (JFetch (fun _ _ _ => Err []) PendingReady 0 demo_fetch demo_stranger)) demo_world =
     Some (demo_world, Some (refuse status text))) /\
  exists text, run (job_prog (JFetch (fun _ _ _ => Err []) PendingReady 0 demo_fetch demo_fetch_request)) demo_world =
     Some (demo_world, Some (refuse DUCKNNG_STATUS_INVALID text)).
Proof.
  assert (exists h d l, world_ok demo_world h d l) as (h & d & l & Hw).
  { destruct (reached_ok (idle_world demo_server 8 4) [[demo_upload_open]; [demo_query_open]] (turns [0; 0; 0; 0]%nat demo_start))
      as (rs & Hrs & _); [apply idle_ok; vm_compute; [by split|done]|apply turns_steps|]. by eexists _, _, _. }
  assert (from_option (fun s => negb (ducknng_session_owner_auth s (Some (lit "0123")) None =? DUCKNNG_SESSION_AUTH_OK) &&
    (ducknng_session_owner_auth s (Some demo_owner) None =? DUCKNNG_SESSION_AUTH_OK) && is_upload s)%bool false
    (mw_heap demo_world !! 1) = true) as Hd by (vm_compute; reflexivity).
  destruct (mw_heap demo_world !! 1) as [s|] eqn:Hs; [|discriminate]. cbn in Hd.
  apply andb_true_iff in Hd as [[H1%negb_true_iff H2]%andb_true_iff H3]. apply Z.eqb_neq in H1. apply Z.eqb_eq in H2.
  split; [vm_compute; reflexivity|]. split.
  - edestruct (proj1 (controls_need_owner demo_world h d l _ 1 (lit "0123") None Hw
      (control_fetch (fun _ _ _ => Err []) PendingReady 0 demo_fetch demo_stranger 27 1 (lit "0123") None ltac:(vm_compute; reflexivity) ltac:(vm_compute; reflexivity))))
      as (st & text & E & _); [|by exists st, text]. intros s' _ Hs'. assert (s' = s) as -> by congruence. exact H1.
  - eapply (proj2 (controls_need_owner demo_world h d l _ 1 demo_owner None Hw
      (control_fetch (fun _ _ _ => Err []) PendingReady 0 demo_fetch demo_fetch_request 27 1 demo_owner None ltac:(vm_compute; reflexivity) ltac:(vm_compute; reflexivity))));
      [|exact Hs|exact H2|exact H3].
    replace (sessions (mw_sessions demo_world)) with [1] by (vm_compute; reflexivity). by left.
Defined.
