(* ===== verification/UploadRuns.v ===== *)
(** Uploads from open to commit, run undisturbed; and the targets an upload
    may name. *)

From stdpp Require Import gmap relations.
From S2P Require Import Prelude Checked Wire Util Registry Peers Session Dispatch Runtime Control Threads Methods Upload SessionThreads MethodRuns.

Section runs.
Context {chunk : Type}.
Abbreviation world := (@mworld chunk).
Abbreviation mprog := (prog world).

(** ** Taking a session out of the table *)

Lemma run_remove (w : world) h d l id token caller s :
  world_ok w h d l -> id ∈ sessions (mw_sessions w) -> mw_heap w !! id = Some s ->
  ducknng_session_owner_auth s (Some token) caller = DUCKNNG_SESSION_AUTH_OK ->
  exists t, (forall A (k : option Z * Z -> mprog A),
    run (pbind (remove id token caller) k) w = run (k (Some id, DUCKNNG_SESSION_AUTH_OK)) (put_sessions t w)) /\
  world_ok (put_sessions t w) h (id :: d) l /\ st_heap t !! id = Some (set_closing s) /\ id ∉ sessions t.
Proof.
  intros Hw Hin Hs Ha. pose proof (wo_sessions _ _ _ _ Hw) as Hinv.
  destruct (ducknng_service_remove_session (mw_sessions w) id (Some token) caller) as [[t p] auth] eqn:E.
  assert (p = Some id /\ auth = DUCKNNG_SESSION_AUTH_OK) as [-> ->].
  { unfold ducknng_service_remove_session in E. destruct (Z.eqb_spec id 0) as [->|_].
    { destruct (si_object _ _ _ _ Hinv 0 s Hs) as (_ & ? & _). lia. }
    destruct (find_index (points_to (mw_sessions w) id) _) as [i|] eqn:Ef;
      [|by pose proof (find_session_none _ _ _ _ _ Hinv Ef)].
    destruct (find_session _ _ _ _ _ _ Hinv Ef) as (Hi & s' & Hs' & _). unfold mw_heap in Hs. rewrite Hi in E. cbn in E.
    rewrite Hs' in E. assert (s' = s) as -> by congruence. rewrite Ha in E. cbn in E.
    destruct (inv_detach _ _ _ _ i id Hinv Hi) as (t' & Ed & _). rewrite Ed in E. by injection E as <- <- <-. }
  exists t. split; [intros A k; unfold remove; cbn; by rewrite E|].
  pose proof (world_remove _ _ _ _ _ _ _ _ _ _ Hw E) as Hw'. split; [exact Hw'|].
  destruct (remove_cases _ _ _ _ _ _ _ _ _ _ Hinv E) as [[? _]|(_ & i & s' & Hi & Hs' & _ & Ed)]; [done|].
  destruct (inv_detach _ _ _ _ i id Hinv Hi) as (t' & Ed' & _ & Eh & _). rewrite Ed in Ed'. injection Ed' as <-. split.
  - rewrite Eh. unfold mw_heap in Hs. by rewrite lookup_alter_eq, Hs.
  - pose proof (si_nodup _ _ _ _ (wo_sessions _ _ _ _ Hw')) as (_ & Hd & _)%NoDup_app. intros Hx. apply (Hd id Hx). by left.
Qed.

(** The world without the session at [p]. *)
Definition destroyed (p : Z) (s : ducknng_session) (w : world) : world :=
  let w := put_log ((fun c => (default 0 (session_con s), c)) <$> (ducknng_session_destroy s ≫= teardown_call))
              (put_heap (delete p (mw_heap w)) w) in
  if (session_svc s && negb (session_pool_index s =? SIZE_MAX))%bool
  then put_pool (ducknng_service_release_execution_connection (Some (Z.to_nat (session_pool_index s))) (mw_pool w)) w
  else w.

Lemma run_destroy (w : world) h d l p s :
  world_ok w h (p :: d) l -> mw_heap w !! p = Some s -> refcount s = 0 ->
  (forall A (k : unit -> mprog A), run (pbind (destroy p) k) w = run (k tt) (destroyed p s w)) /\ world_ok (destroyed p s w) h d l.
Proof.
  intros Hw Hp Hr. split; [|by eapply world_destroy]. intros A k. unfold destroy. cbn [run pbind atomic]. by rewrite Hp, Hr.
Qed.

(** ** An upload under way *)

(** An upload session: [rows] rows reported to the client, [all] rows in the
    open transaction of its connection, [stored] rows committed there. *)
Record uploading (w : world) (id : Z) (token : bytes) (caller : option bytes) (con : Z) (i : nat) (rows all stored : Z)
    (s : ducknng_session) : Prop := mk_uploading {
  up_member : id ∈ sessions (mw_sessions w);
  up_here : mw_heap w !! id = Some s;
  up_auth : ducknng_session_owner_auth s (Some token) caller = DUCKNNG_SESSION_AUTH_OK;
  up_family : is_upload s = true;
  up_appender : upload_appender_open s = true;
  up_txn : upload_txn_open s = true;
  up_rows : upload_rows (progress s) = rows;
  up_con : session_con s = Some con;
  up_index : session_pool_index s = Z.of_nat i;
  up_state : con_at con (mw_log w) = Some (mk_con true true rows all stored) }.

Lemma con_at_app con log calls : con_at con (log ++ ((fun c => (con, c)) <$> calls)) =
  con_at con log ≫= fun x => con_run x calls.
Proof. unfold con_at. by rewrite calls_of_app, calls_of_own, con_run_app. Qed.

Lemma region_log p s' calls str (w : world) : mw_log (put_region p s' calls str w) = mw_log w ++ calls.
Proof. by destruct str. Qed.

Lemma append_blind answer now : blind (@append_locked chunk answer now).
Proof.
  intros s str n. unfold append_locked, set_touch, set_upload, set_refcount. cbn -[refuse lit rows_text u64 ducknng_json_reply].
  destruct (negb (is_upload s) || _)%bool; [done|]. by destruct answer.
Qed.

(** The rows an append adds, all of them and the reported ones. *)
Definition added (answer : append_answer) : Z := match answer with Appended n => n | AppendFailed n _ => n end.
Definition reported (answer : append_answer) : Z := match answer with Appended n => n | AppendFailed _ _ => 0 end.

Definition append_reply (rows : Z) (answer : append_answer) : handled :=
  match answer with
  | Appended n => (0, ducknng_json_reply ducknng_method_reply_init 0 (rows_text "open" (rows + n)))
  | AppendFailed _ text => refuse DUCKNNG_STATUS_SQL_ERROR text
  end.

(** A request that appends to the session [id]. *)
Definition appends_to (id : Z) (token : bytes) (caller : option bytes) (req : ducknng_request_context) : Prop :=
  rc_caller_identity req = caller /\
  exists tok batch, ducknng_upload_append_parse_prefix (Some (f_payload (rc_frame req))) (f_payload_len (rc_frame req)) =
    Some (id, tok, zlen (c_text tok), batch) /\ c_text tok = token.

Lemma run_append w h d l id token caller con i rows all stored s answer now req :
  world_ok w h d l -> uploading w id token caller con i rows all stored s -> appends_to id token caller req ->
  0 <= rows -> 0 <= reported answer -> rows + reported answer <= UINT64_MAX ->
  exists w' s', run (ducknng_method_upload_append_handler answer now req) w = Some (w', append_reply rows answer) /\
    world_ok w' h d l /\ uploading w' id token caller con i (rows + reported answer) (all + added answer) stored s'.
Proof.
  intros Hw [Hin Hs Ha Hf Happ Htxn Hrows Hcon Hi Hst] (<- & tok & batch & Hp & <-) H0 Hn Hmax.
  unfold ducknng_method_upload_append_handler. cbv zeta. rewrite Hp, Z.eqb_refl. cbn [negb].
  rewrite (run_acquire w h d l id (c_text tok) _ s) by done.
  pose proof (run_worked w h d l id s (append_locked answer now) (append_blind answer now) (append_works answer now) Hw Hs) as Hrun.
  unfold append_locked at 1 in Hrun. cbn [is_upload upload_appender_open set_touch] in Hrun. rewrite Hf, Happ in Hrun. cbn [negb orb] in Hrun.
  destruct answer as [n|n text]; destruct Hrun as [Hrun Hw']; rewrite Hrun; cbn [append_reply reported added] in *.
  - change (upload_rows (progress (set_touch now s))) with (upload_rows (progress s)) in *. rewrite Hrows, u64_small in * by lia.
    eexists _, _. split; [reflexivity|]. split; [exact Hw'|]. split; [done|cbn; by rewrite lookup_insert_eq|done..|].
    rewrite region_log, Hcon. change (default 0 (Some con)) with con. rewrite con_at_app, Hst. cbn. by rewrite u64_small by lia.
  - eexists _, _. split; [reflexivity|]. split; [exact Hw'|]. rewrite Z.add_0_r. split; [done|cbn; by rewrite lookup_insert_eq|done..|].
    rewrite region_log, Hcon. change (default 0 (Some con)) with con. by rewrite con_at_app, Hst.
Qed.

(** ** The end of an upload *)

(** The error a commit reports. *)
Definition commit_error (a : commit_answers) : option bytes :=
  match ca_flush a, ca_close a with Some text, _ => Some text | None, Some text => Some text | None, None => ca_commit a end.

(** How an upload has ended: the session is gone, its connection is idle and
    holds [stored] committed rows. *)
Definition upload_ended (w : world) (id con : Z) (i : nat) (stored : Z) : Prop :=
  mw_heap w !! id = None /\ id ∉ sessions (mw_sessions w) /\ pool (mw_pool w) !! i = Some (con, false) /\
  exists x, con_at con (mw_log w) = Some x /\ x_txn x = false /\ x_app x = false /\ x_stored x = stored.

(** A detached upload session is destroyed, with its connection in the state [x]. *)
Lemma run_destroy_upload (w : world) h d l id s con i x :
  world_ok w h (id :: d) l -> mw_heap w !! id = Some s -> refcount s = 0 -> session_con s = Some con ->
  session_pool_index s = Z.of_nat i -> con_at con (mw_log w) = Some x ->
  exists w', (forall A (k : unit -> mprog A), run (pbind (destroy id) k) w = run (k tt) w') /\ world_ok w' h d l /\ upload_ended w' id con i (x_stored x).
Proof.
  intros Hw Hs Hr Hcon Hi Hx. destruct (run_destroy w h d l id s Hw Hs Hr) as [E Hw']. exists (destroyed id s w). split; [done|]. split; [done|].
  destruct (wo_wired _ _ _ _ Hw id s Hs) as (Hsvc & _ & Hidx & _).
  assert (view_of x = session_view s /\ pool (mw_pool w) !! i = Some (con, true)) as [Hv Hp].
  { pose proof (wo_connections _ _ _ _ Hw) as Hok. rewrite (heap_owners_take _ id s Hs) in Hok.
    unfold session_owner in Hok. rewrite Hcon, Hi, Nat2Z.id in Hok. split.
    - destruct (co_view _ _ _ Hok con i (session_view s)) as (x' & Hx' & Hv); [by left|]. congruence.
    - apply (pi_busy _ (co_pool _ _ _ Hok)). by left. }
  destruct (destroy_calls s x ltac:(by rewrite Hcon) Hv) as (x' & Hrun & Hclosed & Hst).
  unfold destroyed. rewrite Hsvc. assert ((session_pool_index s =? SIZE_MAX) = false) as -> by lia. cbn [andb negb]. cbv zeta.
  rewrite Hi, Nat2Z.id, Hcon. split; [by apply lookup_delete_eq|]. split.
  { cbn. pose proof (si_nodup _ _ _ _ (wo_sessions _ _ _ _ Hw)) as (_ & Hd & _)%NoDup_app. intros Hin. apply (Hd id Hin). by left. }
  split.
  - change (mw_pool (put_log _ _)) with (mw_pool w). unfold ducknng_service_release_execution_connection. rewrite Hp. cbn.
    by rewrite list_lookup_insert_eq by (by eapply lookup_lt_Some).
  - cbn [mw_log put_pool put_log put_heap put_sessions]. change (default 0 (Some con)) with con. rewrite con_at_app, Hx. cbn [mbind option_bind].
    exists x'. split; [done|]. by injection Hclosed.
Qed.

(** The region of a commit on a session that is open. *)
Lemma commit_open (a : commit_answers) s con (str : option (@stream chunk)) :
  upload_appender_open s = true -> upload_txn_open s = true -> session_con s = Some con ->
  let '(s', calls, str', r) := commit_locked a s str in
  str' = None /\ refcount s' = refcount s /\ session_con s' = Some con /\ session_pool_index s' = session_pool_index s /\
  r = (match commit_error a with Some text => inr text | None => inl (upload_rows (progress s)) end) /\
  forall rows all stored, exists x, con_run (mk_con true true rows all stored) calls = Some x /\
    x_stored x = match commit_error a with Some _ => stored | None => stored + all end.
Proof.
  intros Happ Htxn Hcon. unfold commit_locked, flush_calls, commit_calls, commit_error. rewrite Happ.
  destruct (ca_flush a), (ca_close a), (ca_commit a); cbn [set_upload upload_txn_open session_con]; rewrite ?Htxn, ?Hcon;
    cbn [bool_decide andb]; rewrite ?bool_decide_eq_true_2 by done; cbn [app set_upload refcount session_con session_pool_index];
    rewrite ?Hcon; repeat (split; [done|]); intros rows all stored; eexists; (split; [reflexivity|]); done.
Qed.

(** The session is checked and taken out of the table. *)
Lemma run_end_upload w h d l id token caller con i rows all stored s name req corr :
  world_ok w h d l -> id ∉ h -> uploading w id token caller con i rows all stored s ->
  ducknng_parse_session_control_request (rc_frame req) (lit name) = inl (mk_control id token corr) ->
  rc_caller_identity req = caller ->
  exists w1, (forall k, run (end_upload name req k) w = run (k id) w1) /\ world_ok w1 h (id :: d) l /\
    mw_heap w1 !! id = Some (set_closing s) /\ refcount s = 0 /\ mw_log w1 = mw_log w.
Proof.
  intros Hw Hid [Hin Hs Ha Hf Happ Htxn Hrows Hcon Hi Hst] Hp <-.
  destruct (run_check_kind w h d l id token _ s true Hw Hin Hs Ha) as (r & Hk & Hr). rewrite Hf in Hr. cbn in Hr. subst r.
  destruct (run_remove w h d l id token _ s Hw Hin Hs Ha) as (t & Hrun & Hw' & Ht & _). exists (put_sessions t w).
  split; [intros k; unfold end_upload; rewrite Hp, run_bind; cbn [c_session_id c_session_token]; by rewrite Hk, Hrun|]. split; [done|].
  split; [done|]. split; [|done]. destruct (si_object _ _ _ _ (wo_sessions _ _ _ _ Hw) id s Hs) as (_ & _ & -> & _).
  by apply refs_absent.
Qed.

Definition commit_reply (a : commit_answers) (rows : Z) : handled :=
  match commit_error a with
  | Some text => refuse DUCKNNG_STATUS_SQL_ERROR text
  | None => (0, ducknng_json_reply ducknng_method_reply_init DUCKNNG_RPC_FLAG_SESSION_CLOSED (rows_text "committed" rows))
  end.

Lemma run_commit w h d l id token caller con i rows all stored s a req corr :
  world_ok w h d l -> id ∉ h -> uploading w id token caller con i rows all stored s ->
  ducknng_parse_session_control_request (rc_frame req) (lit "upload_commit") = inl (mk_control id token corr) ->
  rc_caller_identity req = caller ->
  exists w', run (ducknng_method_upload_commit_handler a req) w = Some (w', commit_reply a rows) /\ world_ok w' h d l /\
    upload_ended w' id con i (match commit_error a with Some _ => stored | None => stored + all end).
Proof.
  intros Hw Hid Hup Hp Hc. pose proof Hup as [Hin Hs Ha Hf Happ Htxn Hrows Hcon Hi Hst]. unfold ducknng_method_upload_commit_handler.
  destruct (run_end_upload _ _ _ _ _ _ _ _ _ _ _ _ _ _ _ _ Hw Hid Hup Hp Hc) as (w1 & Hrun & Hw1 & Hs1 & Hr & Hlog). rewrite Hrun.
  rewrite (run_peek _ id _ _ _ Hs1). change (is_upload (set_closing s)) with (is_upload s). rewrite Hf. cbn [negb].
  rewrite (run_locked _ id _ _ _ Hs1). pose proof (commit_open a (set_closing s) con (mw_streams w1 !! id) Happ Htxn Hcon) as Hco.
  pose proof (commit_works a (set_closing s) (mw_streams w1 !! id)) as Hwk.
  destruct (commit_locked a (set_closing s) (mw_streams w1 !! id)) as [[[s' calls] str'] r].
  destruct Hco as (-> & Hr' & Hcon' & Hi' & -> & Hx). destruct (Hx rows all stored) as (x & Hx1 & Hx2).
  pose proof (region_ok _ _ _ _ _ _ _ _ None Hw1 Hs1 Hwk) as Hw2.
  change (default 0 (session_con (set_closing s))) with (default 0 (session_con s)) in *. rewrite Hcon in *.
  change (default 0 (Some con)) with con in *. cbn [fst snd].
  destruct (run_destroy_upload _ h d l id s' con i x Hw2) as (w3 & Hd & Hw3 & He); [by rewrite region_heap, lookup_insert_eq|by rewrite Hr'|done|by rewrite Hi'| |].
  - by rewrite region_log, Hlog, con_at_app, Hst.
  - exists w3. rewrite Hd. rewrite Hx2 in He. split; [|done]. cbn [run]. unfold commit_reply. rewrite <- Hrows. by destruct (commit_error a).
Qed.

Lemma run_abort w h d l id token caller con i rows all stored s req corr :
  world_ok w h d l -> id ∉ h -> uploading w id token caller con i rows all stored s ->
  ducknng_parse_session_control_request (rc_frame req) (lit "upload_abort") = inl (mk_control id token corr) ->
  rc_caller_identity req = caller ->
  exists w', run (ducknng_method_upload_abort_handler req) w =
      Some (w', (0, ducknng_json_reply ducknng_method_reply_init DUCKNNG_RPC_FLAG_SESSION_CLOSED (jlit "{'state':'aborted'}"))) /\
    world_ok w' h d l /\ upload_ended w' id con i stored.
Proof.
  intros Hw Hid Hup Hp Hc. pose proof Hup as [Hin Hs Ha Hf Happ Htxn Hrows Hcon Hi Hst]. unfold ducknng_method_upload_abort_handler.
  destruct (run_end_upload _ _ _ _ _ _ _ _ _ _ _ _ _ _ _ _ Hw Hid Hup Hp Hc) as (w1 & Hrun & Hw1 & Hs1 & Hr & Hlog). rewrite Hrun.
  destruct (run_destroy_upload w1 h d l id (set_closing s) con i _ Hw1 Hs1 Hr Hcon Hi ltac:(by rewrite Hlog)) as (w3 & Hd & Hw3 & He).
  exists w3. rewrite Hd. by split.
Qed.

(** ** Whole uploads *)

Definition rows_stored (con : Z) (w : world) : Z := from_option x_stored 0 (con_at con (mw_log w)).

(** Appends one after another, each with DuckDB's answer, its clock and its
    request, and the replies to them after [rows] rows. *)
Fixpoint appends (l : list (append_answer * Z * ducknng_request_context)) : mprog (list handled) :=
  match l with
  | [] => Ret []
  | (answer, now, req) :: l =>
    do r <- ducknng_method_upload_append_handler answer now req;
    do rs <- appends l;
    Ret (r :: rs)
  end.

Fixpoint append_replies (rows : Z) (answers : list append_answer) : list handled :=
  match answers with
  | [] => []
  | answer :: answers => append_reply rows answer :: append_replies (rows + reported answer) answers
  end.

Definition total (f : append_answer -> Z) (answers : list append_answer) : Z := foldr (fun a z => f a + z) 0 answers.

Lemma total_nonneg f answers : Forall (fun a => 0 <= f a) answers -> 0 <= total f answers.
Proof. induction 1 as [|a answers Ha _ IH]; [done|]. unfold total in *. cbn. lia. Qed.

Lemma run_appends bs : forall w h d l id token caller con i rows all stored s,
  world_ok w h d l -> uploading w id token caller con i rows all stored s -> 0 <= rows ->
  Forall (fun b => appends_to id token caller b.2) bs -> Forall (fun a => 0 <= reported a) (fst <$> (fst <$> bs)) ->
  rows + total reported (fst <$> (fst <$> bs)) <= UINT64_MAX ->
  exists w' s', run (appends bs) w = Some (w', append_replies rows (fst <$> (fst <$> bs))) /\ world_ok w' h d l /\
    uploading w' id token caller con i (rows + total reported (fst <$> (fst <$> bs))) (all + total added (fst <$> (fst <$> bs))) stored s'.
Proof.
  induction bs as [|[[answer now] req] bs IH]; intros w h d l id token caller con i rows all stored s Hw Hup H0 Hreq Hpos Hmax.
  { exists w, s. cbn. rewrite !Z.add_0_r. done. }
  rewrite !fmap_cons in *. cbn [fst] in *. apply Forall_cons in Hreq as [Hr Hreq]. apply Forall_cons in Hpos as [Hp Hpos].
  pose proof (total_nonneg _ _ Hpos). cbn [total foldr] in Hmax. fold (total reported (fst <$> (fst <$> bs))) in Hmax.
  destruct (run_append _ _ _ _ _ _ _ _ _ _ _ _ _ answer now req Hw Hup Hr H0 Hp ltac:(lia)) as (w1 & s1 & E1 & Hw1 & Hup1).
  destruct (IH _ _ _ _ _ _ _ _ _ _ _ _ _ Hw1 Hup1 ltac:(lia) Hreq Hpos ltac:(lia)) as (w2 & s2 & E2 & Hw2 & Hup2).
  exists w2, s2. cbn [appends]. rewrite run_bind, E1, run_bind, E2. split; [done|]. split; [done|].
  cbn [total foldr]. fold (total reported (fst <$> (fst <$> bs))) (total added (fst <$> (fst <$> bs))). by rewrite !Z.add_assoc.
Qed.

(** A successful open begins a transaction with an appender. *)
Lemma run_upload_open w h d l idle a e req json target cat sch tbl cols load :
  world_ok w h d l -> good w -> ducknng_copy_payload_json (rc_frame req) = Some json ->
  ducknng_json_extract_string_dup json (lit "target_table") = Some target ->
  nonempty (ducknng_json_extract_string_dup json (lit "mode")) = false \/
    ducknng_json_extract_string_dup json (lit "mode") = Some (lit "append") ->
  ducknng_upload_split_target (Some target) = Ok (cat, sch, tbl) ->
  pool_has_room (mw_pool w) = true -> ua_begin a = None -> ua_appender a = None ->
  ua_columns a (upload_columns_sql cat sch tbl) = Ok cols ->
  session_admission (sv_limits (mw_server w)) (sv_shutting_down (mw_server w)) (mw_sessions w) (sv_load (mw_server w))
    (rc_caller_identity req) (e_now e) = (load, None) ->
  let id := next_session_id (mw_sessions w) in
  let token := ducknng_session_generate_owner_token (e_token e) in
  exists w1 s1 con i,
    run (ducknng_method_upload_open_handler idle true a e req) w =
      Some (w1, ducknng_session_state_reply DUCKNNG_RPC_FLAG_SESSION_OPEN
        (upload_view id idle token (ducknng_json_extract_string_dup json (lit "correlation_id")))) /\
    world_ok w1 h d l /\ uploading w1 id token (rc_caller_identity req) con i 0 0 (rows_stored con w) s1.
Proof.
  intros Hw Hg Hjson Htarget Hmode Hsplit Hroom Hbegin Happ Hcols Hadm id token.
  destruct (lease_room _ Hroom) as (pl & con & i & Hl).
  pose proof (world_lease w h d l true pl (Some (con, i)) Hw Hl) as Hw1. cbn in Hw1.
  destruct (co_view _ _ _ (wo_connections _ _ _ _ Hw1) con i closed_view) as (x & Hx & Hxv); [apply elem_of_app; right; by left|].
  change (mw_log (put_pool pl w)) with (mw_log w) in Hx.
  assert (con_run x [DbBegin; DbCreateAppender] = Some (mk_con true true 0 0 (x_stored x))) as Hrun.
  { destruct x as [t p r q st]. unfold view_of, closed_view in Hxv. cbn in Hxv. by injection Hxv as -> -> _. }
  assert ((nonempty (ducknng_json_extract_string_dup json (lit "mode")) &&
    negb (str_eq (default [] (ducknng_json_extract_string_dup json (lit "mode"))) (lit "append")))%bool = false) as Hm.
  { destruct Hmode as [->| ->]; [done|]. reflexivity. }
  unfold ducknng_method_upload_open_handler. rewrite Hjson, Htarget, Hm, Hsplit. cbv zeta.
  destruct target as [|c target]; [by vm_compute in Hsplit|].
  rewrite run_bind. unfold lease at 1. cbn [run atomic]. rewrite Hl, Hbegin.
  rewrite run_bind. unfold call at 1. cbn [run atomic]. rewrite Happ. rewrite run_bind. unfold call at 1. cbn [run atomic]. rewrite Hcols.
  rewrite run_bind. unfold add_upload at 1. cbn [run atomic].
  set (w2 := put_log ((fun c => (con, c)) <$> [DbCreateAppender]) (put_log ((fun c => (con, c)) <$> [DbBegin]) (put_pool pl w))).
  assert (world_ok w2 h d ((con, i, upload_started) :: l)) as Hw2.
  { subst w2. eapply world_call; [eapply world_call; [exact Hw1|apply view_begin]|apply view_appender]. }
  change (mw_server w2) with (mw_server w). fold (mw_sessions w).
  destruct (ducknng_service_add_upload_session _ _ _ _ _ _ _ _ _ _ _ _ _) as [[t load'] r] eqn:E.
  unfold ducknng_service_add_upload_session in E. cbn [negb] in E. pose proof E as E'.
  pose proof (world_add w2 h d l con i _ _ _ (Some (Some (c :: target), match cols with [] => None | _ => Some cols end)) _ _ _ _ _ _ _ _ _ Hw2 Hg E') as Hw3.
  unfold ducknng_service_add_session_full in E. change (mw_sessions w2) with (mw_sessions w) in *.
  change (mw_server w2) with (mw_server w) in *. unfold mw_sessions in *. rewrite Hadm in E.
  unfold ducknng_session_create_streaming in E. rewrite token_nonempty in E. cbn [negb] in E. injection E as <- <- <-.
  eexists _, _, con, i. split; [reflexivity|]. split; [by eapply world_same|].
  split; [cbn; apply elem_of_app; right; by left|cbn; by rewrite lookup_insert_eq|by apply owner_auth_owner|done..|].
  cbn [mw_log w2 put_log]. rewrite <- app_assoc, <- fmap_app. cbn [app]. change (mw_log (put_pool pl w)) with (mw_log w).
  rewrite con_at_app, Hx. cbn [mbind option_bind]. rewrite Hrun. unfold rows_stored. by rewrite Hx.
Qed.
End runs.

(** C8. An upload is all or nothing.  Where DuckDB answers the open, it
    replies with a fresh session id and the owner token; appends are answered
    with the running total of the rows reported so far, or with DuckDB's error;
    a commit that DuckDB carries out reports that total and stores every row
    that reached the appender, the rows of failed appends included, and a
    commit that fails at any of its three steps, like an abort, stores
    nothing.  Either way the session is gone and its connection is idle, with
    no transaction and no appender. *)
Theorem upload_atomic {chunk} (w : @mworld chunk) h d l idle a e req json target cat sch tbl cols load bs :
  world_ok w h d l -> good w -> ducknng_copy_payload_json (rc_frame req) = Some json ->
  ducknng_json_extract_string_dup json (lit "target_table") = Some target ->
  nonempty (ducknng_json_extract_string_dup json (lit "mode")) = false \/
    ducknng_json_extract_string_dup json (lit "mode") = Some (lit "append") ->
  ducknng_upload_split_target (Some target) = Ok (cat, sch, tbl) ->
  pool_has_room (mw_pool w) = true -> ua_begin a = None -> ua_appender a = None ->
  ua_columns a (upload_columns_sql cat sch tbl) = Ok cols ->
  session_admission (sv_limits (mw_server w)) (sv_shutting_down (mw_server w)) (mw_sessions w) (sv_load (mw_server w))
    (rc_caller_identity req) (e_now e) = (load, None) ->
  let id := next_session_id (mw_sessions w) in
  let token := ducknng_session_generate_owner_token (e_token e) in
  let caller := rc_caller_identity req in
  let answers := fst <$> (fst <$> bs) in
  Forall (fun b => appends_to id token caller b.2) bs -> Forall (fun a => 0 <= reported a) answers ->
  total reported answers <= UINT64_MAX ->
  exists w1 w2 con i,
    run (ducknng_method_upload_open_handler idle true a e req) w =
      Some (w1, ducknng_session_state_reply DUCKNNG_RPC_FLAG_SESSION_OPEN
        (upload_view id idle token (ducknng_json_extract_string_dup json (lit "correlation_id")))) /\
    run (appends bs) w1 = Some (w2, append_replies 0 answers) /\
    (forall ca creq corr, rc_caller_identity creq = caller ->
       ducknng_parse_session_control_request (rc_frame creq) (lit "upload_commit") = inl (mk_control id token corr) ->
       exists w3, run (ducknng_method_upload_commit_handler ca creq) w2 = Some (w3, commit_reply ca (total reported answers)) /\
         upload_ended w3 id con i (match commit_error ca with Some _ => rows_stored con w | None => rows_stored con w + total added answers end)) /\
    (forall areq corr, rc_caller_identity areq = caller ->
       ducknng_parse_session_control_request (rc_frame areq) (lit "upload_abort") = inl (mk_control id token corr) ->
       exists w3 r, run (ducknng_method_upload_abort_handler areq) w2 = Some (w3, r) /\ upload_ended w3 id con i (rows_stored con w)).
Proof.
  intros Hw Hg Hjson Htarget Hmode Hsplit Hroom Hbegin Happ Hcols Hadm id token caller answers Hreq Hpos Hmax.
  destruct (run_upload_open w h d l idle a e req json target cat sch tbl cols load Hw Hg Hjson Htarget Hmode Hsplit Hroom Hbegin Happ
    Hcols Hadm) as (w1 & s1 & con & i & Hopen & Hw1 & Hup1).
  destruct (run_appends bs _ _ _ _ _ _ _ _ _ _ _ _ _ Hw1 Hup1 ltac:(lia) Hreq Hpos ltac:(done)) as (w2 & s2 & Happs & Hw2 & Hup2).
  assert (id ∉ h) as Hid.
  { intros Hin. destruct (si_held _ _ _ _ (wo_sessions _ _ _ _ Hw) id Hin) as [s Hs].
    destruct (si_object _ _ _ _ (wo_sessions _ _ _ _ Hw) id s Hs) as (_ & ? & _). subst id. lia. }
  exists w1, w2, con, i. split; [done|]. split; [done|]. split.
  - intros ca creq corr Hc Hp. destruct (run_commit _ _ _ _ _ _ _ _ _ _ _ _ _ ca creq corr Hw2 Hid Hup2 Hp Hc) as (w3 & E & _ & He).
    exists w3. by split.
  - intros areq corr Hc Hp. destruct (run_abort _ _ _ _ _ _ _ _ _ _ _ _ _ areq corr Hw2 Hid Hup2 Hp Hc) as (w3 & E & _ & He).
    eexists w3, _. by split.
Qed.

(** Two batches, of which the second fails after a row, and a commit. *)
Definition demo_upload_request : ducknng_request_context := demo_request "upload_open" (jlit "{'target_table':'main.t'}").
Definition demo_batch : ducknng_request_context :=
  demo_request "upload_append" ([1; 0; 0; 0; 0; 0; 0; 0] ++ [32; 0] ++ demo_owner ++ [9]).
Definition demo_commit : ducknng_request_context :=
  demo_request "upload_commit" (default [] (ducknng_session_request_json_ex 1 (Some demo_owner) 0 0 None)).

Lemma upload_atomic_witness :
  exists w1 w2 con i, run (ducknng_method_upload_open_handler 1000 true (mk_upload_answers None None (fun _ => Ok [lit "x"])) (demo_entropy 5)
      demo_upload_request) (@idle_world Z demo_server 8 4) = Some w1 /\
    run (appends [(Appended 2, 6, demo_batch); (AppendFailed 1 (lit "bad row"), 7, demo_batch)]) (fst w1) = Some w2 /\
    exists w3, run (ducknng_method_upload_commit_handler (mk_commit_answers None None None) demo_commit) (fst w2) =
      Some (w3, commit_reply (mk_commit_answers None None None) 2) /\ upload_ended w3 1 con i 3.
Proof.
  destruct (upload_atomic (@idle_world Z demo_server 8 4) [] [] [] 1000 (mk_upload_answers None None (fun _ => Ok [lit "x"])) (demo_entropy 5)
    demo_upload_request (jlit "{'target_table':'main.t'}") (lit "main.t") None (Some (lit "main")) (lit "t") [lit "x"] (sv_load demo_server)
    [(Appended 2, 6, demo_batch); (AppendFailed 1 (lit "bad row"), 7, demo_batch)]) as (w1 & w2 & con & i & H1 & H2 & H3 & _).
  - apply idle_ok; vm_compute; [by split|done].
  - reflexivity.
  - vm_compute. reflexivity.
  - vm_compute. reflexivity.
  - left. vm_compute. reflexivity.
  - vm_compute. reflexivity.
  - reflexivity.
  - reflexivity.
  - reflexivity.
  - reflexivity.
  - vm_compute. reflexivity.
  - assert (appends_to 1 demo_owner None demo_batch) as H; [|apply Forall_cons; split; [exact H|]; apply Forall_cons; split; [exact H|apply Forall_nil_2]].
    split; [done|]. eexists demo_owner, _. split; vm_compute; reflexivity.
  - repeat constructor; vm_compute; discriminate.
  - vm_compute. discriminate.
  - destruct (H3 (mk_commit_answers None None None) demo_commit None) as (w3 & E & He); [reflexivity|vm_compute; reflexivity|].
    eexists (w1, _), (w2, _), con, i. split; [exact H1|]. split; [exact H2|]. exists w3. split; [exact E|].
    exact He.
Defined.

(** ** Targets *)

(** Parts joined by dots. *)
Fixpoint dotted (parts : list bytes) : bytes :=
  match parts with
  | [] => []
  | [p] => p
  | p :: parts => p ++ chr "." :: dotted parts
  end.

Lemma break_at_inv c p part rest : break_at c p = (part, rest) ->
  c ∉ part /\ p = part ++ from_option (cons c) [] rest.
Proof.
  revert part rest. induction p as [|x p IH]; intros part rest; cbn [break_at].
  { intros [= <- <-]. split; [by intros ?%elem_of_nil|done]. }
  destruct (Z.eqb_spec x c) as [->|Hne].
  { intros [= <- <-]. split; [by intros ?%elem_of_nil|done]. }
  destruct (break_at c p) as [a b]. intros [= <- <-]. destruct (IH a b eq_refl) as [H1 H2]. split.
  - intros [->|Hin]%elem_of_cons; done.
  - cbn. by rewrite <- H2.
Qed.

Lemma split_parts_spec fuel : forall p parts, Forall (fun s => chr "." ∉ s) parts ->
  split_parts fuel p = Some parts <-> parts <> [] /\ (length parts <= fuel)%nat /\ p = dotted parts.
Proof.
  induction fuel as [|fuel IH]; intros p parts Hp; cbn [split_parts].
  { split; [done|]. intros (? & Hl & _). by destruct parts; cbn in Hl; [|lia]. }
  split.
  - destruct (break_at (chr ".") p) as [part [rest|]] eqn:E; destruct (break_at_inv _ _ _ _ E) as [_ ->]; cbn [from_option].
    + destruct (split_parts fuel rest) as [ps|] eqn:Es; [|done]. intros <-%(inj Some). apply Forall_cons in Hp as [_ Hp].
      apply (IH rest ps Hp) in Es as (Hne & Hl & ->). split; [done|]. split; [cbn; lia|]. by destruct ps.
    + intros <-%(inj Some). split; [done|]. split; [cbn; lia|]. by rewrite app_nil_r.
  - intros (Hne & Hl & ->). destruct parts as [|part parts]; [done|]. apply Forall_cons in Hp as [Hx Hp]. cbn in Hl.
    destruct parts as [|q parts]; [cbn [dotted]; by rewrite break_at_none|].
    change (dotted (part :: q :: parts)) with (part ++ chr "." :: dotted (q :: parts)). rewrite break_at_skip by done.
    rewrite (proj2 (IH (dotted (q :: parts)) (q :: parts) Hp)); [done|]. split; [done|]. split; [cbn in *; lia|done].
Qed.

Lemma split_parts_plain fuel : forall p parts, split_parts fuel p = Some parts -> Forall (fun s => chr "." ∉ s) parts.
Proof.
  induction fuel as [|fuel IH]; intros p parts; cbn [split_parts]; [done|].
  destruct (break_at (chr ".") p) as [part [rest|]] eqn:E; destruct (break_at_inv _ _ _ _ E) as [Hd _].
  - destruct (split_parts fuel rest) as [ps|] eqn:Es; [|done]. intros <-%(inj Some). constructor; [done|]. by eapply IH.
  - intros <-%(inj Some). by repeat constructor.
Qed.

Lemma ident_plain s c : ducknng_upload_ident_ok s = true -> c ∈ s -> ident_char c = true.
Proof.
  destruct s as [|x s]; [done|]. cbn. intros [Hx Hs]%andb_true_iff [->|Hin]%elem_of_cons.
  - unfold ident_char. by rewrite Hx.
  - rewrite forallb_forall in Hs. apply Hs. by apply list_elem_of_In.
Qed.

Lemma ident_dots parts : Forall (fun s => ducknng_upload_ident_ok s = true) parts -> Forall (fun s => chr "." ∉ s) parts.
Proof. intros H. eapply Forall_impl; [exact H|]. intros s Hs Hin. by pose proof (ident_plain s _ Hs Hin). Qed.

(** Catalog, schema and table as the parts of a target. *)
Definition target_parts (cat sch : option bytes) (tbl : bytes) : list bytes := option_list cat ++ option_list sch ++ [tbl].

(** A target is accepted exactly if it is one, two or three identifiers
    joined by dots, which are then the table, the schema with the table, or
    the catalog with both; and no part of an accepted target contains a quote,
    so that the quoted query for its columns names that table and nothing
    else. *)
Theorem upload_target_exact t cat sch tbl :
  (ducknng_upload_split_target (Some t) = Ok (cat, sch, tbl) <->
   t = dotted (target_parts cat sch tbl) /\ (sch = None -> cat = None) /\
   Forall (fun s => ducknng_upload_ident_ok s = true) (target_parts cat sch tbl)) /\
  (ducknng_upload_split_target (Some t) = Ok (cat, sch, tbl) -> Forall (fun s => QUOTE ∉ s) (target_parts cat sch tbl)).
Proof.
  assert (ducknng_upload_split_target (Some t) = Ok (cat, sch, tbl) <->
   t = dotted (target_parts cat sch tbl) /\ (sch = None -> cat = None) /\
   Forall (fun s => ducknng_upload_ident_ok s = true) (target_parts cat sch tbl)) as Hiff.
  { unfold ducknng_upload_split_target. change (default [] (Some t)) with t. split.
    - destruct (split_parts 3 t) as [parts|] eqn:E; [|done]. pose proof (split_parts_plain _ _ _ E) as Hdots.
      apply (split_parts_spec 3 t parts Hdots) in E as (_ & _ & ->).
      destruct (forallb ducknng_upload_ident_ok parts) eqn:Ei; cbn [negb]; [|done].
      assert (Forall (fun s => ducknng_upload_ident_ok s = true) parts) as Hall
        by (apply Forall_forall; intros s Hs; rewrite forallb_forall in Ei; apply Ei; by apply list_elem_of_In).
      destruct parts as [|p1 [|p2 [|p3 [|]]]]; try done; intros [= <- <- <-]; done.
    - intros (-> & Hc & Hall). pose proof (ident_dots _ Hall) as Hdots.
      assert (split_parts 3 (dotted (target_parts cat sch tbl)) = Some (target_parts cat sch tbl)) as ->.
      { apply split_parts_spec; [done|]. split; [by destruct cat, sch|]. split; [|done]. destruct cat, sch; cbn; lia. }
      assert (forallb ducknng_upload_ident_ok (target_parts cat sch tbl) = true) as ->.
      { apply forallb_forall. intros s Hs%list_elem_of_In. rewrite Forall_forall in Hall. by apply Hall. }
      cbn [negb]. destruct cat, sch; try done. by specialize (Hc eq_refl). }
  split; [exact Hiff|]. intros (_ & _ & Hall)%Hiff. eapply Forall_impl; [exact Hall|]. intros s Hs Hin.
  by pose proof (ident_plain s _ Hs Hin).
Qed.

Lemma upload_target_exact_witness :
  ducknng_upload_split_target (Some (lit "main.t_1")) = Ok (None, Some (lit "main"), lit "t_1") /\
  Forall (fun s => QUOTE ∉ s) [lit "main"; lit "t_1"].
Proof.
  split; [vm_compute; reflexivity|].
  apply (proj2 (upload_target_exact (lit "main.t_1") None (Some (lit "main")) (lit "t_1"))). vm_compute. reflexivity.
Defined.
