(* ===== verification/Exec.v ===== *)
(** Requests that run SQL at once: [exec] and [query_prepare] of
    [src/src/ducknng_methods.c], and the execution scope of
    [src/src/ducknng_service.c] they run in.

    A scope serialises SQL on the connection of the runtime, on the connection
    of the service, or takes a connection of its own from the pool, and binds
    the subject of the request to that connection.  A mutex is a flag; taking
    one that is taken waits, which is [None].  DuckDB's answers are arguments;
    [xe_trace] records what it was asked to do.  The Arrow encoders are
    parameters. *)

From stdpp Require Import gmap.
From S2P Require Import Prelude Wire Util Registry Dispatch Runtime Control.

(** ** The execution scope *)

Definition DUCKNNG_EXECUTION_SHARED_SERIALIZED_CONNECTION : Z := 1.
Definition DUCKNNG_EXECUTION_SERVICE_SERIALIZED_CONNECTION : Z := 2.
Definition DUCKNNG_EXECUTION_REQUEST_CONNECTION : Z := 3.

Inductive sql_event := Extracted | Prepared | Bound (i : Z) | Executed.

#[export] Instance sql_event_eq_dec : EqDecision sql_event.
Proof. solve_decision. Defined.

(** [xe_service_con] is the connection the service keeps, with its index in
    the pool. *)
Record exec_state := mk_exec {
  xe_lane : bool; xe_lane_con : option Z;
  xe_service_mu : bool; xe_service_mu_ready : bool; xe_service_con : option (Z * nat);
  xe_pool : execution_pool; xe_subjects : subject_table; xe_request : bool;
  xe_trace : list (Z * sql_event) }.

Record ducknng_service_sql_scope := mk_scope {
  sc_con : option Z; sc_own : option nat; sc_locked_runtime : bool; sc_locked_service : bool; sc_subject : option Z }.

Definition set_lane (b : bool) (s : exec_state) : exec_state :=
  mk_exec b (xe_lane_con s) (xe_service_mu s) (xe_service_mu_ready s) (xe_service_con s) (xe_pool s) (xe_subjects s)
    (xe_request s) (xe_trace s).
Definition set_service_mu (b : bool) (s : exec_state) : exec_state :=
  mk_exec (xe_lane s) (xe_lane_con s) b (xe_service_mu_ready s) (xe_service_con s) (xe_pool s) (xe_subjects s)
    (xe_request s) (xe_trace s).
Definition set_service_con (c : option (Z * nat)) (s : exec_state) : exec_state :=
  mk_exec (xe_lane s) (xe_lane_con s) (xe_service_mu s) (xe_service_mu_ready s) c (xe_pool s) (xe_subjects s)
    (xe_request s) (xe_trace s).
Definition set_exec_pool (p : execution_pool) (s : exec_state) : exec_state :=
  mk_exec (xe_lane s) (xe_lane_con s) (xe_service_mu s) (xe_service_mu_ready s) (xe_service_con s) p (xe_subjects s)
    (xe_request s) (xe_trace s).
Definition set_subjects (t : subject_table) (s : exec_state) : exec_state :=
  mk_exec (xe_lane s) (xe_lane_con s) (xe_service_mu s) (xe_service_mu_ready s) (xe_service_con s) (xe_pool s) t
    (xe_request s) (xe_trace s).
Definition set_request (b : bool) (s : exec_state) : exec_state :=
  mk_exec (xe_lane s) (xe_lane_con s) (xe_service_mu s) (xe_service_mu_ready s) (xe_service_con s) (xe_pool s) (xe_subjects s)
    b (xe_trace s).
Definition log_sql (con : Z) (es : list sql_event) (s : exec_state) : exec_state :=
  mk_exec (xe_lane s) (xe_lane_con s) (xe_service_mu s) (xe_service_mu_ready s) (xe_service_con s) (xe_pool s) (xe_subjects s)
    (xe_request s) (xe_trace s ++ ((fun e => (con, e)) <$> es)).

Definition ducknng_service_leave_request_sql (sc : ducknng_service_sql_scope) (s : exec_state) : exec_state :=
  let s := match sc_subject sc with
    | Some id => set_subjects (ducknng_runtime_execution_subject_unbind_connection id (xe_subjects s)) s
    | None => s end in
  let s := set_request false s in
  let s := match sc_own sc with
    | Some i => set_exec_pool (ducknng_service_release_execution_connection (Some i) (xe_pool s)) s
    | None => s end in
  let s := if (sc_locked_service sc && xe_service_mu_ready s)%bool then set_service_mu false s else s in
  if sc_locked_runtime sc then set_lane false s else s.

(** What the scope depends on: the model of the service, DuckDB's answer to
    one more connection, the subject of the request, and the ids of
    connections. *)
Record scope_env := mk_scope_env {
  se_model : Z; se_connect : option Z; se_subject : option bytes; se_con_id : Z -> option Z }.

Definition scope_failure : Type := bytes.

(** The connection of the scope, the locks it takes and the state. *)
Definition scope_connection (e : scope_env) (s : exec_state)
    : option (exec_state * result scope_failure ducknng_service_sql_scope) :=
  let model := if se_model e =? 0 then DUCKNNG_EXECUTION_SHARED_SERIALIZED_CONNECTION else se_model e in
  let exhausted := Err (lit "ducknng: DuckDB execution connection pool exhausted") in
  if model =? DUCKNNG_EXECUTION_SHARED_SERIALIZED_CONNECTION then
    if xe_lane s then None else
    Some (set_lane true s, Ok (mk_scope (xe_lane_con s) None true false None))
  else if model =? DUCKNNG_EXECUTION_SERVICE_SERIALIZED_CONNECTION then
    if negb (xe_service_mu_ready s) then Some (s, Err (lit "ducknng: missing service execution mutex")) else
    if xe_service_mu s then None else
    match xe_service_con s with
    | Some (con, _) => Some (set_service_mu true s, Ok (mk_scope (Some con) None false true None))
    | None =>
      match acquire_round (se_connect e) (xe_pool s) with
      | (p, Some (con, i)) =>
        Some (set_exec_pool p (set_service_con (Some (con, i)) (set_service_mu true s)), Ok (mk_scope (Some con) None false true None))
      | (_, None) => Some (s, exhausted)
      end
    end
  else if model =? DUCKNNG_EXECUTION_REQUEST_CONNECTION then
    match acquire_round (se_connect e) (xe_pool s) with
    | (p, Some (con, i)) => Some (set_exec_pool p s, Ok (mk_scope (Some con) (Some i) false false None))
    | (_, None) => Some (s, exhausted)
    end
  else Some (s, Err (lit "ducknng: invalid service execution model")).

Definition ducknng_service_enter_request_sql (e : scope_env) (s : exec_state)
    : option (exec_state * result scope_failure (Z * ducknng_service_sql_scope)) :=
  match scope_connection e s with
  | None => None
  | Some (s, Err text) => Some (s, Err text)
  | Some (s, Ok sc) =>
    match sc_con sc with
    | None => Some (ducknng_service_leave_request_sql sc s, Err (lit "ducknng: missing DuckDB execution connection"))
    | Some con =>
      let s := set_request true s in
      match (if nonempty (se_subject e) then se_con_id e con else None) with
      | Some id =>
        match ducknng_runtime_execution_subject_bind_connection id (se_subject e) (xe_subjects s) with
        | Some t => Some (set_subjects t s, Ok (con, mk_scope (sc_con sc) (sc_own sc) (sc_locked_runtime sc) (sc_locked_service sc) (Some id)))
        | None => Some (s, Ok (con, sc))
        end
      | None => Some (s, Ok (con, sc))
      end
    end
  end.

(** ** Statements *)

(** DuckDB's answers, in the order of the calls.  A missing error text is
    [Some []] of an [option]. *)
Record sql_answers := mk_sql_answers {
  sa_statements : Z; sa_extract_error : option bytes;
  sa_prepare_error : option (option bytes);
  sa_nparams : Z; sa_bind_fails : option Z;
  sa_execute_error : option (option bytes);
  sa_returns_rows : bool; sa_stmt_type : Z; sa_result_type : Z; sa_rows_changed : Z }.

(** The binding loop from parameter [i], of [n] in all. *)
Fixpoint bind_loop (fuel : nat) (i : Z) (fails : option Z) : list sql_event * option bytes :=
  match fuel with
  | O => ([], None)
  | S fuel =>
    if bool_decide (fails = Some i)
    then ([], Some (lit "ducknng: failed to bind SQL parameter " ++ print_llu (i + 1)))
    else let (es, err) := bind_loop fuel (i + 1) fails in (Bound (i + 1) :: es, err)
  end.

Definition ducknng_bind_sql_parameters (a : sql_answers) (parameter_count : Z) : list sql_event * option bytes :=
  if negb (sa_nparams a =? parameter_count)
  then ([], Some (lit "ducknng: SQL expects " ++ print_llu (sa_nparams a) ++ lit " parameter(s), request supplied " ++
                  print_llu parameter_count))
  else bind_loop (Z.to_nat (sa_nparams a)) 0 (sa_bind_fails a).

Definition ducknng_bind_query_parameters (a : sql_answers) (parameter_count : Z) : list sql_event * option bytes :=
  ducknng_bind_sql_parameters a parameter_count.

Definition given_text (detail : option bytes) (dflt : string) : bytes :=
  if nonempty detail then default [] detail else lit dflt.

(** The events, and the error or the executed statement. *)
Definition ducknng_execute_parameterized_sql (a : sql_answers) (sql : bytes) (parameter_count : Z)
    : list sql_event * option bytes :=
  if bool_decide (sql = []) then ([], Some (lit "ducknng: invalid parameterized exec context")) else
  if negb (sa_statements a =? 1) then
    ([Extracted], Some (given_text (if sa_statements a =? 0 then sa_extract_error a else None)
       "ducknng: parameterized exec requires exactly one SQL statement"))
  else
  match sa_prepare_error a with
  | Some detail => ([Extracted], Some (default (lit "ducknng: failed to prepare parameterized exec statement") detail))
  | None =>
    let (es, err) := ducknng_bind_sql_parameters a parameter_count in
    match err with
    | Some text => (Extracted :: Prepared :: es, Some text)
    | None =>
      match sa_execute_error a with
      | Some detail => (Extracted :: Prepared :: es, Some (given_text detail "ducknng: parameterized exec failed"))
      | None => (Extracted :: Prepared :: es ++ [Executed], None)
      end
    end
  end.

(** ** Handlers *)

Record ducknng_exec_request := mk_exec_request { x_sql : bytes; x_want_result : bool; x_parameter_count : Z }.

Section handlers.
(** The Arrow encoders: of a result, of the metadata of a statement, and of
    the schema of a prepared statement. *)
Context (result_to_ipc schema_to_ipc : result (option bytes) (bytes * Z))
        (metadata_to_ipc : Z -> Z -> Z -> result (option bytes) (bytes * Z)).

Definition ducknng_query_to_ipc_stream (a : sql_answers) (sql : bytes) : list sql_event * result (option bytes) (bytes * Z) :=
  if bool_decide (sql = []) then ([], Err (Some (lit "ducknng: invalid query_to_ipc_stream arguments"))) else
  match sa_execute_error a with
  | Some detail => ([], Err (Some (given_text detail "ducknng: query failed")))
  | None =>
    ([Executed],
     if negb (sa_returns_rows a) then Err (Some (lit "ducknng: query_to_ipc_stream requires a row-returning query"))
     else result_to_ipc)
  end.

Definition rows_reply (payload : bytes * Z) : handled :=
  (0, ducknng_method_reply_set_payload ducknng_method_reply_init DUCKNNG_RPC_RESULT
        (Z.lor DUCKNNG_RPC_FLAG_RESULT_ROWS DUCKNNG_RPC_FLAG_PAYLOAD_ARROW_STREAM) (Some (fst payload)) (snd payload)).

(** The answer to a statement without rows wanted. *)
Definition metadata_reply (a : sql_answers) (oom : string) : handled :=
  if sa_returns_rows a
  then refuse DUCKNNG_STATUS_SQL_ERROR (lit "ducknng: EXEC result requires want_result = true") else
  match metadata_to_ipc (sa_rows_changed a) (sa_stmt_type a) (sa_result_type a) with
  | Err text => refuse DUCKNNG_STATUS_ARROW_ERROR (default (lit oom) text)
  | Ok payload =>
    (0, ducknng_method_reply_set_payload ducknng_method_reply_init DUCKNNG_RPC_RESULT
          (Z.lor DUCKNNG_RPC_FLAG_RESULT_METADATA DUCKNNG_RPC_FLAG_PAYLOAD_ARROW_STREAM) (Some (fst payload)) (snd payload))
  end.

(** A body run in a scope. *)
Definition in_sql_scope (e : scope_env) (s : exec_state) (body : Z -> list sql_event * handled)
    : option (exec_state * handled) :=
  match ducknng_service_enter_request_sql e s with
  | None => None
  | Some (s, Err text) => Some (s, refuse DUCKNNG_STATUS_INTERNAL text)
  | Some (s, Ok (con, sc)) =>
    let (es, h) := body con in
    Some (ducknng_service_leave_request_sql sc (log_sql con es s), h)
  end.

Definition ducknng_method_exec_handler (decode : bytes -> result bytes ducknng_exec_request) (e : scope_env) (a : sql_answers)
    (s : exec_state) (req : ducknng_request_context) : option (exec_state * handled) :=
  match decode (f_payload (rc_frame req)) with
  | Err text => Some (s, refuse DUCKNNG_STATUS_INVALID text)
  | Ok rq =>
    in_sql_scope e s (fun con =>
      if 0 <? x_parameter_count rq then
        let (es, err) := ducknng_execute_parameterized_sql a (x_sql rq) (x_parameter_count rq) in
        match err with
        | Some text => (es, refuse DUCKNNG_STATUS_SQL_ERROR text)
        | None =>
          if x_want_result rq then
            let failed := "ducknng: failed to encode parameterized query result as Arrow IPC" in
            (es, if negb (sa_returns_rows a) then refuse DUCKNNG_STATUS_ARROW_ERROR (lit failed) else
                 match result_to_ipc with
                 | Err text => refuse DUCKNNG_STATUS_ARROW_ERROR (default (lit failed) text)
                 | Ok payload => rows_reply payload
                 end)
          else (es, metadata_reply a "ducknng: failed to encode parameterized exec metadata as Arrow IPC")
        end
      else if x_want_result rq then
        let (es, r) := ducknng_query_to_ipc_stream a (x_sql rq) in
        (es,
         match r with
         | Err text => refuse DUCKNNG_STATUS_ARROW_ERROR (default (lit "ducknng: failed to encode query result as Arrow IPC") text)
         | Ok payload => rows_reply payload
         end)
      else
        match sa_execute_error a with
        | Some detail => ([], refuse DUCKNNG_STATUS_SQL_ERROR (given_text detail "ducknng: exec failed"))
        | None => ([Executed], metadata_reply a "ducknng: failed to encode exec metadata as Arrow IPC")
        end)
  end.

Definition ducknng_method_query_prepare_handler (decode : bytes -> result bytes (bytes * Z)) (e : scope_env) (a : sql_answers)
    (s : exec_state) (req : ducknng_request_context) : option (exec_state * handled) :=
  match decode (f_payload (rc_frame req)) with
  | Err text => Some (s, refuse DUCKNNG_STATUS_INVALID text)
  | Ok (sql, parameter_count) =>
    in_sql_scope e s (fun con =>
      if sa_statements a =? 0 then
        ([Extracted], refuse DUCKNNG_STATUS_SQL_ERROR
           (given_text (sa_extract_error a) "ducknng: query_prepare: empty or invalid SQL")) else
      if negb (sa_statements a =? 1) then
        ([Extracted], refuse DUCKNNG_STATUS_INVALID (lit "ducknng: query_prepare requires exactly one SQL statement")) else
      match sa_prepare_error a with
      | Some detail => ([Extracted], refuse DUCKNNG_STATUS_SQL_ERROR (given_text detail "ducknng: query_prepare: prepare failed"))
      | None =>
        let (es, err) := ducknng_bind_query_parameters a parameter_count in
        (Extracted :: Prepared :: es,
         match err with
         | Some text => refuse DUCKNNG_STATUS_INVALID text
         | None =>
           match schema_to_ipc with
           | Err text => refuse DUCKNNG_STATUS_ARROW_ERROR
               (default (lit "ducknng: query_prepare: failed to encode schema as Arrow IPC") text)
           | Ok payload =>
             (0, ducknng_method_reply_set_payload ducknng_method_reply_init DUCKNNG_RPC_RESULT
                   (Z.lor (Z.lor DUCKNNG_RPC_FLAG_RESULT_ROWS DUCKNNG_RPC_FLAG_PAYLOAD_ARROW_STREAM) DUCKNNG_RPC_FLAG_END_OF_STREAM)
                   (Some (fst payload)) (snd payload))
           end
         end)
      end)
  end.
End handlers.

(** ** The scope is given back *)

(** The locks are free, no request runs SQL, the pool has the busy connections
    [busy] and the one the service keeps, and the subjects [bound]. *)
Record scope_free (s : exec_state) (busy : list (Z * nat)) (bound : list (Z * bytes)) : Prop := mk_scope_free {
  sf_lane : xe_lane s = false;
  sf_service : xe_service_mu s = false;
  sf_request : xe_request s = false;
  sf_pool : pool_inv (mk_pool_state (xe_pool s) (option_list (xe_service_con s) ++ busy));
  sf_subjects : subject_bindings (xe_subjects s) = bound }.

(** What DuckDB promises a scope: a new connection is not one of the pool, and
    a connection that runs nothing has no subject. *)
Definition env_ok (e : scope_env) (s : exec_state) (bound : list (Z * bytes)) : Prop :=
  (forall con, se_connect e = Some con -> con ∉ (pool (xe_pool s)).*1) /\
  (forall con id, se_con_id e con = Some id -> key_find id bound = None).

Lemma key_remove_last {V} (l : list (Z * V)) id v : key_find id l = None -> key_remove id (l ++ [(id, v)]) = l.
Proof.
  induction l as [|[k x] l IH]; cbn [key_find app key_remove]; [by rewrite bool_decide_eq_true_2|].
  case_bool_decide; [done|]. intros Hk. by rewrite IH.
Qed.

(** A subject is bound for the time of the request. *)
Lemma bind_unbind t id subject t' : key_find id (subject_bindings t) = None ->
  ducknng_runtime_execution_subject_bind_connection id subject t = Some t' ->
  subject_bindings (ducknng_runtime_execution_subject_unbind_connection id t') = subject_bindings t.
Proof.
  intros Hf. unfold ducknng_runtime_execution_subject_bind_connection. destruct subject as [[|c s]|]; [done| |done].
  rewrite Hf. intros <-%(inj Some). by apply key_remove_last.
Qed.

(** The state inside a scope. *)
Record scope_held (s : exec_state) (busy : list (Z * nat)) (bound : list (Z * bytes)) (sc : ducknng_service_sql_scope) : Prop := {
  sh_lane : xe_lane s = sc_locked_runtime sc;
  sh_service : xe_service_mu s = sc_locked_service sc /\ (sc_locked_service sc = true -> xe_service_mu_ready s = true);
  sh_pool : exists c, pool_inv (mk_pool_state (xe_pool s)
    ((match sc_own sc with Some i => [(c, i)] | None => [] end) ++ option_list (xe_service_con s) ++ busy));
  sh_subjects : match sc_subject sc with
    | Some id => subject_bindings (ducknng_runtime_execution_subject_unbind_connection id (xe_subjects s)) = bound
    | None => subject_bindings (xe_subjects s) = bound end }.

Lemma leave_frees sc s busy bound : scope_held s busy bound sc -> scope_free (ducknng_service_leave_request_sql sc s) busy bound.
Proof.
  intros [Hl [Hs Hr] [c Hp] Hb]. unfold ducknng_service_leave_request_sql.
  assert (forall i p l, pool_inv (mk_pool_state p ([(c, i)] ++ l)) ->
    pool_inv (mk_pool_state (ducknng_service_release_execution_connection (Some i) p) l)) as Hrel
    by (intros i p l; apply (pool_release_inv p [] c i l)).
  destruct (sc_subject sc), (sc_own sc), (sc_locked_service sc) eqn:E1, (sc_locked_runtime sc) eqn:E2; cbn; rewrite ?Hr by done; cbn;
    split; cbn; try done; by apply Hrel.
Qed.

Lemma connection_held e s busy bound s' sc : scope_free s busy bound -> env_ok e s bound ->
  scope_connection e s = Some (s', Ok sc) ->
  scope_held s' busy bound sc /\ xe_trace s' = xe_trace s /\ sc_subject sc = None.
Proof.
  intros [H1 H2 H3 H4 H5] [He _]. unfold scope_connection. cbv zeta. rewrite H1, H2.
  destruct (_ =? DUCKNNG_EXECUTION_SHARED_SERIALIZED_CONNECTION).
  { intros [= <- <-]. split; [|done]. split; try done. by exists 0. }
  destruct (_ =? DUCKNNG_EXECUTION_SERVICE_SERIALIZED_CONNECTION).
  { destruct (xe_service_mu_ready s) eqn:Er; cbn [negb]; [|done]. destruct (xe_service_con s) as [[con i]|] eqn:Ec.
    - intros [= <- <-]. split; [|done]. split; try done. exists 0. cbn. by rewrite Ec.
    - destruct (acquire_round (se_connect e) (xe_pool s)) as [p [[con i]|]] eqn:Ea; [|done]. intros [= <- <-].
      split; [|done]. split; try done. exists 0. cbn. rewrite ?Ec in H4. cbn in H4. by eapply pool_acquire_inv. }
  destruct (_ =? DUCKNNG_EXECUTION_REQUEST_CONNECTION); [|done].
  destruct (acquire_round (se_connect e) (xe_pool s)) as [p [[con i]|]] eqn:Ea; [|done]. intros [= <- <-].
  split; [|done]. split; try done. exists con. cbn. by eapply pool_acquire_inv.
Qed.

Lemma connection_failed e s s' text : scope_connection e s = Some (s', Err text) -> s' = s.
Proof.
  unfold scope_connection. cbv zeta. destruct (_ =? DUCKNNG_EXECUTION_SHARED_SERIALIZED_CONNECTION); [by destruct (xe_lane s)|].
  destruct (_ =? DUCKNNG_EXECUTION_SERVICE_SERIALIZED_CONNECTION).
  { destruct (negb _); [congruence|]. destruct (xe_service_mu s); [done|]. destruct (xe_service_con s) as [[??]|]; [done|].
    destruct (acquire_round _ _) as [p [[??]|]]; congruence. }
  destruct (_ =? DUCKNNG_EXECUTION_REQUEST_CONNECTION); [|congruence].
  destruct (acquire_round _ _) as [p [[??]|]]; congruence.
Qed.

(** Entering and leaving: nothing is kept, and the body's events are the ones
    logged. *)
Lemma in_scope_free e s busy bound body : scope_free s busy bound -> env_ok e s bound ->
  exists s' h, in_sql_scope e s body = Some (s', h) /\ scope_free s' busy bound /\
  ((exists con, xe_trace s' = xe_trace s ++ ((fun ev => (con, ev)) <$> (body con).1) /\ h = (body con).2) \/
   (xe_trace s' = xe_trace s /\ exists text, h = refuse DUCKNNG_STATUS_INTERNAL text)).
Proof.
  intros Hf He. unfold in_sql_scope, ducknng_service_enter_request_sql.
  destruct (scope_connection e s) as [[s1 [sc|text]]|] eqn:E.
  - destruct (connection_held _ _ _ _ _ _ Hf He E) as (Hh & Htr & Hsub). destruct (sc_con sc) as [con|].
    + assert (forall s2 sc2, scope_held s2 busy bound sc2 -> xe_trace s2 = xe_trace s ->
        exists s' h, (let (es, h) := body con in Some (ducknng_service_leave_request_sql sc2 (log_sql con es s2), h)) = Some (s', h) /\
        scope_free s' busy bound /\
        ((exists con, xe_trace s' = xe_trace s ++ ((fun ev => (con, ev)) <$> (body con).1) /\ h = (body con).2) \/
         (xe_trace s' = xe_trace s /\ exists text, h = refuse DUCKNNG_STATUS_INTERNAL text))) as Hgo.
      { intros s2 sc2 Hh2 Ht2. destruct (body con) as [es h] eqn:Eb. eexists _, _. split; [reflexivity|]. split.
        - apply leave_frees. destruct Hh2 as [K1 K2 K3 K4]. by split.
        - left. exists con. rewrite Eb. split; [|done]. rewrite <- Ht2. unfold ducknng_service_leave_request_sql.
          destruct (sc_subject sc2), (sc_own sc2), (_ && _)%bool, (sc_locked_runtime sc2); done. }
      assert (scope_held (set_request true s1) busy bound sc) as Hh' by (destruct Hh; by split).
      pose proof Hh as [K1 K2 K3 K4]. rewrite Hsub in K4.
      destruct (if nonempty (se_subject e) then se_con_id e con else None) as [id|] eqn:Eid; [|by apply Hgo].
      destruct (ducknng_runtime_execution_subject_bind_connection _ _ _) as [t|] eqn:Eb; [|by apply Hgo].
      apply Hgo; [|done]. split; try done. cbn. rewrite <- K4. apply (bind_unbind _ _ _ _) in Eb; [done|].
      cbn. rewrite K4. destruct (nonempty (se_subject e)); [|done]. by eapply (proj2 He).
    + eexists _, _. split; [reflexivity|]. split; [by apply leave_frees|]. right. split; [|by eexists]. rewrite <- Htr.
      unfold ducknng_service_leave_request_sql. destruct (sc_subject sc), (sc_own sc), (_ && _)%bool, (sc_locked_runtime sc); done.
  - rewrite (connection_failed _ _ _ _ E) in *. eexists _, _. split; [reflexivity|]. split; [done|]. right. split; [done|by eexists].
  - exfalso. revert E. destruct Hf as [H1 H2 _ _ _]. unfold scope_connection. cbv zeta. rewrite H1, H2.
    repeat case_match; congruence.
Qed.

(** ** What runs *)

Definition bounds (n : Z) : list sql_event := (fun i => Bound (Z.of_nat i)) <$> seq 1 (Z.to_nat n).

Lemma bind_loop_events fuel i fails : 0 <= i ->
  exists k, (k <= fuel)%nat /\ (bind_loop fuel i fails).1 = (fun j => Bound (i + Z.of_nat j)) <$> seq 1 k /\
    ((bind_loop fuel i fails).2 = None -> k = fuel).
Proof.
  revert i. induction fuel as [|fuel IH]; intros i Hi; cbn [bind_loop]; [by exists 0%nat|].
  case_bool_decide; [exists 0%nat; split; [lia|done]|]. destruct (IH (i + 1) ltac:(lia)) as (k & Hk & E & Hn).
  destruct (bind_loop fuel (i + 1) fails) as [es err]. cbn [fst snd] in *. exists (S k). split; [lia|]. split; [|intros ->%Hn; done].
  rewrite E. cbn [seq fmap list_fmap]. f_equal. rewrite <- (fmap_S_seq 1), <- list_fmap_compose.
  apply list_fmap_ext. intros ? x _. cbn. f_equal. lia.
Qed.

(** Binding makes no other event, and all parameters are bound when it works. *)
Lemma bind_events a n : 0 <= n -> Forall (fun ev => ev <> Executed) (ducknng_bind_sql_parameters a n).1 /\
  ((ducknng_bind_sql_parameters a n).2 = None -> (ducknng_bind_sql_parameters a n).1 = bounds n).
Proof.
  intros Hn. unfold ducknng_bind_sql_parameters. destruct (Z.eqb_spec (sa_nparams a) n) as [->|]; cbn [negb]; [|by split].
  destruct (bind_loop_events (Z.to_nat n) 0 (sa_bind_fails a) ltac:(lia)) as (k & _ & -> & Hk). split.
  - apply Forall_fmap, Forall_forall. done.
  - intros ->%Hk. done.
Qed.

Definition runs (es : list sql_event) : Z := zlen (filter (fun ev => ev = Executed) es).

Lemma runs_app a b : runs (a ++ b) = runs a + runs b.
Proof. unfold runs. by rewrite filter_app, zlen_app. Qed.

Lemma runs_none es : Forall (fun ev => ev <> Executed) es -> runs es = 0.
Proof.
  induction 1 as [|ev es Hev _ IH]; [done|]. unfold runs in *. by rewrite filter_cons_False.
Qed.

Lemma runs_bound es : Forall (fun ev => ev <> Executed) es -> runs (Extracted :: Prepared :: es) = 0.
Proof. intros H. apply runs_none. by repeat constructor. Qed.

(** A statement with parameters runs at most once, and only after the binding
    of all of them. *)
Lemma parameterized_events a sql n : 0 <= n -> let (es, err) := ducknng_execute_parameterized_sql a sql n in
  runs es = (match err with Some _ => 0 | None => 1 end) /\
  (err = None -> es = Extracted :: Prepared :: bounds n ++ [Executed]).
Proof.
  intros Hn. unfold ducknng_execute_parameterized_sql. case_bool_decide; [done|].
  destruct (negb (sa_statements a =? 1)); [done|]. destruct (sa_prepare_error a); [done|].
  destruct (bind_events a n Hn) as [Hev Hall]. destruct (ducknng_bind_sql_parameters a n) as [es [text|]]; cbn [fst snd] in *.
  - by rewrite runs_bound.
  - rewrite (Hall eq_refl) in *. destruct (sa_execute_error a) as [detail|].
    + by rewrite runs_bound.
    + split; [|done]. change (runs ((Extracted :: Prepared :: bounds n) ++ [Executed]) = 1). by rewrite runs_app, runs_bound.
Qed.

(** What a handler leaves behind: nothing of its scope, and a trace. *)
Definition scoped (s : exec_state) (busy : list (Z * nat)) (bound : list (Z * bytes)) (r : option (exec_state * handled))
    (Q : list sql_event -> handled -> Prop) : Prop :=
  exists s' h con es, r = Some (s', h) /\ scope_free s' busy bound /\
    xe_trace s' = xe_trace s ++ ((fun ev => (con, ev)) <$> es) /\ Q es h.

Lemma scoped_refused s busy bound status text (Q : list sql_event -> handled -> Prop) :
  scope_free s busy bound -> Q [] (refuse status text) -> scoped s busy bound (Some (s, refuse status text)) Q.
Proof. intros Hf HQ. exists s, (refuse status text), 0, []. rewrite app_nil_r. done. Qed.

Lemma scoped_body e s busy bound body (Q : list sql_event -> handled -> Prop) :
  scope_free s busy bound -> env_ok e s bound -> (forall con, Q (body con).1 (body con).2) ->
  (forall text, Q [] (refuse DUCKNNG_STATUS_INTERNAL text)) -> scoped s busy bound (in_sql_scope e s body) Q.
Proof.
  intros Hf He Hb Hr. destruct (in_scope_free e s busy bound body Hf He) as (s' & h & E & Hf' & [(con & Ht & ->)|(Ht & text & ->)]).
  - exists s', (body con).2, con, (body con).1. done.
  - exists s', (refuse DUCKNNG_STATUS_INTERNAL text), 0, []. cbn. rewrite app_nil_r. done.
Qed.


(** An insert with two parameters on a connection of its own. *)
Definition demo_exec_state : exec_state :=
  mk_exec false (Some 1) false true None (mk_pool [(5, false)] 8 4) (mk_subjects [(7, lit "bob")] 4) false [].
Definition demo_scope_env : scope_env := mk_scope_env DUCKNNG_EXECUTION_REQUEST_CONNECTION (Some 6) (Some (lit "alice")) (fun con => if con =? 5 then Some 105 else None).
Definition demo_insert : sql_answers := mk_sql_answers 1 None None 2 None None false 1 1 3.
Definition demo_exec_decode : bytes -> result bytes ducknng_exec_request := fun p => Ok (mk_exec_request p false 2).
Definition demo_exec_context : ducknng_request_context :=
  mk_req_ctx (mk_frame 1 DUCKNNG_RPC_CALL 0 0 (lit "exec") 4 [] 0 (lit "INSERT") 6) None None None.

