(* ===== verification/Builtins.v ===== *)
(** The built-in methods and their registration: [src/src/ducknng_methods.c].

    The descriptors are the tables of the source; a handler is known by its
    place in the list.  Registration may run out of memory: [ok] tells for
    each call whether its allocation succeeds. *)

From stdpp Require Import gmap.
From S2P Require Import Prelude Checked Wire Util Registry Peers Session Dispatch Runtime Control Threads Methods Upload Exec.

(** ** Descriptors *)

Definition ducknng_method_manifest : ducknng_method_descriptor :=
  mk_method (Some (lit "manifest")) (Some (lit "control"))
    (Some (lit "Return the registry-derived manifest JSON"))
    DUCKNNG_TRANSPORT_REQREP DUCKNNG_PAYLOAD_NONE DUCKNNG_PAYLOAD_JSON
    DUCKNNG_RESPONSE_METADATA_ONLY DUCKNNG_SESSION_STATELESS 0
    DUCKNNG_RPC_FLAG_PAYLOAD_JSON 0 1048576 
    0 0 0 0 0 1 0 0 1
    None
    (Some (jlit "{'type':'json'}"))
    (Some 1).

Definition ducknng_method_handshake : ducknng_method_descriptor :=
  mk_method (Some (lit "handshake")) (Some (lit "control"))
    (Some (lit "Negotiate protocol capabilities and preferred row serialization mode"))
    DUCKNNG_TRANSPORT_REQREP DUCKNNG_PAYLOAD_JSON DUCKNNG_PAYLOAD_JSON
    DUCKNNG_RESPONSE_METADATA_ONLY DUCKNNG_SESSION_STATELESS 0
    DUCKNNG_RPC_FLAG_PAYLOAD_JSON 1048576 1048576 
    0 0 0 0 0 1 0 0 1
    (Some (jlit "{'type':'json','fields':[{'name':'min_protocol_version','type':'uint64','nullable':true},{'name':'max_protocol_version','type':'uint64','nullable':true},{'name':'preferred_serialization_mode','type':'string','nullable':true},{'name':'correlation_id','type':'string','nullable':true}]}"))
    (Some (jlit "{'type':'json','fields':[{'name':'server_name','type':'string','nullable':false},{'name':'server_version','type':'string','nullable':false},{'name':'duckdb_version','type':'string','nullable':false},{'name':'server_platform','type':'string','nullable':false},{'name':'protocol_version','type':'uint64','nullable':false},{'name':'selected_protocol_version','type':'uint64','nullable':false},{'name':'selected_serialization_mode','type':'string','nullable':false},{'name':'supported_serialization_modes','type':'array<string>','nullable':false},{'name':'correlation_id','type':'string','nullable':true}],'capabilities':{'fetch_metadata':{'correlation_id':true,'result_handle':true,'batch_index':true},'parameter_binding':{'encoding':'arrow_struct','positional':true,'methods':['exec','query_open','query_prepare'],'max_parameters':65535}},'note':'future reply metadata should be negotiated as a generic capability rather than a fake row serializer'}"))
    (Some 2).

Definition ducknng_method_query_open : ducknng_method_descriptor :=
  mk_method (Some (lit "query_open")) (Some (lit "query"))
    (Some (lit "Open a server-side query session"))
    DUCKNNG_TRANSPORT_REQREP DUCKNNG_PAYLOAD_ARROW_IPC_STREAM DUCKNNG_PAYLOAD_JSON
    DUCKNNG_RESPONSE_SESSION_OPEN DUCKNNG_SESSION_OPENS 0
    (Z.lor DUCKNNG_RPC_FLAG_PAYLOAD_JSON DUCKNNG_RPC_FLAG_SESSION_OPEN) 16777216 1048576 
    0 0 1 0 1 0 0 0 1
    (Some (jlit "{'fields':[{'name':'sql','type':'utf8','nullable':false},{'name':'batch_rows','type':'uint64','nullable':true},{'name':'batch_bytes','type':'uint64','nullable':true},{'name':'correlation_id','type':'string','nullable':true},{'name':'serialization_mode','type':'string','nullable':true},{'name':'params','type':'struct','nullable':true,'semantics':'positional_sql_parameters','max_children':65535}]}"))
    (Some (jlit "{'type':'json','session_open':true,'fields':[{'name':'session_id','type':'uint64','nullable':false},{'name':'session_token','type':'string','nullable':false},{'name':'state','type':'string','nullable':false},{'name':'next_method','type':'string','nullable':false},{'name':'idle_timeout_ms','type':'uint64','nullable':false,'policy':'server_effective'},{'name':'result_handle','type':'string','nullable':true},{'name':'ducknng_protocol_version','type':'uint64','nullable':false},{'name':'row_schema_version','type':'uint64','nullable':false},{'name':'fetch_batch_chunks','type':'uint64','nullable':false},{'name':'serialization_mode','type':'string','nullable':true},{'name':'correlation_id','type':'string','nullable':true}]}"))
    (Some 3).

Definition ducknng_method_fetch : ducknng_method_descriptor :=
  mk_method (Some (lit "fetch")) (Some (lit "query"))
    (Some (lit "Fetch the next row batch from an open session"))
    DUCKNNG_TRANSPORT_REQREP DUCKNNG_PAYLOAD_JSON DUCKNNG_PAYLOAD_ARROW_IPC_STREAM
    DUCKNNG_RESPONSE_ROWS DUCKNNG_SESSION_REQUIRES 0
    (Z.lor (Z.lor (Z.lor (Z.lor DUCKNNG_RPC_FLAG_RESULT_ROWS DUCKNNG_RPC_FLAG_PAYLOAD_ARROW_STREAM) DUCKNNG_RPC_FLAG_PAYLOAD_QUACK_BATCH) DUCKNNG_RPC_FLAG_END_OF_STREAM) DUCKNNG_RPC_FLAG_PAYLOAD_JSON) 1048576 16777216 
    0 1 0 0 0 0 0 0 1
    (Some (jlit "{'type':'json','fields':[{'name':'session_id','type':'uint64','nullable':false},{'name':'session_token','type':'string','nullable':false},{'name':'correlation_id','type':'string','nullable':true}]}"))
    (Some (jlit "{'mode':'rows_or_control','rows':{'default':'arrow_ipc_stream','supported':['arrow_ipc_stream','ducknng_quack_batch'],'max_chunks_field':'fetch_batch_chunks'},'control':{'type':'json','fields':[{'name':'session_id','type':'uint64','nullable':false},{'name':'state','type':'string','nullable':false},{'name':'result_handle','type':'string','nullable':true},{'name':'batch_index','type':'uint64','nullable':true},{'name':'correlation_id','type':'string','nullable':true}],'ducknng_quack_batch':{'layout':'ducknng_quack_batch','first_payload_fields':['result_types','result_names','results'],'later_payload_fields':['results']}}}"))
    (Some 4).

Definition ducknng_method_close : ducknng_method_descriptor :=
  mk_method (Some (lit "close")) (Some (lit "query"))
    (Some (lit "Close an open or exhausted session"))
    DUCKNNG_TRANSPORT_REQREP DUCKNNG_PAYLOAD_JSON DUCKNNG_PAYLOAD_JSON
    DUCKNNG_RESPONSE_METADATA_ONLY DUCKNNG_SESSION_CLOSES 0
    (Z.lor DUCKNNG_RPC_FLAG_PAYLOAD_JSON DUCKNNG_RPC_FLAG_SESSION_CLOSED) 1048576 1048576 
    0 1 0 1 1 1 0 0 1
    (Some (jlit "{'type':'json','fields':[{'name':'session_id','type':'uint64','nullable':false},{'name':'session_token','type':'string','nullable':false},{'name':'correlation_id','type':'string','nullable':true}]}"))
    (Some (jlit "{'type':'json','fields':[{'name':'session_id','type':'uint64','nullable':false},{'name':'state','type':'string','nullable':false},{'name':'result_handle','type':'string','nullable':true},{'name':'batch_index','type':'uint64','nullable':true},{'name':'correlation_id','type':'string','nullable':true}]}"))
    (Some 5).

Definition ducknng_method_cancel : ducknng_method_descriptor :=
  mk_method (Some (lit "cancel")) (Some (lit "query"))
    (Some (lit "Cancel and close an open session"))
    DUCKNNG_TRANSPORT_REQREP DUCKNNG_PAYLOAD_JSON DUCKNNG_PAYLOAD_JSON
    DUCKNNG_RESPONSE_METADATA_ONLY DUCKNNG_SESSION_CANCELS 0
    (Z.lor (Z.lor DUCKNNG_RPC_FLAG_PAYLOAD_JSON DUCKNNG_RPC_FLAG_CANCELLED) DUCKNNG_RPC_FLAG_SESSION_CLOSED) 1048576 1048576 
    0 1 0 1 1 0 0 0 1
    (Some (jlit "{'type':'json','fields':[{'name':'session_id','type':'uint64','nullable':false},{'name':'session_token','type':'string','nullable':false},{'name':'correlation_id','type':'string','nullable':true}]}"))
    (Some (jlit "{'type':'json','fields':[{'name':'session_id','type':'uint64','nullable':false},{'name':'state','type':'string','nullable':false},{'name':'result_handle','type':'string','nullable':true},{'name':'batch_index','type':'uint64','nullable':true},{'name':'correlation_id','type':'string','nullable':true}]}"))
    (Some 6).

Definition ducknng_method_query_prepare : ducknng_method_descriptor :=
  mk_method (Some (lit "query_prepare")) (Some (lit "query"))
    (Some (lit "Prepare a SQL statement and return the output schema without executing"))
    DUCKNNG_TRANSPORT_REQREP DUCKNNG_PAYLOAD_ARROW_IPC_STREAM DUCKNNG_PAYLOAD_ARROW_IPC_STREAM
    DUCKNNG_RESPONSE_ROWS DUCKNNG_SESSION_STATELESS 0
    (Z.lor (Z.lor DUCKNNG_RPC_FLAG_RESULT_ROWS DUCKNNG_RPC_FLAG_PAYLOAD_ARROW_STREAM) DUCKNNG_RPC_FLAG_END_OF_STREAM) 16777216 16777216 
    0 0 0 0 0 0 0 0 1
    (Some (jlit "{'fields':[{'name':'sql','type':'utf8','nullable':false},{'name':'batch_rows','type':'uint64','nullable':true},{'name':'batch_bytes','type':'uint64','nullable':true},{'name':'correlation_id','type':'string','nullable':true},{'name':'serialization_mode','type':'string','nullable':true},{'name':'params','type':'struct','nullable':true,'semantics':'positional_sql_parameters','max_children':65535}]}"))
    (Some (jlit "{'mode':'schema_only','note':'Arrow IPC stream with schema and 0 data batches'}"))
    (Some 7).

Definition ducknng_method_upload_open : ducknng_method_descriptor :=
  mk_method (Some (lit "upload_open")) (Some (lit "upload"))
    (Some (lit "Open a client-to-server table upload session"))
    DUCKNNG_TRANSPORT_REQREP DUCKNNG_PAYLOAD_JSON DUCKNNG_PAYLOAD_JSON
    DUCKNNG_RESPONSE_SESSION_OPEN DUCKNNG_SESSION_OPENS 0
    (Z.lor DUCKNNG_RPC_FLAG_PAYLOAD_JSON DUCKNNG_RPC_FLAG_SESSION_OPEN) 1048576 1048576 
    0 0 1 0 1 0 0 0 1
    (Some (jlit "{'fields':[{'name':'target_table','type':'utf8','nullable':false},{'name':'mode','type':'utf8','nullable':true},{'name':'correlation_id','type':'string','nullable':true}]}"))
    (Some (jlit "{'type':'json','session_open':true,'fields':[{'name':'session_id','type':'uint64','nullable':false},{'name':'session_token','type':'string','nullable':false},{'name':'state','type':'string','nullable':false},{'name':'next_method','type':'string','nullable':false},{'name':'idle_timeout_ms','type':'uint64','nullable':false,'policy':'server_effective'},{'name':'correlation_id','type':'string','nullable':true}]}"))
    (Some 8).

Definition ducknng_method_upload_append : ducknng_method_descriptor :=
  mk_method (Some (lit "upload_append")) (Some (lit "upload"))
    (Some (lit "Append one quack batch to an open upload session"))
    DUCKNNG_TRANSPORT_REQREP DUCKNNG_PAYLOAD_UPLOAD_APPEND DUCKNNG_PAYLOAD_JSON
    DUCKNNG_RESPONSE_METADATA_ONLY DUCKNNG_SESSION_REQUIRES 0
    DUCKNNG_RPC_FLAG_PAYLOAD_JSON 16777216 1048576 
    0 1 0 0 1 0 0 0 1
    (Some (jlit "{'layout':'ducknng_upload_append','prefix':[{'name':'session_id','type':'uint64_le'},{'name':'token_len','type':'uint16_le'},{'name':'token','type':'bytes'}],'body':'ducknng_quack_batch'}"))
    (Some (jlit "{'type':'json','fields':[{'name':'state','type':'string','nullable':false},{'name':'rows','type':'uint64','nullable':false}]}"))
    (Some 9).

Definition ducknng_method_upload_commit : ducknng_method_descriptor :=
  mk_method (Some (lit "upload_commit")) (Some (lit "upload"))
    (Some (lit "Commit an upload session and return the appended row count"))
    DUCKNNG_TRANSPORT_REQREP DUCKNNG_PAYLOAD_JSON DUCKNNG_PAYLOAD_JSON
    DUCKNNG_RESPONSE_METADATA_ONLY DUCKNNG_SESSION_CLOSES 0
    (Z.lor DUCKNNG_RPC_FLAG_PAYLOAD_JSON DUCKNNG_RPC_FLAG_SESSION_CLOSED) 1048576 1048576 
    0 1 0 1 1 0 0 0 1
    (Some (jlit "{'type':'json','fields':[{'name':'session_id','type':'uint64','nullable':false},{'name':'session_token','type':'string','nullable':false},{'name':'correlation_id','type':'string','nullable':true}]}"))
    (Some (jlit "{'type':'json','fields':[{'name':'state','type':'string','nullable':false},{'name':'rows','type':'uint64','nullable':false}]}"))
    (Some 10).

Definition ducknng_method_upload_abort : ducknng_method_descriptor :=
  mk_method (Some (lit "upload_abort")) (Some (lit "upload"))
    (Some (lit "Abort an upload session and roll back its transaction"))
    DUCKNNG_TRANSPORT_REQREP DUCKNNG_PAYLOAD_JSON DUCKNNG_PAYLOAD_JSON
    DUCKNNG_RESPONSE_METADATA_ONLY DUCKNNG_SESSION_CLOSES 0
    (Z.lor DUCKNNG_RPC_FLAG_PAYLOAD_JSON DUCKNNG_RPC_FLAG_SESSION_CLOSED) 1048576 1048576 
    0 1 0 1 1 0 0 0 1
    (Some (jlit "{'type':'json','fields':[{'name':'session_id','type':'uint64','nullable':false},{'name':'session_token','type':'string','nullable':false},{'name':'correlation_id','type':'string','nullable':true}]}"))
    (Some (jlit "{'type':'json','fields':[{'name':'state','type':'string','nullable':false}]}"))
    (Some 11).

Definition ducknng_method_exec : ducknng_method_descriptor :=
  mk_method (Some (lit "exec")) (Some (lit "sql"))
    (Some (lit "Execute SQL and return metadata or rows"))
    DUCKNNG_TRANSPORT_REQREP DUCKNNG_PAYLOAD_ARROW_IPC_STREAM DUCKNNG_PAYLOAD_ARROW_IPC_STREAM
    DUCKNNG_RESPONSE_METADATA_OR_ROWS DUCKNNG_SESSION_STATELESS 0
    (Z.lor (Z.lor DUCKNNG_RPC_FLAG_RESULT_ROWS DUCKNNG_RPC_FLAG_RESULT_METADATA) DUCKNNG_RPC_FLAG_PAYLOAD_ARROW_STREAM) 16777216 16777216 
    0 0 0 0 1 0 0 0 1
    (Some (jlit "{'fields':[{'name':'sql','type':'utf8','nullable':false},{'name':'want_result','type':'bool','nullable':false},{'name':'params','type':'struct','nullable':true,'semantics':'positional_sql_parameters','max_children':65535}]}"))
    (Some (jlit "{'mode':'metadata_or_rows'}"))
    (Some 12).

(** ** Registration *)

(** A registration or an update of the auth policy whose allocation fails
    leaves the registry as it was. *)
Definition register_or_fail (ok : bool) (r : ducknng_method_registry) (d : ducknng_method_descriptor)
    : result bytes ducknng_method_registry :=
  match ducknng_method_registry_register r (Some d) with
  | Ok r' => if (ok || (method_count r + 1 <=? method_cap r))%bool then Ok r'
             else Err (lit "ducknng: out of memory growing method registry")
  | Err e => Err e
  end.

(** A copy of the descriptor is made where the flag changes. *)
Definition auth_changes (r : ducknng_method_registry) (name : option bytes) (v : Z) : bool :=
  match slot_index (default [] name) (methods r) ≫= (fun i => methods r !! i) with
  | Some s => negb (requires_auth (slot_method s) =? int_bool v)
  | None => false
  end.

Definition set_auth_or_fail (ok : bool) (r : ducknng_method_registry) (name : option bytes) (v : Z)
    : result bytes ducknng_method_registry :=
  match ducknng_method_registry_set_requires_auth r name v with
  | Ok r' =>
    if (ok || negb (auth_changes r name v))%bool then Ok r'
    else Err (lit "ducknng: out of memory updating method auth policy")
  | Err e => Err e
  end.

Definition builtin_methods : list ducknng_method_descriptor :=
  [ducknng_method_manifest; ducknng_method_handshake; ducknng_method_query_open; ducknng_method_fetch;
   ducknng_method_close; ducknng_method_cancel; ducknng_method_query_prepare].

Definition ducknng_register_builtin_methods (r : ducknng_method_registry) : result bytes ducknng_method_registry :=
  ducknng_method_registry_register_many r (Some <$> builtin_methods).

Definition ducknng_register_exec_method_with_auth (ok_register ok_auth : bool) (requires_auth : Z) (r : ducknng_method_registry)
    : ducknng_method_registry * option bytes :=
  match register_or_fail ok_register r ducknng_method_exec with
  | Err e => (r, Some e)
  | Ok r =>
    if requires_auth =? 0 then (r, None) else
    match set_auth_or_fail ok_auth r (m_name ducknng_method_exec) 1 with
    | Ok r => (r, None)
    | Err e => ((ducknng_method_registry_unregister r (m_name ducknng_method_exec)).1, Some e)
    end
  end.

Definition ducknng_register_exec_method (ok_register ok_auth : bool) (r : ducknng_method_registry)
    : ducknng_method_registry * option bytes :=
  ducknng_register_exec_method_with_auth ok_register ok_auth 0 r.

Definition upload_methods : list ducknng_method_descriptor :=
  [ducknng_method_upload_open; ducknng_method_upload_append; ducknng_method_upload_commit; ducknng_method_upload_abort].

(** Whether a method was there, and its auth flag. *)
Definition was_present (r : ducknng_method_registry) (d : ducknng_method_descriptor) : option Z :=
  match ducknng_method_registry_find r (m_name d) (u32 (zlen (default [] (m_name d)))) with
  | Some m => Some (if requires_auth m =? 0 then 0 else 1)
  | None => None
  end.

(** The two loops: what is left of the registry, and the error they stop at. *)
Fixpoint register_missing (ok : nat -> bool) (i : nat) (todo : list (ducknng_method_descriptor * option Z))
    (r : ducknng_method_registry) : ducknng_method_registry * option bytes :=
  match todo with
  | [] => (r, None)
  | (d, Some _) :: todo => register_missing ok (S i) todo r
  | (d, None) :: todo =>
    match register_or_fail (ok i) r d with
    | Ok r => register_missing ok (S i) todo r
    | Err e => (r, Some e)
    end
  end.

Fixpoint apply_auth (ok : nat -> bool) (i : nat) (v : Z) (todo : list (ducknng_method_descriptor * option Z))
    (r : ducknng_method_registry) : ducknng_method_registry * option bytes :=
  match todo with
  | [] => (r, None)
  | (d, _) :: todo =>
    match set_auth_or_fail (ok i) r (m_name d) v with
    | Ok r => apply_auth ok (S i) v todo r
    | Err e => (r, Some e)
    end
  end.

(** The [rollback] exit. *)
Fixpoint roll_back (todo : list (ducknng_method_descriptor * option Z)) (r : ducknng_method_registry) : ducknng_method_registry :=
  match todo with
  | [] => r
  | (d, None) :: todo => roll_back todo (ducknng_method_registry_unregister r (m_name d)).1
  | (d, Some v) :: todo => roll_back todo (ducknng_method_registry_restore_auth_inplace r (m_name d) v).1
  end.

Definition ducknng_register_upload_methods_with_auth (ok_register ok_auth : nat -> bool) (requires_auth : Z)
    (r : ducknng_method_registry) : ducknng_method_registry * option bytes :=
  let todo := (fun d => (d, was_present r d)) <$> upload_methods in
  match register_missing ok_register 0 todo r with
  | (r, Some e) => (roll_back todo r, Some e)
  | (r, None) =>
    match apply_auth ok_auth 0 (if requires_auth =? 0 then 0 else 1) todo r with
    | (r, Some e) => (roll_back todo r, Some e)
    | (r, None) => (r, None)
    end
  end.

Definition ducknng_register_upload_methods (ok_register ok_auth : nat -> bool) (r : ducknng_method_registry)
    : ducknng_method_registry * option bytes :=
  ducknng_register_upload_methods_with_auth ok_register ok_auth 0 r.

(** ** Ownership of slots *)

(** The slot of [n] is a heap copy. *)
Definition owned_in (r : ducknng_method_registry) (n : bytes) : Prop :=
  exists s, s ∈ methods r /\ slot_name s = n /\ slot_owned s = true.

Lemma slot_named r n i : registry_wf r -> slot_index n (methods r) = Some i ->
  exists s, methods r !! i = Some s /\ slot_name s = n /\ contents r !! n = Some (slot_method s).
Proof.
  intros Hwf (s & _ & Hi & Hn)%slot_index_Some. exists s. split; [done|].
  assert (slot_name s = n) as Hs.
  { pose proof Hwf as [Hv _ _]. rewrite Forall_lookup in Hv. by apply has_name_spec; [apply (Hv _ _ Hi)|]. }
  split; [done|]. apply contents_spec; [done|]. exists s. split; [by eapply list_elem_of_lookup_2|done].
Qed.

Lemma register_owned ok r d r' n : register_or_fail ok r d = Ok r' -> owned_in r n -> owned_in r' n.
Proof.
  unfold register_or_fail, ducknng_method_registry_register. destruct (negb _); [done|].
  destruct (ducknng_method_name_exists _ _); [done|]. destruct (_ || _)%bool; [|done]. intros [= <-] (s & Hs & H).
  exists s. split; [|done]. cbn. rewrite reserve_methods. apply elem_of_app. by left.
Qed.

(** Replacing a slot by an owned one. *)
Lemma insert_owned r i s s' n : methods r !! i = Some s -> slot_name s' = slot_name s -> slot_owned s' = true ->
  owned_in r n \/ n = slot_name s -> owned_in (mk_registry (<[i := s']> (methods r)) (method_cap r)) n.
Proof.
  intros Hi Hn Ho H. assert (s' ∈ <[i := s']> (methods r)) as Hin.
  { eapply list_elem_of_lookup_2, list_lookup_insert_eq. by eapply lookup_lt_Some. }
  destruct H as [(t & [j Hj]%list_elem_of_lookup_1 & Ht & Hot)| ->]; [|by exists s'].
  destruct (decide (i = j)) as [->|Hne].
  - assert (t = s) as -> by congruence. exists s'. split; [done|]. by rewrite Hn.
  - exists t. split; [|done]. apply (list_elem_of_lookup_2 _ j). cbn. by rewrite list_lookup_insert_ne.
Qed.

Lemma set_auth_owned ok r name v r' n : registry_wf r -> set_auth_or_fail ok r name v = Ok r' ->
  (owned_in r n -> owned_in r' n) /\
  (n = default [] name -> contents r' !! n = contents r !! n \/ owned_in r' n).
Proof.
  intros Hwf. unfold set_auth_or_fail, ducknng_method_registry_set_requires_auth. destruct name as [[|c nm]|]; [done| |done].
  change (default [] (Some (c :: nm))) with (c :: nm). destruct (slot_index (c :: nm) (methods r)) as [i|] eqn:Ei; [|done].
  destruct (slot_named _ _ _ Hwf Ei) as (s & Hi & Hs & _). rewrite Hi.
  destruct (requires_auth (slot_method s) =? int_bool v).
  { destruct (_ || _)%bool; [|done]. intros [= <-]. by auto. }
  destruct (_ || _)%bool; [|done]. intros [= <-]. split.
  - intros H. apply (insert_owned _ _ s); auto.
  - intros ->. right. apply (insert_owned _ _ s); auto.
Qed.

Lemma unregister_owned r name n : registry_wf r -> n <> default [] name -> owned_in r n ->
  owned_in (ducknng_method_registry_unregister r name).1 n.
Proof.
  intros Hwf Hne (s & Hs & Hn & Ho). unfold ducknng_method_registry_unregister. destruct name as [[|c nm]|]; try (by exists s).
  destruct (slot_index (c :: nm) (methods r)) as [i|] eqn:Ei; [|by exists s].
  destruct (slot_named _ _ _ Hwf Ei) as (t & Hi & Ht & _). cbn [fst].
  destruct (wf_remove r i t Hwf Hi) as (_ & Em & _). exists s. split; [|done]. rewrite Em.
  rewrite <- (take_drop_middle _ _ _ Hi) in Hs. apply elem_of_app in Hs as [Hs|[->|Hs]%elem_of_cons]; [apply elem_of_app; by left| |apply elem_of_app; by right].
  exfalso. apply Hne. change (n = c :: nm). congruence.
Qed.

Lemma restore_owned r name v : registry_wf r ->
  let r' := (ducknng_method_registry_restore_auth_inplace r name v).1 in
  registry_wf r' /\ (forall n, owned_in r n -> owned_in r' n) /\
  (owned_in r (default [] name) \/ (forall d, contents r !! default [] name = Some d -> requires_auth d = int_bool v) ->
   contents r' = alter (with_requires_auth (int_bool v)) (default [] name) (contents r)).
Proof.
  intros Hwf. unfold ducknng_method_registry_restore_auth_inplace. destruct name as [[|c nm]|].
  1,3: cbn [default fst]; unfold id; split; [done|]; split; [done|]; intros _; symmetry; apply alter_id; intros d Hd;
    by rewrite contents_empty_name in Hd.
  change (default [] (Some (c :: nm))) with (c :: nm). cbv zeta. destruct (slot_index (c :: nm) (methods r)) as [i|] eqn:Ei; cbn [fst].
  2: { split; [done|]. split; [done|]. intros _. symmetry. apply alter_id. intros d Hd. by rewrite (slot_index_absent r _ Hwf Ei) in Hd. }
  destruct (slot_named _ _ _ Hwf Ei) as (s & Hi & Hs & Hc). rewrite Hi.
  destruct (Z.eqb_spec (requires_auth (slot_method s)) (int_bool v)) as [Ev|Ev]; cbn [fst].
  { split; [done|]. split; [done|]. intros _. symmetry. apply alter_id. intros d Hd. rewrite Hc in Hd. injection Hd as <-.
    destruct (slot_method s). cbn in *. by subst. }
  destruct (slot_owned s) eqn:Eo; cbn [fst].
  - destruct (wf_update r i s (int_bool v) Hwf Hi) as [Hwf' E]. split; [done|].
    split; [intros n H; by apply (insert_owned _ _ s); auto|]. intros _. rewrite E, Hs.
    apply map_eq. intros n. destruct (decide (n = c :: nm)) as [->|].
    + by rewrite lookup_insert_eq, lookup_alter_eq, Hc.
    + by rewrite lookup_insert_ne, lookup_alter_ne.
  - split; [done|]. split; [done|]. intros [(t & Ht & Htn & Hto)|H]; [|by specialize (H _ Hc)]. exfalso.
    assert (t = s) as ->; [|congruence]. apply list_elem_of_lookup_1 in Ht as [j Hj].
    assert (j = i) as ->; [|congruence]. pose proof Hwf as [_ Hnd _].
    eapply NoDup_lookup; [exact Hnd|rewrite list_lookup_fmap, Hj; reflexivity|rewrite list_lookup_fmap, Hi; cbn; congruence].
Qed.

(** ** Registration of a family is atomic *)

Definition name_of (d : ducknng_method_descriptor) : bytes := default [] (m_name d).
Abbreviation entry := (ducknng_method_descriptor * option Z)%type.

Definition good_entry (e : entry) : Prop :=
  ducknng_method_descriptor_valid (Some (fst e)) = true /\ zlen (name_of (fst e)) <= UINT32_MAX.

(** What the loops mean for the map of names. *)
Definition spec_missing (todo : list entry) (m : gmap bytes ducknng_method_descriptor) : gmap bytes ducknng_method_descriptor :=
  foldl (fun m e => match snd e with None => <[name_of (fst e) := fst e]> m | Some _ => m end) m todo.

Definition spec_auth (v : Z) (todo : list entry) (m : gmap bytes ducknng_method_descriptor) : gmap bytes ducknng_method_descriptor :=
  foldl (fun m e => alter (with_requires_auth (int_bool v)) (name_of (fst e)) m) m todo.

Lemma register_step ok r d r' : registry_wf r -> good_entry (d, None) -> method_count r + 1 <= SIZE_MAX ->
  register_or_fail ok r d = Ok r' ->
  registry_wf r' /\ contents r' = <[name_of d := d]> (contents r) /\ method_count r' = method_count r + 1.
Proof.
  intros Hwf [Hv Hl] Hs E. unfold register_or_fail in E. pose proof (register_refines r (Some d) Hwf) as H.
  destruct (ducknng_method_registry_register r (Some d)) as [r1|] eqn:Er; [|done]. destruct (_ || _)%bool; [|done]. injection E as <-.
  destruct H as [Hwf' Hc]; [by split|]. split; [done|]. unfold spec_register in Hc. destruct (_ && _)%bool; [|done].
  injection Hc as <-. split; [done|]. unfold ducknng_method_registry_register in Er. destruct (negb _); [done|].
  destruct (ducknng_method_name_exists _ _); [done|]. injection Er as <-. unfold method_count. cbn. rewrite reserve_methods, zlen_app. done.
Qed.

Lemma missing_spec ok todo : forall i r r' err, registry_wf r -> Forall good_entry todo ->
  method_count r + zlen todo <= SIZE_MAX -> register_missing ok i todo r = (r', err) ->
  registry_wf r' /\ (err = None -> contents r' = spec_missing todo (contents r)) /\
  (forall n, owned_in r n -> owned_in r' n) /\
  (forall n, (forall d, (d, None) ∈ todo -> name_of d <> n) -> contents r' !! n = contents r !! n).
Proof.
  induction todo as [|[d [a|]] todo IH]; intros i r r' err Hwf Hg Hs; cbn [register_missing].
  - by intros [= <- <-].
  - apply Forall_cons in Hg as [_ Hg]. rewrite zlen_cons in Hs. intros E. destruct (IH _ _ _ _ Hwf Hg ltac:(lia) E) as (H1 & H2 & H3 & H4).
    split; [done|]. split; [done|]. split; [done|]. intros n Hn. apply H4. intros x Hx. apply Hn. by right.
  - apply Forall_cons in Hg as [Hd Hg]. rewrite zlen_cons in Hs. pose proof (zlen_nonneg todo).
    destruct (register_or_fail (ok i) r d) as [r1|e] eqn:Er.
    + destruct (register_step _ _ _ _ Hwf Hd ltac:(lia) Er) as (Hwf1 & Hc1 & Hn1). intros E.
      destruct (IH _ _ _ _ Hwf1 Hg ltac:(lia) E) as (H1 & H2 & H3 & H4). split; [done|]. split; [intros ->; by rewrite H2, Hc1|].
      split; [intros n Hn; eapply H3, register_owned; done|]. intros n Hn. rewrite H4, Hc1.
      * apply lookup_insert_ne. apply Hn. by left.
      * intros x Hx. apply Hn. by right.
    + by intros [= <- <-].
Qed.

Lemma auth_step ok r name v r' : registry_wf r -> set_auth_or_fail ok r name v = Ok r' ->
  registry_wf r' /\ contents r' = alter (with_requires_auth (int_bool v)) (default [] name) (contents r).
Proof.
  intros Hwf E. unfold set_auth_or_fail in E. pose proof (set_auth_refines r name v Hwf) as H.
  destruct (ducknng_method_registry_set_requires_auth r name v) as [r1|]; [|done]. destruct (_ || _)%bool; [|done].
  injection E as <-. by destruct H as (? & _ & ?).
Qed.

Lemma with_auth_twice v w d : with_requires_auth v (with_requires_auth w d) = with_requires_auth v d.
Proof. done. Qed.

Lemma auth_spec ok v todo : forall i r r' err, registry_wf r -> apply_auth ok i v todo r = (r', err) ->
  registry_wf r' /\ (err = None -> contents r' = spec_auth v todo (contents r)) /\
  (forall n, owned_in r n -> owned_in r' n) /\
  (forall n, n ∉ (fun e => name_of (fst e)) <$> todo -> contents r' !! n = contents r !! n) /\
  (forall n, contents r' !! n = contents r !! n \/
     (contents r' !! n = with_requires_auth (int_bool v) <$> contents r !! n /\ owned_in r' n)).
Proof.
  induction todo as [|[d a] todo IH]; intros i r r' err Hwf; cbn [apply_auth].
  { intros [= <- <-]. split; [done|]. split; [done|]. split; [done|]. split; [done|]. by left. }
  destruct (set_auth_or_fail (ok i) r (m_name d) v) as [r1|e] eqn:Er.
  - destruct (auth_step _ _ _ _ _ Hwf Er) as (Hwf1 & Hc1). intros E.
    destruct (IH _ _ _ _ Hwf1 E) as (H1 & H2 & H3 & H4 & H5). split; [done|]. split; [intros ->; by rewrite H2, Hc1|].
    split; [intros n Hn; apply H3; by apply (proj1 (set_auth_owned _ _ _ _ _ n Hwf Er))|]. split.
    + intros n Hn. rewrite fmap_cons in Hn. apply not_elem_of_cons in Hn as [Hne Hn]. rewrite H4, Hc1 by done.
      by rewrite lookup_alter_ne.
    + intros n. destruct (decide (n = default [] (m_name d))) as [->|Hne].
      * destruct (set_auth_owned _ _ _ _ _ (default [] (m_name d)) Hwf Er) as [_ Ho]. specialize (Ho eq_refl).
        specialize (H5 (default [] (m_name d))). rewrite Hc1, lookup_alter_eq in *. destruct H5 as [E1|[E1 E2]]; rewrite E1.
        -- destruct Ho as [Eq|Ho']; [left; exact Eq|right; split; [reflexivity|by apply H3]].
        -- right. split; [|done]. by destruct (contents r !! _).
      * specialize (H5 n). by rewrite Hc1, lookup_alter_ne in H5.
  - intros [= <- <-]. split; [done|]. split; [done|]. split; [done|]. split; [done|]. by left.
Qed.

(** Rolling back gives the map [m] where each entry knows what [m] held. *)
Definition restores (m : gmap bytes ducknng_method_descriptor) (r : ducknng_method_registry) (e : entry) : Prop :=
  match snd e with
  | None => m !! name_of (fst e) = None
  | Some a => exists d, m !! name_of (fst e) = Some d /\ requires_auth d = int_bool a /\
      (contents r !! name_of (fst e) = Some d \/
       exists x, contents r !! name_of (fst e) = Some (with_requires_auth x d) /\ owned_in r (name_of (fst e)))
  end.

Lemma restore_same d : with_requires_auth (requires_auth d) d = d.
Proof. by destruct d. Qed.

Lemma rollback_spec m todo : forall r, registry_wf r -> NoDup ((fun e => name_of (fst e)) <$> todo) -> Forall (restores m r) todo ->
  (forall n, n ∉ (fun e => name_of (fst e)) <$> todo -> contents r !! n = m !! n) ->
  registry_wf (roll_back todo r) /\ contents (roll_back todo r) = m.
Proof.
  induction todo as [|[d p] todo IH]; intros r Hwf Hnd Hr Ho; cbn [roll_back].
  { split; [done|]. apply map_eq. intros n. apply Ho. by intros ?%elem_of_nil. }
  rewrite fmap_cons in Hnd. apply NoDup_cons in Hnd as [Hnew Hnd]. apply Forall_cons in Hr as [Hd Hr]. cbn [fst] in *.
  assert (forall r1, registry_wf r1 -> contents r1 !! name_of d = m !! name_of d ->
    (forall n, n <> name_of d -> contents r1 !! n = contents r !! n /\ (owned_in r n -> owned_in r1 n)) ->
    registry_wf (roll_back todo r1) /\ contents (roll_back todo r1) = m) as Hgo.
  { intros r1 Hwf1 Hhere Hrest. apply IH; [done|done| |].
    - rewrite Forall_forall in Hr |- *. intros [e q] He. specialize (Hr _ He). unfold restores in *. destruct q as [a|]; [|done].
      cbn [fst snd] in *. assert (name_of e <> name_of d) as Hne.
      { intros E. apply Hnew. rewrite <- E. apply list_elem_of_fmap. by exists (e, Some a). }
      destruct (Hrest _ Hne) as [-> Hown]. destruct Hr as (x & E1 & E2 & E3). exists x. split; [done|]. split; [done|].
      destruct E3 as [?|(y & ? & ?)]; [by left|right]. exists y. auto.
    - intros n Hn. destruct (decide (n = name_of d)) as [->|Hne]; [done|].
      destruct (Hrest n Hne) as [-> _]. apply Ho. rewrite fmap_cons. by apply not_elem_of_cons. }
  destruct p as [a|].
  - destruct (restore_owned r (m_name d) a Hwf) as (H1 & H2 & H3). destruct Hd as (x & E1 & E2 & E3). cbn [fst] in *.
    assert (contents (ducknng_method_registry_restore_auth_inplace r (m_name d) a).1 = alter (with_requires_auth (int_bool a)) (name_of d) (contents r)) as Hc.
    { apply H3. destruct E3 as [E3|(y & _ & Hown)]; [right|by left]. fold (name_of d). rewrite E3. by intros z [= <-]. }
    apply Hgo; [done| |].
    + rewrite Hc, lookup_alter_eq, E1. destruct E3 as [->|(y & -> & _)]; cbn; rewrite ?with_auth_twice, <- E2; by rewrite restore_same.
    + intros n Hne. rewrite Hc, lookup_alter_ne by done. auto.
  - pose proof (unregister_refines r (m_name d) Hwf) as H. destruct (ducknng_method_registry_unregister r (m_name d)) as [r1 b] eqn:E.
    destruct H as (H1 & H2 & _). cbn [fst]. apply Hgo; [done| |].
    + rewrite H2, lookup_delete_eq. by rewrite Hd.
    + intros n Hne. rewrite H2, lookup_delete_ne by done. split; [done|]. intros Hown.
      pose proof (unregister_owned r (m_name d) n Hwf Hne Hown) as Hu. by rewrite E in Hu.
Qed.

Lemma missing_lookup todo : forall m n, NoDup ((fun e => name_of (fst e)) <$> todo) ->
  (n ∉ (fun e => name_of (fst e)) <$> todo -> spec_missing todo m !! n = m !! n) /\
  (forall d p, (d, p) ∈ todo -> (p = None <-> m !! name_of d = None) ->
     spec_missing todo m !! name_of d = Some (default d (m !! name_of d))).
Proof.
  induction todo as [|[e q] todo IH]; intros m n Hnd.
  { split; [done|]. intros d p H. by apply elem_of_nil in H. }
  rewrite fmap_cons in Hnd. apply NoDup_cons in Hnd as [Hnew Hnd].
  change (spec_missing ((e, q) :: todo) m) with (spec_missing todo (match q with None => <[name_of e := e]> m | Some _ => m end)).
  split.
  - rewrite fmap_cons. intros [Hne Hn]%not_elem_of_cons. rewrite (proj1 (IH _ n Hnd) Hn). destruct q; [done|]. by rewrite lookup_insert_ne.
  - intros d p [E|Hin]%elem_of_cons Hp.
    + injection E as -> ->. rewrite (proj1 (IH _ (name_of e) Hnd) Hnew). destruct q as [a|].
      * cbn [fst]. destruct (m !! name_of e) eqn:E; [done|]. by pose proof (proj2 Hp eq_refl).
      * rewrite lookup_insert_eq. by rewrite (proj1 Hp eq_refl).
    + assert (name_of e <> name_of d) as Hne.
      { intros E. apply Hnew. cbn. rewrite E. apply list_elem_of_fmap. by exists (d, p). }
      assert (forall q' : option Z, (match q' with None => <[name_of e := e]> m | Some _ => m end) !! name_of d = m !! name_of d) as Hsame
        by (intros []; [done|by rewrite lookup_insert_ne]).
      rewrite (proj2 (IH _ n Hnd) d p Hin); rewrite Hsame; done.
Qed.

Lemma auth_lookup v todo : forall m n, NoDup ((fun e => name_of (fst e)) <$> todo) ->
  spec_auth v todo m !! n = if bool_decide (n ∈ (fun e => name_of (fst e)) <$> todo)
    then with_requires_auth (int_bool v) <$> m !! n else m !! n.
Proof.
  induction todo as [|[e q] todo IH]; intros m n Hnd; [by rewrite bool_decide_eq_false_2 by (by intros ?%elem_of_nil)|].
  rewrite fmap_cons in Hnd |- *. apply NoDup_cons in Hnd as [Hnew Hnd].
  change (spec_auth v ((e, q) :: todo) m) with (spec_auth v todo (alter (with_requires_auth (int_bool v)) (name_of e) m)).
  rewrite IH by done. cbn [fst] in *. destruct (decide (n = name_of e)) as [->|Hne].
  - rewrite (bool_decide_eq_false_2 (_ ∈ _ <$> _)) by done. rewrite bool_decide_eq_true_2 by (by left). by rewrite lookup_alter_eq.
  - rewrite lookup_alter_ne by done. repeat case_bool_decide; try done.
    + exfalso. match goal with H : ~ _ |- _ => apply H end. by right.
    + exfalso. match goal with H : _ ∈ _ :: _ |- _ => apply elem_of_cons in H as [?|?] end; done.
Qed.

(** With enough memory both loops go through. *)
Lemma missing_complete ok todo : (forall i, ok i = true) -> forall i r, registry_wf r -> Forall good_entry todo ->
  method_count r + zlen todo <= SIZE_MAX -> NoDup ((fun e => name_of (fst e)) <$> todo) ->
  (forall d, (d, None) ∈ todo -> contents r !! name_of d = None) -> (register_missing ok i todo r).2 = None.
Proof.
  intros Hok. induction todo as [|[d [a|]] todo IH]; intros i r Hwf Hg Hs Hnd Ha; cbn [register_missing]; [done| |];
    rewrite fmap_cons in Hnd; apply NoDup_cons in Hnd as [Hnew Hnd]; apply Forall_cons in Hg as [Hd Hg]; rewrite zlen_cons in Hs; pose proof (zlen_nonneg todo).
  - apply IH; try done; [lia|]. intros x Hx. apply Ha. by right.
  - destruct (register_or_fail (ok i) r d) as [r1|e] eqn:Er.
    + destruct (register_step _ _ _ _ Hwf Hd ltac:(lia) Er) as (Hwf1 & Hc1 & Hn1). apply IH; try done; [lia|].
      intros x Hx. rewrite Hc1, lookup_insert_ne; [apply Ha; by right|]. intros E. apply Hnew. cbn. rewrite E.
      apply list_elem_of_fmap. by exists (x, None).
    + exfalso. unfold register_or_fail in Er. rewrite Hok in Er. pose proof (register_refines r (Some d) Hwf) as H'.
      destruct (ducknng_method_registry_register r (Some d)); [done|]. destruct Hd as [Hv Hl].
      unfold spec_register in H'. cbn [fst] in Hv. rewrite Hv in H'. rewrite bool_decide_eq_true_2 in H' by (apply Ha; by left).
      cbn in H'. specialize (H' ltac:(split; [done|cbn; lia])). done.
Qed.

Lemma auth_complete ok v todo : (forall i, ok i = true) -> forall i r, registry_wf r ->
  (forall e, e ∈ todo -> contents r !! name_of (fst e) <> None) -> (apply_auth ok i v todo r).2 = None.
Proof.
  intros Hok. induction todo as [|[d a] todo IH]; intros i r Hwf Ha; cbn [apply_auth]; [done|].
  destruct (set_auth_or_fail (ok i) r (m_name d) v) as [r1|e] eqn:Er.
  - destruct (auth_step _ _ _ _ _ Hwf Er) as (Hwf1 & Hc1). apply IH; [done|]. intros e He. rewrite Hc1.
    rewrite lookup_alter. case_decide; [|apply Ha; by right]. specialize (Ha e ltac:(by right)). subst.
    match goal with H : _ = name_of _ |- _ => rewrite H end. by destruct (contents r !! _).
  - exfalso. unfold set_auth_or_fail in Er. rewrite Hok in Er. pose proof (set_auth_refines r (m_name d) v Hwf) as H.
    destruct (ducknng_method_registry_set_requires_auth r (m_name d) v); [done|]. by eapply (Ha (d, a)); [left|].
Qed.

Lemma upload_names_distinct : NoDup (name_of <$> upload_methods).
Proof. apply (bool_decide_unpack _). vm_compute. exact I. Qed.

Lemma upload_entries r : (fun e : entry => name_of (fst e)) <$> ((fun d => (d, was_present r d)) <$> upload_methods) = name_of <$> upload_methods.
Proof. done. Qed.

Lemma upload_good r : Forall good_entry ((fun d => (d, was_present r d)) <$> upload_methods).
Proof.
  apply Forall_fmap. repeat (apply Forall_cons; split; [split; [reflexivity|vm_compute; discriminate]|]). apply Forall_nil_2.
Qed.

Lemma was_present_spec r d : registry_wf r -> zlen (name_of d) <= UINT32_MAX -> m_name d <> None ->
  was_present r d = (fun x => int_bool (requires_auth x)) <$> contents r !! name_of d.
Proof.
  intros Hwf Hl Hn. unfold was_present, name_of in *. destruct (m_name d) as [n|]; [|done]. cbn [default] in *. unfold id in *.
  destruct (find_spec r n Hwf) as [->|]; [|lia]. by destruct (contents r !! n).
Qed.

(** What the rollback list says of the registry it was made from. *)
Definition snapshot (r : ducknng_method_registry) : list entry := (fun d => (d, was_present r d)) <$> upload_methods.

Lemma snapshot_entry r d p : registry_wf r -> (d, p) ∈ snapshot r ->
  d ∈ upload_methods /\ p = (fun x => int_bool (requires_auth x)) <$> contents r !! name_of d.
Proof.
  intros Hwf Hin. pose proof (upload_good r) as Hg. rewrite Forall_forall in Hg. destruct (Hg _ Hin) as [Hv Hl].
  apply list_elem_of_fmap in Hin as (d' & E & Hd). injection E as -> ->. split; [done|].
  apply was_present_spec; [done|done|]. destruct (valid_name _ Hv) as (n & En & _). cbn [fst] in En. by rewrite En.
Qed.

(** Rolling back from any state the loops can reach. *)
Lemma upload_rollback r r1 : registry_wf r -> registry_wf r1 ->
  (forall d x, d ∈ upload_methods -> contents r !! name_of d = Some x -> requires_auth x = int_bool (requires_auth x)) ->
  (forall n, n ∉ name_of <$> upload_methods -> contents r1 !! n = contents r !! n) ->
  (forall n x, contents r !! n = Some x -> contents r1 !! n = Some x \/
     exists a, contents r1 !! n = Some (with_requires_auth a x) /\ owned_in r1 n) ->
  registry_wf (roll_back (snapshot r) r1) /\ contents (roll_back (snapshot r) r1) = contents r.
Proof.
  intros Hwf Hwf1 Hflag Ho Hx. apply rollback_spec; [done|exact upload_names_distinct| |exact Ho].
  apply Forall_forall. intros [d p] Hin. unfold restores. cbn [fst snd]. destruct (snapshot_entry r d p Hwf Hin) as [Hd ->].
  destruct (contents r !! name_of d) as [x|] eqn:E; cbn; [|done]. exists x. split; [done|].
  split; [rewrite <- (Hflag d x Hd E); by apply (Hflag d x Hd)|]. by apply Hx.
Qed.

(** C11. Registering the upload methods is atomic.  Whatever the registry
    holds of the family and wherever an allocation fails, the call either
    succeeds, and then all four methods are there with the requested auth
    policy (those that were there keep everything else), or it reports an
    error and the registry maps every name to the descriptor it had before,
    auth policy included.  Other methods are never touched, and with enough
    memory the call succeeds. *)
Theorem upload_registration_atomic ok_register ok_auth v r :
  registry_wf r -> method_count r + 4 <= SIZE_MAX ->
  (forall d x, d ∈ upload_methods -> contents r !! name_of d = Some x -> requires_auth x = int_bool (requires_auth x)) ->
  let (r', err) := ducknng_register_upload_methods_with_auth ok_register ok_auth v r in
  registry_wf r' /\
  (match err with
   | None =>
     (forall d, d ∈ upload_methods ->
        contents r' !! name_of d = Some (with_requires_auth (int_bool v) (default d (contents r !! name_of d)))) /\
     (forall n, n ∉ name_of <$> upload_methods -> contents r' !! n = contents r !! n)
   | Some _ => contents r' = contents r
   end) /\
  ((forall i, ok_register i = true) -> (forall i, ok_auth i = true) -> err = None).
Proof.
  intros Hwf Hs Hflag. unfold ducknng_register_upload_methods_with_auth.
  set (todo := (fun d => (d, was_present r d)) <$> upload_methods).
  assert (NoDup ((fun e : entry => name_of (fst e)) <$> todo)) as Hnd by exact upload_names_distinct.
  pose proof (upload_good r) as Hg. fold todo in Hg.
  pose proof (fun d p => snapshot_entry r d p Hwf) as Hp. pose proof (fun r1 H => upload_rollback r r1 Hwf H Hflag) as Hroll.
  fold (snapshot r) in todo. fold todo in Hp, Hroll.
  assert (zlen todo = 4) as Hlen by done.
  assert (forall d, (d, None) ∈ todo -> contents r !! name_of d = None) as Habs.
  { intros d Hin. destruct (Hp d _ Hin) as [_ E]. by destruct (contents r !! name_of d). }
  destruct (register_missing ok_register 0 todo r) as [r1 err1] eqn:E1.
  destruct (missing_spec _ _ _ _ _ _ Hwf Hg ltac:(lia) E1) as (Hwf1 & Hc1 & Hown1 & Hoth1).
  assert (forall n, n ∉ name_of <$> upload_methods -> contents r1 !! n = contents r !! n) as Hout1.
  { intros n Hn. apply Hoth1. intros d Hd <-. apply Hn. apply list_elem_of_fmap. exists d. split; [done|]. by apply (Hp d _ Hd). }
  assert (forall n x, contents r !! n = Some x -> contents r1 !! n = Some x) as Hkeep1.
  { intros n x Hx. rewrite Hoth1; [done|]. intros d Hd <-. by rewrite (Habs d Hd) in Hx. }
  destruct err1 as [e1|].
  { destruct (Hroll r1 Hwf1 Hout1) as [K1 K2]; [intros n x Hx; left; by apply Hkeep1|]. split; [done|]. split; [done|].
    intros Hok _. pose proof (missing_complete ok_register todo Hok 0 r Hwf Hg ltac:(lia) Hnd Habs) as Hn. by rewrite E1 in Hn. }
  specialize (Hc1 eq_refl).
  destruct (apply_auth ok_auth 0 (if v =? 0 then 0 else 1) todo r1) as [r2 err2] eqn:E2.
  destruct (auth_spec _ _ _ _ _ _ _ Hwf1 E2) as (Hwf2 & Hc2 & _ & Hout2 & Hflip2).
  assert (int_bool (if v =? 0 then 0 else 1) = int_bool v) as Hv by (unfold int_bool; by destruct (v =? 0)).
  rewrite Hv in *. destruct err2 as [e2|].
  - destruct (Hroll r2 Hwf2) as [K1 K2].
    + intros n Hn. rewrite Hout2 by done. by apply Hout1.
    + intros n x Hx. apply Hkeep1 in Hx. destruct (Hflip2 n) as [->|[-> Hown]]; rewrite Hx; [by left|right; by eexists].
    + split; [done|]. split; [done|]. intros _ Hok.
      pose proof (auth_complete ok_auth (if v =? 0 then 0 else 1) todo Hok 0 r1 Hwf1) as Hn. rewrite E2 in Hn. apply Hn.
      intros [d p] Hin. cbn [fst]. rewrite Hc1, (proj2 (missing_lookup todo (contents r) [] Hnd) d p Hin); [done|].
      rewrite (proj2 (Hp d p Hin)). by destruct (contents r !! name_of d).
  - split; [done|]. split; [|done]. rewrite (Hc2 eq_refl). split.
    + intros d Hd. assert ((d, was_present r d) ∈ todo) as Hin by (apply list_elem_of_fmap; by exists d).
      rewrite auth_lookup by done. rewrite bool_decide_eq_true_2 by (apply list_elem_of_fmap; by exists (d, was_present r d)).
      rewrite Hc1, (proj2 (missing_lookup todo (contents r) [] Hnd) d _ Hin); [by rewrite Hv|].
      rewrite (proj2 (Hp d _ Hin)). by destruct (contents r !! name_of d).
    + intros n Hn. rewrite auth_lookup by done. rewrite bool_decide_eq_false_2 by done. by apply Hout1.
Qed.

(** Two of the four methods are there, one of them with auth; registering
    with auth fails at the last copy. *)
Definition demo_family : ducknng_method_registry :=
  mk_registry [mk_slot ducknng_method_upload_open false; mk_slot (with_requires_auth 1 ducknng_method_upload_commit) true] 8.

Lemma demo_family_wf : registry_wf demo_family.
Proof.
  split; [|apply (bool_decide_unpack _); vm_compute; exact I|vm_compute; discriminate].
  repeat (apply Forall_cons; split; [split; [reflexivity|vm_compute; discriminate]|]). apply Forall_nil_2.
Qed.

Lemma upload_registration_atomic_witness :
  (ducknng_register_upload_methods_with_auth (fun _ => true) (fun i => Nat.ltb i 3) 1 demo_family).2 =
    Some (lit "ducknng: out of memory updating method auth policy") /\
  contents (ducknng_register_upload_methods_with_auth (fun _ => true) (fun i => Nat.ltb i 3) 1 demo_family).1 = contents demo_family.
Proof.
  pose proof (upload_registration_atomic (fun _ => true) (fun i => Nat.ltb i 3) 1 demo_family demo_family_wf ltac:(vm_compute; discriminate)) as H.
  split; [vm_compute; reflexivity|].
  destruct (ducknng_register_upload_methods_with_auth (fun _ => true) (fun i => Nat.ltb i 3) 1 demo_family) as [r' [e|]] eqn:E;
    [|exfalso; revert E; vm_compute; discriminate].
  destruct H as (_ & H & _); [|exact H].
  assert (forall n, from_option (fun x => bool_decide (requires_auth x = int_bool (requires_auth x))) true (contents demo_family !! n) = true) as Hall.
  { intros n. destruct (contents demo_family !! n) as [x|] eqn:Ex; [|reflexivity]. cbn. apply bool_decide_eq_true_2.
    apply contents_spec in Ex as (s & Hs & _ & <-); [|exact demo_family_wf]. revert s Hs. apply Forall_forall.
    repeat (apply Forall_cons; split; [reflexivity|]). apply Forall_nil_2. }
  intros d x _ Hx. specialize (Hall (name_of d)). rewrite Hx in Hall. by apply bool_decide_eq_true_1 in Hall.
Defined.

(** ** Replies and descriptors *)

(** Every result a program may end with. *)
Fixpoint yields {W A} (p : prog W A) (Q : A -> Prop) : Prop :=
  match p with Ret a => Q a | Step act k => forall w w' x, act w = Some (w', x) -> yields (k x) Q end.

Lemma yields_bind {W A C} (p : prog W A) (f : A -> prog W C) Q : (forall a, yields (f a) Q) -> yields (pbind p f) Q.
Proof. intros H. induction p as [a|X act k IH]; [apply H|]. cbn. intros w w' x _. apply IH. Qed.

Lemma yields_then {W A C} (p : prog W A) (f : A -> prog W C) (P : A -> Prop) Q :
  yields p P -> (forall a, P a -> yields (f a) Q) -> yields (pbind p f) Q.
Proof.
  intros Hp H. induction p as [a|X act k IH]; [by apply H|]. cbn in *. intros w w' x Hx. apply IH. by eapply Hp.
Qed.

Lemma yields_locked {chunk A X} p f (k : X -> prog (@mworld chunk) A) Q : (forall s str, yields (k (f s str).2) Q) ->
  yields (pbind (locked p f) k) Q.
Proof.
  intros H. cbn. intros w w' x. destruct (mw_heap w !! p) as [s|]; [|done].
  specialize (H s (mw_streams w !! p)). destruct (f s _) as [[[s' calls] str] y]. by intros [= _ <-].
Qed.

(** A reply the dispatcher sends as it is: an error is structured, and the
    flags of a result are among the ones the descriptor declares. *)
Definition declared (d : ducknng_method_descriptor) (h : handled) : Prop :=
  (fst h <> 0 -> reply_type (snd h) = DUCKNNG_RPC_ERROR) /\
  (fst h = 0 -> reply_type (snd h) = DUCKNNG_RPC_RESULT /\ extra_flags (reply_flags (snd h)) (emitted_reply_flags d) = false).

Lemma refuse_declared d status text : declared d (refuse status text).
Proof. split; [done|]. by intros H. Qed.

Lemma not_found_declared d auth text : declared d (not_found auth text).
Proof. unfold not_found. destruct (auth =? 0); apply refuse_declared. Qed.

Lemma state_declared d flags v : extra_flags (Z.lor flags DUCKNNG_RPC_FLAG_PAYLOAD_JSON) (emitted_reply_flags d) = false ->
  declared d (ducknng_session_state_reply flags v).
Proof. intros H. split; [by intros H0; destruct H0|]. intros _. by split. Qed.

Lemma result_declared d r : reply_type r = DUCKNNG_RPC_RESULT -> extra_flags (reply_flags r) (emitted_reply_flags d) = false ->
  declared d (0, r).
Proof. intros H1 H2. split; [by intros H0; destruct H0|]. intros _. by split. Qed.

Ltac declare :=
  repeat match goal with
  | |- yields (Ret _) _ => cbn [yields]
  | |- yields (pbind (locked _ _) _) _ => apply yields_locked; intros ? ?
  | |- yields (pbind _ _) _ => apply yields_bind; intros ?
  | |- yields (match ?x with _ => _ end) _ => destruct x
  | |- declared _ (match ?x with _ => _ end) => destruct x
  | |- declared _ (refuse _ _) => apply refuse_declared
  | |- declared _ (not_found _ _) => apply not_found_declared
  | |- declared _ (ducknng_session_state_reply _ _) => apply state_declared; reflexivity
  | |- declared _ (0, _) => apply result_declared; reflexivity
  end.

Section declared.
Context {chunk : Type}.

Lemma fetch_declared encode pending now prefix id corr s (str : option (@stream chunk)) :
  declared ducknng_method_fetch (fetch_locked encode pending now prefix id corr s str).2.
Proof.
  unfold fetch_locked. cbv zeta. repeat case_match; cbn [snd]; try apply refuse_declared; try (apply state_declared; reflexivity).
  all: unfold ducknng_fetch_set_row_reply; destruct (_ =? QUACK_BATCH); apply result_declared; reflexivity.
Qed.

Lemma append_declared answer now s (str : option (@stream chunk)) :
  declared ducknng_method_upload_append (append_locked answer now s str).2.
Proof.
  unfold append_locked. cbv zeta. repeat case_match; cbn [snd]; try apply refuse_declared.
  apply result_declared; reflexivity.
Qed.

Lemma parse_declared d frame name h : ducknng_parse_session_control_request frame name = inr h -> declared d h.
Proof.
  unfold ducknng_parse_session_control_request. repeat case_match; try done; intros [= <-]; apply refuse_declared.
Qed.

Lemma check_declared d id token caller up :
  yields (ducknng_session_check_kind (chunk := chunk) id token caller up) (fun r => forall h, r = Some h -> declared d h).
Proof.
  unfold ducknng_session_check_kind. apply yields_bind. intros [[p|] auth].
  - apply yields_bind. intros up'. apply yields_bind. intros _ h. repeat case_match; try done; intros [= <-]; apply refuse_declared.
  - intros h [= <-]. apply not_found_declared.
Qed.

Lemma end_query_declared d name state flags cancel req :
  extra_flags (Z.lor flags DUCKNNG_RPC_FLAG_PAYLOAD_JSON) (emitted_reply_flags d) = false ->
  yields (end_query (chunk := chunk) name state flags cancel req) (declared d).
Proof.
  intros Hf. unfold end_query. destruct (ducknng_parse_session_control_request _ _) as [c|h] eqn:E; [|by eapply parse_declared].
  eapply yields_then; [apply check_declared|]. intros [h|] Hh; [by apply Hh|]. declare. by apply state_declared.
Qed.

Lemma end_upload_declared d name req k : (forall p, yields (k p) (declared d)) ->
  yields (end_upload (chunk := chunk) name req k) (declared d).
Proof.
  intros Hk. unfold end_upload. destruct (ducknng_parse_session_control_request _ _) as [c|h] eqn:E; [|by eapply parse_declared].
  eapply yields_then; [apply check_declared|]. intros [h|] Hh; [by apply Hh|]. declare. apply Hk.
Qed.

Lemma scope_declared d e s body s' h : (forall con, declared d (body con).2) -> in_sql_scope e s body = Some (s', h) -> declared d h.
Proof.
  intros Hb. unfold in_sql_scope. destruct (ducknng_service_enter_request_sql e s) as [[s1 [[con sc]|text]]|]; [| |done].
  - specialize (Hb con). destruct (body con) as [es h']. by intros [= _ <-].
  - intros [= _ <-]. apply refuse_declared.
Qed.

(** What the manifest declares is what the handlers do: every reply of
    every built-in method is either a structured error or a result whose flags
    are among the reply flags of the method's descriptor, whatever the state of
    the service and whatever DuckDB answers; so the dispatcher never replaces
    the reply of a handler because of its flags or its type. *)
Theorem replies_declared encode pending now req (a : @open_answers chunk) decode rows idle connects e method ua answer ca
    r version platform result_to_ipc schema_to_ipc metadata_to_ipc xdecode pdecode se sa st st' h :
  yields (ducknng_method_query_open_handler decode rows idle connects a e req) (declared ducknng_method_query_open) /\
  yields (ducknng_method_fetch_handler (chunk := chunk) encode pending now method req) (declared ducknng_method_fetch) /\
  yields (ducknng_method_close_handler (chunk := chunk) req) (declared ducknng_method_close) /\
  yields (ducknng_method_cancel_handler (chunk := chunk) req) (declared ducknng_method_cancel) /\
  yields (ducknng_method_upload_open_handler (chunk := chunk) idle connects ua e req) (declared ducknng_method_upload_open) /\
  yields (ducknng_method_upload_append_handler (chunk := chunk) answer now req) (declared ducknng_method_upload_append) /\
  yields (ducknng_method_upload_commit_handler (chunk := chunk) ca req) (declared ducknng_method_upload_commit) /\
  yields (ducknng_method_upload_abort_handler (chunk := chunk) req) (declared ducknng_method_upload_abort) /\
  declared ducknng_method_handshake (ducknng_method_handshake_handler r version platform (rc_frame req)) /\
  (ducknng_method_exec_handler result_to_ipc metadata_to_ipc xdecode se sa st req = Some (st', h) -> declared ducknng_method_exec h) /\
  (ducknng_method_query_prepare_handler schema_to_ipc pdecode se sa st req = Some (st', h) -> declared ducknng_method_query_prepare h).
Proof.
  split; [unfold ducknng_method_query_open_handler; declare|].
  split; [unfold ducknng_method_fetch_handler; destruct (ducknng_size_add _ _); [|declare];
    destruct (ducknng_parse_session_control_request _ _) eqn:E; [|by eapply parse_declared]; declare; unfold upload_refused; declare; apply fetch_declared|].
  split; [by apply end_query_declared|]. split; [by apply end_query_declared|].
  split; [unfold ducknng_method_upload_open_handler, upload_fail; declare|].
  split; [unfold ducknng_method_upload_append_handler; cbv zeta; declare; apply append_declared|].
  split; [apply end_upload_declared; intros p; declare|]. split; [apply end_upload_declared; intros p; declare|].
  split; [unfold ducknng_method_handshake_handler; cbv zeta; declare|]. split.
  - unfold ducknng_method_exec_handler. destruct (xdecode _) as [rq|text]; [|intros [= _ <-]; apply refuse_declared].
    apply scope_declared. intros _. unfold metadata_reply, rows_reply, ducknng_query_to_ipc_stream. repeat case_match; cbn [snd]; declare.
  - unfold ducknng_method_query_prepare_handler. destruct (pdecode _) as [[sql n]|text]; [|intros [= _ <-]; apply refuse_declared].
    apply scope_declared. intros _. repeat case_match; cbn [snd]; declare.
Qed.
End declared.

Lemma replies_declared_witness :
  declared ducknng_method_close (refuse DUCKNNG_STATUS_NOT_FOUND (lit "ducknng: session not found")) /\
  yields (ducknng_method_close_handler (chunk := Z) demo_exec_context) (declared ducknng_method_close).
Proof.
  split; [apply refuse_declared|].
  exact (proj1 (proj2 (proj2 (replies_declared (fun _ _ _ => Err []) PendingError 0 demo_exec_context
    (mk_open_answers 0 None None None None false (mk_stream [] false)) (fun _ => Err []) 1 0 false (mk_entropy (0, 0, 0, 0) (0, 0, 0, 0) 0)
    ducknng_method_fetch (mk_upload_answers None None (fun _ => Ok [])) (Appended 0) (mk_commit_answers None None None)
    ducknng_method_registry_init [] [] (Err None) (Err None) (fun _ _ _ => Err None) demo_exec_decode (fun _ => Err []) demo_scope_env
    demo_insert demo_exec_state demo_exec_state (refuse 0 []))))).
Defined.
