(* ===== verification/Manifest.v ===== *)
(** The manifest: [ducknng_method_registry_manifest_json] of
    [src/src/ducknng_registry.c] and the [manifest] method of
    [src/src/ducknng_methods.c].

    The manifest is one JSON text appended piece by piece to a growing buffer.
    The reference is a JSON value and its rendering: the pieces make up
    exactly the rendering of the value a reader of the manifest expects. *)

From stdpp Require Import gmap.
From S2P Require Import Prelude Wire Util Registry Peers Admission Session Dispatch Runtime Control Threads Methods Upload Exec Builtins.

(** ** The security section *)

Record ducknng_manifest_security := mk_security {
  ms_tls_enabled : bool; ms_tls_auth_mode : Z; ms_peer_identity_required : bool; ms_peer_allowlist_active : bool;
  ms_peer_allowlist_count : Z; ms_ip_allowlist_active : bool; ms_ip_allowlist_count : Z; ms_sql_authorizer_active : bool;
  ms_sessions_bind : bool; ms_session_idle_timeout_ms : Z; ms_max_open_sessions : Z; ms_max_sessions_per_peer_identity : Z;
  ms_peer_identity_format : bytes; ms_execution_model : bytes }.

Definition DUCKNNG_PEER_IDENTITY_FORMAT_TLS : bytes := lit "tls:san:<value>|tls:cn:<common-name>".
Definition ducknng_service_peer_identity_format : bytes := DUCKNNG_PEER_IDENTITY_FORMAT_TLS.

Definition ducknng_execution_model_name (model : Z) : bytes :=
  if model =? DUCKNNG_EXECUTION_SERVICE_SERIALIZED_CONNECTION then lit "service_serialized_connection"
  else if model =? DUCKNNG_EXECUTION_REQUEST_CONNECTION then lit "request_connection"
  else lit "shared_serialized_connection".

Definition ducknng_service_manifest_security (s : server) (execution_model : Z) : ducknng_manifest_security :=
  let p := sv_policy s in
  mk_security (tls_enabled p) (auth_mode (tls_opts p)) (ducknng_service_requires_peer_identity p)
    (peer_allowlist_active (tls_opts p)) (zlen (peer_allowlist (tls_opts p))) (ip_allowlist_active p) (zlen (ip_allowlist p))
    (authorizer_active p) true (sv_session_idle_ms s) (max_open_sessions (sv_limits s)) (max_sessions_per_peer_identity (sv_limits s))
    ducknng_service_peer_identity_format (ducknng_execution_model_name execution_model).

(** ** The text *)

Definition truth (b : bool) : bytes := if b then lit "true" else lit "false".

(** [%d] and [%llu] of an [int] and of a [uint64_t]. *)
Definition print_int (z : Z) : bytes := if z <? 0 then lit "-" ++ print_llu (- z) else print_llu z.

(** [buf] with a field name, quotes written as apostrophes, and its value. *)
Definition add_text (key : string) (value buf : bytes) : bytes := buf ++ jlit key ++ value.
Definition add_string (key : string) (value : option bytes) (buf : bytes) : bytes := append_json_string (buf ++ jlit key) value.

Definition security_text (s : ducknng_manifest_security) (buf : bytes) : bytes :=
  let buf := add_text ",'security':{'tls_enabled':" (truth (ms_tls_enabled s)) buf in
  let buf := add_text ",'tls_auth_mode':" (print_int (ms_tls_auth_mode s)) buf in
  let buf := add_text ",'peer_identity_required':" (truth (ms_peer_identity_required s)) buf in
  let buf := add_text ",'peer_allowlist_active':" (truth (ms_peer_allowlist_active s)) buf in
  let buf := add_text ",'peer_allowlist_count':" (print_llu (ms_peer_allowlist_count s)) buf in
  let buf := add_text ",'ip_allowlist_active':" (truth (ms_ip_allowlist_active s)) buf in
  let buf := add_text ",'ip_allowlist_count':" (print_llu (ms_ip_allowlist_count s)) buf in
  let buf := add_text ",'sql_authorizer_active':" (truth (ms_sql_authorizer_active s)) buf in
  let buf := add_string ",'peer_identity_format':" (Some (ms_peer_identity_format s)) buf in
  let buf := add_text ",'sessions_bind_peer_identity_when_present':" (truth (ms_sessions_bind s)) buf in
  let buf := add_string "},'execution':{'model':" (Some (ms_execution_model s)) buf in
  let buf := add_text "},'session_policy':{'idle_timeout_ms':" (print_llu (ms_session_idle_timeout_ms s)) buf in
  let buf := add_text ",'idle_timeout_owner':'server','max_open_sessions':" (print_llu (ms_max_open_sessions s)) buf in
  let buf := add_text ",'max_open_sessions_owner':'server','max_sessions_per_peer_identity':"
    (print_llu (ms_max_sessions_per_peer_identity s)) buf in
  add_text ",'max_sessions_per_peer_identity_owner':'server'}" [] buf.

(** The methods that take parameters, of those registered. *)
Fixpoint capability_loop (r : ducknng_method_registry) (names : list bytes) (emitted : bool) (buf : bytes) : bytes :=
  match names with
  | [] => buf
  | name :: names =>
    match ducknng_method_registry_find r (Some name) (u32 (zlen name)) with
    | None => capability_loop r names emitted buf
    | Some _ => capability_loop r names true (append_json_string (if emitted then buf ++ lit "," else buf) (Some name))
    end
  end.

Definition append_parameter_binding_capability (r : ducknng_method_registry) (buf : bytes) : bytes :=
  let buf := add_text "'parameter_binding':{'encoding':'arrow_struct','positional':true,'methods':[" [] buf in
  let buf := capability_loop r [lit "exec"; lit "query_open"; lit "query_prepare"] false buf in
  add_text "],'max_parameters':65535}" [] buf.

Definition schema_text (schema : option bytes) : bytes := default (lit "null") schema.
Definition flag_text (v : Z) : bytes := truth (negb (v =? 0)).

Definition method_text (d : ducknng_method_descriptor) (buf : bytes) : bytes :=
  let buf := add_string "{'name':" (m_name d) buf in
  let buf := add_string ",'family':" (m_family d) buf in
  let buf := add_string ",'summary':" (m_summary d) buf in
  let buf := add_string ",'transport_pattern':" (Some (ducknng_transport_pattern_name (transport_pattern d))) buf in
  let buf := add_string ",'request_payload_format':" (Some (ducknng_payload_format_name (request_payload_format d))) buf in
  let buf := add_string ",'response_payload_format':" (Some (ducknng_payload_format_name (response_payload_format d))) buf in
  let buf := add_string ",'response_mode':" (Some (ducknng_response_mode_name (response_mode d))) buf in
  let buf := add_string ",'session_behavior':" (Some (ducknng_session_behavior_name (session_behavior d))) buf in
  let buf := add_text ",'requires_auth':" (flag_text (requires_auth d)) buf in
  let buf := add_text ",'requires_session':" (flag_text (requires_session d)) buf in
  let buf := add_text ",'opens_session':" (flag_text (opens_session d)) buf in
  let buf := add_text ",'closes_session':" (flag_text (closes_session d)) buf in
  let buf := add_text ",'mutates_state':" (flag_text (mutates_state d)) buf in
  let buf := add_text ",'idempotent':" (flag_text (idempotent d)) buf in
  let buf := add_text ",'deprecated':" (flag_text (deprecated d)) buf in
  let buf := add_text ",'disabled':" (flag_text (disabled d)) buf in
  let buf := add_text ",'accepted_request_flags':" (print_llu (accepted_request_flags d)) buf in
  let buf := add_text ",'emitted_reply_flags':" (print_llu (emitted_reply_flags d)) buf in
  let buf := add_text ",'max_request_bytes':" (print_llu (max_request_bytes d)) buf in
  let buf := add_text ",'max_reply_bytes':" (print_llu (max_reply_bytes d)) buf in
  let buf := add_text ",'version_introduced':" (print_int (version_introduced d)) buf in
  let buf := add_text ",'request_schema':" (schema_text (request_schema_json d)) buf in
  let buf := add_text ",'response_schema':" (schema_text (response_schema_json d)) buf in
  add_text "}" [] buf.

Fixpoint methods_text (l : list slot) (i : nat) (buf : bytes) : bytes :=
  match l with
  | [] => buf
  | s :: l => methods_text l (S i) (method_text (slot_method s) (if Nat.ltb 0 i then buf ++ lit "," else buf))
  end.

Definition ducknng_method_registry_manifest_json (r : ducknng_method_registry) (server_name server_version : option bytes)
    (protocol_version : Z) (security : option ducknng_manifest_security) : bytes :=
  let buf := add_string "{'server':{'name':" (Some (default (lit "ducknng") server_name)) [] in
  let buf := add_string ",'version':" (Some (default DUCKNNG_VERSION server_version)) buf in
  let buf := add_text ",'protocol_version':" (print_int protocol_version) buf in
  let buf := match security with Some s => security_text s buf | None => buf end in
  let buf := add_text "},'capabilities':{'handshake':true,'supported_serialization_modes':['arrow_ipc_stream','ducknng_quack_batch'],'fetch_metadata':{'correlation_id':true,'result_handle':true,'batch_index':true},'session_schema':{'ducknng_protocol_version':true,'row_schema_version':true,'fetch_batch_chunks':true}," [] buf in
  let buf := append_parameter_binding_capability r buf in
  let buf := add_text "},'methods':[" [] buf in
  let buf := methods_text (methods r) 0 buf in
  add_text "]}" [] buf.

Definition ducknng_method_manifest_handler (s : server) (execution_model : Z) (req : ducknng_request_context) : handled :=
  if negb (f_payload_len (rc_frame req) =? 0)
  then refuse DUCKNNG_STATUS_INVALID (lit "ducknng: manifest request does not accept a payload") else
  let json := ducknng_method_registry_manifest_json (sv_registry s) (Some (lit "ducknng")) (Some DUCKNNG_VERSION)
    DUCKNNG_WIRE_VERSION (Some (ducknng_service_manifest_security s execution_model)) in
  (0, ducknng_method_reply_set_payload ducknng_method_reply_init DUCKNNG_RPC_RESULT DUCKNNG_RPC_FLAG_PAYLOAD_JSON
        (Some json) (zlen json)).

(** ** JSON values *)

Inductive json := JNull | JBool (b : bool) | JNum (z : Z) | JStr (s : bytes) | JArr (l : list json) | JObj (l : list (bytes * json)).

Fixpoint commas (l : list bytes) : bytes :=
  match l with [] => [] | [x] => x | x :: l => x ++ lit "," ++ commas l end.

Definition json_string (s : bytes) : bytes := append_json_string [] (Some s).

Fixpoint render (j : json) : bytes :=
  match j with
  | JNull => lit "null"
  | JBool b => truth b
  | JNum z => print_int z
  | JStr s => json_string s
  | JArr l => lit "[" ++ commas (map render l) ++ lit "]"
  | JObj l => lit "{" ++ commas (map (fun kv => json_string (fst kv) ++ lit ":" ++ render (snd kv)) l) ++ lit "}"
  end.

Definition flag_value (v : Z) : json := JBool (negb (v =? 0)).

(** A method with the values of its two schemas. *)
Definition method_value (m : ducknng_method_descriptor * json * json) : json :=
  let '(d, request, response) := m in
  JObj [(lit "name", JStr (default [] (m_name d))); (lit "family", JStr (default [] (m_family d)));
    (lit "summary", JStr (default [] (m_summary d)));
    (lit "transport_pattern", JStr (ducknng_transport_pattern_name (transport_pattern d)));
    (lit "request_payload_format", JStr (ducknng_payload_format_name (request_payload_format d)));
    (lit "response_payload_format", JStr (ducknng_payload_format_name (response_payload_format d)));
    (lit "response_mode", JStr (ducknng_response_mode_name (response_mode d)));
    (lit "session_behavior", JStr (ducknng_session_behavior_name (session_behavior d)));
    (lit "requires_auth", flag_value (requires_auth d)); (lit "requires_session", flag_value (requires_session d));
    (lit "opens_session", flag_value (opens_session d)); (lit "closes_session", flag_value (closes_session d));
    (lit "mutates_state", flag_value (mutates_state d)); (lit "idempotent", flag_value (idempotent d));
    (lit "deprecated", flag_value (deprecated d)); (lit "disabled", flag_value (disabled d));
    (lit "accepted_request_flags", JNum (accepted_request_flags d)); (lit "emitted_reply_flags", JNum (emitted_reply_flags d));
    (lit "max_request_bytes", JNum (max_request_bytes d)); (lit "max_reply_bytes", JNum (max_reply_bytes d));
    (lit "version_introduced", JNum (version_introduced d)); (lit "request_schema", request); (lit "response_schema", response)].

Definition security_values (s : ducknng_manifest_security) : list (bytes * json) :=
  [(lit "security", JObj [(lit "tls_enabled", JBool (ms_tls_enabled s)); (lit "tls_auth_mode", JNum (ms_tls_auth_mode s));
      (lit "peer_identity_required", JBool (ms_peer_identity_required s)); (lit "peer_allowlist_active", JBool (ms_peer_allowlist_active s));
      (lit "peer_allowlist_count", JNum (ms_peer_allowlist_count s)); (lit "ip_allowlist_active", JBool (ms_ip_allowlist_active s));
      (lit "ip_allowlist_count", JNum (ms_ip_allowlist_count s)); (lit "sql_authorizer_active", JBool (ms_sql_authorizer_active s));
      (lit "peer_identity_format", JStr (ms_peer_identity_format s));
      (lit "sessions_bind_peer_identity_when_present", JBool (ms_sessions_bind s))]);
   (lit "execution", JObj [(lit "model", JStr (ms_execution_model s))]);
   (lit "session_policy", JObj [(lit "idle_timeout_ms", JNum (ms_session_idle_timeout_ms s)); (lit "idle_timeout_owner", JStr (lit "server"));
      (lit "max_open_sessions", JNum (ms_max_open_sessions s)); (lit "max_open_sessions_owner", JStr (lit "server"));
      (lit "max_sessions_per_peer_identity", JNum (ms_max_sessions_per_peer_identity s));
      (lit "max_sessions_per_peer_identity_owner", JStr (lit "server"))])].

Definition registered (r : ducknng_method_registry) (name : bytes) : bool :=
  match ducknng_method_registry_find r (Some name) (u32 (zlen name)) with Some _ => true | None => false end.

Definition manifest_value (r : ducknng_method_registry) (name version : bytes) (protocol : Z) (security : option ducknng_manifest_security)
    (ms : list (ducknng_method_descriptor * json * json)) : json :=
  JObj [(lit "server", JObj ([(lit "name", JStr name); (lit "version", JStr version); (lit "protocol_version", JNum protocol)] ++
          from_option security_values [] security));
    (lit "capabilities", JObj [(lit "handshake", JBool true);
       (lit "supported_serialization_modes", JArr [JStr (lit "arrow_ipc_stream"); JStr (lit "ducknng_quack_batch")]);
       (lit "fetch_metadata", JObj [(lit "correlation_id", JBool true); (lit "result_handle", JBool true); (lit "batch_index", JBool true)]);
       (lit "session_schema", JObj [(lit "ducknng_protocol_version", JBool true); (lit "row_schema_version", JBool true);
          (lit "fetch_batch_chunks", JBool true)]);
       (lit "parameter_binding", JObj [(lit "encoding", JStr (lit "arrow_struct")); (lit "positional", JBool true);
          (lit "methods", JArr (JStr <$> filter (fun n => registered r n = true) [lit "exec"; lit "query_open"; lit "query_prepare"]));
          (lit "max_parameters", JNum 65535)])]);
    (lit "methods", JArr (method_value <$> ms))].

Lemma add_text_app key v buf : add_text key v buf = buf ++ jlit key ++ v.
Proof. done. Qed.

Lemma add_string_app key v buf : add_string key v buf = buf ++ jlit key ++ json_string (default [] v).
Proof. unfold add_string, append_json_string, json_string, append_json_string. cbn [app]. by rewrite <- !app_assoc. Qed.

Definition numbers_ok (d : ducknng_method_descriptor) : Prop :=
  0 <= accepted_request_flags d /\ 0 <= emitted_reply_flags d /\ 0 <= max_request_bytes d /\ 0 <= max_reply_bytes d.

Lemma print_int_nonneg z : 0 <= z -> print_int z = print_llu z.
Proof. intros H. unfold print_int. by destruct (Z.ltb_spec z 0); [lia|]. Qed.

Lemma method_text_render d request response buf : numbers_ok d ->
  schema_text (request_schema_json d) = render request -> schema_text (response_schema_json d) = render response ->
  method_text d buf = buf ++ render (method_value (d, request, response)).
Proof.
  intros (H1 & H2 & H3 & H4) Hq Hp. unfold method_text. cbv zeta. rewrite !add_text_app, !add_string_app, Hq, Hp.
  rewrite <- !(print_int_nonneg _ H1), <- !(print_int_nonneg _ H2), <- !(print_int_nonneg _ H3), <- !(print_int_nonneg _ H4).
  cbn [method_value render map commas fst snd flag_value]. rewrite <- !app_assoc. reflexivity.
Qed.

Lemma security_text_render s buf : 0 <= ms_peer_allowlist_count s -> 0 <= ms_ip_allowlist_count s -> 0 <= ms_session_idle_timeout_ms s ->
  0 <= ms_max_open_sessions s -> 0 <= ms_max_sessions_per_peer_identity s ->
  security_text s buf = buf ++ lit "," ++
    commas (map (fun kv => json_string (fst kv) ++ lit ":" ++ render (snd kv)) (security_values s)).
Proof.
  intros H1 H2 H3 H4 H5. unfold security_text. cbv zeta. rewrite !add_text_app, !add_string_app.
  rewrite <- !(print_int_nonneg _ H1), <- !(print_int_nonneg _ H2), <- !(print_int_nonneg _ H3), <- !(print_int_nonneg _ H4),
    <- !(print_int_nonneg _ H5).
  cbn [security_values render map commas fst snd]. rewrite ?app_nil_r, <- !app_assoc. reflexivity.
Qed.

Lemma commas_cons x l : l <> [] -> commas (x :: l) = x ++ lit "," ++ commas l.
Proof. by destruct l. Qed.

Lemma commas_snoc l x : commas (l ++ [x]) = commas l ++ (if bool_decide (l = []) then [] else lit ",") ++ x.
Proof.
  induction l as [|y l IH]; [done|]. cbn [app]. rewrite commas_cons by (by destruct l). rewrite IH.
  case_bool_decide as E; [by subst|]. rewrite (bool_decide_eq_false_2 (y :: l = [])) by done. rewrite (commas_cons y l) by done.
  by rewrite <- !app_assoc.
Qed.

Lemma append_string_app buf s : append_json_string buf (Some s) = buf ++ json_string s.
Proof. done. Qed.

(** Text appended to a list that is being written: a comma before each element
    but the first. *)
Lemma capability_loop_render r names : forall done buf,
  capability_loop r names (negb (bool_decide (done = []))) (buf ++ commas (json_string <$> done)) =
  buf ++ commas (json_string <$> (done ++ filter (fun n => registered r n = true) names)).
Proof.
  induction names as [|n names IH]; intros ds buf; cbn [capability_loop]; [by rewrite app_nil_r|].
  rewrite filter_cons. destruct (decide (registered r n = true)) as [E|E]; unfold registered in E.
  - destruct (ducknng_method_registry_find r (Some n) (u32 (zlen n))) as [m|]; [|done]. change (ds ++ n :: ?l) with (ds ++ [n] ++ l). rewrite (app_assoc ds).
    rewrite <- IH. rewrite (bool_decide_eq_false_2 (ds ++ [n] = [])) by (by destruct ds). cbn [negb]. f_equal.
    rewrite fmap_app. cbn [fmap list_fmap]. rewrite commas_snoc.
    assert (bool_decide (json_string <$> ds = []) = bool_decide (ds = [])) as -> by (apply bool_decide_ext; by destruct ds).
    rewrite append_string_app. case_bool_decide; cbn [negb app]; by rewrite <- ?app_assoc.
  - destruct (ducknng_method_registry_find r (Some n) (u32 (zlen n))) as [m|]; [done|]. apply IH.
Qed.

Lemma methods_text_render ms : forall done buf,
  Forall (fun m => numbers_ok m.1.1 /\ schema_text (request_schema_json m.1.1) = render m.1.2 /\
                   schema_text (response_schema_json m.1.1) = render m.2) ms ->
  forall slots, slot_method <$> slots = (fun m => m.1.1) <$> ms ->
  methods_text slots (length done) (buf ++ commas (render <$> done)) = buf ++ commas (render <$> (done ++ (method_value <$> ms))).
Proof.
  induction ms as [|[[d q] p] ms IH]; intros ds buf Hms slots Hs.
  { destruct slots; [|done]. by rewrite app_nil_r. }
  destruct slots as [|s slots]; [done|]. rewrite !fmap_cons in Hs. injection Hs as Hd Hs. apply Forall_cons in Hms as [(Hn & Hq & Hp) Hms].
  cbn [fst snd] in *. cbn [methods_text]. rewrite Hd. rewrite (method_text_render d q p) by done.
  rewrite fmap_cons. change (ds ++ method_value (d, q, p) :: ?l) with (ds ++ [method_value (d, q, p)] ++ l). rewrite (app_assoc ds), <- (IH _ buf Hms _ Hs).
  rewrite length_app. cbn [length]. rewrite Nat.add_1_r. f_equal. rewrite fmap_app. cbn [fmap list_fmap]. rewrite commas_snoc.
  destruct ds as [|x ds]; [change (commas (render <$> [])) with (@nil Z); rewrite app_nil_r; reflexivity|]. change (Nat.ltb 0 (length (x :: ds))) with true. cbv iota. rewrite bool_decide_eq_false_2 by done. by rewrite <- !app_assoc.
Qed.

Lemma capabilities_render r names buf :
  capability_loop r names false buf = buf ++ commas (json_string <$> filter (fun n => registered r n = true) names).
Proof. pose proof (capability_loop_render r names [] buf) as H. cbn [fmap list_fmap commas app] in H. by rewrite app_nil_r in H. Qed.

Lemma methods_render r ms buf : slot_method <$> methods r = (fun m => m.1.1) <$> ms ->
  Forall (fun m => numbers_ok m.1.1 /\ schema_text (request_schema_json m.1.1) = render m.1.2 /\
                   schema_text (response_schema_json m.1.1) = render m.2) ms ->
  methods_text (methods r) 0 buf = buf ++ commas (render <$> (method_value <$> ms)).
Proof.
  intros Hs Hms. pose proof (methods_text_render ms [] buf Hms _ Hs) as H. cbn [fmap list_fmap commas app length] in H.
  by rewrite app_nil_r in H.
Qed.

Lemma map_render_strings l : map render (JStr <$> l) = json_string <$> l.
Proof. induction l as [|x l IH]; [done|]. exact (f_equal (cons (json_string x)) IH). Qed.


Definition demo_manifest_registry : ducknng_method_registry := mk_registry [mk_slot (demo_method "exec") false; mk_slot (demo_method "ping") false] 8.
Definition demo_security : ducknng_manifest_security :=
  mk_security true 2 true false 0 false 0 false true 60000 64 4 ducknng_service_peer_identity_format (lit "request_connection").

