(* ===== verification/QuackTypes.v ===== *)
(** Column types of the quack batch format: [src/src/ducknng_quack.c].

    A column type is a tree ([schema] of [QuackCore]).  It is built from a
    DuckDB logical type, written field by field, read back from untrusted
    bytes, and turned into a DuckDB type again.  Every recursion of the code
    stops at [DUCKNNG_QUACK_MAX_NESTING]; the models recurse on the levels
    that are left, and the depth test comes first, so the last level is never
    needed ([deep_enough]).

    An operation returns the new reader or writer beside its result; an error
    carries the text the code stores through [errmsg], [None] when it stores
    none. *)

From S2P Require Import Prelude Checked QuackCore.

Definition qx (S A : Type) : Type := S -> S * result (option bytes) A.

Definition qx_bind {S A C} (m : qx S A) (f : A -> qx S C) : qx S C :=
  fun s => match m s with (s', Ok a) => f a s' | (s', Err e) => (s', Err e) end.
Definition qx_ret {S A} (a : A) : qx S A := fun s => (s, Ok a).
Definition qx_fail {S A} (text : string) : qx S A := fun s => (s, Err (Some (lit text))).

Notation "'try!' x ':=' m 'in' k" := (qx_bind m (fun x => k))
  (at level 10, x pattern, m at level 100, k at level 200) : duck_scope.

Definition qx_when {S} (b : bool) (m : qx S unit) : qx S unit := if b then m else qx_ret tt.

Abbreviation writing := (qx ducknng_qk_writer).
Abbreviation reading := (qx ducknng_qk_reader).

(** ** Field ids *)

Definition DUCKNNG_QUACK_FIELD_END : Z := 0xffff.
Definition DUCKNNG_QUACK_TYPE_ID : Z := 100.
Definition DUCKNNG_QUACK_TYPE_INFO : Z := 101.
Definition DUCKNNG_QUACK_EXTRA_INFO_KIND : Z := 100.
Definition DUCKNNG_QUACK_EXTRA_DECIMAL_WIDTH : Z := 200.
Definition DUCKNNG_QUACK_EXTRA_DECIMAL_SCALE : Z := 201.
Definition DUCKNNG_QUACK_EXTRA_CHILD : Z := 200.
Definition DUCKNNG_QUACK_EXTRA_ARRAY_SIZE : Z := 201.
Definition DUCKNNG_QUACK_EXTRA_STRUCT_COUNT : Z := 200.
Definition DUCKNNG_QUACK_EXTRA_ENUM_COUNT : Z := 200.
Definition DUCKNNG_QUACK_EXTRA_ENUM_VALUES : Z := 201.
Definition DUCKNNG_QUACK_PAIR_FIRST : Z := 0.
Definition DUCKNNG_QUACK_PAIR_SECOND : Z := 1.
Definition DUCKNNG_QUACK_EXTRA_TYPE_DECIMAL : Z := 2.
Definition DUCKNNG_QUACK_EXTRA_TYPE_LIST : Z := 4.
Definition DUCKNNG_QUACK_EXTRA_TYPE_STRUCT : Z := 5.
Definition DUCKNNG_QUACK_EXTRA_TYPE_ENUM : Z := 6.
Definition DUCKNNG_QUACK_EXTRA_TYPE_ARRAY : Z := 9.
Definition DUCKNNG_QUACK_MAX_NESTING : Z := 64.
Definition DUCKNNG_QUACK_MAX_STRUCT_MEMBERS : Z := 65536.

(** Levels below the root, and one more whose depth test fails. *)
Definition nesting_levels : nat := 66.

(** ** Writing *)

Definition ducknng_quack_writer_result {A} (m : qk ducknng_qk_writer A) : writing A := fun w =>
  match m w with
  | (w', Some a) => (w', Ok a)
  | (w', None) => (w', Err (Some (lit
      match w_status w' with
      | DUCKNNG_QK_OVERFLOW => "ducknng: quack payload size overflow"
      | DUCKNNG_QK_NO_SPACE => "ducknng: measured quack output buffer is too small"
      | _ => "ducknng: invalid quack encoder input"
      end)))
  end.

Definition ducknng_quack_write_byte (value : Z) : writing unit := ducknng_quack_writer_result (ducknng_qk_write_u8 value).
Definition ducknng_quack_write_field_id (field_id : Z) : writing unit :=
  ducknng_quack_writer_result (ducknng_qk_write_field field_id).
Definition ducknng_quack_write_field_end : writing unit := ducknng_quack_write_field_id DUCKNNG_QUACK_FIELD_END.
Definition ducknng_quack_write_uleb128 (value : Z) : writing unit :=
  ducknng_quack_writer_result (ducknng_qk_write_uleb128 value).
Definition ducknng_quack_write_string_len (data : option bytes) (len : Z) : writing unit :=
  ducknng_quack_writer_result (ducknng_qk_write_counted data len).
Definition ducknng_quack_write_string (text : option bytes) : writing unit :=
  ducknng_quack_write_string_len (Some (default [] text)) (zlen (default [] text)).
Definition ducknng_quack_write_blob (data : option bytes) (len : Z) : writing unit :=
  ducknng_quack_writer_result (ducknng_qk_write_counted data len).

(** ** Reading *)

Definition ducknng_quack_reader_result {A} (invalid_message : string) (m : qk ducknng_qk_reader A) : reading A := fun r =>
  match m r with
  | (r', Some a) => (r', Ok a)
  | (r', None) => (r', Err (Some (lit
      match r_status r' with
      | DUCKNNG_QK_TRUNCATED => "ducknng: truncated quack payload"
      | DUCKNNG_QK_OVERFLOW => "ducknng: quack integer or byte length exceeds supported size"
      | _ => invalid_message
      end)))
  end.

Definition ducknng_quack_read_boolean (message : string) : reading Z :=
  ducknng_quack_reader_result message ducknng_qk_read_boolean.
Definition ducknng_quack_peek_u16le : reading Z :=
  ducknng_quack_reader_result "ducknng: invalid quack payload" ducknng_qk_peek_u16le.
Definition ducknng_quack_read_u16le : reading Z :=
  ducknng_quack_reader_result "ducknng: invalid quack payload" ducknng_qk_read_u16le.
Definition ducknng_quack_read_uleb128 : reading Z :=
  ducknng_quack_reader_result "ducknng: invalid quack uleb128 integer" ducknng_qk_read_uleb128.
Definition ducknng_quack_read_sleb128 : reading Z :=
  ducknng_quack_reader_result "ducknng: invalid quack sleb128 integer" ducknng_qk_read_sleb128.
Definition ducknng_quack_read_blob_view : reading bytes :=
  ducknng_quack_reader_result "ducknng: invalid quack counted byte field" ducknng_qk_read_counted.

Definition ducknng_quack_read_expect_field (expected : Z) : reading unit :=
  try! field_id := ducknng_quack_read_u16le in
  if negb (field_id =? expected) then
    fun r => (r, Err (Some (lit "ducknng: unexpected quack field id " ++ print_llu field_id ++ lit " (expected " ++
                            print_llu expected ++ lit ")")))
  else qx_ret tt.

(** A name: the bytes before the NUL are all of them. *)
Definition ducknng_quack_read_string_dup : reading bytes :=
  try! data := ducknng_quack_read_blob_view in
  if existsb (Z.eqb 0) data then qx_fail "ducknng: quack identifier contains an embedded NUL" else qx_ret data.

Definition ducknng_quack_skip_string : reading unit :=
  try! _ := ducknng_quack_read_blob_view in qx_ret tt.

Definition ducknng_quack_idx_add (a b : Z) (message : string) {S} : qx S Z :=
  match ducknng_u64_add a b with Some sum => qx_ret sum | None => qx_fail message end.
Definition ducknng_quack_idx_mul (a b : Z) (message : string) {S} : qx S Z :=
  match ducknng_u64_mul a b with Some product => qx_ret product | None => qx_fail message end.

(** [reader->off] and the like. *)
Definition with_reader {A} (f : ducknng_qk_reader -> reading A) : reading A := fun r => f r r.

(** [n] times the same read. *)
Fixpoint repeat_read {A} (n : nat) (m : reading A) : reading (list A) :=
  match n with
  | O => qx_ret []
  | S n => try! x := m in try! xs := repeat_read n m in qx_ret (x :: xs)
  end.

Definition repeat_skip (n : nat) (m : reading unit) : reading unit :=
  try! _ := repeat_read n m in qx_ret tt.

(** ** DuckDB logical types

    What the C API tells of a logical type: its id and the parameters of the
    parameterized ones.  [LScalar] covers the ids without parameters. *)

Inductive duckdb_logical_type :=
| LScalar (id : Z)
| LDecimal (width scale : Z)
| LList (child : duckdb_logical_type)
| LArray (child : duckdb_logical_type) (size : Z)
| LStruct (members : list (bytes * duckdb_logical_type))
| LUnion (members : list (bytes * duckdb_logical_type))
| LMap (key value : duckdb_logical_type)
| LEnum (labels : list bytes).

Abbreviation logical_type := duckdb_logical_type.

Definition DUCKDB_TYPE_DECIMAL : Z := 19.
Definition DUCKDB_TYPE_ENUM : Z := 23.
Definition DUCKDB_TYPE_LIST : Z := 24.
Definition DUCKDB_TYPE_STRUCT : Z := 25.
Definition DUCKDB_TYPE_MAP : Z := 26.
Definition DUCKDB_TYPE_UNION : Z := 28.
Definition DUCKDB_TYPE_ARRAY : Z := 33.

Definition duckdb_get_type_id (t : logical_type) : Z :=
  match t with
  | LScalar id => id
  | LDecimal _ _ => DUCKDB_TYPE_DECIMAL
  | LList _ => DUCKDB_TYPE_LIST
  | LArray _ _ => DUCKDB_TYPE_ARRAY
  | LStruct _ => DUCKDB_TYPE_STRUCT
  | LUnion _ => DUCKDB_TYPE_UNION
  | LMap _ _ => DUCKDB_TYPE_MAP
  | LEnum _ => DUCKDB_TYPE_ENUM
  end.

(** The ids of the scalar types, DuckDB's beside the wire's, in the order of
    the [case] labels: [DUCKDB_TYPE_BOOLEAN] and on. *)
Definition scalar_ids : list (Z * Z) :=
  [(1, DUCKNNG_QUACK_LOGICAL_BOOLEAN); (2, DUCKNNG_QUACK_LOGICAL_TINYINT); (3, DUCKNNG_QUACK_LOGICAL_SMALLINT);
   (4, DUCKNNG_QUACK_LOGICAL_INTEGER); (5, DUCKNNG_QUACK_LOGICAL_BIGINT); (13, DUCKNNG_QUACK_LOGICAL_DATE);
   (14, DUCKNNG_QUACK_LOGICAL_TIME); (20, DUCKNNG_QUACK_LOGICAL_TIMESTAMP_SEC); (21, DUCKNNG_QUACK_LOGICAL_TIMESTAMP_MS);
   (12, DUCKNNG_QUACK_LOGICAL_TIMESTAMP); (22, DUCKNNG_QUACK_LOGICAL_TIMESTAMP_NS); (10, DUCKNNG_QUACK_LOGICAL_FLOAT);
   (11, DUCKNNG_QUACK_LOGICAL_DOUBLE); (17, DUCKNNG_QUACK_LOGICAL_VARCHAR); (18, DUCKNNG_QUACK_LOGICAL_BLOB);
   (15, DUCKNNG_QUACK_LOGICAL_INTERVAL); (6, DUCKNNG_QUACK_LOGICAL_UTINYINT); (7, DUCKNNG_QUACK_LOGICAL_USMALLINT);
   (8, DUCKNNG_QUACK_LOGICAL_UINTEGER); (9, DUCKNNG_QUACK_LOGICAL_UBIGINT); (31, DUCKNNG_QUACK_LOGICAL_TIMESTAMP_TZ);
   (30, DUCKNNG_QUACK_LOGICAL_TIME_TZ); (39, DUCKNNG_QUACK_LOGICAL_TIME_NS); (32, DUCKNNG_QUACK_LOGICAL_UHUGEINT);
   (16, DUCKNNG_QUACK_LOGICAL_HUGEINT); (27, DUCKNNG_QUACK_LOGICAL_UUID)].

Record ducknng_quack_type_meta := mk_meta { meta_id : Z; meta_width : Z; meta_scale : Z }.

Abbreviation typed := (result (option bytes)).
Definition type_error {A} (text : string) : typed A := Err (Some (lit text)).

Definition ducknng_quack_duckdb_type_to_meta (t : logical_type) : typed ducknng_quack_type_meta :=
  match t with
  | LDecimal width scale => Ok (mk_meta DUCKNNG_QUACK_LOGICAL_DECIMAL width scale)
  | _ =>
    match find (fun p => fst p =? duckdb_get_type_id t) scalar_ids with
    | Some (_, id) => Ok (mk_meta id 0 0)
    | None => type_error "ducknng: ducknng_quack_batch currently supports scalar bool/integer/float/date/time/timestamp/decimal/varchar/blob/interval/hugeint/uuid columns only"
    end
  end.

Definition ducknng_quack_node_new (id : Z) : schema := mk_schema None id 0 0 0 0 None 0 None None.

Definition ducknng_quack_node_add_child (node child : schema) (name : bytes) : schema :=
  mk_schema (sc_name node) (logical_type_id node) (decimal_width node) (decimal_scale node) (array_size node)
    (enum_count node) (enum_labels node) (u32 (nchildren node + 1))
    (Some (take (Z.to_nat (nchildren node)) (default [] (children node)) ++ [Some child]))
    (Some (take (Z.to_nat (nchildren node)) (default [] (child_names node)) ++ [Some name])).

Definition set_array_size (n : Z) (t : schema) : schema :=
  mk_schema (sc_name t) (logical_type_id t) (decimal_width t) (decimal_scale t) n (enum_count t) (enum_labels t)
    (nchildren t) (children t) (child_names t).
Definition set_decimal (width scale : Z) (t : schema) : schema :=
  mk_schema (sc_name t) (logical_type_id t) width scale (array_size t) (enum_count t) (enum_labels t)
    (nchildren t) (children t) (child_names t).
Definition set_labels (labels : list (option bytes)) (t : schema) : schema :=
  mk_schema (sc_name t) (logical_type_id t) (decimal_width t) (decimal_scale t) (array_size t) (u32 (zlen labels))
    (Some labels) (nchildren t) (children t) (child_names t).
Definition set_children (cs : list (option schema)) (names : list (option bytes)) (t : schema) : schema :=
  mk_schema (sc_name t) (logical_type_id t) (decimal_width t) (decimal_scale t) (array_size t) (enum_count t)
    (enum_labels t) (u32 (zlen cs)) (Some cs) (Some names).
Definition set_type_id (id : Z) (t : schema) : schema :=
  mk_schema (sc_name t) id (decimal_width t) (decimal_scale t) (array_size t) (enum_count t) (enum_labels t)
    (nchildren t) (children t) (child_names t).

(** The loop over the members of a struct or union. *)
Section members_loop.
Context (node_of : logical_type -> typed schema).

Fixpoint add_members (node : schema) (members : list (bytes * logical_type)) : typed schema :=
  match members with
  | [] => Ok node
  | (name, t) :: members =>
    let! child := node_of t in
    add_members (ducknng_quack_node_add_child node child name) members
  end.
End members_loop.

Fixpoint ducknng_quack_node_from_duckdb (t : logical_type) (depth : Z) {struct t} : typed schema :=
  if DUCKNNG_QUACK_MAX_NESTING <? depth then type_error "ducknng: quack type nesting exceeds supported depth" else
  match t with
  | LList child =>
    let! c := ducknng_quack_node_from_duckdb child (depth + 1) in
    Ok (ducknng_quack_node_add_child (ducknng_quack_node_new DUCKNNG_QUACK_LOGICAL_LIST) c [])
  | LArray child size =>
    let! c := ducknng_quack_node_from_duckdb child (depth + 1) in
    Ok (ducknng_quack_node_add_child
          (set_array_size (u32 size) (ducknng_quack_node_new DUCKNNG_QUACK_LOGICAL_ARRAY)) c [])
  | LStruct members =>
    add_members (fun t => ducknng_quack_node_from_duckdb t (depth + 1))
      (ducknng_quack_node_new DUCKNNG_QUACK_LOGICAL_STRUCT) members
  | LUnion members =>
    let tag := ducknng_quack_node_new DUCKNNG_QUACK_LOGICAL_UTINYINT in
    add_members (fun t => ducknng_quack_node_from_duckdb t (depth + 1))
      (ducknng_quack_node_add_child (ducknng_quack_node_new DUCKNNG_QUACK_LOGICAL_UNION) tag []) members
  | LMap key value =>
    let! k := ducknng_quack_node_from_duckdb key (depth + 2) in
    let! v := ducknng_quack_node_from_duckdb value (depth + 2) in
    let entry := ducknng_quack_node_new DUCKNNG_QUACK_LOGICAL_STRUCT in
    let entry := ducknng_quack_node_add_child entry k (lit "key") in
    let entry := ducknng_quack_node_add_child entry v (lit "value") in
    Ok (ducknng_quack_node_add_child (ducknng_quack_node_new DUCKNNG_QUACK_LOGICAL_MAP) entry [])
  | LEnum labels => Ok (set_labels (Some <$> labels) (ducknng_quack_node_new DUCKNNG_QUACK_LOGICAL_ENUM))
  | _ =>
    let! meta := ducknng_quack_duckdb_type_to_meta t in
    Ok (set_decimal (meta_width meta) (meta_scale meta) (ducknng_quack_node_new (meta_id meta)))
  end.

(** Back to DuckDB.  [creates] says which types DuckDB agrees to create. *)
Section to_duckdb.
Context (creates : logical_type -> bool).

Definition created (text : string) (t : logical_type) : typed logical_type :=
  if creates t then Ok t else type_error text.

Definition ducknng_quack_meta_to_duckdb_type (meta : ducknng_quack_type_meta) : typed logical_type :=
  let made := created "ducknng: failed to allocate DuckDB logical type for quack payload" in
  if meta_id meta =? DUCKNNG_QUACK_LOGICAL_DECIMAL then made (LDecimal (meta_width meta) (meta_scale meta)) else
  let id := if meta_id meta =? DUCKNNG_QUACK_LOGICAL_CHAR then DUCKNNG_QUACK_LOGICAL_VARCHAR else meta_id meta in
  match find (fun p => snd p =? id) scalar_ids with
  | Some (t, _) => made (LScalar t)
  | None => type_error "ducknng: ducknng_quack_batch decode encountered an unsupported logical type"
  end.

(** The types of the members from [start] on, with their names. *)
Section convert_loop.
Context (to_duckdb : option schema -> typed logical_type) (node : schema).

Fixpoint convert_members (n i : nat) : typed (list (bytes * logical_type)) :=
  match n with
  | O => Ok []
  | S n =>
    let! t := to_duckdb (child_at node i) in
    let! ts := convert_members n (S i) in
    Ok ((name_at (child_names node) i, t) :: ts)
  end.
End convert_loop.

Fixpoint ducknng_quack_node_to_duckdb (n : nat) (node : option schema) (depth : Z) {struct n} : typed logical_type :=
  match node with
  | None => type_error "ducknng: missing quack type node"
  | Some node =>
    if DUCKNNG_QUACK_MAX_NESTING <? depth then type_error "ducknng: quack type nesting exceeds supported depth" else
    match n with
    | O => Err None
    | S n =>
      let id := logical_type_id node in
      let made := created "ducknng: failed to allocate DuckDB logical type for quack node" in
      let recur d c := ducknng_quack_node_to_duckdb n c d in
      if id_in id [DUCKNNG_QUACK_LOGICAL_LIST; DUCKNNG_QUACK_LOGICAL_ARRAY] then
        if negb (nchildren node =? 1) then type_error "ducknng: quack list/array type requires exactly one child" else
        let! child := recur (depth + 1) (child_at node 0) in
        made (if id =? DUCKNNG_QUACK_LOGICAL_LIST then LList child else LArray child (array_size node))
      else if id_in id [DUCKNNG_QUACK_LOGICAL_STRUCT; DUCKNNG_QUACK_LOGICAL_UNION] then
        let start := if id =? DUCKNNG_QUACK_LOGICAL_UNION then 1 else 0 in
        let count := if start <? nchildren node then nchildren node - start else 0 in
        if count =? 0 then type_error "ducknng: quack struct/union type has no members" else
        let! ms := convert_members (recur (depth + 1)) node (Z.to_nat count) (Z.to_nat start) in
        made (if id =? DUCKNNG_QUACK_LOGICAL_STRUCT then LStruct ms else LUnion ms)
      else if id =? DUCKNNG_QUACK_LOGICAL_MAP then
        match child_at node 0 with
        | Some entry =>
          if (negb (nchildren node =? 1) || negb (logical_type_id entry =? DUCKNNG_QUACK_LOGICAL_STRUCT) ||
              negb (nchildren entry =? 2))%bool
          then type_error "ducknng: malformed quack map type" else
          let! key := recur (depth + 2) (child_at entry 0) in
          let! value := recur (depth + 2) (child_at entry 1) in
          made (LMap key value)
        | None => type_error "ducknng: malformed quack map type"
        end
      else if id =? DUCKNNG_QUACK_LOGICAL_ENUM then
        made (LEnum ((fun i => name_at (enum_labels node) i) <$> seq 0 (Z.to_nat (enum_count node))))
      else ducknng_quack_meta_to_duckdb_type (mk_meta id (decimal_width node) (decimal_scale node))
    end
  end.
End to_duckdb.

(** ** Writing a type *)

Section write_members.
Context (write_node : option schema -> writing unit).

Definition ducknng_quack_write_child_pair (name : option bytes) (child : option schema) : writing unit :=
  try! _ := ducknng_quack_write_field_id DUCKNNG_QUACK_PAIR_FIRST in
  try! _ := ducknng_quack_write_string name in
  try! _ := ducknng_quack_write_field_id DUCKNNG_QUACK_PAIR_SECOND in
  try! _ := write_node child in
  ducknng_quack_write_field_end.

Fixpoint write_members (node : schema) (n i : nat) : writing unit :=
  match n with
  | O => qx_ret tt
  | S n =>
    try! _ := ducknng_quack_write_child_pair (Some (name_at (child_names node) i)) (child_at node i) in
    write_members node n (S i)
  end.
End write_members.

Fixpoint write_labels (labels : option (list (option bytes))) (n i : nat) : writing unit :=
  match n with
  | O => qx_ret tt
  | S n => try! _ := ducknng_quack_write_string (Some (name_at labels i)) in write_labels labels n (S i)
  end.

Definition write_pair (field value : Z) : writing unit :=
  try! _ := ducknng_quack_write_field_id field in ducknng_quack_write_uleb128 value.

(** The [switch] on the type id, after the kind's field id. *)
Definition write_type_info (write_node : option schema -> writing unit) (node : schema) : writing unit :=
  let id := logical_type_id node in
  if id =? DUCKNNG_QUACK_LOGICAL_DECIMAL then
    try! _ := ducknng_quack_write_uleb128 DUCKNNG_QUACK_EXTRA_TYPE_DECIMAL in
    try! _ := qx_when (negb (decimal_width node =? 0)) (write_pair DUCKNNG_QUACK_EXTRA_DECIMAL_WIDTH (decimal_width node)) in
    qx_when (negb (decimal_scale node =? 0)) (write_pair DUCKNNG_QUACK_EXTRA_DECIMAL_SCALE (decimal_scale node))
  else if id_in id [DUCKNNG_QUACK_LOGICAL_LIST; DUCKNNG_QUACK_LOGICAL_MAP] then
    if negb (nchildren node =? 1) then qx_fail "ducknng: quack list/map type requires one child" else
    try! _ := ducknng_quack_write_uleb128 DUCKNNG_QUACK_EXTRA_TYPE_LIST in
    try! _ := ducknng_quack_write_field_id DUCKNNG_QUACK_EXTRA_CHILD in
    write_node (child_at node 0)
  else if id_in id [DUCKNNG_QUACK_LOGICAL_STRUCT; DUCKNNG_QUACK_LOGICAL_UNION] then
    try! _ := ducknng_quack_write_uleb128 DUCKNNG_QUACK_EXTRA_TYPE_STRUCT in
    try! _ := write_pair DUCKNNG_QUACK_EXTRA_STRUCT_COUNT (nchildren node) in
    write_members write_node node (Z.to_nat (nchildren node)) O
  else if id =? DUCKNNG_QUACK_LOGICAL_ENUM then
    try! _ := ducknng_quack_write_uleb128 DUCKNNG_QUACK_EXTRA_TYPE_ENUM in
    try! _ := write_pair DUCKNNG_QUACK_EXTRA_ENUM_COUNT (enum_count node) in
    try! _ := write_pair DUCKNNG_QUACK_EXTRA_ENUM_VALUES (enum_count node) in
    write_labels (enum_labels node) (Z.to_nat (enum_count node)) O
  else if id =? DUCKNNG_QUACK_LOGICAL_ARRAY then
    if negb (nchildren node =? 1) then qx_fail "ducknng: quack array type requires one child" else
    try! _ := ducknng_quack_write_uleb128 DUCKNNG_QUACK_EXTRA_TYPE_ARRAY in
    try! _ := ducknng_quack_write_field_id DUCKNNG_QUACK_EXTRA_CHILD in
    try! _ := write_node (child_at node 0) in
    qx_when (negb (array_size node =? 0)) (write_pair DUCKNNG_QUACK_EXTRA_ARRAY_SIZE (array_size node))
  else qx_fail "ducknng: internal error writing quack type info".

Fixpoint ducknng_quack_write_type_node (n : nat) (node : option schema) (depth : Z) {struct n} : writing unit :=
  match node with
  | None => qx_fail "ducknng: missing quack type node"
  | Some node =>
    if DUCKNNG_QUACK_MAX_NESTING <? depth then qx_fail "ducknng: quack type nesting exceeds supported depth" else
    match n with
    | O => fun w => (w, Err None)
    | S n =>
      try! _ := write_pair DUCKNNG_QUACK_TYPE_ID (u64 (logical_type_id node)) in
      try! _ := qx_when (ducknng_qk_type_needs_info node)
        (try! _ := ducknng_quack_write_field_id DUCKNNG_QUACK_TYPE_INFO in
         try! _ := ducknng_quack_write_byte 1 in
         try! _ := ducknng_quack_write_field_id DUCKNNG_QUACK_EXTRA_INFO_KIND in
         try! _ := write_type_info (fun c => ducknng_quack_write_type_node n c (depth + 1)) node in
         ducknng_quack_write_field_end) in
      ducknng_quack_write_field_end
    end
  end.

(** ** Reading a type *)

Definition ducknng_quack_validate_type_shape (node : schema) : reading unit :=
  match ducknng_qk_type_shape_validate node with Some message => qx_fail message | None => qx_ret tt end.

Section read_members.
Context (read_node : reading schema).

(** The field loop of a struct member: each field once, then the end, so
    three rounds. *)
Fixpoint child_pair_loop (fuel : nat) (name : option bytes) (type : option schema) : reading (bytes * schema) :=
  match fuel with
  | O => fun r => (r, Err None)
  | S fuel =>
    try! field := ducknng_quack_read_u16le in
    if field =? DUCKNNG_QUACK_FIELD_END then
      match type with
      | None => qx_fail "ducknng: quack struct member missing its type"
      | Some t => qx_ret (default [] name, t)
      end
    else if field =? DUCKNNG_QUACK_PAIR_FIRST then
      match name with
      | Some _ => qx_fail "ducknng: duplicate name in quack struct member"
      | None => try! s := ducknng_quack_read_string_dup in child_pair_loop fuel (Some s) type
      end
    else if field =? DUCKNNG_QUACK_PAIR_SECOND then
      match type with
      | Some _ => qx_fail "ducknng: duplicate type in quack struct member"
      | None => try! t := read_node in child_pair_loop fuel name (Some t)
      end
    else qx_fail "ducknng: unexpected field in quack struct member"
  end.

Definition ducknng_quack_read_child_pair : reading (bytes * schema) := child_pair_loop 3 None None.

(** Field 200: what it holds depends on the type.  The declared size of an
    enum is the second result. *)
Definition read_field_200 (t : schema) (declared : Z) : reading (schema * Z) :=
  let id := logical_type_id t in
  if id =? DUCKNNG_QUACK_LOGICAL_DECIMAL then
    try! value := ducknng_quack_read_uleb128 in
    if ((value =? 0) || (38 <? value))%bool then qx_fail "ducknng: quack decimal width must be between 1 and 38"
    else qx_ret (set_decimal (u8 value) (decimal_scale t) t, declared)
  else if id_in id [DUCKNNG_QUACK_LOGICAL_LIST; DUCKNNG_QUACK_LOGICAL_MAP; DUCKNNG_QUACK_LOGICAL_ARRAY] then
    try! child := read_node in
    qx_ret (ducknng_quack_node_add_child t child [], declared)
  else if id_in id [DUCKNNG_QUACK_LOGICAL_STRUCT; DUCKNNG_QUACK_LOGICAL_UNION] then
    try! count := ducknng_quack_read_uleb128 in
    with_reader (fun r =>
      if ((DUCKNNG_QUACK_MAX_STRUCT_MEMBERS <? count) || (ducknng_qk_reader_remaining r <? count))%bool
      then qx_fail "ducknng: quack struct member count exceeds its payload bound" else
      try! ms := repeat_read (Z.to_nat count) ducknng_quack_read_child_pair in
      qx_ret (if 0 <? count then set_children (Some <$> ms.*2) (Some <$> ms.*1) t else t, declared))
  else if id =? DUCKNNG_QUACK_LOGICAL_ENUM then
    try! value := ducknng_quack_read_uleb128 in
    if DUCKNNG_QUACK_MAX_ENUM_VALUES <? value then qx_fail "ducknng: quack enum size exceeds limit"
    else qx_ret (t, value)
  else qx_fail "ducknng: unexpected field 200 in quack type info".

Definition read_field_201 (t : schema) (declared : Z) : reading (schema * Z) :=
  let id := logical_type_id t in
  if id =? DUCKNNG_QUACK_LOGICAL_DECIMAL then
    try! value := ducknng_quack_read_uleb128 in
    if 38 <? value then qx_fail "ducknng: quack decimal scale exceeds 38"
    else qx_ret (set_decimal (decimal_width t) (u8 value) t, declared)
  else if id =? DUCKNNG_QUACK_LOGICAL_ARRAY then
    try! value := ducknng_quack_read_uleb128 in
    if ((value =? 0) || (UINT32_MAX <? value))%bool then qx_fail "ducknng: quack array size is invalid"
    else qx_ret (set_array_size (u32 value) t, declared)
  else if id =? DUCKNNG_QUACK_LOGICAL_ENUM then
    try! n := ducknng_quack_read_uleb128 in
    if negb (n =? declared) then qx_fail "ducknng: quack enum values disagree with count" else
    with_reader (fun r =>
      if ((DUCKNNG_QUACK_MAX_ENUM_VALUES <? n) || (ducknng_qk_reader_remaining r <? n))%bool
      then qx_fail "ducknng: quack enum size exceeds its payload bound" else
      try! labels := repeat_read (Z.to_nat n) ducknng_quack_read_string_dup in
      qx_ret (set_labels (Some <$> labels) t, declared))
  else qx_fail "ducknng: unexpected field 201 in quack type info".

(** The bit of [seen] a field sets; [None] for an unknown field. *)
Definition field_bit (field : Z) : option Z :=
  if id_in field [100; 101; 103; 200; 201]
  then Some (if field <? 200 then Z.shiftl 1 (field - 100) else Z.shiftl 1 (field - 200 + 5)) else None.

Definition required_fields (id : Z) : Z :=
  if id_in id [DUCKNNG_QUACK_LOGICAL_DECIMAL; DUCKNNG_QUACK_LOGICAL_LIST; DUCKNNG_QUACK_LOGICAL_MAP;
               DUCKNNG_QUACK_LOGICAL_STRUCT; DUCKNNG_QUACK_LOGICAL_UNION] then Z.lor 1 (Z.shiftl 1 5)
  else if id_in id [DUCKNNG_QUACK_LOGICAL_ENUM; DUCKNNG_QUACK_LOGICAL_ARRAY]
  then Z.lor 1 (Z.lor (Z.shiftl 1 5) (Z.shiftl 1 6)) else 1.

(** Five fields, each at most once, then the end: six rounds. *)
Fixpoint type_info_loop (fuel : nat) (t : schema) (seen declared : Z) : reading schema :=
  match fuel with
  | O => fun r => (r, Err None)
  | S fuel =>
    try! field := ducknng_quack_read_u16le in
    if field =? DUCKNNG_QUACK_FIELD_END then
      if negb (Z.land seen (required_fields (logical_type_id t)) =? required_fields (logical_type_id t))
      then qx_fail "ducknng: quack type info is missing required fields" else
      try! _ := ducknng_quack_validate_type_shape t in qx_ret t
    else
    match field_bit field with
    | None => qx_fail "ducknng: unknown field in quack type info"
    | Some bit =>
      if negb (Z.land seen bit =? 0) then qx_fail "ducknng: duplicate field in quack type info" else
      let seen := Z.lor seen bit in
      if field =? 100 then
        try! value := ducknng_quack_read_uleb128 in
        if negb (value =? ducknng_qk_type_expected_info_kind (logical_type_id t))
        then qx_fail "ducknng: quack logical type and extra-info kind disagree"
        else type_info_loop fuel t seen declared
      else if field =? 101 then
        try! _ := ducknng_quack_skip_string in type_info_loop fuel t seen declared
      else if field =? 103 then
        try! present := ducknng_quack_read_boolean "ducknng: quack extension-info presence flag is not boolean" in
        if negb (present =? 0) then qx_fail "ducknng: extension type info is not supported"
        else type_info_loop fuel t seen declared
      else if field =? 200 then
        try! (t, declared) := read_field_200 t declared in type_info_loop fuel t seen declared
      else
        if Z.land seen (Z.shiftl 1 5) =? 0 then qx_fail "ducknng: quack type info field 201 precedes field 200" else
        try! (t, declared) := read_field_201 t declared in type_info_loop fuel t seen declared
    end
  end.

Definition ducknng_quack_read_type_info (t : schema) : reading schema := type_info_loop 6 t 0 0.

(** The field loop of a type: id and info once each, then the end. *)
Fixpoint type_node_loop (fuel : nat) (t : schema) (seen_id seen_info info_present : bool) : reading schema :=
  match fuel with
  | O => fun r => (r, Err None)
  | S fuel =>
    try! field := ducknng_quack_read_u16le in
    if field =? DUCKNNG_QUACK_FIELD_END then
      if negb seen_id then qx_fail "ducknng: quack logical type missing its id" else
      if (ducknng_qk_type_needs_info t && (negb seen_info || negb info_present))%bool
      then qx_fail "ducknng: nested or parameterized quack type is missing its type info" else
      try! _ := qx_when (negb info_present) (ducknng_quack_validate_type_shape t) in qx_ret t
    else if field =? DUCKNNG_QUACK_TYPE_ID then
      if seen_id then qx_fail "ducknng: duplicate type id in quack logical type" else
      try! value := ducknng_quack_read_uleb128 in
      if 2147483647 <? value then qx_fail "ducknng: quack logical type id exceeds supported range"
      else type_node_loop fuel (set_type_id value t) true seen_info info_present
    else if field =? DUCKNNG_QUACK_TYPE_INFO then
      if negb seen_id then qx_fail "ducknng: quack type info precedes its id" else
      if seen_info then qx_fail "ducknng: duplicate type info in quack logical type" else
      try! present := ducknng_quack_read_boolean "ducknng: quack type-info presence flag is not boolean" in
      if negb (present =? 0)
      then try! t := ducknng_quack_read_type_info t in type_node_loop fuel t seen_id true true
      else type_node_loop fuel t seen_id true false
    else qx_fail "ducknng: unknown field in quack logical type"
  end.
End read_members.

Fixpoint ducknng_quack_read_type_node (n : nat) (depth : Z) {struct n} : reading schema :=
  if DUCKNNG_QUACK_MAX_NESTING <? depth then qx_fail "ducknng: quack type nesting exceeds supported depth" else
  match n with
  | O => fun r => (r, Err None)
  | S n => type_node_loop (ducknng_quack_read_type_node n (depth + 1)) 3 (ducknng_quack_node_new 0) false false false
  end.

Definition read_type : reading schema := ducknng_quack_read_type_node nesting_levels 0.
Definition write_type (node : schema) : writing unit := ducknng_quack_write_type_node nesting_levels (Some node) 0.

Definition ducknng_quack_skip_type_meta : reading unit := try! _ := read_type in qx_ret tt.

Definition skip_list (expected : Z) (mismatch : string) (skip : reading unit) : reading unit :=
  try! n := ducknng_quack_read_uleb128 in
  if (negb (expected =? UINT64_MAX) && negb (n =? expected))%bool then qx_fail mismatch
  else repeat_skip (Z.to_nat n) skip.
Definition ducknng_quack_skip_string_list (expected : Z) : reading unit :=
  skip_list expected "ducknng: quack string list length mismatch" ducknng_quack_skip_string.
Definition ducknng_quack_skip_type_list (expected : Z) : reading unit :=
  skip_list expected "ducknng: quack logical type list length mismatch" ducknng_quack_skip_type_meta.

(** ** Images *)

Definition u16_image (v : Z) : bytes := [v mod 256; v / 256].
Definition uleb_image (v : Z) : bytes := uleb_bytes 10 v.
Definition counted_image (b : bytes) : bytes := uleb_image (zlen b) ++ b.
Definition END_image : bytes := u16_image DUCKNNG_QUACK_FIELD_END.

(** [m] writes [out], or fails the way the kernel fails on it. *)
Definition xemits (m : writing unit) (out : bytes) : Prop :=
  exists m0, emits m0 out /\ forall w, m w = ducknng_quack_writer_result m0 w.

(** [m] reads exactly [img] at the cursor, whatever surrounds it. *)
Definition xreads {A} (m : reading A) (img : bytes) (a : A) : Prop :=
  forall pre post k,
    m (mk_reader (Some (pre ++ img ++ post)) (zlen (pre ++ img ++ post)) (zlen pre) k DUCKNNG_QK_OK)
    = (mk_reader (Some (pre ++ img ++ post)) (zlen (pre ++ img ++ post)) (zlen pre + zlen img) k DUCKNNG_QK_OK, Ok a).

Create HintDb quack.

Lemma xemits_lift m0 out : emits m0 out -> xemits (ducknng_quack_writer_result m0) out.
Proof. intros H. by exists m0. Qed.

Lemma xemits_ret : xemits (qx_ret tt) [].
Proof. exists (qk_ret tt). split; [apply emits_ret|done]. Qed.

Lemma xemits_bind m n a b : xemits m a -> xemits n b -> xemits (try! _ := m in n) (a ++ b).
Proof.
  intros (m0 & Hm & Em) (n0 & Hn & En). exists (bind! _ := m0 in n0). split; [by apply emits_bind|].
  intros w. unfold qx_bind. rewrite Em. unfold ducknng_quack_writer_result, qk_bind.
  destruct (m0 w) as [w1 [[]|]]; [|done]. by rewrite En.
Qed.

Lemma xemits_when b m out : (b = true -> xemits m out) -> xemits (qx_when b m) (if b then out else []).
Proof. destruct b; intros H; [by apply H|apply xemits_ret]. Qed.

Lemma xemits_field v : 0 <= v <= UINT16_MAX -> xemits (ducknng_quack_write_field_id v) (u16_image v).
Proof. intros H. apply xemits_lift. exact (emits_value (QU16 v) H). Qed.
Lemma xemits_end : xemits ducknng_quack_write_field_end END_image.
Proof. by apply xemits_field. Qed.
Lemma xemits_byte v : xemits (ducknng_quack_write_byte v) [v].
Proof. apply xemits_lift, emits_u8. Qed.
Lemma xemits_uleb v : 0 <= v <= UINT64_MAX -> xemits (ducknng_quack_write_uleb128 v) (uleb_image v).
Proof. intros H. apply xemits_lift. exact (emits_value (QUleb v) H). Qed.
Lemma xemits_pair f v : 0 <= f <= UINT16_MAX -> 0 <= v <= UINT64_MAX -> xemits (write_pair f v) (u16_image f ++ uleb_image v).
Proof. intros Hf Hv. by apply xemits_bind; [apply xemits_field|apply xemits_uleb]. Qed.
Lemma xemits_blob b : zlen b <= SIZE_MAX -> xemits (ducknng_quack_write_blob (Some b) (zlen b)) (counted_image b).
Proof. intros H. apply xemits_lift. exact (emits_value (QCounted b) H). Qed.
Lemma xemits_string b : zlen b <= SIZE_MAX -> xemits (ducknng_quack_write_string (Some b)) (counted_image b).
Proof. apply xemits_blob. Qed.

Lemma xreads_lift {A} msg (m : qk ducknng_qk_reader A) img a : reads m img a -> xreads (ducknng_quack_reader_result msg m) img a.
Proof. intros H pre post k. unfold ducknng_quack_reader_result. by rewrite H. Qed.

Lemma xreads_ret {A} (a : A) : xreads (qx_ret a) [] a.
Proof. intros pre post k. unfold qx_ret. by rewrite zlen_nil, Z.add_0_r. Qed.

Lemma xreads_bind {A C} (m : reading A) (f : A -> reading C) i j a c :
  xreads m i a -> xreads (f a) j c -> xreads (qx_bind m f) (i ++ j) c.
Proof.
  intros Hm Hf pre post k. unfold qx_bind. rewrite <- app_assoc. rewrite Hm.
  specialize (Hf (pre ++ i) post k).
  rewrite <- !app_assoc, (zlen_app pre i) in Hf.
  rewrite (zlen_app i j), Z.add_assoc. exact Hf.
Qed.

(** A last step that reads nothing. *)
Lemma xreads_then {A C} (m : reading A) (f : A -> reading C) i a c :
  xreads m i a -> xreads (f a) [] c -> xreads (qx_bind m f) i c.
Proof. intros Hm Hf. rewrite <- (app_nil_r i). by eapply xreads_bind. Qed.

(** A test before the first read. *)
Lemma xreads_skip {A C} (m : reading A) (f : A -> reading C) i a c :
  xreads m [] a -> xreads (f a) i c -> xreads (qx_bind m f) i c.
Proof. intros Hm Hf. change i with ([] ++ i). by eapply xreads_bind. Qed.

Lemma xreads_u16 v : 0 <= v <= UINT16_MAX -> xreads ducknng_quack_read_u16le (u16_image v) v.
Proof. intros H. by apply xreads_lift, reads_u16. Qed.
Lemma xreads_expect v : 0 <= v <= UINT16_MAX -> xreads (ducknng_quack_read_expect_field v) (u16_image v) tt.
Proof.
  intros H. unfold ducknng_quack_read_expect_field. eapply xreads_then; [by apply xreads_u16|].
  rewrite Z.eqb_refl. apply xreads_ret.
Qed.
Lemma xreads_uleb v : 0 <= v <= UINT64_MAX -> xreads ducknng_quack_read_uleb128 (uleb_image v) v.
Proof. intros H. by apply xreads_lift, reads_uleb128. Qed.
Lemma xreads_bool msg v : 0 <= v <= 1 -> xreads (ducknng_quack_read_boolean msg) [v] v.
Proof. intros H. by apply xreads_lift, reads_boolean. Qed.
Lemma xreads_blob b : zlen b <= SIZE_MAX -> xreads ducknng_quack_read_blob_view (counted_image b) b.
Proof. intros H. by apply xreads_lift, reads_counted. Qed.
Lemma xreads_skip_string b : zlen b <= SIZE_MAX -> xreads ducknng_quack_skip_string (counted_image b) tt.
Proof. intros H. eapply xreads_then; [by apply xreads_blob|apply xreads_ret]. Qed.

Lemma cstr_no_nul b : cstr b -> existsb (Z.eqb 0) b = false.
Proof.
  intros H. apply not_true_iff_false. rewrite existsb_exists. intros (x & Hx & E%Z.eqb_eq). subst x.
  rewrite Forall_forall in H. specialize (H 0 ltac:(by apply list_elem_of_In)). unfold is_char in H. lia.
Qed.

Lemma xreads_name b : cstr b -> zlen b <= SIZE_MAX -> xreads ducknng_quack_read_string_dup (counted_image b) b.
Proof.
  intros Hc H. unfold ducknng_quack_read_string_dup. eapply xreads_then; [by apply xreads_blob|].
  rewrite cstr_no_nul by done. apply xreads_ret.
Qed.

(** Looking ahead at a field that the next read consumes. *)
Lemma xreads_peek {C} v rest (f : Z -> reading C) c : 0 <= v <= UINT16_MAX ->
  xreads (f v) (u16_image v ++ rest) c -> xreads (qx_bind ducknng_quack_peek_u16le f) (u16_image v ++ rest) c.
Proof.
  intros Hv Hf pre post k. specialize (Hf pre post k).
  pose proof (xreads_u16 v Hv pre (rest ++ post) k) as Hu. rewrite <- (app_assoc (u16_image v) rest post) in *.
  unfold ducknng_quack_read_u16le, ducknng_quack_peek_u16le, ducknng_quack_reader_result, ducknng_qk_read_u16le, qx_bind, qk_bind in *.
  set (r := mk_reader _ _ (zlen pre) _ _) in *. destruct (ducknng_qk_peek_u16le r) as [r1 [x|]] eqn:E; [|by injection Hu].
  assert (r1 = r) as ->.
  { unfold ducknng_qk_peek_u16le, qk_bind in E. destruct (ducknng_qk_reader_need 2 r) as [r2 [[]|]] eqn:E2; [|done].
    injection E as <- _. unfold ducknng_qk_reader_need in E2. cases_in E2; by injection E2. }
  injection Hu as Hx. by subst x.
Qed.

#[export] Hint Resolve xemits_ret xemits_end xemits_byte xreads_ret : quack.

(** Steps of a writer: the image of each part is found by unification. *)
Ltac emit_steps :=
  repeat lazymatch goal with
  | |- xemits (qx_bind _ _) _ => eapply xemits_bind
  | |- xemits (ducknng_quack_write_field_id _) _ => apply xemits_field
  | |- xemits ducknng_quack_write_field_end _ => apply xemits_end
  | |- xemits (ducknng_quack_write_byte _) _ => apply xemits_byte
  | |- xemits (ducknng_quack_write_uleb128 _) _ => apply xemits_uleb
  | |- xemits (write_pair _ _) _ => apply xemits_pair
  | |- xemits (qx_ret tt) _ => apply xemits_ret
  end.

(** A closed test is computed. *)
Ltac closed_tests :=
  repeat match goal with
  | |- xreads (if ?b then _ else _) _ _ =>
      let v := eval vm_compute in b in lazymatch v with true => idtac | false => idtac end; change b with v; cbv iota
  end.

Lemma xemits_eq m a b : xemits m a -> a = b -> xemits m b.
Proof. by intros H <-. Qed.

(** ** Canonical types

    The trees the readers build: only the fields of the type's kind are set,
    every member is named, and at most [n] levels are nested. *)

Definition leaf (id : Z) : schema := ducknng_quack_node_new id.
Definition wrap (id size : Z) (c : schema) : schema := set_array_size size (ducknng_quack_node_add_child (leaf id) c []).
Definition record (id : Z) (ms : list (bytes * schema)) : schema := set_children (Some <$> ms.*2) (Some <$> ms.*1) (leaf id).

Definition name_ok (s : bytes) : Prop := cstr s /\ zlen s <= SIZE_MAX.

Inductive canon : nat -> schema -> Prop :=
| canon_scalar n id : 0 <= id <= 2147483647 -> ducknng_qk_type_needs_info (leaf id) = false ->
    ducknng_qk_type_shape_validate (leaf id) = None -> canon (S n) (leaf id)
| canon_decimal n width scale : 1 <= width <= 38 -> 0 <= scale <= width ->
    canon (S n) (set_decimal width scale (leaf DUCKNNG_QUACK_LOGICAL_DECIMAL))
| canon_enum n labels : zlen labels <= DUCKNNG_QUACK_MAX_ENUM_VALUES -> Forall name_ok labels ->
    canon (S n) (set_labels (Some <$> labels) (leaf DUCKNNG_QUACK_LOGICAL_ENUM))
| canon_list n c : canon n c -> canon (S n) (wrap DUCKNNG_QUACK_LOGICAL_LIST 0 c)
| canon_map n c : canon n c -> logical_type_id c = DUCKNNG_QUACK_LOGICAL_STRUCT -> nchildren c = 2 ->
    canon (S n) (wrap DUCKNNG_QUACK_LOGICAL_MAP 0 c)
| canon_array n c size : 1 <= size <= UINT32_MAX -> canon n c -> canon (S n) (wrap DUCKNNG_QUACK_LOGICAL_ARRAY size c)
| canon_record n id ms : id = DUCKNNG_QUACK_LOGICAL_STRUCT \/ id = DUCKNNG_QUACK_LOGICAL_UNION ->
    0 < zlen ms <= DUCKNNG_QUACK_MAX_STRUCT_MEMBERS -> Forall (fun m => name_ok m.1) ms -> Forall (fun m => canon n m.2) ms ->
    (id = DUCKNNG_QUACK_LOGICAL_UNION ->
       2 <= zlen ms /\ logical_type_id <$> (ms.*2 !! 0%nat) = Some DUCKNNG_QUACK_LOGICAL_UTINYINT) ->
    canon (S n) (record id ms).

Lemma record_child id ms i : child_at (record id ms) i = (ms !! i) ≫= (fun m => Some m.2).
Proof.
  change (mjoin ((Some <$> ms.*2) !! i) = (ms !! i) ≫= (fun m => Some m.2)). rewrite !list_lookup_fmap.
  by destruct (ms !! i).
Qed.

Lemma record_name id ms i : name_at (child_names (record id ms)) i = default [] (fst <$> ms !! i).
Proof.
  change (default [] (mjoin ((Some <$> ms.*1) !! i)) = default [] (fst <$> ms !! i)). rewrite !list_lookup_fmap.
  by destruct (ms !! i).
Qed.

Lemma record_count id ms : zlen ms <= DUCKNNG_QUACK_MAX_STRUCT_MEMBERS -> nchildren (record id ms) = zlen ms.
Proof.
  intros H. unfold record, set_children. cbn [nchildren]. unfold zlen in *. rewrite !length_fmap.
  apply u32_small. unfold DUCKNNG_QUACK_MAX_STRUCT_MEMBERS, UINT32_MAX in *. lia.
Qed.

Definition codes (w : writing unit) {A} (r : reading A) (img : bytes) (a : A) : Prop := xemits w img /\ xreads r img a.

(** One member: name and type. *)
Lemma pair_codes wn rn name c img : name_ok name -> codes (wn (Some c)) rn img c ->
  exists img', codes (ducknng_quack_write_child_pair wn (Some name) (Some c)) (ducknng_quack_read_child_pair rn) img' (name, c) /\ 1 <= zlen img'.
Proof.
  intros [Hn Hs] [He Hr]. eexists. split; [split|].
  - unfold ducknng_quack_write_child_pair. eapply xemits_eq.
    + emit_steps; [done|by apply xemits_string|done|exact He].
    + reflexivity.
  - unfold ducknng_quack_read_child_pair. cbn [child_pair_loop].
    eapply xreads_bind; [by apply xreads_u16|]. closed_tests. eapply xreads_bind; [by apply xreads_name|].
    eapply xreads_bind; [by apply xreads_u16|]. closed_tests. eapply xreads_bind; [exact Hr|].
    eapply xreads_then; [by apply xreads_u16|]. closed_tests. apply xreads_ret.
  - unfold u16_image. rewrite !zlen_app, !zlen_cons, zlen_nil.
    pose proof (zlen_nonneg (counted_image name)). pose proof (zlen_nonneg img). pose proof (zlen_nonneg END_image). lia.
Qed.

Lemma members_codes wn rn node ms : Forall (fun m => name_ok m.1 /\ exists img, codes (wn (Some m.2)) rn img m.2) ms ->
  forall i, (forall j m, ms !! j = Some m -> child_at node (i + j) = Some m.2 /\ name_at (child_names node) (i + j) = m.1) ->
  exists img, codes (write_members wn node (length ms) i) (repeat_read (length ms) (ducknng_quack_read_child_pair rn)) img ms /\
    zlen ms <= zlen img.
Proof.
  induction 1 as [|[name c] ms [Hn [img Hc]] Hms IH]; intros i Hi.
  - exists []. split; [split; [apply xemits_ret|apply xreads_ret]|done].
  - destruct (Hi 0%nat (name, c) eq_refl) as [Hch Hnm]. rewrite Nat.add_0_r in Hch, Hnm. cbn [fst snd] in *.
    destruct (pair_codes wn rn name c img Hn Hc) as (img1 & [He1 Hr1] & Hl1).
    destruct (IH (S i)) as (img2 & [He2 Hr2] & Hl2).
    { intros j m Hj. replace (S i + j)%nat with (i + S j)%nat by lia. by apply Hi. }
    exists (img1 ++ img2). split; [split|].
    + cbn [length write_members]. rewrite Hch, Hnm. by apply xemits_bind.
    + cbn [length repeat_read]. eapply xreads_bind; [exact Hr1|]. eapply xreads_then; [exact Hr2|]. apply xreads_ret.
    + rewrite zlen_app, zlen_cons. lia.
Qed.

Lemma labels_codes labels : Forall name_ok labels -> forall all i,
  (forall j s, labels !! j = Some s -> name_at all (i + j) = s) ->
  exists img, codes (write_labels all (length labels) i) (repeat_read (length labels) ducknng_quack_read_string_dup) img labels /\
    zlen labels <= zlen img.
Proof.
  induction 1 as [|s labels [Hn Hs] Hl IH]; intros all i Hi.
  - exists []. split; [split; [apply xemits_ret|apply xreads_ret]|done].
  - pose proof (Hi 0%nat s eq_refl) as H0. rewrite Nat.add_0_r in H0.
    destruct (IH all (S i)) as (img & [He Hr] & Hz).
    { intros j m Hj. replace (S i + j)%nat with (i + S j)%nat by lia. by apply Hi. }
    exists (counted_image s ++ img). split; [split|].
    + cbn [length write_labels]. rewrite H0. apply xemits_bind; [by apply xemits_string|done].
    + cbn [length repeat_read]. eapply xreads_bind; [by apply xreads_name|]. eapply xreads_then; [exact Hr|]. apply xreads_ret.
    + rewrite zlen_app, zlen_cons. unfold counted_image, uleb_image. rewrite zlen_app.
      assert (1 <= zlen (uleb_bytes 10 (zlen s))) by (cbn [uleb_bytes]; cases_goal; rewrite zlen_cons; pose proof (zlen_nonneg (@nil Z)); zlen_lia).
      pose proof (zlen_nonneg s). lia.
Qed.

(** A size test against the bytes that are left. *)
Lemma xreads_room {A} (test : ducknng_qk_reader -> bool) (m : reading A) text img a n :
  (forall r, n <= ducknng_qk_reader_remaining r -> test r = false) -> n <= zlen img -> xreads m img a ->
  xreads (with_reader (fun r => if test r then qx_fail text else m)) img a.
Proof.
  intros Ht Hn Hm pre post k. unfold with_reader. rewrite Ht; [apply Hm|].
  unfold ducknng_qk_reader_remaining. cbn [r_len r_off]. rewrite !zlen_app.
  pose proof (zlen_nonneg img). pose proof (zlen_nonneg post). destruct (Z.ltb_spec (zlen pre + (zlen img + zlen post)) (zlen pre)); lia.
Qed.

(** A type with its info: the fields around the body. *)
Lemma node_frame n depth t id body :
  depth <= DUCKNNG_QUACK_MAX_NESTING -> logical_type_id t = id -> 0 <= id <= 2147483647 -> ducknng_qk_type_needs_info t = true ->
  xemits (write_type_info (fun c => ducknng_quack_write_type_node n c (depth + 1)) t) body ->
  xreads (ducknng_quack_read_type_info (ducknng_quack_read_type_node n (depth + 1)) (leaf id)) (u16_image 100 ++ body ++ END_image) t ->
  codes (ducknng_quack_write_type_node (S n) (Some t) depth) (ducknng_quack_read_type_node (S n) depth)
    (u16_image 100 ++ uleb_image id ++ u16_image 101 ++ [1] ++ (u16_image 100 ++ body ++ END_image) ++ END_image) t.
Proof.
  intros Hd Hid Hr Hi He Hx. split.
  - cbn [ducknng_quack_write_type_node]. destruct (Z.ltb_spec DUCKNNG_QUACK_MAX_NESTING depth); [lia|]. rewrite Hi, Hid. cbn [qx_when].
    rewrite u64_small by (unfold UINT64_MAX; lia). eapply xemits_eq.
    + emit_steps; [done|unfold UINT64_MAX; lia|done|done|exact He].
    + unfold DUCKNNG_QUACK_TYPE_ID, DUCKNNG_QUACK_TYPE_INFO, DUCKNNG_QUACK_EXTRA_INFO_KIND. by rewrite <- !app_assoc.
  - cbn [ducknng_quack_read_type_node]. destruct (Z.ltb_spec DUCKNNG_QUACK_MAX_NESTING depth); [lia|]. cbn [type_node_loop].
    eapply xreads_bind; [by apply xreads_u16|]. closed_tests. eapply xreads_bind; [apply xreads_uleb; unfold UINT64_MAX; lia|].
    destruct (Z.ltb_spec 2147483647 id); [lia|]. cbv iota.
    eapply xreads_bind; [by apply xreads_u16|]. closed_tests. eapply xreads_bind; [by apply xreads_bool|]. closed_tests.
    eapply xreads_bind; [exact Hx|]. eapply xreads_then; [by apply xreads_u16|]. closed_tests. rewrite Hi. cbn [andb negb orb].
    apply xreads_then with tt; apply xreads_ret.
Qed.

Lemma leaf_frame n depth id : depth <= DUCKNNG_QUACK_MAX_NESTING -> 0 <= id <= 2147483647 ->
  ducknng_qk_type_needs_info (leaf id) = false -> ducknng_qk_type_shape_validate (leaf id) = None ->
  codes (ducknng_quack_write_type_node (S n) (Some (leaf id)) depth) (ducknng_quack_read_type_node (S n) depth)
    (u16_image 100 ++ uleb_image id ++ END_image) (leaf id).
Proof.
  intros Hd Hr Hi Hs. split.
  - cbn [ducknng_quack_write_type_node]. destruct (Z.ltb_spec DUCKNNG_QUACK_MAX_NESTING depth); [lia|]. rewrite Hi. cbn [qx_when].
    cbn [leaf logical_type_id ducknng_quack_node_new]. rewrite u64_small by (unfold UINT64_MAX; lia). eapply xemits_eq.
    + emit_steps; [done|unfold UINT64_MAX; lia].
    + unfold DUCKNNG_QUACK_TYPE_ID. by rewrite <- !app_assoc.
  - cbn [ducknng_quack_read_type_node]. destruct (Z.ltb_spec DUCKNNG_QUACK_MAX_NESTING depth); [lia|]. cbn [type_node_loop].
    eapply xreads_bind; [by apply xreads_u16|]. closed_tests. eapply xreads_bind; [apply xreads_uleb; unfold UINT64_MAX; lia|].
    destruct (Z.ltb_spec 2147483647 id); [lia|]. cbv iota.
    eapply xreads_then; [by apply xreads_u16|]. closed_tests. change (set_type_id id (ducknng_quack_node_new 0)) with (leaf id).
    rewrite Hi. cbn [andb negb qx_when]. unfold ducknng_quack_validate_type_shape. rewrite Hs. apply xreads_then with tt; apply xreads_ret.
Qed.

(** Field 100 of the info: the kind. *)
Lemma info_kind fuel rn id rest t : 0 <= ducknng_qk_type_expected_info_kind id <= UINT64_MAX ->
  xreads (type_info_loop rn fuel (leaf id) 1 0) rest t ->
  xreads (type_info_loop rn (S fuel) (leaf id) 0 0) (u16_image 100 ++ uleb_image (ducknng_qk_type_expected_info_kind id) ++ rest) t.
Proof.
  intros Hk Hr. cbn [type_info_loop]. eapply xreads_bind; [by apply xreads_u16|]. closed_tests.
  change (field_bit 100) with (Some 1). cbv iota beta. closed_tests. eapply xreads_bind; [by apply xreads_uleb|].
  change (logical_type_id (leaf id)) with id. rewrite Z.eqb_refl. exact Hr.
Qed.

(** Fields 200 and 201, and the end. *)
Lemma info_200 fuel rn t t' d seen body rest u : Z.land seen 32 = 0 -> xreads (read_field_200 rn t 0) body (t', d) ->
  xreads (type_info_loop rn fuel t' (Z.lor seen 32) d) rest u ->
  xreads (type_info_loop rn (S fuel) t seen 0) (u16_image 200 ++ body ++ rest) u.
Proof.
  intros Hs Hb Hr. cbn [type_info_loop]. eapply xreads_bind; [by apply xreads_u16|]. closed_tests.
  change (field_bit 200) with (Some 32). cbv iota beta. rewrite Hs. closed_tests. eapply xreads_bind; [exact Hb|]. exact Hr.
Qed.

Lemma info_201 fuel rn t t' d d' seen body rest u : Z.land seen 64 = 0 -> Z.land (Z.lor seen 64) 32 <> 0 ->
  xreads (read_field_201 t d) body (t', d') ->
  xreads (type_info_loop rn fuel t' (Z.lor seen 64) d') rest u ->
  xreads (type_info_loop rn (S fuel) t seen d) (u16_image 201 ++ body ++ rest) u.
Proof.
  intros Hs H5 Hb Hr. cbn [type_info_loop]. eapply xreads_bind; [by apply xreads_u16|]. closed_tests.
  change (field_bit 201) with (Some 64). cbv iota beta. rewrite Hs. closed_tests.
  change (Z.shiftl 1 5) with 32. destruct (Z.eqb_spec (Z.land (Z.lor seen 64) 32) 0); [done|]. eapply xreads_bind; [exact Hb|]. exact Hr.
Qed.

Lemma info_end fuel rn t seen d : Z.land seen (required_fields (logical_type_id t)) = required_fields (logical_type_id t) ->
  ducknng_qk_type_shape_validate t = None -> xreads (type_info_loop rn (S fuel) t seen d) END_image t.
Proof.
  intros Hs Hv. cbn [type_info_loop]. eapply xreads_then; [by apply xreads_u16|]. closed_tests. rewrite Hs, Z.eqb_refl. cbn [negb].
  unfold ducknng_quack_validate_type_shape. rewrite Hv. apply xreads_then with tt; apply xreads_ret.
Qed.

Lemma decimal_shape width scale : 1 <= width <= 38 -> 0 <= scale <= width ->
  ducknng_qk_type_shape_validate (set_decimal width scale (leaf DUCKNNG_QUACK_LOGICAL_DECIMAL)) = None.
Proof.
  intros Hw Hs. cbn. destruct (Z.eqb_spec width 0); [lia|]. destruct (Z.ltb_spec 38 width); [lia|].
  by destruct (Z.ltb_spec width scale); [lia|].
Qed.

Lemma decimal_codes n depth width scale : depth <= DUCKNNG_QUACK_MAX_NESTING -> 1 <= width <= 38 -> 0 <= scale <= width ->
  exists img, codes (ducknng_quack_write_type_node (S n) (Some (set_decimal width scale (leaf DUCKNNG_QUACK_LOGICAL_DECIMAL))) depth)
    (ducknng_quack_read_type_node (S n) depth) img (set_decimal width scale (leaf DUCKNNG_QUACK_LOGICAL_DECIMAL)).
Proof.
  intros Hd Hw Hs. set (t := set_decimal _ _ _). pose proof (decimal_shape width scale Hw Hs) as Hv.
  exists (u16_image 100 ++ uleb_image DUCKNNG_QUACK_LOGICAL_DECIMAL ++ u16_image 101 ++ [1] ++
    (u16_image 100 ++ (uleb_image 2 ++ (u16_image 200 ++ uleb_image width) ++ (if negb (scale =? 0) then u16_image 201 ++ uleb_image scale else [])) ++ END_image) ++ END_image).
  apply node_frame; [done|done|done|done|..].
  - change (write_type_info _ t) with
      (try! _ := ducknng_quack_write_uleb128 2 in try! _ := qx_when (negb (width =? 0)) (write_pair 200 width) in
       qx_when (negb (scale =? 0)) (write_pair 201 scale)).
    destruct (Z.eqb_spec width 0); [lia|]. cbn [negb qx_when].
    emit_steps; [done|done|unfold UINT64_MAX; lia|]. apply xemits_when. intros _. apply xemits_pair; [done|unfold UINT64_MAX; lia].
  - rewrite <- !app_assoc. apply info_kind; [done|].
    eapply (info_200 _ _ _ (set_decimal width 0 (leaf DUCKNNG_QUACK_LOGICAL_DECIMAL)) 0); [done| |].
    + unfold read_field_200. closed_tests. eapply xreads_then; [apply xreads_uleb; unfold UINT64_MAX; lia|].
      destruct (Z.eqb_spec width 0); [lia|]. destruct (Z.ltb_spec 38 width); [lia|]. cbn [orb].
      rewrite u8_small by (unfold is_byte; lia). apply xreads_ret.
    + destruct (Z.eqb_spec scale 0) as [->|]; cbn [negb]; [by apply info_end|]. rewrite <- app_assoc.
      eapply (info_201 _ _ _ t 0 0); [done|done| |by apply info_end].
      unfold read_field_201. closed_tests. eapply xreads_then; [apply xreads_uleb; unfold UINT64_MAX; lia|].
      destruct (Z.ltb_spec 38 scale); [lia|]. rewrite u8_small by (unfold is_byte; lia). apply xreads_ret.
Qed.

Lemma labels_name labels j s : labels !! j = Some s -> name_at (Some (Some <$> labels)) j = s.
Proof.
  intros H. change (default [] (mjoin ((Some <$> labels) !! j)) = s). rewrite list_lookup_fmap, H. done.
Qed.

Lemma enum_count_labels labels id : zlen labels <= DUCKNNG_QUACK_MAX_ENUM_VALUES -> enum_count (set_labels (Some <$> labels) (leaf id)) = zlen labels.
Proof.
  intros H. unfold set_labels. cbn [enum_count]. unfold zlen in *. rewrite length_fmap. apply u32_small.
  unfold DUCKNNG_QUACK_MAX_ENUM_VALUES, UINT32_MAX in *. lia.
Qed.

Lemma enum_shape labels : zlen labels <= DUCKNNG_QUACK_MAX_ENUM_VALUES ->
  ducknng_qk_type_shape_validate (set_labels (Some <$> labels) (leaf DUCKNNG_QUACK_LOGICAL_ENUM)) = None.
Proof.
  intros H. unfold ducknng_qk_type_shape_validate. rewrite enum_count_labels by done.
  cbn [logical_type_id set_labels leaf ducknng_quack_node_new enum_labels].
  repeat match goal with |- context [if ?x =? ?y then _ else _] => change (x =? y) with false || change (x =? y) with true; cbv iota end.
  destruct (Z.ltb_spec DUCKNNG_QUACK_MAX_ENUM_VALUES (zlen labels)); [lia|].
  rewrite bool_decide_eq_false_2, andb_false_r by done. cbn [orb]. rewrite (proj2 (forallb_forall _ _)); [done|].
  intros i Hi%in_seq. apply bool_decide_eq_true_2. change (mjoin ((Some <$> labels) !! i) <> None).
  rewrite list_lookup_fmap. destruct (lookup_lt_is_Some_2 labels i) as [s Hs]; [unfold zlen in Hi; lia|]. by rewrite Hs.
Qed.

Lemma enum_codes n depth labels : depth <= DUCKNNG_QUACK_MAX_NESTING -> zlen labels <= DUCKNNG_QUACK_MAX_ENUM_VALUES -> Forall name_ok labels ->
  exists img, codes (ducknng_quack_write_type_node (S n) (Some (set_labels (Some <$> labels) (leaf DUCKNNG_QUACK_LOGICAL_ENUM))) depth)
    (ducknng_quack_read_type_node (S n) depth) img (set_labels (Some <$> labels) (leaf DUCKNNG_QUACK_LOGICAL_ENUM)).
Proof.
  intros Hd Hl Hn. set (t := set_labels _ _). pose proof (enum_shape labels Hl) as Hv. pose proof (zlen_nonneg labels) as Hz.
  assert (0 <= zlen labels <= UINT64_MAX) as Hb by (unfold DUCKNNG_QUACK_MAX_ENUM_VALUES, UINT64_MAX in *; lia).
  destruct (labels_codes labels Hn (Some (Some <$> labels)) 0) as (img & [He Hr] & Hi); [by intros j s; apply labels_name|].
  assert (Z.to_nat (zlen labels) = length labels) as En by (unfold zlen; lia).
  eexists. apply (node_frame n depth t DUCKNNG_QUACK_LOGICAL_ENUM (uleb_image 6 ++ (u16_image 200 ++ uleb_image (zlen labels)) ++ (u16_image 201 ++ uleb_image (zlen labels)) ++ img)); [done|done|done|done|..].
  - change (write_type_info _ t) with
      (try! _ := ducknng_quack_write_uleb128 6 in try! _ := write_pair 200 (enum_count t) in try! _ := write_pair 201 (enum_count t) in
       write_labels (Some (Some <$> labels)) (Z.to_nat (enum_count t)) O).
    unfold t. rewrite enum_count_labels, En by done. emit_steps; done.
  - rewrite <- !app_assoc. apply info_kind; [done|].
    eapply (info_200 _ _ _ (leaf DUCKNNG_QUACK_LOGICAL_ENUM) (zlen labels)); [done| |].
    + unfold read_field_200. closed_tests. eapply xreads_then; [by apply xreads_uleb|].
      destruct (Z.ltb_spec DUCKNNG_QUACK_MAX_ENUM_VALUES (zlen labels)); [lia|]. apply xreads_ret.
    + rewrite (app_assoc (uleb_image _) img). eapply (info_201 _ _ _ t (zlen labels) (zlen labels)); [done|done| |by apply info_end].
      unfold read_field_201. closed_tests. eapply xreads_bind; [by apply xreads_uleb|]. rewrite Z.eqb_refl. cbn [negb].
      apply (xreads_room _ _ _ _ _ (zlen labels)); [|done|].
      * intros r Hrem. destruct (Z.ltb_spec DUCKNNG_QUACK_MAX_ENUM_VALUES (zlen labels)); [lia|].
        by destruct (Z.ltb_spec (ducknng_qk_reader_remaining r) (zlen labels)); [lia|].
      * rewrite En. eapply xreads_then; [exact Hr|]. apply xreads_ret.
Qed.

(** Lists, maps and arrays: one child. *)
Definition wrap_tail (id size : Z) : bytes := if id =? DUCKNNG_QUACK_LOGICAL_ARRAY then u16_image 201 ++ uleb_image size else [].

Lemma wrap_shape id size c :
  id = DUCKNNG_QUACK_LOGICAL_LIST /\ size = 0 \/
  id = DUCKNNG_QUACK_LOGICAL_MAP /\ size = 0 /\ logical_type_id c = DUCKNNG_QUACK_LOGICAL_STRUCT /\ nchildren c = 2 /\
    children c <> None /\ child_at c 0 <> None /\ child_at c 1 <> None \/
  id = DUCKNNG_QUACK_LOGICAL_ARRAY /\ 1 <= size <= UINT32_MAX -> ducknng_qk_type_shape_validate (wrap id size c) = None.
Proof.
  intros [[-> ->]|[(-> & -> & Hid & Hn & Hc & H0 & H1)|[-> Hs]]]; [done| |].
  - unfold ducknng_qk_type_shape_validate. change (child_at (wrap DUCKNNG_QUACK_LOGICAL_MAP 0 c) 0) with (Some c).
    change (nchildren (wrap _ _ _)) with 1. change (children (wrap _ _ _)) with (Some [Some c]). cbv beta iota zeta.
    change (logical_type_id (wrap _ _ _)) with DUCKNNG_QUACK_LOGICAL_MAP.
    repeat match goal with |- context [if ?x =? ?y then _ else _] => change (x =? y) with false || change (x =? y) with true; cbv iota end.
    rewrite Hid, Hn, !bool_decide_eq_false_2 by done. done.
  - change (ducknng_qk_type_shape_validate (wrap DUCKNNG_QUACK_LOGICAL_ARRAY size c)) with
      (if ((size =? 0) || false || bool_decide (Some [Some c] = None) || bool_decide (Some c = None))%bool
       then Some "ducknng: quack array type is missing its child or size"%string else None).
    destruct (Z.eqb_spec size 0); [lia|]. by rewrite !bool_decide_eq_false_2 by done.
Qed.

Lemma wrap_codes n depth id size c img : depth <= DUCKNNG_QUACK_MAX_NESTING ->
  id = DUCKNNG_QUACK_LOGICAL_LIST /\ size = 0 \/ id = DUCKNNG_QUACK_LOGICAL_MAP /\ size = 0 \/
    id = DUCKNNG_QUACK_LOGICAL_ARRAY /\ 1 <= size <= UINT32_MAX ->
  ducknng_qk_type_shape_validate (wrap id size c) = None ->
  codes (ducknng_quack_write_type_node n (Some c) (depth + 1)) (ducknng_quack_read_type_node n (depth + 1)) img c ->
  exists img', codes (ducknng_quack_write_type_node (S n) (Some (wrap id size c)) depth) (ducknng_quack_read_type_node (S n) depth) img' (wrap id size c).
Proof.
  intros Hd Hid Hv [He Hr]. set (t := wrap id size c).
  set (kind := ducknng_qk_type_expected_info_kind id).
  eexists. apply (node_frame n depth t id (uleb_image kind ++ (u16_image 200 ++ img ++ wrap_tail id size)));
    [done|done|destruct Hid as [[-> _]|[[-> _]|[-> _]]]; done|destruct Hid as [[-> _]|[[-> _]|[-> _]]]; done|..].
  - destruct Hid as [[-> ->]|[[-> ->]|[-> Hs]]].
    1-2: change (write_type_info _ t) with (try! _ := ducknng_quack_write_uleb128 4 in try! _ := ducknng_quack_write_field_id 200 in
           (fun c => ducknng_quack_write_type_node n c (depth + 1)) (Some c)); change (wrap_tail _ 0) with (@nil Z); rewrite app_nil_r; emit_steps; done.
    change (write_type_info _ t) with (try! _ := ducknng_quack_write_uleb128 9 in try! _ := ducknng_quack_write_field_id 200 in
      try! _ := (fun c => ducknng_quack_write_type_node n c (depth + 1)) (Some c) in qx_when (negb (size =? 0)) (write_pair 201 size)).
    destruct (Z.eqb_spec size 0); [lia|]. cbn [negb qx_when]. emit_steps; try done. unfold UINT32_MAX, UINT64_MAX in *. lia.
  - rewrite <- !app_assoc. apply info_kind; [destruct Hid as [[-> _]|[[-> _]|[-> _]]]; done|].
    eapply (info_200 _ _ _ (wrap id 0 c) 0); [done| |].
    + assert (read_field_200 (ducknng_quack_read_type_node n (depth + 1)) (leaf id) 0 =
        try! child := ducknng_quack_read_type_node n (depth + 1) in qx_ret (ducknng_quack_node_add_child (leaf id) child [], 0)) as ->
        by (destruct Hid as [[-> _]|[[-> _]|[-> _]]]; done).
      eapply xreads_then; [exact Hr|]. apply xreads_ret.
    + destruct Hid as [[-> ->]|[[-> ->]|[-> Hs]]]; [by apply info_end..|]. unfold wrap_tail. rewrite Z.eqb_refl, <- app_assoc.
      eapply (info_201 _ _ _ t 0 0); [done|done| |by apply info_end].
      unfold read_field_201. closed_tests. eapply xreads_then; [apply xreads_uleb; unfold UINT32_MAX, UINT64_MAX in *; lia|].
      destruct (Z.eqb_spec size 0); [lia|]. destruct (Z.ltb_spec UINT32_MAX size); [lia|]. cbn [orb]. rewrite u32_small by lia. apply xreads_ret.
Qed.

Lemma record_members id ms : zlen ms <= DUCKNNG_QUACK_MAX_STRUCT_MEMBERS ->
  forallb (fun i => (bool_decide (child_at (record id ms) i <> None) &&
    bool_decide (mjoin (default [] (child_names (record id ms)) !! i) <> None))%bool) (seq 0 (Z.to_nat (nchildren (record id ms)))) = true.
Proof.
  intros Hn. rewrite record_count by done. apply forallb_forall. intros i Hi%in_seq.
  destruct (lookup_lt_is_Some_2 ms i) as [m Hm]; [unfold zlen in Hi; lia|]. rewrite record_child, Hm.
  change (mjoin (default [] (child_names (record id ms)) !! i)) with (mjoin ((Some <$> ms.*1) !! i)).
  rewrite !list_lookup_fmap, Hm. by rewrite !bool_decide_eq_true_2.
Qed.

Lemma record_shape id ms : id = DUCKNNG_QUACK_LOGICAL_STRUCT \/ id = DUCKNNG_QUACK_LOGICAL_UNION ->
  0 < zlen ms <= DUCKNNG_QUACK_MAX_STRUCT_MEMBERS ->
  (id = DUCKNNG_QUACK_LOGICAL_UNION -> 2 <= zlen ms /\ logical_type_id <$> (ms.*2 !! 0%nat) = Some DUCKNNG_QUACK_LOGICAL_UTINYINT) ->
  ducknng_qk_type_shape_validate (record id ms) = None.
Proof.
  intros Hid Hl Hu. pose proof (record_members id ms (proj2 Hl)) as Hm. unfold ducknng_qk_type_shape_validate. rewrite Hm.
  rewrite record_count by lia. change (logical_type_id (record id ms)) with id.
  change (children (record id ms)) with (Some (Some <$> ms.*2)). change (child_names (record id ms)) with (Some (Some <$> ms.*1)).
  destruct Hid as [-> | ->]; cbv zeta;
    repeat match goal with |- context [if ?x =? ?y then _ else _] => change (x =? y) with false || change (x =? y) with true; cbv iota end.
  - destruct (Z.eqb_spec (zlen ms) 0); [lia|]. by rewrite !bool_decide_eq_false_2 by done.
  - destruct (Hu eq_refl) as [H2 H0]. rewrite record_child. rewrite list_lookup_fmap in H0. destruct (ms !! 0%nat) as [m|]; [|done].
    injection H0 as H0. cbn [option_bind]. change (Some m ≫= (fun m => Some m.2)) with (Some m.2). cbv iota. rewrite H0.
    destruct (Z.ltb_spec (zlen ms) 2); [lia|]. by rewrite !bool_decide_eq_false_2 by done.
Qed.

Lemma record_codes n depth id ms : depth <= DUCKNNG_QUACK_MAX_NESTING ->
  id = DUCKNNG_QUACK_LOGICAL_STRUCT \/ id = DUCKNNG_QUACK_LOGICAL_UNION -> 0 < zlen ms <= DUCKNNG_QUACK_MAX_STRUCT_MEMBERS ->
  ducknng_qk_type_shape_validate (record id ms) = None ->
  Forall (fun m => name_ok m.1 /\ exists img, codes (ducknng_quack_write_type_node n (Some m.2) (depth + 1)) (ducknng_quack_read_type_node n (depth + 1)) img m.2) ms ->
  exists img', codes (ducknng_quack_write_type_node (S n) (Some (record id ms)) depth) (ducknng_quack_read_type_node (S n) depth) img' (record id ms).
Proof.
  intros Hd Hid Hl Hv Hms. set (t := record id ms).
  assert (0 <= zlen ms <= UINT64_MAX) as Hb by (unfold DUCKNNG_QUACK_MAX_STRUCT_MEMBERS, UINT64_MAX in *; lia).
  assert (Z.to_nat (zlen ms) = length ms) as En by (unfold zlen; lia).
  destruct (members_codes (fun c => ducknng_quack_write_type_node n c (depth + 1)) _ t ms Hms 0) as (img & [He Hr] & Hi).
  { intros j m Hj. unfold t. rewrite record_child, record_name, Nat.add_0_l, Hj. done. }
  eexists. apply (node_frame n depth t id (uleb_image 5 ++ (u16_image 200 ++ uleb_image (zlen ms)) ++ img));
    [done|done|by destruct Hid as [-> | ->]|by destruct Hid as [-> | ->]|..].
  - assert (write_type_info (fun c => ducknng_quack_write_type_node n c (depth + 1)) t =
      try! _ := ducknng_quack_write_uleb128 5 in try! _ := write_pair 200 (nchildren t) in
      write_members (fun c => ducknng_quack_write_type_node n c (depth + 1)) t (Z.to_nat (nchildren t)) O) as ->
      by (unfold t; destruct Hid as [-> | ->]; done).
    unfold t at 1 3. rewrite record_count, En by lia. emit_steps; done.
  - replace 5 with (ducknng_qk_type_expected_info_kind id) by (destruct Hid as [-> | ->]; done).
    rewrite <- !app_assoc. apply info_kind; [by destruct Hid as [-> | ->]|].
    rewrite (app_assoc (uleb_image (zlen ms)) img). eapply (info_200 _ _ _ t 0); [done| |].
    + assert (read_field_200 (ducknng_quack_read_type_node n (depth + 1)) (leaf id) 0 =
        try! count := ducknng_quack_read_uleb128 in
        with_reader (fun r =>
          if ((DUCKNNG_QUACK_MAX_STRUCT_MEMBERS <? count) || (ducknng_qk_reader_remaining r <? count))%bool
          then qx_fail "ducknng: quack struct member count exceeds its payload bound" else
          try! ms := repeat_read (Z.to_nat count) (ducknng_quack_read_child_pair (ducknng_quack_read_type_node n (depth + 1))) in
          qx_ret (if 0 <? count then set_children (Some <$> ms.*2) (Some <$> ms.*1) (leaf id) else leaf id, 0))) as ->
        by (destruct Hid as [-> | ->]; done).
      eapply xreads_bind; [by apply xreads_uleb|]. apply (xreads_room _ _ _ _ _ (zlen ms)); [|done|].
      * intros r Hrem. destruct (Z.ltb_spec DUCKNNG_QUACK_MAX_STRUCT_MEMBERS (zlen ms)); [lia|].
        by destruct (Z.ltb_spec (ducknng_qk_reader_remaining r) (zlen ms)); [lia|].
      * rewrite En. eapply xreads_then; [exact Hr|]. destruct (Z.ltb_spec 0 (zlen ms)); [|lia]. apply xreads_ret.
    + apply info_end; [by unfold t; destruct Hid as [-> | ->]|done].
Qed.

Lemma canon_children n t : canon n t -> nchildren t = 2 -> children t <> None /\ child_at t 0 <> None /\ child_at t 1 <> None.
Proof.
  intros Hc Hn. inversion Hc as [| | | | | |n' id ms Hid Hl _ _ _]; subst; try done. rewrite record_count in Hn by lia.
  destruct ms as [|m1 [|m2 ms]]; [done|done|]. by rewrite !record_child.
Qed.

Lemma canon_shape n t : canon n t -> ducknng_qk_type_shape_validate t = None.
Proof.
  intros Hc. destruct Hc; try done.
  - by apply decimal_shape.
  - by apply enum_shape.
  - apply wrap_shape. right. left. destruct (canon_children n c) as (? & ? & ?); auto 10.
  - apply wrap_shape. auto.
  - by apply record_shape.
Qed.

Lemma type_codes n : forall t depth m, canon n t -> (n <= m)%nat -> depth + Z.of_nat n <= 65 ->
  exists img, codes (ducknng_quack_write_type_node m (Some t) depth) (ducknng_quack_read_type_node m depth) img t.
Proof.
  induction n as [|n IH]; intros t depth m Hc Hm Hd; [by inversion Hc|]. pose proof (canon_shape _ _ Hc) as Hv.
  destruct m as [|m]; [lia|]. assert (depth <= DUCKNNG_QUACK_MAX_NESTING) as Hn by (unfold DUCKNNG_QUACK_MAX_NESTING; lia).
  inversion Hc as [? ? ? ? ?|? ? ? ? ?|? ? ? ?|? c Hcc|? c Hcc ? ?|? c ? ? Hcc|? ? ms ? ? Hnm Hcc ?]; subst.
  - eexists. by apply leaf_frame.
  - by apply decimal_codes.
  - by apply enum_codes.
  - destruct (IH c (depth + 1) m Hcc) as [img Hi]; [lia..|]. eapply wrap_codes; eauto.
  - destruct (IH c (depth + 1) m Hcc) as [img Hi]; [lia..|]. eapply wrap_codes; eauto.
  - destruct (IH c (depth + 1) m Hcc) as [img Hi]; [lia..|]. eapply wrap_codes; eauto.
  - apply record_codes; [done..|]. rewrite Forall_forall in *. intros x Hx. split; [by apply Hnm|]. apply IH; [by apply Hcc|lia..].
Qed.

(** ** Reading untrusted bytes *)

(** From a healthy reader, [m] keeps the buffer, moves the cursor forward
    within it, and every failure has a text: no loop runs out of rounds. *)
Definition xsafe {A} (m : reading A) (P : A -> Prop) : Prop :=
  forall r, r_status r = DUCKNNG_QK_OK -> 0 <= r_off r <= r_len r -> all_bytes (default [] (r_data r)) ->
    let (r', o) := m r in
    r_data r' = r_data r /\ r_len r' = r_len r /\ r_off r <= r_off r' <= r_len r /\
    match o with Ok a => r_status r' = DUCKNNG_QK_OK /\ P a | Err e => e <> None end.

Lemma xsafe_lift {A} msg (m : qk ducknng_qk_reader A) P : reader_safe m P -> xsafe (ducknng_quack_reader_result msg m) P.
Proof.
  intros H r Hs Ho Hb. specialize (H r Hs Ho Hb). unfold ducknng_quack_reader_result.
  destruct (m r) as [r' [a|]]; [done|]. destruct H as (? & ? & ? & ?). done.
Qed.

Lemma xsafe_bind {A C} (m : reading A) (f : A -> reading C) P Q :
  xsafe m P -> (forall a, P a -> xsafe (f a) Q) -> xsafe (qx_bind m f) Q.
Proof.
  intros Hm Hf r Hs Ho Hb. specialize (Hm r Hs Ho Hb). unfold qx_bind.
  destruct (m r) as [r1 [a|e]]; [|done]. destruct Hm as (Hd & Hl & Ho1 & Hs1 & HP).
  rewrite <- Hd in Hb. specialize (Hf a HP r1 Hs1 ltac:(lia) Hb).
  destruct (f a r1) as [r2 o]. rewrite Hd, Hl in Hf.
  destruct Hf as (? & ? & ? & ?). repeat (split; [done || lia|]). done.
Qed.

Lemma xsafe_ret {A} (a : A) (P : A -> Prop) : P a -> xsafe (qx_ret a) P.
Proof. intros HP r Hs Ho Hb. simpl. repeat (split; [done || lia|]). done. Qed.

Lemma xsafe_fail {A} text (P : A -> Prop) : xsafe (qx_fail text) P.
Proof. intros r Hs Ho Hb. simpl. repeat (split; [done || lia|]). done. Qed.

Lemma xsafe_if {A} (b : bool) (m n : reading A) P : (b = true -> xsafe m P) -> (b = false -> xsafe n P) -> xsafe (if b then m else n) P.
Proof. destruct b; auto. Qed.

Lemma xsafe_with {A} (f : ducknng_qk_reader -> reading A) P : (forall r, xsafe (f r) P) -> xsafe (with_reader f) P.
Proof. intros H r Hs Ho Hb. unfold with_reader. by apply H. Qed.

Lemma xsafe_weaken {A} (m : reading A) (P Q : A -> Prop) : xsafe m P -> (forall a, P a -> Q a) -> xsafe m Q.
Proof.
  intros Hm HPQ r Hs Ho Hb. specialize (Hm r Hs Ho Hb). destruct (m r) as [r' [a|e]]; [|done].
  destruct Hm as (? & ? & ? & ? & ?). auto 10.
Qed.

Lemma safe_u16 : reader_safe ducknng_qk_read_u16le (fun v => 0 <= v <= UINT16_MAX).
Proof.
  pose proof (safe_read KU16) as H. intros r Hs Ho Hb. specialize (H r Hs Ho Hb). cbn [qk_read] in H. unfold qk_bind, qk_ret in H.
  destruct (ducknng_qk_read_u16le r) as [r' [v|]]; [|done]. destruct H as (? & ? & ? & ? & ? & _). done.
Qed.

Lemma safe_counted : reader_safe ducknng_qk_read_counted (fun b => zlen b <= SIZE_MAX /\ all_bytes b).
Proof.
  eapply safe_bind; [apply safe_uleb128|]. intros n Hn. cbv beta in Hn.
  destruct (Z.ltb_spec SIZE_MAX n); [by apply safe_fail|].
  apply (safe_need_then n (fun r => ztake n (zdrop (r_off r) (default [] (r_data r))))); [lia|].
  intros r Hb. split; [zlen_lia|]. unfold ztake, zdrop. by apply Forall_take, Forall_drop.
Qed.

Lemma xsafe_u16 : xsafe ducknng_quack_read_u16le (fun v => 0 <= v <= UINT16_MAX).
Proof. apply xsafe_lift, safe_u16. Qed.
Lemma xsafe_uleb : xsafe ducknng_quack_read_uleb128 (fun v => 0 <= v <= UINT64_MAX).
Proof. apply xsafe_lift, safe_uleb128. Qed.
Lemma xsafe_blob : xsafe ducknng_quack_read_blob_view (fun b => zlen b <= SIZE_MAX /\ all_bytes b).
Proof. apply xsafe_lift, safe_counted. Qed.
Lemma xsafe_bool msg : xsafe (ducknng_quack_read_boolean msg) (fun v => 0 <= v <= 1).
Proof.
  apply xsafe_lift. eapply safe_bind; [apply safe_u8|]. intros v Hv. unfold is_byte in Hv.
  destruct (Z.ltb_spec 1 v); [by apply safe_fail|]. apply safe_ret. lia.
Qed.
Lemma xsafe_skip_string : xsafe ducknng_quack_skip_string (fun _ => True).
Proof. eapply xsafe_bind; [apply xsafe_blob|]. intros. by apply xsafe_ret. Qed.

Lemma xsafe_name : xsafe ducknng_quack_read_string_dup name_ok.
Proof.
  eapply xsafe_bind; [apply xsafe_blob|]. intros b [Hz Hb]. apply xsafe_if; intros E; [apply xsafe_fail|]. apply xsafe_ret.
  split; [|done]. apply Forall_forall. intros x Hx. rewrite Forall_forall in Hb. specialize (Hb x Hx). unfold is_char, is_byte in *.
  destruct (Z.eq_dec x 0) as [->|]; [|lia]. exfalso. apply not_true_iff_false in E. apply E, existsb_exists. exists 0.
  split; [by apply list_elem_of_In|done].
Qed.

Lemma xsafe_repeat {A} (n : nat) (m : reading A) P : xsafe m P -> xsafe (repeat_read n m) (fun l => length l = n /\ Forall P l).
Proof.
  intros Hm. induction n as [|n IH]; cbn [repeat_read]; [by apply xsafe_ret|].
  eapply xsafe_bind; [exact Hm|]. intros x Hx. eapply xsafe_bind; [exact IH|]. intros l [Hl HF]. apply xsafe_ret.
  split; [cbn; lia|by constructor].
Qed.

(** The states of a type while its info is read: whether fields 200 and 201
    were seen, the declared enum size, and the tree so far. *)
Inductive partial (n : nat) (ty : Z) : bool -> bool -> Z -> schema -> Prop :=
| partial_none d : partial n ty false false d (leaf ty)
| partial_width w d : ty = DUCKNNG_QUACK_LOGICAL_DECIMAL -> 1 <= w <= 38 -> partial n ty true false d (set_decimal w 0 (leaf ty))
| partial_scale w s d : ty = DUCKNNG_QUACK_LOGICAL_DECIMAL -> 1 <= w <= 38 -> 0 <= s <= 38 -> partial n ty true true d (set_decimal w s (leaf ty))
| partial_child c d : ty = DUCKNNG_QUACK_LOGICAL_LIST \/ ty = DUCKNNG_QUACK_LOGICAL_MAP \/ ty = DUCKNNG_QUACK_LOGICAL_ARRAY ->
    canon n c -> partial n ty true false d (wrap ty 0 c)
| partial_array c size d : ty = DUCKNNG_QUACK_LOGICAL_ARRAY -> 1 <= size <= UINT32_MAX -> canon n c -> partial n ty true true d (wrap ty size c)
| partial_members ms d : ty = DUCKNNG_QUACK_LOGICAL_STRUCT \/ ty = DUCKNNG_QUACK_LOGICAL_UNION ->
    zlen ms <= DUCKNNG_QUACK_MAX_STRUCT_MEMBERS -> Forall (fun m => name_ok m.1 /\ canon n m.2) ms ->
    partial n ty true false d (if 0 <? zlen ms then record ty ms else leaf ty)
| partial_count d : ty = DUCKNNG_QUACK_LOGICAL_ENUM -> partial n ty true false d (leaf ty)
| partial_labels labels d : ty = DUCKNNG_QUACK_LOGICAL_ENUM -> zlen labels <= DUCKNNG_QUACK_MAX_ENUM_VALUES -> Forall name_ok labels ->
    partial n ty true true d (set_labels (Some <$> labels) (leaf ty)).

Lemma partial_id n ty s5 s6 d t : partial n ty s5 s6 d t -> logical_type_id t = ty.
Proof. by destruct 1; try case_match. Qed.

Lemma nil_name_ok : name_ok [].
Proof. split; [constructor|done]. Qed.

Lemma id_in_In x l : id_in x l = true -> In x l.
Proof. unfold id_in. rewrite existsb_exists. by intros (y & Hy & <-%Z.eqb_eq). Qed.

(** Two different type ids are claimed for the same type. *)
Ltac id_clash :=
  exfalso; repeat match goal with H : _ \/ _ |- _ => destruct H end;
  match goal with
  | H1 : ?x = ?a, H2 : ?x = ?c |- _ => rewrite H1 in H2; vm_compute in H2; discriminate H2
  | H : ?a = ?c |- _ => vm_compute in H; discriminate H
  end.

Section read_types.
Context (n : nat) (rn : reading schema) (Hrn : xsafe rn (canon n)).

Definition open_slots {A C} (x : option A) (y : option C) : nat := (if x then 0 else 1) + (if y then 0 else 1).

Lemma pair_loop_safe fuel : forall name type, (S (open_slots name type) <= fuel)%nat -> from_option name_ok True name -> from_option (canon n) True type ->
  xsafe (child_pair_loop rn fuel name type) (fun p => name_ok p.1 /\ canon n p.2).
Proof.
  induction fuel as [|fuel IH]; intros name type Hf Hn Ht; [lia|]. cbn [child_pair_loop].
  eapply xsafe_bind; [apply xsafe_u16|]. intros field _. apply xsafe_if; intros _.
  { destruct type as [t|]; [|apply xsafe_fail]. apply xsafe_ret. split; [|done]. destruct name; [done|apply nil_name_ok]. }
  apply xsafe_if; intros _.
  { destruct name as [s|]; [apply xsafe_fail|]. eapply xsafe_bind; [apply xsafe_name|]. intros s Hs. apply IH; [|done|done].
    unfold open_slots in *. destruct type; lia. }
  apply xsafe_if; intros _; [|apply xsafe_fail].
  destruct type as [t|]; [apply xsafe_fail|]. eapply xsafe_bind; [apply Hrn|]. intros t Hc. apply IH; [|done|done].
  unfold open_slots in *. destruct name; lia.
Qed.

Lemma child_pair_safe : xsafe (ducknng_quack_read_child_pair rn) (fun p => name_ok p.1 /\ canon n p.2).
Proof. by apply pair_loop_safe. Qed.

Lemma field_200_safe ty d : xsafe (read_field_200 rn (leaf ty) d) (fun p => partial n ty true false p.2 p.1).
Proof.
  unfold read_field_200. change (logical_type_id (leaf ty)) with ty. cbv zeta.
  apply xsafe_if; intros E.
  { apply Z.eqb_eq in E. eapply xsafe_bind; [apply xsafe_uleb|]. intros v Hv. cbv beta in Hv. apply xsafe_if; intros T; [apply xsafe_fail|].
    btests. apply xsafe_ret. cbn [fst snd]. rewrite u8_small by (unfold is_byte; lia). apply partial_width; [done|lia]. }
  apply xsafe_if; intros E2.
  { eapply xsafe_bind; [apply Hrn|]. intros c Hc. apply xsafe_ret. cbn [fst snd].
    apply (partial_child n ty c d); [|done]. apply id_in_In in E2. cbn [In] in E2. intuition. }
  apply xsafe_if; intros E3.
  { eapply xsafe_bind; [apply xsafe_uleb|]. intros v Hv. cbv beta in Hv. apply xsafe_with. intros r. apply xsafe_if; intros T; [apply xsafe_fail|].
    btests. eapply xsafe_bind; [apply xsafe_repeat, child_pair_safe|]. intros ms [Hl HF]. apply xsafe_ret. cbn [fst snd].
    assert (v = zlen ms) as -> by (unfold zlen; lia).
    apply (partial_members n ty ms d); [|lia|done]. apply id_in_In in E3. cbn [In] in E3. intuition. }
  apply xsafe_if; intros E4; [|apply xsafe_fail]. apply Z.eqb_eq in E4.
  eapply xsafe_bind; [apply xsafe_uleb|]. intros v Hv. apply xsafe_if; intros T; [apply xsafe_fail|]. apply xsafe_ret. by apply partial_count.
Qed.

Lemma partial_wrap_size c size : set_array_size size (wrap DUCKNNG_QUACK_LOGICAL_ARRAY 0 c) = wrap DUCKNNG_QUACK_LOGICAL_ARRAY size c.
Proof. done. Qed.

Lemma field_201_safe ty d t : partial n ty true false d t -> xsafe (read_field_201 t d) (fun p => partial n ty true true p.2 p.1).
Proof.
  intros Hp. pose proof (partial_id _ _ _ _ _ _ Hp) as Hid. unfold read_field_201. rewrite Hid. cbv zeta.
  apply xsafe_if; intros E.
  { apply Z.eqb_eq in E. eapply xsafe_bind; [apply xsafe_uleb|]. intros v Hv. cbv beta in Hv. apply xsafe_if; intros T; [apply xsafe_fail|].
    btests. apply xsafe_ret. cbn [fst snd]. rewrite u8_small by (unfold is_byte; lia). inversion Hp; try id_clash; subst.
    apply partial_scale; [done|done|lia]. }
  apply xsafe_if; intros E2.
  { apply Z.eqb_eq in E2. eapply xsafe_bind; [apply xsafe_uleb|]. intros v Hv. cbv beta in Hv. apply xsafe_if; intros T; [apply xsafe_fail|].
    btests. apply xsafe_ret. cbn [fst snd]. rewrite u32_small by lia. inversion Hp; try id_clash; subst.
    rewrite E2 in *. rewrite partial_wrap_size. apply partial_array; [done|lia|done]. }
  apply xsafe_if; intros E3; [|apply xsafe_fail]. apply Z.eqb_eq in E3.
  eapply xsafe_bind; [apply xsafe_uleb|]. intros v Hv. cbv beta in Hv. apply xsafe_if; intros T; [apply xsafe_fail|].
  apply xsafe_with. intros r. apply xsafe_if; intros T2; [apply xsafe_fail|]. btests.
  eapply xsafe_bind; [apply xsafe_repeat, xsafe_name|]. intros labels [Hl HF]. apply xsafe_ret. cbn [fst snd].
  inversion Hp; try id_clash; subst. apply (partial_labels n _ labels); [done| |done]. unfold zlen. lia.
Qed.

Lemma bit_seen seen req bit : Z.land seen req = req -> Z.land req bit = bit -> Z.land seen bit = bit.
Proof. intros Hs Hb. rewrite <- Hb at 1. by rewrite Z.land_assoc, Hs. Qed.

Lemma scalar_leaf ty : required_fields ty = 1 -> ducknng_qk_type_needs_info (leaf ty) = false.
Proof.
  unfold required_fields, ducknng_qk_type_needs_info, ducknng_qk_type_expected_info_kind, id_in. cbn [existsb leaf logical_type_id ducknng_quack_node_new].
  repeat match goal with |- context [ty =? ?x] => destruct (ty =? x); cbn [orb]; try discriminate end. done.
Qed.

Lemma partial_done ty s5 s6 d t seen : partial n ty s5 s6 d t -> 0 <= ty <= 2147483647 ->
  (Z.land seen 32 =? 0) = negb s5 -> (Z.land seen 64 =? 0) = negb s6 ->
  Z.land seen (required_fields ty) = required_fields ty -> ducknng_qk_type_shape_validate t = None -> canon (S n) t.
Proof.
  intros Hp Hty H5 H6 Hr Hv.
  assert (Z.land (required_fields ty) 32 = 32 -> s5 = true) as K5
    by (intros Hb; rewrite (bit_seen _ _ _ Hr Hb) in H5; by destruct s5).
  assert (Z.land (required_fields ty) 64 = 64 -> s6 = true) as K6
    by (intros Hb; rewrite (bit_seen _ _ _ Hr Hb) in H6; by destruct s6).
  destruct Hp as [d|w d -> Hw|w s d -> Hw Hs|c d Hid Hc|c size d -> Hs Hc|ms d Hid Hl HF|d ->|labels d -> Hl HF].
  - assert (required_fields ty = 1) as E.
    { destruct (Z.eqb_spec (Z.land (required_fields ty) 32) 32) as [E|E]; [by specialize (K5 E)|]. unfold required_fields in *. by cases_goal. }
    apply canon_scalar; [done|by apply scalar_leaf|done].
  - apply canon_decimal; lia.
  - apply canon_decimal; [done|]. cbn in Hv. destruct (Z.ltb_spec w s); [by rewrite orb_true_r in Hv|lia].
  - destruct Hid as [-> |[-> | ->]]; [by apply canon_list| |by specialize (K6 eq_refl)].
    assert (logical_type_id c = DUCKNNG_QUACK_LOGICAL_STRUCT /\ nchildren c = 2) as [? ?]; [|by apply canon_map].
    change (ducknng_qk_type_shape_validate (wrap DUCKNNG_QUACK_LOGICAL_MAP 0 c)) with
      (if (false || bool_decide (Some [Some c] = None) || negb (logical_type_id c =? DUCKNNG_QUACK_LOGICAL_STRUCT) || negb (nchildren c =? 2) ||
          bool_decide (children c = None) || bool_decide (child_at c 0 = None) || bool_decide (child_at c 1 = None))%bool
       then Some "ducknng: malformed quack map type"%string else None) in Hv. cases_in Hv. by btests.
  - by apply canon_array.
  - apply Forall_and in HF as [HF1 HF2]. destruct (Z.ltb_spec 0 (zlen ms)) as [Hp|Hp]; [|by destruct Hid as [-> | ->]].
    apply canon_record; [done|lia|done|done|]. intros ->.
    assert (zlen ms = nchildren (record DUCKNNG_QUACK_LOGICAL_UNION ms)) as En by (by rewrite record_count).
    unfold ducknng_qk_type_shape_validate in Hv. rewrite record_child in Hv.
    change (logical_type_id (record DUCKNNG_QUACK_LOGICAL_UNION ms)) with DUCKNNG_QUACK_LOGICAL_UNION in Hv. cbv zeta in Hv.
    repeat match type of Hv with context [if ?x =? ?y then _ else _] => change (x =? y) with false in Hv || change (x =? y) with true in Hv; cbv iota in Hv end.
    rewrite list_lookup_fmap. destruct (ms !! 0%nat) as [m|]; [|done]. change (Some m ≫= (fun m => Some m.2)) with (Some m.2) in Hv. cbv iota in Hv.
    destruct (_ || _)%bool eqn:T in Hv; [done|]. btests. rewrite En. split; [lia|]. cbn. by f_equal.
  - by specialize (K6 eq_refl).
  - by apply canon_enum.
Qed.

(** How many of the five fields may still come. *)
Definition unseen (seen : Z) : nat := length (filter (fun b => Z.land seen b = 0) [1; 2; 8; 32; 64]).

Lemma unseen_bit seen bit : In bit [1; 2; 8; 32; 64] -> Z.land seen bit = 0 -> unseen seen = S (unseen (Z.lor seen bit)).
Proof.
  intros Hb Hs. unfold unseen. rewrite !filter_cons, filter_nil. rewrite !Z.land_lor_distr_l.
  cbn [In] in Hb. destruct Hb as [<-|[<-|[<-|[<-|[<-|[]]]]]]; rewrite Hs;
    repeat match goal with |- context [Z.lor ?x (Z.land ?a ?b)] => let v := eval vm_compute in (Z.land a b) in change (Z.land a b) with v end;
    rewrite ?Z.lor_0_r, ?Z.lor_0_l;
    repeat match goal with |- context [decide ?P] => destruct (decide P) end; cbn [length]; try done; lia.
Qed.

Lemma field_bit_in field bit : field_bit field = Some bit -> In bit [1; 2; 8; 32; 64] /\
  (bit = 32 <-> field = 200) /\ (bit = 64 <-> field = 201) /\ In field [100; 101; 103; 200; 201].
Proof.
  unfold field_bit. destruct (id_in field _) eqn:E; [|done]. apply id_in_In in E. cbn [In] in E.
  intros <-%(inj Some). destruct E as [<-|[<-|[<-|[<-|[<-|[]]]]]]; cbn; intuition discriminate.
Qed.

Lemma lor_other seen bit b : In bit [1; 2; 8; 32; 64] -> In b [32; 64] -> bit <> b -> Z.land (Z.lor seen bit) b = Z.land seen b.
Proof.
  intros Hb Hc Hn. rewrite Z.land_lor_distr_l. cbn [In] in *.
  destruct Hb as [<-|[<-|[<-|[<-|[<-|[]]]]]], Hc as [<-|[<-|[]]]; try done; cbn; apply Z.lor_0_r.
Qed.

Lemma type_info_safe ty : 0 <= ty <= 2147483647 -> forall fuel t seen d s5 s6,
  (S (unseen seen) <= fuel)%nat -> partial n ty s5 s6 d t -> (Z.land seen 32 =? 0) = negb s5 -> (Z.land seen 64 =? 0) = negb s6 ->
  xsafe (type_info_loop rn fuel t seen d) (fun t => canon (S n) t /\ logical_type_id t = ty).
Proof.
  intros Hty. induction fuel as [|fuel IH]; intros t seen d s5 s6 Hf Hp H5 H6; [lia|]. cbn [type_info_loop].
  pose proof (partial_id _ _ _ _ _ _ Hp) as Hid. eapply xsafe_bind; [apply xsafe_u16|]. intros field Hfd. cbv beta in Hfd.
  apply xsafe_if; intros E.
  { apply xsafe_if; intros R; [apply xsafe_fail|]. rewrite Hid in R. btests. unfold ducknng_quack_validate_type_shape.
    destruct (ducknng_qk_type_shape_validate t) eqn:V; [eapply xsafe_bind; [apply (xsafe_fail _ (fun _ => False))|done]|].
    eapply xsafe_bind; [by apply (xsafe_ret tt (fun _ => True))|]. intros _ _. apply xsafe_ret. split; [|done].
    by apply (partial_done ty s5 s6 d t seen). }
  destruct (field_bit field) as [bit|] eqn:Eb; [|apply xsafe_fail]. apply field_bit_in in Eb as (Hb & H32 & H64 & Hfield).
  apply xsafe_if; intros D; [apply xsafe_fail|]. btests. cbv zeta. pose proof (unseen_bit seen bit Hb D) as Hu.
  assert (forall s5' s6' d' t', partial n ty s5' s6' d' t' -> (Z.land (Z.lor seen bit) 32 =? 0) = negb s5' ->
    (Z.land (Z.lor seen bit) 64 =? 0) = negb s6' -> xsafe (type_info_loop rn fuel t' (Z.lor seen bit) d') (fun t => canon (S n) t /\ logical_type_id t = ty)) as Hnext
    by (intros; eapply IH; [lia|done..]). clear IH.
  assert (bit <> 32 -> (Z.land (Z.lor seen bit) 32 =? 0) = negb s5) as K5 by (intros N; rewrite lor_other; [done|done|cbn; tauto|done]).
  assert (bit <> 64 -> (Z.land (Z.lor seen bit) 64 =? 0) = negb s6) as K6 by (intros N; rewrite lor_other; [done|done|cbn; tauto|done]).
  apply xsafe_if; intros F1.
  { apply Z.eqb_eq in F1. eapply xsafe_bind; [apply xsafe_uleb|]. intros v _. apply xsafe_if; intros _; [apply xsafe_fail|].
    eapply Hnext; [done|apply K5; intros N; apply H32 in N; lia|apply K6; intros N; apply H64 in N; lia]. }
  apply xsafe_if; intros F2.
  { apply Z.eqb_eq in F2. eapply xsafe_bind; [apply xsafe_skip_string|]. intros v _.
    eapply Hnext; [done|apply K5; intros N; apply H32 in N; lia|apply K6; intros N; apply H64 in N; lia]. }
  apply xsafe_if; intros F3.
  { apply Z.eqb_eq in F3. eapply xsafe_bind; [apply xsafe_bool|]. intros v _. apply xsafe_if; intros _; [apply xsafe_fail|].
    eapply Hnext; [done|apply K5; intros N; apply H32 in N; lia|apply K6; intros N; apply H64 in N; lia]. }
  apply xsafe_if; intros F4.
  { apply Z.eqb_eq in F4. assert (bit = 32) as -> by (by apply H32). rewrite D in H5. destruct s5; [done|].
    assert (t = leaf ty /\ s6 = false) as [-> ->] by (by inversion Hp).
    eapply xsafe_bind; [apply field_200_safe|]. intros [t' d'] Hp'. cbn [fst snd] in Hp'. eapply Hnext; [exact Hp'| |by apply K6].
    rewrite Z.land_lor_distr_l, D. done. }
  btests. assert (field = 201) as Ef by (cbn [In] in Hfield; intuition congruence).
  assert (bit = 64) as -> by (by apply H64). rewrite D in H6. destruct s6; [done|].
  apply xsafe_if; intros F5; [apply xsafe_fail|]. change (Z.shiftl 1 5) with 32 in F5. rewrite K5 in F5 by lia. destruct s5; [|done].
  eapply xsafe_bind; [by apply field_201_safe|]. intros [t' d'] Hp'. cbn [fst snd] in Hp'. eapply Hnext; [exact Hp'|by apply K5|].
  rewrite Z.land_lor_distr_l, D. done.
Qed.

Lemma type_node_safe fuel : forall t (seen_id seen_info present : bool),
  (1 + (if seen_id then 0 else 1) + (if seen_info then 0 else 1) <= fuel)%nat ->
  (if present then seen_id = true /\ seen_info = true /\ canon (S n) t
   else exists ty, 0 <= ty <= 2147483647 /\ t = leaf ty) ->
  xsafe (type_node_loop rn fuel t seen_id seen_info present) (canon (S n)).
Proof.
  induction fuel as [|fuel IH]; intros t si sf p Hf Ht; [lia|]. cbn [type_node_loop].
  eapply xsafe_bind; [apply xsafe_u16|]. intros field _. apply xsafe_if; intros _.
  { apply xsafe_if; intros _; [apply xsafe_fail|]. apply xsafe_if; intros T; [apply xsafe_fail|].
    destruct p; cbn [negb qx_when].
    { eapply xsafe_bind; [by apply (xsafe_ret tt (fun _ => True))|]. intros _ _. apply xsafe_ret. by destruct Ht as (_ & _ & ?). }
    destruct Ht as (ty & Hty & ->). rewrite orb_true_r, andb_true_r in T. unfold ducknng_quack_validate_type_shape.
    destruct (ducknng_qk_type_shape_validate (leaf ty)) eqn:V; [eapply xsafe_bind; [apply (xsafe_fail _ (fun _ => False))|done]|].
    eapply xsafe_bind; [by apply (xsafe_ret tt (fun _ => True))|]. intros _ _. apply xsafe_ret. by apply canon_scalar. }
  apply xsafe_if; intros _.
  { destruct si; [apply xsafe_fail|]. destruct p; [by destruct Ht as (? & _)|]. eapply xsafe_bind; [apply xsafe_uleb|]. intros v Hv. cbv beta in Hv.
    apply xsafe_if; intros R; [apply xsafe_fail|]. btests. apply IH; [destruct sf; lia|]. exists v. split; [lia|].
    by destruct Ht as (ty & _ & ->). }
  apply xsafe_if; intros _; [|apply xsafe_fail].
  destruct si; cbn [negb]; [|apply xsafe_fail]. destruct sf; [apply xsafe_fail|]. destruct p; [by destruct Ht as (_ & ? & _)|].
  destruct Ht as (ty & Hty & ->). eapply xsafe_bind; [apply xsafe_bool|]. intros v _. apply xsafe_if; intros _.
  - eapply xsafe_bind.
    { eapply (type_info_safe ty Hty 6 (leaf ty) 0 0 false false); [done|constructor|done|done]. }
    intros t' [Hc _]. apply IH; [lia|done].
  - apply IH; [lia|]. by exists ty.
Qed.
End read_types.

Lemma read_type_node_safe n : forall depth, 0 <= depth -> 65 <= depth + Z.of_nat n ->
  xsafe (ducknng_quack_read_type_node n depth) (canon (Z.to_nat (65 - depth))).
Proof.
  induction n as [|n IH]; intros depth Hd Hn; cbn [ducknng_quack_read_type_node]; (apply xsafe_if; intros T; [apply xsafe_fail|]);
    unfold DUCKNNG_QUACK_MAX_NESTING in T; btests; [lia|].
  replace (Z.to_nat (65 - depth)) with (S (Z.to_nat (65 - (depth + 1)))) by lia.
  apply type_node_safe; [|done|by exists 0]. apply IH; lia.
Qed.

Lemma read_type_safe : xsafe read_type (canon 65).
Proof. by apply (read_type_node_safe nesting_levels 0). Qed.

(** C18. A column type read from untrusted bytes is a type the rest of the codec
    can rely on: whatever the bytes are, the reader stays inside them, no loop
    runs out of rounds, every refusal has a text, and an accepted tree nests at
    most 64 levels below its root, has the shape of its kind (children, names, labels,
    sizes and decimal parameters within their limits), and survives being
    written and read again unchanged. *)
Theorem accepted_types_wellformed data : all_bytes data -> zlen data <= SIZE_MAX ->
  let (r, o) := read_type (mk_reader (Some data) (zlen data) 0 0 DUCKNNG_QK_OK) in
  r_data r = Some data /\ 0 <= r_off r <= zlen data /\
  match o with
  | Err e => e <> None
  | Ok t => canon 65 t /\ ducknng_qk_type_shape_validate t = None /\
      exists img, xemits (write_type t) img /\ xreads read_type img t
  end.
Proof.
  intros Hb Hz. pose proof (zlen_nonneg data).
  pose proof (read_type_safe (mk_reader (Some data) (zlen data) 0 0 DUCKNNG_QK_OK) eq_refl ltac:(cbn; lia) Hb) as Hr.
  destruct (read_type _) as [r [t|e]]; destruct Hr as (Hd & Hl & Ho & Hx); cbn [r_data r_len r_off] in *.
  - destruct Hx as [_ Hc]. split; [done|]. split; [lia|]. split; [done|]. split; [by eapply canon_shape|].
    by apply (type_codes 65 t 0 nesting_levels Hc); [unfold nesting_levels; lia|].
  - split; [done|]. by split; [lia|].
Qed.

(** A struct of a list and a decimal. *)
Definition demo_type : schema :=
  record DUCKNNG_QUACK_LOGICAL_STRUCT
    [(lit "xs", wrap DUCKNNG_QUACK_LOGICAL_LIST 0 (leaf DUCKNNG_QUACK_LOGICAL_VARCHAR));
     (lit "d", set_decimal 9 2 (leaf DUCKNNG_QUACK_LOGICAL_DECIMAL))].

Definition demo_type_bytes : bytes :=
  let w := ducknng_qk_writer_init_fixed (Some (replicate 80 0)) 80 in
  let '(w, _) := write_type demo_type w in ztake (w_position w) (default [] (w_data w)).

Lemma accepted_types_wellformed_witness :
  (read_type (mk_reader (Some demo_type_bytes) (zlen demo_type_bytes) 0 0 DUCKNNG_QK_OK)).2 = Ok demo_type /\ canon 65 demo_type.
Proof.
  assert ((read_type (mk_reader (Some demo_type_bytes) (zlen demo_type_bytes) 0 0 DUCKNNG_QK_OK)).2 = Ok demo_type) as E by (vm_compute; reflexivity).
  split; [exact E|].
  assert (all_bytes demo_type_bytes) as Hb by (apply (bool_decide_eq_true_1 _); vm_compute; reflexivity).
  assert (zlen demo_type_bytes <= SIZE_MAX) as Hz by (apply (bool_decide_eq_true_1 _); vm_compute; reflexivity).
  pose proof (accepted_types_wellformed demo_type_bytes Hb Hz) as H.
  destruct (read_type _) as [r o]. cbn [snd] in E. rewrite E in H. exact (proj1 (proj2 (proj2 H))).
Defined.

(** ** DuckDB types and back *)

Definition members_equal (type_equal : logical_type -> logical_type -> bool) :=
  fix loop (a b : list (bytes * logical_type)) : bool :=
  match a, b with
  | [], [] => true
  | (na, ta) :: a, (nb, tb) :: b => if (str_eq na nb && type_equal ta tb)%bool then loop a b else false
  | _, _ => false
  end.

Fixpoint type_labels_equal (a b : list bytes) : bool :=
  match a, b with
  | [], [] => true
  | x :: a, y :: b => if str_eq x y then type_labels_equal a b else false
  | _, _ => false
  end.

Fixpoint ducknng_quack_logical_type_equal (a b : logical_type) {struct a} : bool :=
  if negb (duckdb_get_type_id a =? duckdb_get_type_id b) then false else
  match a, b with
  | LDecimal wa sa, LDecimal wb sb => ((wa =? wb) && (sa =? sb))%bool
  | LList ca, LList cb => ducknng_quack_logical_type_equal ca cb
  | LArray ca na, LArray cb nb => ((na =? nb) && ducknng_quack_logical_type_equal ca cb)%bool
  | LMap ka va, LMap kb vb => (ducknng_quack_logical_type_equal ka kb && ducknng_quack_logical_type_equal va vb)%bool
  | LStruct ma, LStruct mb =>
    if negb (zlen ma =? zlen mb) then false else members_equal ducknng_quack_logical_type_equal ma mb
  | LUnion ma, LUnion mb =>
    if negb (zlen ma =? zlen mb) then false else members_equal ducknng_quack_logical_type_equal ma mb
  | LEnum la, LEnum lb => if negb (zlen la =? zlen lb) then false else type_labels_equal la lb
  | _, _ => true
  end.

(** The types a batch can carry, nested at most [n] levels. *)
Inductive duck_ok : nat -> logical_type -> Prop :=
| ok_scalar n id : In id (fst <$> scalar_ids) -> duck_ok (S n) (LScalar id)
| ok_decimal n w s : 1 <= w <= 38 -> 0 <= s <= w -> duck_ok (S n) (LDecimal w s)
| ok_enum n labels : zlen labels <= DUCKNNG_QUACK_MAX_ENUM_VALUES -> Forall name_ok labels -> duck_ok (S n) (LEnum labels)
| ok_list n c : duck_ok n c -> duck_ok (S n) (LList c)
| ok_array n c size : 1 <= size <= UINT32_MAX -> duck_ok n c -> duck_ok (S n) (LArray c size)
| ok_map n k v : duck_ok n k -> duck_ok n v -> duck_ok (S (S n)) (LMap k v)
| ok_struct n ms : 0 < zlen ms <= DUCKNNG_QUACK_MAX_STRUCT_MEMBERS -> Forall (fun m => name_ok m.1) ms ->
    Forall (fun m => duck_ok n m.2) ms -> duck_ok (S n) (LStruct ms)
| ok_union n ms : 0 < zlen ms < DUCKNNG_QUACK_MAX_STRUCT_MEMBERS -> Forall (fun m => name_ok m.1) ms ->
    Forall (fun m => duck_ok (S n) m.2) ms -> duck_ok (S (S n)) (LUnion ms).

Lemma add_first ty c name : ducknng_quack_node_add_child (leaf ty) c name = record ty [(name, c)].
Proof. done. Qed.

Lemma add_next ty ms c name : zlen ms < DUCKNNG_QUACK_MAX_STRUCT_MEMBERS ->
  ducknng_quack_node_add_child (record ty ms) c name = record ty (ms ++ [(name, c)]).
Proof.
  intros H. unfold ducknng_quack_node_add_child. rewrite record_count by lia.
  change (default [] (children (record ty ms))) with (Some <$> ms.*2). change (default [] (child_names (record ty ms))) with (Some <$> ms.*1).
  rewrite !take_ge by (rewrite ?length_fmap; unfold zlen; lia). unfold record, set_children. rewrite !fmap_app, !zlen_app.
  f_equal. unfold zlen. by rewrite !length_fmap.
Qed.

Lemma add_members_spec f ms nodes : Forall2 (fun m c => f m.2 = Ok c) ms nodes -> forall ty acc, acc <> [] ->
  zlen acc + zlen ms <= DUCKNNG_QUACK_MAX_STRUCT_MEMBERS ->
  add_members f (record ty acc) ms = Ok (record ty (acc ++ zip ms.*1 nodes)).
Proof.
  induction 1 as [|[name t] c ms nodes Hc Hms IH]; intros ty acc Ha Hl; cbn [add_members fst snd] in *; [by rewrite app_nil_r|].
  rewrite zlen_cons in Hl. pose proof (zlen_nonneg ms). rewrite Hc. cbn [res_bind]. rewrite add_next by lia. rewrite IH.
  - rewrite <- app_assoc. done.
  - by destruct acc.
  - rewrite zlen_app, zlen_cons, zlen_nil. lia.
Qed.

Lemma convert_members_spec f node ms : forall i,
  (forall j m, ms !! j = Some m -> f (child_at node (i + j)) = Ok m.2 /\ name_at (child_names node) (i + j) = m.1) ->
  convert_members f node (length ms) i = Ok ms.
Proof.
  induction ms as [|[name t] ms IH]; intros i Hi; [done|]. cbn [length convert_members].
  destruct (Hi 0%nat (name, t) eq_refl) as [H1 H2]. rewrite Nat.add_0_r in H1, H2. rewrite H1. cbn [res_bind]. rewrite IH.
  - cbn [res_bind]. by rewrite H2.
  - intros j m Hj. replace (S i + j)%nat with (i + S j)%nat by lia. by apply Hi.
Qed.

Lemma scalar_pair id : In id (fst <$> scalar_ids) -> exists q, find (fun p => fst p =? id) scalar_ids = Some (id, q) /\
  find (fun p => snd p =? q) scalar_ids = Some (id, q) /\ q <> DUCKNNG_QUACK_LOGICAL_CHAR /\ q <> DUCKNNG_QUACK_LOGICAL_DECIMAL /\
  0 <= q <= 2147483647 /\ ducknng_qk_type_needs_info (leaf q) = false /\ ducknng_qk_type_shape_validate (leaf q) = None /\
  id_in q [DUCKNNG_QUACK_LOGICAL_LIST; DUCKNNG_QUACK_LOGICAL_ARRAY] = false /\
  id_in q [DUCKNNG_QUACK_LOGICAL_STRUCT; DUCKNNG_QUACK_LOGICAL_UNION] = false /\ q <> DUCKNNG_QUACK_LOGICAL_MAP /\ q <> DUCKNNG_QUACK_LOGICAL_ENUM.
Proof.
  intros (p & -> & Hp%list_elem_of_In)%list_elem_of_In%list_elem_of_fmap. exists p.2.
  assert (forallb (fun p => bool_decide (find (fun x => fst x =? p.1) scalar_ids = Some (p.1, p.2) /\
    find (fun x => snd x =? p.2) scalar_ids = Some (p.1, p.2) /\ p.2 <> DUCKNNG_QUACK_LOGICAL_CHAR /\ p.2 <> DUCKNNG_QUACK_LOGICAL_DECIMAL /\
    0 <= p.2 <= 2147483647 /\ ducknng_qk_type_needs_info (leaf p.2) = false /\ ducknng_qk_type_shape_validate (leaf p.2) = None /\
    id_in p.2 [DUCKNNG_QUACK_LOGICAL_LIST; DUCKNNG_QUACK_LOGICAL_ARRAY] = false /\
    id_in p.2 [DUCKNNG_QUACK_LOGICAL_STRUCT; DUCKNNG_QUACK_LOGICAL_UNION] = false /\ p.2 <> DUCKNNG_QUACK_LOGICAL_MAP /\
    p.2 <> DUCKNNG_QUACK_LOGICAL_ENUM)) scalar_ids = true) as Hall by (vm_compute; reflexivity).
  rewrite forallb_forall in Hall. exact (bool_decide_eq_true_1 _ (Hall p Hp)).
Qed.

Section conversion.
Context (creates : logical_type -> bool) (Hcreates : forall t, creates t = true).

Lemma made text t : created creates text t = Ok t.
Proof. unfold created. by rewrite Hcreates. Qed.

Definition converts (n : nat) (depth : Z) (t : logical_type) (node : schema) : Prop :=
  ducknng_quack_node_from_duckdb t depth = Ok node /\ canon n node /\
  forall m, (n <= m)%nat -> ducknng_quack_node_to_duckdb creates m (Some node) depth = Ok t.

Lemma deep depth n : depth + Z.of_nat (S n) <= 65 -> (DUCKNNG_QUACK_MAX_NESTING <? depth) = false.
Proof. intros H. unfold DUCKNNG_QUACK_MAX_NESTING. by destruct (Z.ltb_spec 64 depth); [lia|]. Qed.

Lemma leaf_converts n depth t q w s : depth + Z.of_nat (S n) <= 65 ->
  ducknng_quack_node_from_duckdb t depth = Ok (set_decimal w s (leaf q)) -> canon (S n) (set_decimal w s (leaf q)) ->
  id_in q [DUCKNNG_QUACK_LOGICAL_LIST; DUCKNNG_QUACK_LOGICAL_ARRAY] = false ->
  id_in q [DUCKNNG_QUACK_LOGICAL_STRUCT; DUCKNNG_QUACK_LOGICAL_UNION] = false -> q <> DUCKNNG_QUACK_LOGICAL_MAP -> q <> DUCKNNG_QUACK_LOGICAL_ENUM ->
  ducknng_quack_meta_to_duckdb_type creates (mk_meta q w s) = Ok t ->
  exists node, converts (S n) depth t node.
Proof.
  intros Hd Hf Hc H1 H2 H3 H4 Ht. eexists. split; [exact Hf|]. split; [done|]. intros [|m] Hm; [lia|].
  cbn [ducknng_quack_node_to_duckdb]. rewrite (deep depth n) by done. cbn [logical_type_id set_decimal leaf ducknng_quack_node_new decimal_width decimal_scale].
  rewrite H1, H2, (proj2 (Z.eqb_neq _ _) H3), (proj2 (Z.eqb_neq _ _) H4). exact Ht.
Qed.

Lemma members_convert n depth (ms : list (bytes * logical_type)) : Forall (fun m => exists node, converts n (depth + 1) m.2 node) ms ->
  exists nodes, Forall2 (fun m c => ducknng_quack_node_from_duckdb m.2 (depth + 1) = Ok c) ms nodes /\ Forall (canon n) nodes /\
    Forall2 (fun m c => forall k, (n <= k)%nat -> ducknng_quack_node_to_duckdb creates k (Some c) (depth + 1) = Ok m.2) ms nodes.
Proof.
  induction 1 as [|m ms (c & H1 & H2 & H3) Hms (nodes & G1 & G2 & G3)]; [by exists []|].
  exists (c :: nodes). by repeat split; constructor.
Qed.

Lemma zip_names (ms : list (bytes * logical_type)) (nodes : list schema) : length ms = length nodes -> (zip ms.*1 nodes).*1 = ms.*1 /\ (zip ms.*1 nodes).*2 = nodes.
Proof. intros H. split; [apply fst_zip|apply snd_zip]; rewrite length_fmap; lia. Qed.

Lemma zip_canon n (ms : list (bytes * logical_type)) nodes : length ms = length nodes -> Forall (fun m => name_ok m.1) ms -> Forall (canon n) nodes ->
  Forall (fun m => name_ok m.1) (zip ms.*1 nodes) /\ Forall (fun m => canon n m.2) (zip ms.*1 nodes).
Proof.
  intros Hl Hn Hc. destruct (zip_names ms nodes Hl) as [E1 E2].
  split; [apply (Forall_fmap fst name_ok); rewrite E1; by apply Forall_fmap|apply (Forall_fmap snd (canon n)); by rewrite E2].
Qed.

Lemma record_converts n depth ty (ms : list (bytes * logical_type)) nodes pre : depth + Z.of_nat (S n) <= 65 ->
  ty = DUCKNNG_QUACK_LOGICAL_STRUCT /\ pre = [] \/ ty = DUCKNNG_QUACK_LOGICAL_UNION /\ length pre = 1%nat ->
  0 < zlen ms -> zlen pre + zlen ms <= DUCKNNG_QUACK_MAX_STRUCT_MEMBERS ->
  Forall2 (fun m c => forall k, (n <= k)%nat -> ducknng_quack_node_to_duckdb creates k (Some c) (depth + 1) = Ok m.2) ms nodes ->
  forall k, (S n <= k)%nat -> ducknng_quack_node_to_duckdb creates k (Some (record ty (pre ++ zip ms.*1 nodes))) depth =
    Ok (if ty =? DUCKNNG_QUACK_LOGICAL_STRUCT then LStruct ms else LUnion ms).
Proof.
  intros Hd Hty Hp Hl Hms [|k] Hk; [lia|]. pose proof (Forall2_length _ _ _ Hms) as Hn. cbn [ducknng_quack_node_to_duckdb]. rewrite (deep depth n) by done.
  assert (zlen (pre ++ zip ms.*1 nodes) = zlen pre + zlen ms) as Hz by (rewrite zlen_app; unfold zlen; rewrite length_zip_with, length_fmap; lia).
  rewrite record_count by lia. rewrite Hz. change (logical_type_id (record ty _)) with ty.
  assert (length pre = Z.to_nat (if ty =? DUCKNNG_QUACK_LOGICAL_UNION then 1 else 0)) as Hs by (by destruct Hty as [[-> ->]|[-> ->]]).
  assert (zlen pre = (if ty =? DUCKNNG_QUACK_LOGICAL_UNION then 1 else 0)) as Hq by (unfold zlen; rewrite Hs; destruct (ty =? _); lia).
  assert (convert_members (fun c => ducknng_quack_node_to_duckdb creates k c (depth + 1)) (record ty (pre ++ zip ms.*1 nodes)) (length ms) (length pre) = Ok ms) as Hc.
  { apply convert_members_spec. intros j m Hj. rewrite record_child, record_name, lookup_app_r, Nat.add_comm, Nat.add_sub by lia.
    destruct (Forall2_lookup_l _ _ _ _ _ Hms Hj) as (c & Hcj & Hc).
    rewrite lookup_zip_with, list_lookup_fmap, Hj, Hcj. cbn. split; [|done]. apply Hc. lia. }
  assert (id_in ty [DUCKNNG_QUACK_LOGICAL_LIST; DUCKNNG_QUACK_LOGICAL_ARRAY] = false /\
    id_in ty [DUCKNNG_QUACK_LOGICAL_STRUCT; DUCKNNG_QUACK_LOGICAL_UNION] = true) as [-> ->] by (by destruct Hty as [[-> _]|[-> _]]).
  cbv zeta. rewrite <- Hq. destruct (Z.ltb_spec (zlen pre) (zlen pre + zlen ms)); [|lia].
  replace (zlen pre + zlen ms - zlen pre) with (zlen ms) by lia. destruct (Z.eqb_spec (zlen ms) 0); [lia|].
  replace (Z.to_nat (zlen ms)) with (length ms) by (unfold zlen; lia). replace (Z.to_nat (zlen pre)) with (length pre) by (unfold zlen; lia).
  rewrite Hc. cbn [res_bind]. apply made.
Qed.

Lemma wrap_converts n depth t ty size c node : depth + Z.of_nat (S n) <= 65 ->
  ty = DUCKNNG_QUACK_LOGICAL_LIST /\ size = 0 /\ t = LList c \/ ty = DUCKNNG_QUACK_LOGICAL_ARRAY /\ 1 <= size <= UINT32_MAX /\ t = LArray c size ->
  converts n (depth + 1) c node -> exists node, converts (S n) depth t node.
Proof.
  intros Hd Ht (H1 & H2 & H3). exists (wrap ty size node). split; [|split].
  - destruct Ht as [(-> & -> & ->)|(-> & Hs & ->)]; cbn [ducknng_quack_node_from_duckdb]; rewrite (deep depth n), H1 by done; [done|].
    cbn [res_bind]. by rewrite u32_small by lia.
  - destruct Ht as [(-> & -> & ->)|(-> & Hs & ->)]; by constructor.
  - intros [|m] Hm; [lia|]. cbn [ducknng_quack_node_to_duckdb]. rewrite (deep depth n) by done.
    change (logical_type_id (wrap ty size node)) with ty. change (child_at (wrap ty size node) 0) with (Some node).
    change (nchildren (wrap ty size node)) with 1. change (array_size (wrap ty size node)) with size.
    assert (id_in ty [DUCKNNG_QUACK_LOGICAL_LIST; DUCKNNG_QUACK_LOGICAL_ARRAY] = true) as -> by (by destruct Ht as [(-> & _)|(-> & _)]).
    cbn [negb Z.eqb Pos.eqb]. rewrite H3 by lia. cbn [res_bind]. rewrite made. by destruct Ht as [(-> & _ & ->)|(-> & _ & ->)].
Qed.

Lemma map_converts n depth k v kn vn : depth + Z.of_nat (S (S n)) <= 65 -> converts n (depth + 2) k kn -> converts n (depth + 2) v vn ->
  exists node, converts (S (S n)) depth (LMap k v) node.
Proof.
  intros Hd (K1 & K2 & K3) (V1 & V2 & V3).
  set (entry := record DUCKNNG_QUACK_LOGICAL_STRUCT [(lit "key", kn); (lit "value", vn)]).
  exists (wrap DUCKNNG_QUACK_LOGICAL_MAP 0 entry). split; [|split].
  - cbn [ducknng_quack_node_from_duckdb]. rewrite (deep depth (S n)), K1, V1 by done. done.
  - apply canon_map; [|done|done]. apply canon_record; [by left|done| | |done].
    + repeat constructor; done.
    + by repeat constructor.
  - intros [|m] Hm; [lia|]. cbn [ducknng_quack_node_to_duckdb]. rewrite (deep depth (S n)) by done.
    change (child_at (wrap DUCKNNG_QUACK_LOGICAL_MAP 0 entry) 0) with (Some entry). cbv zeta.
    change (id_in (logical_type_id (wrap DUCKNNG_QUACK_LOGICAL_MAP 0 entry)) [DUCKNNG_QUACK_LOGICAL_LIST; DUCKNNG_QUACK_LOGICAL_ARRAY]) with false.
    change (id_in (logical_type_id (wrap DUCKNNG_QUACK_LOGICAL_MAP 0 entry)) [DUCKNNG_QUACK_LOGICAL_STRUCT; DUCKNNG_QUACK_LOGICAL_UNION]) with false.
    change (logical_type_id (wrap DUCKNNG_QUACK_LOGICAL_MAP 0 entry) =? DUCKNNG_QUACK_LOGICAL_MAP) with true. cbv iota.
    change ((negb (nchildren (wrap DUCKNNG_QUACK_LOGICAL_MAP 0 entry) =? 1) || negb (logical_type_id entry =? DUCKNNG_QUACK_LOGICAL_STRUCT) || negb (nchildren entry =? 2))%bool) with false.
    change (child_at entry 0) with (Some kn). change (child_at entry 1) with (Some vn). cbv iota.
    rewrite K3, V3 by lia. cbn [res_bind]. apply made.
Qed.

Lemma duck_converts n : forall t depth, duck_ok n t -> depth + Z.of_nat n <= 65 -> exists node, converts n depth t node.
Proof.
  induction n as [n IH] using lt_wf_ind. intros t depth Ht Hd.
  inversion Ht as [n' id Hid|n' w s Hw Hs|n' labels Hl HF|n' c Hc|n' c size Hs Hc|n' k v Hk Hv|n' ms Hl Hn Hc|n' ms Hl Hn Hc]; subst.
  - destruct (scalar_pair id Hid) as (q & F1 & F2 & NC & ND & Hq & Hi & Hv & L1 & L2 & L3 & L4).
    apply (leaf_converts n' depth _ q 0 0); [done| |by apply canon_scalar|done..|].
    + cbn [ducknng_quack_node_from_duckdb]. rewrite (deep depth n') by done. cbn [ducknng_quack_duckdb_type_to_meta duckdb_get_type_id]. by rewrite F1.
    + unfold ducknng_quack_meta_to_duckdb_type. cbn [meta_id]. rewrite (proj2 (Z.eqb_neq _ _) ND), (proj2 (Z.eqb_neq _ _) NC), F2. apply made.
  - apply (leaf_converts n' depth _ DUCKNNG_QUACK_LOGICAL_DECIMAL w s); [done| |by apply canon_decimal|done..|].
    + cbn [ducknng_quack_node_from_duckdb]. by rewrite (deep depth n') by done.
    + apply made.
  - eexists. split; [|split; [by apply canon_enum|]].
    + cbn [ducknng_quack_node_from_duckdb]. by rewrite (deep depth n') by done.
    + intros [|m] Hm; [lia|]. cbn [ducknng_quack_node_to_duckdb]. rewrite (deep depth n') by done.
      change (ducknng_quack_node_new DUCKNNG_QUACK_LOGICAL_ENUM) with (leaf DUCKNNG_QUACK_LOGICAL_ENUM). rewrite enum_count_labels by done.
      change (logical_type_id (set_labels (Some <$> labels) (leaf DUCKNNG_QUACK_LOGICAL_ENUM))) with DUCKNNG_QUACK_LOGICAL_ENUM. cbv zeta.
      repeat match goal with |- context [if ?b then _ else _] => change b with false || change b with true; cbv iota end.
      rewrite made. do 2 f_equal. apply list_eq. intros i. rewrite list_lookup_fmap.
      replace (Z.to_nat (zlen labels)) with (length labels) by (unfold zlen; lia).
      destruct (labels !! i) as [s|] eqn:E.
      * rewrite lookup_seq_lt by (by eapply lookup_lt_Some). cbn. f_equal. by apply labels_name.
      * rewrite lookup_seq_ge by (by apply lookup_ge_None). done.
  - destruct (IH n' ltac:(lia) c (depth + 1) Hc) as [node Hn]; [lia|]. eapply wrap_converts; [done| |exact Hn]. by left.
  - destruct (IH n' ltac:(lia) c (depth + 1) Hc) as [node Hn]; [lia|]. eapply wrap_converts; [done| |exact Hn]. by right.
  - destruct (IH n' ltac:(lia) k (depth + 2) Hk) as [kn HK]; [lia|]. destruct (IH n' ltac:(lia) v (depth + 2) Hv) as [vn HV]; [lia|].
    by eapply map_converts.
  - destruct (members_convert n' depth ms) as (nodes & F1 & F2 & F3).
    { rewrite Forall_forall in *. intros m Hm. apply IH; [lia|by apply Hc|lia]. }
    pose proof (Forall2_length _ _ _ F1) as Hlen. destruct (zip_canon n' ms nodes Hlen Hn F2) as [Z1 Z2].
    assert (zlen (zip ms.*1 nodes) = zlen ms) as Hz by (unfold zlen; rewrite length_zip_with, length_fmap; lia).
    exists (record DUCKNNG_QUACK_LOGICAL_STRUCT (zip ms.*1 nodes)). split; [|split].
    + cbn [ducknng_quack_node_from_duckdb]. rewrite (deep depth n') by done. destruct ms as [|[name t] ms]; [exfalso; unfold zlen in Hl; cbn in Hl; lia|]. inversion F1 as [|? c ? nodes' Hf F1']; subst.
      cbn [add_members fst snd] in *. rewrite Hf. cbn [res_bind]. change (ducknng_quack_node_new ?x) with (leaf x). rewrite add_first.
      rewrite zlen_cons in Hl. by rewrite (add_members_spec _ ms nodes' F1') by (try done; change (zlen [_]) with 1; lia).
    + apply canon_record; [by left|lia|done|done|done].
    + apply (record_converts n' depth DUCKNNG_QUACK_LOGICAL_STRUCT ms nodes []); [done|by left|lia|change (zlen []) with 0; lia|done].
  - destruct (members_convert (S n') depth ms) as (nodes & F1 & F2 & F3).
    { rewrite Forall_forall in *. intros m Hm. apply IH; [lia|by apply Hc|lia]. }
    pose proof (Forall2_length _ _ _ F1) as Hlen. destruct (zip_canon (S n') ms nodes Hlen Hn F2) as [Z1 Z2].
    assert (zlen (zip ms.*1 nodes) = zlen ms) as Hz by (unfold zlen; rewrite length_zip_with, length_fmap; lia).
    set (tag := ([] : bytes, leaf DUCKNNG_QUACK_LOGICAL_UTINYINT)).
    assert (zlen ([tag] ++ zip ms.*1 nodes) = 1 + zlen ms) as Hz2 by (rewrite <- Hz; apply (zlen_cons tag)).
    exists (record DUCKNNG_QUACK_LOGICAL_UNION ([tag] ++ zip ms.*1 nodes)). split; [|split].
    + cbn [ducknng_quack_node_from_duckdb]. rewrite (deep depth (S n')) by done. change (ducknng_quack_node_new ?x) with (leaf x). rewrite add_first.
      by rewrite (add_members_spec _ ms nodes F1) by (try done; change (zlen [_]) with 1; lia).
    + apply canon_record; [by right|rewrite Hz2; lia|..].
      * constructor; [apply nil_name_ok|done].
      * constructor; [by apply canon_scalar|done].
      * intros _. rewrite Hz2. split; [lia|done].
    + apply (record_converts (S n') depth DUCKNNG_QUACK_LOGICAL_UNION ms nodes [tag]); [done|by right|lia|change (zlen [tag]) with 1; lia|done].
Qed.
End conversion.

Lemma type_labels_spec la : forall lb, type_labels_equal la lb = true <-> la = lb.
Proof.
  induction la as [|x la IH]; intros [|y lb]; cbn [type_labels_equal]; try (by split).
  destruct (str_eq x y) eqn:E.
  - apply str_eq_true in E as ->. rewrite IH. split; [by intros ->|by intros [= ->]].
  - split; [done|]. intros [= -> ->]. by rewrite str_eq_refl in E.
Qed.

(** The id of a type tells its constructor. *)
Definition kind_of_type (t : logical_type) : Z :=
  match t with
  | LScalar _ => 0 | LDecimal _ _ => 1 | LList _ => 2 | LArray _ _ => 3 | LStruct _ => 4 | LUnion _ => 5 | LMap _ _ => 6 | LEnum _ => 7
  end.
Definition kind_of_id (x : Z) : Z :=
  if x =? 19 then 1 else if x =? 24 then 2 else if x =? 33 then 3 else if x =? 25 then 4 else if x =? 28 then 5
  else if x =? 26 then 6 else if x =? 23 then 7 else 0.

Lemma kind_by_id n t : duck_ok n t -> kind_of_type t = kind_of_id (duckdb_get_type_id t).
Proof.
  destruct 1 as [n x Hx| | | | | | |]; try done. cbn [kind_of_type duckdb_get_type_id].
  assert (forallb (fun x => kind_of_id x =? 0) (fst <$> scalar_ids) = true) as Hall by (vm_compute; reflexivity).
  rewrite forallb_forall in Hall. symmetry. by apply Z.eqb_eq, Hall.
Qed.

Lemma members_sound f ma : forall mb, (forall x y, x ∈ ma -> y ∈ mb -> f x.2 y.2 = true -> x.2 = y.2) -> members_equal f ma mb = true -> ma = mb.
Proof.
  induction ma as [|[na ta] ma IH]; intros [|[nb tb] mb] Hf; cbn [members_equal]; try done.
  destruct (str_eq na nb && f ta tb)%bool eqn:E; [|done]. apply andb_true_iff in E as [En Et]. apply str_eq_true in En as ->.
  intros H. apply (Hf (nb, ta) (nb, tb)) in Et; [|by left|by left]. cbn in Et. subst. f_equal. apply IH; [|done].
  intros x y Hx Hy. apply Hf; by right.
Qed.

Lemma members_refl f ma : (forall x, x ∈ ma -> f x.2 x.2 = true) -> members_equal f ma ma = true.
Proof.
  induction ma as [|[na ta] ma IH]; intros Hf; [done|]. cbn [members_equal]. rewrite str_eq_refl.
  pose proof (Hf (na, ta) ltac:(by left)) as E. cbn in E. rewrite E. apply IH. intros x Hx. apply Hf. by right.
Qed.

Lemma duck_equal_sound n : forall a b, duck_ok n a -> duck_ok n b -> ducknng_quack_logical_type_equal a b = true -> a = b.
Proof.
  induction n as [n IH] using lt_wf_ind. intros a b Ha Hb He.
  assert (kind_of_type a = kind_of_type b) as Hk.
  { rewrite (kind_by_id n a), (kind_by_id n b) by done. destruct a; cbn [ducknng_quack_logical_type_equal] in He;
      (destruct (Z.eqb_spec (duckdb_get_type_id b) (duckdb_get_type_id b)) as [_|]; [|done]);
      match type of He with context [negb (?x =? ?y)] => destruct (Z.eqb_spec x y) as [E|]; [by rewrite E|done] end. }
  inversion Ha as [n' x Hx|n' w s Hw Hs|n' labels Hl HF|n' c Hc|n' c size Hs Hc|n' k v Hkk Hv|n' ms Hl Hn Hc|n' ms Hl Hn Hc]; subst;
    destruct b as [x'|w' s'|c'|c' size'|ms'|ms'|k' v'|labels']; try discriminate Hk; cbn in He.
  - destruct (Z.eqb_spec x x'); [by subst|done].
  - apply andb_true_iff in He as [E1%Z.eqb_eq E2%Z.eqb_eq]. by subst.
  - destruct (zlen labels =? zlen labels'); [|done]. apply type_labels_spec in He. by subst.
  - f_equal. inversion Hb; subst. apply (IH n'); (lia || done).
  - apply andb_true_iff in He as [E1%Z.eqb_eq E2]. subst. f_equal. inversion Hb; subst. apply (IH n'); (lia || done).
  - apply andb_true_iff in He as [E1 E2]. inversion Hb; subst. f_equal; apply (IH n'); (lia || done).
  - destruct (zlen ms =? zlen ms'); [|done]. f_equal. inversion Hb as [| | | | | |? ? ? ? Hc'|]; subst. rewrite Forall_forall in Hc, Hc'.
    eapply members_sound; [|exact He]. intros x y Hx Hy. apply (IH n'); [lia|by apply Hc|by apply Hc'].
  - destruct (zlen ms =? zlen ms'); [|done]. f_equal. inversion Hb as [| | | | | | |? ? ? ? Hc']; subst. rewrite Forall_forall in Hc, Hc'.
    eapply members_sound; [|exact He]. intros x y Hx Hy. apply (IH (S n')); [lia|by apply Hc|by apply Hc'].
Qed.

Lemma duck_equal_refl n : forall a, duck_ok n a -> ducknng_quack_logical_type_equal a a = true.
Proof.
  induction n as [n IH] using lt_wf_ind. intros a Ha.
  inversion Ha as [n' x Hx|n' w s Hw Hs|n' labels Hl HF|n' c Hc|n' c size Hs Hc|n' k v Hkk Hv|n' ms Hl Hn Hc|n' ms Hl Hn Hc]; subst; cbn; rewrite ?Z.eqb_refl; cbn [negb andb].
  - done.
  - done.
  - by apply type_labels_spec.
  - apply (IH n'); (lia || done).
  - apply (IH n'); (lia || done).
  - rewrite (IH n'), (IH n') by (lia || done). done.
  - rewrite Forall_forall in Hc. apply members_refl. intros x Hx. apply (IH n'); [lia|by apply Hc].
  - rewrite Forall_forall in Hc. apply members_refl. intros x Hx. apply (IH (S n')); [lia|by apply Hc].
Qed.

(** C16. Column types survive the way from DuckDB to the wire and back.  Every
    supported DuckDB type with at most 64 levels below its root becomes a canonical tree;
    when DuckDB agrees to create the types it is asked for, the tree written by
    the server and read by the client gives the type it came from; and the
    test that guards an upload ([ducknng_quack_logical_type_equal]) accepts a
    column exactly when its type is the type of the target, parameters, names
    and labels included. *)
Theorem types_roundtrip creates t u : (forall x, creates x = true) -> duck_ok 65 t -> duck_ok 65 u ->
  exists node img, ducknng_quack_node_from_duckdb t 0 = Ok node /\ canon 65 node /\
    xemits (write_type node) img /\ xreads read_type img node /\
    ducknng_quack_node_to_duckdb creates nesting_levels (Some node) 0 = Ok t /\
    (ducknng_quack_logical_type_equal t u = true <-> t = u).
Proof.
  intros Hc Ht Hu. destruct (duck_converts creates Hc 65 t 0 Ht) as (node & Hf & Hn & Hb); [done|].
  destruct (type_codes 65 node 0 nesting_levels Hn) as (img & He & Hr); [unfold nesting_levels; lia|done|].
  exists node, img. repeat (split; [done|]). split; [apply Hb; unfold nesting_levels; lia|].
  split; [by apply (duck_equal_sound 65)|]. intros <-. by apply (duck_equal_refl 65).
Qed.

Definition demo_logical_type : logical_type := LStruct [(lit "xs", LList (LScalar 17)); (lit "d", LDecimal 9 2)].

Lemma types_roundtrip_witness :
  exists node, ducknng_quack_node_from_duckdb demo_logical_type 0 = Ok node /\
    ducknng_quack_node_to_duckdb (fun _ => true) nesting_levels (Some node) 0 = Ok demo_logical_type.
Proof.
  assert (duck_ok 65 demo_logical_type) as Hd.
  { apply ok_struct; [by vm_compute|..].
    - repeat constructor; vm_compute; done.
    - constructor; [apply ok_list, ok_scalar; vm_compute; tauto|]. constructor; [by apply ok_decimal|constructor]. }
  destruct (types_roundtrip (fun _ => true) demo_logical_type demo_logical_type (fun _ => eq_refl) Hd Hd) as (node & img & H1 & _ & _ & _ & H2 & _).
  by exists node.
Defined.
