(* ===== verification/QuackVectors.v ===== *)
(** Vectors of the quack batch format: [src/src/ducknng_quack.c].

    [vector] is what the encoder sees of a DuckDB vector through the C API:
    validity mask, fixed-width data, strings, and children.  [column] is what
    the decoder writes into an output vector; a compressed vector is decoded
    into a scratch vector whose rows DuckDB copies by a selection
    ([duckdb_vector_copy_sel], [CCopy]).  [vector_value] and [column_value]
    give the value of a row, which is what the round trip preserves.

    The recursions stop at [DUCKNNG_QUACK_MAX_NESTING], as in [QuackTypes]. *)

From S2P Require Import Prelude Checked QuackCore QuackTypes.

Definition DUCKNNG_QUACK_VECTOR_TYPE : Z := 90.
Definition DUCKNNG_QUACK_VECTOR_SELECTION : Z := 91.
Definition DUCKNNG_QUACK_VECTOR_DICTIONARY_COUNT : Z := 92.
Definition DUCKNNG_QUACK_VECTOR_SEQUENCE_START : Z := 91.
Definition DUCKNNG_QUACK_VECTOR_SEQUENCE_INCREMENT : Z := 92.
Definition DUCKNNG_QUACK_VECTOR_HAS_VALIDITY : Z := 100.
Definition DUCKNNG_QUACK_VECTOR_VALIDITY : Z := 101.
Definition DUCKNNG_QUACK_VECTOR_DATA : Z := 102.
Definition DUCKNNG_QUACK_VECTOR_FLAT : Z := 0.
Definition DUCKNNG_QUACK_VECTOR_FSST : Z := 1.
Definition DUCKNNG_QUACK_VECTOR_CONSTANT : Z := 2.
Definition DUCKNNG_QUACK_VECTOR_DICTIONARY : Z := 3.
Definition DUCKNNG_QUACK_VECTOR_SEQUENCE : Z := 4.
Definition DUCKNNG_QUACK_VECTOR_STRUCT_CHILDREN : Z := 103.
Definition DUCKNNG_QUACK_VECTOR_LIST_CHILD_SIZE : Z := 104.
Definition DUCKNNG_QUACK_VECTOR_ARRAY_SIZE : Z := 103.
Definition DUCKNNG_QUACK_VECTOR_LIST_ENTRIES : Z := 105.
Definition DUCKNNG_QUACK_VECTOR_LIST_CHILD : Z := 106.
Definition DUCKNNG_QUACK_VECTOR_ARRAY_CHILD : Z := 104.
Definition DUCKNNG_QUACK_ENTRY_OFFSET : Z := 100.
Definition DUCKNNG_QUACK_ENTRY_LENGTH : Z := 101.
Definition DUCKNNG_QUACK_MAX_MATERIALIZED_VALUES : Z := 4194304.

(** ** Source vectors *)

Inductive vector :=
| VFixed (validity : option bytes) (width : Z) (data : bytes)
| VStrings (validity : option bytes) (data : list bytes)
| VStruct (validity : option bytes) (children : list vector)
| VList (validity : option bytes) (entries : list (Z * Z)) (size : Z) (child : vector)
| VArray (validity : option bytes) (size : Z) (child : vector).

(** [duckdb_vector_get_validity] and the other accessors. *)
Definition vector_validity (v : vector) : option bytes :=
  match v with
  | VFixed m _ _ | VStrings m _ | VStruct m _ | VList m _ _ _ | VArray m _ _ => m
  end.
Definition vector_data (v : vector) : bytes := match v with VFixed _ _ d => d | _ => [] end.
Definition vector_strings (v : vector) : list bytes := match v with VStrings _ d => d | _ => [] end.
Definition struct_child (v : vector) (i : nat) : option vector := match v with VStruct _ cs => cs !! i | _ => None end.
Definition list_size (v : vector) : Z := match v with VList _ _ n _ => n | _ => 0 end.
Definition list_entries (v : vector) : list (Z * Z) := match v with VList _ es _ _ => es | _ => [] end.
Definition only_vector (v : vector) : option vector := match v with VList _ _ _ c | VArray _ _ c => Some c | _ => None end.

Definition ducknng_quack_vector_row_is_valid (validity : option bytes) (row : Z) : bool :=
  match validity with
  | None => true
  | Some mask => negb (Z.land (Z.shiftr (byte_at mask (Z.shiftr row 3)) (Z.land row 7)) 1 =? 0)
  end.

(** ** Encoding *)

Definition ducknng_quack_encode_validity_blob (validity : bytes) (rows : Z) : writing unit :=
  let len := ducknng_qk_validity_bytes rows in
  if len =? SIZE_MAX then qx_fail "ducknng: quack validity mask length overflows"
  else ducknng_quack_write_blob (Some (ztake len validity)) len.

Fixpoint write_strings (validity : option bytes) (data : list bytes) (n : nat) (row : Z) : writing unit :=
  match n with
  | O => qx_ret tt
  | S n =>
    let value := default [] (data !! Z.to_nat row) in
    try! _ := (if ducknng_quack_vector_row_is_valid validity row
               then ducknng_quack_write_string_len (Some value) (zlen value)
               else ducknng_quack_write_string_len None 0) in
    write_strings validity data n (row + 1)
  end.

Fixpoint write_entries (validity : option bytes) (entries : list (Z * Z)) (n : nat) (row : Z) : writing unit :=
  match n with
  | O => qx_ret tt
  | S n =>
    let '(off, len) := if ducknng_quack_vector_row_is_valid validity row then default (0, 0) (entries !! Z.to_nat row) else (0, 0) in
    try! _ := write_pair DUCKNNG_QUACK_ENTRY_OFFSET off in
    try! _ := write_pair DUCKNNG_QUACK_ENTRY_LENGTH len in
    try! _ := ducknng_quack_write_field_end in
    write_entries validity entries n (row + 1)
  end.

Section encode_body.
Context (encode : option vector -> option schema -> Z -> writing unit).

Fixpoint encode_children (vec : vector) (node : schema) (rows : Z) (n i : nat) : writing unit :=
  match n with
  | O => qx_ret tt
  | S n => try! _ := encode (struct_child vec i) (child_at node i) rows in encode_children vec node rows n (S i)
  end.

(** What follows the validity, by type. *)
Definition encode_body (vec : vector) (node : schema) (rows : Z) : writing unit :=
  let validity := vector_validity vec in
  let id := logical_type_id node in
  if ducknng_qk_type_is_varlen node then
    try! _ := write_pair DUCKNNG_QUACK_VECTOR_DATA rows in
    try! _ := write_strings validity (vector_strings vec) (Z.to_nat rows) 0 in
    ducknng_quack_write_field_end
  else if id_in id [DUCKNNG_QUACK_LOGICAL_STRUCT; DUCKNNG_QUACK_LOGICAL_UNION] then
    try! _ := write_pair DUCKNNG_QUACK_VECTOR_STRUCT_CHILDREN (nchildren node) in
    try! _ := encode_children vec node rows (Z.to_nat (nchildren node)) O in
    ducknng_quack_write_field_end
  else if id_in id [DUCKNNG_QUACK_LOGICAL_LIST; DUCKNNG_QUACK_LOGICAL_MAP] then
    if negb (nchildren node =? 1) then qx_fail "ducknng: quack list/map vector has no child type" else
    try! _ := write_pair DUCKNNG_QUACK_VECTOR_LIST_CHILD_SIZE (list_size vec) in
    try! _ := write_pair DUCKNNG_QUACK_VECTOR_LIST_ENTRIES rows in
    try! _ := write_entries validity (list_entries vec) (Z.to_nat rows) 0 in
    try! _ := ducknng_quack_write_field_id DUCKNNG_QUACK_VECTOR_LIST_CHILD in
    try! _ := encode (only_vector vec) (child_at node 0) (list_size vec) in
    ducknng_quack_write_field_end
  else if id =? DUCKNNG_QUACK_LOGICAL_ARRAY then
    if negb (nchildren node =? 1) then qx_fail "ducknng: quack array vector has no child type" else
    try! _ := write_pair DUCKNNG_QUACK_VECTOR_ARRAY_SIZE (array_size node) in
    try! _ := ducknng_quack_write_field_id DUCKNNG_QUACK_VECTOR_ARRAY_CHILD in
    try! child_rows := ducknng_quack_idx_mul rows (array_size node) "ducknng: quack array row count overflows supported size" in
    try! _ := encode (only_vector vec) (child_at node 0) child_rows in
    ducknng_quack_write_field_end
  else
    let width := ducknng_qk_type_fixed_width node in
    if width =? 0 then qx_fail "ducknng: unsupported column type for ducknng_quack_batch encoding" else
    match ducknng_size_mul width rows with
    | None => qx_fail "ducknng: fixed-size quack vector payload overflows supported size"
    | Some data_len =>
      try! _ := ducknng_quack_write_field_id DUCKNNG_QUACK_VECTOR_DATA in
      try! _ := ducknng_quack_write_blob (Some (ztake data_len (vector_data vec))) data_len in
      ducknng_quack_write_field_end
    end.
End encode_body.

Definition encode_validity (validity : option bytes) (rows : Z) : writing unit :=
  try! _ := ducknng_quack_write_field_id DUCKNNG_QUACK_VECTOR_HAS_VALIDITY in
  try! _ := ducknng_quack_write_byte (if validity then 1 else 0) in
  match validity with
  | Some mask =>
    try! _ := ducknng_quack_write_field_id DUCKNNG_QUACK_VECTOR_VALIDITY in
    ducknng_quack_encode_validity_blob mask rows
  | None => qx_ret tt
  end.

Fixpoint ducknng_quack_encode_vector (n : nat) (vec : option vector) (node : option schema) (rows depth : Z) {struct n} : writing unit :=
  match vec, node with
  | Some vec, Some node =>
    if DUCKNNG_QUACK_MAX_NESTING <? depth then qx_fail "ducknng: quack vector nesting exceeds supported depth" else
    match n with
    | O => fun w => (w, Err None)
    | S n =>
      try! _ := encode_validity (vector_validity vec) rows in
      encode_body (fun v c rows => ducknng_quack_encode_vector n v c rows (depth + 1)) vec node rows
    end
  | _, _ => qx_fail "ducknng: missing quack vector encoder state"
  end.

(** ** Decoded columns *)

Inductive column :=
| CFixed (valid : option (list bool)) (width : Z) (data : bytes)
| CStrings (cells : list (option bytes))
| CStruct (valid : option (list bool)) (children : list column)
| CList (valid : option (list bool)) (entries : list (Z * Z)) (size : Z) (child : column)
| CArray (valid : option (list bool)) (size : Z) (child : column)
| CCopy (source : column) (selection : list Z).

(** ** Reading vectors *)

Definition ducknng_quack_read_vector_type : reading Z :=
  try! field_id := ducknng_quack_peek_u16le in
  try! vector_type := (if field_id =? DUCKNNG_QUACK_VECTOR_TYPE
    then try! _ := ducknng_quack_read_u16le in ducknng_quack_read_uleb128
    else qx_ret DUCKNNG_QUACK_VECTOR_FLAT) in
  if DUCKNNG_QUACK_VECTOR_SEQUENCE <? vector_type then qx_fail "ducknng: invalid quack vector type" else qx_ret vector_type.

Definition ducknng_quack_read_flat_vector_prologue : reading (option bytes) :=
  try! _ := ducknng_quack_read_expect_field DUCKNNG_QUACK_VECTOR_HAS_VALIDITY in
  try! has_validity := ducknng_quack_read_boolean "ducknng: quack validity presence flag is not boolean" in
  if negb (has_validity =? 0) then
    try! _ := ducknng_quack_read_expect_field DUCKNNG_QUACK_VECTOR_VALIDITY in
    try! blob := ducknng_quack_read_blob_view in
    qx_ret (Some blob)
  else qx_ret None.

(** [memcpy] of a little-endian [sel_t]. *)
Definition sel_at (selection : bytes) (row : Z) : Z :=
  byte_at selection (4 * row) + 256 * byte_at selection (4 * row + 1) + 65536 * byte_at selection (4 * row + 2) +
  16777216 * byte_at selection (4 * row + 3).

Definition ducknng_quack_read_dictionary_header (rows : Z) : reading (bytes * Z) :=
  try! _ := ducknng_quack_read_expect_field DUCKNNG_QUACK_VECTOR_SELECTION in
  try! selection := ducknng_quack_read_blob_view in
  try! _ := ducknng_quack_read_expect_field DUCKNNG_QUACK_VECTOR_DICTIONARY_COUNT in
  try! dictionary_count := ducknng_quack_read_uleb128 in
  match ducknng_size_mul 4 rows with
  | None => qx_fail "ducknng: quack dictionary selection size overflows supported size"
  | Some expected_len =>
    if negb (zlen selection =? expected_len) then qx_fail "ducknng: invalid quack dictionary selection payload" else
    if ((0 <? rows) && (dictionary_count =? 0))%bool then qx_fail "ducknng: non-empty quack dictionary has no values" else
    if rows <? dictionary_count then qx_fail "ducknng: quack dictionary count exceeds its selected row count" else
    if forallb (fun row => sel_at selection (Z.of_nat row) <? dictionary_count) (seq 0 (Z.to_nat rows))
    then qx_ret (selection, dictionary_count)
    else qx_fail "ducknng: quack dictionary selection index is out of range"
  end.

(** The entry loop of a list vector: every entry lies in the child. *)
Definition read_entry (child_size : Z) : reading (Z * Z) :=
  try! _ := ducknng_quack_read_expect_field DUCKNNG_QUACK_ENTRY_OFFSET in
  try! off := ducknng_quack_read_uleb128 in
  try! _ := ducknng_quack_read_expect_field DUCKNNG_QUACK_ENTRY_LENGTH in
  try! len := ducknng_quack_read_uleb128 in
  try! _ := ducknng_quack_read_expect_field DUCKNNG_QUACK_FIELD_END in
  if ((child_size <? off) || (child_size - off <? len))%bool
  then qx_fail "ducknng: quack list entry exceeds child vector size" else qx_ret (off, len).

Definition read_end : reading unit := ducknng_quack_read_expect_field DUCKNNG_QUACK_FIELD_END.

Definition check_validity_size (validity : option bytes) (rows : Z) : reading unit :=
  match validity with
  | Some mask =>
    if negb (zlen mask =? ducknng_qk_validity_bytes rows) then qx_fail "ducknng: invalid quack validity mask size" else qx_ret tt
  | None => qx_ret tt
  end.

Definition read_sequence : reading (Z * Z) :=
  try! _ := ducknng_quack_read_expect_field DUCKNNG_QUACK_VECTOR_SEQUENCE_START in
  try! start := ducknng_quack_read_sleb128 in
  try! _ := ducknng_quack_read_expect_field DUCKNNG_QUACK_VECTOR_SEQUENCE_INCREMENT in
  try! increment := ducknng_quack_read_sleb128 in
  qx_ret (start, increment).

Section child_loop.
Context {A : Type} (child : option schema -> reading A).

(** The loop over the children of a struct vector. *)
Fixpoint read_children (node : schema) (n i : nat) : reading (list A) :=
  match n with
  | O => qx_ret []
  | S n =>
    try! x := child (child_at node i) in
    try! xs := read_children node n (S i) in
    qx_ret (x :: xs)
  end.
End child_loop.

(** ** Skipping *)

Section skip_body.
Context (skip : option schema -> Z -> reading unit).

Definition skip_body (node : schema) (rows : Z) : reading unit :=
  let id := logical_type_id node in
  if ducknng_qk_type_is_varlen node then
    try! _ := ducknng_quack_read_expect_field DUCKNNG_QUACK_VECTOR_DATA in
    try! n_items := ducknng_quack_read_uleb128 in
    if negb (n_items =? rows) then qx_fail "ducknng: invalid variable-width quack vector payload" else
    try! _ := repeat_skip (Z.to_nat rows) ducknng_quack_skip_string in read_end
  else if id_in id [DUCKNNG_QUACK_LOGICAL_STRUCT; DUCKNNG_QUACK_LOGICAL_UNION] then
    try! _ := ducknng_quack_read_expect_field DUCKNNG_QUACK_VECTOR_STRUCT_CHILDREN in
    try! nchild := ducknng_quack_read_uleb128 in
    if (negb (nchild =? nchildren node) || bool_decide (children node = None))%bool
    then qx_fail "ducknng: quack struct vector child count mismatch" else
    try! _ := read_children (fun c => skip c rows) node (Z.to_nat (nchildren node)) O in
    read_end
  else if id_in id [DUCKNNG_QUACK_LOGICAL_LIST; DUCKNNG_QUACK_LOGICAL_MAP] then
    if (bool_decide (children node = None) || negb (nchildren node =? 1))%bool
    then qx_fail "ducknng: quack list/map vector has no child type" else
    try! _ := ducknng_quack_read_expect_field DUCKNNG_QUACK_VECTOR_LIST_CHILD_SIZE in
    try! child_size := ducknng_quack_read_uleb128 in
    try! _ := ducknng_quack_read_expect_field DUCKNNG_QUACK_VECTOR_LIST_ENTRIES in
    try! n_entries := ducknng_quack_read_uleb128 in
    if negb (n_entries =? rows) then qx_fail "ducknng: quack list vector entry count mismatch" else
    try! _ := repeat_read (Z.to_nat n_entries) (read_entry child_size) in
    try! _ := ducknng_quack_read_expect_field DUCKNNG_QUACK_VECTOR_LIST_CHILD in
    try! _ := skip (child_at node 0) child_size in
    read_end
  else if id =? DUCKNNG_QUACK_LOGICAL_ARRAY then
    if (bool_decide (children node = None) || negb (nchildren node =? 1))%bool
    then qx_fail "ducknng: quack array vector has no child type" else
    try! _ := ducknng_quack_read_expect_field DUCKNNG_QUACK_VECTOR_ARRAY_SIZE in
    try! asize := ducknng_quack_read_uleb128 in
    try! _ := ducknng_quack_read_expect_field DUCKNNG_QUACK_VECTOR_ARRAY_CHILD in
    if negb (asize =? array_size node) then qx_fail "ducknng: quack array vector fixed-size mismatch" else
    try! child_rows := ducknng_quack_idx_mul rows asize "ducknng: quack array row count overflows supported size" in
    try! _ := skip (child_at node 0) child_rows in
    read_end
  else
    let width := ducknng_qk_type_fixed_width node in
    try! _ := ducknng_quack_read_expect_field DUCKNNG_QUACK_VECTOR_DATA in
    try! blob := ducknng_quack_read_blob_view in
    if ((width =? 0) || negb (bool_decide (ducknng_size_mul width rows = Some (zlen blob))))%bool
    then qx_fail "ducknng: invalid fixed-size quack vector payload" else read_end.

(** A vector of the given encoding. *)
Definition skip_encoded (node : schema) (rows vector_type : Z) : reading unit :=
  if vector_type =? DUCKNNG_QUACK_VECTOR_FSST then qx_fail "ducknng: FSST quack vectors are unsupported" else
  if vector_type =? DUCKNNG_QUACK_VECTOR_CONSTANT then skip (Some node) 1 else
  if vector_type =? DUCKNNG_QUACK_VECTOR_DICTIONARY then
    try! (_, dictionary_count) := ducknng_quack_read_dictionary_header rows in
    skip (Some node) dictionary_count
  else if vector_type =? DUCKNNG_QUACK_VECTOR_SEQUENCE then
    if negb (ducknng_qk_type_is_sequence_integer node)
    then qx_fail "ducknng: sequence quack vector requires an integer logical type" else
    try! _ := read_sequence in read_end
  else
    try! validity := ducknng_quack_read_flat_vector_prologue in
    try! _ := check_validity_size validity rows in
    skip_body node rows.
End skip_body.

Fixpoint ducknng_quack_skip_vector_node (n : nat) (node : option schema) (rows depth : Z) {struct n} : reading unit :=
  match node with
  | None => qx_fail "ducknng: missing quack vector type while skipping"
  | Some node =>
    if DUCKNNG_QUACK_MAX_NESTING <? depth then qx_fail "ducknng: quack vector nesting exceeds supported depth" else
    match n with
    | O => fun r => (r, Err None)
    | S n =>
      try! vector_type := ducknng_quack_read_vector_type in
      skip_encoded (fun c rows => ducknng_quack_skip_vector_node n c rows (depth + 1)) node rows vector_type
    end
  end.

(** ** Decoding *)

Definition ducknng_quack_check_materialized_values (count : Z) (commit : bool) : reading unit := fun r =>
  if ((DUCKNNG_QUACK_MAX_MATERIALIZED_VALUES <? r_materialized_values r) ||
      (DUCKNNG_QUACK_MAX_MATERIALIZED_VALUES - r_materialized_values r <? count))%bool
  then qx_fail "ducknng: quack materialized value count exceeds supported limit" r
  else (mk_reader (r_data r) (r_len r) (r_off r)
          (if commit then r_materialized_values r + count else r_materialized_values r) (r_status r), Ok tt).

(** The validity of the output rows; [None] leaves the output's mask alone. *)
Definition ducknng_quack_copy_validity_slice (validity : option bytes) (offset count : Z) : option (list bool) :=
  match validity with
  | Some _ =>
    if 0 <? count
    then Some ((fun i => ducknng_quack_vector_row_is_valid validity (offset + Z.of_nat i)) <$> seq 0 (Z.to_nat count))
    else None
  | None => None
  end.

Fixpoint le_bytes (n : nat) (z : Z) : bytes :=
  match n with O => [] | S n => z mod 256 :: le_bytes n (z / 256) end.

(** The values a sequence may take, by type. *)
Definition sequence_range (id : Z) : option (Z * Z) :=
  if id =? DUCKNNG_QUACK_LOGICAL_TINYINT then Some (-128, 127)
  else if id =? DUCKNNG_QUACK_LOGICAL_SMALLINT then Some (-32768, 32767)
  else if id =? DUCKNNG_QUACK_LOGICAL_INTEGER then Some (-2147483648, 2147483647)
  else if id =? DUCKNNG_QUACK_LOGICAL_BIGINT then Some (INT64_MIN, INT64_MAX)
  else if id =? DUCKNNG_QUACK_LOGICAL_UTINYINT then Some (0, UINT8_MAX)
  else if id =? DUCKNNG_QUACK_LOGICAL_USMALLINT then Some (0, UINT16_MAX)
  else if id =? DUCKNNG_QUACK_LOGICAL_UINTEGER then Some (0, UINT32_MAX)
  else if id =? DUCKNNG_QUACK_LOGICAL_UBIGINT then Some (0, INT64_MAX)
  else None.

Definition sequence_value (start increment row : Z) : Z := to_int64 (u64 (u64 start + u64 increment * row)).

Definition ducknng_quack_decode_sequence (node : schema) (start increment offset out_count : Z) : reading column :=
  match sequence_range (logical_type_id node) with
  | None => qx_fail "ducknng: sequence quack vector requires an integer logical type"
  | Some (low, high) =>
    let values := (fun i => sequence_value start increment (offset + Z.of_nat i)) <$> seq 0 (Z.to_nat out_count) in
    if forallb (fun v => (low <=? v) && (v <=? high))%bool values
    then qx_ret (CFixed None (ducknng_qk_type_fixed_width node)
           (concat ((le_bytes (Z.to_nat (ducknng_qk_type_fixed_width node))) <$> values)))
    else qx_fail "ducknng: quack sequence value is out of range for its logical type"
  end.

(** The string cells of the rows [offset, offset + count). *)
Definition string_cells (validity : option bytes) (offset count : Z) (items : list bytes) : list (option bytes) :=
  (fun i => let row := offset + Z.of_nat i in
            if ducknng_quack_vector_row_is_valid validity row then Some (default [] (items !! Z.to_nat row)) else None)
  <$> seq 0 (Z.to_nat count).

Section decode.
Context (creates : logical_type -> bool).
Context (decode : option schema -> Z -> Z -> Z -> reading column).

(** A scratch vector of [source_count] rows, then the copy by selection. *)
Definition ducknng_quack_decode_compressed_copy (node : schema) (source_count : Z)
    (selection : option bytes) (offset out_count depth : Z) : reading column :=
  try! _ := ducknng_quack_check_materialized_values source_count false in
  match ducknng_quack_node_to_duckdb creates nesting_levels (Some node) depth with
  | Err e => fun r => (r, Err e)
  | Ok _ =>
    try! source := decode (Some node) source_count 0 source_count in
    let chosen := (fun i => match selection with Some sel => sel_at sel (offset + Z.of_nat i) | None => 0 end)
                  <$> seq 0 (Z.to_nat out_count) in
    if forallb (fun s => s <? source_count) chosen then qx_ret (CCopy source chosen)
    else qx_fail "ducknng: quack materialization selection is out of range"
  end.

(** The bytes of the rows [offset, offset + out_count) of a fixed-width vector. *)
Definition fixed_slice (width offset out_count : Z) (blob : bytes) : option bytes :=
  if 0 <? out_count then
    match ducknng_size_mul width offset, ducknng_size_mul width out_count with
    | Some copy_offset, Some copy_len =>
      if ((zlen blob <? copy_offset) || (zlen blob - copy_offset <? copy_len))%bool then None
      else Some (ztake copy_len (zdrop copy_offset blob))
    | _, _ => None
    end
  else Some [].

Definition decode_body (node : schema) (src_rows offset out_count : Z) (validity : option bytes) : reading column :=
  let id := logical_type_id node in
  let valid := ducknng_quack_copy_validity_slice validity offset out_count in
  if ducknng_qk_type_is_varlen node then
    try! _ := ducknng_quack_read_expect_field DUCKNNG_QUACK_VECTOR_DATA in
    try! n_items := ducknng_quack_read_uleb128 in
    if negb (n_items =? src_rows) then qx_fail "ducknng: invalid variable-width quack vector payload" else
    try! items := repeat_read (Z.to_nat src_rows) ducknng_quack_read_blob_view in
    try! _ := read_end in
    qx_ret (CStrings (string_cells validity offset out_count items))
  else if id_in id [DUCKNNG_QUACK_LOGICAL_STRUCT; DUCKNNG_QUACK_LOGICAL_UNION] then
    try! _ := ducknng_quack_read_expect_field DUCKNNG_QUACK_VECTOR_STRUCT_CHILDREN in
    try! nchild := ducknng_quack_read_uleb128 in
    if (negb (nchild =? nchildren node) || bool_decide (children node = None))%bool
    then qx_fail "ducknng: quack struct vector child count mismatch" else
    try! cs := read_children (fun c => decode c src_rows offset out_count) node (Z.to_nat (nchildren node)) O in
    try! _ := read_end in
    qx_ret (CStruct valid cs)
  else if id_in id [DUCKNNG_QUACK_LOGICAL_LIST; DUCKNNG_QUACK_LOGICAL_MAP] then
    if (bool_decide (children node = None) || negb (nchildren node =? 1))%bool
    then qx_fail "ducknng: quack list/map vector has no child type" else
    try! _ := ducknng_quack_read_expect_field DUCKNNG_QUACK_VECTOR_LIST_CHILD_SIZE in
    try! child_size := ducknng_quack_read_uleb128 in
    try! _ := ducknng_quack_read_expect_field DUCKNNG_QUACK_VECTOR_LIST_ENTRIES in
    try! n_entries := ducknng_quack_read_uleb128 in
    if negb (n_entries =? src_rows) then qx_fail "ducknng: quack list vector entry count mismatch" else
    try! _ := ducknng_quack_check_materialized_values child_size false in
    try! entries := repeat_read (Z.to_nat n_entries) (read_entry child_size) in
    try! _ := ducknng_quack_read_expect_field DUCKNNG_QUACK_VECTOR_LIST_CHILD in
    try! child := decode (child_at node 0) child_size 0 child_size in
    try! _ := read_end in
    qx_ret (CList valid (ztake out_count (zdrop offset entries)) child_size child)
  else if id =? DUCKNNG_QUACK_LOGICAL_ARRAY then
    if (bool_decide (children node = None) || negb (nchildren node =? 1))%bool
    then qx_fail "ducknng: quack array vector has no child type" else
    try! _ := ducknng_quack_read_expect_field DUCKNNG_QUACK_VECTOR_ARRAY_SIZE in
    try! asize := ducknng_quack_read_uleb128 in
    if negb (asize =? array_size node) then qx_fail "ducknng: quack array vector fixed-size mismatch" else
    try! _ := ducknng_quack_read_expect_field DUCKNNG_QUACK_VECTOR_ARRAY_CHILD in
    try! child_rows := ducknng_quack_idx_mul src_rows asize "ducknng: quack array row count overflows supported size" in
    try! child := decode (child_at node 0) child_rows 0 child_rows in
    try! _ := read_end in
    qx_ret (CArray valid asize child)
  else
    let width := ducknng_qk_type_fixed_width node in
    try! _ := ducknng_quack_read_expect_field DUCKNNG_QUACK_VECTOR_DATA in
    try! blob := ducknng_quack_read_blob_view in
    if ((width =? 0) || negb (bool_decide (ducknng_size_mul width src_rows = Some (zlen blob))))%bool
    then qx_fail "ducknng: invalid fixed-size quack vector payload" else
    match fixed_slice width offset out_count blob with
    | None => qx_fail "ducknng: invalid fixed-size quack vector slice"
    | Some data => try! _ := read_end in qx_ret (CFixed valid width data)
    end.

Definition decode_encoded (node : schema) (src_rows offset out_count depth vector_type : Z) : reading column :=
  if vector_type =? DUCKNNG_QUACK_VECTOR_FSST then qx_fail "ducknng: FSST quack vectors are unsupported" else
  if vector_type =? DUCKNNG_QUACK_VECTOR_CONSTANT then
    ducknng_quack_decode_compressed_copy node 1 None offset out_count depth
  else if vector_type =? DUCKNNG_QUACK_VECTOR_DICTIONARY then
    try! (selection, dictionary_count) := ducknng_quack_read_dictionary_header src_rows in
    ducknng_quack_decode_compressed_copy node dictionary_count (Some selection) offset out_count depth
  else if vector_type =? DUCKNNG_QUACK_VECTOR_SEQUENCE then
    try! (start, increment) := read_sequence in
    try! _ := read_end in
    ducknng_quack_decode_sequence node start increment offset out_count
  else
    try! validity := ducknng_quack_read_flat_vector_prologue in
    try! _ := check_validity_size validity src_rows in
    decode_body node src_rows offset out_count validity.
End decode.

Fixpoint ducknng_quack_decode_vector_into (creates : logical_type -> bool) (n : nat) (node : option schema)
    (src_rows offset out_count depth : Z) {struct n} : reading column :=
  match node with
  | None => qx_fail "ducknng: missing quack vector decoder state"
  | Some node =>
    if DUCKNNG_QUACK_MAX_NESTING <? depth then qx_fail "ducknng: quack vector nesting exceeds supported depth" else
    if ((src_rows <? offset) || (src_rows - offset <? out_count))%bool then qx_fail "ducknng: quack vector slice is out of range" else
    match n with
    | O => fun r => (r, Err None)
    | S n =>
      try! _ := ducknng_quack_check_materialized_values src_rows true in
      try! vector_type := ducknng_quack_read_vector_type in
      decode_encoded creates (fun c src offset count => ducknng_quack_decode_vector_into creates n c src offset count (depth + 1))
        node src_rows offset out_count depth vector_type
    end
  end.

(** ** Values *)

Inductive value := Null | Raw (b : bytes) | Text (b : bytes) | Row (l : list value) | Items (l : list value).

Definition row_valid (valid : option (list bool)) (i : nat) : bool := match valid with Some l => default false (l !! i) | None => true end.

Fixpoint column_value (c : column) (i : nat) {struct c} : value :=
  match c with
  | CFixed valid width data => if row_valid valid i then Raw (ztake width (zdrop (Z.of_nat i * width) data)) else Null
  | CStrings cells => match cells !! i with Some (Some s) => Text s | _ => Null end
  | CStruct valid cs => if row_valid valid i then Row (map (fun c => column_value c i) cs) else Null
  | CList valid entries _ child =>
    if row_valid valid i then
      match entries !! i with
      | Some (off, len) => Items (map (fun j => column_value child (Z.to_nat off + j)) (seq 0 (Z.to_nat len)))
      | None => Null
      end
    else Null
  | CArray valid size child =>
    if row_valid valid i then Items (map (fun j => column_value child (i * Z.to_nat size + j)) (seq 0 (Z.to_nat size))) else Null
  | CCopy source selection => match selection !! i with Some k => column_value source (Z.to_nat k) | None => Null end
  end.

Fixpoint vector_value (v : vector) (i : nat) {struct v} : value :=
  if negb (ducknng_quack_vector_row_is_valid (vector_validity v) (Z.of_nat i)) then Null else
  match v with
  | VFixed _ width data => Raw (ztake width (zdrop (Z.of_nat i * width) data))
  | VStrings _ data => Text (default [] (data !! i))
  | VStruct _ cs => Row (map (fun c => vector_value c i) cs)
  | VList _ entries _ child =>
    let '(off, len) := default (0, 0) (entries !! i) in
    Items (map (fun j => vector_value child (Z.to_nat off + j)) (seq 0 (Z.to_nat len)))
  | VArray _ size child => Items (map (fun j => vector_value child (i * Z.to_nat size + j)) (seq 0 (Z.to_nat size)))
  end.

(** ** Vectors that fit their type *)

Definition mask_fits (validity : option bytes) (rows : Z) : Prop :=
  match validity with Some mask => ducknng_qk_validity_bytes rows <= zlen mask | None => True end.

Definition entry_fits (validity : option bytes) (entries : list (Z * Z)) (size : Z) (i : nat) : Prop :=
  ducknng_quack_vector_row_is_valid validity (Z.of_nat i) = true ->
  exists off len, entries !! i = Some (off, len) /\ 0 <= off /\ 0 <= len /\ off + len <= size.

Inductive fits : nat -> schema -> Z -> vector -> Prop :=
| fits_fixed n node rows validity data : ducknng_qk_type_is_varlen node = false -> ducknng_qk_type_is_nested node = false ->
    0 < ducknng_qk_type_fixed_width node -> ducknng_qk_type_fixed_width node * rows <= zlen data -> mask_fits validity rows ->
    fits (S n) node rows (VFixed validity (ducknng_qk_type_fixed_width node) data)
| fits_strings n node rows validity data : ducknng_qk_type_is_varlen node = true -> rows <= zlen data -> mask_fits validity rows ->
    Forall (fun s => zlen s <= SIZE_MAX) data -> fits (S n) node rows (VStrings validity data)
| fits_struct n ty ms rows validity cs : ty = DUCKNNG_QUACK_LOGICAL_STRUCT \/ ty = DUCKNNG_QUACK_LOGICAL_UNION ->
    zlen ms <= DUCKNNG_QUACK_MAX_STRUCT_MEMBERS -> mask_fits validity rows -> Forall2 (fun m c => fits n m.2 rows c) ms cs ->
    fits (S n) (record ty ms) rows (VStruct validity cs)
| fits_list n ty c rows validity entries size child : ty = DUCKNNG_QUACK_LOGICAL_LIST \/ ty = DUCKNNG_QUACK_LOGICAL_MAP -> 0 <= size ->
    mask_fits validity rows -> (forall i, (i < Z.to_nat rows)%nat -> entry_fits validity entries size i) -> fits n c size child ->
    fits (S n) (wrap ty 0 c) rows (VList validity entries size child)
| fits_array n c rows validity size child : 1 <= size <= UINT32_MAX -> mask_fits validity rows -> fits n c (rows * size) child ->
    fits (S n) (wrap DUCKNNG_QUACK_LOGICAL_ARRAY size c) rows (VArray validity size child).

(** Values the decoder materializes for a vector. *)
Fixpoint weight (v : vector) (rows : Z) : Z :=
  match v with
  | VFixed _ _ _ | VStrings _ _ => rows
  | VStruct _ cs => rows + foldr (fun c acc => weight c rows + acc) 0 cs
  | VList _ _ size child => rows + weight child size
  | VArray _ size child => rows + weight child (rows * size)
  end.

Lemma fits_weight n node rows v : 0 <= rows -> fits n node rows v -> rows <= weight v rows.
Proof.
  revert node rows v. induction n as [|n IH]; intros node rows v Hr Hf; [by inversion Hf|].
  inversion Hf as [| |? ? ms ? ? cs ? ? ? Hc|? ? c ? ? ? size child ? ? ? ? Hc|? c ? ? size child ? ? Hc]; subst; cbn [weight]; try lia.
  - assert (0 <= foldr (fun c acc => weight c rows + acc) 0 cs); [|lia]. induction Hc as [|m c ms cs Hm Hcs IHc]; [done|]. cbn [foldr].
    specialize (IH _ _ _ Hr Hm). assert (fits (S n) (record ty ms) rows (VStruct validity cs)); [|by specialize (IHc ltac:(constructor; [done|rewrite zlen_cons in *; lia|done|done]) ltac:(rewrite zlen_cons in *; lia)); lia].
    constructor; [done|rewrite zlen_cons in *; lia|done|done].
  - specialize (IH c size child ltac:(done) Hc). lia.
  - specialize (IH c (rows * size) child ltac:(nia) Hc). nia.
Qed.

(** ** Decoding an image *)

(** [m] reads exactly [img] and materializes [w] values. *)
Definition decodes {A} (m : reading A) (img : bytes) (w : Z) (a : A) : Prop :=
  forall pre post k, 0 <= k -> k + w <= DUCKNNG_QUACK_MAX_MATERIALIZED_VALUES ->
    m (mk_reader (Some (pre ++ img ++ post)) (zlen (pre ++ img ++ post)) (zlen pre) k DUCKNNG_QK_OK)
    = (mk_reader (Some (pre ++ img ++ post)) (zlen (pre ++ img ++ post)) (zlen pre + zlen img) (k + w) DUCKNNG_QK_OK, Ok a).

Lemma decodes_read {A} (m : reading A) img a : xreads m img a -> decodes m img 0 a.
Proof. intros H pre post k _ _. rewrite Z.add_0_r. apply H. Qed.

Lemma decodes_bind {A C} (m : reading A) (f : A -> reading C) i j w x a c : 0 <= w -> 0 <= x ->
  decodes m i w a -> decodes (f a) j x c -> decodes (qx_bind m f) (i ++ j) (w + x) c.
Proof.
  intros Hw Hx Hm Hf pre post k Hk Hl. unfold qx_bind. rewrite <- app_assoc. rewrite Hm by lia.
  specialize (Hf (pre ++ i) post (k + w) ltac:(lia) ltac:(lia)).
  rewrite <- !app_assoc, (zlen_app pre i) in Hf.
  rewrite (zlen_app i j), !Z.add_assoc. exact Hf.
Qed.

(** A step that materializes nothing, and a last step that reads nothing. *)
Lemma decodes_step {A C} (m : reading A) (f : A -> reading C) i j w a c : 0 <= w ->
  xreads m i a -> decodes (f a) j w c -> decodes (qx_bind m f) (i ++ j) w c.
Proof. intros Hw Hm Hf. rewrite <- (Z.add_0_l w). apply decodes_bind with a; [lia|lia|by apply decodes_read|done]. Qed.

Lemma decodes_last {A C} (m : reading A) (f : A -> reading C) i j w a c : 0 <= w ->
  decodes m i w a -> xreads (f a) j c -> decodes (qx_bind m f) (i ++ j) w c.
Proof. intros Hw Hm Hf. rewrite <- (Z.add_0_r w). apply decodes_bind with a; [lia|lia|done|by apply decodes_read]. Qed.

Lemma peek_at pre v rest k : 0 <= v <= UINT16_MAX ->
  let r := mk_reader (Some (pre ++ u16_image v ++ rest)) (zlen (pre ++ u16_image v ++ rest)) (zlen pre) k DUCKNNG_QK_OK in
  ducknng_quack_peek_u16le r = (r, Ok v).
Proof.
  intros Hv r. pose proof (xreads_u16 v Hv pre rest k) as Hu. fold r in Hu.
  unfold ducknng_quack_read_u16le, ducknng_quack_peek_u16le, ducknng_quack_reader_result, ducknng_qk_read_u16le, qk_bind in *.
  destruct (ducknng_qk_peek_u16le r) as [r1 [x|]] eqn:E; [|by injection Hu].
  assert (r1 = r) as ->.
  { unfold ducknng_qk_peek_u16le, qk_bind in E. destruct (ducknng_qk_reader_need 2 r) as [r2 [[]|]] eqn:E2; [|done].
    injection E as <- _. unfold ducknng_qk_reader_need in E2. cases_in E2; by injection E2. }
  injection Hu as Hx. by subst x.
Qed.

(** A vector that starts with its validity flag is flat. *)
Lemma flat_type pre rest k :
  let r := mk_reader (Some (pre ++ u16_image 100 ++ rest)) (zlen (pre ++ u16_image 100 ++ rest)) (zlen pre) k DUCKNNG_QK_OK in
  ducknng_quack_read_vector_type r = (r, Ok DUCKNNG_QUACK_VECTOR_FLAT).
Proof. intros r. unfold ducknng_quack_read_vector_type, qx_bind. unfold r. by rewrite peek_at. Qed.

Lemma decodes_flat {A} (f : Z -> reading A) rest w c : decodes (f DUCKNNG_QUACK_VECTOR_FLAT) (u16_image 100 ++ rest) w c ->
  decodes (qx_bind ducknng_quack_read_vector_type f) (u16_image 100 ++ rest) w c.
Proof.
  intros H pre post k Hk Hl. rewrite <- (H pre post k Hk Hl). rewrite <- (app_assoc (u16_image 100) rest post). unfold qx_bind. by rewrite flat_type.
Qed.

Lemma xreads_flat {A} (f : Z -> reading A) rest c : xreads (f DUCKNNG_QUACK_VECTOR_FLAT) (u16_image 100 ++ rest) c ->
  xreads (qx_bind ducknng_quack_read_vector_type f) (u16_image 100 ++ rest) c.
Proof.
  intros H pre post k. rewrite <- (H pre post k). rewrite <- (app_assoc (u16_image 100) rest post). unfold qx_bind. by rewrite flat_type.
Qed.

Lemma decodes_charge {A} n (m : unit -> reading A) img w a : 0 <= n -> 0 <= w -> decodes (m tt) img w a ->
  decodes (qx_bind (ducknng_quack_check_materialized_values n true) m) img (n + w) a.
Proof.
  intros Hn Hw Hm pre post k Hk Hl. unfold qx_bind, ducknng_quack_check_materialized_values. cbn [r_materialized_values r_data r_len r_off r_status].
  destruct (Z.ltb_spec DUCKNNG_QUACK_MAX_MATERIALIZED_VALUES k); [lia|].
  destruct (Z.ltb_spec (DUCKNNG_QUACK_MAX_MATERIALIZED_VALUES - k) n); [lia|]. cbn [orb].
  rewrite (Hm pre post (k + n)) by lia. by rewrite Z.add_assoc.
Qed.

(** A size tested but not charged, when it is charged later. *)
Lemma decodes_check {A} n (m : unit -> reading A) img w a : 0 <= n <= w -> decodes (m tt) img w a ->
  decodes (qx_bind (ducknng_quack_check_materialized_values n false) m) img w a.
Proof.
  intros Hn Hm pre post k Hk Hl. unfold qx_bind, ducknng_quack_check_materialized_values. cbn [r_materialized_values r_data r_len r_off r_status].
  destruct (Z.ltb_spec DUCKNNG_QUACK_MAX_MATERIALIZED_VALUES k); [lia|].
  destruct (Z.ltb_spec (DUCKNNG_QUACK_MAX_MATERIALIZED_VALUES - k) n); [lia|]. cbn [orb]. by apply Hm.
Qed.

(** ** The prologue *)

(** The validity bytes that travel. *)
Definition kept_mask (validity : option bytes) (rows : Z) : option bytes := ztake (ducknng_qk_validity_bytes rows) <$> validity.

Definition prologue_image (validity : option bytes) (rows : Z) : bytes :=
  u16_image DUCKNNG_QUACK_VECTOR_HAS_VALIDITY ++ [if validity then 1 else 0] ++
  match kept_mask validity rows with Some mask => u16_image DUCKNNG_QUACK_VECTOR_VALIDITY ++ counted_image mask | None => [] end.

Definition counts (rows : Z) : Prop := 0 <= rows <= DUCKNNG_QUACK_MAX_MATERIALIZED_VALUES.

Lemma validity_bytes_exact rows : counts rows -> ducknng_qk_validity_bytes rows = (rows + 63) / 64 * 8.
Proof.
  unfold counts, DUCKNNG_QUACK_MAX_MATERIALIZED_VALUES, ducknng_qk_validity_bytes. intros H.
  destruct (Z.ltb_spec (UINT64_MAX - 63) rows) as [E|_]; [unfold UINT64_MAX in E; lia|].
  assert (0 <= (rows + 63) / 64 <= 65537) by (split; [apply Z.div_pos; lia|apply Z.div_le_upper_bound; lia]).
  rewrite (u64_small (rows + 63)), u64_small by (unfold UINT64_MAX; lia). done.
Qed.

Lemma validity_bytes_bounds rows : counts rows -> 0 <= ducknng_qk_validity_bytes rows < SIZE_MAX /\ rows <= 8 * ducknng_qk_validity_bytes rows.
Proof.
  intros H. rewrite validity_bytes_exact by done. unfold counts, DUCKNNG_QUACK_MAX_MATERIALIZED_VALUES, SIZE_MAX, UINT64_MAX in *.
  pose proof (Z.div_mod (rows + 63) 64 ltac:(lia)). pose proof (Z.mod_pos_bound (rows + 63) 64 ltac:(lia)). lia.
Qed.

Lemma byte_at_ztake n b i : 0 <= i < n -> byte_at (ztake n b) i = byte_at b i.
Proof. intros H. unfold byte_at, ztake. by rewrite lookup_take_lt by lia. Qed.

Lemma kept_row validity rows i : counts rows -> 0 <= i < rows ->
  ducknng_quack_vector_row_is_valid (kept_mask validity rows) i = ducknng_quack_vector_row_is_valid validity i.
Proof.
  intros Hr Hi. destruct validity as [mask|]; [|done]. cbn. rewrite byte_at_ztake; [done|].
  pose proof (validity_bytes_bounds rows Hr). rewrite Z.shiftr_div_pow2 by lia. change (2 ^ 3) with 8.
  split; [apply Z.div_pos; lia|apply Z.div_lt_upper_bound; lia].
Qed.

Lemma kept_size validity rows mask : counts rows -> mask_fits validity rows -> kept_mask validity rows = Some mask ->
  zlen mask = ducknng_qk_validity_bytes rows.
Proof.
  intros Hr Hm. destruct validity as [b|]; [|done]. intros [= <-]. pose proof (validity_bytes_bounds rows Hr). apply zlen_ztake. cbn in Hm. lia.
Qed.

Lemma prologue_emits validity rows : counts rows -> mask_fits validity rows -> xemits (encode_validity validity rows) (prologue_image validity rows).
Proof.
  intros Hr Hm. pose proof (validity_bytes_bounds rows Hr) as [Hb _]. unfold encode_validity, prologue_image. emit_steps; [done|].
  destruct (kept_mask validity rows) as [mask|] eqn:E; destruct validity as [b|]; try done; [|apply xemits_ret].
  pose proof (kept_size _ _ _ Hr Hm E) as Hz. injection E as <-. emit_steps; [done|].
  unfold ducknng_quack_encode_validity_blob. destruct (Z.eqb_spec (ducknng_qk_validity_bytes rows) SIZE_MAX); [lia|].
  rewrite <- Hz at 2. apply xemits_blob. lia.
Qed.

Lemma prologue_reads validity rows : counts rows -> mask_fits validity rows ->
  xreads ducknng_quack_read_flat_vector_prologue (prologue_image validity rows) (kept_mask validity rows).
Proof.
  intros Hr Hm. pose proof (validity_bytes_bounds rows Hr) as [Hb _]. unfold ducknng_quack_read_flat_vector_prologue, prologue_image.
  eapply xreads_bind; [by apply xreads_expect|]. destruct (kept_mask validity rows) as [mask|] eqn:E; destruct validity as [b|]; try done.
  - pose proof (kept_size _ _ _ Hr Hm E) as Hz. eapply xreads_bind; [by apply xreads_bool|]. closed_tests.
    eapply xreads_bind; [by apply xreads_expect|]. eapply xreads_then; [apply xreads_blob; lia|apply xreads_ret].
  - eapply xreads_bind; [by apply xreads_bool|]. apply xreads_ret.
Qed.

Lemma kept_checks validity rows : counts rows -> mask_fits validity rows -> check_validity_size (kept_mask validity rows) rows = qx_ret tt.
Proof.
  intros Hr Hm. unfold check_validity_size. destruct (kept_mask validity rows) as [mask|] eqn:E; [|done].
  by rewrite (kept_size _ _ _ Hr Hm E), Z.eqb_refl.
Qed.

Lemma slice_valid validity rows i : counts rows -> (i < Z.to_nat rows)%nat ->
  row_valid (ducknng_quack_copy_validity_slice (kept_mask validity rows) 0 rows) i = ducknng_quack_vector_row_is_valid validity (Z.of_nat i).
Proof.
  intros Hr Hi. rewrite <- (kept_row validity rows) by (done || lia). destruct (kept_mask validity rows) as [mask|]; [|done].
  unfold ducknng_quack_copy_validity_slice. destruct (Z.ltb_spec 0 rows); [|lia]. unfold row_valid.
  rewrite list_lookup_fmap, lookup_seq_lt by lia. done.
Qed.

(** ** The loops over rows *)

Lemma xemits_null_string : xemits (ducknng_quack_write_string_len None 0) (counted_image []).
Proof.
  destruct (xemits_blob [] ltac:(done)) as (m0 & He & Hm). exists m0. split; [done|]. intros w. rewrite <- Hm.
  unfold ducknng_quack_write_string_len, ducknng_quack_write_blob, ducknng_quack_writer_result, ducknng_qk_write_counted, qk_bind.
  change (zlen ([] : bytes)) with 0. by destruct (ducknng_qk_write_uleb128 0 w) as [w1 [[]|]].
Qed.

(** The bytes written for a row: nothing for NULL. *)
Definition cell (validity : option bytes) (data : list bytes) (i : nat) : bytes :=
  if ducknng_quack_vector_row_is_valid validity (Z.of_nat i) then default [] (data !! i) else [].

Lemma cell_size validity data i : Forall (fun s => zlen s <= SIZE_MAX) data -> zlen (cell validity data i) <= SIZE_MAX.
Proof.
  intros H. unfold cell. destruct (ducknng_quack_vector_row_is_valid validity (Z.of_nat i)); [|done].
  destruct (data !! i) as [s|] eqn:E; [|done]. rewrite Forall_lookup in H. exact (H _ _ E).
Qed.

Lemma strings_code validity data n : Forall (fun s => zlen s <= SIZE_MAX) data -> forall i,
  exists img, xemits (write_strings validity data n (Z.of_nat i)) img /\
    xreads (repeat_read n ducknng_quack_read_blob_view) img (map (cell validity data) (seq i n)) /\
    xreads (repeat_read n ducknng_quack_skip_string) img (replicate n tt).
Proof.
  intros Hd. induction n as [|n IH]; intros i.
  - exists []. split; [apply xemits_ret|]. split; apply xreads_ret.
  - destruct (IH (S i)) as (img & He & Hr & Hs). exists (counted_image (cell validity data i) ++ img). split; [|split].
    + cbn [write_strings]. replace (Z.of_nat i + 1) with (Z.of_nat (S i)) by lia. apply xemits_bind; [|done].
      pose proof (cell_size validity data i Hd) as Hz. unfold cell in *. rewrite Nat2Z.id.
      destruct (ducknng_quack_vector_row_is_valid validity (Z.of_nat i)); [by apply xemits_blob|apply xemits_null_string].
    + cbn [repeat_read seq map]. eapply xreads_bind; [by apply xreads_blob, cell_size|]. eapply xreads_then; [exact Hr|apply xreads_ret].
    + cbn [repeat_read replicate]. eapply xreads_bind; [by apply xreads_skip_string, cell_size|]. eapply xreads_then; [exact Hs|apply xreads_ret].
Qed.

Definition entry_cell (validity : option bytes) (entries : list (Z * Z)) (i : nat) : Z * Z :=
  if ducknng_quack_vector_row_is_valid validity (Z.of_nat i) then default (0, 0) (entries !! i) else (0, 0).

Lemma entry_cell_fits validity entries size i : 0 <= size -> entry_fits validity entries size i ->
  0 <= (entry_cell validity entries i).1 /\ 0 <= (entry_cell validity entries i).2 /\
  (entry_cell validity entries i).1 + (entry_cell validity entries i).2 <= size.
Proof.
  intros Hs He. unfold entry_cell, entry_fits in *. destruct (ducknng_quack_vector_row_is_valid validity (Z.of_nat i)); [|done].
  destruct (He eq_refl) as (off & len & -> & ?). cbn. lia.
Qed.

Lemma entry_reads size off len : 0 <= off -> 0 <= len -> off + len <= size -> size <= UINT64_MAX ->
  xreads (read_entry size) ((u16_image 100 ++ uleb_image off) ++ (u16_image 101 ++ uleb_image len) ++ END_image) (off, len).
Proof.
  intros Ho Hl Hs Hu. unfold read_entry. rewrite <- !app_assoc.
  eapply xreads_bind; [by apply xreads_expect|]. eapply xreads_bind; [apply xreads_uleb; lia|].
  eapply xreads_bind; [by apply xreads_expect|]. eapply xreads_bind; [apply xreads_uleb; lia|].
  eapply xreads_then; [by apply xreads_expect|]. destruct (Z.ltb_spec size off); [lia|]. destruct (Z.ltb_spec (size - off) len); [lia|]. apply xreads_ret.
Qed.

Lemma entries_code validity entries size n : 0 <= size <= UINT64_MAX -> forall i,
  (forall j, (i <= j < i + n)%nat -> entry_fits validity entries size j) ->
  exists img, xemits (write_entries validity entries n (Z.of_nat i)) img /\
    xreads (repeat_read n (read_entry size)) img (map (entry_cell validity entries) (seq i n)).
Proof.
  intros Hs. induction n as [|n IH]; intros i Hf.
  - exists []. split; [apply xemits_ret|apply xreads_ret].
  - destruct (IH (S i)) as (img & He & Hr); [intros j Hj; apply Hf; lia|].
    pose proof (entry_cell_fits validity entries size i ltac:(lia) (Hf i ltac:(lia))) as (H1 & H2 & H3).
    cbn [write_entries]. rewrite Nat2Z.id. fold (entry_cell validity entries i).
    replace (Z.of_nat i + 1) with (Z.of_nat (S i)) by lia. cbn [repeat_read seq map].
    destruct (entry_cell validity entries i) as [off len]. cbn [fst snd] in *.
    exists (((u16_image 100 ++ uleb_image off) ++ (u16_image 101 ++ uleb_image len) ++ END_image) ++ img). split.
    + eapply xemits_eq; [emit_steps; [done|lia|done|lia|exact He]|]. by rewrite <- !app_assoc.
    + eapply xreads_bind; [apply entry_reads; lia|]. eapply xreads_then; [exact Hr|apply xreads_ret].
Qed.

(** ** One vector *)

(** The writer, the decoder and the skipper agree on [img]. *)
Definition agrees (w : writing unit) (d : reading column) (s : reading unit) (img : bytes) (weight : Z) (c : column) : Prop :=
  xemits w img /\ decodes d img weight c /\ xreads s img tt.

Definition same (c : column) (v : vector) (rows : Z) : Prop := forall i, (i < Z.to_nat rows)%nat -> column_value c i = vector_value v i.

Section vectors.
Context (creates : logical_type -> bool).

Lemma vector_frame n v node rows depth body w c : depth <= DUCKNNG_QUACK_MAX_NESTING -> counts rows -> 0 <= w -> mask_fits (vector_validity v) rows ->
  agrees (encode_body (fun v c rows => ducknng_quack_encode_vector n v c rows (depth + 1)) v node rows)
    (decode_body (fun c src offset count => ducknng_quack_decode_vector_into creates n c src offset count (depth + 1)) node rows 0 rows (kept_mask (vector_validity v) rows))
    (skip_body (fun c rows => ducknng_quack_skip_vector_node n c rows (depth + 1)) node rows) body w c ->
  agrees (ducknng_quack_encode_vector (S n) (Some v) (Some node) rows depth)
    (ducknng_quack_decode_vector_into creates (S n) (Some node) rows 0 rows depth)
    (ducknng_quack_skip_vector_node (S n) (Some node) rows depth) (prologue_image (vector_validity v) rows ++ body) (rows + w) c.
Proof.
  intros Hd Hr Hw Hm (He & Hx & Hs).
  pose proof (prologue_emits _ _ Hr Hm) as Pe. pose proof (prologue_reads _ _ Hr Hm) as Pr. pose proof (kept_checks _ _ Hr Hm) as Pk.
  split; [|split].
  - cbn [ducknng_quack_encode_vector]. destruct (Z.ltb_spec DUCKNNG_QUACK_MAX_NESTING depth); [lia|]. by apply xemits_bind.
  - cbn [ducknng_quack_decode_vector_into]. destruct (Z.ltb_spec DUCKNNG_QUACK_MAX_NESTING depth); [lia|].
    destruct (Z.ltb_spec rows 0); [destruct Hr; lia|]. rewrite Z.sub_0_r, Z.ltb_irrefl. cbn [orb].
    apply decodes_charge; [destruct Hr; lia|done|]. unfold prologue_image. rewrite <- app_assoc. apply decodes_flat. rewrite app_assoc.
    fold (prologue_image (vector_validity v) rows). unfold decode_encoded. cbn [Z.eqb].
    eapply decodes_step; [done|exact Pr|]. rewrite Pk. rewrite <- (app_nil_l body). by eapply decodes_step; [|apply xreads_ret|].
  - cbn [ducknng_quack_skip_vector_node]. destruct (Z.ltb_spec DUCKNNG_QUACK_MAX_NESTING depth); [lia|].
    unfold prologue_image. rewrite <- app_assoc. apply xreads_flat. rewrite app_assoc.
    fold (prologue_image (vector_validity v) rows). unfold skip_encoded. cbn [Z.eqb].
    eapply xreads_bind; [exact Pr|]. rewrite Pk. by eapply xreads_skip; [apply xreads_ret|].
Qed.

End vectors.

(** ** Bodies *)

Ltac sizes := unfold SIZE_MAX, UINT64_MAX in *; nia.

Lemma flat_tests node : ducknng_qk_type_is_nested node = false ->
  id_in (logical_type_id node) [DUCKNNG_QUACK_LOGICAL_STRUCT; DUCKNNG_QUACK_LOGICAL_UNION] = false /\
  id_in (logical_type_id node) [DUCKNNG_QUACK_LOGICAL_LIST; DUCKNNG_QUACK_LOGICAL_MAP] = false /\
  (logical_type_id node =? DUCKNNG_QUACK_LOGICAL_ARRAY) = false.
Proof.
  unfold ducknng_qk_type_is_nested, id_in. cbn [existsb]. intros H. rewrite !orb_false_iff in H. destruct H as (H1 & H2 & H3 & H4 & H5 & _).
  by rewrite H1, H2, H3, H4, H5.
Qed.

Lemma mul_exact a b : 0 <= a -> 0 <= b -> a * b <= SIZE_MAX -> a <= SIZE_MAX -> b <= SIZE_MAX -> ducknng_size_mul a b = Some (a * b) /\ ducknng_u64_mul a b = Some (a * b).
Proof.
  intros Ha Hb Hab Ha2 Hb2. unfold ducknng_size_mul, ducknng_u64_mul. change UINT64_MAX with SIZE_MAX.
  assert ((negb (a =? 0) && (SIZE_MAX / a <? b))%bool = false) as ->.
  { destruct (Z.eqb_spec a 0); [done|]. cbn [negb andb]. apply Z.ltb_ge. apply Z.div_le_lower_bound; lia. }
  by rewrite u64_small by sizes.
Qed.

(** A value computed before the next write. *)
Lemma xemits_bind_ret {A} (a : A) (f : A -> writing unit) img : xemits (f a) img -> xemits (qx_bind (qx_ret a) f) img.
Proof. done. Qed.

Lemma width_small node : 0 <= ducknng_qk_type_fixed_width node <= 16.
Proof. pose proof (fixed_width_cases node) as H. cbn [In] in H. lia. Qed.

Lemma counts_small rows : counts rows -> 0 <= rows <= 4194304.
Proof. done. Qed.

Section bodies.
Context (enc : option vector -> option schema -> Z -> writing unit) (dec : option schema -> Z -> Z -> Z -> reading column)
  (skp : option schema -> Z -> reading unit).

Lemma fixed_body node rows validity data : ducknng_qk_type_is_varlen node = false -> ducknng_qk_type_is_nested node = false ->
  0 < ducknng_qk_type_fixed_width node -> ducknng_qk_type_fixed_width node * rows <= zlen data -> counts rows ->
  let v := VFixed validity (ducknng_qk_type_fixed_width node) data in
  exists img c, agrees (encode_body enc v node rows) (decode_body dec node rows 0 rows (kept_mask validity rows)) (skip_body skp node rows) img 0 c /\
    same c v rows.
Proof.
  intros Hv Hn Hw Hd Hr v. pose proof (width_small node) as Hs. pose proof (counts_small _ Hr) as Hrs. destruct (flat_tests node Hn) as (T1 & T2 & T3).
  set (width := ducknng_qk_type_fixed_width node) in *. destruct (mul_exact width rows) as [Hm _]; [sizes..|].
  set (kept := ztake (width * rows) data). assert (zlen kept = width * rows) as Hk by (apply zlen_ztake; nia).
  exists (u16_image 102 ++ counted_image kept ++ END_image), (CFixed (ducknng_quack_copy_validity_slice (kept_mask validity rows) 0 rows) width kept).
  split; [split; [|split]|].
  - unfold encode_body. rewrite Hv, T1, T2, T3. fold width. destruct (Z.eqb_spec width 0); [lia|]. rewrite Hm. emit_steps; [done|].
    change (vector_data v) with data. fold kept. rewrite <- Hk. apply xemits_blob. sizes.
  - apply decodes_read. unfold decode_body. rewrite Hv, T1, T2, T3. fold width. eapply xreads_bind; [by apply xreads_expect|].
    eapply xreads_bind; [apply xreads_blob; sizes|]. destruct (Z.eqb_spec width 0); [lia|]. rewrite Hm, Hk, bool_decide_eq_true_2 by done. cbn [orb negb].
    assert (fixed_slice width 0 rows kept = Some kept) as ->.
    { unfold fixed_slice. destruct (Z.ltb_spec 0 rows).
      - rewrite (proj1 (mul_exact width 0 ltac:(lia) ltac:(lia) ltac:(sizes) ltac:(sizes) ltac:(done))), Hm, Z.mul_0_r, Hk, Z.sub_0_r, Z.ltb_irrefl.
        destruct (Z.ltb_spec (width * rows) 0); [nia|]. cbn [orb]. f_equal. rewrite <- Hk. apply ztake_all.
      - f_equal. assert (zlen kept = 0) as Hz by nia. destruct kept; [done|]. rewrite zlen_cons in Hz. pose proof (zlen_nonneg kept). lia. }
    eapply xreads_then; [by apply xreads_expect|apply xreads_ret].
  - unfold skip_body. rewrite Hv, T1, T2, T3. fold width. eapply xreads_bind; [by apply xreads_expect|].
    eapply xreads_bind; [apply xreads_blob; sizes|]. destruct (Z.eqb_spec width 0); [lia|]. rewrite Hm, Hk, bool_decide_eq_true_2 by done. cbn [orb negb].
    by apply xreads_expect.
  - intros i Hi. cbn [column_value]. rewrite slice_valid by done. cbn [v vector_value vector_validity].
    destruct (ducknng_quack_vector_row_is_valid validity (Z.of_nat i)); cbn [negb]; [|done]. f_equal.
    unfold kept, ztake, zdrop. rewrite skipn_firstn_comm, firstn_firstn. f_equal. nia.
Qed.

Lemma strings_body node rows validity data : ducknng_qk_type_is_varlen node = true -> rows <= zlen data ->
  Forall (fun s => zlen s <= SIZE_MAX) data -> counts rows ->
  exists img c, agrees (encode_body enc (VStrings validity data) node rows) (decode_body dec node rows 0 rows (kept_mask validity rows)) (skip_body skp node rows) img 0 c /\
    same c (VStrings validity data) rows.
Proof.
  intros Hv Hl Hd Hr. pose proof (counts_small _ Hr) as Hrs. destruct (strings_code validity data (Z.to_nat rows) Hd 0) as (img & He & Hi & Hs).
  exists ((u16_image 102 ++ uleb_image rows) ++ img ++ END_image), (CStrings (string_cells (kept_mask validity rows) 0 rows (map (cell validity data) (seq 0 (Z.to_nat rows))))).
  split; [split; [|split]|].
  - unfold encode_body. rewrite Hv. emit_steps; [done|sizes|exact He].
  - apply decodes_read. unfold decode_body. rewrite Hv, <- app_assoc. eapply xreads_bind; [by apply xreads_expect|].
    eapply xreads_bind; [apply xreads_uleb; sizes|]. rewrite Z.eqb_refl. cbn [negb]. eapply xreads_bind; [exact Hi|].
    eapply xreads_then; [by apply xreads_expect|apply xreads_ret].
  - unfold skip_body. rewrite Hv, <- app_assoc. eapply xreads_bind; [by apply xreads_expect|].
    eapply xreads_bind; [apply xreads_uleb; sizes|]. rewrite Z.eqb_refl. cbn [negb].
    eapply xreads_bind; [eapply xreads_then; [exact Hs|apply xreads_ret]|by apply xreads_expect].
  - intros i Hlt. cbn [column_value vector_value vector_validity]. unfold string_cells. rewrite list_lookup_fmap, lookup_seq_lt by lia. cbn [fmap option_fmap option_map].
    replace (0 + Z.of_nat (0 + i)) with (Z.of_nat i) by lia. rewrite kept_row by (done || lia). rewrite Nat2Z.id.
    change (map ?f ?l) with (f <$> l). rewrite list_lookup_fmap, lookup_seq_lt by lia. cbn [fmap option_fmap option_map]. unfold cell. cbn [Nat.add].
    destruct (ducknng_quack_vector_row_is_valid validity (Z.of_nat i)); done.
Qed.
End bodies.

Section nested_bodies.
Context (enc : option vector -> option schema -> Z -> writing unit) (dec : option schema -> Z -> Z -> Z -> reading column)
  (skp : option schema -> Z -> reading unit).

(** A child vector travels. *)
Definition travels (node : schema) (v : vector) (rows : Z) : Prop :=
  0 <= weight v rows /\
  exists img c, agrees (enc (Some v) (Some node) rows) (dec (Some node) rows 0 rows) (skp (Some node) rows) img (weight v rows) c /\ same c v rows.

Lemma children_code vec node rows (ms : list (bytes * schema)) cs : Forall2 (fun m c => travels m.2 c rows) ms cs -> forall i,
  (forall j (m : bytes * schema), ms !! j = Some m -> child_at node (i + j) = Some m.2) ->
  (forall j c, cs !! j = Some c -> struct_child vec (i + j) = Some c) ->
  let w := foldr (fun c acc => weight c rows + acc) 0 cs in
  0 <= w /\ exists img cols us, xemits (encode_children enc vec node rows (length ms) i) img /\
    decodes (read_children (fun c => dec c rows 0 rows) node (length ms) i) img w cols /\
    xreads (read_children (fun c => skp c rows) node (length ms) i) img us /\
    Forall2 (fun col c => same col c rows) cols cs.
Proof.
  induction 1 as [|m c ms cs (Hw & img & col & (He & Hd & Hs) & Hv) Hms IH]; intros i Hm Hc w.
  - split; [done|]. exists [], [], []. split; [apply xemits_ret|]. split; [apply decodes_read, xreads_ret|]. split; [apply xreads_ret|constructor].
  - destruct (IH (S i)) as (Hw' & img' & cols & us & He' & Hd' & Hs' & Hv').
    { intros j x Hj. replace (S i + j)%nat with (i + S j)%nat by lia. by apply Hm. }
    { intros j x Hj. replace (S i + j)%nat with (i + S j)%nat by lia. by apply Hc. }
    pose proof (Hm 0%nat m eq_refl) as Hm0. pose proof (Hc 0%nat c eq_refl) as Hc0. rewrite Nat.add_0_r in Hm0, Hc0.
    cbn [foldr] in w. split; [unfold w; lia|]. exists (img ++ img'), (col :: cols), (tt :: us).
    cbn [length encode_children read_children]. rewrite Hm0, Hc0. split; [by apply xemits_bind|]. split; [|split; [|by constructor]].
    + apply decodes_bind with col; [done|done|done|]. rewrite <- (app_nil_r img'). eapply decodes_last; [done|exact Hd'|apply xreads_ret].
    + eapply xreads_bind; [exact Hs|]. eapply xreads_then; [exact Hs'|apply xreads_ret].
Qed.

Lemma struct_body ty ms rows validity cs : ty = DUCKNNG_QUACK_LOGICAL_STRUCT \/ ty = DUCKNNG_QUACK_LOGICAL_UNION ->
  zlen ms <= DUCKNNG_QUACK_MAX_STRUCT_MEMBERS -> counts rows -> Forall2 (fun m c => travels m.2 c rows) ms cs ->
  let w := foldr (fun c acc => weight c rows + acc) 0 cs in
  0 <= w /\ exists img c, agrees (encode_body enc (VStruct validity cs) (record ty ms) rows)
      (decode_body dec (record ty ms) rows 0 rows (kept_mask validity rows)) (skip_body skp (record ty ms) rows) img w c /\
    same c (VStruct validity cs) rows.
Proof.
  intros Hty Hl Hr Hf w.
  destruct (children_code (VStruct validity cs) (record ty ms) rows ms cs Hf 0) as (Hw & img & cols & us & He & Hd & Hs & Hv).
  { intros j m Hj. rewrite record_child. cbn [Nat.add]. by rewrite Hj. }
  { intros j c Hj. exact Hj. }
  fold w in Hw, Hd. split; [done|].
  exists ((u16_image 103 ++ uleb_image (zlen ms)) ++ img ++ END_image), (CStruct (ducknng_quack_copy_validity_slice (kept_mask validity rows) 0 rows) cols).
  assert (ducknng_qk_type_is_varlen (record ty ms) = false) as T1 by (by destruct Hty as [-> | ->]).
  assert (id_in ty [DUCKNNG_QUACK_LOGICAL_STRUCT; DUCKNNG_QUACK_LOGICAL_UNION] = true) as T2 by (by destruct Hty as [-> | ->]).
  pose proof (zlen_nonneg ms) as Hms. unfold DUCKNNG_QUACK_MAX_STRUCT_MEMBERS in Hl.
  assert (Z.to_nat (zlen ms) = length ms) as Hz by (unfold zlen; lia).
  unfold encode_body, decode_body, skip_body. rewrite T1. change (logical_type_id (record ty ms)) with ty. rewrite T2, record_count, Hz by done.
  split; [split; [|split]|].
  - emit_steps; [done|sizes|exact He].
  - rewrite <- app_assoc. eapply decodes_step; [done|by apply xreads_expect|]. eapply decodes_step; [done|apply xreads_uleb; sizes|].
    rewrite Z.eqb_refl, bool_decide_eq_false_2 by done. cbn [negb orb]. eapply decodes_last; [done|exact Hd|].
    eapply xreads_then; [by apply xreads_expect|apply xreads_ret].
  - rewrite <- app_assoc. eapply xreads_bind; [by apply xreads_expect|]. eapply xreads_bind; [apply xreads_uleb; sizes|].
    rewrite Z.eqb_refl, bool_decide_eq_false_2 by done. cbn [negb orb]. eapply xreads_bind; [exact Hs|by apply xreads_expect].
  - intros i Hi. cbn [column_value]. rewrite slice_valid by done. cbn [vector_value vector_validity].
    destruct (ducknng_quack_vector_row_is_valid validity (Z.of_nat i)); cbn [negb]; [|done]. f_equal.
    clear -Hv Hi. induction Hv as [|col c cols cs Hc Hv IH]; [done|]. cbn [map]. f_equal; [by apply Hc|done].
Qed.

Lemma list_body ty child_type rows validity entries size child : ty = DUCKNNG_QUACK_LOGICAL_LIST \/ ty = DUCKNNG_QUACK_LOGICAL_MAP ->
  counts rows -> counts size -> size <= weight child size -> (forall i, (i < Z.to_nat rows)%nat -> entry_fits validity entries size i) ->
  travels child_type child size ->
  exists img c, agrees (encode_body enc (VList validity entries size child) (wrap ty 0 child_type) rows)
      (decode_body dec (wrap ty 0 child_type) rows 0 rows (kept_mask validity rows)) (skip_body skp (wrap ty 0 child_type) rows)
      img (weight child size) c /\
    same c (VList validity entries size child) rows.
Proof.
  intros Hty Hr Hs Hsw Hf (Hw & img & col & (He & Hd & Hk) & Hv). pose proof (counts_small _ Hr) as Hrs. pose proof (counts_small _ Hs) as Hss.
  destruct (entries_code validity entries size (Z.to_nat rows) ltac:(sizes) 0) as (ents & Ee & Er); [intros j Hj; apply Hf; lia|].
  set (cells := map (entry_cell validity entries) (seq 0 (Z.to_nat rows))) in *.
  exists ((u16_image 104 ++ uleb_image size) ++ (u16_image 105 ++ uleb_image rows) ++ ents ++ u16_image 106 ++ img ++ END_image),
    (CList (ducknng_quack_copy_validity_slice (kept_mask validity rows) 0 rows) cells size col).
  set (node := wrap ty 0 child_type). assert (logical_type_id node = ty) as Ti by done.
  assert (ducknng_qk_type_is_varlen node = false) as T1 by (by destruct Hty as [-> | ->]).
  assert (id_in ty [DUCKNNG_QUACK_LOGICAL_STRUCT; DUCKNNG_QUACK_LOGICAL_UNION] = false /\
          id_in ty [DUCKNNG_QUACK_LOGICAL_LIST; DUCKNNG_QUACK_LOGICAL_MAP] = true) as [T2 T3] by (by destruct Hty as [-> | ->]).
  assert (ztake rows (zdrop 0 cells) = cells) as Hcells.
  { change (zdrop 0 cells) with cells. replace rows with (zlen cells); [apply ztake_all|]. unfold zlen, cells. rewrite length_map, length_seq. lia. }
  unfold encode_body, decode_body, skip_body. rewrite T1, Ti, T2, T3.
  change (nchildren node) with 1. change (child_at node 0) with (Some child_type).
  change (bool_decide (children node = None)) with false. cbn [negb orb Z.eqb Pos.eqb].
  split; [split; [|split]|].
  - change (list_size (VList validity entries size child)) with size. emit_steps; [done|sizes|done|sizes|exact Ee|done|exact He].
  - rewrite <- !app_assoc. eapply decodes_step; [done|by apply xreads_expect|]. eapply decodes_step; [done|apply xreads_uleb; sizes|].
    eapply decodes_step; [done|by apply xreads_expect|]. eapply decodes_step; [done|apply xreads_uleb; sizes|].
    rewrite Z.eqb_refl. cbn [negb]. apply decodes_check; [lia|]. eapply decodes_step; [done|exact Er|]. rewrite Hcells.
    eapply decodes_step; [done|by apply xreads_expect|]. eapply decodes_last; [done|exact Hd|]. eapply xreads_then; [by apply xreads_expect|apply xreads_ret].
  - rewrite <- !app_assoc. eapply xreads_bind; [by apply xreads_expect|]. eapply xreads_bind; [apply xreads_uleb; sizes|].
    eapply xreads_bind; [by apply xreads_expect|]. eapply xreads_bind; [apply xreads_uleb; sizes|].
    rewrite Z.eqb_refl. cbn [negb]. eapply xreads_bind; [exact Er|].
    eapply xreads_bind; [by apply xreads_expect|]. eapply xreads_bind; [exact Hk|by apply xreads_expect].
  - intros i Hi. cbn [column_value]. rewrite slice_valid by done. cbn [vector_value vector_validity].
    destruct (ducknng_quack_vector_row_is_valid validity (Z.of_nat i)) eqn:Ev; cbn [negb]; [|done].
    unfold cells. change (map ?f ?l) with (f <$> l) at 1. rewrite list_lookup_fmap, lookup_seq_lt by lia. cbn [fmap option_fmap option_map Nat.add].
    pose proof (entry_cell_fits validity entries size i ltac:(lia) (Hf i Hi)) as Hb. unfold entry_cell in *. rewrite Ev in *.
    destruct (default (0, 0) (entries !! i)) as [off len]. cbn [fst snd] in Hb. f_equal. apply map_ext_in. intros j Hj. apply in_seq in Hj. apply Hv. lia.
Qed.

Lemma array_body child_type rows validity size child : 1 <= size <= UINT32_MAX -> counts rows -> counts (rows * size) ->
  travels child_type child (rows * size) ->
  let node := wrap DUCKNNG_QUACK_LOGICAL_ARRAY size child_type in
  exists img c, agrees (encode_body enc (VArray validity size child) node rows)
      (decode_body dec node rows 0 rows (kept_mask validity rows)) (skip_body skp node rows) img (weight child (rows * size)) c /\
    same c (VArray validity size child) rows.
Proof.
  intros Hz Hr Hs (Hw & img & col & (He & Hd & Hk) & Hv) node. pose proof (counts_small _ Hr) as Hrs. pose proof (counts_small _ Hs) as Hss.
  assert (size <= SIZE_MAX) as Hz2 by (unfold UINT32_MAX, SIZE_MAX, UINT64_MAX in *; lia).
  destruct (mul_exact rows size) as [_ Hm]; [lia|lia|sizes|sizes|done|].
  exists ((u16_image 103 ++ uleb_image size) ++ u16_image 104 ++ img ++ END_image), (CArray (ducknng_quack_copy_validity_slice (kept_mask validity rows) 0 rows) size col).
  unfold encode_body, decode_body, skip_body, ducknng_quack_idx_mul. change (ducknng_qk_type_is_varlen node) with false.
  change (logical_type_id node) with DUCKNNG_QUACK_LOGICAL_ARRAY.
  change (id_in DUCKNNG_QUACK_LOGICAL_ARRAY [DUCKNNG_QUACK_LOGICAL_STRUCT; DUCKNNG_QUACK_LOGICAL_UNION]) with false.
  change (id_in DUCKNNG_QUACK_LOGICAL_ARRAY [DUCKNNG_QUACK_LOGICAL_LIST; DUCKNNG_QUACK_LOGICAL_MAP]) with false.
  rewrite Z.eqb_refl. change (nchildren node) with 1. change (child_at node 0) with (Some child_type). change (array_size node) with size.
  change (bool_decide (children node = None)) with false. cbn [negb orb Z.eqb Pos.eqb]. rewrite Hm.
  split; [split; [|split]|].
  - apply xemits_bind; [apply xemits_pair; [done|sizes]|]. apply xemits_bind; [by apply xemits_field|]. apply xemits_bind_ret.
    apply xemits_bind; [exact He|apply xemits_end].
  - rewrite <- !app_assoc. eapply decodes_step; [done|by apply xreads_expect|]. eapply decodes_step; [done|apply xreads_uleb; sizes|].
    rewrite Z.eqb_refl. cbn [negb]. eapply decodes_step; [done|by apply xreads_expect|]. rewrite Hm.
    rewrite <- (app_nil_l (img ++ END_image)). eapply decodes_step; [done|apply xreads_ret|].
    eapply decodes_last; [done|exact Hd|]. eapply xreads_then; [by apply xreads_expect|apply xreads_ret].
  - rewrite <- !app_assoc. eapply xreads_bind; [by apply xreads_expect|]. eapply xreads_bind; [apply xreads_uleb; sizes|].
    eapply xreads_bind; [by apply xreads_expect|]. rewrite Z.eqb_refl. cbn [negb]. rewrite Hm.
    eapply xreads_skip; [apply xreads_ret|]. eapply xreads_bind; [exact Hk|by apply xreads_expect].
  - intros i Hi. cbn [column_value]. rewrite slice_valid by done. cbn [vector_value vector_validity].
    destruct (ducknng_quack_vector_row_is_valid validity (Z.of_nat i)); cbn [negb]; [|done]. f_equal. apply map_ext_in. intros j Hj. apply in_seq in Hj. apply Hv. nia.
Qed.
End nested_bodies.

(** ** Whole vectors *)

Lemma children_weights n (ms : list (bytes * schema)) cs rows : 0 <= rows -> Forall2 (fun m c => fits n m.2 rows c) ms cs ->
  let total := foldr (fun c acc => weight c rows + acc) 0 cs in
  0 <= total /\ (total <= DUCKNNG_QUACK_MAX_MATERIALIZED_VALUES -> Forall (fun c => weight c rows <= DUCKNNG_QUACK_MAX_MATERIALIZED_VALUES) cs).
Proof.
  intros Hr. induction 1 as [|m c ms cs Hm Hcs [IH1 IH2]]; [done|]. cbn [foldr]. pose proof (fits_weight _ _ _ _ Hr Hm).
  split; [lia|]. intros Hle. constructor; [lia|apply IH2; lia].
Qed.

Section whole_vectors.
Context (creates : logical_type -> bool).

Lemma vector_travels n : forall node rows v depth m, fits n node rows v -> (n <= m)%nat -> depth + Z.of_nat n <= 65 -> 0 <= rows ->
  weight v rows <= DUCKNNG_QUACK_MAX_MATERIALIZED_VALUES ->
  travels (fun v c rows => ducknng_quack_encode_vector m v c rows depth)
    (fun c src offset count => ducknng_quack_decode_vector_into creates m c src offset count depth)
    (fun c rows => ducknng_quack_skip_vector_node m c rows depth) node v rows.
Proof.
  induction n as [|n IH]; intros node rows v depth m Hf Hm Hd Hr Hw; [by inversion Hf|]. destruct m as [|m]; [lia|].
  pose proof (fits_weight _ _ _ _ Hr Hf) as Hrw. assert (counts rows) as Hc by (split; lia).
  assert (mask_fits (vector_validity v) rows) as Hv by (by inversion Hf; subst).
  split; [lia|].
  assert (forall body w c, 0 <= w -> rows + w = weight v rows ->
    agrees (encode_body (fun v c rows => ducknng_quack_encode_vector m v c rows (depth + 1)) v node rows)
      (decode_body (fun c src offset count => ducknng_quack_decode_vector_into creates m c src offset count (depth + 1)) node rows 0 rows (kept_mask (vector_validity v) rows))
      (skip_body (fun c rows => ducknng_quack_skip_vector_node m c rows (depth + 1)) node rows) body w c ->
    same c v rows -> exists img c, agrees (ducknng_quack_encode_vector (S m) (Some v) (Some node) rows depth)
      (ducknng_quack_decode_vector_into creates (S m) (Some node) rows 0 rows depth)
      (ducknng_quack_skip_vector_node (S m) (Some node) rows depth) img (weight v rows) c /\ same c v rows) as frame.
  { intros body w c Hw0 Hww Ha Hs. eexists _, c. split; [|exact Hs]. rewrite <- Hww. apply vector_frame; [|done|done|done|exact Ha].
    unfold DUCKNNG_QUACK_MAX_NESTING. lia. }
  inversion Hf as [? ? ? validity data Hvl Hn Hwd Hl|? ? ? validity data Hvl Hl ? Hs|? ty ms ? validity cs Hty Hl ? Hcs|? ty c ? validity entries size child Hty Hs ? He Hch|? c ? validity size child Hs ? Hch]; subst; cbn [weight vector_validity] in *.
  - edestruct fixed_body as (img & c & Ha & Hs); [exact Hvl|exact Hn|exact Hwd|exact Hl|exact Hc|]. apply (frame img 0 c); [done|lia|exact Ha|exact Hs].
  - edestruct strings_body as (img & c & Ha & Hs'); [exact Hvl|exact Hl|exact Hs|exact Hc|]. apply (frame img 0 c); [done|lia|exact Ha|exact Hs'].
  - edestruct (struct_body (fun v c rows => ducknng_quack_encode_vector m v c rows (depth + 1))
      (fun c src offset count => ducknng_quack_decode_vector_into creates m c src offset count (depth + 1))
      (fun c rows => ducknng_quack_skip_vector_node m c rows (depth + 1)) ty ms rows validity cs) as (Hw0 & img & c & Ha & Hs); [done|done|done| |].
    + pose proof (children_weights n ms cs rows Hr Hcs) as [_ Hcw]. specialize (Hcw ltac:(lia)).
      clear -IH Hcs Hcw Hm Hd Hr. induction Hcs as [|x c ms cs Hx Hcs IHc]; [constructor|]. inversion Hcw; subst. constructor; [|by apply IHc]. apply IH; (lia || done).
    + apply (frame img (foldr (fun c acc => weight c rows + acc) 0 cs) c); [done|lia|exact Ha|exact Hs].
  - pose proof (fits_weight _ _ _ _ Hs Hch) as Hcw. edestruct list_body as (img & col & Ha & Hsame); [exact Hty|exact Hc|split; [exact Hs|lia]|exact Hcw|exact He| |].
    + apply (IH c size child (depth + 1) m); [exact Hch|lia|lia|lia|lia].
    + apply (frame img (weight child size) col); [lia|lia|exact Ha|exact Hsame].
  - assert (0 <= rows * size) as Hrs by nia. pose proof (fits_weight _ _ _ _ Hrs Hch) as Hcw.
    edestruct array_body as (img & col & Ha & Hsame); [exact Hs|exact Hc|split; [exact Hrs|lia]| |].
    + apply (IH c (rows * size) child (depth + 1) m); [exact Hch|lia|lia|lia|lia].
    + apply (frame img (weight child (rows * size)) col); [lia|lia|exact Ha|exact Hsame].
Qed.
End whole_vectors.
