(* ===== verification/QuackChecks.v ===== *)
(** What the quack vector readers do with untrusted bytes:
    [src/src/ducknng_quack.c].

    [dsafe] extends [xsafe] by the values an operation materializes; [shaped]
    is the column a decoder may produce for a type and a row count.  The
    second half compares [ducknng_quack_skip_vector_node], which a batch is
    validated with, and [ducknng_quack_decode_vector_into], which reads it. *)

From S2P Require Import Prelude Checked QuackCore QuackTypes QuackVectors.

(** ** The materialization counter *)

Definition recount (k : Z) (r : ducknng_qk_reader) : ducknng_qk_reader := mk_reader (r_data r) (r_len r) (r_off r) k (r_status r).

(** The kernel readers neither look at it nor change it. *)
Definition oblivious {S A} (m : ducknng_qk_reader -> ducknng_qk_reader * result S A) : Prop :=
  forall r k, m (recount k r) = (recount k (fst (m r)), snd (m r)).
Definition still {A} (m : qk ducknng_qk_reader A) : Prop :=
  forall r k, m (recount k r) = (recount k (fst (m r)), snd (m r)).

Lemma still_keeps {A} (m : qk ducknng_qk_reader A) r : still m -> r_materialized_values (fst (m r)) = r_materialized_values r.
Proof.
  intros H. specialize (H r (r_materialized_values r)). assert (recount (r_materialized_values r) r = r) as E by (by destruct r).
  rewrite E in H. by rewrite H at 1.
Qed.

Lemma still_bind {A C} (m : qk ducknng_qk_reader A) (f : A -> qk ducknng_qk_reader C) :
  still m -> (forall a, still (f a)) -> still (qk_bind m f).
Proof. intros Hm Hf r k. unfold qk_bind. rewrite Hm. destruct (m r) as [r1 [a|]]; [|done]. apply Hf. Qed.
Lemma still_ret {A} (a : A) : still (qk_ret a).
Proof. done. Qed.
Lemma still_fail {A} st : still (@ducknng_qk_reader_fail A st).
Proof. done. Qed.
Lemma still_need n : still (ducknng_qk_reader_need n).
Proof. intros r k. unfold ducknng_qk_reader_need. cbn [recount r_len r_off r_status]. by cases_goal. Qed.

#[local] Hint Resolve still_ret still_fail still_need : quack.
#[local] Hint Extern 1 (still (fun r => (r, _))) => (by intros r k) : quack.
#[local] Hint Extern 1 (still (fun r => (r_advance _ r, _))) => (by intros r k) : quack.

Ltac still_steps :=
  repeat first [progress eauto with quack | apply still_bind; [|intros ?]
    | match goal with |- still (if ?b then _ else _) => destruct b | |- still (let '(_, _) := ?p in _) => destruct p end].

Lemma still_u8 : still ducknng_qk_read_u8.
Proof. unfold ducknng_qk_read_u8. still_steps. Qed.
#[local] Hint Resolve still_u8 : quack.
Lemma still_boolean : still ducknng_qk_read_boolean.
Proof. unfold ducknng_qk_read_boolean. still_steps. Qed.
Lemma still_peek : still ducknng_qk_peek_u16le.
Proof. unfold ducknng_qk_peek_u16le. still_steps. Qed.
#[local] Hint Resolve still_peek : quack.
Lemma still_u16 : still ducknng_qk_read_u16le.
Proof. unfold ducknng_qk_read_u16le. still_steps. Qed.
Lemma still_uleb_loop fuel : forall v s, still (qk_read_uleb128_loop fuel v s).
Proof. induction fuel as [|fuel IH]; intros v s; cbn [qk_read_uleb128_loop]; [done|]. cbv zeta. still_steps. Qed.
Lemma still_sleb_loop fuel : forall v s, still (qk_read_sleb128_loop fuel v s).
Proof. induction fuel as [|fuel IH]; intros v s; cbn [qk_read_sleb128_loop]; [done|]. cbv zeta. still_steps. Qed.
Lemma still_uleb : still ducknng_qk_read_uleb128.
Proof. apply still_uleb_loop. Qed.
#[local] Hint Resolve still_uleb still_sleb_loop : quack.
Lemma still_sleb : still ducknng_qk_read_sleb128.
Proof. unfold ducknng_qk_read_sleb128. still_steps. Qed.
Lemma still_counted : still ducknng_qk_read_counted.
Proof. unfold ducknng_qk_read_counted. still_steps. Qed.
#[local] Hint Resolve still_boolean still_u16 still_sleb still_counted : quack.

(** ** Safe readers with their charge *)

(** From a healthy reader, [m] keeps the buffer, moves the cursor forward
    within it, never takes the counter past the limit, and fails with a text;
    [P] holds of the result and of the values materialized. *)
Definition dsafe {A} (m : reading A) (P : A -> Z -> Prop) : Prop :=
  forall r, r_status r = DUCKNNG_QK_OK -> 0 <= r_off r <= r_len r -> all_bytes (default [] (r_data r)) ->
    let (r', o) := m r in
    r_data r' = r_data r /\ r_len r' = r_len r /\ r_off r <= r_off r' <= r_len r /\
    r_materialized_values r <= r_materialized_values r' /\
    (r_materialized_values r' <= DUCKNNG_QUACK_MAX_MATERIALIZED_VALUES \/ r_materialized_values r' = r_materialized_values r) /\
    match o with Ok a => r_status r' = DUCKNNG_QK_OK /\ P a (r_materialized_values r' - r_materialized_values r) | Err e => e <> None end.

(** Readers that charge nothing. *)
Definition zsafe {A} (m : reading A) (P : A -> Prop) : Prop := dsafe m (fun a w => P a /\ w = 0).

Lemma zsafe_lift {A} msg (m : qk ducknng_qk_reader A) P : still m -> reader_safe m P -> zsafe (ducknng_quack_reader_result msg m) P.
Proof.
  intros Hk H r Hs Ho Hb. pose proof (xsafe_lift msg m P H r Hs Ho Hb) as Hx. apply (still_keeps m r) in Hk. unfold ducknng_quack_reader_result in *.
  destruct (m r) as [r' [a|]]; cbn [fst] in Hk; rewrite Hk; destruct Hx as (? & ? & ? & Hx); (split; [done|split; [done|split; [lia|split; [lia|split; [by right|]]]]]); [|done].
  destruct Hx. split; [done|]. split; [done|lia].
Qed.

Lemma dsafe_bind {A C} (m : reading A) (f : A -> reading C) P Q :
  dsafe m P -> (forall a w, P a w -> 0 <= w -> dsafe (f a) (fun c x => Q c (w + x))) -> dsafe (qx_bind m f) Q.
Proof.
  intros Hm Hf r Hs Ho Hb. specialize (Hm r Hs Ho Hb). unfold qx_bind.
  destruct (m r) as [r1 [a|e]]; [|done]. destruct Hm as (Hd & Hl & Ho1 & Hk & Hk1 & Hs1 & HP).
  rewrite <- Hd in Hb. specialize (Hf a _ HP ltac:(lia) r1 Hs1 ltac:(lia) Hb).
  destruct (f a r1) as [r2 o]. rewrite Hd, Hl in Hf. destruct Hf as (? & ? & ? & ? & ? & Hf).
  split; [done|split; [done|split; [lia|split; [lia|split; [lia|]]]]]. destruct o; [|done].
  destruct Hf as [? Hf]. split; [done|]. by replace (r_materialized_values r2 - r_materialized_values r) with
    (r_materialized_values r1 - r_materialized_values r + (r_materialized_values r2 - r_materialized_values r1)) by lia.
Qed.

Lemma dsafe_weaken {A} (m : reading A) (P Q : A -> Z -> Prop) : dsafe m P -> (forall a w, P a w -> Q a w) -> dsafe m Q.
Proof.
  intros Hm HPQ r Hs Ho Hb. specialize (Hm r Hs Ho Hb). destruct (m r) as [r' [a|e]]; [|done].
  destruct Hm as (? & ? & ? & ? & ? & ? & ?). auto 10.
Qed.

Lemma dsafe_step {A C} (m : reading A) (f : A -> reading C) P Q :
  zsafe m P -> (forall a, P a -> dsafe (f a) Q) -> dsafe (qx_bind m f) Q.
Proof. intros Hm Hf. eapply dsafe_bind; [exact Hm|]. intros a w [HP ->] _. by apply Hf. Qed.

Lemma dsafe_ret {A} (a : A) (P : A -> Z -> Prop) : P a 0 -> dsafe (qx_ret a) P.
Proof. intros HP r Hs Ho Hb. simpl. rewrite Z.sub_diag. repeat (split; [done || lia|]). done. Qed.
Lemma dsafe_fail {A} text (P : A -> Z -> Prop) : dsafe (qx_fail text) P.
Proof. intros r Hs Ho Hb. simpl. repeat (split; [done || lia|]). done. Qed.
Lemma dsafe_if {A} (b : bool) (m n : reading A) P : (b = true -> dsafe m P) -> (b = false -> dsafe n P) -> dsafe (if b then m else n) P.
Proof. destruct b; auto. Qed.
Lemma zsafe_weaken {A} (m : reading A) (P Q : A -> Prop) : zsafe m P -> (forall a, P a -> Q a) -> zsafe m Q.
Proof. intros H HPQ. eapply dsafe_weaken; [exact H|]. intros a w [? ?]. auto. Qed.
Lemma zsafe_ret {A} (a : A) (P : A -> Prop) : P a -> zsafe (qx_ret a) P.
Proof. intros. by apply dsafe_ret. Qed.

Lemma zsafe_u16 : zsafe ducknng_quack_read_u16le (fun v => 0 <= v <= UINT16_MAX).
Proof. apply zsafe_lift; [auto with quack|apply safe_u16]. Qed.
Lemma zsafe_uleb : zsafe ducknng_quack_read_uleb128 (fun v => 0 <= v <= UINT64_MAX).
Proof. apply zsafe_lift; [auto with quack|apply safe_uleb128]. Qed.
Lemma zsafe_blob : zsafe ducknng_quack_read_blob_view (fun b => zlen b <= SIZE_MAX /\ all_bytes b).
Proof. apply zsafe_lift; [auto with quack|apply safe_counted]. Qed.
Lemma zsafe_sleb : zsafe ducknng_quack_read_sleb128 (fun v => INT64_MIN <= v <= INT64_MAX).
Proof.
  apply zsafe_lift; [auto with quack|]. eapply safe_bind; [apply safe_sleb; unfold UINT64_MAX; lia|]. intros [[bits shift] byte] Hb. simpl in Hb.
  apply safe_ret, to_int64_range. cases_goal; [by apply lor_u64|done].
Qed.
Lemma zsafe_bool msg : zsafe (ducknng_quack_read_boolean msg) (fun v => 0 <= v <= 1).
Proof.
  apply zsafe_lift; [auto with quack|]. eapply safe_bind; [apply safe_u8|]. intros v Hv. unfold is_byte in Hv.
  destruct (Z.ltb_spec 1 v); [by apply safe_fail|]. apply safe_ret. lia.
Qed.
Lemma zsafe_peek : zsafe ducknng_quack_peek_u16le (fun _ => True).
Proof.
  apply zsafe_lift; [auto with quack|]. intros r Hs Ho Hb. unfold ducknng_qk_peek_u16le, qk_bind, ducknng_qk_reader_need.
  rewrite bool_decide_eq_true_2 by done. cbn [negb]. cases_goal; cbn [r_data r_len r_off r_status ducknng_qk_reader_fail]; repeat (split; [done || lia|]); done.
Qed.
Lemma zsafe_expect field : zsafe (ducknng_quack_read_expect_field field) (fun _ => True).
Proof.
  eapply dsafe_step; [apply zsafe_u16|]. intros v _. apply dsafe_if; intros _; [|by apply zsafe_ret].
  intros r Hs Ho Hb. repeat (split; [done || lia|]). done.
Qed.

#[local] Hint Resolve zsafe_u16 zsafe_uleb zsafe_blob zsafe_sleb zsafe_bool zsafe_peek zsafe_expect dsafe_fail : quack.

(** One step, or one test, of a reader. *)
Ltac dsafe_step_tac := first
  [ apply dsafe_fail | eapply dsafe_step; [solve [eauto with quack]|let H := fresh "H" in intros ? H; cbv beta in H]
  | apply dsafe_if; intros ? | apply zsafe_ret | apply dsafe_ret ].
Ltac dsafe_steps := repeat dsafe_step_tac.

Lemma zsafe_repeat {A} (n : nat) (m : reading A) P : zsafe m P -> zsafe (repeat_read n m) (fun l => length l = n /\ Forall P l).
Proof.
  intros Hm. induction n as [|n IH]; cbn [repeat_read]; [by apply zsafe_ret|].
  eapply dsafe_step; [exact Hm|]. intros x Hx. eapply dsafe_step; [exact IH|]. intros l [Hl HF]. apply zsafe_ret.
  split; [cbn; lia|by constructor].
Qed.

Lemma zsafe_vector_type : zsafe ducknng_quack_read_vector_type (fun v => v <= 4).
Proof.
  unfold ducknng_quack_read_vector_type. eapply dsafe_step; [apply zsafe_peek|]. intros field _.
  eapply (dsafe_step _ _ (fun _ => True)).
  - apply dsafe_if; intros _; [|by apply zsafe_ret]. eapply dsafe_step; [apply zsafe_u16|]. intros. eapply zsafe_weaken; [apply zsafe_uleb|done].
  - intros v _. apply dsafe_if; intros E; [apply dsafe_fail|]. apply zsafe_ret. unfold DUCKNNG_QUACK_VECTOR_SEQUENCE in E. by apply Z.ltb_ge in E.
Qed.

Lemma zsafe_prologue : zsafe ducknng_quack_read_flat_vector_prologue (fun m => from_option (fun b => zlen b <= SIZE_MAX /\ all_bytes b) True m).
Proof. unfold ducknng_quack_read_flat_vector_prologue. dsafe_steps; done. Qed.

Lemma zsafe_validity validity rows : zsafe (check_validity_size validity rows) (fun _ => from_option (fun mask => zlen mask = ducknng_qk_validity_bytes rows) True validity).
Proof.
  unfold check_validity_size. destruct validity as [mask|]; dsafe_steps; [|done]. cbn. match goal with E : negb _ = false |- _ => apply negb_false_iff, Z.eqb_eq in E; done end.
Qed.

Lemma zsafe_entry size : 0 <= size -> zsafe (read_entry size) (fun e => 0 <= e.1 /\ 0 <= e.2 /\ e.1 + e.2 <= size).
Proof. intros Hs. unfold read_entry. dsafe_steps. cbn [fst snd]. match goal with E : orb _ _ = false |- _ => apply orb_false_iff in E as [?%Z.ltb_ge ?%Z.ltb_ge] end. lia. Qed.

Lemma zsafe_sequence : zsafe read_sequence (fun _ => True).
Proof. unfold read_sequence. dsafe_steps. done. Qed.

Lemma sel_at_nonneg sel row : all_bytes sel -> 0 <= sel_at sel row.
Proof.
  intros H. unfold sel_at. pose proof (byte_at_byte sel (4 * row) H). pose proof (byte_at_byte sel (4 * row + 1) H).
  pose proof (byte_at_byte sel (4 * row + 2) H). pose proof (byte_at_byte sel (4 * row + 3) H). unfold is_byte in *. lia.
Qed.

(** The selection of a dictionary names rows of the dictionary. *)
Definition selects (sel : bytes) (count rows : Z) : Prop := forall i, (i < Z.to_nat rows)%nat -> 0 <= sel_at sel (Z.of_nat i) < count.

Lemma zsafe_dictionary rows : zsafe (ducknng_quack_read_dictionary_header rows) (fun p => 0 <= p.2 <= UINT64_MAX /\ selects p.1 p.2 rows).
Proof.
  unfold ducknng_quack_read_dictionary_header. do 4 dsafe_step_tac. destruct (ducknng_size_mul 4 rows); [|apply dsafe_fail]. dsafe_steps. cbn [fst snd].
  split; [done|]. intros i Hi. match goal with E : forallb _ _ = true |- _ => rewrite forallb_forall in E; specialize (E i); apply Z.ltb_lt in E; [|apply in_seq; lia] end.
  split; [|done]. apply sel_at_nonneg. tauto.
Qed.

(** ** What a decoder may produce *)

Definition valid_ok (valid : option (list bool)) (rows : Z) : Prop := from_option (fun l => zlen l = rows) True valid.

(** [shaped node rows c w]: [c] has [rows] rows of the type [node], and [w]
    values were materialized for it. *)
Inductive shaped : schema -> Z -> column -> Z -> Prop :=
| shaped_fixed node rows valid data : valid_ok valid rows -> 0 < ducknng_qk_type_fixed_width node ->
    zlen data = ducknng_qk_type_fixed_width node * rows -> shaped node rows (CFixed valid (ducknng_qk_type_fixed_width node) data) rows
| shaped_strings node rows cells : zlen cells = rows -> shaped node rows (CStrings cells) rows
| shaped_struct node rows valid cs ws : valid_ok valid rows -> zlen cs = nchildren node -> length ws = length cs ->
    (forall i c w, cs !! i = Some c -> ws !! i = Some w -> exists child, child_at node i = Some child /\ shaped child rows c w) ->
    shaped node rows (CStruct valid cs) (rows + foldr Z.add 0 ws)
| shaped_list node rows valid entries size child_type child w : valid_ok valid rows -> zlen entries = rows ->
    Forall (fun e => 0 <= e.1 /\ 0 <= e.2 /\ e.1 + e.2 <= size) entries -> child_at node 0 = Some child_type ->
    shaped child_type size child w -> shaped node rows (CList valid entries size child) (rows + w)
| shaped_array node rows valid child_type child w : valid_ok valid rows -> child_at node 0 = Some child_type ->
    shaped child_type (rows * array_size node) child w -> shaped node rows (CArray valid (array_size node) child) (rows + w)
| shaped_copy node rows source count selection w : zlen selection = rows -> Forall (fun s => 0 <= s < count) selection ->
    shaped node count source w -> shaped node rows (CCopy source selection) (rows + w).

Lemma slice_ok validity rows : 0 <= rows -> valid_ok (ducknng_quack_copy_validity_slice validity 0 rows) rows.
Proof.
  intros Hr. unfold ducknng_quack_copy_validity_slice, valid_ok. destruct validity; [|done]. destruct (0 <? rows); [|done]. cbn.
  unfold zlen. rewrite length_fmap, length_seq. lia.
Qed.

Lemma le_bytes_length n : forall z, length (le_bytes n z) = n.
Proof. induction n as [|n IH]; intros z; cbn [le_bytes length]; [done|]. by rewrite IH. Qed.

Lemma concat_length {A} (f : A -> bytes) w (l : list A) : (forall x, length (f x) = w) -> length (concat (f <$> l)) = (w * length l)%nat.
Proof. intros Hf. induction l as [|x l IH]; cbn [fmap list_fmap concat length]; [lia|]. rewrite length_app, Hf. cbn [fmap list_fmap] in IH. rewrite IH. lia. Qed.

Lemma sequence_width node low high : sequence_range (logical_type_id node) = Some (low, high) -> 0 < ducknng_qk_type_fixed_width node.
Proof.
  unfold sequence_range, ducknng_qk_type_fixed_width. generalize (logical_type_id node) as x. intros x.
  repeat match goal with |- context [x =? ?v] => destruct (Z.eqb_spec x v); [subst x; vm_compute; done|] end. done.
Qed.

Lemma checked_mul_exact a b r : 0 <= a -> 0 <= b -> ducknng_size_mul a b = Some r -> a <= SIZE_MAX -> b <= SIZE_MAX -> r = a * b.
Proof.
  intros Ha Hb H Ha2 Hb2. unfold ducknng_size_mul in H. destruct (Z.eqb_spec a 0) as [->|Hn]; cbn [negb andb] in H; [by injection H|].
  destruct (Z.ltb_spec (SIZE_MAX / a) b) as [|Hd]; [done|]. injection H as <-. apply u64_small. pose proof (Z.mul_div_le SIZE_MAX a ltac:(lia)). sizes.
Qed.

Section decode_safe.
Context (creates : logical_type -> bool) (dec : option schema -> Z -> Z -> Z -> reading column).
Context (Hdec : forall node rows, 0 <= rows <= UINT64_MAX -> dsafe (dec node rows 0 rows) (fun c w => exists t, node = Some t /\ shaped t rows c w)).

Lemma decode_sequence_safe node start increment rows : 0 <= rows -> dsafe (ducknng_quack_decode_sequence node start increment 0 rows) (fun c w => shaped node rows c (rows + w)).
Proof.
  intros Hr. unfold ducknng_quack_decode_sequence. destruct (sequence_range (logical_type_id node)) as [[low high]|] eqn:E; [|apply dsafe_fail]. cbv zeta.
  apply sequence_width in E. apply dsafe_if; intros _; [|apply dsafe_fail]. apply dsafe_ret. rewrite Z.add_0_r. apply shaped_fixed; [done|done|].
  unfold zlen. erewrite concat_length by (intros; apply le_bytes_length). rewrite length_fmap, length_seq. lia.
Qed.

Lemma children_safe node rows n : 0 <= rows <= UINT64_MAX -> forall i, dsafe (read_children (fun c => dec c rows 0 rows) node n i)
  (fun cs w => exists ws, w = foldr Z.add 0 ws /\ length cs = n /\ length ws = n /\
     forall j c w, cs !! j = Some c -> ws !! j = Some w -> exists child, child_at node (i + j) = Some child /\ shaped child rows c w).
Proof.
  intros Hr. induction n as [|n IH]; intros i; cbn [read_children]; [apply dsafe_ret; by exists []|].
  eapply dsafe_bind; [by apply Hdec|]. intros c w (t & Ht & Hc) Hw. eapply dsafe_bind; [apply IH|].
  intros cs x (ws & -> & Hl & Hlw & Hcs) Hx. apply dsafe_ret. exists (w :: ws). split; [cbn; lia|]. split; [cbn; lia|]. split; [cbn; lia|].
  intros [|j] c' w' Hj Hw'; cbn in Hj, Hw'.
  - injection Hj as ->. injection Hw' as ->. exists t. by rewrite Nat.add_0_r.
  - replace (i + S j)%nat with (S i + j)%nat by lia. by apply Hcs.
Qed.

Lemma fixed_slice_all width rows blob : 0 < width <= 16 -> 0 <= rows <= UINT64_MAX -> ducknng_size_mul width rows = Some (zlen blob) ->
  fixed_slice width 0 rows blob = Some blob.
Proof.
  intros Hw Hr H. pose proof (checked_mul_exact width rows _ ltac:(lia) ltac:(lia) H ltac:(sizes) ltac:(sizes)) as Hz. unfold fixed_slice.
  destruct (Z.ltb_spec 0 rows).
  - destruct (mul_exact width 0) as [-> _]; [sizes..|]. rewrite Z.mul_0_r, H, Z.sub_0_r, Z.ltb_irrefl.
    destruct (Z.ltb_spec (zlen blob) 0); [pose proof (zlen_nonneg blob); lia|]. cbn [orb]. f_equal. apply ztake_all.
  - f_equal. destruct blob; [done|]. rewrite zlen_cons in Hz. pose proof (zlen_nonneg blob). nia.
Qed.

Lemma idx_mul_safe a b msg : 0 <= a -> 0 <= b -> zsafe (ducknng_quack_idx_mul a b msg) (fun r => 0 <= r <= UINT64_MAX /\ r = a * b).
Proof.
  intros Ha Hb. unfold ducknng_quack_idx_mul. destruct (ducknng_u64_mul a b) as [r|] eqn:E; [|apply dsafe_fail]. apply zsafe_ret.
  unfold ducknng_u64_mul in E. destruct (Z.eqb_spec a 0) as [->|Hn]; cbn [negb andb] in E; [by injection E as <-|].
  destruct (Z.ltb_spec (UINT64_MAX / a) b) as [|Hd]; [done|]. injection E as <-. pose proof (Z.mul_div_le UINT64_MAX a ltac:(lia)).
  rewrite u64_small by nia. nia.
Qed.

Lemma check_limit_safe n : zsafe (ducknng_quack_check_materialized_values n false) (fun _ => True).
Proof.
  intros r Hs Ho Hb. unfold ducknng_quack_check_materialized_values. cases_goal; cbn [qx_fail r_data r_len r_off r_status r_materialized_values];
    (repeat (split; [done || lia|])); try done. lia.
Qed.

Lemma charge_safe n : 0 <= n -> dsafe (ducknng_quack_check_materialized_values n true) (fun _ w => w = n).
Proof.
  intros Hn r Hs Ho Hb. unfold ducknng_quack_check_materialized_values.
  destruct (Z.ltb_spec DUCKNNG_QUACK_MAX_MATERIALIZED_VALUES (r_materialized_values r)); cbn [orb qx_fail]; [by repeat (split; [done || lia|])|].
  destruct (Z.ltb_spec (DUCKNNG_QUACK_MAX_MATERIALIZED_VALUES - r_materialized_values r) n); cbn [r_data r_len r_off r_status r_materialized_values];
    (repeat (split; [done || lia|])); [done|lia].
Qed.
Lemma compressed_safe node count sel rows depth : 0 <= count <= UINT64_MAX -> 0 <= rows ->
  (forall t, ducknng_quack_node_to_duckdb creates nesting_levels (Some node) depth <> Err t \/ t <> None) ->
  from_option (fun s => selects s count rows) (0 < count) sel ->
  dsafe (ducknng_quack_decode_compressed_copy creates dec node count sel 0 rows depth) (fun c w => shaped node rows c (rows + w)).
Proof.
  intros Hc Hr Ht Hs. unfold ducknng_quack_decode_compressed_copy. eapply dsafe_step; [apply check_limit_safe|]. intros _ _.
  destruct (ducknng_quack_node_to_duckdb creates nesting_levels (Some node) depth) as [t|e].
  - eapply dsafe_bind; [by apply Hdec|]. intros source w (t' & [= <-] & Hsrc) Hw. cbv zeta. apply dsafe_if; intros E; [|apply dsafe_fail].
    apply dsafe_ret. rewrite Z.add_0_r. eapply shaped_copy; [..|exact Hsrc].
    + unfold zlen. rewrite length_fmap, length_seq. lia.
    + apply Forall_fmap, Forall_forall. intros i Hi. rewrite list_elem_of_In, in_seq in Hi. cbn. destruct sel as [s|]; [|done].
      apply Hs. lia.
  - intros r Hst Ho Hb. repeat (split; [done || lia|]). destruct (Ht e); done.
Qed.

Lemma decode_body_safe node rows validity : 0 <= rows <= UINT64_MAX ->
  dsafe (decode_body dec node rows 0 rows validity) (fun c w => shaped node rows c (rows + w)).
Proof.
  intros Hr. pose proof (slice_ok validity rows ltac:(lia)) as Hv. unfold decode_body. cbv zeta. apply dsafe_if; intros T1; [|apply dsafe_if; intros T2; [|apply dsafe_if; intros T3; [|apply dsafe_if; intros T4]]].
  - do 3 dsafe_step_tac; [apply dsafe_fail|]. eapply dsafe_step; [apply zsafe_repeat, zsafe_blob|]. intros items [Hi _]. dsafe_step_tac. apply dsafe_ret. rewrite Z.add_0_r.
    apply shaped_strings. unfold string_cells, zlen. rewrite length_fmap, length_seq. lia.
  - do 3 dsafe_step_tac; [apply dsafe_fail|]. match goal with E : orb _ _ = false |- _ => apply orb_false_iff in E as [E%negb_false_iff%Z.eqb_eq _] end.
    eapply dsafe_bind; [by apply children_safe|]. intros cs w (ws & -> & Hl & Hlw & Hcs) Hw. dsafe_step_tac.
    apply dsafe_ret. rewrite Z.add_0_r. apply shaped_struct; [done|unfold zlen; lia|lia|]. exact Hcs.
  - dsafe_step_tac; [apply dsafe_fail|]. do 5 dsafe_step_tac; [apply dsafe_fail|]. match goal with E : negb (?n =? rows) = false |- _ => apply negb_false_iff, Z.eqb_eq in E; subst n end.
    eapply dsafe_step; [apply check_limit_safe|]. intros _ _. eapply dsafe_step; [apply zsafe_repeat, zsafe_entry; lia|]. intros entries [Hl He]. dsafe_step_tac.
    eapply dsafe_bind; [apply Hdec; lia|]. intros child w (t & Ht & Hc) Hw. dsafe_step_tac. apply dsafe_ret. rewrite Z.add_0_r.
    assert (ztake rows (zdrop 0 entries) = entries) as ->.
    { change (zdrop 0 entries) with entries. replace rows with (zlen entries) by (unfold zlen; lia). apply ztake_all. }
    eapply shaped_list; [done|unfold zlen; lia|exact He|exact Ht|exact Hc].
  - dsafe_step_tac; [apply dsafe_fail|]. do 3 dsafe_step_tac; [apply dsafe_fail|]. match goal with E : negb (?n =? array_size node) = false |- _ => apply negb_false_iff, Z.eqb_eq in E; subst n end.
    dsafe_step_tac. eapply dsafe_step; [apply idx_mul_safe; lia|]. intros child_rows [Hcr ->].
    eapply dsafe_bind; [by apply Hdec|]. intros child w (t & Ht & Hc) Hw. dsafe_step_tac. apply dsafe_ret. rewrite Z.add_0_r. by eapply shaped_array.
  - do 3 dsafe_step_tac; [apply dsafe_fail|]. match goal with E : orb _ _ = false |- _ => apply orb_false_iff in E as [W%Z.eqb_neq E%negb_false_iff%bool_decide_eq_true_1] end.
    pose proof (width_small node). rewrite fixed_slice_all by (done || lia). dsafe_step_tac. apply dsafe_ret. rewrite Z.add_0_r.
    apply shaped_fixed; [done|lia|]. apply checked_mul_exact; [lia|lia|done|sizes|sizes].
Qed.

Lemma decode_encoded_safe node rows depth vector_type : 0 <= rows <= UINT64_MAX ->
  (forall t, ducknng_quack_node_to_duckdb creates nesting_levels (Some node) depth <> Err t \/ t <> None) ->
  dsafe (decode_encoded creates dec node rows 0 rows depth vector_type) (fun c w => shaped node rows c (rows + w)).
Proof.
  intros Hr Ht. unfold decode_encoded. apply dsafe_if; intros _; [apply dsafe_fail|]. apply dsafe_if; intros _; [|apply dsafe_if; intros _; [|apply dsafe_if; intros _]].
  - apply compressed_safe; [sizes|lia|done|done].
  - eapply dsafe_step; [apply zsafe_dictionary|]. intros [sel count] [Hc Hs]. cbn [fst snd] in *. apply compressed_safe; [done|lia|done|exact Hs].
  - eapply dsafe_step; [apply zsafe_sequence|]. intros [start increment] _. cbv beta iota. dsafe_step_tac. apply decode_sequence_safe. lia.
  - eapply dsafe_step; [apply zsafe_prologue|]. intros validity _. eapply dsafe_step; [apply zsafe_validity|]. intros _ _. by apply decode_body_safe.
Qed.
End decode_safe.

(** ** Any vector *)

Lemma members_text f node n : (forall c, f c <> Err None) -> forall i, convert_members f node n i <> Err None.
Proof.
  intros Hf. induction n as [|n IH]; intros i; cbn [convert_members]; [done|]. specialize (Hf (child_at node i)). specialize (IH (S i)).
  destruct (f (child_at node i)) as [t|e]; cbn [res_bind]; [|intros [= ->]; done]. destruct (convert_members f node n (S i)) as [ts|e]; cbn [res_bind]; [done|intros [= ->]; done].
Qed.

Lemma created_text creates text t : created creates text t <> Err None.
Proof. unfold created. by destruct (creates t). Qed.

Lemma bind_text {A C} (m : typed A) (f : A -> typed C) : m <> Err None -> (forall a, f a <> Err None) -> res_bind m f <> Err None.
Proof. intros Hm Hf. destruct m as [a|e]; cbn [res_bind]; [apply Hf|]. intros [= ->]. done. Qed.

(** The conversion to DuckDB never runs out of levels. *)
Lemma to_duckdb_text creates n : forall node depth, 65 <= depth + Z.of_nat n -> ducknng_quack_node_to_duckdb creates n node depth <> Err None.
Proof.
  induction n as [|n IH]; intros [node|] depth Hd; cbn [ducknng_quack_node_to_duckdb]; try done; unfold DUCKNNG_QUACK_MAX_NESTING.
  - destruct (Z.ltb_spec 64 depth); [done|lia].
  - destruct (64 <? depth); [done|]. cbv zeta. repeat match goal with |- context [if ?b then _ else _] => lazymatch b with context [if _ then _ else _] => fail | _ => destruct b end end;
    repeat first [apply created_text | done | apply bind_text; [|intros ?] | apply IH; lia | apply members_text; intros ?
      | progress (unfold ducknng_quack_meta_to_duckdb_type; cbv zeta)
      | match goal with |- context [match ?x with _ => _ end] => destruct x end ].
Qed.

Lemma decode_vector_safe creates n : forall depth node rows, 0 <= depth -> 65 <= depth + Z.of_nat n -> 0 <= rows <= UINT64_MAX ->
  dsafe (ducknng_quack_decode_vector_into creates n node rows 0 rows depth) (fun c w => exists t, node = Some t /\ shaped t rows c w).
Proof.
  induction n as [|n IH]; intros depth [node|] rows Hd Hn Hr; cbn [ducknng_quack_decode_vector_into]; try apply dsafe_fail;
    (apply dsafe_if; intros T; [apply dsafe_fail|]); apply Z.ltb_ge in T; unfold DUCKNNG_QUACK_MAX_NESTING in T; [lia|].
  apply dsafe_if; intros _; [apply dsafe_fail|]. eapply dsafe_bind; [apply charge_safe; lia|]. intros _ w -> _.
  eapply dsafe_step; [apply zsafe_vector_type|]. intros vector_type _. eapply dsafe_weaken; [apply decode_encoded_safe; [|done|]|].
  - intros child count Hc. apply IH; lia.
  - intros t. destruct t; [by right|]. left. apply to_duckdb_text. unfold nesting_levels. lia.
  - intros c w Hc. by exists node.
Qed.

(** Values of a type. *)
Inductive typed_value : schema -> value -> Prop :=
| typed_null node : typed_value node Null
| typed_raw node b : zlen b = ducknng_qk_type_fixed_width node -> typed_value node (Raw b)
| typed_text node b : typed_value node (Text b)
| typed_row node l : zlen l = nchildren node ->
    (forall i x, l !! i = Some x -> exists child, child_at node i = Some child /\ typed_value child x) -> typed_value node (Row l)
| typed_items node child l : child_at node 0 = Some child -> (forall i x, l !! i = Some x -> typed_value child x) -> typed_value node (Items l).

(** Every row of a decoded column is a value of its type: no cell, list entry,
    member or dictionary code lies outside what was read. *)
Lemma shaped_typed : forall node rows c w, shaped node rows c w -> forall i, (i < Z.to_nat rows)%nat -> typed_value node (column_value c i).
Proof.
  fix IH 5. intros node rows c w H i Hi.
  destruct H as [node rows valid data Hv Hw Hz|node rows cells Hz|node rows valid cs ws Hv Hz Hl Hc|node rows valid entries size ct child w Hv Hz He Hct Hc
    |node rows valid ct child w Hv Hct Hc|node rows source count selection w Hz Hs Hc]; cbn [column_value].
  - destruct (row_valid valid i); [|constructor]. constructor. rewrite zlen_ztake; [done|]. rewrite zlen_zdrop by nia. nia.
  - destruct (cells !! i) as [[s|]|]; constructor.
  - destruct (row_valid valid i); [|constructor]. constructor; [unfold zlen in *; by rewrite length_map|].
    intros j x Hj. change (map ?f cs) with (f <$> cs) in Hj. rewrite list_lookup_fmap in Hj. destruct (cs !! j) as [c|] eqn:E; [|done]. injection Hj as <-.
    destruct (lookup_lt_is_Some_2 ws j) as [w Hw]; [rewrite Hl; by eapply lookup_lt_Some|].
    destruct (Hc j c w E Hw) as (ch & Hch & Hs). exists ch. split; [done|]. by apply (IH ch rows c w Hs).
  - destruct (row_valid valid i); [|constructor]. destruct (entries !! i) as [[off len]|] eqn:E; [|constructor].
    rewrite Forall_lookup in He. specialize (He i _ E). cbn [fst snd] in He. apply (typed_items node ct); [done|]. intros j x Hj.
    change (map ?f ?l) with (f <$> l) in Hj. rewrite list_lookup_fmap in Hj. destruct (seq 0 (Z.to_nat len) !! j) as [k|] eqn:Ek; [|done]. injection Hj as <-.
    apply lookup_seq in Ek as [-> Hk]. apply (IH ct size child w Hc). lia.
  - destruct (row_valid valid i); [|constructor]. apply (typed_items node ct); [done|]. intros j x Hj.
    change (map ?f ?l) with (f <$> l) in Hj. rewrite list_lookup_fmap in Hj. destruct (seq 0 (Z.to_nat (array_size node)) !! j) as [k|] eqn:Ek; [|done]. injection Hj as <-.
    apply lookup_seq in Ek as [-> Hk]. apply (IH ct (rows * array_size node) child w Hc). nia.
  - destruct (selection !! i) as [k|] eqn:E; [|constructor]. rewrite Forall_lookup in Hs. specialize (Hs i k E). apply (IH node count source w Hc). lia.
Qed.


(** Two rows of a dictionary-compressed INTEGER column. *)
Definition demo_dictionary : bytes :=
  u16_image 90 ++ [3] ++ u16_image 91 ++ counted_image [0; 0; 0; 0; 0; 0; 0; 0] ++ u16_image 92 ++ [1] ++
  u16_image 100 ++ [0] ++ u16_image 102 ++ counted_image [7; 0; 0; 0] ++ END_image.


(** ** Skipping and decoding *)

Lemma oblivious_lift {A} msg (m : qk ducknng_qk_reader A) : still m -> oblivious (ducknng_quack_reader_result msg m).
Proof. intros H r k. unfold ducknng_quack_reader_result. rewrite H. by destruct (m r) as [r' [a|]]. Qed.
Lemma oblivious_bind {A C} (m : reading A) (f : A -> reading C) : oblivious m -> (forall a, oblivious (f a)) -> oblivious (qx_bind m f).
Proof. intros Hm Hf r k. unfold qx_bind. rewrite Hm. destruct (m r) as [r1 [a|e]]; [|done]. apply Hf. Qed.
Lemma oblivious_ret {A} (a : A) : oblivious (@qx_ret ducknng_qk_reader A a).
Proof. done. Qed.
Lemma oblivious_fail {A} text : oblivious (@qx_fail ducknng_qk_reader A text).
Proof. done. Qed.
Lemma oblivious_const {S A} (o : result S A) : oblivious (fun r => (r, o)).
Proof. done. Qed.

#[local] Hint Resolve oblivious_ret oblivious_fail oblivious_const : quack.
#[local] Hint Extern 2 (oblivious (ducknng_quack_reader_result _ _)) => (apply oblivious_lift; auto with quack) : quack.

Ltac oblivious_steps :=
  repeat first [progress eauto with quack | apply oblivious_bind; [|intros ?]
    | match goal with
      | |- oblivious (if ?b then _ else _) => destruct b
      | |- oblivious (let '(_, _) := ?p in _) => destruct p
      | |- oblivious (match ?x with _ => _ end) => destruct x
      end].

Lemma oblivious_u16 : oblivious ducknng_quack_read_u16le.
Proof. unfold ducknng_quack_read_u16le. oblivious_steps. Qed.
Lemma oblivious_uleb : oblivious ducknng_quack_read_uleb128.
Proof. unfold ducknng_quack_read_uleb128. oblivious_steps. Qed.
Lemma oblivious_sleb : oblivious ducknng_quack_read_sleb128.
Proof. unfold ducknng_quack_read_sleb128. oblivious_steps. Qed.
Lemma oblivious_blob : oblivious ducknng_quack_read_blob_view.
Proof. unfold ducknng_quack_read_blob_view. oblivious_steps. Qed.
Lemma oblivious_bool msg : oblivious (ducknng_quack_read_boolean msg).
Proof. unfold ducknng_quack_read_boolean. oblivious_steps. Qed.
Lemma oblivious_peek : oblivious ducknng_quack_peek_u16le.
Proof. unfold ducknng_quack_peek_u16le. oblivious_steps. Qed.
#[local] Hint Resolve oblivious_u16 oblivious_uleb oblivious_sleb oblivious_blob oblivious_bool oblivious_peek : quack.
Lemma oblivious_expect field : oblivious (ducknng_quack_read_expect_field field).
Proof. unfold ducknng_quack_read_expect_field. oblivious_steps. Qed.
#[local] Hint Resolve oblivious_expect : quack.
Lemma oblivious_vector_type : oblivious ducknng_quack_read_vector_type.
Proof. unfold ducknng_quack_read_vector_type. oblivious_steps. Qed.
Lemma oblivious_prologue : oblivious ducknng_quack_read_flat_vector_prologue.
Proof. unfold ducknng_quack_read_flat_vector_prologue. oblivious_steps. Qed.
Lemma oblivious_dictionary rows : oblivious (ducknng_quack_read_dictionary_header rows).
Proof. unfold ducknng_quack_read_dictionary_header. oblivious_steps. Qed.
Lemma oblivious_entry size : oblivious (read_entry size).
Proof. unfold read_entry. oblivious_steps. Qed.
Lemma oblivious_sequence : oblivious read_sequence.
Proof. unfold read_sequence. oblivious_steps. Qed.
Lemma oblivious_repeat {A} n (m : reading A) : oblivious m -> oblivious (repeat_read n m).
Proof. intros Hm. induction n as [|n IH]; cbn [repeat_read]; oblivious_steps. Qed.
Lemma oblivious_validity validity rows : oblivious (check_validity_size validity rows).
Proof. unfold check_validity_size. oblivious_steps. Qed.

Definition healthy (r : ducknng_qk_reader) : Prop :=
  r_status r = DUCKNNG_QK_OK /\ 0 <= r_off r <= r_len r /\ all_bytes (default [] (r_data r)).

Section tracking.
Context (creates : logical_type -> bool).

(** What only a decoder refuses: too many values, a sequence that leaves its
    type, a type DuckDB does not create. *)
Definition late (e : option bytes) : Prop :=
  e = Some (lit "ducknng: quack materialized value count exceeds supported limit") \/
  e = Some (lit "ducknng: quack sequence value is out of range for its logical type") \/
  exists node depth, ducknng_quack_node_to_duckdb creates nesting_levels node depth = Err e.

(** The skipper [s] ends where the decoder [d] ends, and refuses what it
    refuses, late refusals apart. *)
Definition tracks {A C} (d : reading A) (s : reading C) (R : A -> C -> Prop) : Prop :=
  forall r k, healthy r ->
    match d r with
    | (r', Ok a) => healthy r' /\ exists c, s (recount k r) = (recount k r', Ok c) /\ R a c
    | (_, Err e) => late e \/ exists r' e', s (recount k r) = (r', Err e')
    end.

Lemma tracks_bind {A B C D} (m : reading A) (n : reading B) (f : A -> reading C) (g : B -> reading D) P Q :
  tracks m n P -> (forall a b, P a b -> tracks (f a) (g b) Q) -> tracks (qx_bind m f) (qx_bind n g) Q.
Proof.
  intros Hm Hf r k Hr. specialize (Hm r k Hr). unfold qx_bind. destruct (m r) as [r1 [a|e]].
  - destruct Hm as (H1 & b & -> & Hp). exact (Hf a b Hp r1 k H1).
  - destruct Hm as [Hl|(r' & e' & ->)]; [by left|]. right. by eexists _, _.
Qed.

(** The same reader on both sides. *)
Lemma tracks_same {A} (m : reading A) P : zsafe m P -> oblivious m -> tracks m m (fun a b => a = b /\ P a).
Proof.
  intros Hs Ho r k (H1 & H2 & H3). specialize (Hs r H1 H2 H3). specialize (Ho r k). destruct (m r) as [r' [a|e]]; cbn [fst snd] in Ho.
  - destruct Hs as (E1 & E2 & E3 & _ & _ & E4 & E5 & _). split; [|by exists a]. split; [done|]. rewrite E1, E2. split; [lia|done].
  - right. by eexists _, _.
Qed.

Lemma tracks_step {A C D} (m : reading A) (f : A -> reading C) (g : A -> reading D) P Q :
  zsafe m P -> oblivious m -> (forall a, P a -> tracks (f a) (g a) Q) -> tracks (qx_bind m f) (qx_bind m g) Q.
Proof. intros Hs Ho Hf. eapply tracks_bind; [by apply tracks_same|]. intros a b [<- HP]. by apply Hf. Qed.

Lemma tracks_ret {A C} (a : A) (c : C) (R : A -> C -> Prop) : R a c -> tracks (qx_ret a) (qx_ret c) R.
Proof. intros HR r k Hr. split; [done|]. by exists c. Qed.
Lemma tracks_ret_l {A C D} (a : A) (f : A -> reading C) (s : reading D) R : tracks (f a) s R -> tracks (qx_bind (qx_ret a) f) s R.
Proof. done. Qed.
Lemma tracks_fail {A C} x y (R : A -> C -> Prop) : tracks (qx_fail x) (qx_fail y) R.
Proof. intros r k Hr. right. by eexists _, _. Qed.
Lemma tracks_fail_after {A C D} x y (m : reading A) (R : C -> D -> Prop) : tracks (qx_fail x) (qx_bind m (fun _ => qx_fail y)) R.
Proof. intros r k Hr. right. unfold qx_bind. destruct (m (recount k r)) as [r' [a|e]]; by eexists _, _. Qed.
Lemma tracks_late {A C} e (s : reading C) (R : A -> C -> Prop) : late e -> tracks (fun r => (r, Err e)) s R.
Proof. intros Hl r k Hr. by left. Qed.
Lemma tracks_if {A C} (b : bool) (m n : reading A) (s t : reading C) R :
  (b = true -> tracks m s R) -> (b = false -> tracks n t R) -> tracks (if b then m else n) (if b then s else t) R.
Proof. destruct b; auto. Qed.
Lemma tracks_none {A C} (R : A -> C -> Prop) : tracks (fun r => (r, Err None)) (fun r => (r, Err None)) R.
Proof. intros r k Hr. right. by eexists _, _. Qed.

Lemma tracks_limit {A C} n commit (f : unit -> reading A) (s : reading C) R :
  tracks (f tt) s R -> tracks (qx_bind (ducknng_quack_check_materialized_values n commit) f) s R.
Proof.
  intros Hf r k Hr. unfold qx_bind, ducknng_quack_check_materialized_values. destruct (orb _ _) eqn:E; [left; by left|].
  exact (Hf (mk_reader _ _ _ _ _) k Hr).
Qed.

Lemma tracks_weaken {A C} (d : reading A) (s : reading C) (P Q : A -> C -> Prop) : tracks d s P -> (forall a c, P a c -> Q a c) -> tracks d s Q.
Proof.
  intros H HPQ r k Hr. specialize (H r k Hr). destruct (d r) as [r' [a|e]]; [|done]. destruct H as (? & c & ? & ?). split; [done|]. exists c. auto.
Qed.
End tracking.

Definition any {A C} (_ : A) (_ : C) : Prop := True.

#[local] Hint Resolve oblivious_vector_type oblivious_prologue oblivious_dictionary oblivious_entry oblivious_sequence oblivious_validity : quack.
#[local] Hint Resolve zsafe_vector_type zsafe_prologue zsafe_dictionary zsafe_sequence zsafe_validity : quack.

(** One step that both sides take. *)
Ltac track_step :=
  first [ eapply tracks_step; [solve [eauto with quack]|solve [eauto with quack]|let H := fresh "H" in intros ? H; cbv beta in H]
        | apply tracks_if; [intros ?; apply tracks_fail|let H := fresh "T" in intros H] ].

Section track_vectors.
Context (creates : logical_type -> bool) (dec : option schema -> Z -> Z -> Z -> reading column) (skp : option schema -> Z -> reading unit).
Context (IHdec : forall node rows, 0 <= rows <= UINT64_MAX -> tracks creates (dec node rows 0 rows) (skp node rows) any).

Lemma track_end {A} (a : A) : tracks creates (try! _ := read_end in qx_ret a) read_end any.
Proof.
  intros r k Hr. pose proof (tracks_same creates read_end (fun _ => True) (zsafe_expect _) (oblivious_expect _) r k Hr) as H. unfold qx_bind.
  destruct (read_end r) as [r1 [[]|e]]; [|done]. destruct H as (H1 & c & H2 & _). split; [done|]. by exists c.
Qed.

Lemma track_strings n : tracks creates (repeat_read n ducknng_quack_read_blob_view) (repeat_skip n ducknng_quack_skip_string) any.
Proof.
  assert (tracks creates (repeat_read n ducknng_quack_read_blob_view) (repeat_read n ducknng_quack_skip_string) any) as H.
  { induction n as [|n IH]; cbn [repeat_read]; [by apply tracks_ret|]. eapply (tracks_bind _ _ _ _ _ any).
    - intros r k Hr. pose proof (tracks_same creates ducknng_quack_read_blob_view _ zsafe_blob oblivious_blob r k Hr) as H.
      unfold ducknng_quack_skip_string, qx_bind. destruct (ducknng_quack_read_blob_view r) as [r1 [b|e]].
      + destruct H as (H1 & c & -> & _). split; [done|]. by exists tt.
      + destruct H as [H|(r' & e' & ->)]; [by left|]. right. by eexists _, _.
    - intros a b _. eapply tracks_bind; [exact IH|]. intros. by apply tracks_ret. }
  intros r k Hr. specialize (H r k Hr). unfold repeat_skip, qx_bind. destruct (repeat_read n ducknng_quack_read_blob_view r) as [r1 [l|e]].
  - destruct H as (H1 & c & -> & _). split; [done|]. by exists tt.
  - destruct H as [H|(r' & e' & ->)]; [by left|]. right. by eexists _, _.
Qed.

Lemma track_children node rows n : 0 <= rows <= UINT64_MAX -> forall i,
  tracks creates (read_children (fun c => dec c rows 0 rows) node n i) (read_children (fun c => skp c rows) node n i) any.
Proof.
  intros Hr. induction n as [|n IH]; intros i; cbn [read_children]; [by apply tracks_ret|].
  eapply tracks_bind; [by apply IHdec|]. intros a b _. eapply tracks_bind; [apply IH|]. intros. by apply tracks_ret.
Qed.

Lemma track_body node rows validity : 0 <= rows <= UINT64_MAX -> tracks creates (decode_body dec node rows 0 rows validity) (skip_body skp node rows) any.
Proof.
  intros Hr. unfold decode_body, skip_body. cbv zeta.
  apply tracks_if; intros _; [|apply tracks_if; intros _; [|apply tracks_if; intros _; [|apply tracks_if; intros _]]].
  - do 3 track_step. eapply tracks_bind; [apply track_strings|]. intros items _ _. apply track_end.
  - do 3 track_step. eapply tracks_bind; [by apply track_children|]. intros cs us _. apply track_end.
  - do 6 track_step. apply tracks_limit. eapply tracks_step; [apply zsafe_repeat, zsafe_entry; lia|apply oblivious_repeat, oblivious_entry|].
    intros entries _. track_step. eapply tracks_bind; [by apply IHdec|]. intros child _ _. apply track_end.
  - do 3 track_step. match goal with |- context [negb (?x =? array_size node)] => destruct (negb (x =? array_size node)) eqn:E end.
    + apply tracks_fail_after.
    + track_step. eapply tracks_step; [apply idx_mul_safe; apply negb_false_iff, Z.eqb_eq in E; lia|unfold ducknng_quack_idx_mul; oblivious_steps|].
      intros child_rows [Hc _]. eapply tracks_bind; [by apply IHdec|]. intros child _ _. apply track_end.
  - do 3 track_step. apply orb_false_iff in T as [W%Z.eqb_neq E%negb_false_iff%bool_decide_eq_true_1].
    pose proof (width_small node). rewrite fixed_slice_all by (done || lia). apply track_end.
Qed.

Lemma track_compressed node count sel rows depth : 0 <= count <= UINT64_MAX -> from_option (fun s => selects s count rows) (0 < count) sel ->
  tracks creates (ducknng_quack_decode_compressed_copy creates dec node count sel 0 rows depth) (skp (Some node) count) any.
Proof.
  intros Hc Hs. unfold ducknng_quack_decode_compressed_copy. apply tracks_limit.
  destruct (ducknng_quack_node_to_duckdb creates nesting_levels (Some node) depth) as [t|e] eqn:E.
  - intros r k Hr. pose proof (IHdec (Some node) count Hc r k Hr) as H. unfold qx_bind. destruct (dec (Some node) count 0 count r) as [r1 [c|e]]; [|done].
    cbv zeta. match goal with |- context [forallb ?f ?l] => assert (forallb f l = true) as -> end; [|by destruct H as (? & ? & ? & _); split; [|eexists]].
    apply forallb_forall. intros s Hin. apply list_elem_of_In, list_elem_of_fmap in Hin as (i & -> & Hi). rewrite list_elem_of_In, in_seq in Hi.
    apply Z.ltb_lt. destruct sel as [s|]; [|done]. rewrite Z.add_0_l. apply Hs. lia.
  - apply tracks_late. right. right. by eexists _, _.
Qed.

Lemma sequence_range_integer node : ducknng_qk_type_is_sequence_integer node = bool_decide (sequence_range (logical_type_id node) <> None).
Proof.
  unfold ducknng_qk_type_is_sequence_integer, sequence_range. generalize (logical_type_id node) as x. intros x.
  repeat match goal with |- context [x =? ?v] => destruct (Z.eqb_spec x v); [subst x; vm_compute; done|] end.
  rewrite bool_decide_eq_false_2 by (intros H; done). unfold id_in. cbn [existsb].
  repeat match goal with |- context [x =? ?v] => destruct (Z.eqb_spec x v); [done|] end. done.
Qed.

Lemma track_encoded node rows depth vector_type : 0 <= rows <= UINT64_MAX ->
  tracks creates (decode_encoded creates dec node rows 0 rows depth vector_type) (skip_encoded skp node rows vector_type) any.
Proof.
  intros Hr. unfold decode_encoded, skip_encoded. track_step. apply tracks_if; intros _; [|apply tracks_if; intros _; [|apply tracks_if; intros _]].
  - apply track_compressed; [sizes|done].
  - track_step. destruct a as [sel count]. cbn [fst snd] in *. destruct H. by apply track_compressed.
  - rewrite sequence_range_integer. unfold ducknng_quack_decode_sequence. destruct (sequence_range (logical_type_id node)) as [[low high]|] eqn:E.
    + rewrite bool_decide_eq_true_2 by done. cbn [negb]. track_step. destruct a as [start increment]. cbv beta iota zeta.
      intros r k Hh. pose proof (tracks_same creates read_end (fun _ => True) (zsafe_expect _) (oblivious_expect _) r k Hh) as H'. unfold qx_bind.
      destruct (read_end r) as [r1 [[]|e]]; [|done]. destruct H' as (H1 & c & H2 & _). destruct (forallb _ _); [split; [done|by exists c]|]. left. right. by left.
    + rewrite bool_decide_eq_false_2 by auto. cbn [negb]. intros r k Hh. unfold qx_bind at 1.
      match goal with |- match ?x with _ => _ end => destruct x as [r1 [a|e]] eqn:Ed end; [|right; by eexists _, _].
      exfalso. destruct (read_sequence r) as [r2 [[start increment]|e]]; [|done]. unfold qx_bind in Ed. by destruct (read_end r2) as [r3 [[]|e]].
  - track_step. track_step. by apply track_body.
Qed.
End track_vectors.

Lemma track_vector creates n : forall depth node rows, 0 <= rows <= UINT64_MAX ->
  tracks creates (ducknng_quack_decode_vector_into creates n node rows 0 rows depth) (ducknng_quack_skip_vector_node n node rows depth) any.
Proof.
  induction n as [|n IH]; intros depth [node|] rows Hr; cbn [ducknng_quack_decode_vector_into ducknng_quack_skip_vector_node]; try apply tracks_fail;
    (apply tracks_if; intros _; [apply tracks_fail|]); rewrite Z.sub_0_r, Z.ltb_irrefl; (destruct (Z.ltb_spec rows 0); [lia|]); cbn [orb]; [apply tracks_none|].
  apply tracks_limit. track_step. apply track_encoded; [|done]. intros child count Hc. by apply IH.
Qed.
