(* ===== verification/QuackBatch.v ===== *)
(** Batches of the quack format: [src/src/ducknng_quack.c].

    A batch is the schema of a result and a list of data chunks.  The encoder
    measures a batch and then writes it into a buffer of that size; the client
    binds the columns, validates the whole payload and scans it chunk by chunk;
    the server appends an uploaded batch to a table.

    DuckDB is seen through its C API: a result has column types and names, a
    chunk its size and its columns.  [malloc] and [nng_msg_alloc] give a buffer
    of the size asked for or fail, [vector_size] is [duckdb_vector_size()],
    [creates] tells which types DuckDB creates and [accepts] which chunks an
    appender takes. *)

From S2P Require Import Prelude Checked QuackCore QuackTypes QuackVectors QuackChecks.

Definition DUCKNNG_QUACK_OUTER_RESULT_TYPES : Z := 1.
Definition DUCKNNG_QUACK_OUTER_RESULT_NAMES : Z := 2.
Definition DUCKNNG_QUACK_OUTER_RESULTS : Z := 4.
Definition DUCKNNG_QUACK_CHUNK_WRAPPER : Z := 300.
Definition DUCKNNG_QUACK_CHUNK_ROWS : Z := 100.
Definition DUCKNNG_QUACK_CHUNK_TYPES : Z := 101.
Definition DUCKNNG_QUACK_CHUNK_COLUMNS : Z := 102.

(** A [duckdb_result] and a [duckdb_data_chunk]. *)
Record duckdb_result := mk_result { column_types : list logical_type; column_names : list (option bytes) }.
Record data_chunk := mk_chunk { chunk_size : Z; chunk_columns : list (logical_type * vector) }.

Definition of_typed {S A} (t : typed A) : qx S A := fun s => (s, t).

(** ** Encoding *)

Definition type_of_column (t : option logical_type) : typed schema :=
  match t with
  | Some t => ducknng_quack_node_from_duckdb t 0
  | None => type_error "ducknng: missing DuckDB logical type for quack encoding"
  end.

(** The types of the columns of a chunk, from [col] on. *)
Fixpoint chunk_nodes (chunk : data_chunk) (n col : nat) : typed (list schema) :=
  match n with
  | O => Ok []
  | S n =>
    let! node := type_of_column (fst <$> chunk_columns chunk !! col) in
    let! nodes := chunk_nodes chunk n (S col) in
    Ok (node :: nodes)
  end.

Fixpoint write_types (nodes : list schema) : writing unit :=
  match nodes with
  | [] => qx_ret tt
  | node :: nodes => try! _ := write_type node in write_types nodes
  end.

Fixpoint encode_columns (chunk : data_chunk) (nodes : list schema) (col : nat) : writing unit :=
  match nodes with
  | [] => qx_ret tt
  | node :: nodes =>
    try! _ := ducknng_quack_encode_vector nesting_levels (snd <$> chunk_columns chunk !! col) (Some node) (chunk_size chunk) 0 in
    encode_columns chunk nodes (S col)
  end.

Definition ducknng_quack_encode_one_chunk (chunk : data_chunk) (ncols : Z) : writing unit :=
  match (if 0 <? ncols then ducknng_size_mul 8 ncols else Some 0) with
  | None => qx_fail "ducknng: quack chunk schema allocation overflows supported size"
  | Some _ =>
    try! nodes := of_typed (chunk_nodes chunk (Z.to_nat ncols) O) in
    try! _ := ducknng_quack_write_byte 1 in
    try! _ := ducknng_quack_write_field_id DUCKNNG_QUACK_CHUNK_WRAPPER in
    try! _ := write_pair DUCKNNG_QUACK_CHUNK_ROWS (chunk_size chunk) in
    try! _ := write_pair DUCKNNG_QUACK_CHUNK_TYPES ncols in
    try! _ := write_types nodes in
    try! _ := write_pair DUCKNNG_QUACK_CHUNK_COLUMNS ncols in
    try! _ := encode_columns chunk nodes O in
    try! _ := ducknng_quack_write_field_end in
    ducknng_quack_write_field_end
  end.

(** The types and names of a result, written one column after the other. *)
Fixpoint write_result_types (types : list logical_type) : writing unit :=
  match types with
  | [] => qx_ret tt
  | t :: types =>
    try! node := of_typed (ducknng_quack_node_from_duckdb t 0) in
    try! _ := write_type node in
    write_result_types types
  end.

Fixpoint write_result_names (names : list (option bytes)) : writing unit :=
  match names with
  | [] => qx_ret tt
  | name :: names => try! _ := ducknng_quack_write_string name in write_result_names names
  end.

Fixpoint encode_chunks (chunks : list (option data_chunk)) (ncols : Z) : writing unit :=
  match chunks with
  | [] => qx_ret tt
  | Some chunk :: chunks => try! _ := ducknng_quack_encode_one_chunk chunk ncols in encode_chunks chunks ncols
  | None :: _ => qx_fail "ducknng: missing quack chunk while encoding"
  end.

Definition ducknng_quack_encode_result_payload_pass (result : duckdb_result) (chunks : list (option data_chunk))
    (include_schema : bool) : writing unit :=
  let ncols := zlen (column_types result) in
  if DUCKNNG_QUACK_MAX_STRUCT_MEMBERS <? ncols then qx_fail "ducknng: quack column count exceeds supported limit" else
  try! _ := qx_when include_schema (
    try! _ := write_pair DUCKNNG_QUACK_OUTER_RESULT_TYPES ncols in
    try! _ := write_result_types (column_types result) in
    try! _ := write_pair DUCKNNG_QUACK_OUTER_RESULT_NAMES ncols in
    write_result_names (column_names result)) in
  try! _ := qx_when (0 <? zlen chunks) (
    try! _ := write_pair DUCKNNG_QUACK_OUTER_RESULTS (zlen chunks) in
    encode_chunks chunks ncols) in
  ducknng_quack_write_field_end.

Section allocation.
Context (malloc nng_msg_alloc : Z -> option bytes).

Definition ducknng_quack_encode_result_payload (result : duckdb_result) (chunks : list (option data_chunk))
    (include_schema : bool) : typed bytes :=
  let pass := ducknng_quack_encode_result_payload_pass result chunks include_schema in
  match pass ducknng_qk_writer_init_measure with
  | (_, Err e) => Err e
  | (w, Ok _) =>
    let required := ducknng_qk_writer_size w in
    match malloc (if required =? 0 then 1 else required) with
    | None => type_error "ducknng: out of memory allocating measured quack payload"
    | Some buffer =>
      match pass (ducknng_qk_writer_init_fixed (Some buffer) required) with
      | (_, Err e) => Err e
      | (w, Ok _) => if negb (ducknng_qk_writer_size w =? required) then Err None else Ok (ztake required (default [] (w_data w)))
      end
    end
  end.

(** The payload behind [prefix_size] bytes of a new message. *)
Definition ducknng_quack_encode_result_message (result : duckdb_result) (chunks : list (option data_chunk))
    (include_schema : bool) (prefix_size : Z) : typed (bytes * Z) :=
  let pass := ducknng_quack_encode_result_payload_pass result chunks include_schema in
  match pass ducknng_qk_writer_init_measure with
  | (_, Err e) => Err e
  | (w, Ok _) =>
    let payload_len := ducknng_qk_writer_size w in
    match ducknng_size_add prefix_size payload_len with
    | None => type_error "ducknng: measured quack message size overflows supported size"
    | Some message_len =>
      match nng_msg_alloc message_len with
      | None => type_error "ducknng: out of memory allocating final quack message"
      | Some body =>
        match pass (ducknng_qk_writer_init_fixed (Some (zdrop prefix_size body)) payload_len) with
        | (_, Err e) => Err e
        | (w, Ok _) =>
          if negb (ducknng_qk_writer_size w =? payload_len) then Err None
          else Ok (ztake prefix_size body ++ default [] (w_data w), payload_len)
        end
      end
    end
  end.

(** ** Collecting chunks *)

(** The number of chunks an array was allocated for. *)
Definition ducknng_quack_alloc_chunk_array (max_chunks : Z) : typed Z :=
  let max_chunks := if max_chunks =? 0 then 1 else max_chunks in
  match ducknng_size_mul 8 max_chunks with
  | None => type_error "ducknng: quack chunk collection size overflows supported size"
  | Some size =>
    match malloc size with
    | None => type_error "ducknng: out of memory collecting quack chunks"
    | Some _ => Ok max_chunks
    end
  end.

(** The stream of a result is the list of chunks it still yields. *)
Definition ducknng_quack_collect_next_chunks (stream : list data_chunk) (max_chunks : Z) : typed (list data_chunk * list data_chunk) :=
  let! max_chunks := ducknng_quack_alloc_chunk_array max_chunks in
  Ok (ztake max_chunks stream, zdrop max_chunks stream).

(** A payload, or [None] when the stream was at its end. *)
Definition ducknng_result_next_chunks_to_quack_payload (result : duckdb_result) (stream : list data_chunk)
    (max_chunks : Z) (include_schema : bool) : list data_chunk * typed (option bytes) :=
  match ducknng_quack_collect_next_chunks stream max_chunks with
  | Err e => (stream, Err e)
  | Ok ([], rest) => (rest, Ok None)
  | Ok (chunks, rest) => (rest, let! payload := ducknng_quack_encode_result_payload result (Some <$> chunks) include_schema in Ok (Some payload))
  end.

Definition ducknng_result_next_chunks_to_quack_message (result : duckdb_result) (stream : list data_chunk)
    (max_chunks : Z) (include_schema : bool) (prefix_size : Z) : list data_chunk * typed (option (bytes * Z)) :=
  match ducknng_quack_collect_next_chunks stream max_chunks with
  | Err e => (stream, Err e)
  | Ok ([], rest) => (rest, Ok None)
  | Ok (chunks, rest) => (rest, let! message := ducknng_quack_encode_result_message result (Some <$> chunks) include_schema prefix_size in Ok (Some message))
  end.

(** The chunks of a materialized result from an index on; a chunk DuckDB does
    not give is passed over. *)
Definition ducknng_result_materialized_chunks_to_quack_payload (result : duckdb_result) (chunks : list (option data_chunk))
    (index max_chunks : Z) (include_schema : bool) : Z * typed (option bytes) :=
  if zlen chunks <=? index then (index, Ok None) else
  match ducknng_quack_alloc_chunk_array max_chunks with
  | Err e => (index, Err e)
  | Ok max_chunks =>
    let taken := ztake max_chunks (zdrop index chunks) in
    let index := index + zlen taken in
    match omap id taken with
    | [] => (index, Ok None)
    | given => (index, let! payload := ducknng_quack_encode_result_payload result (Some <$> given) include_schema in Ok (Some payload))
    end
  end.

Definition ducknng_result_next_chunk_to_quack_payload (result : duckdb_result) (stream : list data_chunk) : list data_chunk * typed (option bytes) :=
  ducknng_result_next_chunks_to_quack_payload result stream 1 true.
Definition ducknng_result_empty_quack_payload (result : duckdb_result) : typed bytes :=
  ducknng_quack_encode_result_payload result [] true.
Definition ducknng_result_empty_quack_message (result : duckdb_result) (prefix_size : Z) : typed (bytes * Z) :=
  ducknng_quack_encode_result_message result [] true prefix_size.
End allocation.

(** ** The schema of a payload *)

Definition name_column (name : bytes) (t : schema) : schema :=
  mk_schema (Some name) (logical_type_id t) (decimal_width t) (decimal_scale t) (array_size t) (enum_count t) (enum_labels t)
    (nchildren t) (children t) (child_names t).

Definition ducknng_quack_reader_parse_schema : reading (list schema) :=
  try! _ := ducknng_quack_read_expect_field DUCKNNG_QUACK_OUTER_RESULT_TYPES in
  try! ncols := ducknng_quack_read_uleb128 in
  if DUCKNNG_QUACK_MAX_STRUCT_MEMBERS <? ncols then qx_fail "ducknng: quack column count exceeds supported limit" else
  try! cols := repeat_read (Z.to_nat ncols) read_type in
  try! _ := ducknng_quack_read_expect_field DUCKNNG_QUACK_OUTER_RESULT_NAMES in
  try! count := ducknng_quack_read_uleb128 in
  if negb (count =? ncols) then qx_fail "ducknng: quack payload name/type count mismatch" else
  try! names := repeat_read (Z.to_nat ncols) ducknng_quack_read_string_dup in
  qx_ret (zip_with name_column names cols).

(** A reader at the start of a payload. *)
Definition payload_reader (payload : bytes) : ducknng_qk_reader := mk_reader (Some payload) (zlen payload) 0 0 DUCKNNG_QK_OK.

Definition ducknng_quack_payload_parse_schema (payload : bytes) : typed (list schema) :=
  if zlen payload =? 0 then type_error "ducknng: missing quack payload for schema parse" else
  snd (ducknng_quack_reader_parse_schema (payload_reader payload)).

Definition ducknng_quack_schema_has_nested (cols : list schema) : bool := existsb ducknng_qk_type_is_nested cols.

(** ** Chunks of a payload *)

Fixpoint check_chunk_types (cols : list schema) : reading unit :=
  match cols with
  | [] => qx_ret tt
  | col :: cols =>
    try! chunk_type := read_type in
    if ducknng_qk_type_equal col chunk_type then check_chunk_types cols
    else qx_fail "ducknng: quack chunk type does not match the result schema"
  end.

Definition ducknng_quack_validate_optional_chunk_types (cols : list schema) : reading unit :=
  try! field_id := ducknng_quack_peek_u16le in
  if negb (field_id =? DUCKNNG_QUACK_CHUNK_TYPES) then qx_ret tt else
  try! _ := ducknng_quack_read_expect_field DUCKNNG_QUACK_CHUNK_TYPES in
  try! count := ducknng_quack_read_uleb128 in
  if negb (count =? zlen cols) then qx_fail "ducknng: quack chunk type count does not match the result schema" else
  check_chunk_types cols.

Definition ducknng_quack_consume_chunk_wrapper_end (allow_legacy_omission : bool) : reading unit :=
  try! field_id := ducknng_quack_peek_u16le in
  if field_id =? DUCKNNG_QUACK_FIELD_END then try! _ := ducknng_quack_read_u16le in qx_ret tt else
  if allow_legacy_omission then qx_ret tt else qx_fail "ducknng: missing quack data chunk wrapper terminator".

(** The loop over the columns of a chunk. *)
Fixpoint each_column {A} (f : schema -> reading A) (cols : list schema) : reading (list A) :=
  match cols with
  | [] => qx_ret []
  | col :: cols => try! x := f col in try! xs := each_column f cols in qx_ret (x :: xs)
  end.

(** The types, if given, and the number of columns. *)
Definition chunk_header (cols : list schema) : reading unit :=
  try! _ := ducknng_quack_validate_optional_chunk_types cols in
  try! _ := ducknng_quack_read_expect_field DUCKNNG_QUACK_CHUNK_COLUMNS in
  try! ncols := ducknng_quack_read_uleb128 in
  if negb (ncols =? zlen cols) then qx_fail "ducknng: quack data chunk column count mismatch" else qx_ret tt.

Definition skip_columns (cols : list schema) (rows : Z) : reading unit :=
  try! _ := each_column (fun col => ducknng_quack_skip_vector_node nesting_levels (Some col) rows 0) cols in qx_ret tt.

Definition ducknng_quack_skip_data_chunk (cols : list schema) : reading Z :=
  try! _ := ducknng_quack_read_expect_field DUCKNNG_QUACK_CHUNK_ROWS in
  try! rows := ducknng_quack_read_uleb128 in
  try! _ := chunk_header cols in
  try! _ := skip_columns cols rows in
  try! _ := read_end in
  qx_ret rows.

(** The chunk loop: [n] chunks are left. *)
Fixpoint validate_loop (cols : list schema) (max_chunk_rows : Z) (n : nat) (row_count : Z) : reading Z :=
  match n with
  | O => qx_ret row_count
  | S n =>
    try! present := ducknng_quack_read_boolean "ducknng: quack chunk presence flag is not boolean" in
    if present =? 0 then qx_fail "ducknng: quack payload contained a NULL chunk pointer" else
    try! _ := ducknng_quack_read_expect_field DUCKNNG_QUACK_CHUNK_WRAPPER in
    try! chunk_rows := ducknng_quack_skip_data_chunk cols in
    try! _ := ducknng_quack_consume_chunk_wrapper_end (0 <? Z.of_nat n) in
    if ((0 <? max_chunk_rows) && (max_chunk_rows <? chunk_rows))%bool
    then qx_fail "ducknng: quack chunk exceeds the supported vector size" else
    try! row_count := ducknng_quack_idx_add row_count chunk_rows "ducknng: quack row count overflows supported size" in
    validate_loop cols max_chunk_rows n row_count
  end.

(** The end of a payload: its terminator and nothing behind it. *)
Definition payload_end : reading unit :=
  try! _ := read_end in
  with_reader (fun r => if negb (r_off r =? r_len r) then qx_fail "ducknng: trailing bytes in quack payload" else qx_ret tt).

Definition ducknng_quack_reader_validate_results (cols : list schema) (max_chunk_rows : Z) : reading Z :=
  try! field_id := ducknng_quack_peek_u16le in
  try! row_count := (if field_id =? DUCKNNG_QUACK_OUTER_RESULTS then
      try! _ := ducknng_quack_read_u16le in
      try! n_results := ducknng_quack_read_uleb128 in
      validate_loop cols max_chunk_rows (Z.to_nat n_results) 0
    else qx_ret 0) in
  try! _ := payload_end in
  qx_ret row_count.

(** The schema section, if there is one, skipped by a reader that knows it. *)
Definition skip_schema (cols : list schema) : reading unit :=
  try! field_id := ducknng_quack_peek_u16le in
  if field_id =? DUCKNNG_QUACK_OUTER_RESULT_TYPES then
    try! _ := ducknng_quack_read_expect_field DUCKNNG_QUACK_OUTER_RESULT_TYPES in
    try! _ := ducknng_quack_skip_type_list (zlen cols) in
    try! _ := ducknng_quack_read_expect_field DUCKNNG_QUACK_OUTER_RESULT_NAMES in
    ducknng_quack_skip_string_list (zlen cols)
  else qx_ret tt.

Fixpoint row_count_loop (cols : list schema) (n : nat) (row_count : Z) : reading Z :=
  match n with
  | O => qx_ret row_count
  | S n =>
    try! present := ducknng_quack_read_boolean "ducknng: quack chunk presence flag is not boolean" in
    if present =? 0 then of_typed (Err None) else
    try! _ := ducknng_quack_read_expect_field DUCKNNG_QUACK_CHUNK_WRAPPER in
    try! chunk_rows := ducknng_quack_skip_data_chunk cols in
    try! _ := ducknng_quack_consume_chunk_wrapper_end (0 <? Z.of_nat n) in
    try! row_count := ducknng_quack_idx_add row_count chunk_rows "ducknng: quack row count overflows supported size" in
    row_count_loop cols n row_count
  end.

Definition ducknng_quack_payload_read_row_count (payload : bytes) (cols : list schema) : typed Z :=
  if zlen payload =? 0 then type_error "ducknng: missing quack payload row-count inputs" else
  snd ((try! _ := skip_schema cols in
        try! field_id := ducknng_quack_peek_u16le in
        if negb (field_id =? DUCKNNG_QUACK_OUTER_RESULTS) then qx_ret 0 else
        try! _ := ducknng_quack_read_u16le in
        try! n_results := ducknng_quack_read_uleb128 in
        try! row_count := row_count_loop cols (Z.to_nat n_results) 0 in
        try! _ := payload_end in
        qx_ret row_count) (payload_reader payload)).

(** ** Decoding chunks *)

(** What a decoded chunk holds: its size and its columns. *)
Record output_chunk := mk_output { out_size : Z; out_columns : list column }.

Section decoding.
Context (creates : logical_type -> bool) (vector_size : Z).

(** The rows of the chunk, and the output when it was written. *)
Definition ducknng_quack_decode_data_chunk_slice (cols : list schema) (offset : Z) : reading (Z * option output_chunk) :=
  try! _ := ducknng_quack_read_expect_field DUCKNNG_QUACK_CHUNK_ROWS in
  try! rows := ducknng_quack_read_uleb128 in
  if vector_size <? rows then qx_fail "ducknng: quack chunk exceeds output vector capacity" else
  let has_nested := ducknng_quack_schema_has_nested cols in
  if rows <=? offset then
    try! _ := chunk_header cols in
    try! _ := skip_columns cols rows in
    try! _ := read_end in
    qx_ret (rows, None)
  else
    let copy_count := if vector_size <? rows - offset then vector_size else rows - offset in
    if (has_nested && negb (offset =? 0))%bool then qx_fail "ducknng: nested quack chunk cannot resume mid-chunk" else
    let copy_count := if has_nested then rows else copy_count in
    try! _ := chunk_header cols in
    try! columns := each_column (fun col => ducknng_quack_decode_vector_into creates nesting_levels (Some col) rows offset copy_count 0) cols in
    try! _ := read_end in
    qx_ret (rows, Some (mk_output copy_count columns)).

(** Where a scan stands: its offset in the payload and the chunks left. *)
Record scan_state := mk_scan { scan_offset : Z; scan_remaining : Z }.

Definition ducknng_quack_payload_scan_begin (payload : bytes) (cols : list schema) : typed scan_state :=
  if zlen payload =? 0 then type_error "ducknng: missing quack payload scan state" else
  snd ((try! _ := skip_schema cols in
        try! field_id := ducknng_quack_peek_u16le in
        if negb (field_id =? DUCKNNG_QUACK_OUTER_RESULTS) then with_reader (fun r => qx_ret (mk_scan (r_off r) 0)) else
        try! _ := ducknng_quack_read_u16le in
        try! n_results := ducknng_quack_read_uleb128 in
        with_reader (fun r => qx_ret (mk_scan (r_off r) n_results))) (payload_reader payload)).

(** The chunk of one [scan_next]: its wrapper and its slice from row 0. *)
Definition scan_chunk (cols : list schema) (more : bool) : reading (option output_chunk) :=
  try! present := ducknng_quack_read_boolean "ducknng: quack chunk presence flag is not boolean" in
  if present =? 0 then of_typed (Err None) else
  try! _ := ducknng_quack_read_expect_field DUCKNNG_QUACK_CHUNK_WRAPPER in
  try! (_, output) := ducknng_quack_decode_data_chunk_slice cols 0 in
  try! _ := ducknng_quack_consume_chunk_wrapper_end more in
  qx_ret output.

(** The state after the call, also when it fails at the terminator, and the
    output: [None] leaves the chunk of the caller as it was. *)
Definition ducknng_quack_payload_scan_next (payload : bytes) (cols : list schema) (s : scan_state)
    : scan_state * typed (option output_chunk) :=
  if zlen payload =? 0 then (s, type_error "ducknng: missing quack payload scan inputs") else
  if scan_remaining s =? 0 then (s, Ok (Some (mk_output 0 []))) else
  if zlen payload <? scan_offset s then (s, type_error "ducknng: quack payload scan offset is out of range") else
  match scan_chunk cols (1 <? scan_remaining s) (mk_reader (Some payload) (zlen payload) (scan_offset s) 0 DUCKNNG_QK_OK) with
  | (_, Err e) => (s, Err e)
  | (r, Ok output) =>
    let s := mk_scan (r_off r) (scan_remaining s - 1) in
    if scan_remaining s =? 0 then
      match read_end r with
      | (_, Err e) => (s, Err e)
      | (r, Ok _) => (mk_scan (r_off r) 0, Ok output)
      end
    else (s, Ok output)
  end.

(** The scan that starts over at every call and finds its place by rows. *)
Fixpoint scan_loop (cols : list schema) (n : nat) (global_offset seen_rows size : Z) : reading (option (Z * option output_chunk)) :=
  match n with
  | O => try! _ := read_end in qx_ret None
  | S n =>
    try! present := ducknng_quack_read_boolean "ducknng: quack chunk presence flag is not boolean" in
    if present =? 0 then of_typed (Err None) else
    try! _ := ducknng_quack_read_expect_field DUCKNNG_QUACK_CHUNK_WRAPPER in
    let local_offset := if seen_rows <=? global_offset then global_offset - seen_rows else 0 in
    try! (chunk_rows, output) := ducknng_quack_decode_data_chunk_slice cols local_offset in
    try! _ := ducknng_quack_consume_chunk_wrapper_end (0 <? Z.of_nat n) in
    try! next_seen := ducknng_quack_idx_add seen_rows chunk_rows "ducknng: quack row count overflows supported size" in
    if global_offset <? next_seen then
      try! next_offset := ducknng_quack_idx_add global_offset (match output with Some o => out_size o | None => size end)
        "ducknng: quack scan offset overflows supported size" in
      qx_ret (Some (next_offset, output))
    else scan_loop cols n global_offset next_seen size
  end.

(** [size] is the size of the chunk of the caller; the next offset and the output. *)
Definition ducknng_quack_payload_scan (payload : bytes) (cols : list schema) (offset size : Z) : typed (Z * option output_chunk) :=
  if zlen payload =? 0 then type_error "ducknng: missing quack payload scan inputs" else
  snd ((try! _ := skip_schema cols in
        try! field_id := ducknng_quack_peek_u16le in
        if negb (field_id =? DUCKNNG_QUACK_OUTER_RESULTS) then qx_ret (offset, Some (mk_output 0 [])) else
        try! _ := ducknng_quack_read_u16le in
        try! n_results := ducknng_quack_read_uleb128 in
        try! found := scan_loop cols (Z.to_nat n_results) offset 0 size in
        qx_ret (match found with Some p => p | None => (offset, Some (mk_output 0 [])) end)) (payload_reader payload)).

(** ** Binding and appending *)

(** The result columns DuckDB is told of, in order. *)
Fixpoint bind_columns_loop (cols : list schema) : typed (list (bytes * logical_type)) :=
  match cols with
  | [] => Ok []
  | col :: cols =>
    let! t := ducknng_quack_node_to_duckdb creates nesting_levels (Some col) 0 in
    let! ts := bind_columns_loop cols in
    Ok ((default [] (sc_name col), t) :: ts)
  end.

Definition ducknng_quack_payload_bind_columns (payload : bytes) : typed (list schema * list (bytes * logical_type) * Z) :=
  if zlen payload =? 0 then type_error "ducknng: missing quack payload for bind" else
  snd ((try! cols := ducknng_quack_reader_parse_schema in
        try! bound := of_typed (bind_columns_loop cols) in
        try! row_count := ducknng_quack_reader_validate_results cols 0 in
        qx_ret (cols, bound, row_count)) (payload_reader payload)).

(** The target of an upload: its column types and the chunks it took. *)
Record duckdb_appender := mk_appender { appender_types : list logical_type; appended_chunks : list output_chunk }.

Context (accepts : output_chunk -> option bytes).

(** The types of the batch against those of the target, column by column. *)
Fixpoint match_types (cols : list schema) (targets : list logical_type) : typed unit :=
  match cols, targets with
  | col :: cols, target :: targets =>
    let! t := ducknng_quack_node_to_duckdb creates nesting_levels (Some col) 0 in
    if ducknng_quack_logical_type_equal t target then match_types cols targets
    else type_error "ducknng: quack append column type does not match the target table"
  | _, _ => Ok tt
  end.

Fixpoint match_names (cols : list schema) (names : list (option bytes)) : bool :=
  match cols, names with
  | col :: cols, want :: names => if str_eq (default [] (sc_name col)) (default [] want) then match_names cols names else false
  | _, _ => true
  end.

(** The append loop over the chunks that are left. *)
Fixpoint append_loop (payload : bytes) (cols : list schema) (fuel : nat) (s : scan_state) (a : duckdb_appender) (appended : Z)
    : duckdb_appender * typed Z :=
  if scan_remaining s =? 0 then (a, Ok appended) else
  match fuel with
  | O => (a, Err None)
  | S fuel =>
    match ducknng_quack_payload_scan_next payload cols s with
    | (_, Err e) => (a, Err e)
    | (s, Ok output) =>
      let output := default (mk_output 0 []) output in
      if out_size output =? 0 then append_loop payload cols fuel s a appended else
      match accepts output with
      | Some text => (a, Err (Some (if zlen text =? 0 then lit "ducknng: quack append to table failed" else text)))
      | None =>
        append_loop payload cols fuel s (mk_appender (appender_types a) (appended_chunks a ++ [output])) (u64 (appended + out_size output))
      end
    end
  end.

(** Everything that is checked before the appender is touched: the schema and
    the rows the payload announces. *)
Definition append_preflight (payload : bytes) (expected_names : option (list (option bytes))) (targets : list logical_type)
    : typed (list schema * Z) :=
  let! (cols, expected_rows) := snd ((try! cols := ducknng_quack_reader_parse_schema in
    if zlen cols =? 0 then qx_fail "ducknng: quack append payload has no columns" else
    try! rows := ducknng_quack_reader_validate_results cols vector_size in
    qx_ret (cols, rows)) (payload_reader payload)) in
  if negb (zlen targets =? zlen cols) then type_error "ducknng: quack append column count does not match the target table" else
  let! _ := match expected_names with
    | Some names =>
      if negb (zlen names =? zlen cols) then type_error "ducknng: quack append column count does not match the target table" else
      if match_names cols names then Ok tt else type_error "ducknng: quack append column names do not match the target table"
    | None => Ok tt
    end in
  let! _ := match_types cols targets in
  Ok (cols, expected_rows).

Definition ducknng_quack_payload_append_to_appender (a : duckdb_appender) (payload : bytes)
    (expected_names : option (list (option bytes))) (rows : Z) : duckdb_appender * typed Z :=
  if zlen payload =? 0 then (a, type_error "ducknng: missing quack append inputs") else
  match append_preflight payload expected_names (appender_types a) with
  | Err e => (a, Err e)
  | Ok (cols, expected_rows) =>
    match ducknng_quack_payload_scan_begin payload cols with
    | Err e => (a, Err e)
    | Ok s =>
      match append_loop payload cols (Z.to_nat (scan_remaining s)) s a 0 with
      | (a, Err e) => (a, Err e)
      | (a, Ok appended) =>
        if negb (appended =? expected_rows) then (a, type_error "ducknng: quack append row count did not match the payload")
        else (a, Ok (u64 (rows + appended)))
      end
    end
  end.
End decoding.

(** ** Two passes *)

(** An image that fits a [size_t] is measured, allocated and written as it is. *)
Lemma two_passes (pass : writing unit) img : xemits pass img -> zlen img <= SIZE_MAX ->
  (exists w, pass ducknng_qk_writer_init_measure = (w, Ok tt) /\ ducknng_qk_writer_size w = zlen img) /\
  forall dest, zlen dest = zlen img -> exists w, pass (ducknng_qk_writer_init_fixed (Some dest) (zlen img)) = (w, Ok tt) /\
    ducknng_qk_writer_size w = zlen img /\ w_data w = Some img.
Proof.
  intros (m0 & (cs & <- & Hcs) & Hm) Hz. pose proof (zlen_nonneg (concat cs)). split.
  - eexists. rewrite Hm. unfold ducknng_quack_writer_result. rewrite Hcs, run_chunks_measure by fresh_writer. done.
  - intros dest Hd. eexists. rewrite Hm. unfold ducknng_quack_writer_result. rewrite Hcs, <- Hd.
    rewrite (run_chunks_fixed _ _ [] dest) by fresh_writer. split; [done|]. split; [done|].
    cbn [advance w_data]. rewrite app_nil_l, <- Hd. unfold zdrop, zlen. rewrite drop_ge by lia. by rewrite app_nil_r.
Qed.

Definition allocates (alloc : Z -> option bytes) : Prop := forall n, 0 <= n -> exists b, alloc n = Some b /\ zlen b = n.

Lemma payload_written malloc result chunks include_schema img : allocates malloc -> 0 < zlen img <= SIZE_MAX ->
  xemits (ducknng_quack_encode_result_payload_pass result chunks include_schema) img ->
  ducknng_quack_encode_result_payload malloc result chunks include_schema = Ok img.
Proof.
  intros Ha Hz He. destruct (two_passes _ _ He ltac:(lia)) as [(w1 & E1 & S1) Hf]. unfold ducknng_quack_encode_result_payload.
  rewrite E1, S1. destruct (Z.eqb_spec (zlen img) 0); [lia|]. destruct (Ha (zlen img) ltac:(lia)) as (b & -> & Hb).
  destruct (Hf b Hb) as (w2 & -> & S2 & D2). rewrite S2, Z.eqb_refl, D2. cbn [negb]. f_equal. apply ztake_all.
Qed.

(** ** Columns and their names *)

Lemma named_to_duckdb creates n name t depth :
  ducknng_quack_node_to_duckdb creates n (Some (name_column name t)) depth = ducknng_quack_node_to_duckdb creates n (Some t) depth.
Proof. by destruct n. Qed.

Lemma named_children {A} (f : option schema -> reading A) name t n : forall i, read_children f (name_column name t) n i = read_children f t n i.
Proof. induction n as [|n IH]; intros i; [done|]. cbn [read_children]. by rewrite IH. Qed.

Lemma named_decode_body dec name t rows offset count validity : decode_body dec (name_column name t) rows offset count validity = decode_body dec t rows offset count validity.
Proof. unfold decode_body. rewrite named_children. by destruct t. Qed.
Lemma named_skip_body skp name t rows : skip_body skp (name_column name t) rows = skip_body skp t rows.
Proof. unfold skip_body. rewrite named_children. by destruct t. Qed.

Lemma named_decode creates n name t : forall rows offset count depth r,
  ducknng_quack_decode_vector_into creates n (Some (name_column name t)) rows offset count depth r =
  ducknng_quack_decode_vector_into creates n (Some t) rows offset count depth r.
Proof.
  induction n as [|n IH]; intros rows offset count depth r; [done|]. cbn [ducknng_quack_decode_vector_into].
  destruct (DUCKNNG_QUACK_MAX_NESTING <? depth); [done|]. destruct (orb _ _); [done|]. unfold qx_bind.
  destruct (ducknng_quack_check_materialized_values rows true r) as [r1 [[]|]]; [|done].
  destruct (ducknng_quack_read_vector_type r1) as [r2 [vt|]]; [|done]. unfold decode_encoded.
  assert (forall c sel r, ducknng_quack_decode_compressed_copy creates (fun c src offset count => ducknng_quack_decode_vector_into creates n c src offset count (depth + 1))
      (name_column name t) c sel offset count depth r =
    ducknng_quack_decode_compressed_copy creates (fun c src offset count => ducknng_quack_decode_vector_into creates n c src offset count (depth + 1)) t c sel offset count depth r) as Hc.
  { intros c sel r'. unfold ducknng_quack_decode_compressed_copy, qx_bind. destruct (ducknng_quack_check_materialized_values c false r') as [r3 [[]|]]; [|done].
    rewrite named_to_duckdb. destruct (ducknng_quack_node_to_duckdb creates nesting_levels (Some t) depth); [|done]. by rewrite IH. }
  destruct (vt =? DUCKNNG_QUACK_VECTOR_FSST); [done|]. destruct (vt =? DUCKNNG_QUACK_VECTOR_CONSTANT); [apply Hc|].
  destruct (vt =? DUCKNNG_QUACK_VECTOR_DICTIONARY); [unfold qx_bind; destruct (ducknng_quack_read_dictionary_header rows r2) as [r3 [[sel c]|]]; [apply Hc|done]|].
  destruct (vt =? DUCKNNG_QUACK_VECTOR_SEQUENCE); [by destruct t|]. unfold qx_bind. destruct (ducknng_quack_read_flat_vector_prologue r2) as [r3 [v|]]; [|done].
  destruct (check_validity_size v rows r3) as [r4 [[]|]]; [|done]. by rewrite named_decode_body.
Qed.

Lemma named_skip n name t : forall rows depth r,
  ducknng_quack_skip_vector_node n (Some (name_column name t)) rows depth r = ducknng_quack_skip_vector_node n (Some t) rows depth r.
Proof.
  induction n as [|n IH]; intros rows depth r; [done|]. cbn [ducknng_quack_skip_vector_node].
  destruct (DUCKNNG_QUACK_MAX_NESTING <? depth); [done|]. unfold qx_bind.
  destruct (ducknng_quack_read_vector_type r) as [r2 [vt|]]; [|done]. unfold skip_encoded.
  destruct (vt =? DUCKNNG_QUACK_VECTOR_FSST); [done|]. destruct (vt =? DUCKNNG_QUACK_VECTOR_CONSTANT); [apply IH|].
  destruct (vt =? DUCKNNG_QUACK_VECTOR_DICTIONARY); [unfold qx_bind; destruct (ducknng_quack_read_dictionary_header rows r2) as [r3 [[sel c]|]]; [apply IH|done]|].
  destruct (vt =? DUCKNNG_QUACK_VECTOR_SEQUENCE); [by destruct t|]. unfold qx_bind. destruct (ducknng_quack_read_flat_vector_prologue r2) as [r3 [v|]]; [|done].
  destruct (check_validity_size v rows r3) as [r4 [[]|]]; [|done]. by rewrite named_skip_body.
Qed.

Lemma canon_wf n : forall t, canon n t -> schema_wf t.
Proof.
  induction n as [|n IH]; intros t Hc; [by inversion Hc|].
  inversion Hc as [? id|? w s|? labels Hl Hn|? c Hcc|? c Hcc|? c size ? Hcc|? id ms ? [? Hl] ? Hcc]; subst.
  - apply (schema_wf_node _ []); try done. by right.
  - apply (schema_wf_node _ []); try done. by right.
  - pose proof (zlen_nonneg labels). apply (schema_wf_node _ []); try done; [|by right]. rewrite enum_count_labels by done. done.
  - apply (schema_wf_node _ [c]); try done; [by left|]. by repeat constructor; apply IH.
  - apply (schema_wf_node _ [c]); try done; [by left|]. by repeat constructor; apply IH.
  - apply (schema_wf_node _ [c]); try done; [by left|]. by repeat constructor; apply IH.
  - apply (schema_wf_node _ (ms.*2)); try done; [|by left|].
    + rewrite record_count by done. unfold zlen. by rewrite length_fmap.
    + apply Forall_fmap. eapply Forall_impl; [exact Hcc|]. intros x Hx. by apply IH.
Qed.

Lemma named_equal n name t : canon n t -> ducknng_qk_type_equal (name_column name t) t = true.
Proof.
  intros Hc. assert (ducknng_qk_type_equal (name_column name t) t = ducknng_qk_type_equal t t) as -> by (by destruct t).
  apply type_equal_key; [by eapply canon_wf..|done].
Qed.

(** ** The image of a batch *)

Lemma xemits_ext m m' img : xemits m img -> (forall w, m' w = m w) -> xemits m' img.
Proof. intros (m0 & He & Hm) H. exists m0. split; [done|]. intros w. by rewrite H. Qed.
Lemma xreads_ext {A} (m m' : reading A) img a : xreads m img a -> (forall r, m' r = m r) -> xreads m' img a.
Proof. intros Hm H pre post k. by rewrite H. Qed.
Lemma decodes_ext {A} (m m' : reading A) img w a : decodes m img w a -> (forall r, m' r = m r) -> decodes m' img w a.
Proof. intros Hm H pre post k Hk Hl. rewrite H. by apply Hm. Qed.

(** The columns a reader knows: the types with their names. *)
Definition named (cols nodes : list schema) : Prop := Forall2 (fun col node => exists name, col = name_column name node) cols nodes.

Lemma types_code nodes : Forall (canon 65) nodes -> exists img, xemits (write_types nodes) img /\
  xreads (repeat_read (length nodes) read_type) img nodes /\
  (exists us, xreads (repeat_read (length nodes) ducknng_quack_skip_type_meta) img us) /\
  forall cols, named cols nodes -> xreads (check_chunk_types cols) img tt.
Proof.
  induction 1 as [|node nodes Hc Hn (img & He & Hr & (us & Hs) & Hk)].
  - exists []. split; [apply xemits_ret|]. split; [apply xreads_ret|]. split; [exists []; apply xreads_ret|]. intros cols Hn. inversion Hn; subst. apply xreads_ret.
  - destruct (type_codes 65 node 0 nesting_levels Hc) as (img1 & He1 & Hr1); [unfold nesting_levels; lia|done|]. fold read_type in Hr1.
    exists (img1 ++ img). split; [by apply xemits_bind|]. cbn [length repeat_read]. split; [|split].
    + eapply xreads_bind; [exact Hr1|]. eapply xreads_then; [exact Hr|apply xreads_ret].
    + exists (tt :: us). eapply xreads_bind; [eapply xreads_then; [exact Hr1|apply xreads_ret]|]. eapply xreads_then; [exact Hs|apply xreads_ret].
    + intros cols Hcols. inversion Hcols as [|col ? cols' ? [name ->] Hcols']; subst. cbn [check_chunk_types].
      eapply xreads_bind; [exact Hr1|]. rewrite (named_equal 65) by done. by apply Hk.
Qed.

Lemma names_code names : Forall name_ok names -> exists img, xemits (write_result_names (Some <$> names)) img /\
  xreads (repeat_read (length names) ducknng_quack_read_string_dup) img names /\
  (exists us, xreads (repeat_read (length names) ducknng_quack_skip_string) img us).
Proof.
  induction 1 as [|s names [Hs Hz] Hn (img & He & Hr & us & Hk)].
  - exists []. split; [apply xemits_ret|]. split; [apply xreads_ret|]. exists []. apply xreads_ret.
  - exists (counted_image s ++ img). split; [by apply xemits_bind; [apply xemits_string|]|]. cbn [length repeat_read]. split.
    + eapply xreads_bind; [by apply xreads_name|]. eapply xreads_then; [exact Hr|apply xreads_ret].
    + exists (tt :: us). eapply xreads_bind; [by apply xreads_skip_string|]. eapply xreads_then; [exact Hk|apply xreads_ret].
Qed.

Lemma each_named {A} (f : schema -> reading A) : (forall name t r, f (name_column name t) r = f t r) ->
  forall cols nodes, named cols nodes -> forall r, each_column f cols r = each_column f nodes r.
Proof.
  intros Hf cols nodes. induction 1 as [|col node cols nodes [name ->] Hn IH]; intros r; [done|]. cbn [each_column]. unfold qx_bind. rewrite Hf.
  destruct (f node r) as [r1 [x|]]; [|done]. by rewrite IH.
Qed.

Section one_chunk.
Context (creates : logical_type -> bool).

Definition total_weight (rows : Z) (columns : list (logical_type * vector)) : Z := foldr (fun tv acc => weight (snd tv) rows + acc) 0 columns.

Lemma columns_code chunk (nodes : list schema) columns : 0 <= chunk_size chunk ->
  Forall2 (fun node (tv : logical_type * vector) => fits 65 node (chunk_size chunk) (snd tv)) nodes columns ->
  total_weight (chunk_size chunk) columns <= DUCKNNG_QUACK_MAX_MATERIALIZED_VALUES ->
  forall i, (forall j tv, columns !! j = Some tv -> chunk_columns chunk !! (i + j)%nat = Some tv) ->
  0 <= total_weight (chunk_size chunk) columns /\
  exists img cs us, xemits (encode_columns chunk nodes i) img /\
    decodes (each_column (fun col => ducknng_quack_decode_vector_into creates nesting_levels (Some col) (chunk_size chunk) 0 (chunk_size chunk) 0) nodes) img
      (total_weight (chunk_size chunk) columns) cs /\
    xreads (each_column (fun col => ducknng_quack_skip_vector_node nesting_levels (Some col) (chunk_size chunk) 0) nodes) img us /\
    Forall2 (fun c (tv : logical_type * vector) => same c (snd tv) (chunk_size chunk)) cs columns.
Proof.
  intros Hrows Hf. induction Hf as [|node tv nodes columns Hn Hf IH]; intros Hw i Hi.
  - split; [done|]. exists [], [], []. split; [apply xemits_ret|]. split; [apply decodes_read, xreads_ret|]. split; [apply xreads_ret|constructor].
  - unfold total_weight in *. cbn [foldr] in *. pose proof (fits_weight _ _ _ _ Hrows Hn) as Hv.
    assert (0 <= foldr (fun tv acc => weight (snd tv) (chunk_size chunk) + acc) 0 columns) as H0.
    { clear -Hf Hrows. induction Hf as [|? ? ? ? H]; [done|]. cbn [foldr]. pose proof (fits_weight _ _ _ _ Hrows H). lia. }
    destruct (IH ltac:(lia) (S i)) as (_ & img & cs & us & He & Hd & Hs & Hsame).
    { intros j x Hj. replace (S i + j)%nat with (i + S j)%nat by lia. by apply Hi. }
    pose proof (Hi 0%nat tv eq_refl) as Htv. rewrite Nat.add_0_r in Htv.
    destruct (vector_travels creates 65 node (chunk_size chunk) (snd tv) 0 nesting_levels Hn) as (Hw1 & img1 & c & (He1 & Hd1 & Hs1) & Hsame1);
      [unfold nesting_levels; lia|lia|lia|lia|].
    split; [lia|]. exists (img1 ++ img), (c :: cs), (tt :: us). split; [|split; [|split]].
    + cbn [encode_columns]. rewrite Htv. by apply xemits_bind.
    + cbn [each_column]. apply decodes_bind with c; [lia|lia|exact Hd1|].
      rewrite <- (app_nil_r img). eapply decodes_last; [lia|exact Hd|apply xreads_ret].
    + cbn [each_column]. eapply xreads_bind; [exact Hs1|]. eapply xreads_then; [exact Hs|apply xreads_ret].
    + by constructor.
Qed.

Lemma chunk_nodes_spec chunk (nodes : list schema) columns :
  Forall2 (fun node (tv : logical_type * vector) => ducknng_quack_node_from_duckdb (fst tv) 0 = Ok node) nodes columns ->
  forall i, (forall j tv, columns !! j = Some tv -> chunk_columns chunk !! (i + j)%nat = Some tv) -> chunk_nodes chunk (length nodes) i = Ok nodes.
Proof.
  induction 1 as [|node tv nodes columns Hn Hf IH]; intros i Hi; [done|]. cbn [length chunk_nodes].
  pose proof (Hi 0%nat tv eq_refl) as Htv. rewrite Nat.add_0_r in Htv. rewrite Htv. cbn [fmap option_fmap option_map type_of_column]. rewrite Hn. cbn [res_bind].
  rewrite IH; [done|]. intros j x Hj. replace (S i + j)%nat with (i + S j)%nat by lia. by apply Hi.
Qed.

Definition header_image (ncols : Z) (types : bytes) : bytes := (u16_image 101 ++ uleb_image ncols) ++ types ++ u16_image 102 ++ uleb_image ncols.

Lemma header_reads cols types : zlen cols <= DUCKNNG_QUACK_MAX_STRUCT_MEMBERS -> xreads (check_chunk_types cols) types tt ->
  xreads (chunk_header cols) (header_image (zlen cols) types) tt.
Proof.
  intros Hl Ht. pose proof (zlen_nonneg cols). unfold DUCKNNG_QUACK_MAX_STRUCT_MEMBERS in Hl. unfold chunk_header, header_image.
  rewrite (app_assoc (u16_image 101 ++ uleb_image (zlen cols))). eapply (xreads_bind _ _ _ _ tt).
  - unfold ducknng_quack_validate_optional_chunk_types. rewrite <- app_assoc. apply xreads_peek; [done|]. closed_tests.
    eapply xreads_bind; [by apply xreads_expect|]. eapply xreads_bind; [apply xreads_uleb; sizes|]. by rewrite Z.eqb_refl.
  - eapply xreads_bind; [by apply xreads_expect|]. eapply xreads_then; [apply xreads_uleb; sizes|]. rewrite Z.eqb_refl. apply xreads_ret.
Qed.

Lemma wrapper_end more : xreads (ducknng_quack_consume_chunk_wrapper_end more) END_image tt.
Proof.
  unfold ducknng_quack_consume_chunk_wrapper_end, END_image. rewrite <- (app_nil_r (u16_image _)). apply xreads_peek; [done|]. closed_tests.
  eapply xreads_bind; [by apply xreads_u16|apply xreads_ret].
Qed.
End one_chunk.

Lemma Forall2_with {A C} (P Q : A -> C -> Prop) (R : C -> Prop) l k : Forall2 P l k -> Forall R k -> (forall a c, P a c -> R c -> Q a c) -> Forall2 Q l k.
Proof. intros H HR HQ. induction H; inversion HR; subst; constructor; auto. Qed.

Section batches.
Context (creates : logical_type -> bool) (vector_size : Z) (Hvs : vector_size <= UINT64_MAX).

(** A chunk DuckDB may produce for a result of these types, within the limits
    of the decoder. *)
Definition chunk_ok (types : list logical_type) (chunk : data_chunk) : Prop :=
  (chunk_columns chunk).*1 = types /\ 0 <= chunk_size chunk <= vector_size /\
  Forall (fun tv => forall node, ducknng_quack_node_from_duckdb (fst tv) 0 = Ok node -> fits 65 node (chunk_size chunk) (snd tv)) (chunk_columns chunk) /\
  total_weight (chunk_size chunk) (chunk_columns chunk) <= DUCKNNG_QUACK_MAX_MATERIALIZED_VALUES.

(** The output has the rows of the chunk; an empty chunk leaves it alone. *)
Definition delivers (out : option output_chunk) (chunk : data_chunk) : Prop :=
  match out with
  | Some o => out_size o = chunk_size chunk /\ 0 < chunk_size chunk /\ Forall2 (fun c (tv : logical_type * vector) => same c (snd tv) (chunk_size chunk)) (out_columns o) (chunk_columns chunk)
  | None => chunk_size chunk = 0
  end.

Definition nodes_of (types : list logical_type) (nodes : list schema) : Prop :=
  Forall2 (fun t node => ducknng_quack_node_from_duckdb t 0 = Ok node /\ canon 65 node) types nodes.

Lemma chunk_fits types nodes chunk : nodes_of types nodes -> chunk_ok types chunk ->
  Forall2 (fun node (tv : logical_type * vector) => ducknng_quack_node_from_duckdb (fst tv) 0 = Ok node) nodes (chunk_columns chunk) /\
  Forall2 (fun node (tv : logical_type * vector) => fits 65 node (chunk_size chunk) (snd tv)) nodes (chunk_columns chunk).
Proof.
  intros Hn (Ht & _ & Hf & _). unfold nodes_of in Hn. rewrite <- Ht in Hn. apply Forall2_fmap_l in Hn. apply Forall2_flip in Hn.
  split; [eapply Forall2_impl; [exact Hn|]; by intros ? ? []|].
  eapply Forall2_with; [exact Hn|exact Hf|]. intros node tv [E _] HF. by apply HF.
Qed.

Definition chunk_image (rows : Z) (header columns : bytes) : bytes :=
  [1] ++ u16_image 300 ++ (u16_image 100 ++ uleb_image rows) ++ header ++ columns ++ END_image ++ END_image.

Lemma skip_chunk_reads cols rows types columns us : 0 <= rows <= UINT64_MAX -> zlen cols <= DUCKNNG_QUACK_MAX_STRUCT_MEMBERS -> xreads (check_chunk_types cols) types tt ->
  xreads (each_column (fun col => ducknng_quack_skip_vector_node nesting_levels (Some col) rows 0) cols) columns us ->
  xreads (ducknng_quack_skip_data_chunk cols) ((u16_image 100 ++ uleb_image rows) ++ header_image (zlen cols) types ++ columns ++ END_image) rows.
Proof.
  intros Hr Hl Ht Hc. unfold ducknng_quack_skip_data_chunk. rewrite <- app_assoc. eapply xreads_bind; [by apply xreads_expect|]. eapply xreads_bind; [by apply xreads_uleb|].
  eapply xreads_bind; [by apply header_reads|]. eapply xreads_bind; [eapply xreads_then; [exact Hc|apply xreads_ret]|]. eapply xreads_then; [by apply xreads_expect|apply xreads_ret].
Qed.

Lemma slice_decodes cols rows types columns us w cs : 0 <= rows <= vector_size -> zlen cols <= DUCKNNG_QUACK_MAX_STRUCT_MEMBERS -> xreads (check_chunk_types cols) types tt ->
  xreads (each_column (fun col => ducknng_quack_skip_vector_node nesting_levels (Some col) rows 0) cols) columns us -> 0 <= w ->
  decodes (each_column (fun col => ducknng_quack_decode_vector_into creates nesting_levels (Some col) rows 0 rows 0) cols) columns w cs ->
  decodes (ducknng_quack_decode_data_chunk_slice creates vector_size cols 0) ((u16_image 100 ++ uleb_image rows) ++ header_image (zlen cols) types ++ columns ++ END_image)
    (if rows =? 0 then 0 else w) (rows, if rows =? 0 then None else Some (mk_output rows cs)).
Proof.
  intros Hr Hl Ht Hs Hw Hd. unfold ducknng_quack_decode_data_chunk_slice. rewrite <- app_assoc.
  assert (0 <= (if rows =? 0 then 0 else w)) by (destruct (rows =? 0); lia).
  eapply decodes_step; [done|by apply xreads_expect|]. eapply decodes_step; [done|apply xreads_uleb; lia|].
  destruct (Z.ltb_spec vector_size rows); [lia|]. cbv zeta. rewrite Z.sub_0_r. destruct (Z.ltb_spec vector_size rows); [lia|].
  rewrite Bool.andb_false_r. destruct (Z.eqb_spec rows 0) as [->|Hn].
  - cbn [Z.leb Z.compare]. apply decodes_read. eapply xreads_bind; [by apply header_reads|].
    eapply xreads_bind; [eapply xreads_then; [exact Hs|apply xreads_ret]|]. eapply xreads_then; [by apply xreads_expect|apply xreads_ret].
  - destruct (Z.leb_spec rows 0); [lia|]. eapply decodes_step; [done|by apply header_reads|].
    assert ((if ducknng_quack_schema_has_nested cols then rows else rows) = rows) as -> by (by destruct (ducknng_quack_schema_has_nested cols)).
    eapply decodes_last; [done|exact Hd|]. eapply xreads_then; [by apply xreads_expect|apply xreads_ret].
Qed.

Lemma chunk_code types nodes chunk : nodes_of types nodes -> zlen types <= DUCKNNG_QUACK_MAX_STRUCT_MEMBERS -> chunk_ok types chunk ->
  exists img, xemits (ducknng_quack_encode_one_chunk chunk (zlen types)) img /\ forall cols, named cols nodes ->
    (forall more, exists w out, 0 <= w <= DUCKNNG_QUACK_MAX_MATERIALIZED_VALUES /\ decodes (scan_chunk creates vector_size cols more) img w out /\ delivers out chunk) /\
    (forall n limit acc rest total, limit = 0 \/ chunk_size chunk <= limit -> 0 <= acc -> acc + chunk_size chunk <= UINT64_MAX ->
       xreads (validate_loop cols limit n (acc + chunk_size chunk)) rest total -> xreads (validate_loop cols limit (S n) acc) (img ++ rest) total).
Proof.
  intros Hn Hl Hc. destruct (chunk_fits _ _ _ Hn Hc) as [Hfrom Hfit]. pose proof Hc as (Ht & Hr & _ & Hw).
  assert (Forall (canon 65) nodes) as Hcan by (eapply Forall2_Forall_r; [exact Hn|]; apply Forall_forall; by intros ? _ ? []).
  destruct (types_code nodes Hcan) as (types_img & Te & _ & _ & Tk).
  pose proof (Forall2_length _ _ _ Hn) as Hlen. assert (Z.to_nat (zlen types) = length nodes) as Hz by (unfold zlen; lia).
  destruct (columns_code creates chunk nodes (chunk_columns chunk) ltac:(lia) Hfit Hw 0) as (Hw0 & cols_img & cs & us & Ce & Cd & Cs & Csame); [done|].
  exists (chunk_image (chunk_size chunk) (header_image (zlen types) types_img) cols_img). split.
  - unfold ducknng_quack_encode_one_chunk. pose proof (zlen_nonneg types). unfold DUCKNNG_QUACK_MAX_STRUCT_MEMBERS in Hl.
    assert ((if 0 <? zlen types then ducknng_size_mul 8 (zlen types) else Some 0) <> None) as Hm.
    { destruct (0 <? zlen types); [|done]. destruct (mul_exact 8 (zlen types)) as [-> _]; [sizes..|done]. }
    destruct (if 0 <? zlen types then _ else _); [|done]. rewrite Hz, (chunk_nodes_spec chunk nodes _ Hfrom 0) by done. apply xemits_bind_ret.
    eapply xemits_eq; [emit_steps; [done|done|sizes|done|sizes|exact Te|done|sizes|exact Ce]|]. unfold chunk_image, header_image. by rewrite <- !app_assoc.
  - intros cols Hcols. assert (zlen cols = zlen types) as Hzc by (unfold zlen; rewrite (Forall2_length _ _ _ Hcols); lia). specialize (Tk cols Hcols).
    assert (xreads (each_column (fun col => ducknng_quack_skip_vector_node nesting_levels (Some col) (chunk_size chunk) 0) cols) cols_img us) as Cs'.
    { eapply xreads_ext; [exact Cs|]. apply each_named; [|done]. intros. apply named_skip. }
    assert (decodes (each_column (fun col => ducknng_quack_decode_vector_into creates nesting_levels (Some col) (chunk_size chunk) 0 (chunk_size chunk) 0) cols) cols_img
      (total_weight (chunk_size chunk) (chunk_columns chunk)) cs) as Cd'.
    { eapply decodes_ext; [exact Cd|]. apply each_named; [|done]. intros. apply named_decode. }
    assert (chunk_image (chunk_size chunk) (header_image (zlen types) types_img) cols_img =
      [1] ++ u16_image 300 ++ ((u16_image 100 ++ uleb_image (chunk_size chunk)) ++ header_image (zlen cols) types_img ++ cols_img ++ END_image) ++ END_image) as ->
      by (unfold chunk_image; rewrite Hzc, <- !app_assoc; done).
    split.
    + intros more. pose proof (slice_decodes cols (chunk_size chunk) types_img cols_img us _ cs Hr ltac:(lia) Tk Cs' Hw0 Cd') as Hsl.
      eexists _, _. split; [|split].
      * instantiate (1 := if chunk_size chunk =? 0 then 0 else total_weight (chunk_size chunk) (chunk_columns chunk)). destruct (chunk_size chunk =? 0); [done|lia].
      * unfold scan_chunk. assert (0 <= (if chunk_size chunk =? 0 then 0 else total_weight (chunk_size chunk) (chunk_columns chunk))) by (destruct (chunk_size chunk =? 0); lia).
        eapply decodes_step; [done|by apply xreads_bool|]. cbn [Z.eqb]. eapply decodes_step; [done|by apply xreads_expect|]. eapply decodes_last; [done|exact Hsl|].
        cbv beta iota. eapply xreads_then; [apply wrapper_end|apply xreads_ret].
      * destruct (Z.eqb_spec (chunk_size chunk) 0) as [E|E]; [exact E|]. cbn [delivers out_size out_columns]. split; [done|]. split; [lia|done].
    + intros n limit acc rest total Hlim Ha Hsum Hrest. pose proof (skip_chunk_reads cols (chunk_size chunk) types_img cols_img us ltac:(lia) ltac:(lia) Tk Cs') as Hskip.
      set (body := (u16_image 100 ++ _) ++ _) in *. cbn [validate_loop]. rewrite <- !app_assoc.
      eapply xreads_bind; [by apply xreads_bool|]. cbn [Z.eqb]. eapply xreads_bind; [by apply xreads_expect|].
      eapply xreads_bind; [exact Hskip|]. eapply xreads_bind; [apply wrapper_end|].
      assert (((0 <? limit) && (limit <? chunk_size chunk))%bool = false) as ->.
      { destruct (Z.ltb_spec limit (chunk_size chunk)); [|apply andb_false_r]. destruct (Z.ltb_spec 0 limit); [lia|done]. }
      unfold ducknng_quack_idx_add, ducknng_u64_add. destruct (Z.ltb_spec (UINT64_MAX - acc) (chunk_size chunk)); [lia|].
      rewrite u64_small by lia. by eapply xreads_skip; [apply xreads_ret|].
Qed.
End batches.

(** ** Whole payloads *)

Definition total_rows (chunks : list data_chunk) : Z := foldr (fun c acc => chunk_size c + acc) 0 chunks.

(** The client loop: one [scan_next] for every chunk that is left. *)
Fixpoint scan_all (creates : logical_type -> bool) (vector_size : Z) (payload : bytes) (cols : list schema) (n : nat) (s : scan_state)
    : typed (list (option output_chunk)) :=
  match n with
  | O => Ok []
  | S n =>
    let (s, o) := ducknng_quack_payload_scan_next creates vector_size payload cols s in
    let! out := o in
    let! outs := scan_all creates vector_size payload cols n s in
    Ok (out :: outs)
  end.

Definition schema_image (ncols : Z) (types names : bytes) : bytes :=
  (u16_image 1 ++ uleb_image ncols) ++ types ++ (u16_image 2 ++ uleb_image ncols) ++ names.

Definition results_image (imgs : list bytes) : bytes :=
  match imgs with [] => [] | _ => (u16_image 4 ++ uleb_image (zlen imgs)) ++ concat imgs end.

Lemma named_zip names nodes : length names = length nodes -> named (zip_with name_column names nodes) nodes.
Proof.
  revert nodes. induction names as [|name names IH]; intros [|node nodes] Hl; try done; [constructor|]. constructor; [by exists name|]. apply IH. by injection Hl.
Qed.

Section payloads.
Context (creates : logical_type -> bool) (vector_size : Z) (Hvs : vector_size <= UINT64_MAX).

Definition chunk_scans (cols : list schema) (img : bytes) (chunk : data_chunk) : Prop :=
  forall more, exists w out, 0 <= w <= DUCKNNG_QUACK_MAX_MATERIALIZED_VALUES /\ decodes (scan_chunk creates vector_size cols more) img w out /\ delivers out chunk.

Lemma chunks_code types nodes chunks : nodes_of types nodes -> zlen types <= DUCKNNG_QUACK_MAX_STRUCT_MEMBERS -> Forall (chunk_ok vector_size types) chunks ->
  exists imgs, xemits (encode_chunks (Some <$> chunks) (zlen types)) (concat imgs) /\ length imgs = length chunks /\ forall cols, named cols nodes ->
    Forall2 (chunk_scans cols) imgs chunks /\
    forall limit acc, limit = 0 \/ Forall (fun c => chunk_size c <= limit) chunks -> 0 <= acc -> acc + total_rows chunks <= UINT64_MAX ->
      xreads (validate_loop cols limit (length chunks) acc) (concat imgs) (acc + total_rows chunks).
Proof.
  intros Hn Hl. induction 1 as [|chunk chunks Hc Hcs (imgs & He & Hlen & Hr)].
  - exists []. split; [apply xemits_ret|]. split; [done|]. intros cols _. split; [constructor|]. intros. rewrite Z.add_0_r. apply xreads_ret.
  - destruct (chunk_code creates vector_size Hvs types nodes chunk Hn Hl Hc) as (img & He1 & Hr1). exists (img :: imgs).
    split; [by apply xemits_bind|]. split; [cbn; lia|]. intros cols Hcols. destruct (Hr cols Hcols) as [Hs Hv]. destruct (Hr1 cols Hcols) as [Hs1 Hv1].
    split; [by constructor|]. intros limit acc Hlim Ha Hsum. destruct Hc as (_ & Hsz & _).
    assert (0 <= total_rows chunks) as Ht.
    { clear -Hcs. induction Hcs as [|c cs (_ & H & _) _ IH]; [done|]. cbn [total_rows foldr] in *. unfold total_rows in IH. lia. }
    cbn [concat length total_rows foldr] in *. fold (total_rows chunks) in *. apply Hv1; [|done|lia|].
    + destruct Hlim as [|Hlim]; [by left|]. right. by inversion Hlim.
    + rewrite Z.add_assoc. apply Hv; [|lia|lia]. destruct Hlim as [|Hlim]; [by left|]. right. by inversion Hlim.
Qed.

Lemma schema_reads nodes names types_img names_img : length names = length nodes -> zlen nodes <= DUCKNNG_QUACK_MAX_STRUCT_MEMBERS ->
  xreads (repeat_read (length nodes) read_type) types_img nodes -> xreads (repeat_read (length names) ducknng_quack_read_string_dup) names_img names ->
  xreads ducknng_quack_reader_parse_schema (schema_image (zlen nodes) types_img names_img) (zip_with name_column names nodes).
Proof.
  intros Hlen Hl Ht Hn. pose proof (zlen_nonneg nodes). unfold DUCKNNG_QUACK_MAX_STRUCT_MEMBERS in Hl. unfold ducknng_quack_reader_parse_schema, schema_image.
  assert (Z.to_nat (zlen nodes) = length nodes) as Hz by (unfold zlen; lia). rewrite <- !app_assoc.
  eapply xreads_bind; [by apply xreads_expect|]. eapply xreads_bind; [apply xreads_uleb; sizes|]. unfold DUCKNNG_QUACK_MAX_STRUCT_MEMBERS.
  destruct (Z.ltb_spec 65536 (zlen nodes)); [lia|]. rewrite Hz. eapply xreads_bind; [exact Ht|]. eapply xreads_bind; [by apply xreads_expect|].
  eapply xreads_bind; [apply xreads_uleb; sizes|]. rewrite Z.eqb_refl. cbn [negb]. rewrite <- Hlen. eapply xreads_then; [exact Hn|apply xreads_ret].
Qed.

Lemma skip_list_reads {us} n text skip img : 0 <= n <= UINT64_MAX -> xreads (repeat_read (Z.to_nat n) skip) img us -> xreads (skip_list n text skip) (uleb_image n ++ img) tt.
Proof.
  intros Hn Hs. unfold skip_list. eapply xreads_bind; [by apply xreads_uleb|]. rewrite Z.eqb_refl, andb_false_r. eapply xreads_then; [exact Hs|apply xreads_ret].
Qed.

Lemma schema_skips cols types_img names_img : zlen cols <= DUCKNNG_QUACK_MAX_STRUCT_MEMBERS ->
  (exists us, xreads (repeat_read (length cols) ducknng_quack_skip_type_meta) types_img us) -> (exists us, xreads (repeat_read (length cols) ducknng_quack_skip_string) names_img us) ->
  xreads (skip_schema cols) (schema_image (zlen cols) types_img names_img) tt.
Proof.
  intros Hl (us & Ht) (vs & Hn). pose proof (zlen_nonneg cols). unfold DUCKNNG_QUACK_MAX_STRUCT_MEMBERS in Hl. unfold skip_schema, schema_image.
  assert (Z.to_nat (zlen cols) = length cols) as Hz by (unfold zlen; lia). rewrite <- !app_assoc. apply xreads_peek; [done|]. closed_tests.
  eapply xreads_bind; [by apply xreads_expect|]. rewrite (app_assoc (uleb_image _) types_img). eapply xreads_bind; [eapply skip_list_reads; [sizes|rewrite Hz; exact Ht]|].
  eapply xreads_bind; [by apply xreads_expect|]. eapply skip_list_reads; [sizes|rewrite Hz; exact Hn].
Qed.

(** At the end of a payload. *)
Lemma payload_end_at payload pre k : payload = pre ++ END_image ->
  exists r, payload_end (mk_reader (Some payload) (zlen payload) (zlen pre) k DUCKNNG_QK_OK) = (r, Ok tt).
Proof.
  intros ->. pose proof (xreads_expect DUCKNNG_QUACK_FIELD_END ltac:(done) pre [] k) as H. rewrite app_nil_r in H. unfold payload_end, qx_bind, read_end. fold END_image in H. rewrite H.
  unfold with_reader. cbn [r_off r_len]. rewrite zlen_app, Z.eqb_refl. by eexists.
Qed.

(** One [scan_next] inside a payload. *)
Lemma scan_next_at cols pre img post chunk remaining : chunk_scans cols img chunk -> 0 < remaining -> (remaining = 1 -> post = END_image) ->
  exists out, ducknng_quack_payload_scan_next creates vector_size (pre ++ img ++ post) cols (mk_scan (zlen pre) remaining) =
    (mk_scan (zlen pre + zlen img + (if remaining =? 1 then zlen END_image else 0)) (remaining - 1), Ok out) /\ delivers out chunk.
Proof.
  intros Hs Hr Hp. destruct (Hs (1 <? remaining)) as (w & out & Hw & Hd & Hdel). exists out. split; [|done]. unfold ducknng_quack_payload_scan_next. cbn [scan_remaining scan_offset].
  specialize (Hd pre post 0 ltac:(lia) ltac:(lia)). pose proof (zlen_nonneg img). pose proof (zlen_nonneg post). pose proof (zlen_nonneg pre).
  destruct (Z.eqb_spec remaining 0); [lia|]. assert (zlen (pre ++ img ++ post) =? 0 = false) as ->.
  { apply Z.eqb_neq. rewrite !zlen_app. intros E. assert (zlen img = 0 /\ zlen pre = 0 /\ zlen post = 0) as (E1 & E2 & E3) by lia.
    destruct img; [|rewrite zlen_cons in E1; pose proof (zlen_nonneg img); lia]. destruct pre; [|rewrite zlen_cons in E2; pose proof (zlen_nonneg pre); lia].
    destruct post; [|rewrite zlen_cons in E3; pose proof (zlen_nonneg post); lia]. discriminate Hd. }
  destruct (Z.ltb_spec (zlen (pre ++ img ++ post)) (zlen pre)); [rewrite !zlen_app in *; lia|]. rewrite Hd. cbn [r_off].
  destruct (Z.eqb_spec remaining 1) as [->|Hn].
  - rewrite (Hp eq_refl). change (1 - 1) with 0. cbn [Z.eqb]. pose proof (xreads_expect DUCKNNG_QUACK_FIELD_END ltac:(done) (pre ++ img) [] (0 + w)) as Hx.
    fold END_image in Hx. rewrite app_nil_r, <- !app_assoc, (zlen_app pre img) in Hx. unfold read_end. rewrite Hx. done.
  - destruct (Z.eqb_spec (remaining - 1) 0); [lia|]. by rewrite Z.add_0_r.
Qed.

Lemma scan_all_at cols imgs chunks : Forall2 (chunk_scans cols) imgs chunks -> forall pre,
  exists outs, scan_all creates vector_size (pre ++ concat imgs ++ END_image) cols (length chunks) (mk_scan (zlen pre) (zlen chunks)) = Ok outs /\ Forall2 delivers outs chunks.
Proof.
  induction 1 as [|img chunk imgs chunks Hc Hcs IH]; intros pre; [by exists []|]. cbn [length scan_all concat]. pose proof (zlen_nonneg chunks).
  destruct (scan_next_at cols pre img (concat imgs ++ END_image) chunk (zlen (chunk :: chunks)) Hc) as (out & E & Hd).
  { rewrite zlen_cons. lia. }
  { intros E. rewrite zlen_cons in E. assert (chunks = []) as -> by (destruct chunks as [|c cs]; [done|]; rewrite zlen_cons in E; pose proof (zlen_nonneg cs); lia).
    inversion Hcs; subst. done. }
  rewrite <- app_assoc. rewrite E. cbn [res_bind]. rewrite zlen_cons. replace (1 + zlen chunks - 1) with (zlen chunks) by lia.
  destruct chunks as [|c cs].
  - exists [out]. split; [done|]. by repeat constructor.
  - destruct (Z.eqb_spec (1 + zlen (c :: cs)) 1) as [E1|_]; [rewrite zlen_cons in E1; pose proof (zlen_nonneg cs); lia|]. rewrite Z.add_0_r.
    destruct (IH (pre ++ img)) as (outs & E2 & Hd2). rewrite <- app_assoc, zlen_app in E2. rewrite E2. cbn [res_bind]. exists (out :: outs). split; [done|]. by constructor.
Qed.
End payloads.

Lemma peek_on data pre v rest k : data = pre ++ u16_image v ++ rest -> 0 <= v <= UINT16_MAX ->
  ducknng_quack_peek_u16le (mk_reader (Some data) (zlen data) (zlen pre) k DUCKNNG_QK_OK) = (mk_reader (Some data) (zlen data) (zlen pre) k DUCKNNG_QK_OK, Ok v).
Proof. intros -> Hv. by apply peek_at. Qed.

Lemma reads_on {A} (m : reading A) img a data pre post k : xreads m img a -> data = pre ++ img ++ post ->
  m (mk_reader (Some data) (zlen data) (zlen pre) k DUCKNNG_QK_OK) = (mk_reader (Some data) (zlen data) (zlen (pre ++ img)) k DUCKNNG_QK_OK, Ok a).
Proof. intros Hm ->. rewrite (zlen_app pre img). apply Hm. Qed.

Lemma results_cons imgs : imgs <> [] -> results_image imgs = (u16_image 4 ++ uleb_image (zlen imgs)) ++ concat imgs.
Proof. by destruct imgs. Qed.

Section on_payload.
Context (creates : logical_type -> bool) (vector_size : Z).

Lemma validate_on cols limit imgs chunks pre data k : data = pre ++ results_image imgs ++ END_image -> length imgs = length chunks -> zlen chunks <= UINT64_MAX ->
  xreads (validate_loop cols limit (length chunks) 0) (concat imgs) (total_rows chunks) ->
  exists r, ducknng_quack_reader_validate_results cols limit (mk_reader (Some data) (zlen data) (zlen pre) k DUCKNNG_QK_OK) = (r, Ok (total_rows chunks)).
Proof.
  intros Hd Hl Hz Hv. unfold ducknng_quack_reader_validate_results, qx_bind. destruct (decide (imgs = [])) as [->|Hne].
  - assert (chunks = []) as -> by (by destruct chunks). rewrite (peek_on data pre DUCKNNG_QUACK_FIELD_END []) by (done || (rewrite app_nil_r; exact Hd)).
    cbn [qx_ret]. destruct (payload_end_at data pre k Hd) as (r & E). change (DUCKNNG_QUACK_FIELD_END =? DUCKNNG_QUACK_OUTER_RESULTS) with false. cbv beta iota.
    unfold qx_ret. rewrite E. by eexists.
  - rewrite results_cons in Hd by done. rewrite <- !app_assoc in Hd.
    assert (zlen imgs = zlen chunks) as Hzi by (unfold zlen; lia). pose proof (zlen_nonneg chunks).
    rewrite (peek_on data pre 4 (uleb_image (zlen imgs) ++ concat imgs ++ END_image)) by done. change (4 =? DUCKNNG_QUACK_OUTER_RESULTS) with true. cbv beta iota.
    rewrite (reads_on _ _ _ data pre _ k (xreads_u16 4 ltac:(done)) Hd). rewrite (app_assoc pre) in Hd.
    rewrite (reads_on _ _ _ data (pre ++ u16_image 4) _ k (xreads_uleb (zlen imgs) ltac:(lia)) Hd). rewrite (app_assoc (pre ++ _)) in Hd.
    replace (Z.to_nat (zlen imgs)) with (length chunks) by (rewrite Hzi; unfold zlen; lia).
    rewrite (reads_on _ _ _ data _ _ k Hv Hd). rewrite (app_assoc ((pre ++ _) ++ _)) in Hd. destruct (payload_end_at data _ k Hd) as (r & E). rewrite E. by eexists.
Qed.

Lemma scan_begin_on cols imgs schema data : data = schema ++ results_image imgs ++ END_image -> zlen imgs <= UINT64_MAX -> 0 < zlen schema ->
  xreads (skip_schema cols) schema tt ->
  exists pre, ducknng_quack_payload_scan_begin data cols = Ok (mk_scan (zlen pre) (zlen imgs)) /\ data = pre ++ concat imgs ++ END_image.
Proof.
  intros Hd Hz Hs Hk. unfold ducknng_quack_payload_scan_begin, payload_reader. assert (zlen data =? 0 = false) as ->.
  { apply Z.eqb_neq. rewrite Hd, zlen_app. pose proof (zlen_nonneg (results_image imgs ++ END_image)). lia. }
  unfold qx_bind. change 0 with (zlen ([] : bytes)) at 1. rewrite (reads_on _ _ _ data [] _ 0 Hk Hd). cbn [app]. destruct (decide (imgs = [])) as [->|Hne].
  - rewrite (peek_on data schema DUCKNNG_QUACK_FIELD_END []) by (done || (rewrite app_nil_r; exact Hd)).
    change (DUCKNNG_QUACK_FIELD_END =? DUCKNNG_QUACK_OUTER_RESULTS) with false. cbn [negb]. exists schema. split; [done|exact Hd].
  - rewrite results_cons in Hd by done. rewrite <- !app_assoc in Hd. pose proof (zlen_nonneg imgs).
    rewrite (peek_on data schema 4 (uleb_image (zlen imgs) ++ concat imgs ++ END_image)) by done. change (4 =? DUCKNNG_QUACK_OUTER_RESULTS) with true. cbn [negb]. cbv beta iota.
    rewrite (reads_on _ _ _ data schema _ 0 (xreads_u16 4 ltac:(done)) Hd). rewrite (app_assoc schema) in Hd.
    rewrite (reads_on _ _ _ data (schema ++ u16_image 4) _ 0 (xreads_uleb (zlen imgs) ltac:(lia)) Hd). rewrite (app_assoc (schema ++ _)) in Hd.
    eexists. split; [reflexivity|exact Hd].
Qed.

Lemma bind_columns_spec names nodes types : Forall2 (fun t node => ducknng_quack_node_to_duckdb creates nesting_levels (Some node) 0 = Ok t) types nodes ->
  length names = length nodes -> bind_columns_loop creates (zip_with name_column names nodes) = Ok (zip names types).
Proof.
  intros H. revert names. induction H as [|t node types nodes Ht H IH]; intros [|name names] Hl; try done. cbn [zip_with bind_columns_loop]. rewrite named_to_duckdb, Ht. cbn [res_bind].
  rewrite IH by (by injection Hl). done.
Qed.
End on_payload.

Lemma pass_emits result names nodes chunks types_img names_img imgs : nodes_of (column_types result) nodes -> column_names result = Some <$> names ->
  zlen (column_types result) <= DUCKNNG_QUACK_MAX_STRUCT_MEMBERS -> zlen chunks <= UINT64_MAX -> length imgs = length chunks ->
  xemits (write_types nodes) types_img -> xemits (write_result_names (Some <$> names)) names_img -> xemits (encode_chunks (Some <$> chunks) (zlen (column_types result))) (concat imgs) ->
  xemits (ducknng_quack_encode_result_payload_pass result (Some <$> chunks) true)
    (schema_image (zlen (column_types result)) types_img names_img ++ results_image imgs ++ END_image).
Proof.
  intros Hn Hnm Hl Hz Hlen Te Ne Ce. unfold ducknng_quack_encode_result_payload_pass. pose proof (zlen_nonneg (column_types result)).
  destruct (Z.ltb_spec DUCKNNG_QUACK_MAX_STRUCT_MEMBERS (zlen (column_types result))); [lia|]. unfold DUCKNNG_QUACK_MAX_STRUCT_MEMBERS in Hl.
  assert (xemits (write_result_types (column_types result)) types_img) as Te'.
  { eapply xemits_ext; [exact Te|]. clear -Hn. induction Hn as [|t node types nodes [E _] Hn IH]; intros w; [done|]. cbn [write_result_types write_types].
    unfold qx_bind, of_typed. rewrite E. destruct (write_type node w) as [w1 [[]|]]; [|done]. apply IH. }
  assert (zlen ((Some <$> chunks) : list (option data_chunk)) = zlen imgs) as Hzi by (unfold zlen; rewrite length_fmap; lia).
  rewrite Hnm, Hzi. apply xemits_bind; [|apply xemits_bind; [|apply xemits_end]].
  - cbn [qx_when]. unfold schema_image. emit_steps; [done|sizes|exact Te'|done|sizes|exact Ne].
  - destruct (decide (imgs = [])) as [->|Hne]; [apply xemits_ret|]. rewrite results_cons by done. pose proof (zlen_nonneg imgs).
    assert (0 <? zlen imgs = true) as ->.
    { apply Z.ltb_lt. destruct imgs as [|x imgs]; [done|]. rewrite zlen_cons. pose proof (zlen_nonneg imgs). lia. }
    cbn [qx_when]. assert (zlen imgs = zlen chunks) by (unfold zlen; lia). emit_steps; [done|lia|exact Ce].
Qed.

Lemma duck_nodes creates types : (forall t, creates t = true) -> Forall (duck_ok 65) types ->
  exists nodes, nodes_of types nodes /\ Forall2 (fun t node => ducknng_quack_node_to_duckdb creates nesting_levels (Some node) 0 = Ok t) types nodes.
Proof.
  intros Hc. induction 1 as [|t types Ht Hts (nodes & H1 & H2)]; [exists []; by split; constructor|].
  destruct (duck_converts creates Hc 65 t 0 Ht) as (node & Hf & Hn & Hb); [done|]. exists (node :: nodes).
  split; constructor; try done. apply Hb. unfold nesting_levels. lia.
Qed.

(** C14. A result survives the way through a batch.  For every result whose columns
    have supported types and whose chunks hold vectors of those types, within
    the decoder's limit on values per chunk: the encoder produces a payload of
    the size it measured; the client reads the same column names and types
    from it, validates it to the last byte and counts exactly the rows of the
    chunks; and scanning it delivers the chunks one by one, in order, every row
    of every column with the value it had, nested values and NULLs included. *)
Theorem batch_roundtrip malloc creates vector_size result names chunks :
  allocates malloc -> (forall t, creates t = true) -> vector_size <= UINT64_MAX ->
  Forall (duck_ok 65) (column_types result) -> zlen (column_types result) <= DUCKNNG_QUACK_MAX_STRUCT_MEMBERS ->
  column_names result = Some <$> names -> length names = length (column_types result) -> Forall name_ok names ->
  Forall (chunk_ok vector_size (column_types result)) chunks -> total_rows chunks <= UINT64_MAX -> zlen chunks <= UINT64_MAX ->
  exists size, 0 < size /\ (size <= SIZE_MAX -> exists payload cols s outs, zlen payload = size /\
    ducknng_quack_encode_result_payload malloc result (Some <$> chunks) true = Ok payload /\
    ducknng_quack_payload_parse_schema payload = Ok cols /\
    ducknng_quack_payload_bind_columns creates payload = Ok (cols, zip names (column_types result), total_rows chunks) /\
    ducknng_quack_payload_scan_begin payload cols = Ok s /\ scan_remaining s = zlen chunks /\
    scan_all creates vector_size payload cols (length chunks) s = Ok outs /\ Forall2 delivers outs chunks).
Proof.
  intros Ha Hc Hvs Ht Hl Hnm Hln Hn Hk Hrows Hcz. destruct (duck_nodes creates _ Hc Ht) as (nodes & Hno & Hb).
  pose proof (Forall2_length _ _ _ Hno) as Hlen. assert (Forall (canon 65) nodes) as Hcan by (eapply Forall2_Forall_r; [exact Hno|]; apply Forall_forall; by intros ? _ ? []).
  destruct (types_code nodes Hcan) as (types_img & Te & Tr & Tus & _). destruct (names_code names Hn) as (names_img & Ne & Nr & Nus).
  destruct (chunks_code creates vector_size Hvs _ nodes chunks Hno Hl Hk) as (imgs & Ce & Clen & Cr).
  set (cols := zip_with name_column names nodes). assert (named cols nodes) as Hnamed by (apply named_zip; lia). destruct (Cr cols Hnamed) as [Cs Cv].
  pose proof (pass_emits result names nodes chunks types_img names_img imgs Hno Hnm Hl Hcz Clen Te Ne Ce) as He.
  set (sch := schema_image (zlen (column_types result)) types_img names_img) in *. set (payload := sch ++ results_image imgs ++ END_image) in *.
  assert (zlen nodes = zlen (column_types result)) as Hzn by (unfold zlen; lia). assert (length cols = length nodes) as Hlc by (by apply Forall2_length in Hnamed).
  assert (zlen cols = zlen (column_types result)) as Hzc by (unfold zlen; lia).
  assert (0 < zlen sch) as Hsch.
  { unfold sch, schema_image, u16_image. rewrite !zlen_app, !zlen_cons. pose proof (zlen_nonneg types_img). pose proof (zlen_nonneg names_img). pose proof (zlen_nonneg (uleb_image (zlen (column_types result)))).
    pose proof (zlen_nonneg ([] : bytes)). lia. }
  assert (0 < zlen payload) as Hpos by (unfold payload; rewrite zlen_app; pose proof (zlen_nonneg (results_image imgs ++ END_image)); lia).
  assert (xreads ducknng_quack_reader_parse_schema sch cols) as Hparse by (unfold sch; rewrite <- Hzn; apply schema_reads; (done || lia)).
  assert (xreads (skip_schema cols) sch tt) as Hskip by (unfold sch; rewrite <- Hzc; apply schema_skips; [lia|rewrite Hlc; exact Tus|replace (length cols) with (length names) by lia; exact Nus]).
  assert (zlen imgs = zlen chunks) as Hzi by (unfold zlen; lia).
  exists (zlen payload). split; [done|]. intros Hz. exists payload, cols.
  destruct (scan_begin_on cols imgs sch payload eq_refl ltac:(lia) Hsch Hskip) as (pre & Hbegin & Hpre). exists (mk_scan (zlen pre) (zlen imgs)).
  destruct (scan_all_at creates vector_size cols imgs chunks Cs pre) as (outs & Hscan & Hdel). exists outs. rewrite <- Hpre, <- Hzi in Hscan.
  destruct (validate_on cols 0 imgs chunks sch payload 0 eq_refl Clen Hcz) as (r & Hval); [rewrite <- (Z.add_0_l (total_rows chunks)); apply Cv; [by left|done|lia]|].
  pose proof (reads_on _ _ _ payload [] _ 0 Hparse eq_refl) as Hp. cbn [app] in Hp. change (zlen ([] : bytes)) with 0 in Hp.
  split; [done|]. split; [by apply payload_written|]. split; [|split; [|split; [done|split; [done|split; [exact Hscan|exact Hdel]]]]].
  - unfold ducknng_quack_payload_parse_schema, payload_reader. destruct (Z.eqb_spec (zlen payload) 0); [lia|]. by rewrite Hp.
  - unfold ducknng_quack_payload_bind_columns, payload_reader. destruct (Z.eqb_spec (zlen payload) 0); [lia|]. unfold qx_bind. rewrite Hp.
    unfold of_typed, cols. rewrite (bind_columns_spec creates names nodes (column_types result)) by (done || lia). fold cols. rewrite Hval. done.
Qed.

(** Two columns, INTEGER and VARCHAR[], and one chunk of two rows with a NULL. *)
Definition demo_result : duckdb_result := mk_result [LScalar 4; LList (LScalar 17)] [Some (lit "n"); Some (lit "xs")].
Definition demo_chunk : data_chunk :=
  mk_chunk 2 [(LScalar 4, VFixed None 4 [1; 0; 0; 0; 2; 0; 0; 0]);
              (LList (LScalar 17), VList (Some [1; 0; 0; 0; 0; 0; 0; 0]) [(0, 1); (0, 0)] 1 (VStrings None [lit "abc"]))].

Lemma demo_chunk_ok : chunk_ok 2048 (column_types demo_result) demo_chunk.
Proof.
  split; [done|]. split; [done|]. split; [|done].
  constructor; [|constructor; [|constructor]]; cbn [fst snd chunk_size demo_chunk]; intros node E; vm_compute in E; injection E as <-.
  - by apply (fits_fixed 64 (leaf DUCKNNG_QUACK_LOGICAL_INTEGER)).
  - apply (fits_list 64 DUCKNNG_QUACK_LOGICAL_LIST (leaf DUCKNNG_QUACK_LOGICAL_VARCHAR)); [by left|done|done| |].
    + intros [|[|i]] Hi Hv; [exists 0, 1; done|by vm_compute in Hv|]. change (Z.to_nat 2) with 2%nat in Hi. lia.
    + apply fits_strings; [done|done|done|]. by repeat constructor.
Qed.

Lemma batch_roundtrip_witness : exists size, 0 < size /\ (size <= SIZE_MAX -> exists payload cols,
  ducknng_quack_encode_result_payload (fun n => Some (replicate (Z.to_nat n) 0)) demo_result [Some demo_chunk] true = Ok payload /\
  ducknng_quack_payload_bind_columns (fun _ => true) payload = Ok (cols, [(lit "n", LScalar 4); (lit "xs", LList (LScalar 17))], 2)).
Proof.
  destruct (batch_roundtrip (fun n => Some (replicate (Z.to_nat n) 0)) (fun _ => true) 2048 demo_result [lit "n"; lit "xs"] [demo_chunk]) as (size & Hs & H).
  - intros n Hn. eexists. split; [reflexivity|]. unfold zlen. rewrite length_replicate. lia.
  - done.
  - done.
  - constructor; [|constructor; [|constructor]]; [|apply ok_list]; apply ok_scalar; vm_compute; tauto.
  - done.
  - done.
  - done.
  - by repeat constructor; vm_compute.
  - constructor; [apply demo_chunk_ok|constructor].
  - done.
  - done.
  - exists size. split; [done|]. intros Hz. destruct (H Hz) as (payload & cols & s & outs & _ & E1 & _ & E2 & _). exists payload, cols. exact (conj E1 E2).
Defined.
