(* ===== verification/QuackAppend.v ===== *)
(** Validation of a batch against its decoding: [src/src/ducknng_quack.c].

    [ducknng_quack_payload_append_to_appender] skips through a whole payload
    before it appends the first row.  The theorem of this file says how far
    that promise carries: a payload that passed can only fail later for one of
    the reasons of [late], or because the appender refuses a chunk. *)

From S2P Require Import Prelude Checked QuackCore QuackTypes QuackVectors QuackChecks QuackBatch.

(** ** Types do not touch the counter *)

#[local] Hint Constants Opaque : quack.
#[local] Hint Resolve oblivious_ret oblivious_fail oblivious_const oblivious_u16 oblivious_uleb oblivious_blob oblivious_bool oblivious_peek oblivious_expect : quack.

Lemma oblivious_with {A} (f : ducknng_qk_reader -> reading A) : (forall r k, f (recount k r) = f r) -> (forall r, oblivious (f r)) -> oblivious (with_reader f).
Proof. intros Hf Ho r k. unfold with_reader. rewrite Hf. apply Ho. Qed.

Lemma oblivious_name : oblivious ducknng_quack_read_string_dup.
Proof. unfold ducknng_quack_read_string_dup. oblivious_steps. Qed.
Lemma oblivious_skip_string : oblivious ducknng_quack_skip_string.
Proof. unfold ducknng_quack_skip_string. oblivious_steps. Qed.
Lemma oblivious_shape t : oblivious (ducknng_quack_validate_type_shape t).
Proof. unfold ducknng_quack_validate_type_shape. oblivious_steps. Qed.
#[local] Hint Resolve oblivious_name oblivious_skip_string oblivious_shape oblivious_repeat : quack.

Section oblivious_types.
Context (rn : reading schema) (Hrn : oblivious rn).

Lemma oblivious_pair_loop fuel : forall name type, oblivious (child_pair_loop rn fuel name type).
Proof. induction fuel as [|fuel IH]; intros name type; cbn [child_pair_loop]; oblivious_steps. Qed.
Lemma oblivious_pair : oblivious (ducknng_quack_read_child_pair rn).
Proof. apply oblivious_pair_loop. Qed.
#[local] Hint Resolve oblivious_pair : quack.

Lemma oblivious_field_200 t d : oblivious (read_field_200 rn t d).
Proof. unfold read_field_200. cbv zeta. oblivious_steps. apply oblivious_with; [done|]. intros r. oblivious_steps. Qed.
Lemma oblivious_field_201 t d : oblivious (read_field_201 t d).
Proof. unfold read_field_201. cbv zeta. oblivious_steps. apply oblivious_with; [done|]. intros r. oblivious_steps. Qed.
#[local] Hint Resolve oblivious_field_200 oblivious_field_201 : quack.

Lemma oblivious_info_loop fuel : forall t seen d, oblivious (type_info_loop rn fuel t seen d).
Proof.
  induction fuel as [|fuel IH]; intros t seen d; cbn [type_info_loop]; cbv zeta; [auto with quack|].
  apply oblivious_bind; [auto with quack|intros field]. destruct (field =? DUCKNNG_QUACK_FIELD_END); [oblivious_steps|].
  destruct (field_bit field); [|auto with quack]. destruct (negb _); [auto with quack|].
  destruct (field =? 100); [oblivious_steps|]. destruct (field =? 101); [oblivious_steps|]. destruct (field =? 103); [oblivious_steps|].
  destruct (field =? 200); [|destruct (Z.land _ _ =? 0); [auto with quack|]]; (apply oblivious_bind; [auto with quack|intros [t' d']; auto with quack]).
Qed.
Lemma oblivious_info t : oblivious (ducknng_quack_read_type_info rn t).
Proof. apply oblivious_info_loop. Qed.
#[local] Hint Resolve oblivious_info : quack.

Lemma oblivious_node_loop fuel : forall t a b c, oblivious (type_node_loop rn fuel t a b c).
Proof.
  induction fuel as [|fuel IH]; intros t a b c; cbn [type_node_loop]; [auto with quack|]. unfold qx_when.
  apply oblivious_bind; [auto with quack|intros field]. destruct (field =? DUCKNNG_QUACK_FIELD_END).
  - destruct (negb a); [auto with quack|]. destruct (andb _ _); [auto with quack|]. destruct (negb c); (apply oblivious_bind; [auto with quack|intros; auto with quack]).
  - destruct (field =? DUCKNNG_QUACK_TYPE_ID).
    + destruct a; [auto with quack|]. apply oblivious_bind; [auto with quack|intros v]. destruct (2147483647 <? v); auto with quack.
    + destruct (field =? DUCKNNG_QUACK_TYPE_INFO); [|auto with quack]. destruct (negb a); [auto with quack|]. destruct b; [auto with quack|].
      apply oblivious_bind; [auto with quack|intros p]. destruct (negb (p =? 0)); [|auto with quack]. apply oblivious_bind; auto with quack.
Qed.
End oblivious_types.

Lemma oblivious_type_node n : forall depth, oblivious (ducknng_quack_read_type_node n depth).
Proof. induction n as [|n IH]; intros depth; cbn [ducknng_quack_read_type_node]; destruct (DUCKNNG_QUACK_MAX_NESTING <? depth); auto with quack. apply oblivious_node_loop, IH. Qed.
Lemma oblivious_type : oblivious read_type.
Proof. exact (oblivious_type_node nesting_levels 0). Qed.
#[local] Hint Resolve oblivious_type : quack.

Lemma oblivious_keeps {A} (m : reading A) r : oblivious m -> r_materialized_values (fst (m r)) = r_materialized_values r.
Proof.
  intros H. specialize (H r (r_materialized_values r)). assert (recount (r_materialized_values r) r = r) as E by (by destruct r).
  rewrite E in H. by rewrite H at 1.
Qed.

Lemma zsafe_of {A} (m : reading A) P : xsafe m P -> oblivious m -> zsafe m P.
Proof.
  intros Hx Ho r Hs Hf Hb. specialize (Hx r Hs Hf Hb). apply (oblivious_keeps m r) in Ho. destruct (m r) as [r' [a|e]]; cbn [fst] in Ho; rewrite Ho;
    destruct Hx as (? & ? & ? & Hx); (split; [done|split; [done|split; [lia|split; [lia|split; [by right|]]]]]); [|done].
  destruct Hx. split; [done|]. split; [done|lia].
Qed.

Lemma zsafe_type : zsafe read_type (canon 65).
Proof. apply zsafe_of; [apply read_type_safe|apply oblivious_type]. Qed.

Lemma oblivious_check_types cols : oblivious (check_chunk_types cols).
Proof. induction cols as [|col cols IH]; cbn [check_chunk_types]; oblivious_steps. Qed.
Lemma oblivious_header cols : oblivious (chunk_header cols).
Proof. unfold chunk_header, ducknng_quack_validate_optional_chunk_types. pose proof (oblivious_check_types cols). oblivious_steps. Qed.
Lemma oblivious_wrapper_end more : oblivious (ducknng_quack_consume_chunk_wrapper_end more).
Proof. unfold ducknng_quack_consume_chunk_wrapper_end. oblivious_steps. Qed.

#[local] Hint Resolve zsafe_u16 zsafe_uleb zsafe_blob zsafe_bool zsafe_peek zsafe_expect dsafe_fail zsafe_type : quack.

Lemma zsafe_check_types cols : zsafe (check_chunk_types cols) (fun _ => True).
Proof. induction cols as [|col cols IH]; cbn [check_chunk_types]; dsafe_steps; done. Qed.
#[local] Hint Resolve zsafe_check_types : quack.
Lemma zsafe_header cols : zsafe (chunk_header cols) (fun _ => True).
Proof.
  unfold chunk_header. eapply (dsafe_step _ _ (fun _ => True)); [unfold ducknng_quack_validate_optional_chunk_types; dsafe_steps; done || apply zsafe_check_types|]. intros. dsafe_steps. done.
Qed.
Lemma zsafe_wrapper_end more : zsafe (ducknng_quack_consume_chunk_wrapper_end more) (fun _ => True).
Proof. unfold ducknng_quack_consume_chunk_wrapper_end. dsafe_steps; done. Qed.

(** ** Skipping a vector *)

#[local] Hint Resolve oblivious_vector_type oblivious_prologue oblivious_dictionary oblivious_entry oblivious_sequence oblivious_validity oblivious_header oblivious_wrapper_end : quack.
#[local] Hint Resolve zsafe_vector_type zsafe_prologue zsafe_dictionary zsafe_sequence zsafe_validity zsafe_header zsafe_wrapper_end : quack.

(** Step through a reader whose parts are known not to look at the counter. *)
Ltac oblivious_through :=
  repeat lazymatch goal with
  | |- oblivious (qx_bind _ _) => apply oblivious_bind; [auto with quack|intros ?]
  | |- oblivious (if ?b then _ else _) => destruct b
  | _ => solve [auto with quack]
  end.

Lemma oblivious_end : oblivious read_end.
Proof. apply oblivious_expect. Qed.
Lemma zsafe_end : zsafe read_end (fun _ => True).
Proof. apply zsafe_expect. Qed.
Lemma oblivious_repeat_skip n (m : reading unit) : oblivious m -> oblivious (repeat_skip n m).
Proof. intros Hm. unfold repeat_skip. oblivious_through. Qed.
Lemma zsafe_repeat_skip n : zsafe (repeat_skip n ducknng_quack_skip_string) (fun _ => True).
Proof.
  unfold repeat_skip. eapply dsafe_step; [|intros; by apply zsafe_ret]. apply zsafe_repeat. apply zsafe_of; [apply xsafe_skip_string|apply oblivious_skip_string].
Qed.
Lemma oblivious_mul a b text : oblivious (@ducknng_quack_idx_mul a b text ducknng_qk_reader).
Proof. unfold ducknng_quack_idx_mul. destruct (ducknng_u64_mul a b); auto with quack. Qed.
#[local] Hint Resolve oblivious_end oblivious_repeat_skip oblivious_mul zsafe_end zsafe_repeat_skip : quack.

Section skip_oblivious.
Context (skp : option schema -> Z -> reading unit) (Ho : forall node rows, oblivious (skp node rows)).

Lemma skip_children_oblivious node rows n : forall i, oblivious (read_children (fun c => skp c rows) node n i).
Proof. induction n as [|n IH]; intros i; cbn [read_children]; oblivious_through. Qed.

Lemma skip_body_oblivious node rows : oblivious (skip_body skp node rows).
Proof. pose proof (skip_children_oblivious node rows (Z.to_nat (nchildren node)) 0). unfold skip_body. cbv zeta. oblivious_through. Qed.

Lemma skip_encoded_oblivious node rows vector_type : oblivious (skip_encoded skp node rows vector_type).
Proof.
  pose proof (skip_body_oblivious node rows). unfold skip_encoded. destruct (vector_type =? DUCKNNG_QUACK_VECTOR_FSST); [auto with quack|].
  destruct (vector_type =? DUCKNNG_QUACK_VECTOR_CONSTANT); [auto with quack|].
  destruct (vector_type =? DUCKNNG_QUACK_VECTOR_DICTIONARY); [apply oblivious_bind; [auto with quack|intros [sel count]; auto with quack]|]. oblivious_through.
Qed.
End skip_oblivious.

Lemma skip_vector_oblivious n : forall node rows depth, oblivious (ducknng_quack_skip_vector_node n node rows depth).
Proof.
  induction n as [|n IH]; intros [node|] rows depth; cbn [ducknng_quack_skip_vector_node]; try solve [auto with quack];
    (destruct (DUCKNNG_QUACK_MAX_NESTING <? depth); [auto with quack|]); [auto with quack|].
  apply oblivious_bind; [auto with quack|]. intros vector_type. apply skip_encoded_oblivious. intros. apply IH.
Qed.

Section skip_safe.
Context (skp : option schema -> Z -> reading unit) (Hz : forall node rows, 0 <= rows <= UINT64_MAX -> zsafe (skp node rows) (fun _ => True)).

Lemma skip_children_safe node rows n : 0 <= rows <= UINT64_MAX -> forall i, zsafe (read_children (fun c => skp c rows) node n i) (fun _ => True).
Proof.
  intros Hr. induction n as [|n IH]; intros i; cbn [read_children]; [by apply zsafe_ret|].
  eapply dsafe_step; [by apply Hz|]. intros. eapply dsafe_step; [apply IH|]. intros. by apply zsafe_ret.
Qed.

Lemma skip_body_safe node rows : 0 <= rows <= UINT64_MAX -> zsafe (skip_body skp node rows) (fun _ => True).
Proof.
  intros Hr. unfold skip_body. cbv zeta. apply dsafe_if; intros _; [|apply dsafe_if; intros _; [|apply dsafe_if; intros _; [|apply dsafe_if; intros _]]].
  - do 3 dsafe_step_tac; [apply dsafe_fail|]. dsafe_step_tac. apply zsafe_end.
  - do 3 dsafe_step_tac; [apply dsafe_fail|]. eapply dsafe_step; [by apply skip_children_safe|]. intros. apply zsafe_end.
  - dsafe_step_tac; [apply dsafe_fail|]. do 5 dsafe_step_tac; [apply dsafe_fail|]. eapply dsafe_step; [apply zsafe_repeat, zsafe_entry; lia|]. intros. dsafe_step_tac.
    eapply dsafe_step; [apply Hz; lia|]. intros. apply zsafe_end.
  - dsafe_step_tac; [apply dsafe_fail|]. do 4 dsafe_step_tac; [apply dsafe_fail|]. eapply dsafe_step; [apply idx_mul_safe; lia|]. intros child_rows [Hcr _].
    eapply dsafe_step; [by apply Hz|]. intros. apply zsafe_end.
  - do 3 dsafe_step_tac; [apply dsafe_fail|]. apply zsafe_end.
Qed.

Lemma skip_encoded_safe node rows vector_type : 0 <= rows <= UINT64_MAX -> zsafe (skip_encoded skp node rows vector_type) (fun _ => True).
Proof.
  intros Hr. unfold skip_encoded. apply dsafe_if; intros _; [apply dsafe_fail|]. apply dsafe_if; intros _; [|apply dsafe_if; intros _; [|apply dsafe_if; intros _]].
  - apply Hz. sizes.
  - eapply dsafe_step; [apply zsafe_dictionary|]. intros [sel count] [Hc _]. by apply Hz.
  - dsafe_step_tac; [apply dsafe_fail|]. eapply dsafe_step; [apply zsafe_sequence|]. intros. apply zsafe_end.
  - do 2 dsafe_step_tac. by apply skip_body_safe.
Qed.
End skip_safe.

Lemma skip_vector_safe n : forall node rows depth, 0 <= depth -> 65 <= depth + Z.of_nat n -> 0 <= rows <= UINT64_MAX ->
  zsafe (ducknng_quack_skip_vector_node n node rows depth) (fun _ => True).
Proof.
  induction n as [|n IH]; intros [node|] rows depth Hd Hn Hr; cbn [ducknng_quack_skip_vector_node]; try apply dsafe_fail;
    (apply dsafe_if; intros T; [apply dsafe_fail|]); apply Z.ltb_ge in T; unfold DUCKNNG_QUACK_MAX_NESTING in T; [lia|].
  dsafe_step_tac. apply skip_encoded_safe; [|done]. intros. apply IH; lia.
Qed.

(** ** Skipping a chunk *)

Lemma each_oblivious {A} (f : schema -> reading A) cols : (forall col, oblivious (f col)) -> oblivious (each_column f cols).
Proof. intros Hf. induction cols as [|col cols IH]; cbn [each_column]; oblivious_through. Qed.

Lemma skip_columns_oblivious cols rows : oblivious (skip_columns cols rows).
Proof. unfold skip_columns. apply oblivious_bind; [|auto with quack]. apply each_oblivious. intros. apply skip_vector_oblivious. Qed.

Lemma skip_columns_safe cols rows : 0 <= rows <= UINT64_MAX -> zsafe (skip_columns cols rows) (fun _ => True).
Proof.
  intros Hr. unfold skip_columns. eapply (dsafe_step _ _ (fun _ => True)); [|intros; by apply zsafe_ret].
  induction cols as [|col cols IH]; cbn [each_column]; [by apply zsafe_ret|]. eapply dsafe_step; [apply skip_vector_safe; [lia|unfold nesting_levels; lia|done]|].
  intros. eapply dsafe_step; [exact IH|]. intros. by apply zsafe_ret.
Qed.

Lemma track_columns creates cols rows : 0 <= rows <= UINT64_MAX ->
  tracks creates (each_column (fun col => ducknng_quack_decode_vector_into creates nesting_levels (Some col) rows 0 rows 0) cols) (skip_columns cols rows) any.
Proof.
  intros Hr. assert (tracks creates (each_column (fun col => ducknng_quack_decode_vector_into creates nesting_levels (Some col) rows 0 rows 0) cols)
    (each_column (fun col => ducknng_quack_skip_vector_node nesting_levels (Some col) rows 0) cols) any) as H.
  { induction cols as [|col cols IH]; cbn [each_column]; [by apply tracks_ret|]. eapply tracks_bind; [by apply track_vector|]. intros c u _.
    eapply tracks_bind; [exact IH|]. intros. by apply tracks_ret. }
  intros r k Hh. specialize (H r k Hh). unfold skip_columns, qx_bind. destruct (each_column _ cols r) as [r' [cs|e]].
  - destruct H as (H1 & us & -> & _). split; [done|]. by exists tt.
  - destruct H as [H|(r2 & e' & ->)]; [by left|]. right. by eexists _, _.
Qed.

(** What is left of a chunk after its row count, validated and scanned. *)
Definition validated_rows (cols : list schema) (limit : Z) (more : bool) (rows : Z) : reading Z :=
  try! _ := chunk_header cols in
  try! _ := skip_columns cols rows in
  try! _ := read_end in
  try! _ := ducknng_quack_consume_chunk_wrapper_end more in
  if ((0 <? limit) && (limit <? rows))%bool then qx_fail "ducknng: quack chunk exceeds the supported vector size" else qx_ret rows.

Definition validated_chunk (cols : list schema) (limit : Z) (more : bool) : reading Z :=
  try! present := ducknng_quack_read_boolean "ducknng: quack chunk presence flag is not boolean" in
  if present =? 0 then qx_fail "ducknng: quack payload contained a NULL chunk pointer" else
  try! _ := ducknng_quack_read_expect_field DUCKNNG_QUACK_CHUNK_WRAPPER in
  try! _ := ducknng_quack_read_expect_field DUCKNNG_QUACK_CHUNK_ROWS in
  try! rows := ducknng_quack_read_uleb128 in
  validated_rows cols limit more rows.

Definition scanned_rows (creates : logical_type -> bool) (vector_size : Z) (cols : list schema) (more : bool) (rows : Z) : reading (option output_chunk) :=
  if vector_size <? rows then qx_fail "ducknng: quack chunk exceeds output vector capacity" else
  if rows <=? 0 then
    try! _ := chunk_header cols in
    try! _ := skip_columns cols rows in
    try! _ := read_end in
    try! _ := ducknng_quack_consume_chunk_wrapper_end more in
    qx_ret None
  else
    try! _ := chunk_header cols in
    try! columns := each_column (fun col => ducknng_quack_decode_vector_into creates nesting_levels (Some col) rows 0 rows 0) cols in
    try! _ := read_end in
    try! _ := ducknng_quack_consume_chunk_wrapper_end more in
    qx_ret (Some (mk_output rows columns)).

Lemma validate_step cols limit n acc r : validate_loop cols limit (S n) acc r =
  (try! rows := validated_chunk cols limit (0 <? Z.of_nat n) in
   try! acc := ducknng_quack_idx_add acc rows "ducknng: quack row count overflows supported size" in
   validate_loop cols limit n acc) r.
Proof.
  cbn [validate_loop]. unfold validated_chunk, validated_rows, ducknng_quack_skip_data_chunk, qx_bind, qx_ret.
  destruct (ducknng_quack_read_boolean _ r) as [r1 [p|]]; [|done]. destruct (p =? 0); [done|].
  destruct (ducknng_quack_read_expect_field DUCKNNG_QUACK_CHUNK_WRAPPER r1) as [r2 [[]|]]; [|done].
  destruct (ducknng_quack_read_expect_field DUCKNNG_QUACK_CHUNK_ROWS r2) as [r3 [[]|]]; [|done].
  destruct (ducknng_quack_read_uleb128 r3) as [r4 [rows|]]; [|done]. destruct (chunk_header cols r4) as [r5 [[]|]]; [|done].
  destruct (skip_columns cols rows r5) as [r6 [[]|]]; [|done]. destruct (read_end r6) as [r7 [[]|]]; [|done].
  destruct (ducknng_quack_consume_chunk_wrapper_end _ r7) as [r8 [[]|]]; [|done]. by destruct (andb _ _).
Qed.

Lemma scan_step creates vector_size cols more r : scan_chunk creates vector_size cols more r =
  (try! present := ducknng_quack_read_boolean "ducknng: quack chunk presence flag is not boolean" in
   if present =? 0 then of_typed (Err None) else
   try! _ := ducknng_quack_read_expect_field DUCKNNG_QUACK_CHUNK_WRAPPER in
   try! _ := ducknng_quack_read_expect_field DUCKNNG_QUACK_CHUNK_ROWS in
   try! rows := ducknng_quack_read_uleb128 in
   scanned_rows creates vector_size cols more rows) r.
Proof.
  unfold scan_chunk, scanned_rows, ducknng_quack_decode_data_chunk_slice, qx_bind, qx_ret.
  destruct (ducknng_quack_read_boolean _ r) as [r1 [p|]]; [|done]. destruct (p =? 0); [done|].
  destruct (ducknng_quack_read_expect_field DUCKNNG_QUACK_CHUNK_WRAPPER r1) as [r2 [[]|]]; [|done].
  destruct (ducknng_quack_read_expect_field DUCKNNG_QUACK_CHUNK_ROWS r2) as [r3 [[]|]]; [|done].
  destruct (ducknng_quack_read_uleb128 r3) as [r4 [rows|]]; [|done]. rewrite Z.sub_0_r. destruct (vector_size <? rows) eqn:E; [done|]. cbv zeta. rewrite Bool.andb_false_r.
  destruct (rows <=? 0).
  - destruct (chunk_header cols r4) as [r5 [[]|]]; [|done]. destruct (skip_columns cols rows r5) as [r6 [[]|]]; [|done]. by destruct (read_end r6) as [r7 [[]|]].
  - replace (if ducknng_quack_schema_has_nested cols then rows else rows) with rows by (by destruct (ducknng_quack_schema_has_nested cols)).
    destruct (chunk_header cols r4) as [r5 [[]|]]; [|done]. destruct (each_column _ cols r5) as [r6 [cs|]]; [|done]. by destruct (read_end r6) as [r7 [[]|]].
Qed.

(** The size of an output is the row count; only an empty chunk has none. *)
Definition sized (out : option output_chunk) (rows : Z) : Prop :=
  0 <= rows <= UINT64_MAX /\ match out with Some o => out_size o = rows /\ 0 < rows | None => rows = 0 end.

Section track_chunks.
Context (creates : logical_type -> bool) (vector_size : Z) (Hvs : 0 < vector_size).

#[local] Hint Resolve skip_columns_oblivious skip_columns_safe : quack.

Lemma tracks_ext {A C} (d d' : reading A) (s : reading C) R : tracks creates d s R -> (forall r, d' r = d r) -> tracks creates d' s R.
Proof. intros H E r k Hr. rewrite E. by apply H. Qed.

Lemma too_long cols more rows : vector_size < rows -> tracks creates (qx_fail "ducknng: quack chunk exceeds output vector capacity") (validated_rows cols vector_size more rows) sized.
Proof.
  intros H r k Hr. right. unfold validated_rows, qx_bind, qx_fail, qx_ret. destruct (Z.ltb_spec 0 vector_size); [|lia]. destruct (Z.ltb_spec vector_size rows); [|lia]. cbn [andb].
  destruct (chunk_header cols _) as [r5 [[]|]]; [|by eexists _, _]. destruct (skip_columns cols rows r5) as [r6 [[]|]]; [|by eexists _, _].
  destruct (read_end r6) as [r7 [[]|]]; [|by eexists _, _]. destruct (ducknng_quack_consume_chunk_wrapper_end more r7) as [r8 [[]|]]; by eexists _, _.
Qed.

Lemma track_chunk cols more : tracks creates (scan_chunk creates vector_size cols more) (validated_chunk cols vector_size more) sized.
Proof.
  eapply tracks_ext; [|intros; apply scan_step]. unfold validated_chunk. eapply tracks_step; [apply zsafe_bool|apply oblivious_bool|]. intros p _.
  destruct (p =? 0); [intros r k Hr; right; by eexists _, _|].
  eapply tracks_step; [apply zsafe_expect|apply oblivious_expect|]. intros _ _. eapply tracks_step; [apply zsafe_expect|apply oblivious_expect|]. intros _ _.
  eapply tracks_step; [apply zsafe_uleb|apply oblivious_uleb|]. intros rows Hr. cbv beta in Hr. unfold scanned_rows.
  destruct (Z.ltb_spec vector_size rows) as [Hlt|Hle]; [by apply too_long|]. unfold validated_rows.
  destruct (Z.ltb_spec vector_size rows); [lia|]. rewrite Bool.andb_false_r. destruct (Z.leb_spec rows 0).
  - eapply tracks_step; [apply zsafe_header|apply oblivious_header|]. intros _ _. eapply tracks_step; [by apply skip_columns_safe|apply skip_columns_oblivious|]. intros _ _.
    eapply tracks_step; [apply zsafe_end|apply oblivious_end|]. intros _ _. eapply tracks_step; [apply zsafe_wrapper_end|apply oblivious_wrapper_end|]. intros _ _.
    apply tracks_ret. split; [done|lia].
  - eapply tracks_step; [apply zsafe_header|apply oblivious_header|]. intros _ _. eapply tracks_bind; [by apply track_columns|]. intros cs [] _.
    eapply tracks_step; [apply zsafe_end|apply oblivious_end|]. intros _ _. eapply tracks_step; [apply zsafe_wrapper_end|apply oblivious_wrapper_end|]. intros _ _.
    apply tracks_ret. split; [done|]. split; [done|lia].
Qed.
End track_chunks.

(** ** The schema twice *)

Lemma repeat_length {A} (m : reading A) n : forall r r' l, repeat_read n m r = (r', Ok l) -> length l = n.
Proof.
  induction n as [|n IH]; intros r r' l; cbn [repeat_read]; [by intros [= <- <-]|]. unfold qx_bind. destruct (m r) as [r1 [x|]]; [|done].
  destruct (repeat_read n m r1) as [r2 [xs|]] eqn:E; [|done]. intros [= <- <-]. cbn. f_equal. by eapply IH.
Qed.

Lemma repeat_forget {A} (m : reading A) (m' : reading unit) n : (forall r r' a, m r = (r', Ok a) -> m' r = (r', Ok tt)) ->
  forall r r' l, repeat_read n m r = (r', Ok l) -> repeat_skip n m' r = (r', Ok tt).
Proof.
  intros Hm r r' l. unfold repeat_skip, qx_bind, qx_ret. enough (forall r, repeat_read n m r = (r', Ok l) -> exists us, repeat_read n m' r = (r', Ok us)) as H.
  { intros E. destruct (H r E) as (us & ->). done. }
  clear r. revert l. induction n as [|n IH]; intros l r; cbn [repeat_read]; [intros [= <- _]; by exists []|]. unfold qx_bind.
  destruct (m r) as [r1 [x|]] eqn:Em; [|done]. destruct (repeat_read n m r1) as [r2 [xs|]] eqn:E; [|done]. intros [= <- _].
  rewrite (Hm _ _ _ Em). destruct (IH xs r1 E) as (us & ->). by eexists.
Qed.

Lemma peek_same r v : forall r', ducknng_quack_peek_u16le r = (r', Ok v) -> r' = r.
Proof.
  intros r'. unfold ducknng_quack_peek_u16le, ducknng_quack_reader_result, ducknng_qk_peek_u16le, qk_bind. destruct (ducknng_qk_reader_need 2 r) as [r1 [[]|]] eqn:E; [|done].
  intros [= <- _]. unfold ducknng_qk_reader_need in E. cases_in E; by injection E.
Qed.

Lemma expect_peeks field r r' : ducknng_quack_read_expect_field field r = (r', Ok tt) -> ducknng_quack_peek_u16le r = (r, Ok field).
Proof.
  unfold ducknng_quack_read_expect_field, qx_bind. destruct (ducknng_quack_read_u16le r) as [r1 [v|]] eqn:E; [|done].
  destruct (Z.eqb_spec v field) as [->|]; [|done]. intros _. unfold ducknng_quack_read_u16le, ducknng_quack_reader_result, ducknng_qk_read_u16le, qk_bind in E.
  destruct (ducknng_quack_peek_u16le r) as [rp [w|]] eqn:Ep; pose proof Ep as Ep'; unfold ducknng_quack_peek_u16le, ducknng_quack_reader_result in Ep'.
  - pose proof (peek_same _ _ _ Ep) as ->. destruct (ducknng_qk_peek_u16le r) as [rq [u|]]; [|done]. injection Ep' as -> ->. by injection E as _ ->.
  - destruct (ducknng_qk_peek_u16le r) as [rq [u|]]; [done|]. done.
Qed.

Lemma healthy_after {A} (m : reading A) P r r' a : zsafe m P -> healthy r -> m r = (r', Ok a) ->
  healthy r' /\ P a /\ r_data r' = r_data r /\ r_len r' = r_len r.
Proof.
  intros Hz (H1 & H2 & H3) E. specialize (Hz r H1 H2 H3). rewrite E in Hz. destruct Hz as (D & L & O & _ & _ & S & Hp & _).
  split; [|done]. split; [done|]. rewrite D, L. split; [lia|done].
Qed.

Lemma parse_then_skip r r' cols : healthy r -> ducknng_quack_reader_parse_schema r = (r', Ok cols) -> skip_schema cols r = (r', Ok tt).
Proof.
  intros Hh. unfold ducknng_quack_reader_parse_schema, skip_schema. unfold qx_bind at 1. destruct (ducknng_quack_read_expect_field DUCKNNG_QUACK_OUTER_RESULT_TYPES r) as [r1 [[]|]] eqn:E1; [|done].
  unfold qx_bind at 1. destruct (ducknng_quack_read_uleb128 r1) as [r2 [ncols|]] eqn:E2; [|done]. destruct (DUCKNNG_QUACK_MAX_STRUCT_MEMBERS <? ncols); [done|].
  unfold qx_bind at 1. destruct (repeat_read (Z.to_nat ncols) read_type r2) as [r3 [cs|]] eqn:E3; [|done].
  unfold qx_bind at 1. destruct (ducknng_quack_read_expect_field DUCKNNG_QUACK_OUTER_RESULT_NAMES r3) as [r4 [[]|]] eqn:E4; [|done].
  unfold qx_bind at 1. destruct (ducknng_quack_read_uleb128 r4) as [r5 [count|]] eqn:E5; [|done]. destruct (Z.eqb_spec count ncols) as [->|]; [|done]. cbn [negb].
  unfold qx_bind at 1. destruct (repeat_read (Z.to_nat ncols) ducknng_quack_read_string_dup r5) as [r6 [names|]] eqn:E6; [|done]. intros [= <- <-].
  pose proof (repeat_length _ _ _ _ _ E3) as L3. pose proof (repeat_length _ _ _ _ _ E6) as L6. set (cols := zip_with name_column names cs).
  assert (length cols = Z.to_nat ncols) as Hl by (unfold cols; rewrite length_zip_with; lia).
  assert (forall text skip ra rb rc us, ducknng_quack_read_uleb128 ra = (rb, Ok ncols) -> repeat_skip (Z.to_nat ncols) skip rb = (rc, Ok us) -> ncols = zlen cols ->
    skip_list (zlen cols) text skip ra = (rc, Ok us)) as Hskip.
  { intros text skip ra rb rc us Ea Eb Hn. unfold skip_list, qx_bind. by rewrite Ea, <- Hn, Z.eqb_refl, andb_false_r. }
  destruct (healthy_after _ _ _ _ _ (zsafe_expect _) Hh E1) as (Hh1 & _). destruct (healthy_after _ _ _ _ _ zsafe_uleb Hh1 E2) as (_ & Hn & _). cbv beta in Hn.
  assert (ncols = zlen cols) as Hz by (unfold zlen; lia).
  unfold qx_bind at 1. rewrite (expect_peeks _ _ _ E1). change (DUCKNNG_QUACK_OUTER_RESULT_TYPES =? DUCKNNG_QUACK_OUTER_RESULT_TYPES) with true. cbv iota.
  unfold qx_bind at 1. rewrite E1. unfold qx_bind at 1, ducknng_quack_skip_type_list. rewrite (Hskip _ _ r1 r2 r3 tt E2); [| |done].
  - unfold qx_bind at 1. rewrite E4. apply (Hskip _ _ r4 r5 r6 tt E5); [|done]. eapply repeat_forget; [|exact E6]. intros ra rb s0. unfold ducknng_quack_read_string_dup, ducknng_quack_skip_string, qx_bind.
    destruct (ducknng_quack_read_blob_view ra) as [rc [b|]]; [|done]. destruct (existsb (Z.eqb 0) b); [done|]. by intros [= <- _].
  - eapply repeat_forget; [|exact E3]. intros ra rb t. unfold ducknng_quack_skip_type_meta, qx_bind. by intros ->.
Qed.

(** ** Appending *)

Lemma zsafe_validated cols limit more : zsafe (validated_chunk cols limit more) (fun rows => 0 <= rows <= UINT64_MAX).
Proof.
  unfold validated_chunk, validated_rows. do 2 dsafe_step_tac; [apply dsafe_fail|]. do 3 dsafe_step_tac. eapply dsafe_step; [apply zsafe_header|]. intros.
  eapply dsafe_step; [by apply skip_columns_safe|]. intros. eapply dsafe_step; [apply zsafe_end|]. intros. eapply dsafe_step; [apply zsafe_wrapper_end|]. intros.
  dsafe_step_tac; [apply dsafe_fail|]. by apply zsafe_ret.
Qed.

Definition total_size (chunks : list output_chunk) : Z := foldr (fun c acc => out_size c + acc) 0 chunks.

Lemma idx_add_ok {S} a b text (s s' : S) c : 0 <= a -> 0 <= b -> ducknng_quack_idx_add a b text s = (s', Ok c) -> s' = s /\ c = a + b /\ a + b <= UINT64_MAX.
Proof.
  intros Ha Hb. unfold ducknng_quack_idx_add, ducknng_u64_add. destruct (Z.ltb_spec (UINT64_MAX - a) b); [done|]. intros [= <- <-]. rewrite u64_small by lia. split; [done|lia].
Qed.

Section appending.
Context (creates : logical_type -> bool) (vector_size : Z) (Hvs : 0 < vector_size) (accepts : output_chunk -> option bytes).

(** Why an append fails after the validation passed. *)
Definition append_failure (e : option bytes) : Prop :=
  late creates e \/ exists chunk text, accepts chunk = Some text /\ e = Some (if zlen text =? 0 then lit "ducknng: quack append to table failed" else text).

(** The chunks [a'] took beside those of [a], and what the loop reports. *)
Definition appends (a a' : duckdb_appender) (o : typed Z) (rows : Z) (start : Z) : Prop :=
  exists more, a' = mk_appender (appender_types a) (appended_chunks a ++ more) /\ Forall (fun c => accepts c = None /\ 0 < out_size c) more /\
    match o with Ok n => n = start + rows /\ total_size more = rows | Err e => append_failure e end.

(** The next chunk of the scan, when the validation passed over it. *)
Lemma scan_next_valid cols payload r n r1 rows : healthy r -> r_data r = Some payload -> r_len r = zlen payload ->
  validated_chunk cols vector_size (0 <? Z.of_nat n) r = (r1, Ok rows) -> (n = 0%nat -> exists r2, read_end r1 = (r2, Ok tt)) -> 0 < zlen payload ->
  match ducknng_quack_payload_scan_next creates vector_size payload cols (mk_scan (r_off r) (Z.of_nat (S n))) with
  | (s, Ok out) => sized out rows /\ scan_remaining s = Z.of_nat n /\ (n <> 0%nat -> scan_offset s = r_off r1)
  | (_, Err e) => late creates e
  end.
Proof.
  intros Hh Hd Hl Hv He Hp. pose proof (track_chunk creates vector_size Hvs cols (0 <? Z.of_nat n) (recount 0 r) (r_materialized_values r)) as Ht.
  assert (recount (r_materialized_values r) (recount 0 r) = r) as Er by (by destruct r). rewrite Er, Hv in Ht.
  assert (healthy (recount 0 r)) as Hh0 by exact Hh. specialize (Ht Hh0). unfold ducknng_quack_payload_scan_next. cbn [scan_remaining scan_offset].
  destruct Hh as (Hs & Ho & _). destruct (Z.eqb_spec (zlen payload) 0); [lia|]. destruct (Z.eqb_spec (Z.of_nat (S n)) 0); [lia|]. destruct (Z.ltb_spec (zlen payload) (r_off r)); [lia|].
  replace (1 <? Z.of_nat (S n)) with (0 <? Z.of_nat n) by (destruct (Z.ltb_spec 0 (Z.of_nat n)), (Z.ltb_spec 1 (Z.of_nat (S n))); (done || lia)).
  replace (mk_reader (Some payload) (zlen payload) (r_off r) 0 DUCKNNG_QK_OK) with (recount 0 r) by (unfold recount; by rewrite Hd, Hl, Hs).
  destruct (scan_chunk creates vector_size cols (0 <? Z.of_nat n) (recount 0 r)) as [rs [out|e]]; [|destruct Ht as [Ht|(x & y & [=])]; done].
  destruct Ht as (Hhs & c & [= -> ->] & Hsz). cbn [scan_remaining]. replace (Z.of_nat (S n) - 1) with (Z.of_nat n) by lia.
  destruct (Z.eqb_spec (Z.of_nat n) 0) as [E|E].
  - destruct He as (r2 & Hr2); [lia|]. pose proof (oblivious_end rs (r_materialized_values r)) as Hob. rewrite Hr2 in Hob. destruct (read_end rs) as [r3 [[]|]]; [|done].
    split; [done|]. split; [by rewrite E|lia].
  - split; [done|]. split; [done|]. done.
Qed.

Lemma append_loop_valid cols payload n : forall r acc total r' a start fuel, (n <= fuel)%nat -> healthy r -> r_data r = Some payload -> r_len r = zlen payload -> 0 < zlen payload ->
  0 <= acc -> validate_loop cols vector_size n acc r = (r', Ok total) -> (exists r2, read_end r' = (r2, Ok tt)) -> 0 <= start -> start + (total - acc) <= UINT64_MAX ->
  acc <= total /\ forall s, scan_remaining s = Z.of_nat n -> (n <> 0%nat -> scan_offset s = r_off r) ->
  let (a', o) := append_loop creates vector_size accepts payload cols fuel s a start in appends a a' o (total - acc) start.
Proof.
  induction n as [|n IH]; intros r acc total r' a start fuel Hf Hh Hd Hl Hp Ha Hv He Hst Hsum.
  - injection Hv as <- <-. split; [lia|]. intros s Hr _. assert (append_loop creates vector_size accepts payload cols fuel s a start = (a, Ok start)) as -> by (destruct fuel; cbn [append_loop]; by rewrite Hr).
    exists []. rewrite app_nil_r. split; [by destruct a|]. split; [constructor|]. cbn. lia.
  - rewrite validate_step in Hv. unfold qx_bind at 1 in Hv. destruct (validated_chunk cols vector_size (0 <? Z.of_nat n) r) as [r1 [rows|]] eqn:Ev; [|done].
    destruct (healthy_after _ _ _ _ _ (zsafe_validated _ _ _) Hh Ev) as (Hh1 & Hrows & Hd1 & Hl1). cbv beta in Hrows.
    unfold qx_bind at 1 in Hv. destruct (ducknng_quack_idx_add acc rows _ r1) as [rx [acc'|]] eqn:Ea; [|done]. apply idx_add_ok in Ea as (-> & -> & Hsum1); [|lia|lia].
    assert (forall a start', 0 <= start' -> start' + (total - (acc + rows)) <= UINT64_MAX -> acc + rows <= total /\ forall s, scan_remaining s = Z.of_nat n -> (n <> 0%nat -> scan_offset s = r_off r1) ->
      let (a', o) := append_loop creates vector_size accepts payload cols (pred fuel) s a start' in appends a a' o (total - (acc + rows)) start') as IH'.
    { intros b st Hb Hst'. apply (IH r1 (acc + rows) total r'); (done || lia || congruence). }
    destruct (IH' a start Hst ltac:(lia)) as [Hle _]. split; [lia|]. intros s Hr Hoff. destruct fuel as [|fuel]; [lia|]. cbn [append_loop pred] in *.
    rewrite Hr. destruct (Z.eqb_spec (Z.of_nat (S n)) 0); [lia|].
    pose proof (scan_next_valid cols payload r n r1 rows Hh Hd Hl Ev) as Hs. assert (s = mk_scan (r_off r) (Z.of_nat (S n))) as -> by (destruct s; cbn in *; f_equal; [by apply Hoff|done]).
    destruct (ducknng_quack_payload_scan_next _ _ _ _ _) as [s' [out|e]]; [|exists []; rewrite app_nil_r; split; [by destruct a|split; [constructor|left; apply Hs; [|done]]]].
    2:{ intros ->. injection Hv as <- _. exact He. }
    destruct Hs as ((_ & Hsz) & Hrem & Hoff'); [intros ->; by injection Hv as <- _|done|]. destruct out as [out|].
    + destruct Hsz as [Hsize Hpos]. change (default (mk_output 0 []) (Some out)) with out. destruct (Z.eqb_spec (out_size out) 0); [lia|].
      destruct (accepts out) as [text|] eqn:Eacc; [exists []; rewrite app_nil_r; split; [by destruct a|split; [constructor|right; by exists out, text]]|].
      rewrite u64_small by lia. destruct (IH' (mk_appender (appender_types a) (appended_chunks a ++ [out])) (start + out_size out) ltac:(lia) ltac:(lia)) as [_ H]. specialize (H s' Hrem Hoff').
      destruct (append_loop _ _ _ _ _ _ _ _ _) as [a' o]. destruct H as (more & -> & HF & Ho). exists (out :: more). cbn [appender_types appended_chunks]. rewrite <- app_assoc.
      split; [done|]. split; [constructor; [split; [done|lia]|done]|]. destruct o as [k|e]; [|done]. cbn [total_size foldr]. fold (total_size more). lia.
    + change (default (mk_output 0 []) None) with (mk_output 0 []). cbn [out_size Z.eqb]. subst rows. destruct (IH' a start ltac:(lia) ltac:(lia)) as [_ H]. specialize (H s' Hrem Hoff').
      rewrite Z.add_0_r in H. exact H.
Qed.
End appending.

(** What a preflight that passed has read. *)
Lemma preflight_reads creates vector_size payload names targets cols expected : all_bytes payload ->
  append_preflight creates vector_size payload names targets = Ok (cols, expected) ->
  exists r1 r2, healthy r1 /\ r_data r1 = Some payload /\ r_len r1 = zlen payload /\ skip_schema cols (payload_reader payload) = (r1, Ok tt) /\
    ducknng_quack_reader_validate_results cols vector_size r1 = (r2, Ok expected).
Proof.
  intros Hb. unfold append_preflight. assert (healthy (payload_reader payload)) as Hh by (split; [done|]; split; [cbn; pose proof (zlen_nonneg payload); lia|done]).
  destruct (ducknng_quack_reader_parse_schema (payload_reader payload)) as [r1 [cs|e]] eqn:Ep; unfold qx_bind at 1; rewrite Ep; [|done].
  destruct (zlen cs =? 0); [done|]. unfold qx_bind at 1. destruct (ducknng_quack_reader_validate_results cs vector_size r1) as [r2 [rows|e]] eqn:Ev; [|done].
  cbn [snd qx_ret res_bind]. destruct (negb (zlen targets =? zlen cs)); [done|].
  match goal with |- res_bind ?x _ = _ -> _ => destruct x as [[]|]; [|done] end. cbn [res_bind].
  destruct (match_types creates cs targets) as [[]|]; [|done]. cbn [res_bind]. intros [= <- <-].
  pose proof (parse_then_skip _ _ _ Hh Ep) as Hs. exists r1, r2.
  assert (zsafe ducknng_quack_reader_parse_schema (fun _ => True)) as Hz.
  { unfold ducknng_quack_reader_parse_schema. do 3 dsafe_step_tac; [apply dsafe_fail|]. eapply dsafe_step; [apply zsafe_repeat, zsafe_type|]. intros. do 3 dsafe_step_tac; [apply dsafe_fail|].
    eapply dsafe_step; [apply zsafe_repeat, (zsafe_of _ _ xsafe_name oblivious_name)|]. intros. by apply zsafe_ret. }
  destruct (healthy_after _ _ _ _ _ Hz Hh Ep) as (Hh1 & _ & Hd & Hl). done.
Qed.

Lemma end_reads r r' : payload_end r = (r', Ok tt) -> exists r2, read_end r = (r2, Ok tt).
Proof. unfold payload_end, qx_bind. destruct (read_end r) as [r1 [[]|]]; [|done]. by eexists. Qed.

(** A scan starts where the validation of the chunks started. *)
Lemma scan_begin_valid cols vector_size payload r1 r2 expected : 0 < zlen payload -> healthy r1 -> r_data r1 = Some payload -> r_len r1 = zlen payload ->
  skip_schema cols (payload_reader payload) = (r1, Ok tt) -> ducknng_quack_reader_validate_results cols vector_size r1 = (r2, Ok expected) ->
  exists s n r3 r4, ducknng_quack_payload_scan_begin payload cols = Ok s /\ scan_remaining s = Z.of_nat n /\ scan_offset s = r_off r3 /\
    healthy r3 /\ r_data r3 = Some payload /\ r_len r3 = zlen payload /\ validate_loop cols vector_size n 0 r3 = (r4, Ok expected) /\ exists r5, read_end r4 = (r5, Ok tt).
Proof.
  intros Hp Hh Hd Hl Hs Hv. unfold ducknng_quack_payload_scan_begin. destruct (Z.eqb_spec (zlen payload) 0); [lia|].
  unfold ducknng_quack_reader_validate_results, qx_bind in Hv. unfold qx_bind. rewrite Hs.
  destruct (ducknng_quack_peek_u16le r1) as [rp [field|]] eqn:Epk; [|done]. pose proof (peek_same _ _ _ Epk) as ->.
  destruct (field =? DUCKNNG_QUACK_OUTER_RESULTS); cbn [negb]; cbv beta iota in *.
  - destruct (ducknng_quack_read_u16le r1) as [ra [v|]] eqn:Ea; [|done]. destruct (ducknng_quack_read_uleb128 ra) as [rb [count|]] eqn:Eb; [|done].
    destruct (validate_loop cols vector_size (Z.to_nat count) 0 rb) as [rc [total|]] eqn:Ec; [|done]. destruct (payload_end rc) as [rd [[]|]] eqn:Ed; [|done]. injection Hv as <- <-.
    destruct (healthy_after _ _ _ _ _ zsafe_u16 Hh Ea) as (Hha & _ & Hda & Hla). destruct (healthy_after _ _ _ _ _ zsafe_uleb Hha Eb) as (Hhb & Hn & Hdb & Hlb). cbv beta in Hn.
    eexists _, (Z.to_nat count), rb, rc. split; [reflexivity|]. cbn [scan_remaining scan_offset]. split; [lia|].
    split; [done|]. split; [done|]. split; [congruence|]. split; [congruence|]. split; [exact Ec|]. by eapply end_reads.
  - unfold qx_ret in Hv. destruct (payload_end r1) as [rd [[]|]] eqn:Ed; [|done]. injection Hv as <- <-.
    eexists _, 0%nat, r1, r1. split; [reflexivity|]. cbn [scan_remaining scan_offset]. do 5 (split; [done|]). split; [done|]. by eapply end_reads.
Qed.

Lemma validate_total cols limit n : forall acc r r' total, 0 <= acc <= UINT64_MAX -> healthy r -> validate_loop cols limit n acc r = (r', Ok total) -> 0 <= total <= UINT64_MAX.
Proof.
  induction n as [|n IH]; intros acc r r' total Ha Hh Hv; [by injection Hv as _ <-|]. rewrite validate_step in Hv. unfold qx_bind in Hv.
  destruct (validated_chunk cols limit _ r) as [r1 [rows|]] eqn:Ev; [|done]. destruct (healthy_after _ _ _ _ _ (zsafe_validated _ _ _) Hh Ev) as (Hh1 & Hr & _). cbv beta in Hr.
  destruct (ducknng_quack_idx_add acc rows _ r1) as [rx [acc'|]] eqn:Ea; [|done]. apply idx_add_ok in Ea as (-> & -> & Hs); [|lia|lia]. eapply IH; [|exact Hh1|exact Hv]. lia.
Qed.

(** C15. An upload reaches the table only after its whole payload was validated,
    whatever its bytes are.  A payload the preflight refuses (its framing, its
    types, its names, any chunk, bytes behind the end) leaves the appender as
    it was.  After a preflight that passed, the appender takes non-empty chunks
    it accepted, in order; a success reports exactly the rows the preflight
    counted; and a failure has one of four causes: too many values, a sequence
    value out of range, a type DuckDB does not create, or a chunk the appender
    refuses.  Only in those cases may earlier chunks of the batch stay behind. *)
Theorem uploads_validated creates vector_size accepts a payload names rows : all_bytes payload -> 0 < vector_size ->
  let (a', o) := ducknng_quack_payload_append_to_appender creates vector_size accepts a payload names rows in
  match append_preflight creates vector_size payload names (appender_types a) with
  | Err _ => a' = a /\ exists e, o = Err e
  | Ok (cols, expected) =>
    exists more, a' = mk_appender (appender_types a) (appended_chunks a ++ more) /\ Forall (fun c => accepts c = None /\ 0 < out_size c) more /\
      match o with Ok n => n = u64 (rows + expected) /\ total_size more = expected | Err e => append_failure creates accepts e end
  end.
Proof.
  intros Hb Hvs. unfold ducknng_quack_payload_append_to_appender. destruct (Z.eqb_spec (zlen payload) 0) as [Hz|Hz].
  - assert (payload = []) as -> by (destruct payload; [done|]; rewrite zlen_cons in Hz; pose proof (zlen_nonneg payload); lia).
    assert (exists e, append_preflight creates vector_size [] names (appender_types a) = Err e) as (e & ->) by (by eexists). split; [done|]. by eexists.
  - destruct (append_preflight creates vector_size payload names (appender_types a)) as [[cols expected]|e] eqn:Ep; [|split; [done|by eexists]].
    destruct (preflight_reads _ _ _ _ _ _ _ Hb Ep) as (r1 & r2 & Hh & Hd & Hl & Hs & Hv). pose proof (zlen_nonneg payload) as Hpl.
    destruct (scan_begin_valid cols vector_size payload r1 r2 expected ltac:(lia) Hh Hd Hl Hs Hv) as (s & n & r3 & r4 & -> & Hn & Ho & Hh3 & Hd3 & Hl3 & Hval & He).
    assert (0 <= expected <= UINT64_MAX) as Hexp by (by eapply (validate_total cols vector_size n 0 r3); [|exact Hh3|exact Hval]).
    destruct (append_loop_valid creates vector_size Hvs accepts cols payload n r3 0 expected r4 a 0 (Z.to_nat (scan_remaining s)) ltac:(lia) Hh3 Hd3 Hl3 ltac:(lia) ltac:(lia) Hval He ltac:(lia) ltac:(lia)) as [_ H].
    specialize (H s Hn (fun _ => Ho)). destruct (append_loop _ _ _ _ _ _ _ _ _) as [a' o]. destruct H as (more & -> & HF & Hr). rewrite Z.sub_0_r in Hr.
    destruct o as [k|e]; [|by exists more]. destruct Hr as [-> Ht]. rewrite Z.add_0_l, Z.eqb_refl. cbn [negb]. by exists more.
Qed.

(** Two chunks of a TINYINT column: one row, then a sequence whose value does
    not fit. *)
Definition demo_upload : bytes :=
  let type := u16_image 100 ++ uleb_image DUCKNNG_QUACK_LOGICAL_TINYINT ++ END_image in
  let chunk vector := [1] ++ u16_image 300 ++ u16_image 100 ++ [1] ++ u16_image 102 ++ [1] ++ vector ++ END_image ++ END_image in
  u16_image 1 ++ [1] ++ type ++ u16_image 2 ++ [1] ++ counted_image (lit "x") ++ u16_image 4 ++ [2] ++
  chunk (u16_image 100 ++ [0] ++ u16_image 102 ++ counted_image [5] ++ END_image) ++
  chunk (u16_image 90 ++ [4] ++ u16_image 91 ++ [0xc8; 0x01] ++ u16_image 92 ++ [0] ++ END_image) ++ END_image.

Definition demo_append : duckdb_appender * typed Z :=
  ducknng_quack_payload_append_to_appender (fun _ => true) 2048 (fun _ => None) (mk_appender [LScalar 2] []) demo_upload (Some [Some (lit "x")]) 0.

(** The batch passes the validation, its second chunk fails, and the row of the
    first stays in the appender. *)
Lemma upload_left_behind :
  match append_preflight (fun _ => true) 2048 demo_upload (Some [Some (lit "x")]) [LScalar 2] with Ok (_, rows) => rows = 2 | Err _ => False end /\
  demo_append = (mk_appender [LScalar 2] [mk_output 1 [CFixed None 1 [5]]], Err (Some (lit "ducknng: quack sequence value is out of range for its logical type"))).
Proof. vm_compute. done. Qed.

Lemma uploads_validated_witness : append_failure (fun _ => true) (fun _ => None) (Some (lit "ducknng: quack sequence value is out of range for its logical type")).
Proof.
  assert (all_bytes demo_upload) as Hb by (apply (bool_decide_eq_true_1 _); vm_compute; reflexivity).
  pose proof (uploads_validated (fun _ => true) 2048 (fun _ => None) (mk_appender [LScalar 2] []) demo_upload (Some [Some (lit "x")]) 0 Hb ltac:(done)) as H.
  destruct upload_left_behind as (Hok & E). unfold demo_append in E. rewrite E in H. cbn [appender_types] in H.
  destruct (append_preflight (fun _ => true) 2048 demo_upload (Some [Some (lit "x")]) [LScalar 2]) as [[cols expected]|e]; [|destruct Hok].
  destruct H as (more & _ & _ & H). exact H.
Defined.
