(* ===== verification/BodyCsv.v ===== *)
(** CSV and TSV bodies: the parser of [src/src/ducknng_sql_body.c].

    A pointer into the body is the list of bytes left before the end the call
    was given (the end of the body, or of a line); a malloc'd field is the C
    string it is used as.  The Arrow schema and array the parser builds are the
    table [csv_table]: the builder calls, which are nanoarrow's, succeed.
    [strtod] is a parameter: its result, [errno] and the text behind the number.
    The row loop carries fuel; every round consumes a byte, so the length of the
    body is enough, and [None] marks its exhaustion. *)

From S2P Require Import Prelude Util HttpHeaders HttpProfile Control.

Definition DUCKNNG_CSV_TYPE_INT64 : Z := 0.
Definition DUCKNNG_CSV_TYPE_DOUBLE : Z := 1.
Definition DUCKNNG_CSV_TYPE_STRING : Z := 2.
Definition DUCKNNG_CSV_MAX_COLS : Z := 1024.

(** ** Lines *)

Definition line_stop (c : Z) : bool := ((c =? 10) || (c =? 13))%bool.

Fixpoint take_line (p : bytes) : bytes :=
  match p with c :: r => if line_stop c then [] else c :: take_line r | [] => [] end.
Fixpoint drop_line (p : bytes) : bytes :=
  match p with c :: r => if line_stop c then p else drop_line r | [] => [] end.

(** [if (p < end && *p == c) p++]. *)
Definition eat (c : Z) (p : bytes) : bytes := match p with d :: r => if d =? c then r else p | [] => [] end.

Definition ducknng_csv_skip_line (p : bytes) : bytes := eat 10 (eat 13 (drop_line p)).

(** ** Fields *)

(** The text of a quoted field, behind its opening quote, and what follows. *)
Fixpoint quoted_field (p : bytes) : bytes * bytes :=
  match p with
  | [] => ([], [])
  | c :: r =>
    if c =? QUOTE then
      match r with
      | d :: r' => if d =? QUOTE then let '(f, rest) := quoted_field r' in (QUOTE :: f, rest) else ([], r)
      | [] => ([], [])
      end
    else let '(f, rest) := quoted_field r in (c :: f, rest)
  end.

(** NULL when nothing was copied. *)
Definition field_value (field : bytes) : option bytes := match field with [] => None | _ => Some (c_text field) end.

Section fields.
Context (delim : Z).

Definition field_stop (c : Z) : bool := ((c =? delim) || (c =? 10) || (c =? 13))%bool.

Fixpoint take_field (p : bytes) : bytes :=
  match p with c :: r => if field_stop c then [] else c :: take_field r | [] => [] end.
Fixpoint skip_field (p : bytes) : bytes :=
  match p with c :: r => if field_stop c then p else skip_field r | [] => [] end.

Definition ducknng_csv_next_field (p : bytes) : option bytes * bytes :=
  match p with
  | [] => (None, [])
  | c :: r =>
    let '(result, rest) :=
      if c =? QUOTE then let '(f, rest) := quoted_field r in (field_value f, skip_field rest)
      else (field_value (take_field p), skip_field p) in
    (result, eat delim rest)
  end.

(** [while (p < line_end && *p != delim) p++]. *)
Fixpoint skip_to_delim (p : bytes) : bytes :=
  match p with c :: r => if c =? delim then p else skip_to_delim r | [] => [] end.

(** The scan past one field of a line. *)
Definition count_skip (line : bytes) : bytes :=
  match line with
  | c :: r => if c =? QUOTE then skip_to_delim (snd (quoted_field r)) else skip_to_delim line
  | [] => []
  end.

Fixpoint count_loop (fuel : nat) (line : bytes) (n : Z) : Z :=
  match fuel with
  | O => n
  | S fuel => match count_skip line with [] => n + 1 | _ :: r => count_loop fuel r (n + 1) end
  end.

Definition ducknng_csv_count_fields (p : bytes) : Z :=
  match take_line p with [] => 0 | line => count_loop (S (length line)) line 0 end.

(** [n] fields from [p], and where the last one left the pointer. *)
Fixpoint next_fields (n : nat) (p : bytes) : list (option bytes) * bytes :=
  match n with
  | O => ([], p)
  | S n => let '(cell, p) := ducknng_csv_next_field p in
           let '(cells, p) := next_fields n p in (cell :: cells, p)
  end.

(** The loop over the data lines. *)
Fixpoint csv_rows_loop (fuel : nat) (cols : nat) (p : bytes) : option (list (list (option bytes))) :=
  match p with
  | [] => Some []
  | c :: _ =>
    match fuel with
    | O => None
    | S fuel =>
      if line_stop c then csv_rows_loop fuel cols (eat 10 (eat 13 p))
      else cons (fst (next_fields cols (take_line p))) <$> csv_rows_loop fuel cols (ducknng_csv_skip_line (drop_line p))
    end
  end.

End fields.

(** ** Values *)

(** [strtoll(s, &endp, 10)]: the value, whether [errno] is set, and [endp];
    [None] is [endp == s]. *)
Definition strtoll (s : bytes) : option (Z * bool * bytes) :=
  let p := ducknng_http_skip_ws s in
  let neg := cur p =? chr "-" in
  let p := if (neg || (cur p =? chr "+"))%bool then zdrop 1 p else p in
  match digits p 0 false with
  | (_, false, _) => None
  | (v, true, rest) =>
    let v := if neg then - v else v in
    Some (if v <? INT64_MIN then (INT64_MIN, true, rest) else if INT64_MAX <? v then (INT64_MAX, true, rest) else (v, false, rest))
  end.

Definition ducknng_csv_try_int64 (s : bytes) : option Z :=
  match s with
  | [] => None
  | _ =>
    match strtoll s with
    | Some (v, false, []) => Some v
    | _ => None
    end
  end.

Inductive csv_cell (double : Type) := CellNull | CellInt (v : Z) | CellDouble (v : double) | CellString (s : bytes).
Arguments CellNull {double}.
Arguments CellInt {double} v.
Arguments CellDouble {double} v.
Arguments CellString {double} s.

(** What the Arrow schema and array hold: a name and a type per column, and
    the rows. *)
Record csv_table (double : Type) := mk_csv_table {
  csv_headers : list bytes; csv_types : list Z; csv_rows : list (list (csv_cell double)) }.
Arguments mk_csv_table {double}.
Arguments csv_headers {double}.
Arguments csv_types {double}.
Arguments csv_rows {double}.

Section values.
Context {double : Type} (zero : double) (strtod : bytes -> double * Z * bytes).

Definition ducknng_csv_try_double (s : bytes) : option double :=
  match s with
  | [] => None
  | _ =>
    let '(val, errno, endp) := strtod s in
    if (negb (errno =? 0) || bool_decide (endp = s) || bool_decide (endp <> []))%bool then None else Some val
  end.

(** The type of a column, over its cells. *)
Fixpoint infer_type (cells : list (option bytes)) (inferred : Z) : Z :=
  match cells with
  | [] => inferred
  | None :: cells => infer_type cells inferred
  | Some v :: cells =>
    let inferred :=
      if inferred =? DUCKNNG_CSV_TYPE_INT64 then
        match ducknng_csv_try_int64 v with Some _ => inferred | None => DUCKNNG_CSV_TYPE_DOUBLE end
      else inferred in
    if inferred =? DUCKNNG_CSV_TYPE_DOUBLE then
      match ducknng_csv_try_double v with
      | None => DUCKNNG_CSV_TYPE_STRING
      | Some _ => infer_type cells inferred
      end
    else infer_type cells inferred
  end.

(** What is appended to the column's array. *)
Definition append_cell (type : Z) (v : option bytes) : csv_cell double :=
  match v with
  | None => CellNull
  | Some v =>
    if type =? DUCKNNG_CSV_TYPE_INT64 then CellInt (default 0 (ducknng_csv_try_int64 v)) else
    if type =? DUCKNNG_CSV_TYPE_DOUBLE then CellDouble (default zero (ducknng_csv_try_double v)) else CellString v
  end.

Definition csv_column (rows : list (list (option bytes))) (col : nat) : list (option bytes) :=
  (fun row => mjoin (row !! col)) <$> rows.

(** The schema and the array, from the header and the cells. *)
Definition csv_build (headers : list bytes) (rows : list (list (option bytes))) : csv_table double :=
  let types := (fun col => infer_type (csv_column rows col) DUCKNNG_CSV_TYPE_INT64) <$> seq 0 (length headers) in
  mk_csv_table headers types ((fun row => zip_with append_cell types row) <$> rows).

Definition ducknng_csv_parse_body (body : bytes) (delimiter : Z) (max_cols : Z) : option (result bytes (csv_table double)) :=
  let col_count := ducknng_csv_count_fields delimiter body in
  if col_count =? 0 then Some (Err (lit "ducknng: CSV body has no header row")) else
  if max_cols <? col_count then Some (Err (lit "ducknng: CSV body exceeds ducknng.csv_max_columns limit")) else
  let '(headers, p) := next_fields delimiter (Z.to_nat col_count) body in
  (fun rows => Ok (csv_build (default [] <$> headers) rows)) <$>
    csv_rows_loop delimiter (length body) (Z.to_nat col_count) (eat 10 (eat 13 p)).

End values.

(** ** The grammar of CSV bodies *)

(** The ends of lines the parser is proved for. *)
Definition csv_eol (e : bytes) : Prop := e = [10] \/ e = [13; 10].

Definition double_quote (c : Z) : bytes := if c =? QUOTE then [QUOTE; QUOTE] else [c].

Section grammar.
Context (delim : Z).

(** A cell and its texts: NULL is written as nothing or as an empty pair of
    quotes, any other cell bare or in quotes. *)
Inductive csv_field : option bytes -> bytes -> Prop :=
| field_null : csv_field None []
| field_null_quoted : csv_field None [QUOTE; QUOTE]
| field_bare c s : c <> QUOTE -> Forall (fun x => is_char x /\ field_stop delim x = false) (c :: s) -> csv_field (Some (c :: s)) (c :: s)
| field_quoted s : s <> [] -> Forall (fun x => is_char x /\ line_stop x = false) s ->
    csv_field (Some s) (QUOTE :: (s ≫= double_quote) ++ [QUOTE]).

Definition csv_line (cells : list (option bytes)) (line : bytes) : Prop :=
  line <> [] /\ exists texts, Forall2 csv_field cells texts /\ line = join [delim] texts.

(** The lines below the header, blank ones among them; the last one may be
    without its end. *)
Inductive csv_lines : list (list (option bytes)) -> bytes -> Prop :=
| lines_end : csv_lines [] []
| lines_blank e rows text : csv_eol e -> csv_lines rows text -> csv_lines rows (e ++ text)
| lines_row row line e rows text : csv_line row line -> csv_eol e -> csv_lines rows text -> csv_lines (row :: rows) (line ++ e ++ text)
| lines_last row line : csv_line row line -> csv_lines [row] line.

(** ** Fields *)

Hypothesis Hdelim : delim <> QUOTE /\ line_stop delim = false.

Lemma line_not_field x : field_stop delim x = false -> line_stop x = false /\ x <> delim.
Proof. unfold field_stop, line_stop. intros H. btests. split; [by apply orb_false_iff; split; apply Z.eqb_neq|done]. Qed.

Lemma take_field_app s rest : Forall (fun x => is_char x /\ field_stop delim x = false) s ->
  (rest = [] \/ field_stop delim (cur rest) = true) ->
  take_field delim (s ++ rest) = s /\ skip_field delim (s ++ rest) = rest.
Proof.
  intros Hs Hr. induction Hs as [|c s [_ Hc] Hs [IH1 IH2]]; cbn.
  - destruct rest as [|d rest]; [done|]. destruct Hr as [|Hr]; [done|]. cbn in *. by rewrite Hr.
  - by rewrite Hc, IH1, IH2.
Qed.

Lemma quoted_app s rest : cur rest <> QUOTE -> quoted_field ((s ≫= double_quote) ++ QUOTE :: rest) = (s, rest).
Proof.
  intros Hr. induction s as [|c s IH]; cbn [mbind list_bind app].
  - cbn. destruct rest as [|d rest]; [done|]. cbn in Hr. by destruct (Z.eqb_spec d QUOTE).
  - rewrite <- app_assoc. unfold double_quote at 1. destruct (Z.eqb_spec c QUOTE) as [->|Hc]; cbn [app quoted_field].
    + change (QUOTE =? QUOTE) with true. cbv iota. by rewrite IH.
    + apply Z.eqb_neq in Hc. by rewrite Hc, IH.
Qed.

Lemma field_value_chars (P : Z -> Prop) c s : Forall (fun x => is_char x /\ P x) (c :: s) -> field_value (c :: s) = Some (c :: s).
Proof. intros H. unfold field_value. rewrite c_text_cstr; [done|]. eapply Forall_impl; [done|]. by intros x [? _]. Qed.

Lemma skip_field_stop rest : rest = [] \/ field_stop delim (cur rest) = true -> skip_field delim rest = rest.
Proof. intros [->|H]; [done|]. destruct rest as [|c rest]; [done|]. cbn in *. by rewrite H. Qed.

Lemma stop_not_quote rest : rest = [] \/ field_stop delim (cur rest) = true -> cur rest <> QUOTE.
Proof.
  intros [->|H]; [done|]. intros E. rewrite E in H. unfold field_stop in H. destruct Hdelim as [Hd _].
  destruct (Z.eqb_spec QUOTE delim); [congruence|]. done.
Qed.

Lemma next_field_reads cell text rest : csv_field cell text -> rest = [] \/ field_stop delim (cur rest) = true ->
  ducknng_csv_next_field delim (text ++ rest) = (cell, eat delim rest).
Proof.
  intros Hf Hr. destruct Hf as [| |c s Hq Hs|s Hne Hs]; unfold ducknng_csv_next_field.
  - cbn [app]. destruct rest as [|c rest]; [done|]. pose proof (stop_not_quote _ Hr) as Hq. cbn [cur] in Hq. apply Z.eqb_neq in Hq. rewrite Hq.
    destruct Hr as [|Hr]; [done|]. cbn [cur] in Hr. cbn [take_field skip_field]. by rewrite Hr.
  - cbn [app]. rewrite Z.eqb_refl. pose proof (quoted_app [] rest (stop_not_quote _ Hr)) as H. cbn [mbind list_bind app] in H.
    rewrite H. by rewrite (skip_field_stop rest Hr).
  - rewrite <- app_comm_cons. apply Z.eqb_neq in Hq. rewrite Hq. rewrite app_comm_cons.
    destruct (take_field_app (c :: s) rest Hs Hr) as [-> ->]. by rewrite (field_value_chars _ _ _ Hs).
  - cbn [app]. rewrite Z.eqb_refl. rewrite <- app_assoc. cbn [app]. rewrite (quoted_app s rest (stop_not_quote _ Hr)). rewrite (skip_field_stop rest Hr).
    destruct s as [|c s]; [done|]. by rewrite (field_value_chars _ _ _ Hs).
Qed.

(** No text holds an end of line. *)
Lemma field_in_line cell text : csv_field cell text -> Forall (fun x => line_stop x = false) text.
Proof.
  intros [| |c s Hq Hs|s Hne Hs]; [done|by repeat constructor|..].
  - eapply Forall_impl; [exact Hs|]. intros x [_ Hx]. by apply line_not_field.
  - constructor; [done|]. apply Forall_app_2; [|by repeat constructor]. apply Forall_forall. intros x (y & Hy & Hx)%list_elem_of_bind.
    rewrite Forall_forall in Hs. destruct (Hs y Hx) as [_ Hl]. unfold double_quote in Hy. destruct (y =? QUOTE).
    + by apply elem_of_cons in Hy as [->|[->|[]%not_elem_of_nil]%elem_of_cons].
    + by apply list_elem_of_singleton in Hy as ->.
Qed.

Lemma join_in_line cells texts : Forall2 csv_field cells texts -> Forall (fun x => line_stop x = false) (join [delim] texts).
Proof.
  induction 1 as [|cell text cells texts Hf Hfs IH]; [done|]. pose proof (field_in_line _ _ Hf). destruct texts as [|t2 texts]; [done|].
  rewrite join_cons. apply Forall_app_2; [done|]. constructor; [apply Hdelim|done].
Qed.

Lemma delim_stops rest : field_stop delim (cur (delim :: rest)) = true.
Proof. unfold field_stop. cbn [cur]. by rewrite Z.eqb_refl. Qed.

(** As many fields as are asked for: the missing ones are NULL, the others are
    left. *)
Lemma next_fields_line cells texts : Forall2 csv_field cells texts -> texts <> [] -> forall n,
  fst (next_fields delim n (join [delim] texts)) = resize n None cells.
Proof.
  assert (forall n, fst (next_fields delim n []) = replicate n None) as Hnil.
  { induction n as [|n IH]; [done|]. cbn. destruct (next_fields delim n []). cbn in *. by rewrite IH. }
  induction 1 as [|cell text cells texts Hf Hfs IH]; intros Hne n; [done|]. destruct n as [|n]; [done|]. cbn [next_fields]. destruct texts as [|t2 texts].
  - inversion Hfs; subst. cbn [join]. rewrite <- (app_nil_r text), (next_field_reads cell text []) by (try done; by left).
    cbn [eat]. specialize (Hnil n). destruct (next_fields delim n []). cbn in *. by rewrite Hnil, resize_nil.
  - rewrite join_cons, (next_field_reads cell text) by (try done; right; apply delim_stops). cbn [app eat]. rewrite Z.eqb_refl.
    specialize (IH ltac:(done) n). destruct (next_fields delim n (join [delim] (t2 :: texts))) as [cs p]. cbn [fst] in *. by rewrite IH.
Qed.


(** ** Lines and the header *)

Lemma take_line_app line rest : Forall (fun x => line_stop x = false) line -> rest = [] \/ line_stop (cur rest) = true ->
  take_line (line ++ rest) = line /\ drop_line (line ++ rest) = rest.
Proof.
  intros Hl Hr. induction Hl as [|c line Hc Hl [IH1 IH2]]; cbn.
  - destruct rest as [|d rest]; [done|]. destruct Hr as [|Hr]; [done|]. cbn in *. by rewrite Hr.
  - by rewrite Hc, IH1, IH2.
Qed.

Lemma skip_to_delim_app s rest : Forall (fun x => x <> delim) s -> rest = [] \/ cur rest = delim /\ rest <> [] -> skip_to_delim delim (s ++ rest) = rest.
Proof.
  intros Hs Hr. induction Hs as [|c s Hc Hs IH]; cbn.
  - destruct rest as [|d rest]; [done|]. destruct Hr as [|[Hr _]]; [done|]. cbn in *. by rewrite Hr, Z.eqb_refl.
  - apply Z.eqb_neq in Hc. by rewrite Hc.
Qed.

Lemma count_skip_field cell text rest : csv_field cell text -> rest = [] \/ cur rest = delim /\ rest <> [] -> count_skip delim (text ++ rest) = rest.
Proof.
  destruct Hdelim as [Hd _]. intros Hf Hr. pose proof (skip_to_delim_app [] rest ltac:(done) Hr) as H0. cbn [app] in H0.
  assert (cur rest <> QUOTE) as Hq0 by (destruct Hr as [->|[-> _]]; [done|done]).
  destruct Hf as [| |c s Hq Hs|s Hne Hs]; unfold count_skip; cbn [app].
  - destruct rest as [|c rest]; [done|]. cbn [cur] in Hq0. apply Z.eqb_neq in Hq0. by rewrite Hq0.
  - rewrite Z.eqb_refl. pose proof (quoted_app [] rest Hq0) as H. cbn [mbind list_bind app] in H. by rewrite H.
  - apply Z.eqb_neq in Hq. rewrite Hq, app_comm_cons. apply skip_to_delim_app; [|done]. eapply Forall_impl; [exact Hs|].
    intros x [_ Hx]. by apply line_not_field.
  - rewrite Z.eqb_refl, <- app_assoc. cbn [app]. by rewrite (quoted_app s rest Hq0).
Qed.

Lemma count_loop_line cells texts : Forall2 csv_field cells texts -> texts <> [] -> forall fuel n,
  (length texts <= fuel)%nat -> count_loop delim fuel (join [delim] texts) n = n + zlen texts.
Proof.
  induction 1 as [|cell text cells texts Hf Hfs IH]; intros Hne fuel n Hfuel; [done|]. destruct fuel as [|fuel]; [cbn in Hfuel; lia|]. cbn [count_loop]. destruct texts as [|t2 texts].
  - cbn [join]. rewrite <- (app_nil_r text), (count_skip_field cell) by (try done; by left). done.
  - rewrite join_cons, (count_skip_field cell) by (try done; by right). cbn [app]. rewrite IH; [|done|cbn in *; lia]. rewrite (zlen_cons text). lia.
Qed.

Lemma join_fields_length (texts : list bytes) : (length texts <= S (length (join [delim] texts)))%nat.
Proof. induction texts as [|t [|t2 texts] IH]; [cbn; lia..|]. rewrite join_cons, !length_app. cbn [length] in *. lia. Qed.

Lemma line_texts_nonempty (texts : list bytes) : join [delim] texts <> [] -> texts <> [].
Proof. by intros H ->. Qed.

Lemma count_header cells line rest : csv_line cells line -> rest = [] \/ line_stop (cur rest) = true ->
  ducknng_csv_count_fields delim (line ++ rest) = zlen cells.
Proof.
  intros (Hne & texts & Hfs & ->) Hr. unfold ducknng_csv_count_fields. destruct (take_line_app _ rest (join_in_line _ _ Hfs) Hr) as [-> _].
  transitivity (count_loop delim (S (length (join [delim] texts))) (join [delim] texts) 0); [by destruct (join [delim] texts)|].
  rewrite (count_loop_line cells texts); [|done|by apply line_texts_nonempty|apply join_fields_length].
  unfold zlen. by rewrite (Forall2_length _ _ _ Hfs).
Qed.

Lemma next_fields_header cells texts rest : Forall2 csv_field cells texts -> texts <> [] -> rest = [] \/ line_stop (cur rest) = true ->
  next_fields delim (length cells) (join [delim] texts ++ rest) = (cells, rest).
Proof.
  intros Hfs Hne Hr. assert (rest = [] \/ field_stop delim (cur rest) = true) as Hst.
  { destruct Hr as [|Hr]; [by left|right]. unfold field_stop, line_stop in *. rewrite <- orb_assoc, Hr. apply orb_true_r. }
  assert (eat delim rest = rest) as He.
  { destruct rest as [|c rest]; [done|]. cbn. destruct (Z.eqb_spec c delim) as [->|]; [|done]. destruct Hr as [|Hr]; [done|]. cbn in Hr. destruct Hdelim. congruence. }
  revert Hne. induction Hfs as [|cell text cells texts Hf Hfs IH]; intros Hne; [done|]. cbn [length next_fields]. destruct texts as [|t2 texts].
  - inversion Hfs; subst. cbn [join length next_fields]. by rewrite (next_field_reads cell), He.
  - rewrite join_cons, <- !app_assoc, (next_field_reads cell text) by (try done; right; apply delim_stops). cbn [app eat]. rewrite Z.eqb_refl.
    by rewrite IH.
Qed.

(** ** Rows *)

Lemma eol_stops e rest : csv_eol e -> line_stop (cur (e ++ rest)) = true /\ eat 10 (eat 13 (e ++ rest)) = rest /\ (1 <= length e)%nat.
Proof. intros [->| ->]; cbn; repeat split; lia. Qed.

Lemma line_row cells line rest fuel cols : csv_line cells line -> rest = [] \/ line_stop (cur rest) = true ->
  csv_rows_loop delim (S fuel) cols (line ++ rest) = cons (resize cols None cells) <$> csv_rows_loop delim fuel cols (eat 10 (eat 13 rest)).
Proof.
  intros (Hne & texts & Hfs & ->) Hr. pose proof (join_in_line _ _ Hfs) as Hl. destruct (take_line_app _ rest Hl Hr) as [Ht Hd].
  assert (drop_line rest = rest) as Hdr.
  { destruct rest as [|d rest]; [done|]. destruct Hr as [|Hr]; [done|]. cbn in *. by rewrite Hr. }
  destruct (join [delim] texts ++ rest) as [|c text] eqn:E; [by destruct (join [delim] texts)|].
  assert (line_stop c = false) as Hc.
  { destruct (join [delim] texts) as [|c' line]; [done|]. injection E as -> _. by inversion Hl. }
  cbn [csv_rows_loop]. rewrite Hc, Ht, Hd. unfold ducknng_csv_skip_line. rewrite Hdr.
  rewrite (next_fields_line _ _ Hfs); [done|]. by apply line_texts_nonempty.
Qed.

Lemma rows_loop_lines rows text cols : csv_lines rows text -> forall fuel, (length text <= fuel)%nat ->
  csv_rows_loop delim fuel cols text = Some (resize cols None <$> rows).
Proof.
  induction 1 as [|e rows text He Hl IH|row line e rows text Hrow He Hl IH|row line Hrow]; intros fuel Hfuel.
  - by destruct fuel.
  - destruct (eol_stops e text He) as (Hs & Hp & Hlen). rewrite length_app in Hfuel. destruct fuel as [|fuel]; [lia|].
    rewrite <- (IH fuel) by lia. rewrite <- Hp at 2. destruct (e ++ text) as [|c r]; [done|]. cbn [csv_rows_loop]. cbn [cur] in Hs. by rewrite Hs.
  - destruct (eol_stops e text He) as (Hs & Hp & Hlen). rewrite !length_app in Hfuel. destruct fuel as [|fuel]; [lia|].
    rewrite line_row with (cells := row) by auto. rewrite Hp, IH by lia. done.
  - destruct Hrow as [Hne Hrow]. destruct fuel as [|fuel]; [destruct line; [done|cbn in Hfuel; lia]|]. rewrite <- (app_nil_r line).
    rewrite line_row with (cells := row) by (auto; by split). by destruct fuel.
Qed.

End grammar.

(** ** Columns *)

Section columns.
Context {double : Type} (zero : double) (strtod : bytes -> double * Z * bytes).

Definition is_int64 (v : bytes) : bool := bool_decide (is_Some (ducknng_csv_try_int64 v)).
Definition is_double (v : bytes) : bool := match ducknng_csv_try_double strtod v with Some _ => true | None => false end.

(** The narrowest type that holds every cell that is not NULL. *)
Definition column_type (cells : list (option bytes)) : Z :=
  if forallb is_int64 (omap id cells) then DUCKNNG_CSV_TYPE_INT64 else
  if forallb is_double (omap id cells) then DUCKNNG_CSV_TYPE_DOUBLE else DUCKNNG_CSV_TYPE_STRING.

(** A cell of the table holds the value of the field it was read from. *)
Inductive cell_holds : Z -> option bytes -> csv_cell double -> Prop :=
| holds_null type : cell_holds type None CellNull
| holds_int s v : ducknng_csv_try_int64 s = Some v -> cell_holds DUCKNNG_CSV_TYPE_INT64 (Some s) (CellInt v)
| holds_double s v : ducknng_csv_try_double strtod s = Some v -> cell_holds DUCKNNG_CSV_TYPE_DOUBLE (Some s) (CellDouble v)
| holds_string s : cell_holds DUCKNNG_CSV_TYPE_STRING (Some s) (CellString s).

Record table_holds (names : list bytes) (rows : list (list (option bytes))) (table : csv_table double) : Prop := {
  th_headers : csv_headers table = names;
  th_types : csv_types table = (fun col => column_type (csv_column rows col)) <$> seq 0 (length names);
  th_rows : Forall2 (Forall3 cell_holds (csv_types table)) rows (csv_rows table) }.

(** What [strtoll] takes, [strtod] takes. *)
Definition reads_integers : Prop := forall s, is_int64 s = true -> is_double s = true.
Hypothesis Hints : reads_integers.

Lemma infer_double cells : infer_type strtod cells DUCKNNG_CSV_TYPE_DOUBLE =
  if forallb is_double (omap id cells) then DUCKNNG_CSV_TYPE_DOUBLE else DUCKNNG_CSV_TYPE_STRING.
Proof.
  induction cells as [|[v|] cells IH]; [done| |done]. cbn [infer_type omap list_omap id forallb].
  change (DUCKNNG_CSV_TYPE_DOUBLE =? DUCKNNG_CSV_TYPE_INT64) with false. cbv iota zeta. rewrite Z.eqb_refl. unfold is_double at 1.
  destruct (ducknng_csv_try_double strtod v); [exact IH|done].
Qed.

Lemma infer_column cells : infer_type strtod cells DUCKNNG_CSV_TYPE_INT64 = column_type cells.
Proof.
  unfold column_type. induction cells as [|[v|] cells IH]; [done| |done]. cbn [infer_type omap list_omap id forallb]. rewrite Z.eqb_refl.
  destruct (is_int64 v) eqn:Ei; unfold is_int64 in Ei; btests.
  - destruct Ei as [x Ex]. rewrite Ex. cbv iota zeta. change (DUCKNNG_CSV_TYPE_INT64 =? DUCKNNG_CSV_TYPE_DOUBLE) with false. cbv iota. rewrite IH.
    rewrite (Hints v); [done|]. unfold is_int64. by rewrite Ex.
  - destruct (ducknng_csv_try_int64 v) as [x|]; [by destruct Ei; eexists|]. cbv iota zeta. rewrite Z.eqb_refl. cbn [andb].
    pose proof (infer_double cells) as Hd. unfold is_double at 1. destruct (ducknng_csv_try_double strtod v); [exact Hd|done].
Qed.

Lemma forallb_in {A} (f : A -> bool) l x : forallb f l = true -> x ∈ l -> f x = true.
Proof. rewrite forallb_forall. intros H Hx. by apply H, list_elem_of_In. Qed.

Lemma append_holds cells v : v ∈ cells -> cell_holds (column_type cells) v (append_cell zero strtod (column_type cells) v).
Proof.
  intros Hv. destruct v as [v|]; [|constructor]. assert (v ∈ omap id cells) as Hin by (apply list_elem_of_omap; eauto).
  unfold column_type, append_cell. destruct (forallb is_int64 _) eqn:Ei.
  - pose proof (forallb_in _ _ _ Ei Hin) as H. unfold is_int64 in H. apply bool_decide_eq_true in H as [x Ex].
    rewrite Z.eqb_refl, Ex. by constructor.
  - destruct (forallb is_double _) eqn:Ed.
    + change (DUCKNNG_CSV_TYPE_DOUBLE =? DUCKNNG_CSV_TYPE_INT64) with false. cbv iota. rewrite Z.eqb_refl.
      pose proof (forallb_in _ _ _ Ed Hin) as H. unfold is_double in H. destruct (ducknng_csv_try_double strtod v) eqn:E; [by constructor|done].
    + constructor.
Qed.

Lemma row_holds rows row : row ∈ rows -> forall cells start, drop start row = cells ->
  let types := (fun col => column_type (csv_column rows col)) <$> seq start (length cells) in
  Forall3 cell_holds types cells (zip_with (append_cell zero strtod) types cells).
Proof.
  intros Hin cells. induction cells as [|v cells IH]; intros start Hd; [constructor|]. cbn. constructor.
  - apply append_holds. unfold csv_column. apply list_elem_of_fmap. exists row. split; [|done].
    rewrite <- (Nat.add_0_r start), <- lookup_drop, Hd. done.
  - apply (IH (S start)). rewrite <- Nat.add_1_r, <- drop_drop, Hd. done.
Qed.

Lemma build_holds names rows : Forall (fun row => length row = length names) rows -> table_holds names rows (csv_build zero strtod names rows).
Proof.
  intros Hr. assert ((fun col => infer_type strtod (csv_column rows col) DUCKNNG_CSV_TYPE_INT64) <$> seq 0 (length names) =
    (fun col => column_type (csv_column rows col)) <$> seq 0 (length names)) as Ht by (apply list_fmap_ext; intros; apply infer_column).
  split; [done|exact Ht|]. unfold csv_build. cbn [csv_types csv_rows]. rewrite Ht. apply Forall2_fmap_r, Forall_Forall2_diag, Forall_forall. intros row Hin.
  rewrite Forall_forall in Hr. rewrite <- (Hr row Hin). by apply (row_holds rows row).
Qed.

End columns.

(** ** Every body *)

Lemma eat_length c p : (length (eat c p) <= length p)%nat.
Proof. destruct p as [|d p]; cbn; [lia|]. destruct (d =? c); cbn; lia. Qed.

Lemma drop_line_length p : (length (drop_line p) <= length p)%nat.
Proof. induction p as [|c p IH]; cbn; [lia|]. destruct (line_stop c); cbn; lia. Qed.

Lemma quoted_length p : (length (snd (quoted_field p)) <= length p)%nat.
Proof.
  induction p as [p IH] using (induction_ltof1 _ (@length Z)). unfold ltof in IH. destruct p as [|c r]; [done|]. cbn [quoted_field]. destruct (c =? QUOTE).
  - destruct r as [|d r]; [cbn; lia|]. destruct (d =? QUOTE); [|cbn; lia]. specialize (IH r ltac:(cbn; lia)). destruct (quoted_field r). cbn in *. lia.
  - specialize (IH r ltac:(cbn; lia)). destruct (quoted_field r). cbn in *. lia.
Qed.

Lemma skip_field_length delim p : (length (skip_field delim p) <= length p)%nat.
Proof. induction p as [|c p IH]; cbn; [lia|]. destruct (field_stop delim c); cbn; lia. Qed.

Lemma next_field_length delim p : (length (snd (ducknng_csv_next_field delim p)) <= length p)%nat.
Proof.
  unfold ducknng_csv_next_field. destruct p as [|c r]; [done|]. destruct (c =? QUOTE).
  - pose proof (quoted_length r). destruct (quoted_field r) as [f rest]. cbn in *. pose proof (skip_field_length delim rest). pose proof (eat_length delim (skip_field delim rest)). lia.
  - pose proof (skip_field_length delim (c :: r)). pose proof (eat_length delim (skip_field delim (c :: r))). cbn [snd]. lia.
Qed.

Lemma next_fields_shape delim n : forall p, (length (snd (next_fields delim n p)) <= length p)%nat /\ length (fst (next_fields delim n p)) = n.
Proof.
  induction n as [|n IH]; intros p; [done|]. cbn [next_fields]. pose proof (next_field_length delim p). destruct (ducknng_csv_next_field delim p) as [cell p'].
  specialize (IH p'). destruct (next_fields delim n p'). cbn in *. lia.
Qed.

Lemma rows_loop_total delim cols fuel : forall p, (length p <= fuel)%nat ->
  exists rows, csv_rows_loop delim fuel cols p = Some rows /\ Forall (fun row => length row = cols) rows.
Proof.
  induction fuel as [|fuel IH]; intros [|c r] Hl; [by eexists|cbn in Hl; lia|by eexists|]. cbn [csv_rows_loop]. destruct (line_stop c) eqn:Ec.
  - apply IH. assert (length (eat 10 (eat 13 (c :: r))) <= length r)%nat; [|cbn in *; lia]. unfold line_stop in Ec. cbn [eat].
    destruct (Z.eqb_spec c 13); [apply eat_length|]. destruct (Z.eqb_spec c 10); [subst; done|done].
  - assert (length (ducknng_csv_skip_line (drop_line (c :: r))) <= fuel)%nat as Hlen.
    { unfold ducknng_csv_skip_line. cbn [drop_line]. rewrite Ec. pose proof (eat_length 10 (eat 13 (drop_line (drop_line r)))). pose proof (eat_length 13 (drop_line (drop_line r))).
      pose proof (drop_line_length (drop_line r)). pose proof (drop_line_length r). cbn in *. lia. }
    destruct (IH _ Hlen) as (rows & -> & HF). eexists. split; [reflexivity|]. constructor; [apply next_fields_shape|done].
Qed.

(** [%lld]. *)
Definition print_lld (v : Z) : bytes := if v <? 0 then chr "-" :: print_llu (- v) else print_llu v.

(** A printed [int64_t] is read back. *)
Lemma int64_printed v : INT64_MIN <= v <= INT64_MAX -> ducknng_csv_try_int64 (print_lld v) = Some v.
Proof.
  intros Hv. assert (forall n, 0 <= n <= - INT64_MIN -> digits (print_llu n) 0 false = (n, true, [])) as Hd.
  { intros n Hn. rewrite <- (app_nil_r (print_llu n)). unfold print_llu. rewrite llu_loop_read; [done| |lia]. unfold INT64_MIN in *. split; [lia|cbn; lia]. }
  assert (forall n, exists c p, print_llu n = c :: p /\ (0 <= n -> 48 <= c <= 57)) as Hc.
  { intros n. pose proof (print_llu_nonempty n). pose proof (llu_loop_digits 20 n). fold (print_llu n) in *. destruct (print_llu n) as [|c p]; [done|].
    exists c, p. split; [done|]. intros Hn. specialize (H0 Hn). by inversion H0. }
  unfold ducknng_csv_try_int64, strtoll, print_lld. destruct (Z.ltb_spec v 0).
  - change (ducknng_http_skip_ws (chr "-" :: print_llu (- v))) with (chr "-" :: print_llu (- v)). cbn [cur]. rewrite Z.eqb_refl. cbn [orb].
    change (zdrop 1 (chr "-" :: print_llu (- v))) with (print_llu (- v)). rewrite Hd by lia. rewrite Z.opp_involutive.
    destruct (Z.ltb_spec v INT64_MIN); [lia|]. destruct (Z.ltb_spec INT64_MAX v); [lia|]. done.
  - destruct (Hc v) as (c & p & E & Hcr). specialize (Hcr ltac:(lia)). pose proof (Hd v ltac:(unfold INT64_MIN, INT64_MAX in *; lia)) as Hdv. rewrite E in *. cbn [ducknng_http_skip_ws].
    assert (is_space c = false) as -> by (unfold is_space; lia). cbn [cur]. change (chr "-") with 45. change (chr "+") with 43.
    assert ((c =? 45) = false) as -> by lia. assert ((c =? 43) = false) as -> by lia. cbn [orb]. rewrite Hdv.
    destruct (Z.ltb_spec v INT64_MIN); [unfold INT64_MIN in *; lia|]. destruct (Z.ltb_spec INT64_MAX v); [lia|]. done.
Qed.

(** Whatever the bytes of a CSV or TSV body are, the parser ends with a table
    or with one of its two errors: a missing header line, or more columns than
    the limit.  A table has as many columns as the header line has fields, all
    its rows have that many cells, each column has the narrowest of the types
    INT64, DOUBLE and VARCHAR that reads all its cells, and every cell holds the
    value that type reads from its field. *)
Theorem csv_tables {double} (zero : double) strtod body delim max_cols : reads_integers strtod ->
  let count := ducknng_csv_count_fields delim body in
  match ducknng_csv_parse_body zero strtod body delim max_cols with
  | None => False
  | Some (Err e) =>
    count = 0 /\ e = lit "ducknng: CSV body has no header row" \/
    max_cols < count /\ e = lit "ducknng: CSV body exceeds ducknng.csv_max_columns limit"
  | Some (Ok table) =>
    zlen (csv_headers table) = count /\ count <= max_cols /\
    exists rows, Forall (fun row => length row = length (csv_headers table)) rows /\ table_holds strtod (csv_headers table) rows table
  end.
Proof.
  intros Hi count. unfold ducknng_csv_parse_body. fold count. destruct (Z.eqb_spec count 0); [by left|]. destruct (Z.ltb_spec max_cols count); [by right|].
  pose proof (next_fields_shape delim (Z.to_nat count) body) as [Hp Hn]. destruct (next_fields delim (Z.to_nat count) body) as [headers p]. cbn [fst snd] in *.
  pose proof (eat_length 13 p). pose proof (eat_length 10 (eat 13 p)).
  destruct (rows_loop_total delim (Z.to_nat count) (length body) (eat 10 (eat 13 p)) ltac:(lia)) as (rows & -> & Hrows). cbn.
  assert (0 <= count) as Hc0.
  { unfold count, ducknng_csv_count_fields. assert (forall fuel l n, 0 <= n -> 0 <= count_loop delim fuel l n) as Hcl.
    { induction fuel as [|fuel IH]; intros l k Hk; [done|]. cbn. destruct (count_skip delim l); [lia|]. apply IH. lia. }
    destruct (take_line body); [lia|by apply Hcl]. }
  split; [unfold zlen; rewrite length_fmap; lia|]. split; [done|]. exists rows. rewrite length_fmap, Hn. split; [done|].
  apply build_holds; [done|]. by rewrite length_fmap, Hn.
Qed.

(** A body of the grammar is read: a short row is filled up with NULL, and what a
    row has beyond the header is left out. *)
Lemma csv_text_reads {double} (zero : double) strtod delim max_cols header line e rows text : reads_integers strtod ->
  delim <> QUOTE -> line_stop delim = false -> csv_line delim header line -> zlen header <= max_cols ->
  e = [] /\ text = [] \/ csv_eol e -> csv_lines delim rows text ->
  exists table, ducknng_csv_parse_body zero strtod (line ++ e ++ text) delim max_cols = Some (Ok table) /\
    table_holds strtod (default [] <$> header) (resize (length header) None <$> rows) table.
Proof.
  intros Hi Hq Hd Hh Hmax He Hl. assert (e ++ text = [] \/ line_stop (cur (e ++ text)) = true) as Hr.
  { destruct He as [[-> ->]|He]; [by left|right]. by apply eol_stops. }
  assert (eat 10 (eat 13 (e ++ text)) = text) as Het by (destruct He as [[-> ->]|He]; [done|by apply eol_stops]).
  unfold ducknng_csv_parse_body. rewrite (count_header delim (conj Hq Hd) header line _ Hh Hr).
  destruct Hh as (Hne & texts & Hfs & ->). assert (texts <> []) as Htx by (by apply (line_texts_nonempty delim)).
  assert (length header = length texts) as Hlen by (by eapply Forall2_length).
  destruct (Z.eqb_spec (zlen header) 0) as [H0|_]; [unfold zlen in H0; destruct texts; [done|cbn in *; lia]|]. destruct (Z.ltb_spec max_cols (zlen header)); [lia|].
  unfold zlen. rewrite Nat2Z.id, (next_fields_header delim (conj Hq Hd) header texts _ Hfs Htx Hr), Het.
  rewrite (rows_loop_lines delim (conj Hq Hd) rows text _ Hl) by (rewrite !length_app; lia). eexists. split; [reflexivity|].
  apply build_holds; [done|]. apply Forall_fmap, Forall_true. intros row. cbn. by rewrite length_resize, length_fmap.
Qed.

(** ** Examples *)

(** A [strtod] of integers only. *)
Definition demo_strtod (s : bytes) : Z * Z * bytes :=
  match strtoll s with Some (v, false, rest) => (v, 0, rest) | _ => (0, 34, s) end.

Lemma demo_reads_integers : reads_integers demo_strtod.
Proof.
  intros s. unfold is_int64, is_double, ducknng_csv_try_double, ducknng_csv_try_int64, demo_strtod. destruct s as [|c s]; [done|].
  destruct (strtoll (c :: s)) as [[[v []] []]|]; done.
Qed.

(** A field of a quoted newline is cut at it, though the parser takes quoted
    fields to be those of RFC 4180: the row becomes two, and a header of one
    leaves the rest of its line as data. *)
Example quoted_newline :
  ducknng_csv_parse_body 0 demo_strtod (lit "k,v" ++ [10; QUOTE] ++ lit "x" ++ [10] ++ lit "y" ++ [QUOTE] ++ lit ",1" ++ [10]) (chr ",") 1024 =
    Some (Ok (mk_csv_table [lit "k"; lit "v"] [DUCKNNG_CSV_TYPE_STRING; DUCKNNG_CSV_TYPE_INT64]
      [[CellString (lit "x"); CellNull]; [CellString (lit "y" ++ [QUOTE]); CellInt 1]])) /\
  ducknng_csv_parse_body 0 demo_strtod ([QUOTE] ++ lit "k" ++ [10] ++ lit "l" ++ [QUOTE] ++ lit ",v" ++ [10] ++ lit "1,2" ++ [10]) (chr ",") 1024 =
    Some (Ok (mk_csv_table [lit "k" ++ [10] ++ lit "l"] [DUCKNNG_CSV_TYPE_STRING] [[CellString (lit "v")]; [CellString (lit "1")]])).
Proof. by vm_compute. Qed.

Lemma csv_tables_witness : exists rows table, ducknng_csv_parse_body 0 demo_strtod (lit "n" ++ [10] ++ lit "7") (chr ",") 8 = Some (Ok table) /\
  table_holds demo_strtod (csv_headers table) rows table.
Proof.
  pose proof (csv_tables 0 demo_strtod (lit "n" ++ [10] ++ lit "7") (chr ",") 8 demo_reads_integers) as H. cbv zeta in H.
  destruct (ducknng_csv_parse_body _ _ _ _ _) as [[table|e]|] eqn:E; [|vm_compute in E; discriminate E..].
  destruct H as (_ & _ & rows & _ & H). exists rows, table. split; [reflexivity|exact H].
Defined.
