(* ===== verification/Body.v ===== *)
(** Body codecs: [src/src/ducknng_sql_body.c].

    A body and its content type become a table: the media type is normalized,
    a codec of the user or a built-in one is chosen, and the codec parses the
    bytes.  JSON and Parquet go through a query on the runtime's codec
    connection, a user codec through a prepared statement; the SQL texts and
    the temporary files are logged as [codec_event]s.  DuckDB's answers, the
    Arrow decoder, the binding of Arrow columns and the UTF-8 check are
    parameters.  Allocations succeed. *)

From S2P Require Import Prelude Checked Util HttpHeaders HttpProfile Control Wire HttpServe Runtime Exec QuackCore QuackTypes QuackVectors QuackBatch BodyCsv.

Definition DUCKNNG_BODY_CODEC_RAW : Z := 0.
Definition DUCKNNG_BODY_CODEC_TEXT : Z := 1.
Definition DUCKNNG_BODY_CODEC_JSON : Z := 2.
Definition DUCKNNG_BODY_CODEC_CSV : Z := 3.
Definition DUCKNNG_BODY_CODEC_TSV : Z := 4.
Definition DUCKNNG_BODY_CODEC_PARQUET : Z := 5.
Definition DUCKNNG_BODY_CODEC_ARROW_IPC : Z := 6.
Definition DUCKNNG_BODY_CODEC_DUCKNNG_FRAME : Z := 7.
Definition DUCKNNG_BODY_CODEC_NDJSON : Z := 8.
Definition DUCKNNG_BODY_CODEC_FORM : Z := 9.
Definition DUCKNNG_BODY_CODEC_QUACK_BATCH : Z := 10.
Definition DUCKNNG_BODY_CODEC_USER : Z := 11.

(** ** Media types *)

Definition media_space (c : Z) : bool := ((c =? 32) || (c =? 9) || (c =? 13) || (c =? 10))%bool.

Fixpoint media_skip (s : bytes) : bytes :=
  match s with c :: r => if media_space c then media_skip r else s | [] => [] end.
Fixpoint media_take (s : bytes) : bytes :=
  match s with c :: r => if ((c =? chr ";") || media_space c)%bool then [] else c :: media_take r | [] => [] end.

(** The blanks the third loop looks for are never at the end. *)
Definition ducknng_normalize_media_type (content_type : option bytes) : bytes :=
  match content_type with
  | None => []
  | Some s => ducknng_ascii_tolower_int <$> media_take (media_skip s)
  end.

Definition ducknng_body_codec_provider_name (codec_kind : Z) : bytes :=
  if codec_kind =? DUCKNNG_BODY_CODEC_TEXT then lit "text" else
  if codec_kind =? DUCKNNG_BODY_CODEC_JSON then lit "json" else
  if codec_kind =? DUCKNNG_BODY_CODEC_CSV then lit "csv" else
  if codec_kind =? DUCKNNG_BODY_CODEC_TSV then lit "tsv" else
  if codec_kind =? DUCKNNG_BODY_CODEC_PARQUET then lit "parquet" else
  if codec_kind =? DUCKNNG_BODY_CODEC_ARROW_IPC then lit "arrow_ipc" else
  if codec_kind =? DUCKNNG_BODY_CODEC_DUCKNNG_FRAME then lit "ducknng_frame" else
  if codec_kind =? DUCKNNG_BODY_CODEC_NDJSON then lit "ndjson" else
  if codec_kind =? DUCKNNG_BODY_CODEC_FORM then lit "form" else
  if codec_kind =? DUCKNNG_BODY_CODEC_QUACK_BATCH then lit "ducknng_quack_batch" else
  if codec_kind =? DUCKNNG_BODY_CODEC_USER then lit "user" else lit "raw".

Definition ducknng_body_codec_for_media_type (media_type : bytes) : Z :=
  let mt name := ducknng_ascii_ieq (Some media_type) (Some (lit name)) in
  if negb (nonempty (Some media_type)) then DUCKNNG_BODY_CODEC_RAW else
  if mt "application/vnd.ducknng.frame" then DUCKNNG_BODY_CODEC_DUCKNNG_FRAME else
  if mt "application/vnd.ducknng.quack-batch" then DUCKNNG_BODY_CODEC_QUACK_BATCH else
  if (mt "application/vnd.apache.arrow.stream" || mt "application/vnd.apache.arrow.ipc" || mt "application/arrow")%bool
  then DUCKNNG_BODY_CODEC_ARROW_IPC else
  if (mt "application/vnd.apache.parquet" || mt "application/parquet" || mt "application/x-parquet")%bool
  then DUCKNNG_BODY_CODEC_PARQUET else
  if (mt "text/csv" || mt "application/csv" || mt "text/x-csv")%bool then DUCKNNG_BODY_CODEC_CSV else
  if (mt "text/tab-separated-values" || mt "application/x-tsv" || mt "text/tsv")%bool then DUCKNNG_BODY_CODEC_TSV else
  if (mt "application/x-ndjson" || mt "application/ndjson" || mt "application/x-jsonlines" || mt "application/jsonlines")%bool
  then DUCKNNG_BODY_CODEC_NDJSON else
  if mt "application/x-www-form-urlencoded" then DUCKNNG_BODY_CODEC_FORM else
  if (mt "application/json" || ducknng_ascii_iends_with (Some media_type) (Some (lit "+json")))%bool then DUCKNNG_BODY_CODEC_JSON else
  if ducknng_ascii_istarts_with (Some media_type) (Some (lit "text/")) then DUCKNNG_BODY_CODEC_TEXT else DUCKNNG_BODY_CODEC_RAW.

(** ** SQL texts *)

Definition SQL_QUOTE : Z := 39.

Definition quote_char (c : Z) : bytes := if c =? SQL_QUOTE then [SQL_QUOTE; c] else [c].

Definition ducknng_sql_quote_literal (s : option bytes) : bytes :=
  match s with
  | None => lit "NULL"
  | Some s => SQL_QUOTE :: (s ≫= quote_char) ++ [SQL_QUOTE]
  end.

Definition is_letter (c : Z) : bool := (((97 <=? c) && (c <=? 122)) || ((65 <=? c) && (c <=? 90)))%bool.
Definition identifier_start (c : Z) : bool := (is_letter c || (c =? chr "_"))%bool.
Definition identifier_char (c : Z) : bool :=
  (is_letter c || ((48 <=? c) && (c <=? 57)) || (c =? chr "_") || (c =? chr "."))%bool.

Definition ducknng_is_sql_identifier (s : bytes) : bool :=
  match s with [] => false | c :: r => (identifier_start c && forallb identifier_char r)%bool end.

(** ** NDJSON *)

(** The next line, and what is behind its newline. *)
Fixpoint next_line (p : bytes) : bytes * bytes :=
  match p with
  | [] => ([], [])
  | c :: r => if c =? 10 then ([], r) else let '(line, rest) := next_line r in (c :: line, rest)
  end.

Fixpoint drop_blanks (p : bytes) : bytes :=
  match p with c :: r => if ((c =? 32) || (c =? 9))%bool then drop_blanks r else p | [] => [] end.

(** Trailing carriage returns, then leading blanks, trimmed. *)
Fixpoint trim_cr (rev_line : bytes) : bytes :=
  match rev_line with c :: r => if c =? 13 then trim_cr r else rev_line | [] => [] end.
Definition ndjson_trim (line : bytes) : bytes := drop_blanks (reverse (trim_cr (reverse line))).

(** The first pass: the size of the array, and whether no line was found. *)
Fixpoint ndjson_measure (fuel : nat) (p : bytes) (total : Z) (first : bool) : Z * bool :=
  match p, fuel with
  | [], _ | _, O => (total, first)
  | _, S fuel =>
    let '(line, rest) := next_line p in
    match ndjson_trim line with
    | [] => ndjson_measure fuel rest total first
    | line => ndjson_measure fuel rest ((if first then total else total + 1) + zlen line) false
    end
  end.

(** The second pass: the elements behind the bracket. *)
Fixpoint ndjson_fill (fuel : nat) (p : bytes) (first : bool) : bytes :=
  match p, fuel with
  | [], _ | _, O => []
  | _, S fuel =>
    let '(line, rest) := next_line p in
    match ndjson_trim line with
    | [] => ndjson_fill fuel rest first
    | line => (if first then [] else lit ",") ++ line ++ ndjson_fill fuel rest false
    end
  end.

(** The bytes written, the terminating NUL left out, and the size allocated. *)
Definition ducknng_ndjson_to_json_array (body : bytes) : bytes * Z :=
  let '(total, first) := ndjson_measure (length body) body 3 true in
  if first then (lit "[]", 3) else (lit "[" ++ ndjson_fill (length body) body true ++ lit "]", total).

(** ** Forms *)

Definition ducknng_hex_val (c : Z) : Z :=
  if ((48 <=? c) && (c <=? 57))%bool then c - 48 else
  if ((97 <=? c) && (c <=? 102))%bool then 10 + (c - 97) else
  if ((65 <=? c) && (c <=? 70))%bool then 10 + (c - 65) else -1.

Fixpoint url_decode_loop (src : bytes) : bytes :=
  match src with
  | [] => []
  | c :: r =>
    let plain := (if c =? chr "+" then 32 else c) in
    if c =? chr "%" then
      match r with
      | h :: l :: rest =>
        let hi := ducknng_hex_val h in let lo := ducknng_hex_val l in
        if ((0 <=? hi) && (0 <=? lo))%bool then Z.lor (Z.shiftl hi 4) lo :: url_decode_loop rest
        else plain :: url_decode_loop r
      | _ => plain :: url_decode_loop r
      end
    else plain :: url_decode_loop r
  end.

Definition ducknng_url_decode (src : bytes) : bytes := c_text (url_decode_loop src).

Definition form_pair (text : bytes) : bytes * bytes :=
  match break_at (chr "=") text with
  | (key, Some value) => (ducknng_url_decode key, ducknng_url_decode value)
  | (key, None) => (ducknng_url_decode key, ducknng_url_decode [])
  end.

(** The loop over the pairs; empty ones are skipped.  The arrays that grow are a
    list. *)
Fixpoint form_loop (fuel : nat) (p : bytes) : list (bytes * bytes) :=
  match fuel with
  | O => []
  | S fuel =>
    let (text, rest) := break_at (chr "&") p in
    (match text with [] => [] | _ => [form_pair text] end) ++
    match rest with None => [] | Some rest => form_loop fuel rest end
  end.

Definition ducknng_parse_form_urlencoded (body : bytes) : list (bytes * bytes) := form_loop (S (length body)) body.

(** ** Frames *)

Definition ducknng_rpc_type_name (type : Z) : bytes :=
  if type =? DUCKNNG_RPC_MANIFEST then lit "manifest" else
  if type =? DUCKNNG_RPC_CALL then lit "call" else
  if type =? DUCKNNG_RPC_RESULT then lit "result" else
  if type =? DUCKNNG_RPC_ERROR then lit "error" else
  if type =? DUCKNNG_RPC_EVENT then lit "event" else lit "unknown".

(** The row of a decoded frame; its texts are C strings. *)
Record frame_row := mk_frame_row {
  fr_ok : bool; fr_error : option bytes; fr_version : Z; fr_type : Z; fr_status : Z; fr_flags : Z;
  fr_type_name : option bytes; fr_name : option bytes; fr_payload : option bytes; fr_payload_text : option bytes }.

Definition bad_frame_row (error : string) : frame_row := mk_frame_row false (Some (lit error)) 0 0 0 0 None None None None.

Section frames.
Context (valid_utf8 : bytes -> bool).

(** A counted field, NULL when it is empty. *)
Definition counted_field (data : bytes) (len : Z) : option bytes := if 0 <? len then Some data else None.
Definition counted_text (data : bytes) (len : Z) : option bytes := c_text <$> counted_field data len.

Definition ducknng_body_parse_frame_copy (data : bytes) : frame_row :=
  if zlen data =? 0 then bad_frame_row "ducknng: frame blob must not be NULL or empty" else
  match ducknng_decode_frame_bytes (Some data) (zlen data) with
  | None => bad_frame_row "ducknng: invalid frame envelope"
  | Some f =>
    mk_frame_row (negb (f_type f =? DUCKNNG_RPC_ERROR))
      (if 0 <? f_error_len f then counted_text (f_error f) (f_error_len f)
       else if f_type f =? DUCKNNG_RPC_ERROR then Some (lit "ducknng: error frame") else None)
      (f_version f) (f_type f) (f_status f) (f_flags f) (Some (ducknng_rpc_type_name (f_type f)))
      (counted_text (f_name f) (f_name_len f)) (counted_field (f_payload f) (f_payload_len f))
      (if ducknng_sql_bytes_look_text valid_utf8 (f_payload f) then counted_text (f_payload f) (f_payload_len f) else None)
  end.

(** [ducknng_decode_frame]: a NULL blob is an empty one. *)
Definition ducknng_decode_frame_bind (blob : option bytes) : frame_row := ducknng_body_parse_frame_copy (default [] blob).

(** The scalar functions on one row; [None] is NULL. *)
Definition ducknng_decode_frame_scalar_value (blob : option bytes) : option ducknng_frame :=
  match blob with
  | Some ((_ :: _) as data) => ducknng_decode_frame_bytes (Some data) (zlen data)
  | _ => None
  end.

Definition ducknng_frame_payload_scalar (blob : option bytes) : option bytes :=
  ducknng_decode_frame_scalar_value blob ≫= fun f => if f_payload_len f =? 0 then None else Some (f_payload f).
Definition ducknng_frame_payload_text_scalar (blob : option bytes) : option bytes :=
  ducknng_decode_frame_scalar_value blob ≫= fun f =>
    if ((f_payload_len f =? 0) || negb (ducknng_sql_bytes_look_text valid_utf8 (f_payload f)))%bool then None else Some (c_text (f_payload f)).
Definition ducknng_frame_error_text_scalar (blob : option bytes) : option bytes :=
  ducknng_decode_frame_scalar_value blob ≫= fun f => if f_error_len f =? 0 then None else Some (c_text (f_error f)).
Definition ducknng_frame_version_scalar (blob : option bytes) : option Z := f_version <$> ducknng_decode_frame_scalar_value blob.
Definition ducknng_frame_type_scalar (blob : option bytes) : option Z := f_type <$> ducknng_decode_frame_scalar_value blob.
Definition ducknng_frame_status_scalar (blob : option bytes) : option Z := f_status <$> ducknng_decode_frame_scalar_value blob.
Definition ducknng_frame_flags_scalar (blob : option bytes) : option Z := f_flags <$> ducknng_decode_frame_scalar_value blob.
Definition ducknng_frame_type_name_scalar (blob : option bytes) : option bytes :=
  (ducknng_rpc_type_name ∘ f_type) <$> ducknng_decode_frame_scalar_value blob.
Definition ducknng_frame_name_scalar (blob : option bytes) : option bytes :=
  ducknng_decode_frame_scalar_value blob ≫= fun f => if f_name_len f =? 0 then None else Some (c_text (f_name f)).
Definition ducknng_frame_end_of_stream_scalar (blob : option bytes) : option bool :=
  (fun f => negb (Z.land (f_flags f) DUCKNNG_RPC_FLAG_END_OF_STREAM =? 0)) <$> ducknng_decode_frame_scalar_value blob.

End frames.

(** [malloc] is the block the frame is written to. *)
Definition ducknng_encode_rpc_call_scalar (malloc : Z -> bytes) (method payload : option bytes) : result bytes (option bytes) :=
  match method, payload with
  | Some method, Some payload =>
    if ((zlen method =? 0) || (DUCKNNG_MAX_METHOD_NAME_LEN <? zlen method))%bool
    then Err (lit "ducknng: RPC method name must be 1 to 128 bytes") else
    let parts := mk_parts DUCKNNG_RPC_CALL 0 DUCKNNG_RPC_FLAG_PAYLOAD_JSON (Some method) (zlen method) None 0 (Some payload) (zlen payload) in
    match ducknng_frame_measure parts with
    | Some need =>
      let out := ducknng_encode_frame_bytes parts (Some (malloc need)) need in
      match e_dest out with
      | Some frame =>
        if (negb (e_rc out =? 0) || negb (e_written out =? need))%bool
        then Err (lit "ducknng: failed to encode RPC call frame") else Ok (Some frame)
      | None => Err (lit "ducknng: failed to encode RPC call frame")
      end
    | None => Err (lit "ducknng: failed to encode RPC call frame")
    end
  | _, _ => Ok None
  end.

(** ** Readers that run SQL *)

Inductive codec_event :=
| RanQuery (sql : bytes)
| RanPrepared (sql : bytes) (blob : bytes)
| WroteFile (path body : bytes)
| UnlinkedFile (path : bytes).

(** What a user codec's statement answers. *)
Inductive user_answer :=
| PrepareError (text : option bytes)
| BindError
| ExecuteError (text : option bytes)
| NoRows
| NotVarchar
| UserText (text : option bytes).

Definition json_cte (quoted : bytes) : bytes :=
  lit "WITH _parsed(v) AS (SELECT from_json(" ++ quoted ++ lit "::JSON, json_structure(" ++ quoted ++ lit "::JSON))) ".
Definition template_array_struct (quoted : bytes) : bytes := json_cte quoted ++ lit "SELECT s.* FROM _parsed, unnest(v) AS t(s)".
Definition template_array_value (quoted : bytes) : bytes := json_cte quoted ++ lit "SELECT unnest(v) AS value FROM _parsed".
Definition template_object (quoted : bytes) : bytes := json_cte quoted ++ lit "SELECT v.* FROM _parsed".
Definition template_scalar (quoted : bytes) : bytes :=
  lit "SELECT from_json(" ++ quoted ++ lit "::JSON, json_structure(" ++ quoted ++ lit "::JSON)) AS value".

(** [%016llx]. *)
Fixpoint tmp_hex (n : nat) (v : Z) (acc : bytes) : bytes :=
  match n with O => acc | S n => tmp_hex n (v / 16) (hex_digit (v mod 16) :: acc) end.

Definition ducknng_body_make_tempfile_path (seq : Z) : bytes := lit "/tmp/ducknng_body_" ++ tmp_hex 16 seq [] ++ lit ".tmp".

Definition read_template (codec_kind : Z) : option (string * string) :=
  if codec_kind =? DUCKNNG_BODY_CODEC_PARQUET then Some ("SELECT * FROM read_parquet("%string, ")"%string) else
  if codec_kind =? DUCKNNG_BODY_CODEC_CSV then Some ("SELECT * FROM read_csv_auto("%string, ")"%string) else
  if codec_kind =? DUCKNNG_BODY_CODEC_TSV then Some ("SELECT * FROM read_csv_auto("%string, ", delim='	')"%string) else None.

Section readers.
Context (arrow : Type) (valid_utf8 : bytes -> bool).
(** The codec connection, if the runtime has one: a query encoded as Arrow IPC,
    and the statement of a user codec on a body. *)
Context (connection : bool) (query_to_ipc : bytes -> result (option bytes) bytes) (user_statement : bytes -> bytes -> user_answer).
Context (decode_ipc : bytes -> result (option bytes) arrow).

Definition ducknng_body_parse_run_duckdb_reader (body : bytes) (codec_kind : Z) : list codec_event * result (option bytes) arrow :=
  if negb connection then ([], Err (Some (lit "ducknng: missing runtime for body parser"))) else
  if negb (codec_kind =? DUCKNNG_BODY_CODEC_JSON)
  then ([], Err (Some (lit "ducknng: this body codec needs memory-backed DuckDB reader support and is not enabled"))) else
  if zlen body =? 0 then ([], Err (Some (lit "ducknng: JSON body must not be empty"))) else
  if negb (ducknng_sql_bytes_look_text valid_utf8 body) then ([], Err (Some (lit "ducknng: JSON body is not valid UTF-8 text"))) else
  let quoted := ducknng_sql_quote_literal (Some (c_text body)) in
  let start := cur (media_skip body) in
  let sql := if start =? chr "[" then template_array_struct quoted else
             if start =? chr "{" then template_object quoted else template_scalar quoted in
  match query_to_ipc sql with
  | Ok payload => ([RanQuery sql], decode_ipc payload)
  | Err e =>
    if start =? chr "[" then
      let retry := template_array_value quoted in
      ([RanQuery sql; RanQuery retry],
       match query_to_ipc retry with
       | Ok payload => decode_ipc payload
       | Err e => Err (Some (default (lit "ducknng: JSON body parser query failed") e))
       end)
    else ([RanQuery sql], Err (Some (default (lit "ducknng: JSON body parser query failed") e)))
  end.

(** The text of the codec, NULL for SQL's NULL. *)
Definition ducknng_body_parse_run_user_codec (body : bytes) (function_name : bytes) : list codec_event * result (option bytes) (option bytes) :=
  if negb connection then ([], Err (Some (lit "ducknng: missing runtime for user codec"))) else
  if negb (ducknng_is_sql_identifier function_name)
  then ([], Err (Some (lit "ducknng: codec function name must be a plain SQL identifier"))) else
  let sql := lit "SELECT " ++ function_name ++ lit "(?::BLOB) AS value" in
  ([RanPrepared sql body],
   match user_statement sql body with
   | PrepareError text => Err (Some (given_text text "ducknng: failed to prepare user codec query"))
   | BindError => Err (Some (lit "ducknng: failed to bind body to user codec"))
   | ExecuteError text => Err (Some (given_text text "ducknng: user codec execution failed"))
   | NoRows => Err (Some (lit "ducknng: user codec returned no rows"))
   | NotVarchar => Err (Some (lit "ducknng: user codec must return VARCHAR (cast inside the function if needed)"))
   | UserText text => Ok (c_text <$> text)
   end).

(** [fs] is whether there is a file system, [open_error] and [write_error] its
    answers; [seq] numbers the file. *)
Definition ducknng_body_parse_run_tempfile_reader (fs : bool) (open_error write_error : option (option bytes)) (seq : Z)
    (body : bytes) (codec_kind : Z) : list codec_event * result (option bytes) arrow :=
  if (negb connection || negb fs)%bool then ([], Err (Some (lit "ducknng: missing runtime for body reader"))) else
  match read_template codec_kind with
  | None => ([], Err (Some (lit "ducknng: unsupported codec for tempfile reader")))
  | Some (before, after) =>
    if zlen body =? 0 then ([], Err (Some (lit "ducknng: body must not be empty for this codec"))) else
    let path := ducknng_body_make_tempfile_path seq in
    match open_error, write_error with
    | Some text, _ => ([UnlinkedFile path], Err (Some (given_text text "ducknng: failed to open temp file via DuckDB FS")))
    | None, Some text => ([UnlinkedFile path], Err (Some (given_text text "ducknng: write to temp file failed")))
    | None, None =>
      let sql := lit before ++ ducknng_sql_quote_literal (Some path) ++ lit after in
      ([WroteFile path body; RanQuery sql; UnlinkedFile path],
       match query_to_ipc sql with
       | Err e => Err (Some (default (lit "ducknng: body reader query failed") e))
       | Ok payload => decode_ipc payload
       end)
    end
  end.

End readers.

(** ** Binding a body *)

(** DuckDB's type numbers. *)
Definition T_BOOLEAN : logical_type := LScalar 1.
Definition T_BIGINT : logical_type := LScalar 5.
Definition T_UTINYINT : logical_type := LScalar 6.
Definition T_UINTEGER : logical_type := LScalar 8.
Definition T_DOUBLE : logical_type := LScalar 11.
Definition T_VARCHAR : logical_type := LScalar 17.
Definition T_BLOB : logical_type := LScalar 18.

Definition ducknng_body_parse_add_frame_columns : list (bytes * logical_type) :=
  [(lit "ok", T_BOOLEAN); (lit "error", T_VARCHAR); (lit "version", T_UTINYINT); (lit "type", T_UTINYINT); (lit "status", T_UTINYINT);
   (lit "flags", T_UINTEGER); (lit "type_name", T_VARCHAR); (lit "name", T_VARCHAR); (lit "payload", T_BLOB); (lit "payload_text", T_VARCHAR)].

(** The types of the three Arrow types the CSV parser uses. *)
Definition csv_column_type (type : Z) : logical_type :=
  if type =? DUCKNNG_CSV_TYPE_INT64 then T_BIGINT else if type =? DUCKNNG_CSV_TYPE_DOUBLE then T_DOUBLE else T_VARCHAR.

(** What the bind data holds for the scan. *)
Inductive body_content (arrow double : Type) :=
| ContentUser (text : option bytes)
| ContentText (text : bytes)
| ContentRaw (raw : bytes)
| ContentFrame (row : frame_row)
| ContentForm (pairs : list (bytes * bytes))
| ContentArrow (a : arrow)
| ContentCsv (t : csv_table double)
| ContentQuack (raw : bytes) (cols : list schema).
Arguments ContentUser {arrow double}.
Arguments ContentText {arrow double}.
Arguments ContentRaw {arrow double}.
Arguments ContentFrame {arrow double}.
Arguments ContentForm {arrow double}.
Arguments ContentArrow {arrow double}.
Arguments ContentCsv {arrow double}.
Arguments ContentQuack {arrow double}.

Record body_bind (arrow double : Type) := mk_body_bind {
  bb_codec_kind : Z; bb_provider : bytes; bb_media_type : bytes; bb_content : body_content arrow double;
  bb_columns : list (bytes * logical_type); bb_cardinality : Z }.
Arguments mk_body_bind {arrow double}.
Arguments bb_codec_kind {arrow double}.
Arguments bb_provider {arrow double}.
Arguments bb_media_type {arrow double}.
Arguments bb_content {arrow double}.
Arguments bb_columns {arrow double}.
Arguments bb_cardinality {arrow double}.

Section prepare.
Context (arrow double : Type) (valid_utf8 : bytes -> bool).
Context (connection : bool) (query_to_ipc : bytes -> result (option bytes) bytes) (user_statement : bytes -> bytes -> user_answer).
Context (decode_ipc : bytes -> result (option bytes) arrow).
(** Of a decoded table: its rows, the children of its schema and array, and its
    columns as DuckDB's types. *)
Context (arrow_rows : arrow -> Z) (arrow_children : arrow -> Z * Z) (arrow_types : arrow -> result (option bytes) (list (bytes * logical_type))).
Context (zero : double) (strtod : bytes -> double * Z * bytes).
Context (creates : logical_type -> bool).
(** The setting [ducknng.csv_max_columns], the file system and the temporary
    file. *)
Context (csv_max_columns : Z) (fs : bool) (open_error write_error : option (option bytes)) (seq : Z).

Abbreviation content := (body_content arrow double).

(** What the columns of a decoded table are bound as. *)
Definition bind_arrow (invalid unsupported : string) (a : arrow) : result bytes (content * list (bytes * logical_type) * Z) :=
  let '(schema_children, array_children) := arrow_children a in
  if ((schema_children <? 0) || negb (schema_children =? array_children))%bool then Err (lit invalid) else
  match arrow_types a with
  | Err e => Err (default (lit unsupported) e)
  | Ok columns => Ok (ContentArrow a, columns, arrow_rows a)
  end.

(** The error of a reader, with the text of the caller where it has none. *)
Definition or_text {A} (dflt : string) (r : result (option bytes) A) : result bytes A :=
  match r with Ok a => Ok a | Err e => Err (default (lit dflt) e) end.

(** The switch over the codecs. *)
Definition body_parse_codec (codec_kind : Z) (user_function_name : bytes) (body : bytes)
    : list codec_event * result bytes (content * list (bytes * logical_type) * Z) :=
  let json reader_body :=
    let '(events, a) := ducknng_body_parse_run_duckdb_reader arrow valid_utf8 connection query_to_ipc decode_ipc reader_body DUCKNNG_BODY_CODEC_JSON in
    (events, let! a := or_text "ducknng: failed to parse body with DuckDB reader" a in
             bind_arrow "ducknng: invalid parsed body schema" "ducknng: unsupported parsed body type" a) in
  if codec_kind =? DUCKNNG_BODY_CODEC_USER then
    let '(events, text) := ducknng_body_parse_run_user_codec connection user_statement body user_function_name in
    (events, let! text := or_text "ducknng: user codec failed" text in Ok (ContentUser text, [(lit "value", T_VARCHAR)], 1))
  else if codec_kind =? DUCKNNG_BODY_CODEC_TEXT then
    ([], if negb (ducknng_sql_bytes_look_text valid_utf8 body) then Err (lit "ducknng: text body is not valid UTF-8 text")
         else Ok (ContentText (c_text body), [(lit "body_text", T_VARCHAR)], 1))
  else if codec_kind =? DUCKNNG_BODY_CODEC_DUCKNNG_FRAME then
    ([], Ok (ContentFrame (ducknng_body_parse_frame_copy valid_utf8 body), ducknng_body_parse_add_frame_columns, 1))
  else if codec_kind =? DUCKNNG_BODY_CODEC_ARROW_IPC then
    ([], let! a := or_text "ducknng: failed to decode Arrow IPC body" (decode_ipc body) in
         bind_arrow "ducknng: invalid Arrow IPC body schema" "ducknng: unsupported Arrow IPC body type" a)
  else if codec_kind =? DUCKNNG_BODY_CODEC_QUACK_BATCH then
    ([], if zlen body =? 0 then Err (lit "ducknng: ducknng_quack_batch body must not be empty") else
         let! (cols, columns, rows) := or_text "ducknng: failed to decode ducknng_quack_batch body" (ducknng_quack_payload_bind_columns creates body) in
         Ok (ContentQuack body cols, columns, rows))
  else if codec_kind =? DUCKNNG_BODY_CODEC_JSON then json body
  else if codec_kind =? DUCKNNG_BODY_CODEC_NDJSON then json (c_text (fst (ducknng_ndjson_to_json_array body)))
  else if ((codec_kind =? DUCKNNG_BODY_CODEC_CSV) || (codec_kind =? DUCKNNG_BODY_CODEC_TSV))%bool then
    ([], if zlen body =? 0 then Err (lit "ducknng: CSV/TSV body must not be empty") else
         match ducknng_csv_parse_body zero strtod body (if codec_kind =? DUCKNNG_BODY_CODEC_TSV then 9 else chr ",") csv_max_columns with
         | Some (Ok t) => Ok (ContentCsv t, zip (csv_headers t) (csv_column_type <$> csv_types t), zlen (csv_rows t))
         | Some (Err e) => Err e
         | None => Err (lit "ducknng: failed to parse CSV/TSV body")
         end)
  else if codec_kind =? DUCKNNG_BODY_CODEC_PARQUET then
    let '(events, a) := ducknng_body_parse_run_tempfile_reader arrow connection query_to_ipc decode_ipc fs open_error write_error seq body codec_kind in
    (events, let! a := or_text "ducknng: failed to parse body with DuckDB file reader" a in
             bind_arrow "ducknng: invalid parsed body schema" "ducknng: unsupported parsed body type" a)
  else if codec_kind =? DUCKNNG_BODY_CODEC_FORM then
    let pairs := ducknng_parse_form_urlencoded body in
    ([], Ok (ContentForm pairs, [(lit "name", T_VARCHAR); (lit "value", T_VARCHAR)], zlen pairs))
  else ([], Ok (ContentRaw body, [(lit "body", T_BLOB)], 1)).

Definition ducknng_body_parse_prepare (codecs : codec_table) (body : bytes) (content_type : option bytes)
    : list codec_event * result bytes (body_bind arrow double) :=
  let media_type := ducknng_normalize_media_type content_type in
  let user_fn := ducknng_runtime_find_user_codec (Some media_type) codecs in
  let codec_kind := match user_fn with Some _ => DUCKNNG_BODY_CODEC_USER | None => ducknng_body_codec_for_media_type media_type end in
  let '(events, r) := body_parse_codec codec_kind (default [] user_fn) body in
  (events, let! (content, columns, rows) := r in
           Ok (mk_body_bind codec_kind (ducknng_body_codec_provider_name codec_kind) media_type content columns rows)).

(** [ducknng_parse_csv], [ducknng_parse_tsv] and [ducknng_parse_parquet]. *)
Definition ducknng_body_parse_tempfile_bind (body : option bytes) (codec_kind : Z)
    : list codec_event * result bytes (content * list (bytes * logical_type) * Z) :=
  if zlen (default [] body) =? 0 then ([], Err (lit "ducknng: body must not be null or empty")) else
  let '(events, a) := ducknng_body_parse_run_tempfile_reader arrow connection query_to_ipc decode_ipc fs open_error write_error seq (default [] body) codec_kind in
  (events, let! a := or_text "ducknng: failed to parse body" a in
           match arrow_types a with
           | Err e => Err (default (lit "ducknng: unsupported parsed body type") e)
           | Ok columns => Ok (ContentArrow a, columns, arrow_rows a)
           end).

End prepare.

(** ** Scanning *)

(** The next chunk of a list of rows, at most [vector_size] of them. *)
Definition rows_slice {A} (vector_size : Z) (rows : list A) (offset : Z) : list A :=
  let remaining := zlen rows - offset in
  ztake (if remaining <? vector_size then remaining else vector_size) (zdrop offset rows).

Record body_scan := mk_body_scan { bs_offset : Z; bs_emitted : bool }.

(** The rows of a chunk; [RowsArrow] is a range of an Arrow table. *)
Inductive body_rows (double : Type) :=
| RowsNone
| RowsText (text : option bytes)
| RowsRaw (raw : bytes)
| RowsFrame (row : frame_row)
| RowsForm (pairs : list (bytes * bytes))
| RowsCsv (rows : list (list (csv_cell double)))
| RowsArrow (offset count : Z)
| RowsQuack (output : option output_chunk).
Arguments RowsNone {double}.
Arguments RowsText {double}.
Arguments RowsRaw {double}.
Arguments RowsFrame {double}.
Arguments RowsForm {double}.
Arguments RowsCsv {double}.
Arguments RowsArrow {double}.
Arguments RowsQuack {double}.

Section scan.
Context (arrow double : Type) (creates : logical_type -> bool) (vector_size : Z).
(** Whether the columns of a range of an Arrow table are assigned. *)
Context (arrow_assign : arrow -> Z -> Z -> bool).

Definition ducknng_body_parse_scan (b : body_bind arrow double) (size : Z) (s : body_scan) : body_scan * result bytes (body_rows double) :=
  let single row := if bs_emitted s then (s, Ok RowsNone) else (mk_body_scan (bs_offset s) true, Ok row) in
  match bb_content b with
  | ContentText text => single (RowsText (Some text))
  | ContentUser text => single (RowsText text)
  | ContentRaw raw => single (RowsRaw raw)
  | ContentFrame row => single (RowsFrame row)
  | ContentArrow a =>
    let rows := bb_cardinality b in
    if rows <=? bs_offset s then (s, Ok RowsNone) else
    let count := if vector_size <? rows - bs_offset s then vector_size else rows - bs_offset s in
    if arrow_assign a (bs_offset s) count then (mk_body_scan (bs_offset s + count) (bs_emitted s), Ok (RowsArrow (bs_offset s) count))
    else (s, Err (lit "ducknng: failed to decode Arrow IPC body"))
  | ContentCsv t =>
    if zlen (csv_rows t) <=? bs_offset s then (s, Ok RowsNone) else
    let rows := rows_slice vector_size (csv_rows t) (bs_offset s) in
    (mk_body_scan (bs_offset s + zlen rows) (bs_emitted s), Ok (RowsCsv rows))
  | ContentQuack raw cols =>
    if bb_cardinality b <=? bs_offset s then (s, Ok RowsNone) else
    match ducknng_quack_payload_scan creates vector_size raw cols (bs_offset s) size with
    | Ok (offset, output) => (mk_body_scan offset (bs_emitted s), Ok (RowsQuack output))
    | Err e => (s, Err (default (lit "ducknng: failed to decode ducknng_quack_batch body") e))
    end
  | ContentForm pairs =>
    match rows_slice vector_size pairs (bs_offset s) with
    | [] => (s, Ok RowsNone)
    | rows => (mk_body_scan (bs_offset s + zlen rows) (bs_emitted s), Ok (RowsForm rows))
    end
  end.

(** DuckDB's calls, until a chunk without rows. *)
Fixpoint body_scans (fuel : nat) (b : body_bind arrow double) (s : body_scan) : list (result bytes (body_rows double)) :=
  match fuel with
  | O => []
  | S fuel =>
    match ducknng_body_parse_scan b 0 s with
    | (_, Ok RowsNone) => []
    | (_, Err e) => [Err e]
    | (s, r) => r :: body_scans fuel b s
    end
  end.

End scan.

(** ** The list of codecs *)

Record codec_row := mk_codec_row {
  cr_provider : bytes; cr_media_types : bytes; cr_kind : bytes; cr_function_name : option bytes; cr_output : bytes }.

(** Provider, media types and output; the notes are left out. *)
Definition DUCKNNG_BUILTIN_CODECS : list (string * string * string) :=
  [("raw", "application/octet-stream, */* fallback", "body BLOB");
   ("text", "text/*", "body_text VARCHAR");
   ("json", "application/json, application/*+json", "dynamic table");
   ("csv", "text/csv, application/csv, text/x-csv", "dynamic table");
   ("tsv", "text/tab-separated-values, application/x-tsv, text/tsv", "dynamic table");
   ("parquet", "application/vnd.apache.parquet, application/parquet, application/x-parquet", "dynamic table");
   ("arrow_ipc", "application/vnd.apache.arrow.stream, application/vnd.apache.arrow.ipc, application/arrow", "dynamic table");
   ("ducknng_quack_batch", "application/vnd.ducknng.quack-batch", "dynamic table");
   ("ducknng_frame", "application/vnd.ducknng.frame", "decoded frame columns");
   ("ndjson", "application/x-ndjson, application/ndjson, application/x-jsonlines, application/jsonlines", "dynamic table");
   ("form", "application/x-www-form-urlencoded", "name VARCHAR, value VARCHAR")]%string.

Definition ducknng_codecs_bind (codecs : codec_table) : list codec_row :=
  ((fun c => mk_codec_row (lit c.1.1) (lit c.1.2) (lit "builtin") None (lit c.2)) <$> DUCKNNG_BUILTIN_CODECS) ++
  ((fun uc => mk_codec_row (lit "user") uc.1 (lit "user") (Some uc.2) (lit "value VARCHAR")) <$> user_codecs codecs).

Definition ducknng_codecs_scan (vector_size : Z) (rows : list codec_row) (offset : Z) : Z * list codec_row :=
  if zlen rows <=? offset then (offset, []) else
  let chunk := rows_slice vector_size rows offset in (offset + zlen chunk, chunk).

(** Registering a codec from SQL, row by row: the table, and the error that ends
    the call. *)
Definition ducknng_register_codec_scalar (content_type function_name : option bytes) (codecs : codec_table) : result bytes codec_table :=
  match content_type, function_name with
  | Some content_type, Some function_name =>
    if negb (ducknng_is_sql_identifier function_name)
    then Err (lit "ducknng: codec function name must be a plain SQL identifier (letters, digits, underscore, dot)")
    else ducknng_runtime_register_user_codec (Some content_type) (Some function_name) codecs
  | _, _ => Err (lit "ducknng: register_codec requires non-null content_type and function_name")
  end.

Definition ducknng_unregister_codec_scalar (content_type : option bytes) (codecs : codec_table) : result bytes (codec_table * bool) :=
  match content_type with
  | Some content_type => Ok (ducknng_runtime_unregister_user_codec (Some content_type) codecs)
  | None => Err (lit "ducknng: unregister_codec requires a non-null content_type")
  end.

(** ** No body escapes its literal *)

(** Reads an SQL text: what is outside of string literals, with a quote for each
    of them, the contents of the literals, and whether the last one is closed. *)
Fixpoint sql_lex (p : bytes) (inside : option bytes) : bytes * list bytes * bool :=
  match p with
  | [] => match inside with None => ([], [], true) | Some s => ([], [s], false) end
  | c :: r =>
    match inside with
    | None =>
      if c =? SQL_QUOTE then sql_lex r (Some [])
      else let '(text, lits, closed) := sql_lex r None in (c :: text, lits, closed)
    | Some s =>
      if c =? SQL_QUOTE then
        match r with
        | d :: r' => if d =? SQL_QUOTE then sql_lex r' (Some (s ++ [SQL_QUOTE]))
                     else let '(text, lits, closed) := sql_lex r None in (SQL_QUOTE :: text, s :: lits, closed)
        | [] => ([SQL_QUOTE], [s], true)
        end
      else sql_lex r (Some (s ++ [c]))
    end
  end.

Lemma lex_plain s rest : SQL_QUOTE ∉ s ->
  sql_lex (s ++ rest) None = let '(text, lits, closed) := sql_lex rest None in (s ++ text, lits, closed).
Proof.
  induction s as [|c s IH]; intros Hs; cbn [app sql_lex]; [by destruct (sql_lex rest None) as [[? ?] ?]|].
  apply not_elem_of_cons in Hs as [Hc Hs]. destruct (Z.eqb_spec c SQL_QUOTE); [congruence|]. rewrite IH by done. by destruct (sql_lex rest None) as [[? ?] ?].
Qed.

Lemma lex_inside s : forall acc rest, cur rest <> SQL_QUOTE ->
  sql_lex ((s ≫= quote_char) ++ SQL_QUOTE :: rest) (Some acc) =
    let '(text, lits, closed) := sql_lex rest None in (SQL_QUOTE :: text, (acc ++ s) :: lits, closed).
Proof.
  induction s as [|c s IH]; intros acc rest Hr.
  - cbn [mbind list_bind app sql_lex]. rewrite Z.eqb_refl, app_nil_r. destruct rest as [|d rest]; [done|]. cbn [cur] in Hr.
    apply Z.eqb_neq in Hr. by rewrite Hr.
  - cbn [mbind list_bind]. unfold quote_char at 1. rewrite <- app_assoc. destruct (Z.eqb_spec c SQL_QUOTE) as [->|Hc]; cbn [app sql_lex].
    + change (SQL_QUOTE =? SQL_QUOTE) with true. cbv iota. unfold mbind in IH. rewrite IH by done. by rewrite <- app_assoc.
    + apply Z.eqb_neq in Hc. rewrite Hc. unfold mbind in IH. rewrite IH by done. by rewrite <- app_assoc.
Qed.

(** A quoted literal is one literal, whatever it quotes. *)
Lemma lex_literal s rest : cur rest <> SQL_QUOTE ->
  sql_lex (ducknng_sql_quote_literal (Some s) ++ rest) None =
    let '(text, lits, closed) := sql_lex rest None in (SQL_QUOTE :: text, s :: lits, closed).
Proof. intros Hr. cbn [ducknng_sql_quote_literal app sql_lex]. rewrite Z.eqb_refl, <- app_assoc. cbn [app]. by rewrite (lex_inside s [] rest Hr). Qed.

Ltac lex_sql := repeat first
  [ rewrite <- !app_assoc | rewrite lex_literal by done | rewrite lex_plain by (by apply (bool_decide_eq_true_1 _)) ].

(** The fixed texts around a literal. *)
Definition json_skeletons : list bytes :=
  [template_array_struct [SQL_QUOTE]; template_array_value [SQL_QUOTE]; template_object [SQL_QUOTE]; template_scalar [SQL_QUOTE]].

Lemma lex_templates s :
  sql_lex (template_array_struct (ducknng_sql_quote_literal (Some s))) None = (template_array_struct [SQL_QUOTE], [s; s], true) /\
  sql_lex (template_array_value (ducknng_sql_quote_literal (Some s))) None = (template_array_value [SQL_QUOTE], [s; s], true) /\
  sql_lex (template_object (ducknng_sql_quote_literal (Some s))) None = (template_object [SQL_QUOTE], [s; s], true) /\
  sql_lex (template_scalar (ducknng_sql_quote_literal (Some s))) None = (template_scalar [SQL_QUOTE], [s; s], true).
Proof.
  unfold template_array_struct, template_array_value, template_object, template_scalar, json_cte. repeat split; lex_sql;
    (match goal with |- context [sql_lex ?t None] => rewrite <- (app_nil_r t) end; rewrite lex_plain by (by apply (bool_decide_eq_true_1 _)); done).
Qed.

(** What a query of the codec connection may be: one of the fixed texts with the
    JSON text as both of its literals, or the Parquet reader on the file. *)
Definition query_safe (path json sql : bytes) : Prop :=
  (exists skeleton, skeleton ∈ json_skeletons /\ sql_lex sql None = (skeleton, [json; json], true)) \/
  sql_lex sql None = (lit "SELECT * FROM read_parquet(" ++ [SQL_QUOTE] ++ lit ")", [path], true).

Definition event_safe (path body : bytes) (e : codec_event) : Prop :=
  match e with
  | RanQuery sql => query_safe path (c_text body) sql \/ query_safe path (c_text (fst (ducknng_ndjson_to_json_array body))) sql
  | RanPrepared sql blob =>
    blob = body /\ exists fn, ducknng_is_sql_identifier fn = true /\ sql = lit "SELECT " ++ fn ++ lit "(?::BLOB) AS value"
  | WroteFile p b => p = path /\ b = body
  | UnlinkedFile p => p = path
  end.

Section safe.
Context (arrow double : Type) (valid_utf8 : bytes -> bool).
Context (connection : bool) (query_to_ipc : bytes -> result (option bytes) bytes) (user_statement : bytes -> bytes -> user_answer).
Context (decode_ipc : bytes -> result (option bytes) arrow).

Lemma json_queries path body :
  let '(events, _) := ducknng_body_parse_run_duckdb_reader arrow valid_utf8 connection query_to_ipc decode_ipc body DUCKNNG_BODY_CODEC_JSON in
  Forall (fun e => exists sql, e = RanQuery sql /\ query_safe path (c_text body) sql) events.
Proof.
  unfold ducknng_body_parse_run_duckdb_reader. destruct connection; [|constructor]. cbn [negb]. rewrite Z.eqb_refl. cbn [negb]. destruct (zlen body =? 0); [constructor|].
  destruct (ducknng_sql_bytes_look_text valid_utf8 body); [|constructor]. cbn [negb]. destruct (lex_templates (c_text body)) as (H1 & H2 & H3 & H4).
  assert (forall t, t ∈ [template_array_struct; template_array_value; template_object; template_scalar] ->
    query_safe path (c_text body) (t (ducknng_sql_quote_literal (Some (c_text body))))) as Ht.
  { intros t Ht. left. unfold json_skeletons. repeat apply elem_of_cons in Ht as [->|Ht]; [..|by apply not_elem_of_nil in Ht]; eexists; (split; [|eassumption]).
    all: repeat first [apply list_elem_of_here|apply list_elem_of_further]. }
  assert (forall t, t ∈ [template_array_struct; template_array_value; template_object; template_scalar] ->
    exists sql, RanQuery (t (ducknng_sql_quote_literal (Some (c_text body)))) = RanQuery sql /\ query_safe path (c_text body) sql) as He by eauto.
  set (start := cur (media_skip body)). destruct (start =? chr "["); [|destruct (start =? chr "{")];
    (destruct (query_to_ipc _); repeat constructor; apply He); repeat first [apply list_elem_of_here|apply list_elem_of_further].
Qed.

End safe.

Lemma c_text_twice s : c_text (c_text s) = c_text s.
Proof. induction s as [|c s IH]; [done|]. cbn. destruct (c =? 0) eqn:E; [done|]. cbn. by rewrite E, IH. Qed.

(** C22. Whatever a body holds, it stays data.  Every query the codecs run for it
    is one of five fixed texts, once its string literals are taken out: the
    literals are closed, and they hold the JSON text of the body or the path of
    the temporary file.  A user codec runs as a prepared statement over a plain
    identifier with the body as its parameter.  A temporary file holds the body
    and is removed in the end, whether the reader succeeds or not. *)
Theorem body_sql_safe {arrow double} valid_utf8 connection query_to_ipc user_statement decode_ipc arrow_rows arrow_children arrow_types
    (zero : double) strtod creates csv_max_columns fs open_error write_error seq codecs body content_type :
  let '(events, _) := ducknng_body_parse_prepare arrow double valid_utf8 connection query_to_ipc user_statement decode_ipc arrow_rows arrow_children
    arrow_types zero strtod creates csv_max_columns fs open_error write_error seq codecs body content_type in
  Forall (event_safe (ducknng_body_make_tempfile_path seq) body) events /\
  (forall p b, WroteFile p b ∈ events -> last events = Some (UnlinkedFile p)).
Proof.
  unfold ducknng_body_parse_prepare. set (kind := match ducknng_runtime_find_user_codec _ _ with Some _ => _ | None => _ end). set (fn := default [] _).
  assert (forall (l : list codec_event), (forall e, e ∈ l -> exists sql, e = RanQuery sql) -> forall p b, WroteFile p b ∈ l -> last l = Some (UnlinkedFile p)) as Hq.
  { intros l Hl p b Hin. by destruct (Hl _ Hin). }
  assert (forall p b, WroteFile p b ∈ [] -> last [] = Some (UnlinkedFile p)) as Hnil by (by intros p b []%not_elem_of_nil).
  unfold body_parse_codec. destruct (kind =? DUCKNNG_BODY_CODEC_USER).
  { unfold ducknng_body_parse_run_user_codec. destruct connection; [|by split; [constructor|]]. cbn [negb]. destruct (ducknng_is_sql_identifier fn) eqn:Ef; [|by split; [constructor|]]. cbn [negb].
    split; [repeat constructor; eauto|]. intros p b [=]%list_elem_of_singleton. }
  repeat match goal with |- context [if kind =? ?k then ([], _) else _] => destruct (kind =? k); [by split; [constructor|]|] end.
  destruct (kind =? DUCKNNG_BODY_CODEC_JSON) eqn:Ej; [|destruct (kind =? DUCKNNG_BODY_CODEC_NDJSON) eqn:En].
  1,2: match goal with |- context [ducknng_body_parse_run_duckdb_reader _ _ _ _ _ ?b _] =>
      pose proof (json_queries arrow valid_utf8 connection query_to_ipc decode_ipc (ducknng_body_make_tempfile_path seq) b) as H end;
    destruct (ducknng_body_parse_run_duckdb_reader _ _ _ _ _ _ _) as [events a]; rewrite Forall_forall in H; split;
    [apply Forall_forall; intros e He; destruct (H e He) as (sql & -> & Hs); cbn; rewrite ?c_text_twice in Hs; auto|apply Hq; intros e He; destruct (H e He) as (sql & -> & _); eauto].
  destruct (_ || _)%bool; [by split; [constructor|]|]. destruct (Z.eqb_spec kind DUCKNNG_BODY_CODEC_PARQUET) as [->|_].
  - unfold ducknng_body_parse_run_tempfile_reader. destruct (_ || _)%bool; [by split; [constructor|]|]. cbn [read_template]. change (read_template DUCKNNG_BODY_CODEC_PARQUET) with (Some ("SELECT * FROM read_parquet("%string, ")"%string)). cbv iota beta.
    destruct (zlen body =? 0); [by split; [constructor|]|]. destruct open_error; [|destruct write_error]; cbv beta zeta iota.
    1,2: split; [by repeat constructor|]; intros p b [=]%list_elem_of_singleton.
    split.
    + apply Forall_cons; split; [done|]. apply Forall_cons; split; [|by repeat constructor]. left. right. lex_sql. rewrite <- (app_nil_r (lit ")")), lex_plain by (by apply (bool_decide_eq_true_1 _)). done.
    + intros p b Hin. repeat apply elem_of_cons in Hin as [Hin|Hin]; [by injection Hin as -> ->|done|done|by apply not_elem_of_nil in Hin].
  - destruct (kind =? DUCKNNG_BODY_CODEC_FORM); by split; [constructor|].
Qed.

(** ** Scans deliver every row *)

Lemma slice_next {A} vector_size (rows : list A) offset : 0 < vector_size -> 0 <= offset < zlen rows ->
  let chunk := rows_slice vector_size rows offset in
  0 < zlen chunk <= vector_size /\ zdrop offset rows = chunk ++ zdrop (offset + zlen chunk) rows.
Proof.
  intros Hv Ho. unfold rows_slice. set (n := if _ <? _ then _ else _). assert (0 < n <= zlen rows - offset /\ n <= vector_size) as [Hn Hn'].
  { unfold n. destruct (Z.ltb_spec (zlen rows - offset) vector_size); lia. }
  cbv zeta. rewrite zlen_ztake by (rewrite zlen_zdrop; lia). split; [lia|]. rewrite <- (zdrop_zdrop n offset) by lia. by rewrite ztake_zdrop.
Qed.

Lemma slice_end {A} vector_size (rows : list A) offset : zlen rows <= offset -> rows_slice vector_size rows offset = [].
Proof.
  intros Ho. unfold rows_slice, zdrop. rewrite drop_ge by (unfold zlen in Ho; lia). unfold ztake. apply take_nil.
Qed.

Section scans.
Context {arrow double : Type} (creates : logical_type -> bool) (vector_size : Z) (arrow_assign : arrow -> Z -> Z -> bool).
Hypothesis Hvector : 0 < vector_size.

(** The contents that are lists of rows: what a scan returns for them. *)
Definition scans_rows {A} (b : body_bind arrow double) (rows : list A) (out : list A -> body_rows double) : Prop :=
  (forall chunk, out chunk <> RowsNone) /\ forall offset, 0 <= offset ->
  ducknng_body_parse_scan arrow double creates vector_size arrow_assign b 0 (mk_body_scan offset false) =
    if zlen rows <=? offset then (mk_body_scan offset false, Ok RowsNone)
    else (mk_body_scan (offset + zlen (rows_slice vector_size rows offset)) false, Ok (out (rows_slice vector_size rows offset))).

Lemma scans_all {A} b (rows : list A) out : scans_rows b rows out -> forall fuel offset, 0 <= offset -> zlen rows - offset < Z.of_nat fuel ->
  exists chunks, body_scans arrow double creates vector_size arrow_assign fuel b (mk_body_scan offset false) = (fun c => Ok (out c)) <$> chunks /\
    concat chunks = zdrop offset rows /\ Forall (fun c => 0 < zlen c <= vector_size) chunks.
Proof.
  intros [Hout Hs]. induction fuel as [|fuel IH]; intros offset Ho Hf.
  - exists []. split; [done|]. split; [|done]. unfold zdrop. by rewrite drop_ge by (unfold zlen in Hf; lia).
  - cbn [body_scans]. rewrite Hs by done. destruct (Z.leb_spec (zlen rows) offset) as [Hle|Hlt].
    + exists []. split; [done|]. split; [|done]. unfold zdrop. by rewrite drop_ge by (unfold zlen in Hle; lia).
    + destruct (slice_next vector_size rows offset Hvector ltac:(lia)) as [Hc Hd]. cbv zeta in Hc, Hd. set (chunk := rows_slice vector_size rows offset) in *.
      destruct (IH (offset + zlen chunk)) as (chunks & E & Hcat & HF); [lia|lia|]. exists (chunk :: chunks). split; [|split].
      * pose proof (Hout chunk) as Ho'. rewrite fmap_cons, <- E. by destruct (out chunk).
      * cbn. by rewrite Hcat, <- Hd.
      * by constructor.
Qed.

Lemma scans_csv b t : bb_content b = ContentCsv t -> scans_rows b (csv_rows t) RowsCsv.
Proof. intros Hb. split; [done|]. intros offset Ho. unfold ducknng_body_parse_scan. rewrite Hb. cbn [bs_offset bs_emitted]. by destruct (zlen (csv_rows t) <=? offset). Qed.

Lemma scans_form b pairs : bb_content b = ContentForm pairs -> scans_rows b pairs RowsForm.
Proof.
  intros Hb. split; [done|]. intros offset Ho. unfold ducknng_body_parse_scan. rewrite Hb. cbn [bs_offset bs_emitted]. destruct (Z.leb_spec (zlen pairs) offset) as [Hle|Hlt].
  - by rewrite slice_end.
  - destruct (slice_next vector_size pairs offset Hvector ltac:(lia)) as [Hc _]. cbv zeta in Hc. destruct (rows_slice vector_size pairs offset); [unfold zlen in Hc; cbn in Hc; lia|done].
Qed.

End scans.

(** ** Forms *)

Lemma hex_val_byte c : is_char c ->
  0 <= ducknng_hex_val (hex_digit (c / 16)) /\ 0 <= ducknng_hex_val (hex_digit (c mod 16)) /\
  Z.lor (Z.shiftl (ducknng_hex_val (hex_digit (c / 16))) 4) (ducknng_hex_val (hex_digit (c mod 16))) = c.
Proof.
  intros Hc. assert (is_byte c) as Hb by (unfold is_char, is_byte in *; lia).
  apply (byte_forall (fun c => (0 <=? ducknng_hex_val (hex_digit (c / 16))) && (0 <=? ducknng_hex_val (hex_digit (c mod 16))) &&
    (Z.lor (Z.shiftl (ducknng_hex_val (hex_digit (c / 16))) 4) (ducknng_hex_val (hex_digit (c mod 16))) =? c))%bool) in Hb; [|by vm_compute].
  by btests.
Qed.

Lemma url_decode_encoded keep s : keeps_plain keep -> cstr s -> ducknng_url_decode (percent_encode keep s) = s.
Proof.
  intros Hk Hs. unfold ducknng_url_decode. assert (url_decode_loop (percent_encode keep s) = s) as ->; [|by apply c_text_cstr].
  induction Hs as [|c s Hc Hs IH]; [done|]. rewrite percent_encode_cons. unfold percent_char. destruct (keep c) eqn:Ek.
  - destruct (Hk c Ek) as (H1 & H2 & _). cbn [app url_decode_loop]. apply Z.eqb_neq in H1, H2. by rewrite H1, H2, IH.
  - destruct (hex_val_byte c Hc) as (H1 & H2 & H3). cbn [app url_decode_loop]. rewrite Z.eqb_refl. apply Z.leb_le in H1, H2. by rewrite H1, H2, H3, IH.
Qed.

Lemma form_loop_rendered keep kvs fuel : keeps_plain keep -> fields_ok kvs -> (length kvs < fuel)%nat ->
  form_loop fuel (render_query keep kvs) = kvs.
Proof.
  intros Hkeep Hok. revert fuel. induction Hok as [|[k v] kvs [Hk Hv] Hok IH]; intros fuel Hf; (destruct fuel as [|fuel]; [lia|]); [done|]. cbn [fst snd] in *.
  assert (chr "&" ∉ render_pair keep (k, v)) as Hp.
  { unfold render_pair. cbn [fst snd]. rewrite !not_elem_of_app. split; [by apply percent_encode_plain; auto|]. split; [|by apply percent_encode_plain; auto].
    apply (bool_decide_unpack _). by vm_compute. }
  assert (break_at (chr "&") (render_query keep ((k, v) :: kvs)) = (render_pair keep (k, v), match kvs with [] => None | _ => Some (render_query keep kvs) end)) as Hb.
  { unfold render_query. rewrite fmap_cons. destruct kvs as [|kv' kvs]; [by apply break_at_none|by apply break_at_skip]. }
  assert (form_pair (render_pair keep (k, v)) = (k, v)) as Hpair.
  { unfold form_pair, render_pair. cbn [fst snd]. change (lit "=" ++ percent_encode keep v) with (chr "=" :: percent_encode keep v).
    rewrite break_at_skip by (by apply percent_encode_plain; auto). by rewrite !url_decode_encoded. }
  assert (exists c r, render_pair keep (k, v) = c :: r) as (c & r & Er).
  { unfold render_pair. cbn [fst snd]. destruct (percent_encode keep k); by do 2 eexists. }
  cbn [form_loop]. rewrite Hb. rewrite Er, <- Er, Hpair. cbn [app]. f_equal. cbn [length] in Hf. destruct kvs; [done|]. apply IH. lia.
Qed.

Lemma render_query_length keep kvs : (length kvs <= length (render_query keep kvs))%nat.
Proof.
  assert (forall kv, 1 <= length (render_pair keep kv))%nat as Hp.
  { intros kv. unfold render_pair. rewrite !length_app. change (length (lit "=")) with 1%nat. lia. }
  unfold render_query. induction kvs as [|kv [|kv' kvs] IH]; [cbn; lia|cbn; specialize (Hp kv); lia|].
  rewrite !fmap_cons, join_cons, !length_app. rewrite fmap_cons in IH. cbn [length] in *. change (length (lit "&")) with 1%nat. lia.
Qed.

(** ** Bodies from end to end *)

Section served.
Context {arrow double : Type} (valid_utf8 : bytes -> bool).
Context (connection : bool) (query_to_ipc : bytes -> result (option bytes) bytes) (user_statement : bytes -> bytes -> user_answer).
Context (decode_ipc : bytes -> result (option bytes) arrow).
Context (arrow_rows : arrow -> Z) (arrow_children : arrow -> Z * Z) (arrow_types : arrow -> result (option bytes) (list (bytes * logical_type))).
Context (zero : double) (strtod : bytes -> double * Z * bytes) (creates : logical_type -> bool).
Context (csv_max_columns : Z) (fs : bool) (open_error write_error : option (option bytes)) (seq : Z).
Context (vector_size : Z) (arrow_assign : arrow -> Z -> Z -> bool).

Abbreviation prepare := (ducknng_body_parse_prepare arrow double valid_utf8 connection query_to_ipc user_statement decode_ipc arrow_rows
  arrow_children arrow_types zero strtod creates csv_max_columns fs open_error write_error seq).
Abbreviation scans := (body_scans arrow double creates vector_size arrow_assign).

(** No codec of the user claims the content type, and the built-in one is
    [kind]. *)
Definition selects (codecs : codec_table) (content_type : option bytes) (kind : Z) : Prop :=
  ducknng_runtime_find_user_codec (Some (ducknng_normalize_media_type content_type)) codecs = None /\
  ducknng_body_codec_for_media_type (ducknng_normalize_media_type content_type) = kind.


(** A form becomes its fields: pairs of texts, percent-encoded in any way that
    escapes the characters of the form syntax and joined by ampersands, sent
    under the form content type, bind to a name and a value column, and the scan
    returns every pair once, decoded and in order. *)
Theorem form_body_roundtrip codecs content_type keep kvs : 0 < vector_size -> selects codecs content_type DUCKNNG_BODY_CODEC_FORM ->
  keeps_plain keep -> Forall (fun kv => cstr kv.1 /\ cstr kv.2) kvs ->
  exists b chunks, prepare codecs (render_query keep kvs) content_type = ([], Ok b) /\
    bb_columns b = [(lit "name", T_VARCHAR); (lit "value", T_VARCHAR)] /\ bb_cardinality b = zlen kvs /\
    scans (S (length kvs)) b (mk_body_scan 0 false) = (fun c => Ok (RowsForm c)) <$> chunks /\ concat chunks = kvs /\
    Forall (fun c => 0 < zlen c <= vector_size) chunks.
Proof.
  intros Hv [Hu Hsel] Hk Hok. assert (ducknng_parse_form_urlencoded (render_query keep kvs) = kvs) as Ef.
  { unfold ducknng_parse_form_urlencoded. apply form_loop_rendered; [done|done|]. pose proof (render_query_length keep kvs). lia. }
  set (b := mk_body_bind (arrow := arrow) (double := double) DUCKNNG_BODY_CODEC_FORM (lit "form") (ducknng_normalize_media_type content_type) (ContentForm kvs)
    [(lit "name", T_VARCHAR); (lit "value", T_VARCHAR)] (zlen kvs)).
  destruct (scans_all creates vector_size arrow_assign Hv b kvs RowsForm (scans_form _ _ _ Hv b kvs eq_refl) (S (length kvs)) 0 ltac:(lia)
    ltac:(unfold zlen; lia)) as (chunks & Es & Hc & HF).
  exists b, chunks. split; [|done]. unfold ducknng_body_parse_prepare. cbv zeta. rewrite Hu, Hsel.
  unfold body_parse_codec. cbn -[ducknng_parse_form_urlencoded lit zlen chr]. by rewrite Ef.
Qed.

End served.

(** ** Examples *)

Definition no_codecs : codec_table := mk_codecs [] 0.
Definition demo_header : list (option bytes) := [Some (lit "a"); Some (lit "b" ++ [QUOTE] ++ lit "c")].
Definition demo_header_line : bytes := lit "a," ++ [QUOTE] ++ lit "b" ++ [QUOTE; QUOTE] ++ lit "c" ++ [QUOTE].
Definition demo_text : bytes := lit "-5,x" ++ [10] ++ [10] ++ lit "2".

Definition demo_prepare (body : bytes) (content_type : option bytes) : list codec_event * result bytes (body_bind unit Z) :=
  ducknng_body_parse_prepare unit Z (fun _ => true) true (fun _ => Err None) (fun _ _ => NoRows) (fun _ => Err None) (fun _ => 0) (fun _ => (0, 0))
    (fun _ => Ok []) 0 demo_strtod (fun _ => true) 1024 true None None 0 no_codecs body content_type.


(** The form [a+b=1] under a percent encoding of everything but letters. *)
Lemma form_body_roundtrip_witness : exists b chunks,
  demo_prepare (lit "a%2bb=%31") (Some (lit "application/x-www-form-urlencoded")) = ([], Ok b) /\
  body_scans unit Z (fun _ => true) 2048 (fun _ _ _ => true) 2 b (mk_body_scan 0 false) = (fun c => Ok (RowsForm c)) <$> chunks /\ concat chunks = [(lit "a+b", lit "1")].
Proof.
  destruct (form_body_roundtrip (arrow := unit) (fun _ => true) true (fun _ => Err None) (fun _ _ => NoRows) (fun _ => Err None) (fun _ => 0) (fun _ => (0, 0))
    (fun _ => Ok []) 0 demo_strtod (fun _ => true) 1024 true None None 0 2048 (fun _ _ _ => true) no_codecs (Some (lit "application/x-www-form-urlencoded"))
    is_letter [(lit "a+b", lit "1")]) as (b & chunks & H1 & _ & _ & H2 & H3 & _).
  - lia.
  - split; by vm_compute.
  - intros c Hc. unfold is_letter in Hc. change (chr "%") with 37. change (chr "+") with 43. change (chr "&") with 38. change (chr "=") with 61. repeat split; intros ->; done.
  - by repeat constructor.
  - exists b, chunks. split; [exact H1|split; [exact H2|exact H3]].
Defined.

(** ** NDJSON *)

(** The lines that count, trimmed. *)
Fixpoint ndjson_lines (fuel : nat) (p : bytes) : list bytes :=
  match p, fuel with
  | [], _ | _, O => []
  | _, S fuel =>
    let '(line, rest) := next_line p in
    match ndjson_trim line with [] => ndjson_lines fuel rest | line => line :: ndjson_lines fuel rest end
  end.

Lemma ndjson_fill_lines fuel : forall p first, ndjson_fill fuel p first =
  match ndjson_lines fuel p with [] => [] | lines => (if first then [] else lit ",") ++ join (lit ",") lines end.
Proof.
  induction fuel as [|fuel IH]; intros p first; destruct p as [|c p]; try done. cbn [ndjson_fill ndjson_lines]. destruct (next_line (c :: p)) as [line rest].
  destruct (ndjson_trim line) as [|x l]; [apply IH|]. rewrite IH. destruct (ndjson_lines fuel rest) as [|y ls]; [by rewrite app_nil_r|]. by rewrite join_cons.
Qed.

Lemma ndjson_measure_lines fuel : forall p total first, ndjson_measure fuel p total first =
  match ndjson_lines fuel p with [] => (total, first) | lines => (total + (if first then 0 else 1) + zlen (join (lit ",") lines), false) end.
Proof.
  induction fuel as [|fuel IH]; intros p total first; destruct p as [|c p]; try done. cbn [ndjson_measure ndjson_lines]. destruct (next_line (c :: p)) as [line rest].
  destruct (ndjson_trim line) as [|x l]; [apply IH|]. rewrite IH. destruct (ndjson_lines fuel rest) as [|y ls].
  - cbn [join]. f_equal. destruct first; lia.
  - rewrite join_cons, !zlen_app. change (zlen (lit ",")) with 1. f_equal. destruct first; lia.
Qed.

(** The array is the lines between brackets, and with its NUL it fills the block
    that the first pass measured. *)
Lemma ndjson_exact body : let lines := ndjson_lines (length body) body in let '(text, size) := ducknng_ndjson_to_json_array body in
  text = lit "[" ++ join (lit ",") lines ++ lit "]" /\ size = zlen text + 1.
Proof.
  unfold ducknng_ndjson_to_json_array. rewrite ndjson_measure_lines, ndjson_fill_lines. destruct (ndjson_lines (length body) body) as [|x ls]; [done|].
  cbn [app]. split; [done|]. set (t := join (lit ",") (x :: ls)). change (lit "[" ++ t ++ lit "]") with (chr "[" :: (t ++ lit "]")).
  rewrite zlen_cons, zlen_app. change (zlen (lit "]")) with 1. lia.
Qed.

(** ** Codecs and their names *)

(** A normalized media type has no parameters. *)
Lemma normalized_plain content_type c : c ∈ ducknng_normalize_media_type content_type -> c <> chr ";" /\ media_space c = false.
Proof.
  destruct content_type as [s|]; [|by intros []%not_elem_of_nil]. cbn [ducknng_normalize_media_type]. intros (x & -> & Hx)%list_elem_of_fmap.
  assert (x <> chr ";" /\ media_space x = false) as [H1 H2].
  { revert Hx. generalize (media_skip s). clear s. intros s. induction s as [|d s IH]; cbn [media_take]; [by intros []%not_elem_of_nil|].
    destruct (_ || _)%bool eqn:E; [by intros []%not_elem_of_nil|]. apply orb_false_iff in E as [E1 E2]. intros [->|Hx]%elem_of_cons; [|by apply IH].
    split; [by apply Z.eqb_neq|done]. }
  unfold ducknng_ascii_tolower_int. destruct (_ && _)%bool eqn:E; [|done]. apply andb_true_iff in E as [E1%Z.leb_le E2%Z.leb_le].
  change (chr ";") with 59. unfold media_space. split; [lia|]. repeat (apply orb_false_iff; split); apply Z.eqb_neq; lia.
Qed.

Lemma trim_left_keeps c s : is_blank c = false -> c ∈ s <-> c ∈ trim_left s.
Proof.
  intros Hc. induction s as [|d s IH]; [done|]. cbn [trim_left]. destruct (is_blank d) eqn:E; [|done]. rewrite elem_of_cons, IH. split; [|by right].
  intros [->|H]; [congruence|done].
Qed.

Lemma rev_elem (c : Z) l : c ∈ rev l <-> c ∈ l.
Proof. by rewrite !list_elem_of_In, <- in_rev. Qed.

(** A codec registered for a content type with parameters is never used: bodies
    are looked up by the type without them. *)
Lemma parameters_unreachable key content_type : chr ";" ∈ key ->
  ducknng_codec_normalize (Some (ducknng_normalize_media_type content_type)) <> ducknng_codec_normalize (Some key).
Proof.
  intros Hk. assert (chr ";" ∈ default [] (ducknng_codec_normalize (Some key))) as Hin.
  { unfold ducknng_codec_normalize. cbn [default id]. pose proof (proj1 (trim_left_keeps (chr ";") key eq_refl) Hk) as H1.
    destruct (trim_left key) as [|a l] eqn:E; [by apply not_elem_of_nil in H1|]. assert (chr ";" ∈ trim_right (a :: l)) as H2.
    { unfold trim_right. rewrite rev_elem, <- trim_left_keeps by done. by rewrite rev_elem. }
    destruct (trim_right (a :: l)) as [|a' l'] eqn:E'; [by apply not_elem_of_nil in H2|]. cbn [default]. apply list_elem_of_fmap. by exists (chr ";"). }
  intros E. rewrite <- E in Hin. pose proof (normalized_plain content_type) as Hp. revert Hin. generalize dependent (ducknng_normalize_media_type content_type).
  intros m E Hp Hin. assert (exists x, x ∈ m /\ ducknng_ascii_tolower_int x = chr ";") as (x & Hx & Ex).
  { unfold ducknng_codec_normalize in Hin. cbn [default id] in Hin. destruct (trim_left m) as [|a l] eqn:El; [by apply not_elem_of_nil in Hin|].
    destruct (trim_right (a :: l)) as [|a' l'] eqn:Er; [by apply not_elem_of_nil in Hin|]. cbn [default] in Hin. apply list_elem_of_fmap in Hin as (x & Ex & Hx).
    exists x. split; [|done]. assert (is_blank x = false) as Hb.
    { unfold ducknng_ascii_tolower_int in Ex. change (chr ";") with 59 in Ex. destruct (_ && _)%bool eqn:Eb; [apply andb_true_iff in Eb as [?%Z.leb_le ?%Z.leb_le]; lia|]. by subst x. }
    rewrite <- Er in Hx. unfold trim_right in Hx. rewrite rev_elem in Hx. rewrite <- trim_left_keeps in Hx by done.
    rewrite rev_elem, <- El in Hx. by rewrite <- trim_left_keeps in Hx by done. }
  destruct (Hp x Hx) as [Hne _]. unfold ducknng_ascii_tolower_int in Ex. change (chr ";") with 59 in *. destruct (_ && _)%bool eqn:Eb; [apply andb_true_iff in Eb as [?%Z.leb_le ?%Z.leb_le]; lia|]. done.
Qed.

(** Every media type of the list of built-in codecs that is spelled out selects
    the codec it is listed for. *)
Definition listed_types (types : bytes) : list bytes := (fun t => drop_blanks t) <$> (fix split fuel s := match fuel with O => [] | S fuel => let (a, r) := break_at (chr ",") s in a :: match r with None => [] | Some r => split fuel r end end) (length types) types.

Example builtin_codecs_listed : forallb (fun c => forallb (fun t =>
    bool_decide (chr "*" ∈ t) || str_eq (ducknng_body_codec_provider_name (ducknng_body_codec_for_media_type t)) (lit c.1.1))%bool (listed_types (lit c.1.2)))
  DUCKNNG_BUILTIN_CODECS = true.
Proof. by vm_compute. Qed.

(** ** Frames *)

(** The columns of a decoded frame are what the scalar functions return. *)
Lemma frame_columns_agree valid_utf8 blob f : ducknng_decode_frame_scalar_value blob = Some f -> 0 <= f_name_len f -> 0 <= f_error_len f -> 0 <= f_payload_len f ->
  let row := ducknng_decode_frame_bind valid_utf8 blob in
  ducknng_frame_version_scalar blob = Some (fr_version row) /\ ducknng_frame_type_scalar blob = Some (fr_type row) /\
  ducknng_frame_status_scalar blob = Some (fr_status row) /\ ducknng_frame_flags_scalar blob = Some (fr_flags row) /\
  ducknng_frame_type_name_scalar blob = fr_type_name row /\ ducknng_frame_name_scalar blob = fr_name row /\
  ducknng_frame_payload_scalar blob = fr_payload row /\ ducknng_frame_payload_text_scalar valid_utf8 blob = fr_payload_text row.
Proof.
  intros Hd Hn He Hp. unfold ducknng_decode_frame_bind, ducknng_body_parse_frame_copy. unfold ducknng_frame_version_scalar, ducknng_frame_type_scalar, ducknng_frame_status_scalar,
    ducknng_frame_flags_scalar, ducknng_frame_type_name_scalar, ducknng_frame_name_scalar, ducknng_frame_payload_scalar, ducknng_frame_payload_text_scalar.
  rewrite Hd. destruct blob as [[|c data]|]; [done| |done]. cbn [ducknng_decode_frame_scalar_value] in Hd. cbn [default id]. destruct (Z.eqb_spec (zlen (c :: data)) 0) as [E|_]; [by rewrite zlen_cons in E; pose proof (zlen_nonneg data); lia|].
  rewrite Hd. cbn [mbind option_bind fmap option_fmap option_map fr_version fr_type fr_status fr_flags fr_type_name fr_name fr_payload fr_payload_text compose]. unfold counted_text, counted_field.
  repeat split; repeat match goal with |- context [?n =? 0] => destruct (Z.eqb_spec n 0), (Z.ltb_spec 0 n); try lia end; cbn; try done; by destruct (ducknng_sql_bytes_look_text _ _).
Qed.

Definition call_parts (method payload : bytes) : ducknng_frame_parts :=
  mk_parts DUCKNNG_RPC_CALL 0 DUCKNNG_RPC_FLAG_PAYLOAD_JSON (Some method) (zlen method) None 0 (Some payload) (zlen payload).

(** A call frame built in SQL names its method and carries its payload. *)
Lemma rpc_call_decoded malloc method payload : (forall n, zlen (malloc n) = n) -> cstr method -> cstr payload ->
  0 < zlen method <= DUCKNNG_MAX_METHOD_NAME_LEN -> 22 + zlen method + zlen payload <= SIZE_MAX -> 0 < zlen payload ->
  exists frame, ducknng_encode_rpc_call_scalar malloc (Some method) (Some payload) = Ok (Some frame) /\
    ducknng_frame_type_scalar (Some frame) = Some DUCKNNG_RPC_CALL /\ ducknng_frame_name_scalar (Some frame) = Some method /\
    ducknng_frame_payload_scalar (Some frame) = Some payload.
Proof.
  intros Hm Hc Hcp Hlen Htot Hp. set (p := call_parts method payload).
  assert (parts_wf p) as Hwf.
  { unfold SIZE_MAX, DUCKNNG_MAX_METHOD_NAME_LEN in *. split; cbn; unfold is_byte, size_ok, SIZE_MAX; lia || done. }
  assert (parts_valid true p) as Hv.
  { split; cbn; try done; try lia. unfold parts_total, DUCKNNG_WIRE_HEADER_LEN. cbn. lia. }
  pose proof (encode_bytes_spec p Hwf (malloc (parts_total p)) (parts_total p) Hv ltac:(rewrite Hm; lia)) as Henc.
  pose proof (decode_image p Hwf [] Hv) as Hdec. rewrite app_nil_r in Hdec. pose proof (image_len p Hwf Hv) as Hil.
  assert (zdrop (parts_total p) (malloc (parts_total p)) = []) as Hz by (unfold zdrop; apply drop_ge; pose proof (Hm (parts_total p)); unfold zlen in *; lia).
  rewrite Hz, app_nil_r in Henc. exists (image_of p).
  assert (ducknng_decode_frame_scalar_value (Some (image_of p)) = Some (frame_of p)) as Hs.
  { unfold ducknng_decode_frame_scalar_value. rewrite <- Hdec, <- Hil. destruct (image_of p) eqn:E; [|done]. unfold parts_total, DUCKNNG_WIRE_HEADER_LEN in Hil. change (p_name_len p) with (zlen method) in Hil. change (p_payload_len p) with (zlen payload) in Hil.
    change (p_error_len p) with 0 in Hil. change (zlen (@nil Z)) with 0 in Hil. lia. }
  assert (slice (Some method) (zlen method) = method) as Esm by (unfold slice; cbn; apply ztake_all). assert (slice (Some payload) (zlen payload) = payload) as Esp by (unfold slice; cbn; apply ztake_all).
  split; [|unfold ducknng_frame_type_scalar, ducknng_frame_name_scalar, ducknng_frame_payload_scalar; rewrite Hs; cbn [frame_of mbind option_bind fmap option_fmap option_map f_type f_name f_name_len f_payload f_payload_len p p_type call_parts p_name p_name_len p_payload p_payload_len]].
  - unfold ducknng_encode_rpc_call_scalar. destruct (_ || _)%bool eqn:E; [apply orb_true_iff in E as [E%Z.eqb_eq|E%Z.ltb_lt]; lia|]. fold (call_parts method payload). fold p.
    unfold ducknng_frame_measure. rewrite (proj2 (validate_spec p true (parts_total p) Hwf)) by done. rewrite Henc. cbn [e_dest e_rc e_written]. by rewrite !Z.eqb_refl.
  - rewrite Esm, Esp. split; [done|]. destruct (Z.eqb_spec (zlen method) 0); [lia|]. destruct (Z.eqb_spec (zlen payload) 0); [lia|]. by rewrite c_text_cstr.
Qed.
