(* ===== verification/WsFrame.v ===== *)
(** The WebSocket endpoint: [src/src/ducknng_ws_frame.c].

    One thread accepts connections and reaps finished ones, each connection has
    a thread that answers its messages, and the stop of the endpoint ends them
    all.  Each critical section under [ep->mu], and each stretch between two of
    them, is one step; program counters say how far the accept thread, the
    threads of the connections and the stop have come.  The list [conns] holds
    every connection that was published, in the order of publication; a freed
    one keeps its entry, so that a second free or a use after free would show.
    What NNG and the platform answer is an argument of the step.  A wait on an
    operation of a closed stream or of a stopped aio ends with an error; a join
    waits for the thread to return.

    The answer to one message, [ws_answer], composes the dispatcher of
    [Dispatch] with the error frames of [Wire]. *)

From stdpp Require Import relations.
From S2P Require Import Prelude Checked Wire Registry Peers Transport Admission Dispatch EventRelay.

(** ** One message *)

Definition ducknng_ws_status_to_code (status : Z) : Z :=
  if status =? 400 then DUCKNNG_STATUS_INVALID else
  if status =? 403 then DUCKNNG_STATUS_UNAUTHORIZED else
  if status =? 503 then DUCKNNG_STATUS_BUSY else DUCKNNG_STATUS_INTERNAL.

Section answer.
Context (alloc : Z -> option bytes).
Context (run_handler : server -> ducknng_method_descriptor -> ducknng_request_context -> server * Z * ducknng_method_reply).
Context (misread : sql_cell -> option bytes) (run_sql : ducknng_authorizer_context -> bytes -> sql_outcome).

(** The reply to a message: [None] drops the connection. *)
Definition ws_answer (svc : server) (msg : bytes) (addr : option nng_sockaddr) (scheme : ducknng_transport_scheme) (path : bytes) (now_ms : Z)
    : server * option bytes :=
  let '(svc, (reply, status, err_text)) := ducknng_service_authorize_and_dispatch_frame alloc run_handler misread run_sql svc (Some msg) (zlen msg)
    None addr scheme (Some (lit "GET")) (Some path) None now_ms in
  match reply with
  | Some reply => (svc, Some reply)
  | None => (svc, ducknng_error_msg alloc None (ducknng_ws_status_to_code status) (Some (default (lit "ducknng: request failed") err_text)))
  end.

End answer.

(** ** The endpoint *)

Module Ws.

Inductive accept_pc :=
| A_check      (* top of the loop *)
| A_reap       (* about to unlink the finished connections *)
| A_free       (* freeing those it unlinked *)
| A_accept     (* waiting for a connection *)
| A_accepted   (* holding an accepted stream *)
| A_publish    (* the stream is in a connection, not yet linked *)
| A_create     (* linked, about to start the thread *)
| A_unlink     (* the thread could not be started *)
| A_mark       (* the thread runs, [thread_started] not yet set *)
| A_done.

Inductive conn_pc :=
| C_none       (* no thread *)
| C_start      (* allocating its aios *)
| C_check      (* top of the loop *)
| C_recv       (* waiting for a message *)
| C_send       (* message dispatched, waiting for the reply to be sent *)
| C_close      (* leaving: aios freed, stream about to be closed *)
| C_finish     (* about to set [finished] *)
| C_return     (* [finished] set, about to return *)
| C_exited.

Inductive stop_pc := S_idle | S_closing | S_join | S_take | S_each | S_wait | S_done.

(** Linked in [ep->conns]; in the reaper's list; in the stop's list; freed. *)
Inductive conn_place := published | dead | collected | freed.

#[export] Instance accept_pc_eq_dec : EqDecision accept_pc.
Proof. solve_decision. Defined.
#[export] Instance conn_pc_eq_dec : EqDecision conn_pc.
Proof. solve_decision. Defined.
#[export] Instance stop_pc_eq_dec : EqDecision stop_pc.
Proof. solve_decision. Defined.
#[export] Instance conn_place_eq_dec : EqDecision conn_place.
Proof. solve_decision. Defined.

Record ws_conn := mk_conn {
  thread_started : bool; finished : bool; closed : bool;
  stream_frees : nat;   (* [nng_stream_free] calls *)
  conn_frees : nat;     (* [duckdb_free] calls *)
  place : conn_place; cpc : conn_pc }.

Record endpoint := mk_endpoint {
  stopping : bool;
  accept_stopped : bool;     (* listener closed and [nng_aio_stop] called *)
  apc : accept_pc; spc : stop_pc; conns : list ws_conn;
  accepted : nat;            (* streams the listener handed out *)
  dropped : nat;             (* streams freed without a connection *)
  ep_frees : nat }.

Definition set_apc (a : accept_pc) (e : endpoint) : endpoint :=
  mk_endpoint (stopping e) (accept_stopped e) a (spc e) (conns e) (accepted e) (dropped e) (ep_frees e).
Definition set_spc (s : stop_pc) (e : endpoint) : endpoint :=
  mk_endpoint (stopping e) (accept_stopped e) (apc e) s (conns e) (accepted e) (dropped e) (ep_frees e).
Definition set_conns (l : list ws_conn) (e : endpoint) : endpoint :=
  mk_endpoint (stopping e) (accept_stopped e) (apc e) (spc e) l (accepted e) (dropped e) (ep_frees e).
Definition set_stream_counts (acc drp : nat) (e : endpoint) : endpoint :=
  mk_endpoint (stopping e) (accept_stopped e) (apc e) (spc e) (conns e) acc drp (ep_frees e).

Definition set_cpc (p : conn_pc) (c : ws_conn) : ws_conn :=
  mk_conn (thread_started c) (finished c) (closed c) (stream_frees c) (conn_frees c) (place c) p.
Definition set_conn_place (p : conn_place) (c : ws_conn) : ws_conn :=
  mk_conn (thread_started c) (finished c) (closed c) (stream_frees c) (conn_frees c) p (cpc c).
Definition set_closed (c : ws_conn) : ws_conn :=
  mk_conn (thread_started c) (finished c) true (stream_frees c) (conn_frees c) (place c) (cpc c).
Definition set_started (c : ws_conn) : ws_conn :=
  mk_conn true (finished c) (closed c) (stream_frees c) (conn_frees c) (place c) (cpc c).

Definition new_conn : ws_conn := mk_conn false false false 0 0 published C_none.

(** ** Freeing connections *)

(** Waits for the thread; then the stream and the connection are freed. *)
Definition ducknng_ws_conn_free (c : ws_conn) : option ws_conn :=
  if (thread_started c && negb (bool_decide (cpc c = C_exited)))%bool then None
  else Some (mk_conn (thread_started c) (finished c) true (S (stream_frees c)) (S (conn_frees c)) freed (cpc c)).

(** The critical section of the reaper. *)
Definition ducknng_ws_reap_finished (l : list ws_conn) : list ws_conn :=
  (fun c => if (bool_decide (place c = published) && finished c)%bool then set_conn_place dead c else c) <$> l.

Definition in_place (p : conn_place) (c : ws_conn) : bool := bool_decide (place c = p).

Fixpoint find_last (l : list ws_conn) (P : ws_conn -> bool) : option nat :=
  match l with
  | [] => None
  | c :: l => match find_last l P with Some k => Some (S k) | None => if P c then Some 0%nat else None end
  end.

(** The head of a list.  [ep->conns] has the newest connection first and the
    stop keeps that order; the reaper turns it round. *)
Definition next_in (p : conn_place) (l : list ws_conn) : option nat :=
  match p with published | collected => find_last l (in_place p) | dead | freed => find_index (in_place p) l end.
Arguments next_in : simpl never.

(** Frees the first connection of a list; [None] when that has to wait. *)
Definition free_first (p : conn_place) (l : list ws_conn) : option (list ws_conn) :=
  match next_in p l with
  | None => Some l
  | Some k => c ← l !! k; c' ← ducknng_ws_conn_free c; Some (<[k := c']> l)
  end.

(** ** The accept thread *)

(** Its connection is the newest one. *)
Definition on_newest (f : ws_conn -> ws_conn) (l : list ws_conn) : list ws_conn := alter f (length l - 1)%nat l.

(** The result of the accept and whether it has a stream, whether the
    connection is allocated, and the result of the thread creation. *)
Record accept_answer := mk_accept_answer { accept_rv : Z; accept_stream : bool; conn_alloc : bool; thread_rv : Z }.

Definition ducknng_ws_accept_thread (ans : accept_answer) (e : endpoint) : option endpoint :=
  match apc e with
  | A_check => Some (set_apc (if stopping e then A_done else A_reap) e)
  | A_reap => Some (set_apc A_free (set_conns (ducknng_ws_reap_finished (conns e)) e))
  | A_free =>
    match next_in dead (conns e) with
    | None => Some (set_apc A_accept e)
    | Some _ => l ← free_first dead (conns e); Some (set_conns l e)
    end
  | A_accept =>
    if (accept_stopped e || negb (accept_rv ans =? 0))%bool then
      if (accept_stopped e && (accept_rv ans =? 0))%bool then None else Some (set_apc A_done e)
    else if negb (accept_stream ans) then Some (set_apc A_check e)
    else Some (set_apc A_accepted (set_stream_counts (S (accepted e)) (dropped e) e))
  | A_accepted =>
    if stopping e then Some (set_apc A_done (set_stream_counts (accepted e) (S (dropped e)) e)) else
    if negb (conn_alloc ans) then Some (set_apc A_check (set_stream_counts (accepted e) (S (dropped e)) e)) else
    Some (set_apc A_publish e)
  | A_publish => Some (set_apc A_create (set_conns (conns e ++ [new_conn]) e))
  | A_create =>
    if negb (thread_rv ans =? 0) then Some (set_apc A_unlink e)
    else Some (set_apc A_mark (set_conns (on_newest (set_cpc C_start) (conns e)) e))
  | A_unlink =>
    Some (set_apc A_check (set_conns (on_newest (fun c =>
      mk_conn (thread_started c) (finished c) true (S (stream_frees c)) (S (conn_frees c)) freed (cpc c)) (conns e)) e))
  | A_mark => Some (set_apc A_check (set_conns (on_newest set_started (conns e)) e))
  | A_done => None
  end.

(** ** The thread of a connection *)

(** Whether its aios are allocated; how the wait for a message ends; and the
    reply: whether there is one and whether it was sent. *)
Record conn_answer := mk_conn_answer { aios_ok : bool; recv_rv : Z; recv_msg : bool; have_reply : bool; send_rv : Z }.

Definition ducknng_ws_conn_thread (ans : conn_answer) (stop : bool) (c : ws_conn) : option ws_conn :=
  match cpc c with
  | C_none | C_exited => None
  | C_start => Some (set_cpc (if aios_ok ans then C_check else C_close) c)
  | C_check => Some (set_cpc (if stop then C_close else C_recv) c)
  | C_recv =>
    if (closed c && (recv_rv ans =? 0))%bool then None else
    if (negb (recv_rv ans =? 0) || negb (recv_msg ans))%bool then Some (set_cpc C_close c)
    else Some (set_cpc (if have_reply ans then C_send else C_close) c)
  | C_send =>
    if (closed c && (send_rv ans =? 0))%bool then None else
    Some (set_cpc (if negb (send_rv ans =? 0) then C_close else C_check) c)
  | C_close => Some (set_cpc C_finish (set_closed c))
  | C_finish => Some (mk_conn (thread_started c) true (closed c) (stream_frees c) (conn_frees c) (place c) C_return)
  | C_return => Some (set_cpc C_exited c)
  end.

(** ** The stop *)

(** The critical section that takes the list. *)
Definition collect_all (l : list ws_conn) : list ws_conn := (fun c => if in_place published c then set_conn_place collected c else c) <$> l.

Definition ducknng_ws_frame_endpoint_stop (e : endpoint) : option endpoint :=
  match spc e with
  | S_idle =>
    Some (mk_endpoint true (accept_stopped e) (apc e) S_closing (conns e) (accepted e) (dropped e) (ep_frees e))
  | S_closing =>
    Some (mk_endpoint (stopping e) true (apc e) S_join (conns e) (accepted e) (dropped e) (ep_frees e))
  | S_join => if bool_decide (apc e = A_done) then Some (set_spc S_take e) else None
  | S_take =>
    Some (set_spc S_each (set_conns (collect_all (conns e)) e))
  | S_each =>
    match next_in collected (conns e) with
    | None => Some (mk_endpoint (stopping e) (accept_stopped e) (apc e) S_done (conns e) (accepted e) (dropped e) (S (ep_frees e)))
    | Some k => Some (set_spc S_wait (set_conns (alter set_closed k (conns e)) e))
    end
  | S_wait => l ← free_first collected (conns e); Some (set_spc S_each (set_conns l e))
  | S_done => None
  end.

(** ** The system *)

Inductive ws_step : endpoint -> endpoint -> Prop :=
| step_accept ans e e' : ducknng_ws_accept_thread ans e = Some e' -> ws_step e e'
| step_conn ans e k c c' : conns e !! k = Some c -> ducknng_ws_conn_thread ans (stopping e) c = Some c' ->
    ws_step e (set_conns (<[k := c']> (conns e)) e)
| step_stop e e' : ducknng_ws_frame_endpoint_stop e = Some e' -> ws_step e e'.

(** After [ducknng_ws_frame_endpoint_start]. *)
Definition started : endpoint := mk_endpoint false false A_check S_idle [] 0 0 0.

Definition ws_reachable (e : endpoint) : Prop := rtc ws_step started e.


(** ** The invariant *)

Definition before_take (s : stop_pc) : Prop := s = S_idle \/ s = S_closing \/ s = S_join \/ s = S_take.

(** A connection, given where the accept thread and the stop are and whether it
    is the newest. *)
Record conn_ok (a : accept_pc) (s : stop_pc) (newest : bool) (c : ws_conn) : Prop := {
  co_finished : finished c = true <-> cpc c = C_return \/ cpc c = C_exited;
  co_frees : stream_frees c = (if bool_decide (place c = freed) then 1 else 0)%nat /\ conn_frees c = (if bool_decide (place c = freed) then 1 else 0)%nat;
  co_published : place c = published -> before_take s /\
    (cpc c = C_none -> newest = true /\ thread_started c = false /\ (a = A_create \/ a = A_unlink)) /\
    (cpc c <> C_none -> thread_started c = true \/ newest = true /\ a = A_mark);
  co_dead : place c = dead -> before_take s /\ a = A_free /\ thread_started c = true /\ (cpc c = C_return \/ cpc c = C_exited);
  co_collected : place c = collected -> ~ before_take s /\ s <> S_done /\ thread_started c = true /\ cpc c <> C_none;
  co_freed : place c = freed -> cpc c = C_exited \/ cpc c = C_none;
  co_mark : newest = true -> (a = A_create \/ a = A_unlink -> place c = published /\ cpc c = C_none) /\ (a = A_mark -> place c = published /\ cpc c <> C_none) }.

Definition newest_at (l : list ws_conn) (k : nat) : bool := bool_decide (S k = length l).

Record ws_inv (e : endpoint) : Prop := {
  wi_conns : forall k c, conns e !! k = Some c -> conn_ok (apc e) (spc e) (newest_at (conns e) k) c;
  wi_newest : apc e = A_create \/ apc e = A_unlink \/ apc e = A_mark -> conns e <> [];
  wi_stop : stopping e = negb (bool_decide (spc e = S_idle)) /\ (accept_stopped e = true <-> spc e <> S_idle /\ spc e <> S_closing);
  wi_taken : spc e <> S_idle -> spc e <> S_closing -> spc e <> S_join -> apc e = A_done;
  wi_wait : spc e = S_wait -> exists k c, next_in collected (conns e) = Some k /\ conns e !! k = Some c /\ closed c = true;
  wi_done : ep_frees e = (if bool_decide (spc e = S_done) then 1 else 0)%nat;
  wi_streams : accepted e = (dropped e + length (conns e) + (if bool_decide (apc e = A_accepted \/ apc e = A_publish) then 1 else 0))%nat }.

Lemma newest_insert l k c j : newest_at (<[k := c]> l) j = newest_at l j.
Proof. unfold newest_at. by rewrite length_insert. Qed.

(** A thread of a connection keeps it in order. *)
Lemma conn_thread_ok ans stop a s n c c' : conn_ok a s n c -> ducknng_ws_conn_thread ans stop c = Some c' ->
  conn_ok a s n c' /\ place c' = place c /\ (closed c = true -> closed c' = true).
Proof.
  intros [H1 H2 H3 H4 H5 H6 H7] H. unfold ducknng_ws_conn_thread in H. destruct (cpc c) eqn:E; try done;
    repeat match type of H with context [if ?b then _ else _] => destruct b end; try done; injection H as <-.
  all: (split; [|split; [done|done]]); constructor; cbn in *; rewrite ?E in *; first [done|intuition congruence].
Qed.

Ltac ok_fields := constructor; cbn in *; first [done|intuition congruence].

(** The accept thread moves while its newest connection is at rest. *)
Definition at_rest (a : accept_pc) : Prop := a <> A_create /\ a <> A_unlink /\ a <> A_mark.

Lemma conn_accept_moves a a' s n c : conn_ok a s n c -> at_rest a -> at_rest a' -> (place c = dead -> a' = A_free) -> conn_ok a' s n c.
Proof. intros [H1 H2 H3 H4 H5 H6 H7] (Ha1 & Ha2 & Ha3) (Hb1 & Hb2 & Hb3) Hd. ok_fields. Qed.

Lemma conn_older a s c : conn_ok a s false c -> a = A_create \/ a = A_unlink \/ a = A_mark -> forall a', a' <> A_free -> conn_ok a' s false c.
Proof. intros [H1 H2 H3 H4 H5 H6 H7] Ha a' Ha'. ok_fields. Qed.

Lemma conn_published s n c : conn_ok A_publish s n c -> conn_ok A_create s false c.
Proof. intros [H1 H2 H3 H4 H5 H6 H7]. ok_fields. Qed.

Lemma conn_stop_moves a s s' n c : conn_ok a s n c -> before_take s -> before_take s' -> conn_ok a s' n c.
Proof. intros [H1 H2 H3 H4 H5 H6 H7] Hs Hs'. ok_fields. Qed.

Lemma conn_taken s n c : conn_ok A_done s n c -> before_take s ->
  conn_ok A_done S_each n (if in_place published c then set_conn_place collected c else c).
Proof.
  intros [H1 H2 H3 H4 H5 H6 H7] Hs. unfold in_place. assert (~ before_take S_each) by (unfold before_take; intuition congruence).
  destruct (bool_decide (place c = published)) eqn:E; btests; [rewrite E in *|]; ok_fields.
Qed.

Lemma conn_taken_moves s s' n c : conn_ok A_done s n c -> ~ before_take s -> ~ before_take s' -> (place c = collected -> s' <> S_done) -> conn_ok A_done s' n c.
Proof. intros [H1 H2 H3 H4 H5 H6 H7] Hs Hs' Hd. ok_fields. Qed.

Lemma conn_reaped s n c : conn_ok A_reap s n c ->
  conn_ok A_free s n (if (bool_decide (place c = published) && finished c)%bool then set_conn_place dead c else c).
Proof.
  intros [H1 H2 H3 H4 H5 H6 H7]. destruct (bool_decide (place c = published)) eqn:E; [destruct (finished c) eqn:Ef|]; btests; cbn [andb]; [rewrite E in *|..]; ok_fields.
Qed.

(** Freeing keeps the order: the thread has returned. *)
Lemma conn_freed a s n c c' : conn_ok a s n c -> place c = dead \/ place c = collected -> ducknng_ws_conn_free c = Some c' -> conn_ok a s n c'.
Proof.
  intros [H1 [H2a H2b] H3 H4 H5 H6 H7] Hp. unfold ducknng_ws_conn_free. assert (thread_started c = true) as Ht by intuition. rewrite Ht. cbn [andb].
  destruct (bool_decide (cpc c = C_exited)) eqn:E; [|done]. btests. intros [= <-]. assert (place c <> freed) by intuition congruence.
  rewrite bool_decide_eq_false_2 in H2a, H2b by done. constructor; cbn; rewrite ?E in *; first [done|(rewrite H2a, H2b; done)|intuition congruence].
Qed.

(** ** Every step keeps the invariant *)

Lemma find_index_insert {A} (P : A -> bool) l k x y : l !! k = Some x -> P y = P x -> find_index P (<[k := y]> l) = find_index P l.
Proof.
  revert k. induction l as [|z l IH]; intros [|k] H E; simplify_eq/=; [by rewrite E|]. by rewrite (IH k).
Qed.

Lemma find_last_Some P l k : find_last l P = Some k -> exists c, l !! k = Some c /\ P c = true.
Proof.
  revert k. induction l as [|z l IH]; intros k H; cbn in H; [done|]. destruct (find_last l P) as [j|]; [injection H as <-; by apply IH|].
  destruct (P z) eqn:E; [|done]. injection H as <-. by exists z.
Qed.

Lemma find_last_None P l : find_last l P = None <-> Forall (fun c => P c = false) l.
Proof.
  induction l as [|z l IH]; cbn; [by split; [constructor|]|]. rewrite Forall_cons, <- IH. destruct (find_last l P), (P z); intuition congruence.
Qed.

Lemma find_last_insert P l k x y : l !! k = Some x -> P y = P x -> find_last (<[k := y]> l) P = find_last l P.
Proof. revert k. induction l as [|z l IH]; intros [|k] H E; simplify_eq/=; [by rewrite E|]. by rewrite (IH k). Qed.

Lemma next_in_Some p l k : next_in p l = Some k -> exists c, l !! k = Some c /\ in_place p c = true.
Proof. destruct p; first [apply find_last_Some|apply find_index_Some]. Qed.

Lemma next_in_None p l : next_in p l = None <-> Forall (fun c => in_place p c = false) l.
Proof. destruct p; first [apply find_last_None|apply find_index_None]. Qed.

Lemma next_in_insert p l k x y : l !! k = Some x -> in_place p y = in_place p x -> next_in p (<[k := y]> l) = next_in p l.
Proof. destruct p; first [apply find_last_insert|apply find_index_insert]. Qed.

Lemma on_newest_lookup f l k c : on_newest f l !! k = Some c -> exists c0, l !! k = Some c0 /\ c = (if newest_at l k then f c0 else c0) /\ newest_at (on_newest f l) k = newest_at l k.
Proof.
  unfold on_newest, newest_at. rewrite length_alter. intros H. destruct (decide (k = length l - 1)%nat) as [->|Hne].
  - rewrite list_lookup_alter_eq in H. destruct (l !! (length l - 1)%nat) as [c0|] eqn:E; [|done]. injection H as <-. exists c0. split; [done|].
    apply lookup_lt_Some in E. by rewrite bool_decide_eq_true_2 by lia.
  - rewrite list_lookup_alter_ne in H by done. exists c. split; [done|]. apply lookup_lt_Some in H. by rewrite bool_decide_eq_false_2 by lia.
Qed.

Lemma newest_exists l : l <> [] -> exists c, l !! (length l - 1)%nat = Some c /\ newest_at l (length l - 1) = true.
Proof.
  intros H. destruct (lookup_lt_is_Some_2 l (length l - 1)) as [c Hc]; [destruct l; [done|cbn; lia]|]. exists c. split; [done|].
  apply bool_decide_eq_true. apply lookup_lt_Some in Hc. lia.
Qed.

Lemma conn_step_inv ans e k c c' : ws_inv e -> conns e !! k = Some c -> ducknng_ws_conn_thread ans (stopping e) c = Some c' -> ws_inv (set_conns (<[k := c']> (conns e)) e).
Proof.
  intros [H1 H2 H3 H4 H5 H6 H7] Hk Hs. destruct (conn_thread_ok _ _ _ _ _ _ _ (H1 k c Hk) Hs) as (Hok & Hp & Hcl). pose proof (lookup_lt_Some _ _ _ Hk) as Hlt.
  constructor; cbn.
  - intros j d. rewrite newest_insert. destruct (decide (j = k)) as [->|Hne]; [rewrite list_lookup_insert_eq by done; by intros [= <-]|]. rewrite list_lookup_insert_ne by done. apply H1.
  - intros Ha. specialize (H2 Ha). destruct (conns e); [done|]. by destruct k.
  - done.
  - done.
  - intros Hw. destruct (H5 Hw) as (j & d & Hf & Hd & Hc). rewrite (next_in_insert _ _ _ c) by (unfold in_place; by rewrite ?Hp). destruct (decide (j = k)) as [->|Hne].
    + assert (d = c) as -> by congruence. exists k, c'. rewrite list_lookup_insert_eq by done. auto.
    + exists j, d. rewrite list_lookup_insert_ne by done. auto.
  - done.
  - by rewrite length_insert.
Qed.

(** Steps of the accept thread that leave the connections alone. *)
Lemma accept_rest_inv e a acc drp : ws_inv e -> before_take (spc e) -> spc e <> S_take -> at_rest (apc e) -> at_rest a ->
  (apc e = A_free -> next_in dead (conns e) = None) -> a <> A_free ->
  acc = (drp + length (conns e) + (if bool_decide (a = A_accepted \/ a = A_publish) then 1 else 0))%nat ->
  ws_inv (set_apc a (set_stream_counts acc drp e)).
Proof.
  intros [H1 H2 H3 H4 H5 H6 H7] Hs Ht Hr Hr' Hd Hf Hacc. constructor; cbn; try done.
  - intros k c Hk. apply (conn_accept_moves (apc e)); [by apply H1|done|done|]. intros Hdead. exfalso. destruct (co_dead _ _ _ _ (H1 k c Hk) Hdead) as (_ & Ha & _).
    specialize (Hd Ha). apply next_in_None in Hd. rewrite Forall_forall in Hd. specialize (Hd c ltac:(by eapply list_elem_of_lookup_2)). unfold in_place in Hd. by btests.
  - intros [->|[->| ->]]; by destruct Hr' as (? & ? & ?).
  - intros Hi Hc Hj. exfalso. unfold before_take in Hs. intuition congruence.
Qed.

Lemma set_streams_id e : set_stream_counts (accepted e) (dropped e) e = e.
Proof. by destruct e. Qed.

Lemma accept_before e : ws_inv e -> apc e <> A_done -> before_take (spc e) /\ spc e <> S_take.
Proof. intros [_ _ _ H4 _ _ _] Ha. unfold before_take. destruct (spc e) eqn:E; intuition congruence. Qed.

(** Steps that rewrite the newest connection. *)
Lemma accept_newest_inv e a f : ws_inv e -> before_take (spc e) -> spc e <> S_take -> apc e = A_create \/ apc e = A_unlink \/ apc e = A_mark -> a <> A_free ->
  a <> A_accepted -> a <> A_publish -> (a = A_create \/ a = A_unlink \/ a = A_mark -> conns e <> []) ->
  (forall c, conn_ok (apc e) (spc e) true c -> conn_ok a (spc e) true (f c)) -> ws_inv (set_apc a (set_conns (on_newest f (conns e)) e)).
Proof.
  intros [H1 H2 H3 H4 H5 H6 H7] Hs Ht Ha Hfree Hacc Hpub Hne Hf. constructor; cbn; try done.
  - intros k c Hk. apply on_newest_lookup in Hk as (c0 & Hk & -> & ->). pose proof (H1 k c0 Hk) as Hok. destruct (newest_at (conns e) k); [by apply Hf|]. by eapply conn_older.
  - intros Hx. specialize (Hne Hx). unfold on_newest. intros E. apply (f_equal length) in E. rewrite length_alter in E. by destruct (conns e).
  - intros Hi Hc Hj. exfalso. unfold before_take in Hs. intuition congruence.
  - intros Hw. exfalso. unfold before_take in Hs. intuition congruence.
  - unfold on_newest. rewrite length_alter, H7. rewrite !bool_decide_eq_false_2; [done|intuition congruence|intuition congruence].
Qed.

(** Freeing the first connection of a list. *)
Lemma free_first_inv e p l : ws_inv e -> p = dead \/ p = collected -> free_first p (conns e) = Some l ->
  (forall k c, l !! k = Some c -> conn_ok (apc e) (spc e) (newest_at l k) c) /\ length l = length (conns e).
Proof.
  intros [H1 _ _ _ _ _ _] Hp. unfold free_first. destruct (next_in p (conns e)) as [i|] eqn:Ei.
  - apply next_in_Some in Ei as (c & Hc & Hpc). rewrite Hc. cbn. destruct (ducknng_ws_conn_free c) as [c'|] eqn:Ef; [|done]. cbn. intros [= <-].
    unfold in_place in Hpc. apply bool_decide_eq_true in Hpc. split; [|by rewrite length_insert]. intros k d. rewrite newest_insert. destruct (decide (k = i)) as [->|Hne].
    + rewrite list_lookup_insert_eq by (by eapply lookup_lt_Some). intros [= <-]. eapply conn_freed; [by apply H1| |done]. rewrite Hpc. done.
    + rewrite list_lookup_insert_ne by done. apply H1.
  - intros [= <-]. split; [|done]. apply H1.
Qed.

Lemma accept_plain_inv e a : ws_inv e -> before_take (spc e) -> spc e <> S_take -> at_rest (apc e) -> at_rest a ->
  (apc e = A_free -> next_in dead (conns e) = None) -> a <> A_free ->
  ~ (apc e = A_accepted \/ apc e = A_publish) -> ~ (a = A_accepted \/ a = A_publish) -> ws_inv (set_apc a e).
Proof.
  intros Hi Hs Ht Hr Hr' Hd Hf Hp Hp'. pose proof (accept_rest_inv e a (accepted e) (dropped e) Hi Hs Ht Hr Hr' Hd Hf) as H. rewrite set_streams_id in H. apply H.
  pose proof (wi_streams e Hi) as Hst. by rewrite bool_decide_eq_false_2 in Hst |- *.
Qed.

Lemma accept_step_inv ans e e' : ws_inv e -> ducknng_ws_accept_thread ans e = Some e' -> ws_inv e'.
Proof.
  intros Hi H. pose proof (wi_streams e Hi) as Hst. destruct (decide (apc e = A_done)) as [Ed|Ed]; [unfold ducknng_ws_accept_thread in H; by rewrite Ed in H|].
  destruct (accept_before e Hi Ed) as [Hs Ht]. unfold ducknng_ws_accept_thread in H. destruct (apc e) eqn:Ea; try done.
  - injection H as <-. apply accept_plain_inv; rewrite ?Ea; try done; try (by destruct (stopping e)); [intuition congruence|destruct (stopping e); intuition congruence].
  - injection H as <-. destruct Hi as [H1 H2 H3 H4 H5 H6 H7]. constructor; cbn; try done.
    + intros k c Hk. unfold ducknng_ws_reap_finished in Hk. rewrite list_lookup_fmap in Hk. destruct (conns e !! k) as [c0|] eqn:E; [|done]. injection Hk as <-.
      unfold newest_at, ducknng_ws_reap_finished. rewrite length_fmap. apply conn_reaped. rewrite <- Ea. by apply H1.
    + intros [|[|]]; congruence.
    + intros. exfalso. unfold before_take in Hs. intuition congruence.
    + intros. exfalso. unfold before_take in Hs. intuition congruence.
    + unfold ducknng_ws_reap_finished. rewrite length_fmap, H7. rewrite !bool_decide_eq_false_2; [done|intuition congruence|intuition congruence].
  - destruct (next_in dead (conns e)) eqn:Ef.
    + destruct (free_first dead (conns e)) as [l|] eqn:El; [|done]. cbn in H. injection H as <-. destruct (free_first_inv e dead l Hi (or_introl eq_refl) El) as [Hl Hlen].
      destruct Hi as [H1 H2 H3 H4 H5 H6 H7]. constructor; cbn; try done; [rewrite Ea; intuition congruence|intros; exfalso; unfold before_take in Hs; intuition congruence|by rewrite Hlen].
    + injection H as <-. apply accept_plain_inv; rewrite ?Ea; try done; intuition congruence.
  - rewrite bool_decide_eq_false_2, Nat.add_0_r in Hst by (intuition congruence).
    repeat match type of H with (if ?b then _ else _) = _ => destruct b end; try done; injection H as <-;
      try (apply accept_plain_inv; rewrite ?Ea; try done; intuition congruence).
    apply accept_rest_inv; rewrite ?Ea; try done. rewrite bool_decide_eq_true_2 by auto. lia.
  - rewrite bool_decide_eq_true_2 in Hst by auto. repeat match type of H with (if ?b then _ else _) = _ => destruct b end; try done; injection H as <-.
    3: pose proof (accept_rest_inv e A_publish (accepted e) (dropped e)) as Hp; rewrite set_streams_id in Hp; apply Hp.
    all: try (apply accept_rest_inv); rewrite ?Ea; try done; rewrite Hst; first [rewrite bool_decide_eq_false_2 by (intuition congruence); lia|rewrite bool_decide_eq_true_2 by auto; lia].
  - injection H as <-. destruct Hi as [H1 H2 H3 H4 H5 H6 H7]. constructor; cbn; try done.
    + intros k c Hk. unfold newest_at. rewrite length_app. cbn [length]. destruct (decide (k < length (conns e))%nat) as [Hlt|Hge].
      * rewrite lookup_app_l in Hk by done. rewrite bool_decide_eq_false_2 by lia. apply (conn_published _ (newest_at (conns e) k)). rewrite <- Ea. by apply H1.
      * rewrite lookup_app_r in Hk by lia. destruct (k - length (conns e))%nat eqn:Ek; [|done]. injection Hk as <-. rewrite bool_decide_eq_true_2 by lia. constructor; cbn; intuition congruence.
    + intros _ E. by apply app_eq_nil in E as [_ ?].
    + intros. exfalso. unfold before_take in Hs. intuition congruence.
    + intros. exfalso. unfold before_take in Hs. intuition congruence.
    + rewrite length_app. cbn [length]. rewrite H7, Ea. rewrite bool_decide_eq_true_2, bool_decide_eq_false_2; [lia|intuition congruence|by right].
  - pose proof (wi_newest e Hi ltac:(auto)) as Hne. destruct (negb (thread_rv ans =? 0)); injection H as <-.
    + assert (set_apc A_unlink e = set_apc A_unlink (set_conns (on_newest id (conns e)) e)) as ->.
      { unfold on_newest. rewrite list_alter_id by done. by destruct e. }
      apply accept_newest_inv; try done; try (rewrite Ea; auto); try (intuition congruence). intros c [Q1 Q2 Q3 Q4 Q5 Q6 Q7]. ok_fields.
    + apply accept_newest_inv; try done; try (rewrite Ea; auto); try (intuition congruence). intros c [Q1 Q2 Q3 Q4 Q5 Q6 Q7]. destruct (proj1 (Q7 eq_refl)) as [Hp Hn]; [by left|]. rewrite Hp, Hn in *. constructor; cbn; rewrite ?Hp in *; first [done|intuition congruence].
  - injection H as <-. apply accept_newest_inv; try done; try (rewrite Ea; auto); try (intuition congruence). intros c [Q1 [Q2a Q2b] Q3 Q4 Q5 Q6 Q7]. destruct (proj1 (Q7 eq_refl)) as [Hp Hn]; [by right|].
    rewrite Hp in *. cbn in Q2a, Q2b. constructor; cbn; rewrite ?Hn, ?Q2a, ?Q2b in *; first [done|intuition congruence].
  - injection H as <-. apply accept_newest_inv; try done; try (rewrite Ea; auto); try (intuition congruence). intros c [Q1 Q2 Q3 Q4 Q5 Q6 Q7]. destruct (proj2 (Q7 eq_refl)) as [Hp Hn]; [done|].
    constructor; cbn; rewrite ?Hp in *; first [done|intuition congruence].
Qed.

Lemma after_take s : ~ before_take s <-> s = S_each \/ s = S_wait \/ s = S_done.
Proof. unfold before_take. destruct s; intuition congruence. Qed.

Lemma alter_at {A} (f : A -> A) i (l : list A) x : l !! i = Some x -> alter f i l = <[i := f x]> l.
Proof. revert i. induction l as [|y l IH]; intros [|i] H; simplify_eq/=; [done|]. f_equal. by apply IH. Qed.

Lemma stop_early_inv e s b acc : ws_inv e -> before_take (spc e) -> before_take s -> b = negb (bool_decide (s = S_idle)) ->
  (acc = true <-> s <> S_idle /\ s <> S_closing) -> (s = S_take -> apc e = A_done) ->
  ws_inv (mk_endpoint b acc (apc e) s (conns e) (accepted e) (dropped e) (ep_frees e)).
Proof.
  intros [H1 H2 H3 H4 H5 H6 H7] Hs Hs' Hb Hacc Ht. constructor; cbn; try done.
  - intros k c Hk. eapply conn_stop_moves; [by apply H1|done|done].
  - intros Hi Hc Hj. apply Ht. unfold before_take in Hs'. intuition congruence.
  - intros ->. unfold before_take in Hs'. intuition congruence.
  - rewrite H6. rewrite !bool_decide_eq_false_2; [done|intros ->; unfold before_take in Hs'; intuition congruence|intros E; rewrite E in Hs; unfold before_take in Hs; intuition congruence].
Qed.

Lemma stop_late_inv e l s : ws_inv e -> ~ before_take (spc e) -> s = S_each \/ s = S_wait ->
  (forall k c, l !! k = Some c -> conn_ok A_done s (newest_at l k) c) -> length l = length (conns e) ->
  (s = S_wait -> exists k c, next_in collected l = Some k /\ l !! k = Some c /\ closed c = true) -> spc e <> S_done ->
  ws_inv (set_spc s (set_conns l e)).
Proof.
  intros [H1 H2 H3 H4 H5 H6 H7] Hs Hs' Hl Hlen Hw Hd. apply after_take in Hs. assert (apc e = A_done) as Ea by (apply H4; intuition congruence). constructor; cbn; try done.
  - by rewrite Ea.
  - rewrite Ea. intuition congruence.
  - destruct H3 as [-> H3]. rewrite !bool_decide_eq_false_2 by (intuition congruence). split; [done|]. rewrite H3. intuition congruence.
  - rewrite H6. rewrite !bool_decide_eq_false_2; [done|intuition congruence|intuition congruence].
  - by rewrite Hlen.
Qed.

Lemma stop_step_inv e e' : ws_inv e -> ducknng_ws_frame_endpoint_stop e = Some e' -> ws_inv e'.
Proof.
  intros Hi H. pose proof Hi as [H1 H2 H3 H4 H5 H6 H7]. unfold ducknng_ws_frame_endpoint_stop in H. destruct (spc e) eqn:Es; try done.
  - injection H as <-. apply stop_early_inv; rewrite ?Es; unfold before_take; auto; intuition congruence.
  - injection H as <-. apply stop_early_inv; rewrite ?Es; unfold before_take; auto; destruct H3 as [Hsb Hsa]; first [by rewrite Hsb|intuition congruence].
  - destruct (bool_decide (apc e = A_done)) eqn:Ea; [|done]. btests. injection H as <-. apply stop_early_inv; rewrite ?Es; unfold before_take; auto; destruct H3 as [Hsb Hsa]; first [by rewrite Hsb|rewrite Hsa; intuition congruence].
  - injection H as <-. assert (apc e = A_done) as Ea by (apply H4; done). constructor; cbn; try done.
    + intros k c. unfold newest_at, collect_all. rewrite length_fmap, list_lookup_fmap. destruct (conns e !! k) as [c0|] eqn:Ec; [|done]. intros [= <-]. rewrite Ea. apply (conn_taken S_take); [|unfold before_take; auto]. rewrite <- Ea. by apply H1.
    + rewrite Ea. intuition congruence.
    + destruct H3 as [Hsb Hsa]. split; [by rewrite Hsb|]. rewrite Hsa. intuition congruence.
    + unfold collect_all. by rewrite length_fmap.
  - assert (apc e = A_done) as Ea by (apply H4; done). assert (~ before_take S_each) as Hb by (apply after_take; auto). destruct (next_in collected (conns e)) as [i|] eqn:Ei; injection H as <-.
    + assert (exists c, conns e !! i = Some c /\ place c = collected) as (c & Hc & Hp).
      { apply next_in_Some in Ei as (c & Hc & Hp). exists c. split; [done|]. unfold in_place in Hp. by btests. }
      assert (alter set_closed i (conns e) = <[i := set_closed c]> (conns e)) as Ealt by (by apply alter_at).
      apply stop_late_inv; rewrite ?Es; auto.
      * intros k d Hk. unfold newest_at. rewrite length_alter. destruct (decide (k = i)) as [->|Hne].
        -- rewrite list_lookup_alter_eq, Hc in Hk. injection Hk as <-. destruct (H1 i c Hc) as [Q1 Q2 Q3 Q4 Q5 Q6 Q7]. rewrite Ea in *. unfold newest_at in *. assert (~ before_take S_wait) by (apply after_take; auto). ok_fields.
        -- rewrite list_lookup_alter_ne in Hk by done. apply (conn_taken_moves S_each); [rewrite <- Ea; by apply H1|done|apply after_take; auto|done].
      * by rewrite length_alter.
      * intros _. exists i, (set_closed c). rewrite list_lookup_alter_eq, Hc. split; [|done]. rewrite Ealt, (next_in_insert _ _ _ c); done.
    + constructor; cbn; try done.
      * intros k c Hk. rewrite Ea. apply (conn_taken_moves S_each); [rewrite <- Ea; by apply H1|done|apply after_take; auto|]. intros Hp. exfalso.
        apply next_in_None in Ei. rewrite Forall_forall in Ei. specialize (Ei c ltac:(by eapply list_elem_of_lookup_2)). unfold in_place in Ei. by btests.
      * destruct H3 as [Hsb Hsa]. split; [by rewrite Hsb|]. rewrite Hsa. intuition congruence.
      * by rewrite H6.
  - assert (apc e = A_done) as Ea by (apply H4; done). destruct (free_first collected (conns e)) as [l|] eqn:El; [|done]. cbn in H. injection H as <-.
    destruct (free_first_inv e collected l Hi (or_intror eq_refl) El) as [Hl Hlen]. apply stop_late_inv; rewrite ?Es; auto; try done; [apply after_take; auto|].
    intros k c Hk. specialize (Hl k c Hk). rewrite Ea, Es in Hl. apply (conn_taken_moves S_wait); [done|apply after_take; auto..|done].
Qed.

Lemma ws_reachable_inv e : ws_reachable e -> ws_inv e.
Proof.
  unfold ws_reachable. assert (ws_inv started) as H0.
  { constructor; cbn; try done; try (intuition congruence). }
  revert H0. generalize started. intros s0 H0 Hrtc. induction Hrtc as [|s1 s2 s3 Hs _ IH]; [done|]. apply IH. clear IH. destruct Hs as [ans e1 e2 H|ans e1 k c c' Hk H|e1 e2 H].
  - by eapply accept_step_inv.
  - by eapply conn_step_inv.
  - by eapply stop_step_inv.
Qed.

(** ** Stopping ends *)

Definition pc_measure (p : conn_pc) : nat :=
  match p with
  | C_none => 9 | C_start => 8 | C_recv => 7 | C_send => 6 | C_check => 5 | C_close => 4 | C_finish => 3 | C_return => 2 | C_exited => 0
  end.
Definition place_measure (p : conn_place) : nat := match p with published => 4 | collected => 3 | dead => 2 | freed => 0 end.
Definition conn_measure (c : ws_conn) : nat := pc_measure (cpc c) + place_measure (place c).

Definition accept_measure (a : accept_pc) : nat :=
  match a with
  | A_reap => 21 | A_free => 20 | A_accept => 19 | A_accepted => 18 | A_publish => 17 | A_create => 3 | A_unlink => 2 | A_mark => 2
  | A_check => 1 | A_done => 0
  end.
Definition stop_measure (s : stop_pc) : nat :=
  match s with S_idle => 10 | S_closing => 9 | S_join => 8 | S_take => 7 | S_each => 2 | S_wait => 1 | S_done => 0 end.

(** What is left to do for an endpoint that is stopping. *)
Definition ws_measure (e : endpoint) : nat := accept_measure (apc e) + stop_measure (spc e) + sum_list_with conn_measure (conns e).

Lemma sum_newest f l : l <> [] -> exists c, l !! (length l - 1)%nat = Some c /\
  (sum_list_with conn_measure (on_newest f l) + conn_measure c = sum_list_with conn_measure l + conn_measure (f c))%nat.
Proof.
  intros H. destruct (newest_exists l H) as (c & Hc & _). exists c. split; [done|]. unfold on_newest. rewrite (alter_at f _ l c Hc). by apply sum_insert.
Qed.

Lemma free_first_measure p l l' : p = dead \/ p = collected -> is_Some (next_in p l) -> free_first p l = Some l' ->
  (sum_list_with conn_measure l' + 2 <= sum_list_with conn_measure l)%nat.
Proof.
  intros Hp [i Hi]. unfold free_first. rewrite Hi. apply next_in_Some in Hi as (c & Hc & Hpc). rewrite Hc. cbn. unfold in_place in Hpc. apply bool_decide_eq_true in Hpc.
  unfold ducknng_ws_conn_free. destruct (_ && _)%bool; [done|]. cbn. intros [= <-]. set (c' := mk_conn _ _ _ _ _ _ _).
  pose proof (sum_insert conn_measure l i c c' Hc). unfold conn_measure in H at 2 4. cbn in H. rewrite Hpc in H. destruct Hp as [->| ->]; cbn in H; lia.
Qed.

Lemma conn_thread_measure ans c c' : ducknng_ws_conn_thread ans true c = Some c' -> (conn_measure c' < conn_measure c)%nat.
Proof.
  unfold ducknng_ws_conn_thread, conn_measure. intros H. destruct (cpc c) eqn:E; try done;
    repeat match type of H with context [if ?b then _ else _] => destruct b end; try done; injection H as <-; cbn; lia.
Qed.

Lemma accept_thread_measure ans e e' : ws_inv e -> stopping e = true -> ducknng_ws_accept_thread ans e = Some e' ->
  stopping e' = true /\ (ws_measure e' < ws_measure e)%nat.
Proof.
  intros Hi Hs H. unfold ws_measure. unfold ducknng_ws_accept_thread in H. destruct (apc e) eqn:Ea; try done.
  - rewrite Hs in H. injection H as <-. cbn. split; [done|lia].
  - injection H as <-. cbn. split; [done|]. pose proof (sum_fmap_le conn_measure (fun c => if (bool_decide (place c = published) && finished c)%bool then set_conn_place dead c else c) (conns e)) as Hm.
    destruct Hm as [Hm _]; [|unfold ducknng_ws_reap_finished; lia]. intros c. destruct (_ && _)%bool eqn:E; [|lia]. apply andb_true_iff in E as [E _]. btests. unfold conn_measure. cbn. rewrite E. cbn. lia.
  - destruct (next_in dead (conns e)) eqn:Ef.
    + destruct (free_first dead (conns e)) as [l|] eqn:El; [|done]. cbn in H. injection H as <-. cbn. rewrite Ea. split; [done|].
      pose proof (free_first_measure dead (conns e) l (or_introl eq_refl) ltac:(rewrite Ef; by eexists) El). cbn. lia.
    + injection H as <-. cbn. split; [done|lia].
  - repeat match type of H with (if ?b then _ else _) = _ => destruct b end; try done; injection H as <-; cbn; split; try done; lia.
  - rewrite Hs in H. injection H as <-. cbn. split; [done|lia].
  - injection H as <-. cbn. split; [done|]. rewrite sum_list_with_app. cbn. lia.
  - pose proof (wi_newest e Hi ltac:(auto)) as Hne. destruct (negb (thread_rv ans =? 0)); injection H as <-; cbn; (split; [done|]); [lia|].
    destruct (sum_newest (set_cpc C_start) (conns e) Hne) as (c & Hc & Hm). destruct (newest_exists _ Hne) as (c2 & Hc2 & Hn). assert (c2 = c) as -> by congruence.
    destruct (co_mark _ _ _ _ (wi_conns e Hi _ _ Hc)) as [Hm1 _]; [done|]. destruct Hm1 as [_ Hcn]; [by left|]. unfold conn_measure in Hm at 2 4. cbn in Hm. rewrite Hcn in Hm. cbn in Hm. lia.
  - pose proof (wi_newest e Hi ltac:(auto)) as Hne. injection H as <-. cbn. split; [done|]. set (f := fun c => _). destruct (sum_newest f (conns e) Hne) as (c & Hc & Hm).
    unfold conn_measure in Hm at 2 4. cbn in Hm. lia.
  - pose proof (wi_newest e Hi ltac:(auto)) as Hne. injection H as <-. cbn. split; [done|]. destruct (sum_newest set_started (conns e) Hne) as (c & Hc & Hm).
    unfold conn_measure in Hm at 2 4. cbn in Hm. lia.
Qed.

Lemma stop_measure_step e e' : ws_inv e -> stopping e = true -> ducknng_ws_frame_endpoint_stop e = Some e' ->
  stopping e' = true /\ (ws_measure e' < ws_measure e)%nat.
Proof.
  intros Hi Hs H. pose proof (wi_stop e Hi) as [Hst _]. unfold ws_measure. unfold ducknng_ws_frame_endpoint_stop in H. destruct (spc e) eqn:Es; try done.
  - by rewrite Hs in Hst.
  - injection H as <-. cbn. split; [done|lia].
  - destruct (bool_decide _); [|done]. injection H as <-. cbn. split; [done|lia].
  - injection H as <-. cbn. split; [done|]. pose proof (sum_fmap_le conn_measure (fun c => if in_place published c then set_conn_place collected c else c) (conns e)) as Hm.
    destruct Hm as [Hm _]; [|unfold collect_all; lia]. intros c. unfold in_place. destruct (bool_decide (place c = published)) eqn:E; [|lia]. btests. unfold conn_measure. cbn. rewrite E. cbn. lia.
  - destruct (next_in collected (conns e)) as [i|] eqn:Ei; injection H as <-; cbn; (split; [done|]); [|lia].
    apply next_in_Some in Ei as (c & Hc & _). rewrite (alter_at _ _ _ c Hc). pose proof (sum_insert conn_measure (conns e) i c (set_closed c) Hc) as Hm. change (conn_measure (set_closed c)) with (conn_measure c) in Hm. lia.
  - destruct (free_first collected (conns e)) as [l|] eqn:El; [|done]. cbn in H. injection H as <-. cbn. split; [done|]. destruct (wi_wait e Hi Es) as (k & c & Hk & _).
    pose proof (free_first_measure collected (conns e) l (or_intror eq_refl) ltac:(rewrite Hk; by eexists) El). lia.
Qed.

Lemma ws_step_measure e e' : ws_inv e -> stopping e = true -> ws_step e e' -> stopping e' = true /\ (ws_measure e' < ws_measure e)%nat.
Proof.
  intros Hi Hs Hstep. destruct Hstep as [ans e1 e2 H|ans e1 k c c' Hk H|e1 e2 H]; [by eapply accept_thread_measure| |by apply stop_measure_step].
  rewrite Hs in H. cbn. split; [done|]. unfold ws_measure. cbn. pose proof (conn_thread_measure _ _ _ H). pose proof (sum_insert conn_measure (conns e1) k c c' Hk). lia.
Qed.

(** Steps that need no peer: no wait for a connection or on a stream ends by
    itself unless the aio was stopped or the stream closed. *)
Inductive own_step : endpoint -> endpoint -> Prop :=
| own_accept ans e e' : (apc e = A_accept -> accept_stopped e = true) -> ducknng_ws_accept_thread ans e = Some e' -> own_step e e'
| own_conn ans e k c c' : conns e !! k = Some c -> (cpc c = C_recv \/ cpc c = C_send -> closed c = true) ->
    ducknng_ws_conn_thread ans (stopping e) c = Some c' -> own_step e (set_conns (<[k := c']> (conns e)) e)
| own_stop e e' : ducknng_ws_frame_endpoint_stop e = Some e' -> own_step e e'.

Lemma own_is_step e e' : own_step e e' -> ws_step e e'.
Proof. intros []; [by eapply step_accept|by eapply step_conn|by apply step_stop]. Qed.

(** Every wait fails, everything else works. *)
Definition failing_accept : accept_answer := mk_accept_answer 1 false true 0.
Definition failing_conn : conn_answer := mk_conn_answer true 1 false false 1.

Lemma conn_thread_moves stop c : cpc c <> C_none -> cpc c <> C_exited -> is_Some (ducknng_ws_conn_thread failing_conn stop c).
Proof. intros H1 H2. unfold ducknng_ws_conn_thread. destruct (cpc c); try done; cbn; rewrite ?andb_false_r; by eexists. Qed.

(** A connection whose thread is at rest or closed does not keep a free
    waiting. *)
Lemma free_moves e p k c : next_in p (conns e) = Some k -> conns e !! k = Some c -> cpc c <> C_none ->
  (cpc c = C_recv \/ cpc c = C_send -> closed c = true) -> is_Some (free_first p (conns e)) \/ exists e', own_step e e'.
Proof.
  intros Hk Hc Hn Hcl. destruct (decide (cpc c = C_exited)) as [E|E].
  - left. unfold free_first. rewrite Hk, Hc. cbn. unfold ducknng_ws_conn_free. rewrite bool_decide_eq_true_2 by done. rewrite andb_false_r. cbn. by eexists.
  - right. destruct (conn_thread_moves (stopping e) c Hn E) as [c' H]. eexists. by eapply own_conn.
Qed.

Lemma ws_stopping_progress e : ws_inv e -> stopping e = true -> spc e <> S_done -> exists e', own_step e e'.
Proof.
  intros Hi Hs Hd. pose proof (wi_stop e Hi) as [Hst Hacc]. destruct (ducknng_ws_frame_endpoint_stop e) as [e'|] eqn:Estop; [exists e'; by apply own_stop|].
  unfold ducknng_ws_frame_endpoint_stop in Estop. destruct (spc e) eqn:Es; try done.
  - destruct (bool_decide (apc e = A_done)) eqn:Ea; [done|]. btests. assert (accept_stopped e = true) as Has by (apply Hacc; done).
    destruct (ducknng_ws_accept_thread failing_accept e) as [e'|] eqn:Eacc; [exists e'; by eapply own_accept|]. unfold ducknng_ws_accept_thread in Eacc. destruct (apc e) eqn:Ea'; try done.
    + destruct (next_in dead (conns e)) as [k|] eqn:Ek; [|done]. destruct (next_in_Some _ _ _ Ek) as (c & Hc & Hp). unfold in_place in Hp. btests.
      destruct (co_dead _ _ _ _ (wi_conns e Hi k c Hc) Hp) as (_ & _ & _ & Hpc). destruct (free_moves e dead k c Ek Hc) as [[l Hl]|Hm]; [intuition congruence|intuition congruence| |done].
      by rewrite Hl in Eacc.
    + rewrite Has in Eacc. done.
    + rewrite Hs in Eacc. done.
  - by destruct (next_in collected (conns e)).
  - destruct (wi_wait e Hi Es) as (k & c & Hk & Hc & Hcl). destruct (next_in_Some _ _ _ Hk) as (c0 & Hc0 & Hp). assert (c0 = c) as -> by congruence. unfold in_place in Hp. btests.
    destruct (co_collected _ _ _ _ (wi_conns e Hi k c Hc) Hp) as (_ & _ & _ & Hn). destruct (free_moves e collected k c Hk Hc Hn) as [[l Hl]|Hm]; [done| |done]. by rewrite Hl in Estop.
Qed.

(** A thread of the connection is running. *)
Definition running (c : ws_conn) : Prop := cpc c <> C_none /\ cpc c <> C_exited.

Lemma done_freed e : ws_inv e -> spc e = S_done -> Forall (fun c => place c = freed) (conns e).
Proof.
  intros Hi Hs. apply Forall_forall. intros c (k & Hk)%list_elem_of_lookup. destruct (wi_conns e Hi k c Hk) as [Q1 Q2 Q3 Q4 Q5 Q6 Q7]. rewrite Hs in *. unfold before_take in *.
  destruct (place c); intuition congruence.
Qed.

(** C31. The WebSocket endpoint frees what it allocates once and uses nothing that
    is freed, under every interleaving of the accept thread, the threads of the
    connections and the stop, and whatever NNG and the platform answer.  A
    stream or a connection is freed at most once, and not while its thread runs;
    the endpoint is freed at most once, and by then the accept thread has ended,
    every connection is freed and no thread runs; and every stream the listener
    handed out is held, belongs to a connection or has been given back. *)
Theorem endpoint_memory_safe e : ws_reachable e ->
  Forall (fun c => (stream_frees c <= 1)%nat /\ (conn_frees c <= 1)%nat /\
    (running c -> stream_frees c = 0%nat /\ conn_frees c = 0%nat /\ ep_frees e = 0%nat)) (conns e) /\
  (ep_frees e <= 1)%nat /\
  (ep_frees e = 1%nat -> apc e = A_done /\ Forall (fun c => stream_frees c = 1%nat /\ conn_frees c = 1%nat) (conns e) /\ accepted e = (dropped e + length (conns e))%nat) /\
  (accepted e = dropped e + length (conns e) + (if bool_decide (apc e = A_accepted \/ apc e = A_publish) then 1 else 0))%nat.
Proof.
  intros Hr. pose proof (ws_reachable_inv e Hr) as Hi. pose proof Hi as [H1 H2 H3 H4 H5 H6 H7].
  assert (ep_frees e <> 0%nat -> spc e = S_done) as Hdone.
  { intros Hne. destruct (decide (spc e = S_done)); [done|]. rewrite bool_decide_eq_false_2 in H6 by done. by rewrite H6 in Hne. }
  split; [|split; [rewrite H6; destruct (bool_decide (spc e = S_done)); lia|split; [|done]]].
  - apply Forall_forall. intros c Hin. destruct (list_elem_of_lookup_1 _ _ Hin) as (k & Hk). destruct (co_frees _ _ _ _ (H1 k c Hk)) as [-> ->].
    pose proof (co_freed _ _ _ _ (H1 k c Hk)) as Hf. split; [destruct (bool_decide (place c = freed)); lia|]. split; [destruct (bool_decide (place c = freed)); lia|]. intros [Hn Hx].
    assert (place c <> freed) as Hpf by intuition congruence. rewrite bool_decide_eq_false_2 by done. split; [done|]. split; [done|]. destruct (decide (ep_frees e = 0%nat)) as [|E]; [done|].
    pose proof (done_freed e Hi (Hdone E)) as HF. rewrite Forall_forall in HF. by specialize (HF c Hin).
  - intros E. assert (spc e = S_done) as Es by (apply Hdone; lia). assert (apc e = A_done) as Ea by (apply H4; congruence). split; [done|]. split.
    + pose proof (done_freed e Hi Es) as HF. apply Forall_forall. intros c Hin. rewrite Forall_forall in HF. destruct (list_elem_of_lookup_1 _ _ Hin) as (k & Hk).
      destruct (co_frees _ _ _ _ (H1 k c Hk)) as [-> ->]. by rewrite bool_decide_eq_true_2 by (by apply HF).
    + rewrite H7. rewrite bool_decide_eq_false_2 by (intuition congruence). lia.
Qed.

(** C32. Stopping the endpoint ends, whatever its peers do.  Once it is marked
    stopping, every step of any thread brings it strictly closer to the end;
    until the endpoint is freed, some thread can take a step that waits for no
    peer, so the joins never block for good; and a run of such steps frees every
    connection and the endpoint. *)
Theorem endpoint_stop_completes e : ws_reachable e -> stopping e = true ->
  (forall e', ws_step e e' -> stopping e' = true /\ (ws_measure e' < ws_measure e)%nat) /\
  (spc e <> S_done -> exists e', own_step e e') /\
  exists e', rtc own_step e e' /\ spc e' = S_done /\ ep_frees e' = 1%nat /\ Forall (fun c => place c = freed) (conns e').
Proof.
  intros Hr Hs. pose proof (ws_reachable_inv e Hr) as Hi. split; [intros e'; by apply ws_step_measure|]. split; [by apply ws_stopping_progress|].
  remember (ws_measure e) as n eqn:Hn. revert e Hr Hs Hi Hn. induction n as [n IH] using lt_wf_ind. intros e Hr Hs Hi Hn.
  destruct (decide (spc e = S_done)) as [Hd|Hd].
  { exists e. split; [done|]. split; [done|]. split; [rewrite (wi_done e Hi), bool_decide_eq_true_2 by done; done|by apply done_freed]. }
  destruct (ws_stopping_progress e Hi Hs Hd) as (e1 & H1). pose proof (own_is_step _ _ H1) as H1'. destruct (ws_step_measure e e1 Hi Hs H1') as [Hs1 Hlt].
  assert (ws_reachable e1) as Hr1 by (eapply rtc_r; [apply Hr|done]).
  destruct (IH (ws_measure e1) ltac:(lia) e1 Hr1 Hs1 (ws_reachable_inv _ Hr1) eq_refl) as (e2 & H2 & Hrest). exists e2. split; [by eapply rtc_l|done].
Qed.

(** One connection, its thread waiting for a message when the stop begins. *)
Definition busy_trace : list endpoint :=
  let c p started := mk_conn started false false 0 0 published p in
  let e stop spc apc l n := mk_endpoint stop false apc spc l n 0 0 in
  [e false S_idle A_reap [] 0; e false S_idle A_free [] 0; e false S_idle A_accept [] 0; e false S_idle A_accepted [] 1;
   e false S_idle A_publish [] 1; e false S_idle A_create [c C_none false] 1; e false S_idle A_mark [c C_start false] 1;
   e false S_idle A_check [c C_start true] 1; e false S_idle A_check [c C_check true] 1; e false S_idle A_check [c C_recv true] 1;
   e true S_closing A_check [c C_recv true] 1]%nat.
Definition busy : endpoint := default started (last busy_trace).

Definition good_accept : accept_answer := mk_accept_answer 0 true true 0.
Definition good_conn : conn_answer := mk_conn_answer true 0 true true 0.

Lemma busy_reached : ws_reachable busy.
Proof.
  unfold ws_reachable, busy, busy_trace. cbn [last default].
  do 8 (eapply rtc_l; [apply (step_accept good_accept); reflexivity|]).
  do 2 (eapply rtc_l; [eapply (step_conn good_conn _ 0%nat); reflexivity|]). cbn. apply rtc_once, step_stop. reflexivity.
Qed.

Lemma endpoint_memory_safe_witness : ws_reachable busy /\ accepted busy = (dropped busy + 1)%nat.
Proof.
  split; [exact busy_reached|]. destruct (endpoint_memory_safe busy busy_reached) as (_ & _ & _ & H). rewrite H. reflexivity.
Defined.

Lemma endpoint_stop_completes_witness : stopping busy = true /\ exists e', rtc own_step busy e' /\ ep_frees e' = 1%nat.
Proof.
  split; [reflexivity|]. destruct (endpoint_stop_completes busy busy_reached eq_refl) as (_ & _ & e' & H1 & _ & H2 & _). by exists e'.
Defined.

(** ** Starting *)

(** What a started endpoint owns. *)
Inductive resource := R_endpoint | R_mutex | R_path | R_listener | R_aio | R_thread.

#[export] Instance resource_eq_dec : EqDecision resource.
Proof. solve_decision. Defined.

(** The answers of the allocator, the platform and NNG, in the order of the
    calls; [path_alloc] and [url_alloc] are the copies of the path and the URL. *)
Record start_answer := mk_start_answer {
  ep_alloc : bool; mutex_rv : Z; url_path : option bytes; path_alloc : bytes -> bool; listener_rv : Z; msgmode_rv : Z;
  recvmax_rv : Z; listen_rv : Z; aio_rv : Z; create_rv : Z; url_alloc : bool }.

(** What was acquired and released, and the result: the path of the endpoint
    or the error text. *)
Record start_run := mk_start_run { acquired : list resource; released : list resource; start_result : bytes + bytes }.

Definition NNG_ENOMEM : Z := 2.

Section start.
Context (ducknng_nng_strerror : Z -> bytes) (ans : start_answer).

(** The [fail] label. *)
Definition start_fail (held : list resource) (rv : Z) : start_run :=
  mk_start_run held (filter (fun r => r ∈ held) [R_aio; R_listener; R_path; R_mutex] ++ [R_endpoint])
    (inr (if negb (rv =? 0) then ducknng_nng_strerror rv else lit "ducknng: failed to start WebSocket endpoint")).

(** Releases by [ducknng_ws_frame_endpoint_stop] once its connections are gone. *)
Definition stop_releases : list resource := [R_thread; R_aio; R_listener; R_path; R_mutex; R_endpoint].

Definition endpoint_path : option bytes :=
  match url_path ans with
  | Some p => if path_alloc ans p then Some p else if path_alloc ans (lit "/") then Some (lit "/") else None
  | None => if path_alloc ans (lit "/") then Some (lit "/") else None
  end.

Definition ducknng_ws_frame_endpoint_start (svc : bool) (ws_url : option bytes) (recv_max : Z) : start_run :=
  if (negb svc || bool_decide (default [] ws_url = []))%bool then mk_start_run [] [] (inr (lit "ducknng: missing WebSocket endpoint state")) else
  if negb (ep_alloc ans) then mk_start_run [] [] (inr (lit "ducknng: out of memory allocating WebSocket endpoint")) else
  if negb (mutex_rv ans =? 0) then mk_start_run [R_endpoint] [R_endpoint] (inr (lit "ducknng: failed to initialize WebSocket endpoint mutex")) else
  match endpoint_path with
  | None => start_fail [R_endpoint; R_mutex] NNG_ENOMEM
  | Some path =>
    let held := [R_endpoint; R_mutex; R_path] in
    if negb (listener_rv ans =? 0) then start_fail held (listener_rv ans) else
    let held := held ++ [R_listener] in
    if negb (msgmode_rv ans =? 0) then start_fail held (msgmode_rv ans) else
    if ((0 <? recv_max) && negb (recvmax_rv ans =? 0))%bool then start_fail held (recvmax_rv ans) else
    if negb (listen_rv ans =? 0) then start_fail held (listen_rv ans) else
    if negb (aio_rv ans =? 0) then start_fail held (aio_rv ans) else
    let held := held ++ [R_aio] in
    if negb (create_rv ans =? 0) then start_fail held NNG_ENOMEM else
    let held := held ++ [R_thread] in
    if negb (url_alloc ans) then mk_start_run held stop_releases (inr (lit "ducknng: out of memory copying WebSocket URL"))
    else mk_start_run held [] (inl path)
  end.

(** A start that fails gives back what it took, in the opposite order; one that
    succeeds keeps all of it, and its path is the one of the URL or the root. *)
Lemma start_clean svc ws_url recv_max : let r := ducknng_ws_frame_endpoint_start svc ws_url recv_max in
  match start_result r with
  | inl path => acquired r = reverse stop_releases /\ released r = [] /\ (url_path ans = Some path \/ path = lit "/")
  | inr _ => released r = reverse (acquired r)
  end.
Proof.
  unfold ducknng_ws_frame_endpoint_start. destruct (_ || _)%bool; [done|]. destruct (ep_alloc ans); cbn [negb]; [|done]. destruct (negb (mutex_rv ans =? 0)); [done|].
  assert (forall path, endpoint_path = Some path -> url_path ans = Some path \/ path = lit "/") as Hp.
  { unfold endpoint_path. destruct (url_path ans); repeat case_match; naive_solver. }
  destruct endpoint_path as [path|] eqn:E; [|done]. specialize (Hp path eq_refl).
  repeat match goal with |- context [if ?b then start_fail _ _ else _] => destruct b; [reflexivity|] end.
  destruct (negb (url_alloc ans)); [reflexivity|]. by repeat split.
Qed.

End start.

End Ws.

(** ** Rejected messages *)

Section rejected.
Context (alloc : Z -> option bytes).
Context (run_handler : server -> ducknng_method_descriptor -> ducknng_request_context -> server * Z * ducknng_method_reply).
Context (misread : sql_cell -> option bytes) (run_sql : ducknng_authorizer_context -> bytes -> sql_outcome).
Hypothesis alloc_works : forall n, 0 <= n -> exists b, alloc n = Some b /\ zlen b = n.

(** A message the dispatcher rejects is answered by an error frame with the
    reason; the connection stays open. *)
Lemma ws_rejected svc msg addr scheme path now_ms svc' status text :
  ducknng_service_authorize_and_dispatch_frame alloc run_handler misread run_sql svc (Some msg) (zlen msg)
    None addr scheme (Some (lit "GET")) (Some path) None now_ms = (svc', (None, status, Some text)) ->
  text <> [] -> zlen text <= UINT32_MAX ->
  exists m f, ws_answer alloc run_handler misread run_sql svc msg addr scheme path now_ms = (svc', Some m) /\
    ducknng_decode_request (Some m) = Some f /\ f_type f = DUCKNNG_RPC_ERROR /\
    f_status f = ducknng_ws_status_to_code status /\ f_error f = text.
Proof.
  intros H Ht Hl. unfold ws_answer. rewrite H. destruct (error_msg_frame alloc None (ducknng_ws_status_to_code status) (Some text)) as (m & f & H1 & H2 & H3 & H4 & H5 & H6 & _); [done|by vm_compute|congruence|done|].
  exists m, f. change (default (lit "ducknng: request failed") (Some text)) with text. rewrite H1. repeat split; try done. rewrite H4. unfold ducknng_ws_status_to_code. by repeat case_match.
Qed.

(** Bytes that are no frame are refused as invalid and change nothing. *)
Lemma ws_malformed svc msg addr scheme path now_ms : ducknng_decode_frame_bytes (Some msg) (zlen msg) = None ->
  exists m f, ws_answer alloc run_handler misread run_sql svc msg addr scheme path now_ms = (svc, Some m) /\
    ducknng_decode_request (Some m) = Some f /\ f_status f = DUCKNNG_STATUS_INVALID.
Proof.
  intros H. destruct (ws_rejected svc msg addr scheme path now_ms svc 400 (lit "ducknng: invalid frame envelope")) as (m & f & H1 & H2 & _ & H3 & _).
  - unfold ducknng_service_authorize_and_dispatch_frame. by rewrite H.
  - by vm_compute.
  - by vm_compute.
  - by exists m, f.
Qed.

End rejected.
