(* ===== verification/ClientAio.v ===== *)
(** Asynchronous client operations: [src/src/ducknng_sql_aio.c].

    A slot ([ducknng_client_aio]) carries one asynchronous operation: a request
    on a socket or over HTTP, a send, a receive, a plain HTTP exchange, the
    opening of a streamed response or a read from one.  SQL functions launch it,
    poll it, collect its result and drop it; NNG calls [ducknng_client_aio_cb]
    when a part of it completes, on a thread of its own.

    The first part holds the operations, each critical section under [rt->mu] a
    function on the slot.  What a function takes and gives back (references on
    sockets and streams, messages, contexts, HTTP handles) is a list of events.
    The second part is the life of one slot as a step relation over every
    interleaving of the callback, collectors, droppers, the close of its stream
    and the end of the runtime.

    The native build is modelled: the browser's fetch operations, which replace
    the NNG aio there, are left out.  NNG's answers are arguments. *)

From stdpp Require Import relations.
From S2P Require Import Prelude Util HttpHeaders HttpStream HttpServe Runtime Control Wire.

(** ** Slots *)

Inductive ducknng_client_aio_phase :=
| phase_unset
| DUCKNNG_CLIENT_AIO_PHASE_SEND | DUCKNNG_CLIENT_AIO_PHASE_RECV | DUCKNNG_CLIENT_AIO_PHASE_HTTP.

Inductive ducknng_client_aio_kind :=
| kind_unset
| DUCKNNG_CLIENT_AIO_KIND_REQUEST | DUCKNNG_CLIENT_AIO_KIND_SEND | DUCKNNG_CLIENT_AIO_KIND_RECV
| DUCKNNG_CLIENT_AIO_KIND_NCURL | DUCKNNG_CLIENT_AIO_KIND_NCURL_STREAM_OPEN
| DUCKNNG_CLIENT_AIO_KIND_NCURL_STREAM_RECV.

Inductive ducknng_client_aio_state :=
| DUCKNNG_CLIENT_AIO_PENDING | DUCKNNG_CLIENT_AIO_READY | DUCKNNG_CLIENT_AIO_ERROR
| DUCKNNG_CLIENT_AIO_CANCELLED | DUCKNNG_CLIENT_AIO_COLLECTED.

#[export] Instance aio_phase_eq_dec : EqDecision ducknng_client_aio_phase.
Proof. solve_decision. Defined.
#[export] Instance aio_kind_eq_dec : EqDecision ducknng_client_aio_kind.
Proof. solve_decision. Defined.
#[export] Instance aio_state_eq_dec : EqDecision ducknng_client_aio_state.
Proof. solve_decision. Defined.

(** NNG's error numbers. *)
Definition NNG_ETIMEDOUT : Z := 5.
Definition NNG_ECLOSED : Z := 7.
Definition NNG_EPROTO : Z := 13.
Definition NNG_ECANCELED : Z := 20.
Definition NNG_ECONNSHUT : Z := 31.

(** The fields of a slot, grouped: how far it came, the HTTP exchange, the
    stream.  [http_handles] stands for [http_url], [http_client], [http_req] and
    [http_res], which are set and cleared together; [socket_ref] and
    [http_stream_ref] say whether the pointer is set. *)
Record aio_progress := mk_progress { send_done : bool; recv_done : bool; send_result : Z; recv_result : Z }.

Record aio_http := mk_aio_http {
  http_handles : bool; http_status : Z; http_headers_json : option bytes; http_body : option bytes;
  http_body_capacity : Z; http_body_text : option bytes }.

Record aio_stream := mk_aio_stream {
  http_stream_id : Z; http_stream_ref : bool; http_end_of_stream : bool; http_stream_claimed : bool }.

Record ducknng_client_aio := mk_aio {
  aio_id : Z; kind : ducknng_client_aio_kind; phase : ducknng_client_aio_phase; state : ducknng_client_aio_state;
  progress : aio_progress; error : option bytes; reply_msg : option bytes;
  socket_ref : bool; owns_socket : bool; has_ctx : bool;
  http : aio_http; strm : aio_stream; timeout_ms : Z; started_ms : Z; finished_ms : Z }.

Definition set_kind (k : ducknng_client_aio_kind) (p : ducknng_client_aio_phase) (a : ducknng_client_aio) : ducknng_client_aio :=
  mk_aio (aio_id a) k p (state a) (progress a) (error a) (reply_msg a) (socket_ref a) (owns_socket a) (has_ctx a) (http a) (strm a)
    (timeout_ms a) (started_ms a) (finished_ms a).
Definition set_state (s : ducknng_client_aio_state) (a : ducknng_client_aio) : ducknng_client_aio :=
  mk_aio (aio_id a) (kind a) (phase a) s (progress a) (error a) (reply_msg a) (socket_ref a) (owns_socket a) (has_ctx a) (http a) (strm a)
    (timeout_ms a) (started_ms a) (finished_ms a).
Definition set_progress (p : aio_progress) (a : ducknng_client_aio) : ducknng_client_aio :=
  mk_aio (aio_id a) (kind a) (phase a) (state a) p (error a) (reply_msg a) (socket_ref a) (owns_socket a) (has_ctx a) (http a) (strm a)
    (timeout_ms a) (started_ms a) (finished_ms a).
Definition set_error (e : option bytes) (a : ducknng_client_aio) : ducknng_client_aio :=
  mk_aio (aio_id a) (kind a) (phase a) (state a) (progress a) e (reply_msg a) (socket_ref a) (owns_socket a) (has_ctx a) (http a) (strm a)
    (timeout_ms a) (started_ms a) (finished_ms a).
Definition set_reply (m : option bytes) (a : ducknng_client_aio) : ducknng_client_aio :=
  mk_aio (aio_id a) (kind a) (phase a) (state a) (progress a) (error a) m (socket_ref a) (owns_socket a) (has_ctx a) (http a) (strm a)
    (timeout_ms a) (started_ms a) (finished_ms a).
Definition set_sockets (ref own ctx : bool) (a : ducknng_client_aio) : ducknng_client_aio :=
  mk_aio (aio_id a) (kind a) (phase a) (state a) (progress a) (error a) (reply_msg a) ref own ctx (http a) (strm a)
    (timeout_ms a) (started_ms a) (finished_ms a).
Definition set_http (h : aio_http) (a : ducknng_client_aio) : ducknng_client_aio :=
  mk_aio (aio_id a) (kind a) (phase a) (state a) (progress a) (error a) (reply_msg a) (socket_ref a) (owns_socket a) (has_ctx a) h (strm a)
    (timeout_ms a) (started_ms a) (finished_ms a).
Definition set_strm (s : aio_stream) (a : ducknng_client_aio) : ducknng_client_aio :=
  mk_aio (aio_id a) (kind a) (phase a) (state a) (progress a) (error a) (reply_msg a) (socket_ref a) (owns_socket a) (has_ctx a) (http a) s
    (timeout_ms a) (started_ms a) (finished_ms a).
Definition set_finished (now : Z) (a : ducknng_client_aio) : ducknng_client_aio :=
  mk_aio (aio_id a) (kind a) (phase a) (state a) (progress a) (error a) (reply_msg a) (socket_ref a) (owns_socket a) (has_ctx a) (http a) (strm a)
    (timeout_ms a) (started_ms a) now.
Definition set_id (id : Z) (a : ducknng_client_aio) : ducknng_client_aio :=
  mk_aio id (kind a) (phase a) (state a) (progress a) (error a) (reply_msg a) (socket_ref a) (owns_socket a) (has_ctx a) (http a) (strm a)
    (timeout_ms a) (started_ms a) (finished_ms a).

Definition no_http : aio_http := mk_aio_http false 0 None None 0 None.
Definition no_strm : aio_stream := mk_aio_stream 0 false false false.

(** What a slot can hold. *)
Inductive aio_resource := held_socket | held_stream | held_own_socket | held_ctx | held_handles | held_msg.
Inductive aio_event := Took (r : aio_resource) | Gave (r : aio_resource).

#[export] Instance aio_resource_eq_dec : EqDecision aio_resource.
Proof. solve_decision. Defined.
#[export] Instance aio_event_eq_dec : EqDecision aio_event.
Proof. solve_decision. Defined.

(** [Gave r] when a pointer was set. *)
Definition gave_if (b : bool) (r : aio_resource) : list aio_event := if b then [Gave r] else [].

(** ** Launching *)

Definition ducknng_client_aio_alloc_slot (timeout now : Z) : ducknng_client_aio :=
  mk_aio 0 kind_unset phase_unset DUCKNNG_CLIENT_AIO_PENDING (mk_progress false false (-1) (-1)) None None false false false
    no_http no_strm timeout now 0.

(** The releases of [ducknng_client_aio_destroy]: the message on the aio, the
    reply, the HTTP handles, the context, the sockets, the stream reference. *)
Definition destroy_releases (msg_on_aio : option bytes) (a : ducknng_client_aio) : list aio_event :=
  gave_if (bool_decide (is_Some msg_on_aio)) held_msg ++ gave_if (bool_decide (is_Some (reply_msg a))) held_msg ++
  gave_if (http_handles (http a)) held_handles ++ gave_if (has_ctx a) held_ctx ++ gave_if (owns_socket a) held_own_socket ++
  gave_if (socket_ref a) held_socket ++ gave_if (http_stream_ref (strm a)) held_stream.

(** Whether it also takes its stream out of the runtime: an open whose stream
    nobody claimed. *)
Definition destroy_drops_stream (a : ducknng_client_aio) : bool :=
  (bool_decide (kind a = DUCKNNG_CLIENT_AIO_KIND_NCURL_STREAM_OPEN) && negb (http_stream_claimed (strm a)) &&
   negb (http_stream_id (strm a) =? 0))%bool.

Section launch.
Context (ducknng_nng_strerror : Z -> bytes).

(** A request socket of its own, dialled to a URL: the result of opening it and
    that of opening a context. *)
Definition ducknng_client_prepare_url_aio (timeout now : Z) (opened : result bytes unit) (ctx_rv : Z)
    : list aio_event * result bytes ducknng_client_aio :=
  let slot := ducknng_client_aio_alloc_slot timeout now in
  match opened with
  | Err e => (destroy_releases None slot, Err e)
  | Ok _ =>
    let slot := set_sockets false true false slot in
    if negb (ctx_rv =? 0) then (Took held_own_socket :: destroy_releases None slot, Err (ducknng_nng_strerror ctx_rv))
    else ([Took held_own_socket; Took held_ctx], Ok (set_sockets false true true slot))
  end.

(** The fields of a client socket that are looked at. *)
Record socket_view := mk_view { v_open : bool; v_connected : bool; v_listener : bool; v_protocol : option bytes }.

Definition ducknng_socket_is_active (s : option socket_view) : bool :=
  match s with Some s => (v_open s && (v_connected s || v_listener s))%bool | None => false end.

Definition ducknng_socket_is_req_protocol (s : option socket_view) : bool :=
  match s with Some s => bool_decide (v_protocol s = Some (lit "req")) | None => false end.

(** [sock] is the socket acquired under the id, with a reference. *)
Definition ducknng_client_prepare_socket_request_aio (socket_id : Z) (sock : option socket_view) (timeout now ctx_rv : Z)
    : list aio_event * result bytes ducknng_client_aio :=
  let refused := Err (lit "ducknng: connected req client socket is required for aio request") in
  if socket_id =? 0 then ([], refused) else
  match sock with
  | None => ([], refused)
  | Some s =>
    if (negb (v_open s) || negb (v_connected s) || negb (ducknng_socket_is_req_protocol sock))%bool
    then ([Took held_socket; Gave held_socket], refused)
    else
      let slot := set_sockets true false false (ducknng_client_aio_alloc_slot timeout now) in
      if negb (ctx_rv =? 0) then (Took held_socket :: destroy_releases None slot, Err (ducknng_nng_strerror ctx_rv))
      else ([Took held_socket; Took held_ctx], Ok (set_sockets true false true slot))
  end.

Definition ducknng_client_prepare_socket_raw_aio (socket_id : Z) (sock : option socket_view) (timeout now : Z)
    : list aio_event * result bytes ducknng_client_aio :=
  let refused := Err (lit "ducknng: active client socket is required for aio socket operation") in
  if socket_id =? 0 then ([], refused) else
  if negb (ducknng_socket_is_active sock)
  then (if bool_decide (is_Some sock) then [Took held_socket; Gave held_socket] else [], refused)
  else ([Took held_socket], Ok (set_sockets true false false (ducknng_client_aio_alloc_slot timeout now))).

(** Joining the runtime: the id given, or an error text. *)
Definition add_slot (added : result bytes Z) (msg : option bytes) (slot : ducknng_client_aio)
    : list aio_event * result bytes ducknng_client_aio :=
  match added with
  | Err e => (gave_if (bool_decide (is_Some msg)) held_msg ++ destroy_releases None slot, Err e)
  | Ok id => ([], Ok (set_id id slot))
  end.

(** The slot is submitted with its message on the aio. *)
Definition ducknng_client_launch_request_aio (added : result bytes Z) (req : bytes) (slot : ducknng_client_aio)
    : list aio_event * result bytes ducknng_client_aio :=
  let '(ev, r) := add_slot added (Some req) slot in
  (ev, let! slot := r in Ok (set_kind DUCKNNG_CLIENT_AIO_KIND_REQUEST DUCKNNG_CLIENT_AIO_PHASE_SEND slot)).

Definition ducknng_client_launch_socket_send_aio (added : result bytes Z) (msg : bytes) (slot : ducknng_client_aio)
    : list aio_event * result bytes ducknng_client_aio :=
  let '(ev, r) := add_slot added (Some msg) slot in
  (ev, let! slot := r in Ok (set_kind DUCKNNG_CLIENT_AIO_KIND_SEND DUCKNNG_CLIENT_AIO_PHASE_SEND slot)).

Definition ducknng_client_launch_socket_recv_aio (added : result bytes Z) (slot : ducknng_client_aio)
    : list aio_event * result bytes ducknng_client_aio :=
  let '(ev, r) := add_slot added None slot in
  (ev, let! slot := r in Ok (set_kind DUCKNNG_CLIENT_AIO_KIND_RECV DUCKNNG_CLIENT_AIO_PHASE_RECV slot)).

(** An HTTP exchange: the request prepared, the slot added, the exchange
    submitted.  For a frame the message is freed once the request has its body. *)
Definition launch_http (k : ducknng_client_aio_kind) (prepared : result bytes unit) (added : result bytes Z) (timeout now : Z)
    : list aio_event * result bytes ducknng_client_aio :=
  let slot := set_kind k DUCKNNG_CLIENT_AIO_PHASE_HTTP (ducknng_client_aio_alloc_slot timeout now) in
  match prepared with
  | Err e => (destroy_releases None slot, Err e)
  | Ok _ =>
    let slot := set_http (mk_aio_http true 0 None None 0 None) slot in
    let '(ev, r) := add_slot added None slot in (Took held_handles :: ev, r)
  end.

Definition ducknng_client_launch_ncurl_aio (url : option bytes) (tls : result bytes unit) (prepared : result bytes unit) (added : result bytes Z)
    (timeout now : Z) : list aio_event * result bytes ducknng_client_aio :=
  if negb (nonempty url) then ([], Err (lit "ducknng: ncurl_aio URL must not be NULL or empty")) else
  match tls with
  | Err e => ([], Err e)
  | Ok _ => launch_http DUCKNNG_CLIENT_AIO_KIND_NCURL prepared added timeout now
  end.

(** [carrier] is whether the scheme is HTTP's, [parsed] the check of the URL. *)
Definition ducknng_client_launch_url_request_aio (url : option bytes) (req : bytes) (parsed : result bytes bool) (tls prepared : result bytes unit)
    (opened : result bytes unit) (ctx_rv : Z) (added : result bytes Z) (timeout now : Z) : list aio_event * result bytes ducknng_client_aio :=
  let refuse e := ([Took held_msg; Gave held_msg], Err e) in
  match url with
  | None => refuse (lit "ducknng: missing async RPC request state")
  | Some _ =>
    match parsed, tls with
    | Err e, _ | Ok _, Err e => refuse e
    | Ok true, Ok _ =>
      let '(ev, r) := launch_http DUCKNNG_CLIENT_AIO_KIND_REQUEST prepared added timeout now in
      ([Took held_msg; Gave held_msg] ++ ev, r)
    | Ok false, Ok _ =>
      match ducknng_client_prepare_url_aio timeout now opened ctx_rv with
      | (ev, Err e) => (Took held_msg :: ev ++ [Gave held_msg], Err e)
      | (ev, Ok slot) =>
        let '(ev', r) := ducknng_client_launch_request_aio added req slot in (Took held_msg :: ev ++ ev', r)
      end
    end
  end.

(** An operation that could not be launched, kept so that its error can be
    collected. *)
Definition ducknng_client_add_terminal_error_aio (k : ducknng_client_aio_kind) (p : ducknng_client_aio_phase) (timeout now : Z)
    (message : option bytes) (added : result bytes Z) : list aio_event * result bytes ducknng_client_aio :=
  let slot := set_finished now (set_state DUCKNNG_CLIENT_AIO_ERROR (set_kind k p (ducknng_client_aio_alloc_slot timeout now))) in
  add_slot added None (set_error (Some (default (lit "ducknng: aio launch failed") message)) slot).

End launch.

(** ** Streamed responses *)

(** A stream as the runtime shares it: [recv_aio_id] is the read that is pending
    on it, [UINT64_MAX] while one is being launched. *)
Record shared_stream := mk_shared { sh_stream : ducknng_http_client_stream; recv_aio_id : Z; sh_refcount : Z }.

Definition set_sh (s : ducknng_http_client_stream) (x : shared_stream) : shared_stream := mk_shared s (recv_aio_id x) (sh_refcount x).
Definition set_reader (id : Z) (x : shared_stream) : shared_stream := mk_shared (sh_stream x) id (sh_refcount x).
Definition set_sh_refs (n : Z) (x : shared_stream) : shared_stream := mk_shared (sh_stream x) (recv_aio_id x) n.

(** Drops a reference; the flag says that the stream is destroyed. *)
Definition ducknng_runtime_release_http_client_stream (x : shared_stream) : shared_stream * bool :=
  let n := if 0 <? sh_refcount x then sh_refcount x - 1 else sh_refcount x in (set_sh_refs n x, n =? 0).

(** A read that ends: the stream is free for the next one. *)
Definition leave_stream (a : ducknng_client_aio) (x : shared_stream) : shared_stream :=
  if recv_aio_id x =? aio_id a then set_reader 0 x else x.

(** The first critical section of a launch: the stream is reserved. *)
Definition reserve_stream (stream_id max_bytes : Z) (x : option shared_stream) : result bytes shared_stream :=
  if ((stream_id =? 0) || (max_bytes =? 0) || (DUCKNNG_HTTP_STREAM_MAX_RECV_BYTES <? max_bytes))%bool
  then Err (lit "ducknng: ncurl_stream_recv_aio requires a stream id and max_bytes between 1 and 67108864") else
  match x with
  | None => Err (lit "ducknng: HTTP stream not found")
  | Some x =>
    let s := sh_stream x in
    if (negb (hs_open s) || hs_closing s || hs_failed s || negb (recv_aio_id x =? 0))%bool
    then Err (if negb (recv_aio_id x =? 0) then lit "ducknng: HTTP stream already has a pending receive" else lit "ducknng: HTTP stream is not readable")
    else Ok (set_sh_refs (sh_refcount x + 1) (set_reader UINT64_MAX x))
  end.

Definition recv_slot (stream_id max_bytes timeout now : Z) : ducknng_client_aio :=
  set_http (mk_aio_http false 0 None (Some []) max_bytes None) (set_strm (mk_aio_stream stream_id true false false)
    (set_kind DUCKNNG_CLIENT_AIO_KIND_NCURL_STREAM_RECV DUCKNNG_CLIENT_AIO_PHASE_HTTP (ducknng_client_aio_alloc_slot timeout now))).

(** The end of a read: its result in the slot, the stream left. *)
Definition end_recv (rv : Z) (st : ducknng_client_aio_state) (e : option bytes) (now : Z) (a : ducknng_client_aio) : ducknng_client_aio :=
  set_finished now (set_strm (mk_aio_stream (http_stream_id (strm a)) false (http_end_of_stream (strm a)) (http_stream_claimed (strm a)))
    (set_state st (set_error e (set_progress (mk_progress (send_done (progress a)) true (send_result (progress a)) rv) a)))).

Definition set_received (out : bytes) (eof : bool) (a : ducknng_client_aio) : ducknng_client_aio :=
  set_strm (mk_aio_stream (http_stream_id (strm a)) (http_stream_ref (strm a)) eof (http_stream_claimed (strm a)))
    (set_http (mk_aio_http (http_handles (http a)) (http_status (http a)) (http_headers_json (http a)) (Some out)
      (http_body_capacity (http a)) (http_body_text (http a))) a).

(** The second critical section: the read begins with what is buffered.  [x] is
    the stream found again under its id.  The action, if any, is submitted
    next. *)
Definition begin_recv (x : option shared_stream) (now : Z) (a : ducknng_client_aio)
    : result bytes (ducknng_client_aio * shared_stream * option ducknng_http_stream_action) :=
  match x with
  | None => Err (lit "ducknng: HTTP stream closed while launching receive")
  | Some x =>
    if negb (recv_aio_id x =? UINT64_MAX) then Err (lit "ducknng: HTTP stream closed while launching receive") else
    let '(s, out, r) := ducknng_http_client_stream_recv_begin (sh_stream x) (http_body_capacity (http a)) in
    let x := set_sh s x in
    match r with
    | recv_action act => Ok (set_received out false a, set_reader (aio_id a) x, Some act)
    | HttpStream.recv_done eof => Ok (end_recv 0 DUCKNNG_CLIENT_AIO_READY None now (set_received out eof a), set_reader 0 x, None)
    | recv_error e => Ok (end_recv NNG_EPROTO DUCKNNG_CLIENT_AIO_ERROR (Some e) now (set_received out false a), set_reader 0 x, None)
    end
  end.

(** A submission that is refused at once. *)
Definition refuse_recv (e : bytes) (now : Z) (a : ducknng_client_aio) (x : shared_stream) : ducknng_client_aio * shared_stream :=
  (end_recv NNG_EPROTO DUCKNNG_CLIENT_AIO_ERROR (Some e) now a, leave_stream a x).

(** ** The callback *)

(** What NNG reports: the result, the message left on the aio, the bytes a raw
    read brought, the response of an HTTP exchange, and what the opening of a
    stream found. *)
Record http_response := mk_response { res_status : Z; res_headers : option bytes; res_body : bytes }.
Record completion := mk_completion {
  c_rv : Z; c_msg : option bytes; c_read : bytes; c_response : option http_response; c_open : open_report }.

Inductive after_cb := cb_return | cb_submit (a : ducknng_http_stream_action) | cb_recv.

Section callback.
Context (ducknng_nng_strerror : Z -> bytes) (valid_utf8 : bytes -> bool).

Definition ducknng_http_response_copy (res : option http_response) : result bytes (Z * bytes * option bytes * Z) :=
  match res with
  | None => Err (lit "ducknng: missing HTTP response state")
  | Some r => Ok (res_status r, ducknng_http_headers_block_to_json (res_headers r),
      if 0 <? zlen (res_body r) then Some (res_body r) else None, zlen (res_body r))
  end.

Definition ducknng_http_status_error_message (status : Z) (body : option bytes) (body_len : Z) : bytes :=
  let text := if (bool_decide (is_Some body) && (0 <? body_len) && ducknng_http_bytes_look_text body)%bool then Some (c_text (default [] body)) else None in
  if nonempty text then lit "ducknng: HTTP transport returned status " ++ print_llu status ++ lit ": " ++ default [] text
  else lit "ducknng: HTTP transport returned status " ++ print_llu status.

(** The reply message of a frame sent over HTTP; the status is kept as soon as
    there is a response. *)
Definition ducknng_client_aio_copy_http_reply_msg (alloc : Z -> bool) (res : option http_response) (a : ducknng_client_aio)
    : ducknng_client_aio * result bytes bytes :=
  match ducknng_http_response_copy res with
  | Err e => (a, Err e)
  | Ok (status, _, body, body_len) =>
    let a := set_http (mk_aio_http (http_handles (http a)) status (http_headers_json (http a)) (http_body (http a))
      (http_body_capacity (http a)) (http_body_text (http a))) a in
    if negb (status =? 200) then (a, Err (ducknng_http_status_error_message status body body_len)) else
    if alloc body_len then (a, Ok (default [] body)) else (a, Err (ducknng_nng_strerror 2))
  end.

Definition ducknng_client_aio_clear_http_handles (a : ducknng_client_aio) : ducknng_client_aio :=
  set_http (mk_aio_http false (http_status (http a)) (http_headers_json (http a)) (http_body (http a)) (http_body_capacity (http a))
    (http_body_text (http a))) a.

(** What is left of the timeout, or an error. *)
Definition ducknng_client_aio_refresh_timeout (now : Z) (a : ducknng_client_aio) : result bytes (option Z) :=
  if timeout_ms a <=? 0 then Ok None else
  let elapsed := if started_ms a <=? now then now - started_ms a else 0 in
  if timeout_ms a <=? elapsed then Err (lit "ducknng: aio operation timed out") else Ok (Some (timeout_ms a - elapsed)).

Definition read_report_of (c : completion) : read_report :=
  if c_rv c =? 0 then read_bytes (c_read c) else
  if ((c_rv c =? NNG_ECONNSHUT) || (c_rv c =? NNG_ECLOSED))%bool then read_closed (ducknng_nng_strerror (c_rv c))
  else read_failed (ducknng_nng_strerror (c_rv c)).

Definition open_report_of (c : completion) : open_report :=
  mk_report (c_rv c) (ducknng_nng_strerror (c_rv c)) (or_conn (c_open c)) (or_method (c_open c)) (or_status (c_open c)) (or_headers (c_open c))
    (or_transfer_encoding (c_open c)) (or_content_length (c_open c)).

Definition failed_state (rv : Z) : ducknng_client_aio_state :=
  if rv =? NNG_ECANCELED then DUCKNNG_CLIENT_AIO_CANCELLED else DUCKNNG_CLIENT_AIO_ERROR.

(** The opening of a stream. *)
Definition open_cb (c : completion) (now : Z) (x : option shared_stream) (a : ducknng_client_aio)
    : ducknng_client_aio * option shared_stream * after_cb :=
  let rv := c_rv c in
  let '(x', adv) := match x with
    | None => (None, Err (lit "ducknng: streaming HTTP open handle lost its stream"))
    | Some y => let '(s, adv) := ducknng_http_client_stream_open_advance (sh_stream y) (open_report_of c) in (Some (set_sh s y), adv)
    end in
  let p := progress a in
  let p := match (open_phase ∘ sh_stream) <$> x with
    | Some DUCKNNG_HTTP_STREAM_OPEN_WRITE_REQUEST => mk_progress true (recv_done p) rv (recv_result p)
    | Some DUCKNNG_HTTP_STREAM_OPEN_READ_HEADERS => mk_progress (send_done p) true (send_result p) rv
    | _ => if negb (rv =? 0) then mk_progress (send_done p) (recv_done p) rv (recv_result p) else p
    end in
  let a := set_progress p a in
  match adv with
  | Ok (Some act) => (a, x', cb_submit act)
  | Ok None => (set_finished now (set_state DUCKNNG_CLIENT_AIO_READY (set_progress (mk_progress true true 0 0) a)), x', cb_return)
  | Err e => (set_finished now (set_state (failed_state rv) (set_error (Some e) a)), x', cb_return)
  end.

(** A read from a stream; the last component says that the reference is
    dropped. *)
Definition recv_cb (c : completion) (now : Z) (x : option shared_stream) (a : ducknng_client_aio)
    : ducknng_client_aio * option shared_stream * after_cb * bool :=
  let rv := c_rv c in
  match x with
  | None => (end_recv (if negb (rv =? 0) then rv else NNG_EPROTO) (failed_state rv)
      (Some (lit "ducknng: streaming HTTP receive handle lost its stream")) now a, None, cb_return, false)
  | Some x =>
    let '(s, out, r) := ducknng_http_client_stream_recv_advance (sh_stream x) (read_report_of c) (default [] (http_body (http a))) (http_body_capacity (http a)) in
    let x := set_sh s x in
    match r with
    | recv_action act => (set_received out (http_end_of_stream (strm a)) a, Some x, cb_submit act, false)
    | HttpStream.recv_done eof => (end_recv 0 DUCKNNG_CLIENT_AIO_READY None now (set_received out eof a), Some (leave_stream a x), cb_return, true)
    | recv_error e => (end_recv (if negb (rv =? 0) then rv else NNG_EPROTO)
        (if ((rv =? NNG_ECANCELED) || hs_closing s)%bool then DUCKNNG_CLIENT_AIO_CANCELLED else DUCKNNG_CLIENT_AIO_ERROR) (Some e) now
        (set_received out (http_end_of_stream (strm a)) a), Some (leave_stream a x), cb_return, true)
    end
  end.

(** The result of a completed HTTP exchange. *)
Definition http_outcome (alloc : Z -> bool) (c : completion) (a : ducknng_client_aio) : ducknng_client_aio * list aio_event :=
  match kind a with
  | DUCKNNG_CLIENT_AIO_KIND_NCURL =>
    match ducknng_http_response_copy (c_response c) with
    | Err e => (set_state DUCKNNG_CLIENT_AIO_ERROR (set_error (Some e) a), [])
    | Ok (status, headers, body, body_len) =>
      let text := match body with Some b => if ducknng_sql_bytes_look_text valid_utf8 b then Some (c_text b) else None | None => None end in
      (set_state DUCKNNG_CLIENT_AIO_READY (set_http (mk_aio_http (http_handles (http a)) status (Some headers) body (http_body_capacity (http a)) text) a), [])
    end
  | DUCKNNG_CLIENT_AIO_KIND_REQUEST =>
    match ducknng_client_aio_copy_http_reply_msg alloc (c_response c) a with
    | (a, Err e) => (set_state DUCKNNG_CLIENT_AIO_ERROR (set_error (Some e) a), [])
    | (a, Ok m) => (set_state DUCKNNG_CLIENT_AIO_READY (set_reply (Some m) a), gave_if (bool_decide (is_Some (reply_msg a))) held_msg ++ [Took held_msg])
    end
  | _ => (set_state DUCKNNG_CLIENT_AIO_ERROR (set_error (Some (lit "ducknng: unsupported HTTP aio kind")) a), [])
  end.

(** The end of an operation that is not a stream's: the socket is given back. *)
Definition finish_aio (now : Z) (a : ducknng_client_aio) : ducknng_client_aio :=
  set_finished now (set_sockets false (owns_socket a) (has_ctx a) a).

Definition in_http (a : ducknng_client_aio) : bool := bool_decide (phase a = DUCKNNG_CLIENT_AIO_PHASE_HTTP).

(** The first critical section of the callback: the slot, the stream, what the
    callback does next, and the events. *)
Definition ducknng_client_aio_cb (alloc : Z -> bool) (c : completion) (now : Z) (x : option shared_stream) (a : ducknng_client_aio)
    : ducknng_client_aio * option shared_stream * after_cb * list aio_event :=
  let rv := c_rv c in
  if negb (bool_decide (state a = DUCKNNG_CLIENT_AIO_PENDING)) then (a, x, cb_return, []) else
  match kind a with
  | DUCKNNG_CLIENT_AIO_KIND_NCURL_STREAM_OPEN => let '(a, x, next) := open_cb c now x a in (a, x, next, [])
  | DUCKNNG_CLIENT_AIO_KIND_NCURL_STREAM_RECV =>
    let x := if http_stream_ref (strm a) then x else None in
    let '(a, x, next, dropped) := recv_cb c now x a in (a, x, next, gave_if dropped held_stream)
  | _ =>
    let p := progress a in
    let p := match phase a with
      | DUCKNNG_CLIENT_AIO_PHASE_HTTP => mk_progress true true rv rv
      | DUCKNNG_CLIENT_AIO_PHASE_SEND => mk_progress true (recv_done p) rv (recv_result p)
      | DUCKNNG_CLIENT_AIO_PHASE_RECV => mk_progress (send_done p) true (send_result p) rv
      | phase_unset => p
      end in
    let a := set_progress p a in
    let socket := gave_if (socket_ref a) held_socket in
    if negb (rv =? 0) then
      let a' := finish_aio now (set_state (failed_state rv) (set_error (Some (ducknng_nng_strerror rv)) a)) in
      (if in_http a then ducknng_client_aio_clear_http_handles a' else a', x, cb_return,
       gave_if (bool_decide (is_Some (c_msg c))) held_msg ++ socket ++ gave_if (in_http a && http_handles (http a))%bool held_handles)
    else if in_http a then
      let '(a', ev) := http_outcome alloc c a in
      (finish_aio now (ducknng_client_aio_clear_http_handles a'), x, cb_return, ev ++ gave_if (http_handles (http a)) held_handles ++ socket)
    else if (bool_decide (kind a = DUCKNNG_CLIENT_AIO_KIND_REQUEST) && bool_decide (phase a = DUCKNNG_CLIENT_AIO_PHASE_SEND))%bool then
      (set_kind (kind a) DUCKNNG_CLIENT_AIO_PHASE_RECV a, x, cb_recv, [])
    else
      let a := if bool_decide (phase a = DUCKNNG_CLIENT_AIO_PHASE_RECV) then set_reply (c_msg c) a else a in
      (finish_aio now (set_state DUCKNNG_CLIENT_AIO_READY a), x, cb_return, socket)
  end.

(** Its second critical section, when the next step of a stream could not be
    submitted. *)
Definition cb_refused (act : ducknng_http_stream_action) (rc : Z) (e : bytes) (now : Z) (x : option shared_stream) (a : ducknng_client_aio)
    : ducknng_client_aio * option shared_stream * list aio_event :=
  let failed := (fun y => set_sh (set_failed (sh_stream y)) y) <$> x in
  if bool_decide (kind a = DUCKNNG_CLIENT_AIO_KIND_NCURL_STREAM_RECV) then
    if negb (bool_decide (state a = DUCKNNG_CLIENT_AIO_PENDING)) then (a, x, [Gave held_stream])
    else (end_recv rc DUCKNNG_CLIENT_AIO_ERROR (Some e) now a, leave_stream a <$> failed, [Gave held_stream])
  else
    if negb (bool_decide (state a = DUCKNNG_CLIENT_AIO_PENDING)) then (a, x, []) else
    let p := progress a in
    let p := match act with
      | DUCKNNG_HTTP_STREAM_ACTION_READ_HEADERS => mk_progress (send_done p) true (send_result p) rc
      | _ => mk_progress true (recv_done p) rc (recv_result p) end in
    (set_finished now (set_state DUCKNNG_CLIENT_AIO_ERROR (set_error (Some e) (set_progress p a))), failed, []).

(** The submission between the two: the remaining time, then the stream's own
    checks. *)
Definition cb_submission (act : ducknng_http_stream_action) (now : Z) (s : ducknng_http_client_stream) (a : ducknng_client_aio)
    : ducknng_http_client_stream + Z * bytes :=
  match ducknng_client_aio_refresh_timeout now a with
  | Err e => inr (NNG_ETIMEDOUT, e)
  | Ok _ => match ducknng_http_client_stream_submit s act with Ok s => inl s | Err e => inr (NNG_EPROTO, e) end
  end.

End callback.

(** ** Polling and collecting *)

Definition ducknng_find_client_aio_locked (rt : id_table ducknng_client_aio) (id : Z) : option ducknng_client_aio := ids_find id rt.

Definition pending (a : ducknng_client_aio) : bool := bool_decide (state a = DUCKNNG_CLIENT_AIO_PENDING).
Definition collectable (a : ducknng_client_aio) : bool :=
  match state a with
  | DUCKNNG_CLIENT_AIO_READY | DUCKNNG_CLIENT_AIO_ERROR | DUCKNNG_CLIENT_AIO_CANCELLED => true
  | DUCKNNG_CLIENT_AIO_PENDING | DUCKNNG_CLIENT_AIO_COLLECTED => false
  end.

Definition ducknng_aio_ready_scalar (rt : id_table ducknng_client_aio) (id : Z) : bool :=
  match ducknng_find_client_aio_locked rt id with Some a => negb (pending a) | None => false end.

(** Whether the operation is asked to stop; NNG then completes it, with
    [NNG_ECANCELED] unless it has completed already. *)
Definition ducknng_aio_cancel_scalar (rt : id_table ducknng_client_aio) (id : Z) : bool :=
  match ducknng_find_client_aio_locked rt id with Some a => pending a | None => false end.

Definition is_stream_kind (k : ducknng_client_aio_kind) : bool :=
  match k with
  | DUCKNNG_CLIENT_AIO_KIND_NCURL | DUCKNNG_CLIENT_AIO_KIND_NCURL_STREAM_OPEN | DUCKNNG_CLIENT_AIO_KIND_NCURL_STREAM_RECV => true
  | _ => false
  end.

Definition ducknng_aio_collectable_scalar (rt : id_table ducknng_client_aio) (id : Z) : bool :=
  match ducknng_find_client_aio_locked rt id with Some a => (negb (is_stream_kind (kind a)) && collectable a)%bool | None => false end.

(** The three functions for the kinds that have collectors of their own. *)
Definition kind_collectable (k : ducknng_client_aio_kind) (rt : id_table ducknng_client_aio) (id : Z) : bool :=
  match ducknng_find_client_aio_locked rt id with Some a => (bool_decide (kind a = k) && collectable a)%bool | None => false end.

Definition ducknng_count_collectable_aios_locked (rt : id_table ducknng_client_aio) (ids : list Z) : Z :=
  zlen (filter (fun id => collectable <$> ducknng_find_client_aio_locked rt id = Some true) ids).

(** One round of the wait: the table under the lock, the time, and the result
    of the wait on the condition, if it comes to that. *)
Fixpoint wait_rounds (ids : list Z) (wait_ms deadline : Z) (rounds : list (id_table ducknng_client_aio * Z * Z)) : option bool :=
  match rounds with
  | [] => None
  | (rt, now, wait_rc) :: rounds =>
    if 0 <? ducknng_count_collectable_aios_locked rt ids then Some true else
    if ((wait_ms =? 0) || (deadline <=? now))%bool then Some false else
    if negb (wait_rc =? 0) then Some false else wait_rounds ids wait_ms deadline rounds
  end.

Definition ducknng_wait_any_for_ids (ids : list Z) (wait_ms start : Z) (rounds : list (id_table ducknng_client_aio * Z * Z)) : option bool :=
  match ids with
  | [] => Some false
  | _ => wait_rounds ids wait_ms (u64 (start + (if 0 <? wait_ms then wait_ms else 0))) rounds
  end.

(** [nng_error] of a row: the first result that is an error. *)
Definition nng_error_of (p : aio_progress) : option Z :=
  if (negb (send_result p =? 0) && negb (send_result p =? -1))%bool then Some (send_result p) else
  if (negb (recv_result p =? 0) && negb (recv_result p =? -1))%bool then Some (recv_result p) else None.

Definition mark_collected (a : ducknng_client_aio) : ducknng_client_aio :=
  if collectable a then set_state DUCKNNG_CLIENT_AIO_COLLECTED a else a.

(** [ok], also for a slot collected before. *)
Definition row_ok (a : ducknng_client_aio) : bool :=
  match state a with
  | DUCKNNG_CLIENT_AIO_READY => true
  | DUCKNNG_CLIENT_AIO_COLLECTED => negb (bool_decide (is_Some (error a)))
  | _ => false
  end.

Definition holds_reply (a : ducknng_client_aio) : bool :=
  match state a with DUCKNNG_CLIENT_AIO_READY | DUCKNNG_CLIENT_AIO_COLLECTED => bool_decide (is_Some (reply_msg a)) | _ => false end.

Record collect_row := mk_collect_row { cr_id : Z; cr_ok : bool; cr_error : option bytes; cr_frame : option bytes; cr_nng_error : option Z }.

(** The critical section of the collectors: the row, if the slot has a result,
    and the slot after it. *)
Definition ducknng_aio_collect_row_scalar (a : ducknng_client_aio) : option (collect_row * ducknng_client_aio * list aio_event) :=
  if pending a then None else
  let frame := if holds_reply a then reply_msg a else None in
  let a' := if holds_reply a then set_reply None a else a in
  Some (mk_collect_row (aio_id a) (row_ok a) (error a) frame (nng_error_of (progress a)), mark_collected a', gave_if (holds_reply a) held_msg).

Record ncurl_row := mk_ncurl_row {
  nr_id : Z; nr_ok : bool; nr_status : option Z; nr_error : option bytes; nr_headers : option bytes; nr_body : option bytes; nr_text : option bytes }.

Definition ducknng_ncurl_aio_collect_row_scalar (a : ducknng_client_aio) : option (ncurl_row * ducknng_client_aio) :=
  if (negb (bool_decide (kind a = DUCKNNG_CLIENT_AIO_KIND_NCURL)) || pending a)%bool then None else
  Some (mk_ncurl_row (aio_id a) (row_ok a) (if row_ok a then Some (http_status (http a)) else None) (error a)
    (http_headers_json (http a)) (http_body (http a)) (http_body_text (http a)), mark_collected a).

(** The [headers_json] column is left out. *)
Record open_row := mk_open_row { opr_id : Z; opr_ok : bool; opr_stream : option Z; opr_status : option Z; opr_error : option bytes }.

(** [x] is the stream under the slot's stream id. *)
Definition ducknng_ncurl_stream_open_aio_collect_row_scalar (x : option shared_stream) (a : ducknng_client_aio) : option (open_row * ducknng_client_aio) :=
  if (negb (bool_decide (kind a = DUCKNNG_CLIENT_AIO_KIND_NCURL_STREAM_OPEN)) || negb (collectable a))%bool then None else
  let ready := bool_decide (state a = DUCKNNG_CLIENT_AIO_READY) in
  let x := if ready then x else None in
  let claimed := bool_decide (is_Some x) in
  let lost := if (negb claimed && ready)%bool then Some (lit "ducknng: streaming HTTP open result lost its stream") else None in
  let s := strm a in
  Some (mk_open_row (aio_id a) claimed (if claimed then Some (http_stream_id s) else None) ((hs_status ∘ sh_stream) <$> x)
      (match error a with Some e => Some e | None => lost end),
    set_state DUCKNNG_CLIENT_AIO_COLLECTED (set_strm (mk_aio_stream (http_stream_id s) (http_stream_ref s) (http_end_of_stream s)
      (claimed || http_stream_claimed s)) a)).

Record recv_row := mk_recv_row { rr_id : Z; rr_ok : bool; rr_stream : option Z; rr_error : option bytes; rr_data : option bytes; rr_eof : option bool }.

Definition ducknng_ncurl_stream_recv_aio_collect_row_scalar (a : ducknng_client_aio) : option (recv_row * ducknng_client_aio) :=
  if (negb (bool_decide (kind a = DUCKNNG_CLIENT_AIO_KIND_NCURL_STREAM_RECV)) || negb (collectable a))%bool then None else
  let ok := bool_decide (state a = DUCKNNG_CLIENT_AIO_READY) in
  Some (mk_recv_row (aio_id a) ok (if http_stream_id (strm a) =? 0 then None else Some (http_stream_id (strm a))) (error a)
      (if ok then match http_body (http a) with Some (b :: l) => Some (b :: l) | _ => None end else None)
      (if ok then Some (http_end_of_stream (strm a)) else None),
    set_state DUCKNNG_CLIENT_AIO_COLLECTED a).

Definition ducknng_aio_kind_name (k : ducknng_client_aio_kind) : option bytes :=
  match k with
  | DUCKNNG_CLIENT_AIO_KIND_REQUEST => Some (lit "request")
  | DUCKNNG_CLIENT_AIO_KIND_SEND => Some (lit "send")
  | DUCKNNG_CLIENT_AIO_KIND_RECV => Some (lit "recv")
  | DUCKNNG_CLIENT_AIO_KIND_NCURL => Some (lit "ncurl")
  | DUCKNNG_CLIENT_AIO_KIND_NCURL_STREAM_OPEN => Some (lit "ncurl_stream_open")
  | DUCKNNG_CLIENT_AIO_KIND_NCURL_STREAM_RECV => Some (lit "ncurl_stream_recv")
  | kind_unset => None
  end.

Definition ducknng_aio_state_name (s : ducknng_client_aio_state) : option bytes :=
  match s with
  | DUCKNNG_CLIENT_AIO_PENDING => Some (lit "pending")
  | DUCKNNG_CLIENT_AIO_READY => Some (lit "ready")
  | DUCKNNG_CLIENT_AIO_ERROR => Some (lit "error")
  | DUCKNNG_CLIENT_AIO_CANCELLED => Some (lit "cancelled")
  | DUCKNNG_CLIENT_AIO_COLLECTED => Some (lit "collected")
  end.

Definition ducknng_aio_phase_name (p : ducknng_client_aio_phase) : option bytes :=
  match p with
  | DUCKNNG_CLIENT_AIO_PHASE_SEND => Some (lit "send")
  | DUCKNNG_CLIENT_AIO_PHASE_RECV => Some (lit "recv")
  | DUCKNNG_CLIENT_AIO_PHASE_HTTP => Some (lit "http")
  | phase_unset => None
  end.

Record status_row := mk_status_row {
  sr_id : Z; sr_exists : bool; sr_kind : option bytes; sr_state : option bytes; sr_phase : option bytes; sr_terminal : bool;
  sr_send_done : bool; sr_send_ok : option bool; sr_recv_done : bool; sr_recv_ok : option bool; sr_has_reply : bool;
  sr_error : option bytes; sr_nng_error : option Z }.

Definition ducknng_aio_status_scalar (rt : id_table ducknng_client_aio) (id : Z) : status_row :=
  match ducknng_find_client_aio_locked rt id with
  | None => mk_status_row id false None None None false false None false None false None None
  | Some a =>
    let p := progress a in
    mk_status_row id true (ducknng_aio_kind_name (kind a)) (ducknng_aio_state_name (state a)) (ducknng_aio_phase_name (phase a)) (negb (pending a))
      (send_done p) (if send_done p then Some (send_result p =? 0) else None) (recv_done p) (if recv_done p then Some (recv_result p =? 0) else None)
      (bool_decide (is_Some (reply_msg a))) (error a) (nng_error_of p)
  end.

(** ** Launching on streams *)

(** The stream is prepared and registered, then the slot; connecting is always
    accepted by [ducknng_http_client_stream_submit].  A slot that cannot be added
    is destroyed, and takes the stream with it. *)
Definition ducknng_client_launch_ncurl_stream_open_aio (url : option bytes) (tls : result bytes unit) (prepared : result bytes ducknng_http_client_stream)
    (stream_added added : result bytes Z) (timeout now : Z) : list aio_event * result bytes (ducknng_client_aio * shared_stream) :=
  if negb (nonempty url) then ([], Err (lit "ducknng: ncurl_stream_open_aio URL must not be NULL or empty")) else
  match tls, prepared, stream_added with
  | Err e, _, _ | Ok _, Err e, _ | Ok _, Ok _, Err e => ([], Err e)
  | Ok _, Ok s, Ok id =>
    let slot := set_strm (mk_aio_stream id false false false)
      (set_kind DUCKNNG_CLIENT_AIO_KIND_NCURL_STREAM_OPEN DUCKNNG_CLIENT_AIO_PHASE_HTTP (ducknng_client_aio_alloc_slot timeout now)) in
    let '(ev, r) := add_slot added None slot in
    (ev, let! slot := r in
         match ducknng_http_client_stream_submit s DUCKNNG_HTTP_STREAM_ACTION_CONNECT with
         | Ok s => Ok (slot, mk_shared s 0 1)
         | Err e => Err e
         end)
  end.

(** [x] is the stream when it is reserved, [x'] what is found under its id once
    the slot is listed.  The flag says that a read was submitted. *)
Definition ducknng_client_launch_ncurl_stream_recv_aio (stream_id max_bytes timeout now : Z) (x : option shared_stream) (added : result bytes Z)
    (x' : option shared_stream) : list aio_event * result bytes (ducknng_client_aio * shared_stream * bool) :=
  match reserve_stream stream_id max_bytes x with
  | Err e => ([], Err e)
  | Ok _ =>
    match added with
    | Err e => ([Took held_stream; Gave held_stream], Err e)
    | Ok id =>
      match begin_recv x' now (set_id id (recv_slot stream_id max_bytes timeout now)) with
      | Err e => ([Took held_stream; Gave held_stream], Err e)
      | Ok (a, y, None) => ([Took held_stream; Gave held_stream], Ok (a, (ducknng_runtime_release_http_client_stream y).1, false))
      | Ok (a, y, Some act) =>
        match ducknng_http_client_stream_submit (sh_stream y) act with
        | Ok s => ([Took held_stream], Ok (a, set_sh s y, true))
        | Err e =>
          let '(a, y) := refuse_recv e now a y in
          ([Took held_stream; Gave held_stream], Ok (a, (ducknng_runtime_release_http_client_stream y).1, false))
        end
      end
    end
  end.

(** ** The life of a slot *)

Module Slot.

(** What NNG works on for the slot. *)
Inductive aio_op := op_send | op_recv | op_http | op_stream.

Record slot_world := mk_slot_world {
  slot : ducknng_client_aio;
  op : option aio_op;            (* submitted, not yet completed *)
  aio_msg : option bytes;        (* the message on the aio *)
  gap : option after_cb;         (* the callback is between two critical sections *)
  listed : bool;                 (* in [rt->client_aios] *)
  droppers : nat;                (* droppers that found it droppable *)
  taken : bool;                  (* removed, to be destroyed *)
  freed : bool;
  stream : option shared_stream; (* the stream of the slot *)
  registered : bool;             (* ... is in [rt->http_client_streams] *)
  others : nat;                  (* references of other reads *)
  log : list aio_event;
  received : list bytes;         (* replies that arrived *)
  frames : list bytes }.         (* frames handed to collectors *)

Definition set_slot (a : ducknng_client_aio) (w : slot_world) : slot_world :=
  mk_slot_world a (op w) (aio_msg w) (gap w) (listed w) (droppers w) (taken w) (freed w) (stream w) (registered w) (others w) (log w) (received w) (frames w).
Definition set_op (o : option aio_op) (m : option bytes) (g : option after_cb) (w : slot_world) : slot_world :=
  mk_slot_world (slot w) o m g (listed w) (droppers w) (taken w) (freed w) (stream w) (registered w) (others w) (log w) (received w) (frames w).
Definition set_life (l : bool) (d : nat) (t f : bool) (w : slot_world) : slot_world :=
  mk_slot_world (slot w) (op w) (aio_msg w) (gap w) l d t f (stream w) (registered w) (others w) (log w) (received w) (frames w).
Definition set_stream_of (x : option shared_stream) (r : bool) (o : nat) (w : slot_world) : slot_world :=
  mk_slot_world (slot w) (op w) (aio_msg w) (gap w) (listed w) (droppers w) (taken w) (freed w) x r o (log w) (received w) (frames w).
Definition logged (ev : list aio_event) (w : slot_world) : slot_world :=
  mk_slot_world (slot w) (op w) (aio_msg w) (gap w) (listed w) (droppers w) (taken w) (freed w) (stream w) (registered w) (others w) (log w ++ ev) (received w) (frames w).
Definition set_frames (r f : list bytes) (w : slot_world) : slot_world :=
  mk_slot_world (slot w) (op w) (aio_msg w) (gap w) (listed w) (droppers w) (taken w) (freed w) (stream w) (registered w) (others w) (log w) r f.

(** A launched slot. *)
Definition launched (ev : list aio_event) (a : ducknng_client_aio) (o : option aio_op) (m : option bytes) : slot_world :=
  mk_slot_world a o m None true 0 false false None false 0 ev [] [].

Definition launched_stream (ev : list aio_event) (a : ducknng_client_aio) (o : option aio_op) (x : shared_stream) (others : nat) : slot_world :=
  mk_slot_world a o None None true 0 false false (Some x) true others ev [] [].

Section steps.
Context (ducknng_nng_strerror : Z -> bytes) (valid_utf8 : bytes -> bool) (alloc : Z -> bool).

(** Every way to launch. *)
Inductive initial : slot_world -> Prop :=
| init_url_request url req carrier tls prepared opened ctx_rv added timeout now ev a :
    ducknng_client_launch_url_request_aio ducknng_nng_strerror url req (Ok carrier) tls prepared opened ctx_rv added timeout now = (ev, Ok a) ->
    initial (if (carrier : bool) then launched ev a (Some op_http) None else launched ev a (Some op_send) (Some req))
| init_socket_request id sock req added timeout now ctx_rv ev a ev' a' :
    ducknng_client_prepare_socket_request_aio ducknng_nng_strerror id sock timeout now ctx_rv = (ev, Ok a) ->
    ducknng_client_launch_request_aio added req a = (ev', Ok a') -> initial (launched (Took held_msg :: ev ++ ev') a' (Some op_send) (Some req))
| init_socket_send id sock msg added timeout now ev a ev' a' :
    ducknng_client_prepare_socket_raw_aio id sock timeout now = (ev, Ok a) ->
    ducknng_client_launch_socket_send_aio added msg a = (ev', Ok a') -> initial (launched (Took held_msg :: ev ++ ev') a' (Some op_send) (Some msg))
| init_socket_recv id sock added timeout now ev a ev' a' :
    ducknng_client_prepare_socket_raw_aio id sock timeout now = (ev, Ok a) ->
    ducknng_client_launch_socket_recv_aio added a = (ev', Ok a') -> initial (launched (ev ++ ev') a' (Some op_recv) None)
| init_ncurl url tls prepared added timeout now ev a :
    ducknng_client_launch_ncurl_aio url tls prepared added timeout now = (ev, Ok a) -> initial (launched ev a (Some op_http) None)
| init_error k p timeout now message added ev a :
    ducknng_client_add_terminal_error_aio k p timeout now message added = (ev, Ok a) -> initial (launched ev a None None)
| init_open url tls prepared stream_added added timeout now ev a x :
    ducknng_client_launch_ncurl_stream_open_aio url tls prepared stream_added added timeout now = (ev, Ok (a, x)) ->
    initial (launched_stream ev a (Some op_stream) x 0)
| init_stream_recv stream_id max_bytes timeout now x added x' ev a y (submitted : bool) others :
    ducknng_client_launch_ncurl_stream_recv_aio stream_id max_bytes timeout now x added x' = (ev, Ok (a, y, submitted)) ->
    option_map sh_refcount x' = Some (2 + Z.of_nat others) ->
    initial (launched_stream ev a (if submitted then Some op_stream else None) y others).

(** What NNG documents about the message on the aio: a send takes it when it
    succeeds and leaves it otherwise, a receive brings one when it succeeds. *)
Definition nng_leaves (o : aio_op) (rv : Z) (before after : option bytes) : Prop :=
  match o with
  | op_send => after = (if rv =? 0 then None else before)
  | op_recv => if rv =? 0 then is_Some after else after = None
  | op_http | op_stream => after = before
  end.

(** The message changes hands as the operation ends. *)
Definition nng_events (o : aio_op) (rv : Z) : list aio_event :=
  match o with
  | op_send => if rv =? 0 then [Gave held_msg] else []
  | op_recv => if rv =? 0 then [Took held_msg] else []
  | op_http | op_stream => []
  end.

(** What the callback leaves on the aio: it frees the message of a failed
    operation and takes the one it received. *)
Definition cb_leaves (a : ducknng_client_aio) (c : completion) : option bytes :=
  match kind a with
  | DUCKNNG_CLIENT_AIO_KIND_NCURL_STREAM_OPEN | DUCKNNG_CLIENT_AIO_KIND_NCURL_STREAM_RECV => c_msg c
  | _ => if negb (c_rv c =? 0) then None else
    match phase a with DUCKNNG_CLIENT_AIO_PHASE_RECV => None | _ => c_msg c end
  end.

(** The stream the callback sees: an open looks it up, a read has a pointer. *)
Definition visible_stream (w : slot_world) : option shared_stream :=
  match kind (slot w) with
  | DUCKNNG_CLIENT_AIO_KIND_NCURL_STREAM_OPEN => if registered w then stream w else None
  | _ => stream w
  end.

Definition put_slot_stream (x : option shared_stream) (dropped : bool) (w : slot_world) : slot_world :=
  match x with
  | None => w
  | Some x => set_stream_of (Some (if dropped then (ducknng_runtime_release_http_client_stream x).1 else x)) (registered w) (others w) w
  end.

(** A completed operation and the first critical section of the callback. *)
Definition complete (c : completion) (now : Z) (o : aio_op) (w : slot_world) : slot_world :=
  let '(a, x, next, ev) := ducknng_client_aio_cb ducknng_nng_strerror valid_utf8 alloc c now (visible_stream w) (slot w) in
  let w' := put_slot_stream x (bool_decide (Gave held_stream ∈ ev)) (logged (nng_events o (c_rv c) ++ ev) (set_slot a w)) in
  set_frames (received w ++ match reply_msg (slot w) with None => option_list (reply_msg a) | Some _ => [] end) (frames w)
    (set_op None (cb_leaves (slot w) c) (match next with cb_return => None | _ => Some next end) w').

(** The callback after that section. *)
Definition continue (now : Z) (w : slot_world) : slot_world :=
  match gap w with
  | Some cb_recv => set_op (Some op_recv) None None w
  | Some (cb_submit act) =>
    match stream w with
    | None => w
    | Some x =>
      match cb_submission act now (sh_stream x) (slot w) with
      | inl s => set_op (Some op_stream) (aio_msg w) None (set_stream_of (Some (set_sh s x)) (registered w) (others w) w)
      | inr (rc, e) =>
        let '(a, y, ev) := cb_refused act rc e now (Some x) (slot w) in
        set_op None (aio_msg w) None (put_slot_stream y (bool_decide (Gave held_stream ∈ ev)) (logged ev (set_slot a w)))
      end
    end
  | _ => w
  end.

(** [ducknng_client_aio_destroy], once the callback has ended. *)
Definition destroy_slot (w : slot_world) : slot_world :=
  let a := slot w in
  let unregister := (destroy_drops_stream a && registered w)%bool in
  let x := if http_stream_ref (strm a) then (fun x => (ducknng_runtime_release_http_client_stream x).1) <$> stream w else stream w in
  let x := if unregister then (fun x => (ducknng_runtime_release_http_client_stream x).1) <$> x else x in
  set_slot (set_reply None (set_sockets false false false (set_http no_http (set_strm no_strm a))))
    (set_op None None None (set_life false (droppers w) false true
      (set_stream_of x (registered w && negb unregister) (others w) (logged (destroy_releases (aio_msg w) a) w)))).

Inductive step : slot_world -> slot_world -> Prop :=
| step_complete c now o w : op w = Some o -> nng_leaves o (c_rv c) (aio_msg w) (c_msg c) -> step w (complete c now o w)
| step_continue now w : gap w <> None -> step w (continue now w)
| step_collect w row a ev : listed w = true -> ducknng_aio_collect_row_scalar (slot w) = Some (row, a, ev) ->
    step w (logged ev (set_frames (received w) (frames w ++ option_list (cr_frame row)) (set_slot a w)))
| step_collect_ncurl w row a : listed w = true -> ducknng_ncurl_aio_collect_row_scalar (slot w) = Some (row, a) -> step w (set_slot a w)
| step_collect_open w row a : listed w = true ->
    ducknng_ncurl_stream_open_aio_collect_row_scalar (visible_stream w) (slot w) = Some (row, a) -> step w (set_slot a w)
| step_collect_recv w row a : listed w = true -> ducknng_ncurl_stream_recv_aio_collect_row_scalar (slot w) = Some (row, a) -> step w (set_slot a w)
| step_drop_check w : listed w = true -> pending (slot w) = false -> step w (set_life (listed w) (S (droppers w)) (taken w) (freed w) w)
| step_drop_remove w n : droppers w = S n -> step w (set_life false n (taken w || listed w) (freed w) w)
| step_shutdown w : listed w = true -> step w (set_life false (droppers w) true (freed w) w)
| step_destroy w : taken w = true -> op w = None -> gap w = None -> step w (destroy_slot w)
| step_stream_changes w x s : stream w = Some x -> step w (set_stream_of (Some (set_sh s x)) (registered w) (others w) w)
| step_stream_read w x : stream w = Some x -> registered w = true ->
    step w (set_stream_of (Some (set_sh_refs (sh_refcount x + 1) x)) true (S (others w)) w)
| step_stream_left w x n : stream w = Some x -> others w = S n ->
    step w (set_stream_of (Some (ducknng_runtime_release_http_client_stream x).1) (registered w) n w)
| step_stream_close w x : stream w = Some x -> registered w = true ->
    step w (set_stream_of (Some (ducknng_runtime_release_http_client_stream x).1) false (others w) w).

Definition slot_reachable (w : slot_world) : Prop := exists w0, initial w0 /\ rtc step w0 w.

(** ** The ledger *)

Definition b2n (b : bool) : nat := if b then 1 else 0.

Definition took (r : aio_resource) (l : list aio_event) : nat := sum_list_with (fun e => b2n (bool_decide (e = Took r))) l.
Definition gave (r : aio_resource) (l : list aio_event) : nat := sum_list_with (fun e => b2n (bool_decide (e = Gave r))) l.

(** What the slot and its aio hold. *)
Definition held_by (r : aio_resource) (a : ducknng_client_aio) (m : option bytes) : nat :=
  match r with
  | held_socket => b2n (socket_ref a)
  | held_stream => b2n (http_stream_ref (strm a))
  | held_own_socket => b2n (owns_socket a)
  | held_ctx => b2n (has_ctx a)
  | held_handles => b2n (http_handles (http a))
  | held_msg => b2n (bool_decide (is_Some m)) + b2n (bool_decide (is_Some (reply_msg a)))
  end.

Arguments took : simpl never.
Arguments gave : simpl never.

Lemma took_cons r e l : took r (e :: l) = (b2n (bool_decide (e = Took r)) + took r l)%nat.
Proof. done. Qed.
Lemma gave_cons r e l : gave r (e :: l) = (b2n (bool_decide (e = Gave r)) + gave r l)%nat.
Proof. done. Qed.
Lemma took_nil r : took r [] = 0%nat.
Proof. done. Qed.
Lemma gave_nil r : gave r [] = 0%nat.
Proof. done. Qed.
Lemma took_app r l l' : took r (l ++ l') = (took r l + took r l')%nat.
Proof. apply sum_list_with_app. Qed.
Lemma gave_app r l l' : gave r (l ++ l') = (gave r l + gave r l')%nat.
Proof. apply sum_list_with_app. Qed.
Lemma took_gave_if r b r' : took r (gave_if b r') = 0%nat.
Proof. by destruct b. Qed.
Lemma gave_gave_if r b r' : gave r (gave_if b r') = b2n (b && bool_decide (r = r')).
Proof. destruct b; [|done]. cbn. unfold gave. cbn. destruct (decide (r = r')) as [->|]; [by rewrite !bool_decide_eq_true_2|]. by rewrite !bool_decide_eq_false_2 by congruence. Qed.

(** The events [ev] turn the holdings of [a] and [m] into those of [a'] and [m']. *)
Definition ev_balanced (a : ducknng_client_aio) (m : option bytes) (ev : list aio_event) (a' : ducknng_client_aio) (m' : option bytes) : Prop :=
  forall r, (held_by r a m + took r ev = held_by r a' m' + gave r ev)%nat.

(** Decides the tests on constructors and on set and unset pointers. *)
Ltac decided := repeat match goal with
  | |- context [bool_decide ?P] => first [rewrite (bool_decide_eq_true_2 P) by (done || by eexists) | rewrite (bool_decide_eq_false_2 P) by (done || congruence || by intros [])]
  end.

Ltac ledger := intros r; repeat progress rewrite ?took_app, ?gave_app, ?took_cons, ?gave_cons, ?took_gave_if, ?gave_gave_if, ?took_nil, ?gave_nil; destruct r; cbn; decided;
  rewrite ?andb_true_r, ?andb_false_r; cbn; try lia.

(** ** What an operation in progress needs *)

Definition plain (a : ducknng_client_aio) : Prop := http_stream_ref (strm a) = false.

Definition aio_op_fits (o : aio_op) (a : ducknng_client_aio) (m : option bytes) (x : option shared_stream) : Prop :=
  match o with
  | op_send => (kind a = DUCKNNG_CLIENT_AIO_KIND_REQUEST \/ kind a = DUCKNNG_CLIENT_AIO_KIND_SEND) /\ phase a = DUCKNNG_CLIENT_AIO_PHASE_SEND /\
      is_Some m /\ http_handles (http a) = false /\ plain a
  | op_recv => (kind a = DUCKNNG_CLIENT_AIO_KIND_REQUEST \/ kind a = DUCKNNG_CLIENT_AIO_KIND_RECV) /\ phase a = DUCKNNG_CLIENT_AIO_PHASE_RECV /\
      m = None /\ http_handles (http a) = false /\ plain a
  | op_http => (kind a = DUCKNNG_CLIENT_AIO_KIND_REQUEST \/ kind a = DUCKNNG_CLIENT_AIO_KIND_NCURL) /\ phase a = DUCKNNG_CLIENT_AIO_PHASE_HTTP /\
      m = None /\ http_handles (http a) = true /\ plain a
  | op_stream => (kind a = DUCKNNG_CLIENT_AIO_KIND_NCURL_STREAM_OPEN /\ plain a \/
        kind a = DUCKNNG_CLIENT_AIO_KIND_NCURL_STREAM_RECV /\ http_stream_ref (strm a) = true) /\
      m = None /\ http_handles (http a) = false /\ socket_ref a = false /\ is_Some x
  end.

Definition gap_fits (g : after_cb) (a : ducknng_client_aio) (m : option bytes) (x : option shared_stream) : Prop :=
  match g with
  | cb_return => False
  | cb_recv => kind a = DUCKNNG_CLIENT_AIO_KIND_REQUEST /\ phase a = DUCKNNG_CLIENT_AIO_PHASE_RECV /\ m = None /\ http_handles (http a) = false /\ plain a
  | cb_submit _ => aio_op_fits op_stream a m x
  end.

(** A slot that is not pending any more holds nothing but its own socket, its
    context and a reply. *)
Definition slot_at_rest (a : ducknng_client_aio) (m : option bytes) : Prop :=
  m = None /\ socket_ref a = false /\ http_stream_ref (strm a) = false /\ http_handles (http a) = false.

(** What a callback leaves behind. *)
Definition left_by_cb (next : after_cb) (a : ducknng_client_aio) (m : option bytes) (x : option shared_stream) : Prop :=
  match next with
  | cb_return => pending a = false /\ slot_at_rest a m
  | _ => pending a = true /\ gap_fits next a m x
  end.

(** A reply is there only for a result. *)
Definition reply_ok (a : ducknng_client_aio) : Prop :=
  is_Some (reply_msg a) -> state a = DUCKNNG_CLIENT_AIO_READY \/ state a = DUCKNNG_CLIENT_AIO_COLLECTED.

Lemma failed_not_pending rv : failed_state rv <> DUCKNNG_CLIENT_AIO_PENDING.
Proof. unfold failed_state. by destruct (rv =? _). Qed.

Lemma pending_set st a : st <> DUCKNNG_CLIENT_AIO_PENDING -> pending (set_state st a) = false.
Proof. intros H. unfold pending. by apply bool_decide_eq_false. Qed.

(** The first critical section of the callback, for each operation. *)
Definition cb_good (c : completion) (now : Z) (o : aio_op) (x : option shared_stream) (a : ducknng_client_aio) (m : option bytes) : Prop :=
  let '(a', x', next, ev) := ducknng_client_aio_cb ducknng_nng_strerror valid_utf8 alloc c now x a in
  left_by_cb next a' (cb_leaves a c) x' /\ ev_balanced a m (nng_events o (c_rv c) ++ ev) a' (cb_leaves a c) /\ reply_ok a' /\
  (is_Some x -> is_Some x') /\ (Gave held_stream ∈ ev <-> http_stream_ref (strm a) = true /\ next = cb_return) /\
  (http_stream_ref (strm a') = true <-> http_stream_ref (strm a) = true /\ next <> cb_return) /\
  (sh_refcount <$> x' = sh_refcount <$> x).

Lemma gave_elem r b r' : Gave r ∈ gave_if b r' <-> b = true /\ r = r'.
Proof. destruct b; cbn; rewrite ?list_elem_of_singleton, ?elem_of_nil; naive_solver. Qed.

Ltac cb_cases := unfold reply_ok, slot_at_rest, left_by_cb, pending, plain; cbn; rewrite ?elem_of_cons, ?elem_of_app, ?gave_elem, ?elem_of_cons, ?elem_of_nil; repeat match goal with |- _ /\ _ => split end; cbn; decided;
  rewrite ?andb_false_r, ?andb_true_r; try done; try (by intros []); try (by auto); try naive_solver congruence.

Lemma send_cb_good c now x a m : pending a = true -> reply_msg a = None -> aio_op_fits op_send a m x ->
  nng_leaves op_send (c_rv c) m (c_msg c) -> cb_good c now op_send x a m.
Proof.
  intros Hp Hr (Hk & Hph & [b Hm] & Hh & Hpl) Hn. cbn in Hn. unfold cb_good, ducknng_client_aio_cb, plain, pending in *. rewrite Hp. cbn [negb].
  destruct a as [id k p st pr er re sr os ctx h s tm sm fm]. cbn in *. subst. unfold in_http, cb_leaves, nng_events. cbn [phase kind]. destruct (c_rv c =? 0) eqn:Erv; cbn [negb]; rewrite Hn.
  - destruct Hk as [-> | ->]; cbn; decided; cbn.
    + split; [cb_cases|]. split; [ledger|]. cb_cases.
    + split; [cb_cases|]. split; [ledger|]. cb_cases.
  - pose proof (failed_not_pending (c_rv c)). destruct Hk as [-> | ->]; cbn; decided; cbn; (split; [cb_cases|]); (split; [ledger|]); cb_cases.
Qed.

Lemma recv_cb_good c now x a m : pending a = true -> reply_msg a = None -> aio_op_fits op_recv a m x ->
  nng_leaves op_recv (c_rv c) m (c_msg c) -> cb_good c now op_recv x a m.
Proof.
  intros Hp Hr (Hk & Hph & Hm & Hh & Hpl) Hn. cbn in Hn. unfold cb_good, ducknng_client_aio_cb, plain, pending in *. rewrite Hp. cbn [negb].
  destruct a as [id k p st pr er re sr os ctx h s tm sm fm]. cbn in *. subst. unfold in_http, cb_leaves, nng_events. cbn [phase kind]. destruct (c_rv c =? 0) eqn:Erv; cbn [negb].
  - destruct Hn as [b Hn]. rewrite Hn. destruct Hk as [-> | ->]; cbn; decided; cbn; (split; [cb_cases|]); (split; [ledger|]); cb_cases.
  - rewrite Hn. pose proof (failed_not_pending (c_rv c)). destruct Hk as [-> | ->]; cbn; decided; cbn; (split; [cb_cases|]); (split; [ledger|]); cb_cases.
Qed.

Lemma http_cb_good c now x a m : pending a = true -> reply_msg a = None -> aio_op_fits op_http a m x ->
  nng_leaves op_http (c_rv c) m (c_msg c) -> cb_good c now op_http x a m.
Proof.
  intros Hp Hr (Hk & Hph & Hm & Hh & Hpl) Hn. cbn in Hn. unfold cb_good, ducknng_client_aio_cb, plain, pending in *. rewrite Hp. cbn [negb].
  destruct a as [id k p st pr er re sr os ctx h s tm sm fm]. cbn in *. subst. unfold in_http, cb_leaves, nng_events. cbn [phase kind]. rewrite Hn. destruct (c_rv c =? 0) eqn:Erv; cbn [negb].
  - destruct Hk as [-> | ->]; cbn; decided; cbn; unfold http_outcome, ducknng_client_aio_copy_http_reply_msg; cbn.
    + destruct (ducknng_http_response_copy (c_response c)) as [[[[status hd] body] len]|e]; [destruct (negb (status =? 200)); [|destruct (alloc len)]|]; cbn; rewrite Hh; (split; [cb_cases|]); (split; [ledger; by rewrite Hh|]); cb_cases.
    + destruct (ducknng_http_response_copy (c_response c)) as [[[[status hd] body] len]|e]; cbn; rewrite Hh; (split; [cb_cases|]); (split; [ledger; by rewrite Hh|]); cb_cases.
  - pose proof (failed_not_pending (c_rv c)). destruct Hk as [-> | ->]; cbn; decided; cbn; rewrite Hh; (split; [cb_cases|]); (split; [ledger; by rewrite Hh|]); cb_cases.
Qed.

Lemma open_cb_good c now x a m : pending a = true -> reply_msg a = None -> kind a = DUCKNNG_CLIENT_AIO_KIND_NCURL_STREAM_OPEN ->
  aio_op_fits op_stream a m (Some x) -> forall y, y = Some x \/ y = None -> c_msg c = m ->
  let '(a', x', next, ev) := ducknng_client_aio_cb ducknng_nng_strerror valid_utf8 alloc c now y a in
  left_by_cb next a' (cb_leaves a c) (Some x) /\ ev_balanced a m ev a' (cb_leaves a c) /\ reply_ok a' /\ ev = [] /\
  http_stream_ref (strm a') = false /\ (sh_refcount <$> x' = sh_refcount <$> y).
Proof.
  intros Hp Hr Hk ([[_ Hpl]|[Hk2 _]] & Hm & Hh & Hs & _); [|congruence]. intros y Hy Hn. unfold ducknng_client_aio_cb, plain, pending in *. rewrite Hp. cbn [negb].
  destruct a as [id k p st pr er re sr os ctx h s tm sm fm]. cbn in *. subst. unfold cb_leaves, open_cb. cbn [kind]. rewrite Hn. pose proof (failed_not_pending (c_rv c)).
  destruct Hy as [-> | ->]; cbn.
  - destruct (ducknng_http_client_stream_open_advance _ _) as [s' [[act|]|e]]; cbn; (split; [cb_cases|]); (split; [ledger|]); cb_cases.
  - (split; [cb_cases|]); (split; [ledger|]); cb_cases.
Qed.

Lemma stream_cb_good c now x a m : pending a = true -> reply_msg a = None -> kind a = DUCKNNG_CLIENT_AIO_KIND_NCURL_STREAM_RECV ->
  aio_op_fits op_stream a m (Some x) -> c_msg c = m -> cb_good c now op_stream (Some x) a m.
Proof.
  intros Hp Hr Hk ([[Hk2 _]|[_ Hpl]] & Hm & Hh & Hs & _); [congruence|]. intros Hn. unfold cb_good, ducknng_client_aio_cb, pending in *. rewrite Hp. cbn [negb].
  destruct a as [id k p st pr er re sr os ctx h s tm sm fm]. cbn in *. subst. unfold cb_leaves, recv_cb, end_recv. cbn [kind strm]. rewrite Hn, Hpl. pose proof (failed_not_pending (c_rv c)). cbn.
  destruct (ducknng_http_client_stream_recv_advance _ _ _ _) as [[s' out] [eof|act|e]]; cbn; unfold leave_stream; cbn;
    try (destruct (_ || _)%bool); try (destruct (recv_aio_id x =? id)); cbn; (split; [cb_cases|]); (split; [ledger; by rewrite Hpl|]); cb_cases.
Qed.

Lemma refused_good act rc e now x a m : pending a = true -> reply_msg a = None -> aio_op_fits op_stream a m (Some x) ->
  let '(a', y, ev) := cb_refused act rc e now (Some x) a in
  pending a' = false /\ slot_at_rest a' m /\ ev_balanced a m ev a' m /\ reply_ok a' /\ (sh_refcount <$> y = Some (sh_refcount x)) /\
  (Gave held_stream ∈ ev <-> http_stream_ref (strm a) = true) /\ reply_msg a' = None.
Proof.
  intros Hp Hr (Hk & Hm & Hh & Hs & _). unfold cb_refused, plain, pending in *. rewrite Hp. cbn [negb].
  destruct a as [id k p st pr er re sr os ctx h s tm sm fm]. cbn in *. subst. destruct Hk as [[-> Hpl]|[-> Hpl]]; cbn; decided; cbn.
  - (split; [cb_cases|]); (split; [cb_cases|]); (split; [ledger|]); cb_cases.
  - (split; [cb_cases|]); (split; [cb_cases|]); (split; [ledger; by rewrite Hpl|]). unfold leave_stream. cbn. destruct (recv_aio_id x =? id); cb_cases.
Qed.

(** ** The invariant *)

Record slot_inv (w : slot_world) : Prop := mk_slot_inv {
  si_ledger : forall r, took r (log w) = (gave r (log w) + held_by r (slot w) (aio_msg w))%nat;
  si_rest : pending (slot w) = false -> op w = None /\ gap w = None /\ slot_at_rest (slot w) (aio_msg w);
  si_busy : pending (slot w) = true -> reply_msg (slot w) = None /\ received w = [] /\ freed w = false /\
    ((exists o, op w = Some o /\ gap w = None /\ aio_op_fits o (slot w) (aio_msg w) (stream w)) \/
     (exists g, op w = None /\ gap w = Some g /\ gap_fits g (slot w) (aio_msg w) (stream w)));
  si_reply : reply_ok (slot w);
  si_life : (b2n (listed w) + b2n (taken w) + b2n (freed w) = 1)%nat;
  si_droppers : droppers w <> 0%nat -> pending (slot w) = false;
  si_frames : frames w `prefix_of` received w /\ (length (received w) <= 1)%nat /\
    (freed w = false -> received w = frames w ++ option_list (reply_msg (slot w)));
  si_refs : match stream w with
    | Some x => sh_refcount x = Z.of_nat (b2n (registered w) + b2n (http_stream_ref (strm (slot w))) + others w)
    | None => http_stream_ref (strm (slot w)) = false end;
  si_freed : freed w = true -> forall r, held_by r (slot w) (aio_msg w) = 0%nat }.

Lemma release_refs x n : sh_refcount x = Z.of_nat (S n) -> sh_refcount (ducknng_runtime_release_http_client_stream x).1 = Z.of_nat n.
Proof. intros H. cbn. rewrite H. destruct (Z.ltb_spec 0 (Z.of_nat (S n))); lia. Qed.

(** ** Launches *)

Lemma launched_inv ev a o m : (forall r, took r ev = gave r ev + held_by r a m)%nat -> reply_msg a = None -> plain a ->
  match o with Some o => pending a = true /\ aio_op_fits o a m None | None => pending a = false /\ slot_at_rest a m end -> slot_inv (launched ev a o m).
Proof.
  intros Hl Hr Hp Ho. constructor; cbn; try done.
  - intros Hn. destruct o; [naive_solver congruence|]. naive_solver.
  - intros Hn. split; [done|]. split; [done|]. split; [done|]. destruct o; [left; naive_solver|naive_solver congruence].
  - intros [? ?]. congruence.
  - split; [done|]. split; [lia|]. intros _. by rewrite Hr.
Qed.

Lemma launched_stream_inv ev a o x n : (forall r, took r ev = gave r ev + held_by r a None)%nat -> reply_msg a = None ->
  sh_refcount x = Z.of_nat (1 + b2n (http_stream_ref (strm a)) + n) ->
  match o with Some o => pending a = true /\ aio_op_fits o a None (Some x) | None => pending a = false /\ slot_at_rest a None end ->
  slot_inv (launched_stream ev a o x n).
Proof.
  intros Hl Hr Hx Ho. constructor; cbn; try done.
  - intros Hn. destruct o; [naive_solver congruence|]. naive_solver.
  - intros Hn. split; [done|]. split; [done|]. split; [done|]. destruct o; [left; naive_solver|naive_solver congruence].
  - intros [? ?]. congruence.
  - split; [done|]. split; [lia|]. intros _. by rewrite Hr.
Qed.

Lemma add_slot_ok added m a ev a' : add_slot added m a = (ev, Ok a') -> exists id, ev = [] /\ a' = set_id id a.
Proof. unfold add_slot. destruct added as [id|]; [|done]. intros [= <- <-]. by exists id. Qed.

Lemma launch_http_ok k prepared added timeout now ev a : launch_http k prepared added timeout now = (ev, Ok a) ->
  exists id, ev = [Took held_handles] /\ a = set_id id (set_http (mk_aio_http true 0 None None 0 None)
    (set_kind k DUCKNNG_CLIENT_AIO_PHASE_HTTP (ducknng_client_aio_alloc_slot timeout now))).
Proof.
  unfold launch_http. destruct prepared; [|done]. destruct (add_slot _ _ _) as [ev' r] eqn:E. intros [= <- ->].
  apply add_slot_ok in E as (id & -> & ->). by exists id.
Qed.

Lemma url_request_inv url req carrier tls prepared opened ctx_rv added timeout now ev a :
  ducknng_client_launch_url_request_aio ducknng_nng_strerror url req (Ok carrier) tls prepared opened ctx_rv added timeout now = (ev, Ok a) ->
  slot_inv (if (carrier : bool) then launched ev a (Some op_http) None else launched ev a (Some op_send) (Some req)).
Proof.
  unfold ducknng_client_launch_url_request_aio. destruct url; [|done]. destruct carrier, tls; try done.
  - destruct (launch_http _ _ _ _ _) as [ev' r] eqn:E. intros [= <- ->]. apply launch_http_ok in E as (id & -> & ->).
    apply launched_inv; [ledger|done|done|]. repeat split; auto.
  - unfold ducknng_client_prepare_url_aio. destruct opened; [|done]. destruct (negb (ctx_rv =? 0)); [done|]. unfold ducknng_client_launch_request_aio.
    destruct (add_slot _ _ _) as [ev' r] eqn:E. destruct r as [a2|]; [|done]. cbn [res_bind]. intros [= <- <-]. apply add_slot_ok in E as (id & -> & ->).
    apply launched_inv; [ledger|done|done|]. repeat split; auto; by eexists.
Qed.

Lemma prepared_raw id sock timeout now ev a : ducknng_client_prepare_socket_raw_aio id sock timeout now = (ev, Ok a) ->
  ev = [Took held_socket] /\ a = set_sockets true false false (ducknng_client_aio_alloc_slot timeout now).
Proof.
  unfold ducknng_client_prepare_socket_raw_aio. destruct (id =? 0); [done|]. destruct (negb _); [done|]. by intros [= <- <-].
Qed.

Lemma prepared_request id sock timeout now ctx_rv ev a : ducknng_client_prepare_socket_request_aio ducknng_nng_strerror id sock timeout now ctx_rv = (ev, Ok a) ->
  ev = [Took held_socket; Took held_ctx] /\ a = set_sockets true false true (ducknng_client_aio_alloc_slot timeout now).
Proof.
  unfold ducknng_client_prepare_socket_request_aio. destruct (id =? 0); [done|]. destruct sock; [|done]. destruct (_ || _)%bool; [done|]. destruct (negb _); [done|]. by intros [= <- <-].
Qed.

Lemma stream_open_inv url tls prepared stream_added added timeout now ev a x :
  ducknng_client_launch_ncurl_stream_open_aio url tls prepared stream_added added timeout now = (ev, Ok (a, x)) ->
  slot_inv (launched_stream ev a (Some op_stream) x 0).
Proof.
  unfold ducknng_client_launch_ncurl_stream_open_aio. destruct (negb _); [done|]. destruct tls, prepared, stream_added; try done.
  destruct (add_slot _ _ _) as [ev' r] eqn:E. destruct r as [a9|]; [|done]. cbn [res_bind ducknng_http_client_stream_submit]. intros [= <- <- <-]. apply add_slot_ok in E as (id & -> & ->).
  apply launched_stream_inv; [ledger|done|done|]. split; [done|]. split; [by left|]. repeat split; by eexists.
Qed.

Lemma end_recv_rest rv st e now a : st <> DUCKNNG_CLIENT_AIO_PENDING -> socket_ref a = false -> http_handles (http a) = false ->
  pending (end_recv rv st e now a) = false /\ slot_at_rest (end_recv rv st e now a) None.
Proof. intros Hst Hs Hh. unfold end_recv, slot_at_rest, pending. cbn. rewrite bool_decide_eq_false_2 by done. auto. Qed.

Lemma stream_recv_inv stream_id max_bytes timeout now x added x' ev a y (submitted : bool) n :
  ducknng_client_launch_ncurl_stream_recv_aio stream_id max_bytes timeout now x added x' = (ev, Ok (a, y, submitted)) ->
  option_map sh_refcount x' = Some (2 + Z.of_nat n) ->
  slot_inv (launched_stream ev a (if submitted then Some op_stream else None) y n).
Proof.
  unfold ducknng_client_launch_ncurl_stream_recv_aio. intros H Hx. destruct (reserve_stream _ _ _); [|done]. destruct added as [id|]; [|done].
  destruct x' as [x'|]; [|done]. cbn in Hx. injection Hx as Hx. unfold begin_recv in H. destruct (negb _); [done|].
  destruct (ducknng_http_client_stream_recv_begin _ _) as [[s out] r]. assert (sh_refcount x' = Z.of_nat (S (1 + n))) as Hx2 by lia.
  destruct r as [eof|act|e].
  - injection H as <- <- <- <-. apply launched_stream_inv; [ledger|done| |by apply end_recv_rest]. cbn. destruct (Z.ltb_spec 0 (sh_refcount x')); lia.
  - destruct (ducknng_http_client_stream_submit _ _) as [s'|e]; cbn in H.
    + injection H as <- <- <- <-. apply launched_stream_inv; [ledger|done|cbn; lia|]. split; [done|]. split; [by right|]. repeat split; by eexists.
    + injection H as <- <- <- <-. apply launched_stream_inv; [ledger|done| |by apply end_recv_rest]. unfold leave_stream. destruct (_ =? _); cbn; destruct (Z.ltb_spec 0 (sh_refcount x')); lia.
  - injection H as <- <- <- <-. apply launched_stream_inv; [ledger|done| |by apply end_recv_rest]. cbn. destruct (Z.ltb_spec 0 (sh_refcount x')); lia.
Qed.

Lemma initial_inv w : initial w -> slot_inv w.
Proof.
  intros []; [by eapply url_request_inv|..|by eapply stream_open_inv|by eapply stream_recv_inv].
  - apply prepared_request in H as [-> ->]. unfold ducknng_client_launch_request_aio in H0. destruct (add_slot _ _ _) as [e r] eqn:E. destruct r; [|done].
    injection H0 as <- <-. apply add_slot_ok in E as (i & -> & ->). apply launched_inv; [ledger|done|done|]. repeat split; auto; by eexists.
  - apply prepared_raw in H as [-> ->]. unfold ducknng_client_launch_socket_send_aio in H0. destruct (add_slot _ _ _) as [e r] eqn:E. destruct r; [|done].
    injection H0 as <- <-. apply add_slot_ok in E as (i & -> & ->). apply launched_inv; [ledger|done|done|]. repeat split; auto; by eexists.
  - apply prepared_raw in H as [-> ->]. unfold ducknng_client_launch_socket_recv_aio in H0. destruct (add_slot _ _ _) as [e r] eqn:E. destruct r; [|done].
    injection H0 as <- <-. apply add_slot_ok in E as (i & -> & ->). apply launched_inv; [ledger|done|done|]. repeat split; auto.
  - unfold ducknng_client_launch_ncurl_aio in H. destruct (negb _); [done|]. destruct tls; [|done]. apply launch_http_ok in H as (i & -> & ->).
    apply launched_inv; [ledger|done|done|]. repeat split; auto.
  - unfold ducknng_client_add_terminal_error_aio in H. apply add_slot_ok in H as (i & -> & ->). apply launched_inv; [ledger|done|done|]. by repeat split.
Qed.

(** ** Every step keeps it *)

Lemma ledger_step a m ev a' m' (l : list aio_event) : ev_balanced a m ev a' m' -> (forall r, took r l = gave r l + held_by r a m)%nat ->
  (forall r, took r (l ++ ev) = gave r (l ++ ev) + held_by r a' m')%nat.
Proof. intros Hb Hl r. rewrite took_app, gave_app. specialize (Hb r). specialize (Hl r). lia. Qed.

(** The state after a callback's section, from what the section did. *)
Lemma after_section w a' next m' ev x' dropped rcv : slot_inv w -> pending (slot w) = true ->
  left_by_cb next a' m' (stream (put_slot_stream x' dropped w)) -> ev_balanced (slot w) (aio_msg w) ev a' m' -> reply_ok a' ->
  rcv = option_list (reply_msg a') ->
  match stream (put_slot_stream x' dropped w) with
  | Some x => sh_refcount x = Z.of_nat (b2n (registered w) + b2n (http_stream_ref (strm a')) + others w)
  | None => http_stream_ref (strm a') = false end ->
  slot_inv (set_frames (received w ++ rcv) (frames w)
    (set_op None m' (match next with cb_return => None | _ => Some next end) (put_slot_stream x' dropped (logged ev (set_slot a' w))))).
Proof.
  intros [H1 H2 H3 H4 H5 H6 H7 H8 H9] Hp Hl Hb Hr -> Hx. destruct (H3 Hp) as (Hr0 & Hrc & Hf & _). destruct H7 as (Hpre & Hlen & Hfr). specialize (Hfr Hf). rewrite Hrc, Hr0 in *.
  assert (frames w = []) as Hfw by (destruct (frames w); [done|by destruct Hpre as [? ?]]).
  assert (droppers w = 0%nat) as Hd by (destruct (droppers w); [done|]; specialize (H6 ltac:(done)); congruence).
  assert (reply_msg a' <> None -> next = cb_return) as Hnext.
  { intros Hm. destruct next; [done|..]; cbn in Hl; destruct Hl as [Hpa _]; unfold pending in Hpa; btests; destruct Hr as [E|E]; try congruence; destruct (reply_msg a'); [by eexists|done| by eexists|done]. }
  destruct x' as [x'|]; constructor; cbn in *; rewrite ?Hd; try done; try (by eapply ledger_step).
  all: try (intros Hpa; destruct next; cbn in Hl; destruct Hl as [Hl1 Hl2]; [done|congruence|congruence]).
  all: try (intros Hpa; destruct next as [|act|]; cbn in Hl; destruct Hl as [Hl1 Hl2]; [congruence| |];
    (split; [destruct (reply_msg a'); [specialize (Hnext ltac:(done)); congruence|done]|]);
    (split; [destruct (reply_msg a'); [specialize (Hnext ltac:(done)); congruence|done]|]); (split; [done|]); right; eauto).
  all: try (intros Hfd; congruence).
  all: rewrite Hfw; (split; [apply prefix_nil|]); (split; [by destruct (reply_msg a'); cbn; lia|done]).
Qed.

Lemma left_by_cb_stream next a m x y : (is_Some x -> is_Some y) -> left_by_cb next a m x -> left_by_cb next a m y.
Proof. intros H. destruct next; cbn; naive_solver. Qed.

(** The reference counts after a section that saw the slot's own stream. *)
Lemma section_refs w x' (b : bool) (ref : bool) : slot_inv w -> sh_refcount <$> x' = sh_refcount <$> stream w ->
  (b = true -> http_stream_ref (strm (slot w)) = true) -> ref = (http_stream_ref (strm (slot w)) && negb b)%bool ->
  match stream (put_slot_stream x' b w) with
  | Some x => sh_refcount x = Z.of_nat (b2n (registered w) + b2n ref + others w)
  | None => ref = false end.
Proof.
  intros [_ _ _ _ _ _ _ H _] Hx Hb ->. destruct x' as [x'|], (stream w) as [x|] eqn:Es; cbn in *; try done; [|by rewrite Es, H].
  injection Hx as Hx. destruct b; cbn [negb]; rewrite ?andb_true_r, ?andb_false_r.
  - specialize (Hb eq_refl). rewrite Hb in H. cbn in H |- *. rewrite Hx. destruct (Z.ltb_spec 0 (sh_refcount x)); lia.
  - by rewrite Hx.
Qed.

Lemma complete_good w c now o : slot_inv w -> pending (slot w) = true -> stream w = visible_stream w -> cb_good c now o (stream w) (slot w) (aio_msg w) ->
  slot_inv (complete c now o w).
Proof.
  intros Hi Hp Hv Hg. unfold complete. unfold cb_good in Hg. rewrite Hv in Hg. destruct (ducknng_client_aio_cb _ _ _ _ _ _ _) as [[[a' x'] next] ev].
  destruct Hg as (Hl & Hb & Hr & Hx & Hd & Hs & Hc). destruct (si_busy w Hi Hp) as (Hr0 & _ & _ & _). rewrite Hr0.
  apply (after_section w a' next (cb_leaves (slot w) c)); try done.
  - eapply left_by_cb_stream; [|done]. destruct x' as [x'|]; cbn; [by eexists|]. by intros [].
  - apply section_refs; [done|by rewrite Hv| |].
    + intros E. btests. by apply Hd.
    + destruct (bool_decide (Gave held_stream ∈ ev)) eqn:E; btests.
      * apply Hd in E as [E1 E2]. rewrite E1. cbn. destruct (http_stream_ref (strm a')); [|done]. by destruct (proj1 Hs eq_refl).
      * cbn. rewrite andb_true_r. destruct (http_stream_ref (strm a')) eqn:E1; [by destruct (proj1 Hs eq_refl) as [-> _]|].
        destruct (http_stream_ref (strm (slot w))) eqn:E2; [|done]. destruct next; naive_solver.
Qed.

Lemma complete_inv w c now o : slot_inv w -> op w = Some o -> nng_leaves o (c_rv c) (aio_msg w) (c_msg c) -> slot_inv (complete c now o w).
Proof.
  intros Hi Ho Hn. assert (pending (slot w) = true) as Hp.
  { destruct (pending (slot w)) eqn:E; [done|]. destruct (si_rest w Hi E) as [? _]. congruence. }
  destruct (si_busy w Hi Hp) as (Hr & Hrc & Hf & [(o' & Ho' & _ & Hfit)|(g & Ho' & _)]); [|congruence]. assert (o' = o) as -> by congruence.
  destruct o.
  - assert (stream w = visible_stream w) as Hv by (unfold visible_stream; destruct Hfit as [[-> | ->] _]; done). apply complete_good; try done. by apply send_cb_good.
  - assert (stream w = visible_stream w) as Hv by (unfold visible_stream; destruct Hfit as [[-> | ->] _]; done). apply complete_good; try done. by apply recv_cb_good.
  - assert (stream w = visible_stream w) as Hv by (unfold visible_stream; destruct Hfit as [[-> | ->] _]; done). apply complete_good; try done. by apply http_cb_good.
  - pose proof Hfit as (Hk & Hm & Hh & Hs & [x Hx]). rewrite Hx in Hfit. destruct Hk as [[Hk Hpl]|[Hk Hpl]].
    + pose proof (open_cb_good c now x (slot w) (aio_msg w) Hp Hr Hk Hfit (visible_stream w)) as Hg. unfold complete. rewrite Hr.
      destruct (ducknng_client_aio_cb _ _ _ _ _ _ _) as [[[a' x'] next] ev].
      destruct Hg as (Hl & Hb & Hro & -> & Href & Hcnt); [unfold visible_stream; rewrite Hk, Hx; destruct (registered w); auto|by cbn in Hn|].
      apply (after_section w a' next (cb_leaves (slot w) c)); try done.
      * eapply left_by_cb_stream; [|done]. destruct x'; cbn; [by eexists|]. rewrite Hx. by eexists.
      * unfold visible_stream in Hcnt. rewrite Hk in Hcnt. rewrite bool_decide_eq_false_2 by apply not_elem_of_nil. rewrite Href. destruct x' as [x'|].
        -- destruct (registered w) eqn:Ereg; [|done]. pose proof (section_refs w (Some x') false false Hi Hcnt ltac:(done)) as Hsr. cbn in Hsr. rewrite Ereg in Hsr. unfold plain in Hpl. rewrite Hpl in Hsr. by apply Hsr.
        -- cbn. rewrite Hx. pose proof (si_refs w Hi) as Hrefs. unfold plain in Hpl. by rewrite Hx, Hpl in Hrefs.
    + assert (stream w = visible_stream w) as Hv by (unfold visible_stream; by rewrite Hk). apply complete_good; try done. rewrite Hx. by apply stream_cb_good.
Qed.

Lemma continue_inv w now : slot_inv w -> gap w <> None -> slot_inv (continue now w).
Proof.
  intros Hi Hg. assert (pending (slot w) = true) as Hp.
  { destruct (pending (slot w)) eqn:E; [done|]. destruct (si_rest w Hi E) as (_ & ? & _). congruence. }
  pose proof Hi as [H1 H2 H3 H4 H5 H6 H7 H8 H9]. destruct (H3 Hp) as (Hr & Hrc & Hf & [(o & _ & ? & _)|(g & Ho & Eg & Hfit)]); [congruence|]. unfold continue. rewrite Eg.
  destruct g as [|act|]; [done| |].
  - pose proof Hfit as (Hk & Hm & Hh & Hs & [x Hx]). rewrite Hx in *. destruct (cb_submission _ _ _ _) as [s|[rc e]].
    + constructor; cbn; try done. { intros E. congruence. } intros _. split; [done|]. split; [done|]. split; [done|]. left. exists op_stream. split; [done|]. split; [done|].
      repeat split; try done; by eexists.
    + cbn in Hfit. pose proof (refused_good act rc e now x (slot w) (aio_msg w) Hp Hr Hfit) as Hg2. destruct (cb_refused _ _ _ _ _ _) as [[a' y] ev].
      destruct Hg2 as (Hp' & Hrest & Hb & Hro & Hy & Hd & Hr').
      assert (slot_inv (set_frames (received w ++ option_list (reply_msg a')) (frames w) (set_op None (aio_msg w) None
        (put_slot_stream y (bool_decide (Gave held_stream ∈ ev)) (logged ev (set_slot a' w)))))) as Hs2.
      { apply (after_section w a' cb_return (aio_msg w)); try done. apply section_refs; [done|by rewrite Hx| |].
        - intros E. btests. by apply Hd.
        - destruct Hrest as (_ & _ & -> & _). destruct (http_stream_ref (strm (slot w))) eqn:E; [|done]. by rewrite bool_decide_eq_true_2 by (by apply Hd). }
      rewrite Hr', app_nil_r in Hs2. destruct y; [|done]. exact Hs2.
  - cbn in Hfit. destruct Hfit as (Hk & Hph & Hm & Hh & Hpl). replace (set_op (Some op_recv) None None w) with (set_op (Some op_recv) (aio_msg w) None w) by (by rewrite Hm).
    constructor; cbn; try done. { intros E. congruence. } intros _. split; [done|]. split; [done|]. split; [done|]. left. exists op_recv. rewrite Hm. repeat split; auto.
Qed.

(** A slot at rest is changed by a collector. *)
Lemma collected_inv w a' ev fr : slot_inv w -> listed w = true -> pending (slot w) = false -> pending a' = false -> slot_at_rest a' (aio_msg w) ->
  ev_balanced (slot w) (aio_msg w) ev a' (aio_msg w) -> reply_ok a' -> frames w ++ option_list (reply_msg (slot w)) = fr ++ option_list (reply_msg a') ->
  slot_inv (logged ev (set_frames (received w) fr (set_slot a' w))).
Proof.
  intros [H1 H2 H3 H4 H5 H6 H7 H8 H9] Hl Hp Hp' Hrest Hb Hr Hfr. destruct (H2 Hp) as (Ho & Hg & Hrest0). assert (freed w = false) as Hf by (rewrite Hl in H5; destruct (taken w), (freed w); cbn in H5; lia || done).
  destruct H7 as (_ & Hlen & Heq). specialize (Heq Hf). constructor; cbn; try done.
  - by eapply ledger_step.
  - congruence.
  - rewrite Heq, Hfr. split; [by eexists|]. split; [rewrite <- Hfr, <- Heq; done|done].
  - destruct Hrest as (_ & _ & -> & _). destruct Hrest0 as (_ & _ & Hs & _). by rewrite Hs in H8.
  - congruence.
Qed.

Lemma set_slot_same w a : set_slot a w = logged [] (set_frames (received w) (frames w) (set_slot a w)).
Proof. destruct w. unfold logged. cbn. by rewrite app_nil_r. Qed.

(** Marking a slot as collected. *)
Lemma marked_inv w a' : slot_inv w -> listed w = true -> pending (slot w) = false -> state a' = DUCKNNG_CLIENT_AIO_COLLECTED \/ a' = slot w ->
  (forall r, held_by r a' (aio_msg w) = held_by r (slot w) (aio_msg w)) -> reply_msg a' = reply_msg (slot w) -> slot_inv (set_slot a' w).
Proof.
  intros Hi Hl Hp Hst Hh Hr. destruct Hst as [Hst| ->]; [|by destruct w]. rewrite set_slot_same. destruct (si_rest w Hi Hp) as (_ & _ & (Hm & Hs1 & Hs2 & Hs3)). pose proof (Hh held_socket) as Q1. pose proof (Hh held_stream) as Q2. pose proof (Hh held_handles) as Q3. cbn in Q1, Q2, Q3.
  rewrite Hs1 in Q1. rewrite Hs2 in Q2. rewrite Hs3 in Q3.
  apply collected_inv; try done.
  - unfold pending. by rewrite Hst.
  - repeat split; [done|by destruct (socket_ref a')|by destruct (http_stream_ref (strm a'))|by destruct (http_handles (http a'))].
  - intros r. rewrite Hh, took_nil, gave_nil. lia.
  - intros _. by right.
  - by rewrite Hr.
Qed.

Lemma mark_collected_state a : state (mark_collected a) = DUCKNNG_CLIENT_AIO_COLLECTED \/ mark_collected a = a.
Proof. unfold mark_collected. destruct (collectable a); [by left|by right]. Qed.

Lemma collectable_not_pending a : collectable a = true -> pending a = false.
Proof. unfold collectable, pending. by destruct (state a). Qed.

Lemma idle_rest w : slot_inv w -> op w = None -> gap w = None -> pending (slot w) = false.
Proof.
  intros Hi Ho Hg. destruct (pending (slot w)) eqn:E; [|done]. destruct (si_busy w Hi E) as (_ & _ & _ & [(o & ? & _)|(g & _ & ? & _)]); congruence.
Qed.

Lemma destroy_inv w : slot_inv w -> taken w = true -> op w = None -> gap w = None -> slot_inv (destroy_slot w).
Proof.
  intros Hi Ht Ho Hg. pose proof (idle_rest w Hi Ho Hg) as Hp. pose proof Hi as [H1 H2 H3 H4 H5 H6 H7 H8 H9]. destruct (H2 Hp) as (_ & _ & (Hm & Hs1 & Hs2 & Hs3)).
  unfold destroy_slot. rewrite Hs2. constructor; cbn; try done.
  - intros r. specialize (H1 r). rewrite took_app, gave_app. unfold destroy_releases. rewrite Hs1, Hs2, Hs3, Hm in *. cbn [gave_if]. repeat progress rewrite ?took_app, ?gave_app, ?took_gave_if, ?gave_gave_if, ?took_nil, ?gave_nil.
    destruct r; cbn in *; rewrite ?Hs1, ?Hs2, ?Hs3 in H1; cbn in H1; decided; rewrite ?andb_false_r, ?andb_true_r; cbn; try lia.
  - unfold pending in *. cbn. congruence.
  - by intros [].
  - destruct H7 as (? & ? & _). done.
  - destruct (destroy_drops_stream (slot w) && registered w)%bool eqn:E; cbn [negb]; rewrite ?andb_true_r, ?andb_false_r; destruct (stream w) as [x|]; try done; rewrite ?Hs2 in H8; [|done].
    apply andb_true_iff in E as [_ E]. rewrite E in H8. cbn in *. rewrite H8. destruct (Z.ltb_spec 0 (Z.of_nat (S (others w)))); lia.
  - by intros _ [].
Qed.

Lemma life_inv w l d t f : slot_inv w -> (b2n l + b2n t + b2n f = 1)%nat -> f = freed w -> (d <> 0%nat -> pending (slot w) = false) -> slot_inv (set_life l d t f w).
Proof. intros [H1 H2 H3 H4 H5 H6 H7 H8 H9] Hn -> Hd. by constructor. Qed.

Lemma stream_inv w x reg n : slot_inv w -> is_Some (stream w) -> sh_refcount x = Z.of_nat (b2n reg + b2n (http_stream_ref (strm (slot w))) + n) ->
  slot_inv (set_stream_of (Some x) reg n w).
Proof.
  intros [H1 H2 H3 H4 H5 H6 H7 H8 H9] [y Hy] Hx. constructor; cbn; try done. intros Hp. destruct (H3 Hp) as (? & ? & ? & Hb). split; [done|]. split; [done|]. split; [done|].
  destruct Hb as [(o & ? & ? & Hf)|(g & ? & ? & Hf)]; [left; exists o|right; exists g]; (split; [done|]); (split; [done|]).
  - destruct o; cbn in *; try done. repeat split; try naive_solver.
  - destruct g; cbn in *; try done. repeat split; try naive_solver.
Qed.

Lemma mark_collected_pending a : pending a = false -> pending (mark_collected a) = false.
Proof. unfold mark_collected. by destruct (collectable a). Qed.

Lemma collect_row_inv w row a ev : slot_inv w -> listed w = true -> ducknng_aio_collect_row_scalar (slot w) = Some (row, a, ev) ->
  slot_inv (logged ev (set_frames (received w) (frames w ++ option_list (cr_frame row)) (set_slot a w))).
Proof.
  intros Hi Hl. unfold ducknng_aio_collect_row_scalar. destruct (pending (slot w)) eqn:Ep; [done|]. intros [= <- <- <-]. cbn [cr_frame].
  destruct (si_rest w Hi Ep) as (_ & _ & (Hm & Hs1 & Hs2 & Hs3)). pose proof (si_reply w Hi) as Hr. unfold reply_ok in Hr.
  assert (holds_reply (slot w) = bool_decide (is_Some (reply_msg (slot w)))) as ->.
  { unfold holds_reply. destruct (reply_msg (slot w)); [destruct Hr as [-> | ->]; [by eexists|done|done]|by destruct (state (slot w))]. }
  destruct (reply_msg (slot w)) as [m|] eqn:Er; decided.
  - apply collected_inv; try done.
    + by apply mark_collected_pending.
    + unfold mark_collected, slot_at_rest. by destruct (collectable _).
    + unfold mark_collected, ev_balanced. destruct (collectable _); ledger; by rewrite Er.
    + unfold mark_collected, reply_ok. destruct (collectable _); by intros [].
    + rewrite Er. unfold mark_collected. destruct (collectable _); cbn; by rewrite app_nil_r.
  - apply collected_inv; try done.
    + by apply mark_collected_pending.
    + unfold mark_collected, slot_at_rest. by destruct (collectable _).
    + unfold mark_collected, ev_balanced. destruct (collectable _); ledger; by rewrite Er.
    + unfold mark_collected, reply_ok. destruct (collectable _); cbn; rewrite Er; by intros [].
    + rewrite Er. unfold mark_collected. destruct (collectable _); cbn; rewrite Er; cbn; by rewrite !app_nil_r.
Qed.

Lemma step_inv w w' : step w w' -> slot_inv w -> slot_inv w'.
Proof.
  intros Hs Hi. destruct Hs as [c now o w Ho Hn|now w Hg|w row a ev Hl Hc|w row a Hl Hc|w row a Hl Hc|w row a Hl Hc|w Hl Hp|w n Hd|w Hl|w Ht Ho Hg|w x s Hx|w x Hx Hr|w x n Hx Hn|w x Hx Hr].
  - by apply complete_inv.
  - by apply continue_inv.
  - by eapply collect_row_inv.
  - unfold ducknng_ncurl_aio_collect_row_scalar in Hc. destruct (negb _ || _)%bool eqn:E; [done|]. injection Hc as <- <-. apply orb_false_iff in E as [_ E].
    apply marked_inv; try done; [apply mark_collected_state|..]; unfold mark_collected; by destruct (collectable (slot w)).
  - unfold ducknng_ncurl_stream_open_aio_collect_row_scalar in Hc. destruct (negb _ || _)%bool eqn:E; [done|]. injection Hc as <- <-. apply orb_false_iff in E as [_ E]. apply negb_false_iff, collectable_not_pending in E.
    apply marked_inv; try done. by left.
  - unfold ducknng_ncurl_stream_recv_aio_collect_row_scalar in Hc. destruct (negb _ || _)%bool eqn:E; [done|]. injection Hc as <- <-. apply orb_false_iff in E as [_ E]. apply negb_false_iff, collectable_not_pending in E.
    apply marked_inv; try done. by left.
  - apply life_inv; try done. apply (si_life w Hi).
  - apply life_inv; try done; [|intros _; apply (si_droppers w Hi); by rewrite Hd]. pose proof (si_life w Hi) as H5. destruct (listed w), (taken w), (freed w); cbn in *; lia.
  - apply life_inv; try done; [|apply (si_droppers w Hi)]. pose proof (si_life w Hi) as H5. rewrite Hl in H5. destruct (taken w), (freed w); cbn in *; lia.
  - by apply destroy_inv.
  - apply stream_inv; [done|by rewrite Hx|]. pose proof (si_refs w Hi) as Hr. by rewrite Hx in Hr.
  - apply stream_inv; [done|by rewrite Hx|]. pose proof (si_refs w Hi) as Hr2. rewrite Hx, Hr in Hr2. cbn in *. lia.
  - apply stream_inv; [done|by rewrite Hx|]. pose proof (si_refs w Hi) as Hr2. rewrite Hx, Hn in Hr2. apply release_refs. rewrite Hr2. f_equal. lia.
  - apply stream_inv; [done|by rewrite Hx|]. pose proof (si_refs w Hi) as Hr2. rewrite Hx, Hr in Hr2. apply release_refs. rewrite Hr2. f_equal.
Qed.

Lemma reachable_slot_inv w : slot_reachable w -> slot_inv w.
Proof. intros (w0 & H0 & Hs). apply initial_inv in H0. induction Hs as [|w1 w2 w3 H1 _ IH]; [done|]. apply IH. by eapply step_inv. Qed.

(** What a slot reports of its operation. *)
Definition outcome_of (a : ducknng_client_aio) : Z * ducknng_client_aio_kind * option bytes * aio_progress := (aio_id a, kind a, error a, progress a).

Lemma mark_outcome a : outcome_of (mark_collected a) = outcome_of a /\ (state (mark_collected a) = state a \/ state (mark_collected a) = DUCKNNG_CLIENT_AIO_COLLECTED).
Proof. unfold mark_collected. destruct (collectable a); auto. Qed.

Lemma rest_steps w w' : slot_inv w -> step w w' -> pending (slot w) = false ->
  outcome_of (slot w') = outcome_of (slot w) /\ (state (slot w') = state (slot w) \/ state (slot w') = DUCKNNG_CLIENT_AIO_COLLECTED).
Proof.
  intros Hi Hs Hp. destruct (si_rest w Hi Hp) as (Ho & Hg & _).
  destruct Hs as [c now o w Ho' Hn|now w Hg'|w row a ev Hl Hc|w row a Hl Hc|w row a Hl Hc|w row a Hl Hc|w Hl Hp'|w n Hd|w Hl|w Ht Ho' Hg'|w x s Hx|w x Hx Hr|w x n Hx Hn|w x Hx Hr]; cbn; try congruence; try (by auto).
  - unfold ducknng_aio_collect_row_scalar in Hc. rewrite Hp in Hc. injection Hc as _ <- _. destruct (holds_reply (slot w)); [apply (mark_outcome (set_reply None (slot w)))|apply mark_outcome].
  - unfold ducknng_ncurl_aio_collect_row_scalar in Hc. destruct (negb _ || _)%bool; [done|]. injection Hc as _ <-. apply mark_outcome.
  - unfold ducknng_ncurl_stream_open_aio_collect_row_scalar in Hc. destruct (negb _ || _)%bool; [done|]. injection Hc as _ <-. auto.
  - unfold ducknng_ncurl_stream_recv_aio_collect_row_scalar in Hc. destruct (negb _ || _)%bool; [done|]. injection Hc as _ <-. auto.
Qed.

(** C29. An asynchronous operation gives back exactly what it took, under every
    interleaving of NNG's callback, collectors, droppers, the close of its
    stream and the end of the runtime.  At any time each reference on a socket
    or a stream, each socket and context of its own, each set of HTTP handles and
    each message was given back as often as it was taken, less what the slot
    holds; a slot that has a result holds no socket reference, stream reference
    or HTTP handles; a freed slot holds nothing; and the stream of a read that
    is pending is not destroyed. *)
Theorem slot_resources w : slot_reachable w ->
  (forall r, took r (log w) = gave r (log w) + held_by r (slot w) (aio_msg w))%nat /\
  (pending (slot w) = false -> held_by held_socket (slot w) (aio_msg w) = 0%nat /\ held_by held_stream (slot w) (aio_msg w) = 0%nat /\
    held_by held_handles (slot w) (aio_msg w) = 0%nat) /\
  (freed w = true -> forall r, took r (log w) = gave r (log w)) /\
  (http_stream_ref (strm (slot w)) = true -> exists x, stream w = Some x /\ 0 < sh_refcount x).
Proof.
  intros Hr. apply reachable_slot_inv in Hr as [H1 H2 H3 H4 H5 H6 H7 H8 H9]. split; [done|]. split; [|split].
  - intros Hp. destruct (H2 Hp) as (_ & _ & (_ & E1 & E2 & E3)). cbn. by rewrite E1, E2, E3.
  - intros Hf r. rewrite H1, (H9 Hf r). lia.
  - intros E. rewrite E in H8. destruct (stream w) as [x|]; [|done]. exists x. split; [done|]. cbn in H8. lia.
Qed.

(** C30. The result of an asynchronous operation is final and is handed out once.
    As long as the slot is pending, NNG works on it or its callback runs, one of
    the two, so no slot stays pending for want of work.  Once it has a result, no step
    changes its error or its results: collectors only mark it.  At most one reply
    arrives; a frame is handed to collectors only if it is that reply, at most
    once, and after any collection the reply has been handed out. *)
Theorem slot_outcome w : slot_reachable w ->
  (pending (slot w) = true -> freed w = false /\ (is_Some (op w) /\ gap w = None \/ op w = None /\ is_Some (gap w))) /\
  (pending (slot w) = false -> forall w', step w w' ->
    outcome_of (slot w') = outcome_of (slot w) /\ (state (slot w') = state (slot w) \/ state (slot w') = DUCKNNG_CLIENT_AIO_COLLECTED)) /\
  (length (received w) <= 1)%nat /\ frames w `prefix_of` received w /\
  (forall row a ev, listed w = true -> ducknng_aio_collect_row_scalar (slot w) = Some (row, a, ev) -> frames w ++ option_list (cr_frame row) = received w).
Proof.
  intros Hr. apply reachable_slot_inv in Hr as Hi. pose proof Hi as [H1 H2 H3 H4 H5 H6 (H7a & H7b & H7c) H8 H9]. split; [|split; [|split; [done|split; [done|]]]].
  - intros Hp. destruct (H3 Hp) as (_ & _ & Hf & Hb). split; [done|]. destruct Hb as [(o & -> & -> & _)|(g & -> & -> & _)]; [left|right]; split; done || by eexists.
  - intros Hp w' Hs. by apply rest_steps.
  - intros row a ev Hl Hc. pose proof (collect_row_inv w row a ev Hi Hl Hc) as Hi'. destruct (si_frames _ Hi') as (_ & _ & Hfr). cbn in Hfr.
    assert (freed w = false) as Hf by (rewrite Hl in H5; destruct (taken w), (freed w); cbn in H5; lia || done). specialize (Hfr Hf). rewrite Hfr.
    unfold ducknng_aio_collect_row_scalar in Hc. destruct (pending (slot w)) eqn:Ep; [done|]. injection Hc as <- <- <-. cbn [cr_frame].
    assert (reply_msg (mark_collected (if holds_reply (slot w) then set_reply None (slot w) else slot w)) = None) as ->; [|by rewrite app_nil_r].
    assert (forall b, reply_msg (mark_collected b) = reply_msg b) as Hmk by (intros b; unfold mark_collected; by destruct (collectable b)).
    rewrite Hmk. unfold holds_reply, reply_ok in *. destruct (reply_msg (slot w)) eqn:Er; [destruct H4 as [-> | ->]; [by eexists|done|done]|]. destruct (state (slot w)); cbn; done.
Qed.

End steps.

(** ** Runs *)

Definition demo_strerror (rv : Z) : bytes := lit "error".
Definition demo_report : open_report := mk_report 0 [] true (Some (lit "GET")) 200 (Ok tt) None None.
Definition demo_socket : option socket_view := Some (mk_view true true false (Some (lit "req"))).

Definition run_complete (c : completion) (o : aio_op) (w : slot_world) : slot_world := complete demo_strerror (fun _ => true) (fun _ => true) c 5 o w.

Lemma run_step c o w : op w = Some o -> nng_leaves o (c_rv c) (aio_msg w) (c_msg c) ->
  step demo_strerror (fun _ => true) (fun _ => true) w (run_complete c o w).
Proof. apply step_complete. Qed.

(** A request on a socket: sent, answered, collected. *)
Definition demo_request : slot_world :=
  let a := set_sockets true false true (ducknng_client_aio_alloc_slot 0 1) in
  launched [Took held_msg; Took held_socket; Took held_ctx] (set_kind DUCKNNG_CLIENT_AIO_KIND_REQUEST DUCKNNG_CLIENT_AIO_PHASE_SEND (set_id 7 a))
    (Some op_send) (Some [1; 2]).
Definition demo_sent : slot_world := run_complete (mk_completion 0 None [] None demo_report) op_send demo_request.
Definition demo_waiting : slot_world := continue 6 demo_sent.
Definition demo_answered : slot_world := run_complete (mk_completion 0 (Some [9]) [] None demo_report) op_recv demo_waiting.

Lemma demo_slot_reachable : slot_reachable demo_strerror (fun _ => true) (fun _ => true) demo_answered.
Proof.
  exists demo_request. split.
  { exact (init_socket_request demo_strerror 3 demo_socket [1; 2] (Ok 7) 0 1 0 [Took held_socket; Took held_ctx] _ [] _ eq_refl eq_refl). }
  unfold demo_answered. eapply rtc_l; [apply (run_step (mk_completion 0 None [] None demo_report) op_send demo_request); reflexivity|].
  fold demo_sent. eapply rtc_l; [apply (step_continue _ _ _ 6 demo_sent); vm_compute; discriminate|].
  fold demo_waiting. apply rtc_once, run_step; [reflexivity|]. by exists [9].
Qed.

Lemma slot_resources_witness : pending (slot demo_answered) = false /\ took held_socket (log demo_answered) = gave held_socket (log demo_answered).
Proof.
  split; [reflexivity|]. destruct (slot_resources demo_strerror (fun _ => true) (fun _ => true) demo_answered demo_slot_reachable) as (H & Hrest & _).
  destruct (Hrest eq_refl) as (E & _). rewrite (H held_socket), E. lia.
Defined.

Lemma slot_outcome_witness : exists row a ev, ducknng_aio_collect_row_scalar (slot demo_answered) = Some (row, a, ev) /\ option_list (cr_frame row) = [[9]].
Proof.
  destruct (ducknng_aio_collect_row_scalar (slot demo_answered)) as [[[row a] ev]|] eqn:E; [|discriminate E]. exists row, a, ev. split; [reflexivity|].
  destruct (slot_outcome demo_strerror (fun _ => true) (fun _ => true) demo_answered demo_slot_reachable) as (_ & _ & _ & _ & H). exact (H row a ev eq_refl E).
Defined.

(** The callback that opens a stream holds no reference on it: the stream may
    be closed, and so destroyed, between its two critical sections. *)
Definition fresh_stream : shared_stream :=
  mk_shared (mk_stream 0 (mk_framing DUCKNNG_HTTP_STREAM_BODY_NONE 0 DUCKNNG_HTTP_STREAM_CHUNK_SIZE 0 [] false 0) []
    DUCKNNG_HTTP_STREAM_OPEN_CONNECT false false false false false) 0 1.
Definition demo_open : slot_world :=
  launched_stream [] (set_id 7 (set_strm (mk_aio_stream 1 false false false)
    (set_kind DUCKNNG_CLIENT_AIO_KIND_NCURL_STREAM_OPEN DUCKNNG_CLIENT_AIO_PHASE_HTTP (ducknng_client_aio_alloc_slot 0 1)))) (Some op_stream) fresh_stream 0.
Definition demo_connected : slot_world := run_complete (mk_completion 0 None [] None demo_report) op_stream demo_open.
Definition closed_stream (w : slot_world) : slot_world :=
  set_stream_of ((fun x => (ducknng_runtime_release_http_client_stream x).1) <$> stream w) false (others w) w.

Lemma open_close_race : let w := closed_stream demo_connected in slot_reachable demo_strerror (fun _ => true) (fun _ => true) w /\
  gap w = Some (cb_submit DUCKNNG_HTTP_STREAM_ACTION_WRITE_REQUEST) /\ sh_refcount <$> stream w = Some 0.
Proof.
  split; [|split; reflexivity]. exists demo_open. split.
  { exact (init_open demo_strerror (Some [104]) (Ok tt) (ducknng_http_client_stream_prepare (Ok tt) (Ok tt)) (Ok 1) (Ok 7) 0 1 [] _ fresh_stream eq_refl). }
  eapply rtc_l; [apply (run_step (mk_completion 0 None [] None demo_report) op_stream demo_open); reflexivity|]. fold demo_connected.
  destruct (stream demo_connected) as [x|] eqn:Ex; [|discriminate Ex]. unfold closed_stream. rewrite Ex. apply rtc_once, step_stream_close; [exact Ex|reflexivity].
Qed.

End Slot.

(** ** Waiting *)

(** The wait answers after the first round that decides it, and says whether an
    operation of the list had a result then. *)
Lemma wait_rounds_exact ids wait_ms deadline rounds b : wait_rounds ids wait_ms deadline rounds = Some b ->
  exists before rt now rc after, rounds = before ++ (rt, now, rc) :: after /\
    Forall (fun r => ducknng_count_collectable_aios_locked r.1.1 ids = 0) before /\
    (b = true <-> exists id a, id ∈ ids /\ ducknng_find_client_aio_locked rt id = Some a /\ collectable a = true).
Proof.
  induction rounds as [|[[rt now] rc] rounds IH]; cbn; [done|].
  assert (0 < ducknng_count_collectable_aios_locked rt ids <-> exists id a, id ∈ ids /\ ducknng_find_client_aio_locked rt id = Some a /\ collectable a = true) as Hcount.
  { unfold ducknng_count_collectable_aios_locked, zlen. set (l := filter _ ids). split.
    - intros H. destruct l as [|id l'] eqn:E; [cbn in H; lia|]. assert (id ∈ l) as Hin by (rewrite E; left). apply list_elem_of_filter in Hin as [H1 H2].
      destruct (ducknng_find_client_aio_locked rt id) as [a|] eqn:Ef; [|done]. exists id, a. cbn in H1. naive_solver.
    - intros (id & a & H1 & H2 & H3). assert (id ∈ l) as Hin by (apply list_elem_of_filter; rewrite H2; cbn; by rewrite H3). destruct l; [by apply elem_of_nil in Hin|cbn; lia]. }
  destruct (Z.ltb_spec 0 (ducknng_count_collectable_aios_locked rt ids)) as [Hc|Hc].
  - intros [= <-]. exists [], rt, now, rc, rounds. split; [done|]. split; [constructor|]. naive_solver.
  - assert (false = true <-> exists id a, id ∈ ids /\ ducknng_find_client_aio_locked rt id = Some a /\ collectable a = true) as Hno by (rewrite <- Hcount; split; [done|lia]).
    destruct (_ || _)%bool; [intros [= <-]; by exists [], rt, now, rc, rounds|]. destruct (negb _); [intros [= <-]; by exists [], rt, now, rc, rounds|].
    intros H. destruct (IH H) as (before & rt' & now' & rc' & after & -> & Hb & Hiff). exists ((rt, now, rc) :: before), rt', now', rc', after. split; [done|]. split; [|done].
    constructor; [|done]. cbn. assert (0 <= ducknng_count_collectable_aios_locked rt ids) by (unfold ducknng_count_collectable_aios_locked, zlen; lia). lia.
Qed.
